(* ===== verification/_CoqProject ===== *)
-Q . S2P
Prelude.v
Common.v
Logging.v
Addresses.v
Endian.v
RlpSpec.v
RlpEncoder.v
RlpDecoder.v
RlpRoundtrip.v
RlpStreaming.v
Codec.v
EthObjects.v
EthMessages.v
ChainTracker.v
EventFilter.v
AbiDecoder.v
EthWatchService.v
EthCli.v
Secp256k1.v
OpenSsl.v
RlpxTypes.v
RlpxMessages.v
RlpxFraming.v
RlpxCrypto.v
RlpxHandshake.v
RlpxSession.v
Discv5Types.v
Discv5Enr.v
Discv5Crawler.v
Discv5Bootnodes.v
Discv5Crawl.v
Discv5Packet.v
Discv5Client.v
Discv5Exchange.v
Discv5CrawlMain.v
Discv4Types.v
DialScheduler.v
Dialing.v
Coroutines.v
Discv4Packets.v
Discv4Prototype.v
Discv4Client.v
Discv4Bonding.v
Discv4Exchange.v
EthWatchConfig.v
EthWatch.v
EthWatchMain.v
StatusProbe.v
QualityFilter.v
ProbeHarness.v
DiscoveryHarness.v
