(* ===== verification/Prelude.v ===== *)
(** * A verified model of the rlp library

    The library under [src/] encodes and decodes the Recursive Length Prefix format of Ethereum
    and builds on it the objects and messages of the eth protocol, a service that watches
    contract events, and the RLPx and discovery protocols. This development models its RLP core,
    its eth layer, the RLPx transport below it, the two node discoveries, discv4 and discv5, the
    scheduling of dials, and the programs that put these together, operation by operation, and
    proves them correct; where the code does not do what it means to, the theorem states what it does.

    ** Parts of the program and files of the development

    - [Prelude.v] (this file): octets, sizes, the outcome of a fallible call, and the
      state-and-error monad [M] the stateful classes are written in. It models no code.
    - [Common.v]: the constants, error enums and error texts of [include/rlp/constants.hpp],
      [include/rlp/errors.hpp] and [src/rlp/common.cpp].
    - [Logging.v]: [src/base/rlp-logger.cpp]: the registry of loggers.
    - [Addresses.v]: the interface to Boost.Asio's addresses and their text, with an instance for IPv4,
      and the text of numbers ([std::to_string]).
    - [Endian.v]: integers as big-endian octets, [src/rlp/endian.cpp] with the operations of the
      vendored [intx.hpp] it calls ([clz], significant words and bytes, [bswap], [be::load],
      [be::store]). The lemmas prove these bit-level conversions equal to positional notation.
    - [RlpSpec.v]: the reference format, a function [rlp] from trees of strings and lists to
      octets. It models no code.
    - [RlpEncoder.v]: [class RlpEncoder] ([rlp_encoder.hpp/.cpp]) as a record of the buffer and
      the stack of open lists; every method is a function of type [EncM].
    - [RlpDecoder.v]: [class RlpDecoder] ([rlp_decoder.hpp/.cpp]) as the view still to be read;
      every method is a function of type [DecM]. The list loop that all upper layers write out
      ([while (decoder.Remaining().size() > target)]) is [read_list_of].
    - [RlpRoundtrip.v]: what the two promise each other.
    - [RlpStreaming.v]: [rlp_streaming.hpp/.cpp]: Module [LargeString] (a string streamed into a
      reserved header that is patched at the end, and read back in pieces) and Module
      [ChunkedList] (data cut into a list of strings).
    - [Codec.v]: the interface between a type and its encoding, the classes [Codec] and
      [ByteCodec], with the instances the RLP layer provides. The objects and messages are
      proved against it.
    - [EthObjects.v]: [eth/objects.hpp/.cpp]: log entries, access lists, transactions of the
      three types, receipts, block headers.
    - [EthMessages.v]: [eth/messages.hpp/.cpp], [eth/eth_types.hpp]: the Status handshake with
      its validation, announcements, requests and responses with their optional request id,
      new blocks.
    - [ChainTracker.v]: [eth/chain_tracker.hpp/.cpp]: the deduplication window.
    - [EventFilter.v]: [eth/event_filter.hpp/.cpp]: filters, and the watcher that calls back.
    - [AbiDecoder.v]: [eth/abi_decoder.hpp/.cpp]: decoding of Solidity event logs.
    - [EthWatchService.v]: [eth/eth_watch_service.hpp/.cpp]: the service that turns wire
      messages into requests and decoded events, on top of the four files before it.
    - [EthCli.v]: [eth/eth_watch_cli.hpp]: addresses in hexadecimal, the event registry.
    - [Secp256k1.v], [OpenSsl.v]: the interfaces of the two cryptographic libraries. A class holds
      the functions the code calls, and a second class the laws the theorems assume of them (a
      signature of a key verifies under its public key, the two ends of ECDH agree, decryption
      undoes encryption, the sizes); [ToySecp] and [ToySsl] are instances of both, in which
      the witnesses are evaluated. These files model no code.
    - [RlpxTypes.v]: [rlpx/rlpx_types.hpp], [rlpx/rlpx_error.hpp/.cpp]: sizes, states, errors.
    - [RlpxMessages.v]: [rlpx/protocol/messages.hpp/.cpp]: Hello, Disconnect, Ping, Pong.
    - [RlpxFraming.v]: [rlpx/framing/frame_cipher.hpp/.cpp] (the cipher's two key streams and two
      MAC accumulators), [rlpx/framing/message_stream.hpp/.cpp], and the reads, writes and the
      closing of [rlpx/socket/socket_transport.cpp].
    - [RlpxCrypto.v]: [rlpx/crypto/*.cpp], a Module for each class: [Ecdh], [Hmac], [Kdf], [Aes].
    - [RlpxHandshake.v]: [rlpx/auth/ecies_cipher.hpp/.cpp], [rlpx/auth/auth_handshake.hpp/.cpp]: ECIES,
      the auth and ack messages, [AuthHandshake::execute] on both sides, the frame secrets that
      [RlpxFraming.v] starts from.
    - [RlpxSession.v]: [rlpx/rlpx_session.hpp/.cpp] and [connect_with_timeout]: [RlpxSession::connect], the
      methods of a session and its two loops, as tasks of a step function ([session_step]).
    - [Discv5Types.v]: [discv5/discv5_constants.hpp], [discv5_types.hpp], [discv5_error.hpp/.cpp],
      [discovery/discovered_peer.hpp].
    - [Discv5Enr.v]: [discv5/discv5_enr.cpp]: node records, from their text to the peer.
    - [Discv5Crawler.v]: [discv5/discv5_crawler.hpp/.cpp]: the queue of peers and the emission of
      discovered ones.
    - [Discv5Bootnodes.v]: [discv5/discv5_bootnodes.hpp/.cpp]: the built-in bootnodes of each chain.
    - [Discv5Crawl.v]: [examples/discv5_crawl/discv5_crawl.cpp], the program of the crawler, and
      [examples/chain_config.hpp].
    - [Discv5Packet.v]: the free functions of [discv5/discv5_client.cpp]: packets, keys, messages.
    - [Discv5Client.v]: [class discv5_client], on top of the crawler and the packets: sessions,
      requests and challenges, and the coroutines as tasks of a step function ([client_step]).
    - [Discv5Exchange.v]: two clients that talk to each other. It models no code.
    - [Discv5CrawlMain.v]: the program of the crawler at work, on [Discv5Crawl.v] and [Discv5Client.v]: its
      setup, its callbacks, every order of events, and its report.
    - [Discv4Types.v]: [discv4/discv4_constants.hpp], [discv4_error.hpp/.cpp], [ForkId] and
      [DiscoveredPeer].
    - [DialScheduler.v]: [discv4/dial_history.hpp], [discv4/dial_scheduler.hpp]: which discovered
      peers are dialed, and when. The schedulers of several chains share a pool of connections;
      calls, and the callbacks of the dials in flight, are the events of a step function on that
      shared state ([dial_step]), and the invariants are proved over its runs.
    - [Dialing.v]: the scheduler together with the dials it has spawned, as coroutines that call it back, for
      any dial function: the interface ([DialFn]) between a scheduler and the programs that give it one. A
      scheduler with its dials is shown to be a world of [DialScheduler.v] ([simulates]).
    - [Coroutines.v]: coroutines that share a state, as trees of waits, with rely-guarantee reasoning for
      them. It models no code.
    - [Discv4Packets.v]: [discv4/discv4_packet.cpp], [discv4_ping.hpp/.cpp], [discv4_pong.cpp],
      [discv4_enr_request.cpp], [discv4_enr_response.cpp], [packet_factory.cpp], [sign_packet] and
      [verify_packet] of [discv4_client.cpp].
    - [Discv4Prototype.v]: [discv4/discovery.hpp], an early client in one header that only a test includes.
    - [Discv4Client.v]: [class discv4_client] ([discv4_client.hpp/.cpp]) on the two files before it: the
      handlers of datagrams, the coroutines, and a step function over all of them ([step]).
    - [Discv4Bonding.v], [Discv4Exchange.v]: what holds of that client in every run, and what two clients
      do together. They model no code.
    - [EthWatchConfig.v], [EthWatch.v]: [examples/eth_watch/eth_watch.cpp], the program that watches a chain: its
      configuration with the lists of [discv4/bootnodes.hpp] and [discv4/bootnodes_test.hpp], and
      [run_watch], in which a session and a watch service work together ([watch_step]).
    - [EthWatchMain.v]: the whole of that program, where the client of [Discv4Client.v] finds peers, the scheduler dials
      them and each dial is a watch ([program_step]).
    - [StatusProbe.v], [QualityFilter.v], [ProbeHarness.v], [DiscoveryHarness.v]: the diagnostic programs of
      [examples/discovery/]: [test_discovery.cpp], [test_discv5_connect.cpp], [test_enr_survey.cpp]. The first file has
      the dial function of two of them, the second the filter of candidates, the third a scheduler with such dials and
      its counters, the last the three programs.

    ** Conventions

    A [uint8_t], [uint64_t], [size_t] or [intx::uint256] is an integer of type [Z] in its range
    ([fits], [uint8]); where the code lets an operation wrap the wrap-around is written out
    ([u8], [u32], [u64], [usize]), and where it cannot wrap a lemma says why. Byte containers and views are
    lists of octets; indexing is only used inside their bounds, and the places where the
    code leaves them (the ABI decoder, the record decoder of discv5) have an explicit outcome for it.
    A result type is [outcome]: a value, an error, or [Diverged] for a loop that ran out of fuel. A
    variable that the code leaves uninitialised is an arbitrary parameter ([unset]).

    Fuel: a loop that consumes its input is run with one more unit than the input has octets.
    The theorems on termination ([decode_item_terminates], [message_decoders_total],
    [decode_log_data_total], [hello_decode_typed], [decode_rlp_safe], and the equalities with
    the streaming decoders' references) prove that [Diverged] is never the answer, on any input.
    A loop that draws random octets until they are a secret key ([draw_private_key]) has its fuel
    as a parameter, and the theorems hold for every fuel above the number of draws that the
    sequence of random octets needs ([finds_key]).

    Outside calls: a callback is an opaque value and an operation returns the calls it makes,
    in order. The Keccak-256 sponge of the crypto3 library and Snappy are parameters; the eth
    layer needs no hypothesis about the first, the framing assumes that it gives 32 octets, that a key
    stream undoes itself, and so does Snappy ([CipherLaws], [SnappyLaws]). The random octets are a function of the number
    of draws before. The steady clock is a parameter of
    [DialScheduler.v], the sequence of its readings, and only [dial_cooldown] assumes that it never
    goes back; the other files take a reading as an argument.

    Coroutines: one that reads or writes a TCP socket is a function of the octets that will arrive,
    up to an error, and of those written so far. The coroutines of [discv5_client] share its state:
    each runs without interruption up to its only wait, the send, so that a task is the part
    before and the part after, and the events of [client_step] say in which order tasks run, sends
    end, packets arrive and methods are called. The two loops of an RLPx session are modelled in
    the same way, with an event for each place where they wait ([session_step]). The coroutines of
    [discv4_client] wait several times each, and their waits depend on what they read from the shared
    state: they are written in the monad [Co] of [Coroutines.v], where a coroutine that waits is its wait
    and a function of what the wait reports and of the state by then.

    ** What the theorems show

    - The encoder implements the format: [encoder_refines_rlp] for every tree,
      [add_integral_encodes] for the unrolled integer encoders; [encoder_list_errors] for the
      stack of open lists and its errors.
    - The decoder accepts the format and nothing else: [decode_item_iff_rlp] for trees,
      [read_integers_iff] for integers (which also accept a literal zero octet); the round trips
      [encode_decode_item] and [vector_roundtrip]; [failed_read_keeps_view] for errors.
    - Streaming is the same as encoding and reading at once: [encodeLargeString_encodes] (but for
      a payload of one small octet), [decodeLargeString_reads], [encodeChunkedList_encodes],
      [chunked_roundtrip].
    - Objects and messages survive the wire: [transaction_roundtrip],
      [receipt_header_roundtrip], [exchanges_roundtrip],
      [get_headers_roundtrip], [status_roundtrip], [announcements_roundtrip],
      [new_block_roundtrip]; nested objects have one encoding ([nested_objects_canonical]);
      [validate_status_iff] says what a status check guarantees;
      [bare_requests_not_decodable] that messages without a request id do not come back.
    - The tracker is a sliding window ([tracker_refines_window], against the contract
      [Window]), which gives deduplication its meaning ([mark_seen_remembers]).
    - Filters are those of eth_getLogs ([matches_iff]); dispatch calls exactly the live
      subscriptions, in order ([receipt_delivery]).
    - ABI decoding inverts ABI encoding ([decode_log_encode]); on arbitrary data it ends in
      well-typed values or an error, and leaves the buffer only when an offset or a length
      makes an addition wrap ([decode_log_data_total], [decode_log_data_out_of_bounds]).
    - The service: subscriptions of the service and of the watcher stay in step
      ([service_subscriptions_in_sync]), a watched event reaches its subscriber
      ([watched_event_delivered]), a block is requested once ([request_receipts_effect]), an
      answer meets its request ([receipts_correlated]), and new block messages collapse into one
      ([second_new_block_ignored]).
    - [parse_address_iff]: the accepted texts of addresses.
    - RLPx messages: [hello_roundtrip], [hello_decode_typed] for arbitrary octets,
      [disconnect_decode].
    - Framing: two ciphers that share their secrets stay in step, and any sequence of messages
      that one stream sends is what the other receives ([messages_delivered]); a frame with another
      MAC is refused ([forged_mac_refused]); [frame_size_bounds] gives the sizes that work and the
      one that does not, [received_id_truncated] the message ids that are confused.
    - Cryptography: [key_exchange], [kdf_derive], [hmac_verify_prefix], [aes_roundtrip].
    - The handshake: [ecies_roundtrip]; an initiator completes with every peer that follows EIP-8,
      which recovers its ephemeral key from the signature, and both have the same frame secrets
      ([initiator_completes]), which is where
      [messages_delivered] starts; the library's own responder is not such a peer
      ([responder_misreads_auth], [own_ack_refused]); every failure ends the handshake with the one
      error ([execute_fails_closed]).
    - The session: a connected session has the highest common version, the peer reads its Hello, and
      both directions are in step ([session_connects]); from there, in every order of events, messages
      leave and arrive in order, each once ([session_delivers]), and what is queued is written
      ([session_drains]); nothing happens after the end ([session_ends]). A session can be active without
      a Hello ([active_without_hello]), and a disconnect ends in the error state
      ([disconnect_ends_in_error]).
    - A watch: after its own Status nothing is posted and nothing is watched before the peer has sent a
      Status of the right chain ([status_first]), two watches of a chain accept each other ([own_status_accepted]), and what an
      accepted peer sends reaches the service and its subscribers ([peer_watched]); other peers are given up
      ([silent_peer_given_up], [bad_message_ends_handshake]), and the slot is given back at most once
      ([done_once]), but not when the connection is lost ([lost_peer_keeps_slot]). The configuration:
      [enode_parsed], [parse_unsigned_iff], [watch_arguments_parsed], [chains_configured], [usable_bootnodes].
    - Node records: [base64url_decode_encode]; a well signed record is accepted with its fields
      ([signed_record_accepted]); on any octets the decoder ends, and [decode_rlp_safe] says exactly
      when it reads past them; there are three defects of the reading of fields
      ([unsigned_fields_accepted], [forged_record_accepted], [list_value_ends_record]).
    - The crawler emits a peer once, and only those of the required fork ([peers_emitted_once]);
      [enode_uri_parsed]. The built-in bootnodes are found by chain ([chains_found]) and are all ones
      that the crawler can read ([enode_lists_accepted], [enr_list_decodes]). The program: its arguments and
      seeds ([crawl_arguments_parsed], [crawl_seeds]) and what it says of a run
      ([interpretation_of_status]).
    - The discv5 client: packets and messages come back ([packet_roundtrip], [messages_parsed]), the
      local record is one the parser accepts ([local_enr_accepted]); a new session is only made
      with the owner of a record's key, over the challenge that was sent, or by answering the challenge of
      an own request, and is otherwise only lost to a handshake packet whose message cannot be read
      ([sessions_authenticated], [unreadable_handshake_erases]); two clients that start from nothing end up with matching keys
      and exchange a request and its answer ([handshake_completes]). [unauthenticated_crash],
      [lost_session_ignored] and [added_bootnode_unused] are runs that go wrong.
    - The discv4 packets: what is signed verifies ([signed_packet_verifies]); replies are read back
      ([pong_parsed], [enr_response_parsed], [eth_fork_id_found]); the parsers end
      ([discv4_parsers_total]).
    - The early client: [node_id_parsed], [prototype_ping_same]; its distance and its packet are wrong
      ([xor_distance_collapses], [test_packet_misplaced]).
    - The discv4 client: a ping between two clients is answered and bonds ([ping_answered]); the nodes of
      a reply are taken up ([neighbours_taken_up]); in every order of events, with any number of calls at
      a time, bonds, results of calls and reported peers have their reason in what was sent and received
      ([bonds_have_reasons], [calls_return_replies], [peers_reported_once]), nothing unasked for is
      accepted ([unsolicited_dropped]), every coroutine ends ([tasks_end]), and no datagrams end
      the process or keep it in a loop ([no_datagram_terminates]). But signatures are not checked
      ([signature_never_checked]), overlapping calls lose replies ([overlapping_pings_lose_a_reply]),
      and a text that is no address ends the process ([bad_address_terminates]).
    - Dialing: in every reachable state the counters are right and both caps on connections hold
      ([dial_caps_hold]), a node is not redialed within its cooldown ([dial_cooldown]), only
      accepted peers are dialed ([dialed_peers_accepted]); but a slot freed by one chain is not
      offered to the queue of another ([queue_not_served_by_others]).
    - The program of the watcher: a peer that is discovered is dialed, watched, and its events are logged
      ([discovered_peer_watched]); the program refines the scheduler's specification
      ([program_refines_scheduler]), and in every state the slots in use are the watches that run
      ([slots_are_watches]); no endpoint is dialed twice, and none that was not found ([dialed_once]). But ten lost
      peers stop all dialing ([lost_peers_stop_dialing]), and a Status sent again counts again
      ([validated_count_counts_calls]).
    - The program of the crawler: its counters are consistent whatever is received
      ([crawl_counters_consistent], [crawl_report_consistent]).
    - The diagnostic programs: a connection is counted only for a Status of Sepolia ([probe_confirmed_first]), but for each
      one ([status_counts_again]); the counters add up ([connect_accounts], [survey_counts]); what is dialed has passed
      the checks and was reported ([connect_dials_screened], [discovery_dials_filtered]), which are what they say ([routable_v4],
      [blocked_by_failures], [two_of_each_subnet]), but a port is blocked for all peers ([default_port_blocked]).

    ** What is not modelled

    The move constructors of the streaming classes, allocation and [reserve]. Of the programs under
    [examples/]: the lines they log, their usage texts, and the event loop of Boost.Asio, for which the
    events of the step functions stand, in any order. In [test_discv5_connect] the discv5 client is what reports
    candidates, and any candidate can be reported. The rest of the vendored [intx.hpp], the loading of files and the parsing
    of JSON, the accessors of the socket's addresses, and what spdlog does are not part of this code. Of the security of
    the cryptographic functions nothing is assumed or proved: the theorems say what is checked, not
    that it cannot be forged. The timers of [discv4_client] and of a watch have no duration: a
    wait can end at any time. *)
From Stdlib Require Export ZArith Lia.
From stdpp Require Export base tactics numbers list option.

Open Scope Z_scope.

(** ** Bytes and sizes *)

(** An octet, a [uint8_t]. *)
Definition uint8 (b : Z) : Prop := 0 <= b < 256.

#[export] Instance uint8_dec b : Decision (uint8 b).
Proof. unfold uint8. apply _. Defined.

(** [rlp::Bytes], [rlp::ByteView] and [std::vector<uint8_t>]: a sequence of octets. *)
Abbreviation bytes := (list Z).
Abbreviation bytes_ok := (Forall uint8).

(** [v.size()], [v.length()]. *)
Definition len {A} (v : list A) : Z := Z.of_nat (length v).

(** [v[i]]. The code only indexes below [v.size()]. *)
Definition byte_at (v : bytes) (i : Z) : Z := nth (Z.to_nat i) v 0.

(** [static_cast<uint8_t>(x)]. *)
Definition u8 (x : Z) : Z := x mod 256.

(** The same for [uint16_t], [uint32_t] and [size_t] (and [uint64_t]). *)
Definition u16 (x : Z) : Z := x mod 2 ^ 16.
Definition u32 (x : Z) : Z := x mod 2 ^ 32.
Definition u64 (x : Z) : Z := x mod 2 ^ 64.
Definition usize (x : Z) : Z := x mod 2 ^ 64.

(** [v.substr(pos, n)] for [pos <= v.size()]. *)
Definition substr {A} (v : list A) (pos n : Z) : list A :=
  take (Z.to_nat n) (drop (Z.to_nat pos) v).

(** [v.empty()]. *)
Definition empty {A} (v : list A) : bool := match v with [] => true | _ => false end.

(** [std::array<uint8_t, N>]. *)
Definition is_array (n : nat) (h : bytes) : Prop := length h = n /\ bytes_ok h.

#[export] Instance is_array_dec n h : Decision (is_array n h).
Proof. unfold is_array. apply _. Defined.

Lemma len_app {A} (u v : list A) : len (u ++ v) = len u + len v.
Proof. unfold len. rewrite length_app. lia. Qed.

Lemma len_cons {A} (x : A) v : len (x :: v) = 1 + len v.
Proof. unfold len. simpl length. lia. Qed.

Lemma len_nil {A} : len (@nil A) = 0.
Proof. reflexivity. Qed.

Lemma len_nonneg {A} (v : list A) : 0 <= len v.
Proof. unfold len. lia. Qed.

Lemma len_zero {A} (v : list A) : len v = 0 -> v = [].
Proof. destruct v; unfold len; simpl; [done | lia]. Qed.

Lemma len_take {A} n (v : list A) : 0 <= n <= len v -> len (take (Z.to_nat n) v) = n.
Proof. unfold len. intros. rewrite length_take. lia. Qed.

Lemma take_len_app {A} (u v : list A) : take (Z.to_nat (len u)) (u ++ v) = u.
Proof. unfold len. rewrite Nat2Z.id. apply take_app_length. Qed.

Lemma drop_len_app {A} (u v : list A) : drop (Z.to_nat (len u)) (u ++ v) = v.
Proof. unfold len. rewrite Nat2Z.id. apply drop_app_length. Qed.

Lemma substr_app {A} (u v w : list A) p n : len u = p -> len v = n -> substr (u ++ v ++ w) p n = v.
Proof. intros <- <-. unfold substr. by rewrite drop_len_app, take_len_app. Qed.

Lemma take_len {A} (u : list A) : take (Z.to_nat (len u)) u = u.
Proof. unfold len. rewrite Nat2Z.id. apply firstn_all. Qed.

Lemma drop_len {A} (u : list A) : drop (Z.to_nat (len u)) u = [].
Proof. unfold len. rewrite Nat2Z.id. apply drop_all. Qed.

Lemma bytes_ok_app u v : bytes_ok (u ++ v) <-> bytes_ok u /\ bytes_ok v.
Proof. apply Forall_app. Qed.

Lemma bytes_ok_cons b v : bytes_ok (b :: v) <-> uint8 b /\ bytes_ok v.
Proof. apply Forall_cons_iff. Qed.

Lemma bytes_ok_take n v : bytes_ok v -> bytes_ok (take n v).
Proof. apply Forall_take. Qed.

Lemma bytes_ok_drop n v : bytes_ok v -> bytes_ok (drop n v).
Proof. apply Forall_drop. Qed.

Lemma byte_at_ok v i : bytes_ok v -> uint8 (byte_at v i).
Proof.
  intros Hv. unfold byte_at.
  destruct (nth_in_or_default (Z.to_nat i) v 0) as [Hin | ->]; [| unfold uint8; lia].
  rewrite List.Forall_forall in Hv. by apply Hv.
Qed.

Lemma drop_cons_Z {A} (c : A) n v :
  0 <= n -> drop (Z.to_nat (1 + n)) (c :: v) = drop (Z.to_nat n) v.
Proof. intros. by replace (Z.to_nat (1 + n)) with (S (Z.to_nat n)) by lia. Qed.

Lemma drop_1_cons {A} (c : A) v : drop (Z.to_nat 1) (c :: v) = v.
Proof. reflexivity. Qed.

Lemma drop_0_Z {A} (v : list A) : drop (Z.to_nat 0) v = v.
Proof. reflexivity. Qed.

Lemma byte_at_0 b v : byte_at (b :: v) 0 = b.
Proof. reflexivity. Qed.

Lemma byte_at_1 a b v : byte_at (a :: b :: v) 1 = b.
Proof. reflexivity. Qed.

Create Rewrite HintDb sizes.
#[export] Hint Rewrite @len_app @len_cons @len_nil : sizes.

(** Linear arithmetic on sizes of concatenations. *)
Ltac len_lia :=
  autorewrite with sizes in *;
  repeat match goal with
         | |- context [len ?v] =>
             lazymatch goal with
             | _ : 0 <= len v |- _ => fail
             | _ => pose proof (len_nonneg v)
             end
         | _ : context [len ?v] |- _ =>
             lazymatch goal with
             | _ : 0 <= len v |- _ => fail
             | _ => pose proof (len_nonneg v)
             end
         end; lia.

(** Octet sequences given by their elements are octets. *)
Ltac octets :=
  first [ apply (bool_decide_unpack _); vm_compute; exact I
        | vm_compute; repeat constructor; discriminate ].

(** Case analysis on a boolean comparison of integers. *)
Ltac zcase :=
  match goal with
  | |- context [Z.ltb ?a ?b] => destruct (Z.ltb_spec a b)
  | |- context [Z.leb ?a ?b] => destruct (Z.leb_spec a b)
  | |- context [Z.eqb ?a ?b] => destruct (Z.eqb_spec a b)
  end.

(** ** Outcomes and the state-and-error monad *)

(** A call returns a value, returns an error ([outcome::result]), or, for a loop run with
    fuel, exhausts it. No theorem of the development assumes away [Diverged]. *)
Inductive outcome (E A : Type) :=
| Ok (a : A)
| Err (e : E)
| Diverged.
Arguments Ok {E A} a.
Arguments Err {E A} e.
Arguments Diverged {E A}.

#[export] Instance outcome_eq_dec {E A} `{EqDecision E} `{EqDecision A} :
  EqDecision (outcome E A).
Proof. solve_decision. Defined.

(** [if (r) ...]: the result holds a value. *)
Definition is_ok {E A} (r : outcome E A) : bool :=
  match r with Ok _ => true | _ => false end.

(** Chaining results without state ([BOOST_OUTCOME_TRY] on a pure call). *)
Definition obind {E A B} (r : outcome E A) (f : A -> outcome E B) : outcome E B :=
  match r with Ok a => f a | Err e => Err e | Diverged => Diverged end.

(** [if (!r) return e;]: the error of a pure call is replaced. *)
Definition map_err {E E' A} (e : E') (r : outcome E A) : outcome E' A :=
  match r with Ok a => Ok a | Err _ => Err e | Diverged => Diverged end.

(** A method that may change an object of type [S] and fail with [E]. The object's state
    after a failure is kept: callers can observe it. *)
Definition M (S E A : Type) : Type := S -> outcome E A * S.

(** [auto r = m; if (!r) return e;] when the caller has error type [E']. *)
Definition with_error {S E E' A} (e : E') (m : M S E A) : M S E' A :=
  fun s => let '(r, s') := m s in (map_err e r, s').

#[export] Instance M_ret S E : MRet (M S E) := fun _ a s => (Ok a, s).
#[export] Instance M_bind S E : MBind (M S E) := fun _ _ f m s =>
  match m s with
  | (Ok a, s') => f a s'
  | (Err e, s') => (Err e, s')
  | (Diverged, s') => (Diverged, s')
  end.

Section monad.
Context {S E : Type}.

(** [return error;] *)
Definition throw {A} (e : E) : M S E A := fun s => (Err e, s).

(** [if (!m) return e;]: the callee's error is replaced. *)
Definition or_else {A} (m : M S E A) (e : E) : M S E A := fun s =>
  match m s with
  | (Err _, s') => (Err e, s')
  | r => r
  end.

(** [if (b) return e;] *)
Definition fail_if (b : bool) (e : E) : M S E unit :=
  if b then throw e else mret tt.

(** A result computed without touching the object. *)
Definition lift {A} (r : outcome E A) : M S E A := fun s => (r, s).

Definition get_state : M S E S := fun s => (Ok s, s).
Definition put_state (s : S) : M S E unit := fun _ => (Ok tt, s).

(** [for (const auto& x : xs) { f(x) }], leaving at the first error. *)
Definition for_each {A} (xs : list A) (f : A -> M S E unit) : M S E unit :=
  (fix go xs := match xs with
                | [] => mret tt
                | x :: xs => f x ;; go xs
                end) xs.

Lemma bind_ok {A B} (m : M S E A) (f : A -> M S E B) s a s' :
  m s = (Ok a, s') -> (m ≫= f) s = f a s'.
Proof. intros H. unfold mbind, M_bind. by rewrite H. Qed.

Lemma bind_err {A B} (m : M S E A) (f : A -> M S E B) s e s' :
  m s = (Err e, s') -> (m ≫= f) s = (Err e, s').
Proof. intros H. unfold mbind, M_bind. by rewrite H. Qed.

Lemma bind_assoc {A B C} (m : M S E A) (f : A -> M S E B) (g : B -> M S E C) s :
  ((m ≫= f) ≫= g) s = (m ≫= (fun a => f a ≫= g)) s.
Proof. unfold mbind, M_bind. by destruct (m s) as [[|?|] ?]. Qed.

Lemma bind_inv {A B} (m : M S E A) (f : A -> M S E B) s b s'' :
  (m ≫= f) s = (Ok b, s'') -> exists a s', m s = (Ok a, s') /\ f a s' = (Ok b, s'').
Proof.
  unfold mbind, M_bind. destruct (m s) as [[a|e|] s'] eqn:Hm; [eauto | done | done].
Qed.

Lemma or_else_ok {A} (m : M S E A) e s a s' :
  or_else m e s = (Ok a, s') <-> m s = (Ok a, s').
Proof. unfold or_else. destruct (m s) as [[|?|] ?]; split; congruence. Qed.
End monad.

(** [m] leaves the part [f] of the state alone, also when it fails. *)
Definition preserves {S E A T} (f : S -> T) (m : M S E A) : Prop := forall s, f (snd (m s)) = f s.

Section preserves.
Context {S E T : Type} (f : S -> T).

Lemma preserves_bind {A B} (m : M S E A) (k : A -> M S E B) :
  preserves f m -> (forall a, preserves f (k a)) -> preserves f (m ≫= k).
Proof.
  intros Hm Hk s. specialize (Hm s). unfold mbind, M_bind. destruct (m s) as [[a| |] s']; [| done ..].
  by rewrite Hk.
Qed.

Lemma preserves_with_error {E' A} (e : E') (m : M S E A) : preserves f m -> preserves f (with_error e m).
Proof. intros Hm s. specialize (Hm s). unfold with_error. by destruct (m s). Qed.

Lemma preserves_fail_if b (e : E) : preserves f (fail_if b e).
Proof. by destruct b. Qed.

Lemma preserves_lift {A} (r : outcome E A) : preserves f (lift r).
Proof. done. Qed.

Lemma preserves_get_state : preserves f (get_state (E := E)).
Proof. done. Qed.

Lemma preserves_ret {A} (a : A) : preserves f (mret a : M S E A).
Proof. done. Qed.
End preserves.

Create HintDb preserves.
#[export] Hint Resolve preserves_bind preserves_with_error preserves_fail_if preserves_lift preserves_get_state preserves_ret : preserves.

(** Unfold a monadic program one level, and decide its guards by linear arithmetic on the
    integers (and sizes) in scope. *)
Ltac unfold_m :=
  unfold fail_if, throw, lift, get_state, put_state, mbind, M_bind, mret, M_ret in *;
  cbv beta iota in *.

Ltac decide_guard :=
  match goal with
  | |- context [if ?b then _ else _] =>
      let E := fresh "E" in
      destruct b eqn:E; cbn [negb andb orb] in E; try (exfalso; lia); cbv beta iota
  end.

Ltac decide_guard_in H :=
  match type of H with
  | context [if ?b then _ else _] =>
      let E := fresh "E" in
      destruct b eqn:E; cbn [negb andb orb] in E; try (exfalso; lia); cbv beta iota in H;
      try discriminate H
  end.

(** ** Disjoint bits *)

Lemma lor_add hi lo k : 0 <= k -> hi mod 2 ^ k = 0 -> 0 <= lo < 2 ^ k -> Z.lor hi lo = hi + lo.
Proof.
  intros Hk Hhi Hlo. assert (Z.land hi lo = 0) as Hl.
  { apply Z.bits_inj'. intros i Hi. rewrite Z.land_spec, Z.bits_0.
    destruct (Z.ltb_spec i k).
    - rewrite <- (Z.mod_pow2_bits_low hi k i) by lia. by rewrite Hhi, Z.bits_0.
    - rewrite <- (Z.mod_small lo (2 ^ k)) by lia. rewrite Z.mod_pow2_bits_high by lia. apply andb_false_r. }
  pose proof (Z.add_lor_land hi lo). lia.
Qed.

Lemma lor_horner a b k' k : 0 <= k -> k' = k + 8 -> 0 <= b < 256 ->
  Z.lor (a * 2 ^ k') (b * 2 ^ k) = (a * 256 + b) * 2 ^ k.
Proof.
  intros Hk -> Hb. pose proof (Z.pow_add_r 2 k 8 ltac:(lia) ltac:(lia)) as E. change (2 ^ 8) with 256 in E.
  rewrite (lor_add _ _ (k + 8)); [rewrite E; lia | lia | apply Z.mod_mul; lia | rewrite E; nia].
Qed.
