(* ===== verification/Common.v ===== *)
(** * Common: constants, errors and text

    [include/rlp/constants.hpp], [include/rlp/errors.hpp], [src/rlp/common.cpp]. *)
From stdpp Require Export strings.
From S2P Require Export Prelude.
Open Scope Z_scope.

(** ** constants.hpp *)
Definition kEmptyStringCode : Z := 0x80.
Definition kEmptyListCode : Z := 0xC0.
Definition kMaxShortStringLen : Z := 55.
Definition kMaxShortListLen : Z := 55.
Definition kShortStringOffset : Z := 0x80.
Definition kLongStringOffset : Z := 0xB7.
Definition kShortListOffset : Z := 0xC0.
Definition kLongListOffset : Z := 0xF7.
Definition kRlpSingleByteThreshold : Z := 0x80.
Definition kLongPrefixByteSize : Z := 1.
Definition kSingleByteStringSize : Z := 2.

(** [struct Header] (the field [list] is [is_list] here). *)
Record Header := mkHeader {
  is_list : bool;
  payload_size_bytes : Z;
  header_size_bytes : Z
}.

(** [enum class Leftover]. *)
Inductive Leftover := kProhibit | kAllow.

(** ** errors.hpp *)
Module EncodingError.
Inductive t := kPayloadTooLarge | kEmptyInput | kUnclosedList | kUnmatchedEndList.
End EncodingError.
Abbreviation EncodingError := EncodingError.t.

Module DecodingError.
Inductive t :=
| kOverflow | kLeadingZero | kInputTooShort | kInputTooLong | kNonCanonicalSize
| kUnexpectedList | kUnexpectedString | kUnexpectedLength | kUnexpectedListElements
| kInvalidVrsValue | kListLengthMismatch | kNotInList | kMalformedHeader
| kAlreadyFinalized | kNotFinalized | kInvalidChunkSize | kHeaderSizeExceeded.
End DecodingError.
Abbreviation DecodingError := DecodingError.t.

Module StreamingError.
Inductive t := kAlreadyFinalized | kNotFinalized | kInvalidChunkSize | kHeaderSizeExceeded.
End StreamingError.
Abbreviation StreamingError := StreamingError.t.

#[export] Instance EncodingError_eq_dec : EqDecision EncodingError.
Proof. solve_decision. Defined.
#[export] Instance DecodingError_eq_dec : EqDecision DecodingError.
Proof. solve_decision. Defined.
#[export] Instance StreamingError_eq_dec : EqDecision StreamingError.
Proof. solve_decision. Defined.
#[export] Instance Header_eq_dec : EqDecision Header.
Proof. solve_decision. Defined.

(** [EncodingResult<T>], [Result<T>] and [StreamingResult<T>]. *)
Abbreviation EncodingResult := (outcome EncodingError).
Abbreviation Result := (outcome DecodingError).
Abbreviation StreamingResult := (outcome StreamingError).

(** ** common.cpp *)
Definition encoding_error_to_string (err : EncodingError) : string :=
  match err with
  | EncodingError.kPayloadTooLarge => "RLP Encoding: Payload exceeds 64-bit limit"
  | EncodingError.kEmptyInput => "RLP Encoding: Empty input not allowed"
  | EncodingError.kUnclosedList => "RLP Encoding: Unclosed list"
  | EncodingError.kUnmatchedEndList => "RLP Encoding: EndList without matching BeginList"
  end%string.

(** [kUnexpectedLength] has no case and falls to [default]. *)
Definition decoding_error_to_string (err : DecodingError) : string :=
  match err with
  | DecodingError.kOverflow => "RLP Overflow"
  | DecodingError.kLeadingZero => "RLP Leading Zero"
  | DecodingError.kInputTooShort => "RLP Input Too Short"
  | DecodingError.kInputTooLong => "RLP Input Too Long"
  | DecodingError.kNonCanonicalSize => "RLP Non-Canonical Size"
  | DecodingError.kUnexpectedList => "RLP Unexpected List"
  | DecodingError.kUnexpectedString => "RLP Unexpected String"
  | DecodingError.kUnexpectedListElements => "RLP Unexpected List Elements"
  | DecodingError.kInvalidVrsValue => "RLP Invalid VRS Value"
  | DecodingError.kListLengthMismatch => "RLP List Length Mismatch"
  | DecodingError.kNotInList => "RLP Operation requires being in a list context"
  | DecodingError.kMalformedHeader => "RLP Malformed Header"
  | DecodingError.kAlreadyFinalized => "RLP Already Finalized"
  | DecodingError.kNotFinalized => "RLP Not Finalized"
  | DecodingError.kInvalidChunkSize => "RLP Invalid Chunk Size"
  | DecodingError.kHeaderSizeExceeded => "RLP Header Size Exceeded"
  | _ => "RLP Unknown Error"
  end%string.

Definition streaming_error_to_string (err : StreamingError) : string :=
  match err with
  | StreamingError.kAlreadyFinalized => "RLP Streaming: Already finalized"
  | StreamingError.kNotFinalized => "RLP Streaming: Not finalized"
  | StreamingError.kInvalidChunkSize => "RLP Streaming: Invalid chunk size"
  | StreamingError.kHeaderSizeExceeded => "RLP Streaming: Header size exceeded"
  end%string.

(** The digit [std::hex] prints for a nibble. *)
Definition hex_digit (d : Z) : Ascii.ascii :=
  Ascii.ascii_of_N (Z.to_N (if d <? 10 then 48 + d else 87 + d)).

(** [hexToString]: each octet printed with [std::hex], [std::setw(2)] and [std::setfill('0')]. *)
Fixpoint hexToString (bv : bytes) : string :=
  match bv with
  | [] => EmptyString
  | b :: bv => String (hex_digit (b / 16)) (String (hex_digit (b mod 16)) (hexToString bv))
  end.

(** The octets of a string literal. *)
Definition text (s : string) : bytes :=
  map (fun c => Z.of_N (Ascii.N_of_ascii c)) (String.list_ascii_of_string s).
