(* ===== verification/Logging.v ===== *)
(** * Logging: the registry of loggers

    [src/base/rlp-logger.cpp]: [createLogger], which makes a logger for a tag or finds it. The registry of spdlog is a
    map from tags to loggers; what a logger is, and how spdlog makes one, are parameters ([Spdlog]). The mutex of the function
    makes a call atomic. What is logged is no part of the development.

    Theorem: a call never fails, gives the logger that is registered under the tag from then on, and leaves the
    others; without a path the logger stays the same ([logger_registered]). *)
From stdpp Require Export gmap.
From stdpp Require Import strings.
From S2P Require Export Prelude.
Open Scope Z_scope.

(** ** Spdlog *)

(** The loggers, and what the code does with one. *)
Class Spdlog (L : Type) := {
  basic_logger_mt : string -> string -> L;
  stdout_color_mt : string -> L;
  set_pattern : string -> L -> L;
  set_level : Z -> L -> L
}.

Section logging.
Context {L : Type} `{Spdlog L}.

Abbreviation Registry := (gmap string L).

(** A new logger is registered; spdlog throws when the tag has one. A registered logger is shared, so that a change of it is
    one of the registry. *)
Definition register_logger (tag : string) (logger : L) (r : Registry) : option Registry :=
  match r !! tag with Some _ => None | None => Some (<[tag := logger]> r) end.

(** ** createLogger *)

Definition setGlobalPattern (logger : L) : L := set_pattern "[%Y-%m-%d %H:%M:%S][%l][%n] %v" logger.
Definition setDebugPattern (logger : L) : L := set_pattern "[%Y-%m-%d %H:%M:%S.%F][th:%t][%l][%n] %v" logger.

(** The helper of the anonymous namespace, other than on Android. *)
Definition create_logger (tag : string) (debug_mode : bool) (basepath : string) (r : Registry) : option (L * Registry) :=
  let made := if (0 <? String.length basepath)%nat then basic_logger_mt tag basepath else stdout_color_mt tag in
  r ← register_logger tag made r;
  let logger := if debug_mode then setDebugPattern made else setGlobalPattern made in
  Some (logger, <[tag := logger]> r).

(** [level] is the level of spdlog at the time. *)
Definition createLogger (level : Z) (tag basepath : string) (r : Registry) : option (L * Registry) :=
  match r !! tag with
  | Some logger =>
      if bool_decide (basepath = "") then Some (logger, r) else create_logger tag false basepath (delete tag r)
  | None =>
      '(logger, r) ← create_logger tag false basepath r;
      let logger := set_level level logger in Some (logger, <[tag := logger]> r)
  end.

(** ** What it does *)

Lemma create_logger_new tag debug basepath r : r !! tag = None ->
  exists logger, create_logger tag debug basepath r = Some (logger, <[tag := logger]> r).
Proof.
  intros Hr. unfold create_logger, register_logger. rewrite Hr. cbn [mbind option_bind]. eexists. by rewrite insert_insert_eq.
Qed.

(** The logger of a call is the one that later calls find, whatever its path and level; no other tag is concerned. Where the
    tag has a logger and there is no path nothing changes. *)
Theorem logger_registered level tag basepath r : exists logger r', createLogger level tag basepath r = Some (logger, r')
  /\ r' !! tag = Some logger /\ (forall tag', tag' <> tag -> r' !! tag' = r !! tag')
  /\ (forall level', createLogger level' tag "" r' = Some (logger, r'))
  /\ (basepath = ""%string -> is_Some (r !! tag) -> r' = r).
Proof.
  assert (forall logger r', r' !! tag = Some logger -> forall level', createLogger level' tag "" r' = Some (logger, r')) as Hsame
    by (intros logger r' Hr level'; unfold createLogger; by rewrite Hr, bool_decide_true).
  unfold createLogger at 1. destruct (r !! tag) as [logger|] eqn:Er.
  - case_bool_decide as Hb.
    + exists logger, r. split_and!; try done. by apply Hsame.
    + destruct (create_logger_new tag false basepath (delete tag r) (lookup_delete_eq _ _)) as [l ->].
      exists l, (<[tag := l]> (delete tag r)). assert (<[tag := l]> (delete tag r) !! tag = Some l) as Hl by by rewrite lookup_insert_eq.
      split_and!; [done | done | intros tag' Hn; by rewrite lookup_insert_ne, lookup_delete_ne | by apply Hsame | done].
  - destruct (create_logger_new tag false basepath r Er) as [l ->]. cbn [mbind option_bind]. rewrite insert_insert_eq.
    exists (set_level level l), (<[tag := set_level level l]> r).
    assert (<[tag := set_level level l]> r !! tag = Some (set_level level l)) as Hl by by rewrite lookup_insert_eq.
    split_and!; [done | done | intros tag' Hn; by rewrite lookup_insert_ne | by apply Hsame | by intros _ [? [=]]].
Qed.
End logging.
