(* ===== verification/Addresses.v ===== *)
(** * Addresses: the text of network addresses

    The interface of Boost.Asio's addresses that discv4 and discv5 use, [std::to_string] of an
    integer, and an instance for IPv4. The file models no code of the repository but the
    dotted text that [discv4_client::handle_neighbours] builds. *)
From S2P Require Export Prelude.
Open Scope Z_scope.

(** An address of [boost::asio::ip], by its octets. *)
Inductive ip_address := V4 (octets : bytes) | V6 (octets : bytes).

#[export] Instance ip_address_eq_dec : EqDecision ip_address.
Proof. solve_decision. Defined.

(** [to_string] of an address, and [make_address], which reads one. *)
Class AddressText := {
  address_v4_to_string : bytes -> bytes;
  address_v6_to_string : bytes -> bytes;
  make_address : bytes -> option ip_address
}.

(** The text of an IPv4 address is read back. *)
Class AddressLaws (T : AddressText) : Prop :=
  make_address_v4_to_string a : is_array 4 a -> make_address (address_v4_to_string a) = Some (V4 a).

(** [std::to_string] of a number of at most [fuel] digits. *)
Fixpoint decimal (fuel : nat) (n : Z) : bytes :=
  match fuel with
  | O => []
  | S fuel => (if n <? 10 then [] else decimal fuel (n / 10)) ++ [48 + n mod 10]
  end.

(** Four octets in decimal, with dots between them. *)
Definition dotted (ip : bytes) : bytes :=
  decimal 3 (byte_at ip 0) ++ [46] ++ decimal 3 (byte_at ip 1) ++ [46] ++ decimal 3 (byte_at ip 2) ++ [46]
  ++ decimal 3 (byte_at ip 3).

(** ** An instance

    Dotted text is written and read; the text of an IPv6 address is its octets. *)
Module DottedText.
(** The numbers between the dots. *)
Fixpoint numbers (current : Z) (s : bytes) : list Z :=
  match s with
  | [] => [current]
  | c :: s => if c =? 46 then current :: numbers 0 s else numbers (current * 10 + (c - 48)) s
  end.

Definition parse (s : bytes) : option ip_address :=
  let ip := numbers 0 s in
  if bool_decide (length ip = 4%nat) && bool_decide (bytes_ok ip) && bool_decide (dotted ip = s) then Some (V4 ip)
  else if bool_decide (length s = 16%nat) then Some (V6 s) else None.

#[export] Instance text : AddressText :=
  {| address_v4_to_string := dotted; address_v6_to_string a := a; make_address := parse |}.

(** The number is read up to the next dot. *)
Lemma numbers_decimal b s : uint8 b -> numbers 0 (decimal 3 b ++ 46 :: s) = b :: numbers 0 s.
Proof.
  intros Hb. assert (forallb (fun b => bool_decide (Forall (fun c => c <> 46) (decimal 3 b)
    /\ fold_left (fun n c => n * 10 + (c - 48)) (decimal 3 b) 0 = b)) (map Z.of_nat (seq 0 256)) = true) as H
    by (vm_compute; reflexivity).
  rewrite forallb_forall in H. specialize (H b). rewrite bool_decide_eq_true in H.
  destruct H as (Hd & Hv).
  { apply in_map_iff. exists (Z.to_nat b). unfold uint8 in Hb. split; [lia |]. apply in_seq. lia. }
  assert (forall t n, Forall (fun c => c <> 46) t ->
    numbers n (t ++ 46 :: s) = fold_left (fun n c => n * 10 + (c - 48)) t n :: numbers 0 s) as Hn.
  { induction t as [|c t IH]; intros n Ht; [done |]. apply Forall_cons_iff in Ht as [Hc Ht].
    cbn [app numbers fold_left]. rewrite (proj2 (Z.eqb_neq c 46) Hc). by apply IH. }
  by rewrite Hn, Hv.
Qed.

Lemma numbers_last b : uint8 b -> numbers 0 (decimal 3 b) = [b].
Proof.
  intros Hb. pose proof (numbers_decimal b [] Hb) as H.
  assert (forall t n, numbers n (t ++ [46]) = numbers n t ++ [0]) as Hn.
  { induction t as [|c t IH]; intros n; [done |]. cbn [app numbers]. rewrite !IH. by destruct (c =? 46). }
  rewrite Hn in H. change (b :: numbers 0 []) with ([b] ++ [0]) in H. by apply app_inj_tail in H as [? _].
Qed.

#[export] Instance laws : AddressLaws text.
Proof.
  intros a [Hl Hok]. change (parse (dotted a) = Some (V4 a)). destruct a as [|a [|b [|c [|d [|]]]]]; try done.
  repeat (apply bytes_ok_cons in Hok as [? Hok]).
  assert (numbers 0 (dotted [a; b; c; d]) = [a; b; c; d]) as E.
  { unfold dotted. cbn [app]. change (byte_at [a; b; c; d] 0) with a. change (byte_at [a; b; c; d] 1) with b.
    change (byte_at [a; b; c; d] 2) with c. change (byte_at [a; b; c; d] 3) with d.
    by rewrite !numbers_decimal, numbers_last. }
  unfold parse. rewrite E. rewrite (bool_decide_true (bytes_ok _)) by (by rewrite !bytes_ok_cons).
  by rewrite (bool_decide_true (dotted _ = _)).
Qed.
End DottedText.
