(* ===== verification/Endian.v ===== *)
(** * Endian: integers as octets

    [include/rlp/endian.hpp], [src/rlp/endian.cpp], and the conversions of
    [include/rlp/intx.hpp] they call. A [uint64_t] and an [intx::uint256] are their values,
    integers in [0, 2^64) and [0, 2^256); the octets of an object are those of a
    little-endian host, whose order [bswap] reverses. *)
From S2P Require Export Common.

(** ** Objects as octets *)

(** The [n] octets of an unsigned object of value [v], lowest first ([memcpy] from it). *)
Fixpoint le_bytes (n : nat) (v : Z) : bytes :=
  match n with
  | O => []
  | S n => (v mod 256) :: le_bytes n (v / 256)
  end.

(** The value of an unsigned object with these octets ([memcpy] into it). *)
Fixpoint le_value (bs : bytes) : Z :=
  match bs with
  | [] => 0
  | b :: bs => b + 256 * le_value bs
  end.

(** The value of big-endian digits. *)
Definition be_value (bs : bytes) : Z := le_value (rev bs).

(** The [n] big-endian digits of [v]. *)
Definition be_bytes (n : nat) (v : Z) : bytes := rev (le_bytes n v).

(** [T{...}] for an unsigned type of [w] octets fits [v]. *)
Definition fits (w : Z) (v : Z) : Prop := 0 <= v < 2 ^ (8 * w).

(** ** intx.hpp *)
Module Intx.
(** [x[i]], the [i]-th 64-bit word. *)
Definition word (x i : Z) : Z := (x / 2 ^ (64 * i)) mod 2 ^ 64.

(** [clz(uint64_t)]. *)
Definition clz (x : Z) : Z := if x =? 0 then 64 else 63 - Z.log2 x.

(** [count_significant_words(uint256)]: the loop from the highest of the four words. *)
Fixpoint count_significant_words_from (i : nat) (x : Z) : Z :=
  match i with
  | O => 0
  | S j => if word x (Z.of_nat j) =? 0 then count_significant_words_from j x else Z.of_nat i
  end.
Definition count_significant_words (x : Z) : Z := count_significant_words_from 4 x.

(** [count_significant_bytes(uint64_t)]. *)
Definition count_significant_bytes64 (x : Z) : Z := (64 - clz x + 7) / 8.

(** [count_significant_bytes(uint256)]. *)
Definition count_significant_bytes (x : Z) : Z :=
  let w := count_significant_words x in
  if negb (w =? 0) then count_significant_bytes64 (word x (w - 1)) + (w - 1) * 8 else 0.

(** [bswap(uint64_t)]: [__builtin_bswap64]. *)
Definition bswap64 (x : Z) : Z := le_value (rev (le_bytes 8 x)).

(** [bswap(uint256)]: [z[num_words - 1 - i] = bswap(x[i])]. *)
Definition bswap (x : Z) : Z :=
  bswap64 (word x 3) + 2 ^ 64 * bswap64 (word x 2)
  + 2 ^ 128 * bswap64 (word x 1) + 2 ^ 192 * bswap64 (word x 0).

(** [be::store(uint8_t (&dst)[32], uint256)]. *)
Definition be_store (x : Z) : bytes := le_bytes 32 (bswap x).

(** [be::load<uint256>(const uint8_t (&bytes)[32])]. *)
Definition be_load (bs : bytes) : Z := bswap (le_value bs).
End Intx.
Import Intx.

(** ** endian.cpp *)

(** [to_big_compact]: the template for unsigned types and the [uint256] overload, which
    have the same body. *)
Definition to_big_compact (n : Z) : bytes :=
  if n =? 0 then [] else
  let num_bytes := count_significant_bytes n in
  let temp_buffer := be_store n in
  substr temp_buffer (32 - num_bytes) num_bytes.

(** [uint8_t padded[32] = {0}] with [bytes] copied to its end. *)
Definition padded (bs : bytes) : bytes :=
  replicate (Z.to_nat (32 - len bs)) 0 ++ bs.

(** [from_big_compact(ByteView, T&)] for an unsigned type of [w] octets. *)
Definition from_big_compact (w : Z) (bs : bytes) : Result Z :=
  if empty bs then Ok 0
  else if (byte_at bs 0 =? 0) && (1 <? len bs) then Err DecodingError.kLeadingZero
  else if (len bs =? 1) && (byte_at bs 0 =? 0) then Ok 0
  else if 32 <? len bs then Err DecodingError.kOverflow
  else
    let val := be_load (padded bs) in
    if 2 ^ (8 * w) - 1 <? val then Err DecodingError.kOverflow else Ok val.

(** [from_big_compact(ByteView, intx::uint256&)]. *)
Definition from_big_compact_uint256 (bs : bytes) : Result Z :=
  if empty bs then Ok 0
  else if (byte_at bs 0 =? 0) && (1 <? len bs) then Err DecodingError.kLeadingZero
  else if (len bs =? 1) && (byte_at bs 0 =? 0) then Ok 0
  else if 32 <? len bs then Err DecodingError.kOverflow
  else Ok (be_load (padded bs)).

(** ** Octets of a value *)

Lemma length_le_bytes n v : length (le_bytes n v) = n.
Proof. revert v; induction n; intros; simpl; auto. Qed.

Lemma le_bytes_ok n v : bytes_ok (le_bytes n v).
Proof.
  revert v; induction n; intros; simpl; constructor; auto.
  unfold uint8. apply Z.mod_pos_bound. lia.
Qed.

Lemma pow256_S n : 2 ^ (8 * Z.of_nat (S n)) = 256 * 2 ^ (8 * Z.of_nat n).
Proof.
  replace (8 * Z.of_nat (S n)) with (8 + 8 * Z.of_nat n) by lia.
  rewrite Z.pow_add_r; lia.
Qed.

Lemma le_value_bound bs : bytes_ok bs -> 0 <= le_value bs < 2 ^ (8 * len bs).
Proof.
  induction 1 as [|b bs Hb Hbs IH].
  { change (2 ^ (8 * len (@nil Z))) with 1. simpl. lia. }
  unfold len in *. simpl length. rewrite pow256_S. unfold uint8 in Hb. simpl le_value. lia.
Qed.

Lemma le_value_le_bytes n v : 0 <= v < 2 ^ (8 * Z.of_nat n) -> le_value (le_bytes n v) = v.
Proof.
  revert v; induction n; intros v Hv.
  { change (2 ^ (8 * Z.of_nat 0)) with 1 in Hv. simpl. lia. }
  rewrite pow256_S in Hv. simpl. rewrite IHn by (split; [apply Z.div_pos | apply Z.div_lt_upper_bound]; lia).
  pose proof (Z.div_mod v 256 ltac:(lia)). lia.
Qed.

Lemma le_bytes_le_value bs : bytes_ok bs -> le_bytes (length bs) (le_value bs) = bs.
Proof.
  induction 1 as [|b bs Hb Hbs IH]; [done |]. unfold uint8 in Hb. simpl.
  rewrite Z.mul_comm, Z.mod_add, Z.mod_small, Z.div_add, Z.div_small, Z.add_0_l by lia.
  by rewrite IH.
Qed.

Lemma le_value_app u v : le_value (u ++ v) = le_value u + 2 ^ (8 * len u) * le_value v.
Proof.
  induction u as [|b u IH].
  - replace (len (@nil Z)) with 0 by done. simpl. lia.
  - cbn [le_value app]. rewrite IH, len_cons.
    replace (8 * (1 + len u)) with (8 + 8 * len u) by lia.
    rewrite Z.pow_add_r by (unfold len; lia). change (2 ^ 8) with 256. ring.
Qed.

Lemma le_value_replicate n v : le_value (v ++ replicate n 0) = le_value v.
Proof.
  rewrite le_value_app. assert (le_value (replicate n 0) = 0) as -> by (induction n; simpl; lia).
  lia.
Qed.

(** Octet strings of one length with one value are equal. *)
Lemma le_value_inj u v :
  bytes_ok u -> bytes_ok v -> length u = length v -> le_value u = le_value v -> u = v.
Proof.
  intros Hu Hv Hl E. rewrite <- (le_bytes_le_value u Hu), <- (le_bytes_le_value v Hv).
  by rewrite Hl, E.
Qed.

Lemma bytes_ok_rev v : bytes_ok (rev v) <-> bytes_ok v.
Proof. split; intros H; [rewrite <- (rev_involutive v) |]; by apply Forall_rev. Qed.

Lemma len_rev {A} (v : list A) : len (rev v) = len v.
Proof. unfold len. by rewrite length_rev. Qed.

Lemma be_value_bound bs : bytes_ok bs -> 0 <= be_value bs < 2 ^ (8 * len bs).
Proof. intros. rewrite <- (len_rev bs). apply le_value_bound. by apply bytes_ok_rev. Qed.

Lemma be_value_cons b bs : be_value (b :: bs) = b * 2 ^ (8 * len bs) + be_value bs.
Proof. unfold be_value. simpl rev. rewrite le_value_app, len_rev. simpl. lia. Qed.

Lemma be_value_inj u v :
  bytes_ok u -> bytes_ok v -> length u = length v -> be_value u = be_value v -> u = v.
Proof.
  intros Hu Hv Hl E. rewrite <- (rev_involutive u), <- (rev_involutive v). f_equal.
  apply le_value_inj; rewrite ?bytes_ok_rev, ?length_rev; auto.
Qed.

Lemma be_bytes_ok n v : bytes_ok (be_bytes n v).
Proof. apply bytes_ok_rev, le_bytes_ok. Qed.

Lemma length_be_bytes n v : length (be_bytes n v) = n.
Proof. unfold be_bytes. by rewrite length_rev, length_le_bytes. Qed.

Lemma be_value_be_bytes n v : 0 <= v < 2 ^ (8 * Z.of_nat n) -> be_value (be_bytes n v) = v.
Proof. intros. unfold be_value, be_bytes. rewrite rev_involutive. by apply le_value_le_bytes. Qed.

Lemma le_value_le_bytes_mod n v : le_value (le_bytes n v) = v mod 2 ^ (8 * Z.of_nat n).
Proof.
  revert v; induction n; intros v.
  { change (2 ^ (8 * Z.of_nat 0)) with 1. by rewrite Z.mod_1_r. }
  rewrite pow256_S. simpl. rewrite IHn, Z.rem_mul_r by lia. lia.
Qed.

Lemma le_bytes_mod n v : le_bytes n (v mod 2 ^ (8 * Z.of_nat n)) = le_bytes n v.
Proof.
  apply le_value_inj; auto using le_bytes_ok; [by rewrite !length_le_bytes |].
  by rewrite !le_value_le_bytes_mod, Z.mod_mod by lia.
Qed.

Lemma le_bytes_app n m v : le_bytes (n + m) v = le_bytes n v ++ le_bytes m (v / 2 ^ (8 * Z.of_nat n)).
Proof.
  revert v; induction n; intros v.
  { change (2 ^ (8 * Z.of_nat 0)) with 1. by rewrite Z.div_1_r. }
  rewrite pow256_S, <- Z.div_div by lia. simpl. by rewrite IHn.
Qed.

(** ** The conversions of intx.hpp are the big-endian ones *)

Lemma bswap_rev x : 0 <= x < 2 ^ 256 -> bswap x = le_value (rev (le_bytes 32 x)).
Proof.
  intros Hx. unfold bswap, bswap64.
  assert (forall i, le_bytes 8 (word x i) = le_bytes 8 (x / 2 ^ (64 * i))) as Hw
    by (intros; apply (le_bytes_mod 8)).
  rewrite !Hw. change 32%nat with (8 + (8 + (8 + 8)))%nat.
  rewrite !le_bytes_app, !rev_app_distr, !Z.div_div, <- !Z.pow_add_r by lia.
  rewrite !le_value_app, !len_rev. unfold len. rewrite !length_app, !length_rev, !length_le_bytes.
  change (64 * 0) with 0. rewrite Z.div_1_r.
  repeat match goal with |- context [Z.of_nat ?n] => let z := eval vm_compute in (Z.of_nat n) in
    change (Z.of_nat n) with z end.
  repeat match goal with |- context [2 ^ ?n] => let z := eval vm_compute in n in
    progress change (2 ^ n) with (2 ^ z) end.
  ring.
Qed.

Lemma be_store_spec x : 0 <= x < 2 ^ 256 -> be_store x = be_bytes 32 x.
Proof.
  intros Hx. unfold be_store, be_bytes. rewrite bswap_rev by done.
  pose proof (le_bytes_le_value (rev (le_bytes 32 x))) as E.
  rewrite length_rev, length_le_bytes in E. apply E, bytes_ok_rev, le_bytes_ok.
Qed.

Lemma be_load_spec bs : bytes_ok bs -> length bs = 32%nat -> be_load bs = be_value bs.
Proof.
  intros Hbs Hl. pose proof (le_value_bound bs Hbs) as Hb. unfold len in Hb. rewrite Hl in Hb.
  unfold be_load, be_value. rewrite bswap_rev by (simpl in *; lia).
  by rewrite <- Hl, le_bytes_le_value.
Qed.

Lemma count_significant_words_spec i x :
  0 < x < 2 ^ (64 * Z.of_nat i) ->
  exists w, count_significant_words_from i x = w /\ 1 <= w <= Z.of_nat i
    /\ 0 < x / 2 ^ (64 * (w - 1)) < 2 ^ 64.
Proof.
  induction i as [|i IH]; intros Hx.
  { change (2 ^ (64 * Z.of_nat 0)) with 1 in Hx. lia. }
  replace (64 * Z.of_nat (S i)) with (64 * Z.of_nat i + 64) in Hx by lia.
  rewrite Z.pow_add_r in Hx by lia.
  assert (0 < 2 ^ (64 * Z.of_nat i)) as Hp by lia.
  assert (0 <= x / 2 ^ (64 * Z.of_nat i) < 2 ^ 64) as Hq.
  { split; [apply Z.div_pos | apply Z.div_lt_upper_bound]; lia. }
  cbn [count_significant_words_from]. unfold word. rewrite Z.mod_small by done.
  destruct (Z.eqb_spec (x / 2 ^ (64 * Z.of_nat i)) 0) as [E|E].
  - destruct IH as (w & Hw & Hr & Hd).
    { apply Z.div_small_iff in E; lia. }
    exists w. lia.
  - exists (Z.of_nat (S i)). replace (Z.of_nat (S i) - 1) with (Z.of_nat i) by lia. lia.
Qed.

Lemma count_significant_bytes64_spec y :
  0 < y < 2 ^ 64 ->
  exists j, count_significant_bytes64 y = j /\ 1 <= j <= 8 /\ 2 ^ (8 * (j - 1)) <= y < 2 ^ (8 * j).
Proof.
  intros Hy. exists (Z.log2 y / 8 + 1).
  assert (0 <= Z.log2 y < 64) as Hl.
  { split; [apply Z.log2_nonneg | apply Z.log2_lt_pow2; lia]. }
  pose proof (Z.div_mod (Z.log2 y) 8 ltac:(lia)).
  pose proof (Z.mod_pos_bound (Z.log2 y) 8 ltac:(lia)).
  pose proof (Z.log2_spec y ltac:(lia)).
  split; [| split].
  - unfold count_significant_bytes64, clz. destruct (Z.eqb_spec y 0); [lia |].
    replace (64 - (63 - Z.log2 y) + 7) with (Z.log2 y + 1 * 8) by lia. by rewrite Z.div_add.
  - lia.
  - pose proof (Z.pow_le_mono_r 2 (8 * (Z.log2 y / 8 + 1 - 1)) (Z.log2 y)).
    pose proof (Z.pow_le_mono_r 2 (Z.succ (Z.log2 y)) (8 * (Z.log2 y / 8 + 1))). lia.
Qed.

(** [count_significant_bytes] is the number of base-256 digits. *)
Lemma count_significant_bytes_spec x :
  0 < x < 2 ^ 256 ->
  exists k, count_significant_bytes x = k /\ 1 <= k <= 32 /\ 2 ^ (8 * (k - 1)) <= x < 2 ^ (8 * k).
Proof.
  intros Hx. destruct (count_significant_words_spec 4 x Hx) as (w & Hw & Hr & Hd).
  destruct (count_significant_bytes64_spec _ Hd) as (j & Hj & Hjr & Hjb).
  exists (j + (w - 1) * 8).
  unfold count_significant_bytes, count_significant_words, word. rewrite Hw.
  destruct (Z.eqb_spec w 0); [lia |]. cbn [negb]. rewrite Z.mod_small, Hj by lia.
  split; [done |]. split; [lia |].
  replace (8 * (j + (w - 1) * 8 - 1)) with (64 * (w - 1) + 8 * (j - 1)) by lia.
  replace (8 * (j + (w - 1) * 8)) with (64 * (w - 1) + 8 * j) by lia.
  rewrite !Z.pow_add_r by lia.
  assert (0 < 2 ^ (64 * (w - 1))) as Hp by lia.
  pose proof (Z.div_mod x (2 ^ (64 * (w - 1))) ltac:(lia)).
  pose proof (Z.mod_pos_bound x (2 ^ (64 * (w - 1))) Hp).
  nia.
Qed.

(** ** Canonical digit strings *)

(** No leading zero octet. *)
Definition canonical (bs : bytes) : Prop := match bs with [] => True | b :: _ => b <> 0 end.

#[export] Instance canonical_dec bs : Decision (canonical bs).
Proof. destruct bs; simpl; apply _. Defined.

Lemma canonical_bound b bs :
  bytes_ok (b :: bs) -> canonical (b :: bs) -> 2 ^ (8 * len bs) <= be_value (b :: bs).
Proof.
  intros Hok Hc. apply bytes_ok_cons in Hok as [Hb Hbs]. rewrite be_value_cons.
  pose proof (be_value_bound bs Hbs). unfold uint8 in Hb. simpl in Hc. nia.
Qed.

Lemma canonical_len_le u v :
  bytes_ok u -> bytes_ok v -> canonical u -> be_value u = be_value v -> len u <= len v.
Proof.
  intros Hu Hv Hc E. destruct u as [|b u]; [len_lia |].
  pose proof (canonical_bound b u Hu Hc). pose proof (be_value_bound v Hv).
  destruct (Z.le_gt_cases (len (b :: u)) (len v)) as [|Hlt]; [done |]. exfalso.
  rewrite len_cons in Hlt.
  pose proof (Z.pow_le_mono_r 2 (8 * len v) (8 * len u)). lia.
Qed.

(** A value has one canonical digit string. *)
Lemma canonical_unique u v :
  bytes_ok u -> bytes_ok v -> canonical u -> canonical v -> be_value u = be_value v -> u = v.
Proof.
  intros Hu Hv Cu Cv E. apply be_value_inj; auto.
  pose proof (canonical_len_le u v Hu Hv Cu E).
  pose proof (canonical_len_le v u Hv Hu Cv (eq_sym E)). unfold len in *. lia.
Qed.

Lemma to_big_compact_0 : to_big_compact 0 = [].
Proof. reflexivity. Qed.

Lemma to_big_compact_pos n :
  0 < n < 2 ^ 256 ->
  exists k : nat, to_big_compact n = be_bytes k n /\ 1 <= Z.of_nat k <= 32
    /\ 2 ^ (8 * (Z.of_nat k - 1)) <= n < 2 ^ (8 * Z.of_nat k).
Proof.
  intros Hn. destruct (count_significant_bytes_spec n Hn) as (k & Hk & Hr & Hb).
  exists (Z.to_nat k). rewrite Z2Nat.id by lia. split; [| lia].
  unfold to_big_compact. destruct (Z.eqb_spec n 0); [lia |].
  rewrite Hk, be_store_spec by lia. unfold substr, be_bytes.
  rewrite skipn_rev, length_le_bytes.
  assert (take (32 - Z.to_nat (32 - k)) (le_bytes 32 n) = le_bytes (Z.to_nat k) n) as ->.
  { replace (le_bytes 32 n) with (le_bytes (Z.to_nat k + (32 - Z.to_nat k)) n)
      by (f_equal; lia).
    rewrite le_bytes_app. apply take_app_length'. rewrite length_le_bytes. lia. }
  rewrite firstn_all2; [done |]. rewrite length_rev, length_le_bytes. lia.
Qed.

Lemma be_bytes_canonical k n :
  (1 <= k)%nat -> 2 ^ (8 * (Z.of_nat k - 1)) <= n < 2 ^ (8 * Z.of_nat k) ->
  canonical (be_bytes k n).
Proof.
  intros Hk Hn. assert (0 <= n) by (pose proof (Z.pow_nonneg 2 (8 * (Z.of_nat k - 1))); lia).
  pose proof (be_value_be_bytes k n ltac:(lia)) as Hv.
  pose proof (be_bytes_ok k n) as Hok. pose proof (length_be_bytes k n) as Hl.
  destruct (be_bytes k n) as [|b bs]; [simpl in Hl; lia |]. simpl. intros ->.
  apply bytes_ok_cons in Hok as [_ Hok]. rewrite be_value_cons in Hv.
  pose proof (be_value_bound bs Hok). simpl in Hl. unfold len in *.
  replace (Z.of_nat k - 1) with (Z.of_nat (length bs)) in Hn by lia. lia.
Qed.

(** [to_big_compact] gives the canonical digits, and at most 32 of them. *)
Lemma to_big_compact_spec n :
  fits 32 n ->
  bytes_ok (to_big_compact n) /\ canonical (to_big_compact n)
  /\ be_value (to_big_compact n) = n /\ len (to_big_compact n) <= 32.
Proof.
  unfold fits. intros Hn. destruct (Z.eq_dec n 0) as [->|Hz].
  { rewrite to_big_compact_0. repeat split; [constructor | len_lia]. }
  destruct (to_big_compact_pos n) as (k & -> & Hk & Hb); [lia |].
  split; [apply be_bytes_ok |]. split; [apply be_bytes_canonical; lia |].
  split; [apply be_value_be_bytes; lia |]. unfold len. rewrite length_be_bytes. lia.
Qed.

(** The number of digits of a [w]-octet value is at most [w]. *)
Lemma to_big_compact_len w n : 0 <= w <= 32 -> fits w n -> len (to_big_compact n) <= w.
Proof.
  unfold fits. intros Hw Hn. destruct (Z.eq_dec n 0) as [->|Hz].
  { rewrite to_big_compact_0. len_lia. }
  pose proof (Z.pow_le_mono_r 2 (8 * w) 256).
  destruct (to_big_compact_pos n) as (k & -> & Hk & Hb); [lia |].
  unfold len. rewrite length_be_bytes.
  destruct (Z.le_gt_cases (Z.of_nat k) w); [done | exfalso].
  pose proof (Z.pow_le_mono_r 2 (8 * w) (8 * (Z.of_nat k - 1))). lia.
Qed.

Lemma to_big_compact_nonempty n : 0 < n < 2 ^ 256 -> 1 <= len (to_big_compact n).
Proof.
  intros Hn. destruct (to_big_compact_pos n Hn) as (k & -> & Hk & _).
  unfold len. rewrite length_be_bytes. lia.
Qed.

Lemma to_big_compact_small n : 0 < n < 256 -> to_big_compact n = [n].
Proof.
  intros Hn. destruct (to_big_compact_spec n) as (Hok & Hc & Hv & _); [unfold fits; lia |].
  apply canonical_unique; auto.
  - constructor; [unfold uint8; lia | constructor].
  - simpl. lia.
  - rewrite Hv. unfold be_value. simpl. lia.
Qed.

(** Canonical digits are those of their value. *)
Lemma to_big_compact_be_value bs :
  bytes_ok bs -> canonical bs -> len bs <= 32 -> to_big_compact (be_value bs) = bs.
Proof.
  intros Hok Hc Hl. pose proof (be_value_bound bs Hok).
  pose proof (Z.pow_le_mono_r 2 (8 * len bs) 256).
  destruct (to_big_compact_spec (be_value bs)) as (Hok' & Hc' & Hv & _); [unfold fits; lia |].
  by apply canonical_unique.
Qed.

Lemma be_value_padded bs : be_value (padded bs) = be_value bs.
Proof.
  unfold padded. induction (Z.to_nat (32 - len bs)) as [|n IH]; [done |].
  simpl app. rewrite be_value_cons. lia.
Qed.

Lemma padded_ok bs : bytes_ok bs -> len bs <= 32 -> bytes_ok (padded bs) /\ length (padded bs) = 32%nat.
Proof.
  intros Hok Hl. unfold padded. split.
  - apply bytes_ok_app. split; [| done]. apply Forall_replicate. unfold uint8. lia.
  - rewrite length_app, length_replicate. unfold len in *. lia.
Qed.

Lemma be_load_padded bs : bytes_ok bs -> len bs <= 32 -> be_load (padded bs) = be_value bs.
Proof.
  intros Hok Hl. destruct (padded_ok bs Hok Hl). rewrite be_load_spec by done.
  apply be_value_padded.
Qed.

(** What the parsers accept: canonical digits, or the single octet zero. *)
Definition compact_digits (bs : bytes) : Prop := canonical bs \/ bs = [0].

Lemma from_big_compact_ok w bs :
  bytes_ok bs -> compact_digits bs -> len bs <= 32 -> be_value bs < 2 ^ (8 * w) ->
  from_big_compact w bs = Ok (be_value bs).
Proof.
  intros Hok [Hc| ->] Hl Hv; [| done].
  unfold from_big_compact. destruct bs as [|b bs]; [done |].
  cbn [empty]. rewrite byte_at_0. simpl in Hc.
  destruct (Z.eqb_spec b 0); [done |]. cbn [andb]. rewrite ?andb_false_r.
  destruct (Z.ltb_spec 32 (len (b :: bs))); [lia |]. rewrite be_load_padded by done.
  destruct (Z.ltb_spec (2 ^ (8 * w) - 1) (be_value (b :: bs))); [lia | done].
Qed.


Lemma from_big_compact_inv w bs n :
  bytes_ok bs -> 0 <= w -> from_big_compact w bs = Ok n ->
  compact_digits bs /\ len bs <= 32 /\ n = be_value bs /\ fits w n.
Proof.
  intros Hok Hw. unfold from_big_compact. destruct bs as [|b bs]; cbn [empty].
  { intros [= <-]. unfold fits. change (be_value []) with 0. split; [by left | len_lia]. }
  rewrite byte_at_0.
  destruct (Z.eqb_spec b 0) as [->|Hb].
  - destruct (Z.ltb_spec 1 (len (0 :: bs))) as [H1|H1]; cbn [andb]; [done |].
    assert (bs = []) as -> by (apply len_zero; len_lia).
    intros [= <-]. unfold fits. split; [by right |]. change (be_value [0]) with 0. len_lia.
  - cbn [andb]. rewrite andb_false_r.
    destruct (Z.ltb_spec 32 (len (b :: bs))); [done |].
    rewrite be_load_padded by done.
    destruct (Z.ltb_spec (2 ^ (8 * w) - 1) (be_value (b :: bs))); [done |].
    intros [= <-]. pose proof (be_value_bound _ Hok).
    unfold fits. split; [by left |]. lia.
Qed.

(** [from_big_compact] on a [uint256] is the template's body at 32 octets. *)
Lemma from_big_compact_uint256_eq bs :
  bytes_ok bs -> from_big_compact_uint256 bs = from_big_compact 32 bs.
Proof.
  intros Hok. unfold from_big_compact_uint256, from_big_compact.
  destruct (empty bs); [done |]. destruct (_ && _); [done |]. destruct (_ && _); [done |].
  destruct (Z.ltb_spec 32 (len bs)); [done |]. rewrite be_load_padded by done.
  pose proof (be_value_bound bs Hok). pose proof (Z.pow_le_mono_r 2 (8 * len bs) 256).
  destruct (Z.ltb_spec (2 ^ (8 * 32) - 1) (be_value bs)); [lia | done].
Qed.

(** A loop or call that cannot exhaust fuel. *)
Lemma from_big_compact_total w bs : from_big_compact w bs <> Diverged.
Proof. unfold from_big_compact. repeat case_match; done. Qed.
