(* ===== verification/RlpSpec.v ===== *)
(** * RlpSpec: the RLP format

    The reference encoding the encoder and the decoder are proved against: items are octet
    strings and lists of items, [rlp] is the encoding of the Yellow Paper (appendix B). The
    file models no code. *)
From S2P Require Export Endian.

(** The minimal big-endian digits of a natural number. *)
Definition digits (n : Z) : bytes :=
  if n =? 0 then [] else be_bytes (Z.to_nat (Z.log2 n / 8 + 1)) n.

(** The prefix of a string or list whose payload has [n] octets. *)
Definition length_prefix (list : bool) (n : Z) : bytes :=
  if n <=? 55 then [(if list then 0xC0 else 0x80) + n]
  else ((if list then 0xF7 else 0xB7) + len (digits n)) :: digits n.

Inductive item :=
| Str (s : bytes)
| Lst (l : list item).

(** Strings of one octet below 0x80 are their own encoding. *)
Definition is_literal (s : bytes) : bool :=
  match s with [b] => b <? 0x80 | _ => false end.

Definition rlp_string (s : bytes) : bytes :=
  if is_literal s then s else length_prefix false (len s) ++ s.

Definition rlp_list (body : bytes) : bytes := length_prefix true (len body) ++ body.

Fixpoint rlp (it : item) : bytes :=
  match it with
  | Str s => rlp_string s
  | Lst l => rlp_list (concat (map rlp l))
  end.

Definition rlps (l : list item) : bytes := concat (map rlp l).

(** An unsigned integer is the string of its digits. *)
Definition uint_item (n : Z) : item := Str (digits n).
Definition bool_item (b : bool) : item := uint_item (if b then 1 else 0).

(** Octets are octets. *)
Fixpoint item_ok (it : item) : Prop :=
  match it with
  | Str s => bytes_ok s
  | Lst l => fold_right (fun it P => item_ok it /\ P) True l
  end.

Section item_ind.
Context (P : item -> Prop)
  (HStr : forall s, P (Str s)) (HLst : forall l, Forall P l -> P (Lst l)).
Fixpoint item_ind_nested (it : item) : P it :=
  match it with
  | Str s => HStr s
  | Lst l => HLst l ((fix go l := match l return Forall P l with
                                  | [] => @List.Forall_nil _ P
                                  | x :: l => @List.Forall_cons _ P x l (item_ind_nested x) (go l)
                                  end) l)
  end.
End item_ind.

(** [to_big_compact] computes the minimal digits. *)
Lemma digits_eq n : fits 32 n -> to_big_compact n = digits n.
Proof.
  unfold fits, digits. intros Hn. destruct (Z.eqb_spec n 0) as [->|Hz]; [done |].
  destruct (to_big_compact_spec n Hn) as (Hok & Hc & Hv & _).
  pose proof (Z.log2_nonneg n). pose proof (Z.log2_spec n ltac:(lia)).
  pose proof (Z.div_mod (Z.log2 n) 8 ltac:(lia)).
  pose proof (Z.mod_pos_bound (Z.log2 n) 8 ltac:(lia)).
  set (k := Z.to_nat (Z.log2 n / 8 + 1)).
  pose proof (Z.pow_le_mono_r 2 (8 * (Z.of_nat k - 1)) (Z.log2 n)).
  pose proof (Z.pow_le_mono_r 2 (Z.succ (Z.log2 n)) (8 * Z.of_nat k)).
  apply canonical_unique; auto.
  - apply be_bytes_ok.
  - apply be_bytes_canonical; lia.
  - rewrite Hv, be_value_be_bytes; lia.
Qed.

Lemma digits_spec n :
  fits 32 n -> bytes_ok (digits n) /\ canonical (digits n) /\ be_value (digits n) = n.
Proof. intros Hn. rewrite <- digits_eq by done. by destruct (to_big_compact_spec n Hn) as (? & ? & ? & _). Qed.

Lemma digits_len w n : 0 <= w <= 32 -> fits w n -> len (digits n) <= w.
Proof.
  intros Hw Hn. rewrite <- digits_eq; [by apply to_big_compact_len |].
  unfold fits in *. pose proof (Z.pow_le_mono_r 2 (8 * w) (8 * 32)). lia.
Qed.

Lemma digits_nonempty n : 0 < n -> fits 32 n -> 1 <= len (digits n).
Proof. intros Hn Hf. rewrite <- digits_eq by done. apply to_big_compact_nonempty. unfold fits in Hf. lia. Qed.

Lemma digits_small n : 0 < n < 256 -> digits n = [n].
Proof. intros Hn. rewrite <- digits_eq by (unfold fits; lia). by apply to_big_compact_small. Qed.

Lemma digits_be_value bs : bytes_ok bs -> canonical bs -> len bs <= 32 -> digits (be_value bs) = bs.
Proof.
  intros Hok Hc Hl. rewrite <- digits_eq; [by apply to_big_compact_be_value |].
  pose proof (be_value_bound bs Hok). pose proof (Z.pow_le_mono_r 2 (8 * len bs) (8 * 32)).
  unfold fits. lia.
Qed.

Lemma length_prefix_nonempty l n : 1 <= len (length_prefix l n).
Proof. unfold length_prefix. case_match; len_lia. Qed.

Lemma length_prefix_len l n : 0 <= n < 2 ^ 64 -> 1 <= len (length_prefix l n) <= 9.
Proof.
  intros Hn. split; [apply length_prefix_nonempty |]. unfold length_prefix. case_match; [by rewrite len_cons, len_nil |].
  pose proof (digits_len 8 n ltac:(lia) Hn). len_lia.
Qed.

Lemma length_prefix_short l n : n <= 55 -> length_prefix l n = [(if l then 0xC0 else 0x80) + n].
Proof. intros. unfold length_prefix. by destruct (Z.leb_spec n 55); [| lia]. Qed.

Lemma rlps_cons it l : rlps (it :: l) = rlp it ++ rlps l.
Proof. done. Qed.

Lemma rlps_app l k : rlps (l ++ k) = rlps l ++ rlps k.
Proof. unfold rlps. by rewrite map_app, concat_app. Qed.

Lemma rlp_nonempty it : 1 <= len (rlp it).
Proof.
  destruct it as [s|l]; simpl.
  - unfold rlp_string. destruct s as [|b [|c s]]; cbn [is_literal];
      try case_match; autorewrite with sizes;
      pose proof (length_prefix_nonempty false); try (len_lia).
    all: rewrite ?len_app; pose proof (length_prefix_nonempty false 0);
      pose proof (length_prefix_nonempty false 1); len_lia.
  - unfold rlp_list. rewrite len_app.
    pose proof (length_prefix_nonempty true (len (concat (map rlp l)))). len_lia.
Qed.

(** ** Examples of the format *)
Example rlp_dog : rlp (Lst [Str [0x63; 0x61; 0x74]; Str [0x64; 0x6f; 0x67]])
  = [0xc8; 0x83; 0x63; 0x61; 0x74; 0x83; 0x64; 0x6f; 0x67].
Proof. reflexivity. Qed.

Example rlp_set_theory : rlp (Lst [Lst []; Lst [Lst []]; Lst [Lst []; Lst [Lst []]]])
  = [0xc7; 0xc0; 0xc1; 0xc0; 0xc3; 0xc0; 0xc1; 0xc0].
Proof. reflexivity. Qed.

Example rlp_1024 : rlp (uint_item 1024) = [0x82; 0x04; 0x00].
Proof. reflexivity. Qed.
