(* ===== verification/RlpEncoder.v ===== *)
(** * RlpEncoder: building an encoding in place

    [include/rlp/rlp_encoder.hpp], [src/rlp/rlp_encoder.cpp], the encoding half of
    [include/rlp/rlp_ethereum.hpp]. An encoder is a buffer and a stack of the positions where
    the open lists start; closing a list inserts its header at its start. A method is a
    function on the encoder that also returns a result. *)
From S2P Require Export RlpSpec.

(** ** State *)

(** [class RlpEncoder]; [list_start_positions_] with its back first. *)
Record RlpEncoder := mkEncoder {
  buffer_ : bytes;
  list_start_positions_ : list Z
}.

(** [RlpEncoder() = default]. *)
Definition new_encoder : RlpEncoder := {| buffer_ := []; list_start_positions_ := [] |}.

Abbreviation EncM A := (M RlpEncoder EncodingError A).

Definition modify_buffer (f : bytes -> bytes) : EncM unit := fun st =>
  (Ok tt, {| buffer_ := f (buffer_ st); list_start_positions_ := list_start_positions_ st |}).

(** [buffer_.push_back(b)], [buffer_.append(bs)]. *)
Definition push_back (b : Z) : EncM unit := modify_buffer (fun buf => buf ++ [b]).
Definition append (bs : bytes) : EncM unit := modify_buffer (fun buf => buf ++ bs).

(** ** Operations *)

(** [encode_header_bytes]. A [size_t] is 64 bits wide, so [static_cast<uint64_t>] keeps it. *)
Definition encode_header_bytes (list : bool) (payload_size : Z) : EncodingResult bytes :=
  let short_offset := if list then kShortListOffset else kShortStringOffset in
  let long_offset := if list then kLongListOffset else kLongStringOffset in
  if payload_size <=? kMaxShortStringLen then Ok [u8 (short_offset + payload_size)]
  else
    let len_be := to_big_compact payload_size in
    if 8 <? len len_be then Err EncodingError.kPayloadTooLarge
    else Ok (u8 (long_offset + len len_be) :: len_be).

(** [add(ByteView)]. *)
Definition add_bytes (bs : bytes) : EncM unit :=
  if (len bs =? 1) && (byte_at bs 0 <? kRlpSingleByteThreshold)
  then push_back (byte_at bs 0)
  else header ← lift (encode_header_bytes false (len bs)); append (header ++ bs).

(** [AddRaw]. *)
Definition AddRaw (bs : bytes) : EncM unit :=
  if empty bs then throw EncodingError.kEmptyInput else append bs.

(** [add(const intx::uint256&)]. *)
Definition add_uint256 (n : Z) : EncM unit :=
  if n =? 0 then push_back kEmptyStringCode
  else if n <? kRlpSingleByteThreshold then push_back (u8 n)
  else
    let be := to_big_compact n in
    header ← lift (encode_header_bytes false (len be)); append (header ++ be).

(** [add(bool)]: the template for unsigned types excludes [bool], so the call converts to
    [uint256]. *)
Definition add_bool (b : bool) : EncM unit := add_uint256 (if b then 1 else 0).

(** The loop-free digit pushes of [add_integral]: [if (val >> s) buf[len++] = val >> s] for
    each [s] of [shifts], then [buf[len++] = val & 0xFF]. *)
Definition significant_bytes (shifts : list Z) (val : Z) : bytes :=
  concat (map (fun s => if Z.shiftr val s =? 0 then [] else [u8 (Z.shiftr val s)]) shifts)
  ++ [Z.land val 0xFF].

(** [add_integral<T>] for [sizeof(T) = w]. *)
Definition add_integral (w : Z) (n : Z) : EncM unit :=
  if n =? 0 then push_back kEmptyStringCode
  else if n <? kRlpSingleByteThreshold then push_back (u8 n)
  else if w =? 1 then
    push_back (u8 (kShortStringOffset + kLongPrefixByteSize)) ;; push_back n
  else
    let buf := significant_bytes
      (if w =? 2 then [8] else if w =? 4 then [24; 16; 8]
       else [56; 48; 40; 32; 24; 16; 8]) n in
    push_back (u8 (kShortStringOffset + len buf)) ;; append buf.

Definition BeginList : EncM unit := fun st =>
  (Ok tt, {| buffer_ := buffer_ st;
             list_start_positions_ := len (buffer_ st) :: list_start_positions_ st |}).

(** [back] and [pop_back] of the positions. *)
Definition pop_start : EncM Z := fun st =>
  match list_start_positions_ st with
  | [] => (Err EncodingError.kUnmatchedEndList, st)
  | p :: ps => (Ok p, {| buffer_ := buffer_ st; list_start_positions_ := ps |})
  end.

Definition EndList : EncM unit :=
  start_pos ← pop_start;
  st ← get_state;
  let payload_len := len (buffer_ st) - start_pos in
  header ← lift (encode_header_bytes true payload_len);
  modify_buffer (fun buf =>
    take (Z.to_nat start_pos) buf ++ header ++ drop (Z.to_nat start_pos) buf).

(** [add(const std::vector<T>&)] and [add(boost::span<const T>)]. *)
Definition add_vector {T} (add : T -> EncM unit) (vec : list T) : EncM unit :=
  BeginList ;; for_each vec add ;; EndList.

(** [GetBytes], [MoveBytes]. [MoveBytes] leaves the moved-from buffer empty. *)
Definition GetBytes : EncM bytes := fun st =>
  match list_start_positions_ st with
  | [] => (Ok (buffer_ st), st)
  | _ => (Err EncodingError.kUnclosedList, st)
  end.

Definition MoveBytes : EncM bytes := fun st =>
  match list_start_positions_ st with
  | [] => (Ok (buffer_ st), {| buffer_ := []; list_start_positions_ := [] |})
  | _ => (Err EncodingError.kUnclosedList, st)
  end.

Definition clear : EncM unit := fun _ => (Ok tt, new_encoder).

(** [size()]. *)
Definition encoder_size (st : RlpEncoder) : Z := len (buffer_ st).

(** rlp_ethereum.hpp: fixed-size arrays are added as octet strings. *)
Definition addAddress (addr : bytes) : EncM unit := add_bytes addr.
Definition addHash (hash : bytes) : EncM unit := add_bytes hash.
Definition addSignature (sig : bytes) : EncM unit := add_bytes sig.
Definition addBloom (bloom : bytes) : EncM unit := add_bytes bloom.

(** A program on a fresh encoder: what the encoding functions of the upper layers are. *)
Definition run_encoder {A} (m : EncM A) : EncodingResult A := fst (m new_encoder).

(** [if (!enc.BeginList()) return kUnclosedList; body; if (!enc.EndList()) return
    kUnclosedList;]: how every encoding function of the upper layers writes a list. *)
Definition in_list (body : EncM unit) : EncM unit :=
  or_else BeginList EncodingError.kUnclosedList ;;
  body ;;
  or_else EndList EncodingError.kUnclosedList.

(** [if (!enc.add(...)) return kPayloadTooLarge;]. *)
Definition checked (add : EncM unit) : EncM unit := or_else add EncodingError.kPayloadTooLarge.

(** ** Headers and digits *)

Lemma encode_header_spec l n :
  0 <= n < 2 ^ 64 -> encode_header_bytes l n = Ok (length_prefix l n).
Proof.
  intros Hn. unfold encode_header_bytes, length_prefix, u8.
  change kMaxShortStringLen with 55. destruct (Z.leb_spec n 55).
  - rewrite Z.mod_small; [by destruct l |]. unfold kShortListOffset, kShortStringOffset. destruct l; lia.
  - assert (fits 32 n) by (unfold fits; lia).
    rewrite digits_eq by done. pose proof (digits_len 8 n ltac:(lia) ltac:(unfold fits; lia)).
    destruct (Z.ltb_spec 8 (len (digits n))); [lia |].
    rewrite Z.mod_small; [by destruct l |].
    unfold kLongListOffset, kLongStringOffset. destruct l; len_lia.
Qed.

(** The shifts [8 * k], ..., [16], [8]. *)
Fixpoint descending_shifts (k : nat) : list Z :=
  match k with
  | O => []
  | S j => 8 * Z.of_nat k :: descending_shifts j
  end.

Lemma be_bytes_S k n : be_bytes (S k) n = (n / 2 ^ (8 * Z.of_nat k)) mod 256 :: be_bytes k n.
Proof.
  unfold be_bytes. replace (S k) with (k + 1)%nat by lia.
  rewrite le_bytes_app, rev_app_distr. done.
Qed.

Lemma significant_bytes_full k n :
  2 ^ (8 * Z.of_nat k) <= n -> significant_bytes (descending_shifts k) n = be_bytes (S k) n.
Proof.
  induction k as [|k IH]; intros Hn.
  - unfold significant_bytes. cbn [descending_shifts map concat app].
    rewrite be_bytes_S. change (2 ^ (8 * Z.of_nat 0)) with 1. rewrite Z.div_1_r.
    change 255 with (Z.ones 8). by rewrite Z.land_ones by lia.
  - rewrite be_bytes_S, <- IH.
    2: { pose proof (Z.pow_le_mono_r 2 (8 * Z.of_nat k) (8 * Z.of_nat (S k))). lia. }
    unfold significant_bytes. cbn [descending_shifts map concat app].
    rewrite Z.shiftr_div_pow2 by lia.
    assert (1 <= n / 2 ^ (8 * Z.of_nat (S k))) by (apply Z.div_le_lower_bound; lia).
    destruct (Z.eqb_spec (n / 2 ^ (8 * Z.of_nat (S k))) 0); [lia |]. done.
Qed.

(** The unrolled pushes of [add_integral] are the minimal digits. *)
Lemma significant_bytes_digits k n :
  0 < n < 2 ^ (8 * Z.of_nat (S k)) -> (k < 32)%nat ->
  significant_bytes (descending_shifts k) n = digits n.
Proof.
  induction k as [|k IH]; intros Hn Hk.
  - rewrite digits_small by (simpl in *; lia). unfold significant_bytes.
    cbn [descending_shifts map concat app]. change 255 with (Z.ones 8).
    rewrite Z.land_ones, Z.mod_small by (simpl in *; lia). done.
  - destruct (Z.lt_ge_cases n (2 ^ (8 * Z.of_nat (S k)))) as [Hlt|Hge].
    + rewrite <- IH by lia. unfold significant_bytes. cbn [descending_shifts map concat].
      rewrite Z.shiftr_div_pow2, Z.div_small by lia. done.
    + rewrite significant_bytes_full by lia.
      assert (fits 32 n).
      { unfold fits. pose proof (Z.pow_le_mono_r 2 (8 * Z.of_nat (S (S k))) (8 * 32)). lia. }
      destruct (digits_spec n) as (Hok & Hc & Hv); [done |].
      apply canonical_unique; auto using be_bytes_ok.
      * apply be_bytes_canonical; [lia |].
        replace (Z.of_nat (S (S k)) - 1) with (Z.of_nat (S k)) by lia. lia.
      * rewrite Hv, be_value_be_bytes; lia.
Qed.

(** ** Appending programs *)

(** [m] appends [bs] to the buffer, leaves the open lists alone and succeeds, whenever [bs]
    is an object that can exist in memory. *)
Definition appends (m : EncM unit) (bs : bytes) : Prop :=
  len bs < 2 ^ 64 -> forall st,
    m st = (Ok tt, {| buffer_ := buffer_ st ++ bs;
                      list_start_positions_ := list_start_positions_ st |}).

Create HintDb appends.

Lemma appends_ret : appends (mret tt) [].
Proof. intros _ [buf ps]. cbn. by rewrite app_nil_r. Qed.

Lemma appends_bind m k b1 b2 :
  appends m b1 -> appends k b2 -> appends (m ;; k) (b1 ++ b2).
Proof.
  intros H1 H2 Hl st. rewrite (bind_ok _ _ _ _ _ (H1 ltac:(len_lia) st)), (H2 ltac:(len_lia)).
  cbn. by rewrite app_assoc.
Qed.

(** The last call of a sequence. *)
Lemma appends_last m b : appends m b -> appends m (b ++ []).
Proof. by rewrite app_nil_r. Qed.

Lemma appends_or_else m e bs : appends m bs -> appends (or_else m e) bs.
Proof. intros H Hl st. unfold or_else. by rewrite (H Hl). Qed.

Lemma appends_checked m bs : appends m bs -> appends (checked m) bs.
Proof. apply appends_or_else. Qed.

Lemma appends_for_each {A} (xs : list A) f g :
  (forall x, x ∈ xs -> appends (f x) (g x)) -> appends (for_each xs f) (concat (map g xs)).
Proof.
  induction xs as [|x xs IH]; intros H; cbn; [apply appends_ret |].
  apply appends_bind; [apply H; left | apply IH; intros; apply H; by right].
Qed.

Lemma appends_push_back b : appends (push_back b) [b].
Proof. intros _ [buf ps]. done. Qed.

Lemma appends_append bs : appends (append bs) bs.
Proof. intros _ [buf ps]. done. Qed.

Lemma appends_add_bytes s : appends (add_bytes s) (rlp (Str s)).
Proof.
  intros Hl st. unfold add_bytes. cbn [rlp] in *. unfold rlp_string, is_literal in *.
  change kRlpSingleByteThreshold with 0x80.
  destruct s as [|b [|c s]].
  - done.
  - rewrite byte_at_0. change (len [b] =? 1) with true. cbn [andb].
    destruct (Z.ltb_spec b 0x80); [done |].
    rewrite encode_header_spec by (change (len [b]) with 1; lia). done.
  - destruct (Z.eqb_spec (len (b :: c :: s)) 1); [len_lia |]. cbn [andb].
    rewrite encode_header_spec by len_lia. done.
Qed.

Lemma appends_AddRaw bs : bs <> [] -> appends (AddRaw bs) bs.
Proof. intros Hne. unfold AddRaw. destruct bs; [done |]. apply appends_append. Qed.

(** The encoding of a nonzero integer, by the size of its digits. *)
Lemma rlp_uint_small n : 0 < n < 0x80 -> rlp (uint_item n) = [n].
Proof.
  intros Hn. unfold uint_item. rewrite digits_small by lia. cbn. unfold rlp_string, is_literal.
  by destruct (Z.ltb_spec n 128); [| lia].
Qed.

Lemma rlp_uint_large n :
  0x80 <= n -> fits 32 n ->
  rlp (uint_item n) = (0x80 + len (digits n)) :: digits n.
Proof.
  intros Hn Hf. unfold uint_item. cbn [rlp]. unfold rlp_string.
  pose proof (digits_len 32 n ltac:(lia) Hf).
  assert (is_literal (digits n) = false) as ->.
  { destruct (digits_spec n Hf) as (Hok & Hc & Hv).
    destruct (digits n) as [|b [|c s]]; [done | | done]. cbn.
    apply bytes_ok_cons in Hok as [Hb _]. unfold be_value in Hv. cbn in Hv.
    destruct (Z.ltb_spec b 128); [lia | done]. }
  by rewrite length_prefix_short by lia.
Qed.

Lemma appends_add_uint256 n : fits 32 n -> appends (add_uint256 n) (rlp (uint_item n)).
Proof.
  intros Hf Hl. unfold add_uint256, u8. change kRlpSingleByteThreshold with 0x80.
  destruct (Z.eqb_spec n 0) as [->|Hz]; [done |].
  unfold fits in Hf. destruct (Z.ltb_spec n 0x80).
  - rewrite rlp_uint_small, Z.mod_small by lia. done.
  - rewrite rlp_uint_large by (unfold fits; lia). intros st.
    pose proof (digits_len 32 n ltac:(lia) Hf).
    rewrite digits_eq, encode_header_spec by (try done; len_lia).
    rewrite length_prefix_short by lia. done.
Qed.

Lemma appends_add_bool b : appends (add_bool b) (rlp (bool_item b)).
Proof. apply appends_add_uint256. unfold fits. destruct b; lia. Qed.

(** The widths [add] is instantiated at. *)
Definition int_width (w : Z) : Prop := w = 1 \/ w = 2 \/ w = 4 \/ w = 8.

#[export] Instance int_width_dec w : Decision (int_width w).
Proof. unfold int_width. apply _. Defined.

Lemma int_width_fits w n : int_width w -> fits w n -> fits 32 n.
Proof.
  unfold fits, int_width. intros Hw Hn.
  pose proof (Z.pow_le_mono_r 2 (8 * w) (8 * 32)). lia.
Qed.

Lemma appends_add_integral w n :
  int_width w -> fits w n -> appends (add_integral w n) (rlp (uint_item n)).
Proof.
  intros Hw Hf Hl. pose proof (int_width_fits w n Hw Hf) as Hf32.
  unfold add_integral, u8. change kRlpSingleByteThreshold with 0x80.
  destruct (Z.eqb_spec n 0) as [->|Hz]; [done |].
  pose proof Hf as [Hn _]. destruct (Z.ltb_spec n 0x80).
  { rewrite rlp_uint_small, Z.mod_small by lia. done. }
  rewrite rlp_uint_large in Hl |- * by (try done; lia).
  assert (fits 8 n) as Hf8.
  { unfold fits, int_width in *. pose proof (Z.pow_le_mono_r 2 (8 * w) (8 * 8)). lia. }
  pose proof (digits_len 8 n ltac:(lia) Hf8).
  assert (forall ds, ds = digits n ->
    appends (push_back ((kShortStringOffset + len ds) mod 256) ;; append ds)
      ((0x80 + len (digits n)) :: digits n)) as Hpush.
  { intros ds -> _ [buf ps].
    unfold kShortStringOffset. rewrite Z.mod_small by len_lia.
    unfold mbind, M_bind, append, modify_buffer. cbn. by rewrite <- app_assoc. }
  destruct Hw as [-> | [-> | [-> | ->]]]; cbn [Z.eqb Pos.eqb].
  - intros [buf ps]. rewrite digits_small by (unfold fits in Hf; lia). unfold mbind, M_bind, push_back, modify_buffer.
    cbn. by rewrite <- app_assoc.
  - refine (Hpush _ _ Hl). apply (significant_bytes_digits 1); unfold fits in Hf; lia.
  - refine (Hpush _ _ Hl). apply (significant_bytes_digits 3); unfold fits in Hf; lia.
  - refine (Hpush _ _ Hl). apply (significant_bytes_digits 7); unfold fits in Hf; lia.
Qed.

Lemma EndList_ok buf body ps :
  len body < 2 ^ 64 ->
  EndList {| buffer_ := buf ++ body; list_start_positions_ := len buf :: ps |}
  = (Ok tt, {| buffer_ := buf ++ rlp_list body; list_start_positions_ := ps |}).
Proof.
  intros Hl. unfold EndList. erewrite bind_ok by done. erewrite bind_ok by done.
  cbn [buffer_ list_start_positions_].
  replace (len (buf ++ body) - len buf) with (len body) by len_lia.
  erewrite bind_ok by (rewrite encode_header_spec by len_lia; done).
  unfold modify_buffer. cbn [buffer_ list_start_positions_].
  by rewrite take_len_app, drop_len_app.
Qed.

(** Opening a list, appending its items and closing it appends the encoded list. *)
Lemma appends_list m body : appends m body -> appends (BeginList ;; m ;; EndList) (rlp_list body).
Proof.
  intros Hm Hl [buf ps]. assert (len body < 2 ^ 64) by (unfold rlp_list in Hl; len_lia).
  erewrite bind_ok by done. erewrite bind_ok by (apply Hm; done). by apply EndList_ok.
Qed.

Lemma appends_in_list m body : appends m body -> appends (in_list m) (rlp_list body).
Proof.
  intros Hm Hl [buf ps]. assert (len body < 2 ^ 64) by (unfold rlp_list in Hl; len_lia).
  unfold in_list. erewrite bind_ok by done. erewrite bind_ok by (apply Hm; done).
  unfold or_else. cbn [buffer_ list_start_positions_]. by rewrite EndList_ok.
Qed.

Lemma appends_list_items m l : appends m (rlps l) -> appends (in_list m) (rlp (Lst l)).
Proof. apply appends_in_list. Qed.

(** A whole program: build on a fresh encoder, then take the bytes. *)
Lemma run_encoder_appends m bs :
  appends m bs -> len bs < 2 ^ 64 -> run_encoder (m ;; GetBytes) = Ok bs.
Proof. intros H Hl. unfold run_encoder. by erewrite bind_ok by apply (H Hl). Qed.

#[export] Hint Resolve appends_ret appends_last appends_checked appends_or_else
  appends_push_back appends_append appends_add_bytes appends_add_uint256 appends_add_bool
  appends_add_integral appends_in_list appends_list_items : appends.

(** [add] on a vector or a span of elements that [add] accepts. *)
Lemma appends_add_vector {T} (add : T -> EncM unit) (f : T -> item) vec :
  (forall x, x ∈ vec -> appends (add x) (rlp (f x))) ->
  appends (add_vector add vec) (rlp (Lst (map f vec))).
Proof.
  intros H. apply appends_list. cbn. rewrite map_map. by apply appends_for_each.
Qed.

(** ** Encoding a tree of items *)

(** The calls that encode an item: [add] for a string, [BeginList], the items and [EndList]
    for a list. *)
Fixpoint encode_item (it : item) : EncM unit :=
  match it with
  | Str s => add_bytes s
  | Lst l => BeginList ;; for_each l encode_item ;; EndList
  end.

Lemma appends_encode_item it : appends (encode_item it) (rlp it).
Proof.
  induction it as [s|l IH] using item_ind_nested; [apply appends_add_bytes |].
  apply appends_list, appends_for_each. intros x Hx. rewrite List.Forall_forall in IH.
  apply IH. by apply list_elem_of_In.
Qed.

(** C1: the encoder implements the format. Whatever tree of strings and lists is fed to a
    fresh encoder through [add], [BeginList] and [EndList], [GetBytes] succeeds with exactly
    the reference encoding of that tree, however deep the nesting, as long as the encoding
    fits a 64-bit size. *)
Theorem encoder_refines_rlp it :
  len (rlp it) < 2 ^ 64 -> run_encoder (encode_item it ;; GetBytes) = Ok (rlp it).
Proof. apply run_encoder_appends, appends_encode_item. Qed.

Lemma encoder_refines_rlp_witness :
  run_encoder (encode_item (Lst [Str [0x63; 0x61; 0x74]; Lst [Str []; Str [0x0f]]]) ;; GetBytes)
  = Ok [0xc7; 0x83; 0x63; 0x61; 0x74; 0xc2; 0x80; 0x0f].
Proof.
  rewrite (encoder_refines_rlp (Lst [Str [0x63; 0x61; 0x74]; Lst [Str []; Str [0x0f]]]));
    [reflexivity | vm_compute; reflexivity].
Defined.

(** The octets of an integer are few. *)
Lemma rlp_uint_len n : fits 32 n -> len (rlp (uint_item n)) <= 33.
Proof.
  intros Hf. pose proof (digits_len 32 n ltac:(lia) Hf). destruct (Z.lt_ge_cases n 0x80).
  - destruct (Z.eq_dec n 0) as [-> |]; [done |]. unfold fits in Hf. rewrite rlp_uint_small by lia. len_lia.
  - rewrite rlp_uint_large by done. len_lia.
Qed.

(** the four unrolled integer encoders and the [uint256] one agree with the format: an
    integer of any supported width is appended as the string of its minimal big-endian
    digits, and the open lists are untouched. *)
Theorem add_integral_encodes w n st :
  int_width w -> fits w n ->
  add_integral w n st
  = (Ok tt, {| buffer_ := buffer_ st ++ rlp (uint_item n);
               list_start_positions_ := list_start_positions_ st |})
  /\ add_integral w n st = add_uint256 n st.
Proof.
  intros Hw Hf. pose proof (int_width_fits w n Hw Hf) as Hf32.
  assert (len (rlp (uint_item n)) < 2 ^ 64) as Hl by (pose proof (rlp_uint_len n Hf32); lia).
  rewrite (appends_add_integral w n Hw Hf Hl), (appends_add_uint256 n Hf32 Hl). done.
Qed.

Lemma add_integral_encodes_witness :
  fits 4 1024 /\ fst (add_integral 4 1024 new_encoder) = Ok tt
  /\ buffer_ (snd (add_integral 4 1024 new_encoder)) = [0x82; 0x04; 0x00].
Proof.
  destruct (add_integral_encodes 4 1024 new_encoder) as [H _];
    [right; right; left; reflexivity | split; vm_compute; congruence |].
  rewrite H. split; [split; vm_compute; congruence | split; reflexivity].
Defined.

(** ** Open lists *)

(** The starts of the open lists, innermost first, lie inside the buffer and enclose each
    other, so that closing one computes a payload size that does not wrap and inserts its
    header inside the buffer. *)
Fixpoint starts_ok (hi : Z) (ps : list Z) : Prop :=
  match ps with
  | [] => True
  | p :: ps => 0 <= p <= hi /\ starts_ok p ps
  end.

Definition encoder_wf (st : RlpEncoder) : Prop :=
  starts_ok (len (buffer_ st)) (list_start_positions_ st).

(** The calls a client can make. *)
Inductive encoder_op :=
| OpAdd (bs : bytes) | OpAddRaw (bs : bytes) | OpAddIntegral (w n : Z) | OpAddUint256 (n : Z)
| OpAddBool (b : bool) | OpBeginList | OpEndList | OpGetBytes | OpMoveBytes | OpClear.

Definition apply_op (op : encoder_op) : EncM unit :=
  match op with
  | OpAdd bs => add_bytes bs
  | OpAddRaw bs => AddRaw bs
  | OpAddIntegral w n => add_integral w n
  | OpAddUint256 n => add_uint256 n
  | OpAddBool b => add_bool b
  | OpBeginList => BeginList
  | OpEndList => EndList
  | OpGetBytes => _ ← GetBytes; mret tt
  | OpMoveBytes => _ ← MoveBytes; mret tt
  | OpClear => clear
  end.

(** A client that keeps calling, whatever each call returns. *)
Definition run_ops (ops : list encoder_op) (st : RlpEncoder) : RlpEncoder :=
  fold_left (fun st op => snd (apply_op op st)) ops st.

Lemma starts_ok_mono hi hi' ps : hi <= hi' -> starts_ok hi ps -> starts_ok hi' ps.
Proof. destruct ps; simpl; [done | intros ? [? ?]; split; [lia | done]]. Qed.

(** [m] only ever appends to the buffer. *)
Definition only_appends (m : EncM unit) : Prop := forall st, exists bs,
  snd (m st) = {| buffer_ := buffer_ st ++ bs; list_start_positions_ := list_start_positions_ st |}.

Lemma only_appends_append bs : only_appends (append bs).
Proof. intros [buf ps]. by exists bs. Qed.

Lemma only_appends_fail e : only_appends (throw e).
Proof. intros [buf ps]. exists []. cbn. by rewrite app_nil_r. Qed.

Lemma only_appends_bind m k : only_appends m -> only_appends k -> only_appends (m ;; k).
Proof.
  intros Hm Hk st. destruct (Hm st) as (b1 & E). unfold mbind, M_bind.
  destruct (m st) as [[?|e|] st']; cbn in E |- *; subst st'; [| by exists b1 ..].
  destruct (Hk {| buffer_ := buffer_ st ++ b1;
                  list_start_positions_ := list_start_positions_ st |}) as (b2 & ->).
  exists (b1 ++ b2). cbn. by rewrite app_assoc.
Qed.

Lemma only_appends_lift (r : EncodingResult bytes) f :
  (forall b, only_appends (f b)) -> only_appends (lift r ≫= f).
Proof.
  intros H st. destruct r as [b|e|]; unfold mbind, M_bind, lift; [apply H | |];
    destruct st; exists []; cbn; by rewrite app_nil_r.
Qed.

#[local] Hint Resolve only_appends_append only_appends_fail only_appends_bind
  only_appends_lift : core.

Lemma only_appends_add_uint256 n : only_appends (add_uint256 n).
Proof. unfold add_uint256. repeat case_match; eauto; apply only_appends_append. Qed.

Lemma only_appends_op op :
  match op with
  | OpAdd _ | OpAddRaw _ | OpAddIntegral _ _ | OpAddUint256 _ | OpAddBool _ =>
      only_appends (apply_op op)
  | _ => True
  end.
Proof.
  destruct op; cbn [apply_op]; try done.
  - unfold add_bytes. case_match; eauto. apply only_appends_append.
  - unfold AddRaw. case_match; eauto.
  - unfold add_integral. repeat case_match;
      first [apply only_appends_append | apply only_appends_bind; apply only_appends_append].
  - apply only_appends_add_uint256.
  - apply only_appends_add_uint256.
Qed.

Lemma only_appends_wf m st : only_appends m -> encoder_wf st -> encoder_wf (snd (m st)).
Proof.
  intros H Hwf. destruct (H st) as (bs & ->). unfold encoder_wf in *. cbn.
  eapply starts_ok_mono; [| exact Hwf]. len_lia.
Qed.

Lemma EndList_wf st : encoder_wf st -> encoder_wf (snd (EndList st)).
Proof.
  destruct st as [buf [|p ps]]; unfold encoder_wf; [done |]. cbn. intros [Hp Hps].
  unfold EndList. erewrite bind_ok by done. erewrite bind_ok by done.
  cbn [buffer_ list_start_positions_].
  destruct (encode_header_bytes true (len buf - p)) as [h|e|] eqn:Eh;
    unfold mbind, M_bind, lift; rewrite ?Eh; cbn; eapply starts_ok_mono; try exact Hps; try lia.
  rewrite <- (take_drop (Z.to_nat p) buf) in Hp. len_lia.
Qed.

(** No sequence of calls, failed ones included, corrupts the open-list positions. *)
Lemma encoder_wf_reachable ops : encoder_wf (run_ops ops new_encoder).
Proof.
  assert (forall st, encoder_wf st -> encoder_wf (run_ops ops st)) as H; [| by apply H].
  induction ops as [|op ops IH]; intros st Hwf; [done |]. cbn. apply IH.
  pose proof (only_appends_op op) as Hop. destruct op; try by apply only_appends_wf.
  - destruct st as [buf ps]. unfold encoder_wf in *. cbn in *. split; [len_lia | done].
  - by apply EndList_wf.
  - by destruct st as [buf [|p ps]].
  - by destruct st as [buf [|p ps]].
  - done.
Qed.

(** the error paths of the list calls, after any sequence of calls. The positions of the
    open lists stay inside the buffer and in order; [EndList] fails with [kUnmatchedEndList]
    exactly when no list is open and then changes nothing; [GetBytes] and [MoveBytes] fail with
    [kUnclosedList] exactly when one is open, and change nothing; on a closed encoder [GetBytes]
    returns the buffer. *)
Theorem encoder_list_errors ops :
  let st := run_ops ops new_encoder in
  encoder_wf st /\
  (len (buffer_ st) < 2 ^ 64 ->
   (list_start_positions_ st = [] ->
     EndList st = (Err EncodingError.kUnmatchedEndList, st) /\ GetBytes st = (Ok (buffer_ st), st)) /\
   (list_start_positions_ st <> [] ->
     fst (EndList st) = Ok tt /\ GetBytes st = (Err EncodingError.kUnclosedList, st)
     /\ MoveBytes st = (Err EncodingError.kUnclosedList, st))).
Proof.
  intros st. pose proof (encoder_wf_reachable ops) as Hwf. fold st in Hwf. split; [done |].
  destruct st as [buf [|p ps]]; cbn; intros Hl; (split; intros Hp; [| try done]); try done.
  split; [| done]. destruct Hwf as [Hp' _]. cbn in Hp'.
  unfold EndList. erewrite bind_ok by done. erewrite bind_ok by done.
  erewrite bind_ok by (rewrite encode_header_spec by (cbn; lia); done). done.
Qed.

Lemma encoder_list_errors_witness :
  fst (EndList new_encoder) = Err EncodingError.kUnmatchedEndList
  /\ fst (GetBytes (snd (BeginList new_encoder))) = Err EncodingError.kUnclosedList.
Proof.
  split.
  - destruct (encoder_list_errors []) as [_ H]. destruct (H ltac:(reflexivity)) as [H1 _].
    destruct (H1 eq_refl) as [H2 _]. exact (f_equal fst H2).
  - destruct (encoder_list_errors [OpBeginList]) as [_ H].
    destruct (H ltac:(reflexivity)) as [_ H1].
    destruct (H1 ltac:(discriminate)) as (_ & H2 & _). exact (f_equal fst H2).
Defined.
