(* ===== verification/RlpDecoder.v ===== *)
(** * RlpDecoder: reading an encoding

    [include/rlp/rlp_decoder.hpp], [src/rlp/rlp_decoder.cpp], the decoding half of
    [include/rlp/rlp_ethereum.hpp]. A decoder is the view of the octets still to be read; a
    method is a function on the view that also returns a result. An output parameter is the
    method's value: the callers read it after a success only.

    Sums such as [header_size_bytes + payload_size_bytes] are written without wrap-around:
    [decode_header_bounds] shows that every header that is returned has this sum below the
    length of an existing view. *)
From S2P Require Export RlpSpec.

(** [class RlpDecoder { ByteView view_; }]. *)
Abbreviation ByteView := bytes.
Abbreviation DecM A := (M ByteView DecodingError A).

(** [v.remove_prefix(n)]. *)
Definition remove_prefix (n : Z) : DecM unit := fun v => (Ok tt, drop (Z.to_nat n) v).

(** The length field of a long string or list: [v.substr(1, header_size_bytes - 1)] parsed,
    checked to need the long form, then skipped with the prefix. *)
Definition long_header (list : bool) (header_size max_short : Z) : DecM Header :=
  v ← get_state;
  fail_if (len v <? header_size) DecodingError.kInputTooShort ;;
  len64 ← lift (from_big_compact 8 (substr v 1 (header_size - 1)));
  fail_if (len64 <=? max_short) DecodingError.kNonCanonicalSize ;;
  remove_prefix header_size ;;
  mret {| is_list := list; payload_size_bytes := len64; header_size_bytes := header_size |}.

(** [decode_header_impl]: the header at the start of the view, which it moves past. *)
Definition decode_header_impl : DecM Header :=
  v ← get_state;
  fail_if (empty v) DecodingError.kInputTooShort ;;
  let b := byte_at v 0 in
  let input_len := len v in
  fail_if ((input_len =? 1) && (0xf9 <=? b)) DecodingError.kMalformedHeader ;;
  h ← (if b <? kShortStringOffset then
         mret {| is_list := false; payload_size_bytes := 1; header_size_bytes := 0 |}
       else if b <=? kMaxShortStringLen + kShortStringOffset then
         let payload_size := b - kShortStringOffset in
         fail_if (input_len <? 1) DecodingError.kInputTooShort ;;
         (if payload_size =? 1 then
            fail_if (input_len <? kSingleByteStringSize) DecodingError.kInputTooShort ;;
            fail_if (byte_at v 1 <? kShortStringOffset) DecodingError.kNonCanonicalSize
          else mret tt) ;;
         remove_prefix 1 ;;
         mret {| is_list := false; payload_size_bytes := payload_size; header_size_bytes := 1 |}
       else if b <? kShortListOffset then
         long_header false (1 + (b - kLongStringOffset)) kMaxShortStringLen
       else if b <=? kMaxShortListLen + kShortListOffset then
         fail_if (input_len <? 1) DecodingError.kInputTooShort ;;
         remove_prefix 1 ;;
         mret {| is_list := true; payload_size_bytes := b - kShortListOffset;
                 header_size_bytes := 1 |}
       else long_header true (1 + (b - kLongListOffset)) kMaxShortListLen);
  v' ← get_state;
  (if kShortStringOffset <=? b
   then fail_if (len v' <? payload_size_bytes h) DecodingError.kInputTooShort
   else fail_if (input_len <? 1) DecodingError.kInputTooShort) ;;
  mret h.

(** ** State and peeks *)

Definition IsFinished : DecM bool := fun v => (Ok (empty v), v).
Definition Remaining : DecM ByteView := get_state.

Definition IsList : DecM bool := fun v =>
  (if empty v then Err DecodingError.kInputTooShort else Ok (kShortListOffset <=? byte_at v 0), v).

Definition IsString : DecM bool := fun v =>
  (if empty v then Err DecodingError.kInputTooShort else Ok (byte_at v 0 <? kShortListOffset), v).

(** [PeekHeader]: the header is decoded from a copy of the view. *)
Definition PeekHeader : DecM Header := fun v => (fst (decode_header_impl v), v).

Definition PeekPayloadSizeBytes : DecM Z := h ← PeekHeader; mret (payload_size_bytes h).

(** [skip_header_internal]. *)
Definition skip_header_internal : DecM unit :=
  v ← get_state;
  fail_if (empty v) DecodingError.kInputTooShort ;;
  let b := byte_at v 0 in
  let header_len :=
    if b <? kShortStringOffset then 0
    else if b <=? kMaxShortStringLen + kShortStringOffset then 1
    else if b <? kShortListOffset then 1 + (b - kLongStringOffset)
    else if b <=? kMaxShortListLen + kShortListOffset then 1
    else 1 + (b - kLongListOffset) in
  fail_if (len v <? header_len) DecodingError.kInputTooShort ;;
  remove_prefix header_len.

(** ** Reads *)

(** [read(Bytes&)]. *)
Definition read_bytes : DecM bytes :=
  h ← PeekHeader;
  fail_if (is_list h) DecodingError.kUnexpectedList ;;
  skip_header_internal ;;
  v ← get_state;
  fail_if (len v <? payload_size_bytes h) DecodingError.kInputTooShort ;;
  remove_prefix (payload_size_bytes h) ;;
  mret (take (Z.to_nat (payload_size_bytes h)) v).

(** [read_integral<T>] for [sizeof(T) = w]. *)
Definition read_integral (w : Z) : DecM Z :=
  h ← PeekHeader;
  fail_if (is_list h) DecodingError.kUnexpectedList ;;
  v ← get_state;
  let payload_view := substr v (header_size_bytes h) (payload_size_bytes h) in
  fail_if ((1 <? payload_size_bytes h) && (byte_at payload_view 0 =? 0))
    DecodingError.kLeadingZero ;;
  fail_if (w <? payload_size_bytes h) DecodingError.kOverflow ;;
  fail_if ((payload_size_bytes h =? 1) && (0 <? header_size_bytes h)
           && (byte_at payload_view 0 <? kRlpSingleByteThreshold))
    DecodingError.kNonCanonicalSize ;;
  fail_if (len v <? header_size_bytes h + payload_size_bytes h) DecodingError.kInputTooShort ;;
  out ← lift (from_big_compact w payload_view);
  remove_prefix (header_size_bytes h + payload_size_bytes h) ;;
  mret out.

(** [read_uint256]. *)
Definition read_uint256 : DecM Z :=
  h ← PeekHeader;
  fail_if (is_list h) DecodingError.kUnexpectedList ;;
  v ← get_state;
  let payload_view := substr v (header_size_bytes h) (payload_size_bytes h) in
  fail_if ((1 <? payload_size_bytes h) && (byte_at payload_view 0 =? 0))
    DecodingError.kLeadingZero ;;
  fail_if (32 <? payload_size_bytes h) DecodingError.kOverflow ;;
  out ← lift (from_big_compact_uint256 payload_view);
  fail_if ((payload_size_bytes h =? 1) && (out <? kRlpSingleByteThreshold)
           && (0 <? header_size_bytes h))
    DecodingError.kNonCanonicalSize ;;
  fail_if (len v <? header_size_bytes h + payload_size_bytes h) DecodingError.kInputTooShort ;;
  remove_prefix (header_size_bytes h + payload_size_bytes h) ;;
  mret out.

(** [read_bool]. *)
Definition read_bool : DecM bool :=
  h ← PeekHeader;
  fail_if (is_list h) DecodingError.kUnexpectedList ;;
  v ← get_state;
  fail_if (len v <? header_size_bytes h + payload_size_bytes h) DecodingError.kInputTooShort ;;
  out ← (if payload_size_bytes h =? 1 then
           let payload_view := substr v (header_size_bytes h) (payload_size_bytes h) in
           if byte_at payload_view 0 =? 1 then mret true
           else if byte_at payload_view 0 =? 0 then mret false
           else throw DecodingError.kOverflow
         else if (payload_size_bytes h =? 0) && (header_size_bytes h =? 1)
                 && (byte_at v 0 =? kEmptyStringCode) then mret false
         else throw DecodingError.kOverflow);
  remove_prefix (header_size_bytes h + payload_size_bytes h) ;;
  mret out.

(** [read(boost::span<uint8_t, N>)], and through it [std::array] and C arrays. *)
Definition read_fixed (N : Z) : DecM bytes :=
  h ← PeekHeader;
  fail_if (is_list h) DecodingError.kUnexpectedList ;;
  let single_byte_literal := (payload_size_bytes h =? 1) && (header_size_bytes h =? 0) in
  fail_if (negb (payload_size_bytes h =? N) && negb ((N =? 1) && single_byte_literal))
    DecodingError.kUnexpectedLength ;;
  skip_header_internal ;;
  v ← get_state;
  fail_if (len v <? N) DecodingError.kInputTooShort ;;
  remove_prefix N ;;
  mret (take (Z.to_nat N) v).

Definition ReadListHeaderBytes : DecM Z :=
  h ← PeekHeader;
  fail_if (negb (is_list h)) DecodingError.kUnexpectedString ;;
  skip_header_internal ;;
  mret (payload_size_bytes h).

Definition SkipItem : DecM unit :=
  h ← PeekHeader;
  skip_header_internal ;;
  v ← get_state;
  fail_if (len v <? payload_size_bytes h) DecodingError.kInputTooShort ;;
  remove_prefix (payload_size_bytes h).

Definition PeekPayload : DecM ByteView :=
  h ← PeekHeader;
  fail_if (is_list h) DecodingError.kUnexpectedList ;;
  v ← get_state;
  fail_if (len v <? header_size_bytes h + payload_size_bytes h) DecodingError.kInputTooShort ;;
  mret (substr v (header_size_bytes h) (payload_size_bytes h)).

(** rlp_ethereum.hpp. *)
Definition readAddress : DecM bytes := read_fixed 20.
Definition readHash : DecM bytes := read_fixed 32.
Definition readSignature : DecM bytes := read_fixed 65.
Definition readBloom : DecM bytes := read_fixed 256.

(** ** Conveniences on a view *)

(** [decode<T>]: read one value from the start of [data], for the [read] overload [m] of the
    type. [data] is moved as soon as the value is read, also when leftovers are an error. *)
Definition decode {A} (m : DecM A) (leftover : Leftover) : DecM A := fun data =>
  match m data with
  | (Ok value, rest) =>
      (if match leftover with kProhibit => negb (empty rest) | kAllow => false end
       then Err DecodingError.kInputTooLong else Ok value, rest)
  | (Err e, _) => (Err e, data)
  | (Diverged, _) => (Diverged, data)
  end.

(** The element types of [read(ByteView&, T&, Leftover)] and of [read_vector]; a boolean is
    the integer 0 or 1. *)
Inductive scalar := UInt (w : Z) | UInt256 | Bool.

(** [sizeof(T)]. *)
Definition scalar_size (T : scalar) : Z :=
  match T with UInt w => w | UInt256 => 32 | Bool => 1 end.

(** The overload of [endian::from_big_compact] for [T]. *)
Definition scalar_from_compact (T : scalar) (payload_view : bytes) : Result Z :=
  match T with
  | UInt256 => from_big_compact_uint256 payload_view
  | _ => from_big_compact (scalar_size T) payload_view
  end.

Definition is_bool (T : scalar) : bool := match T with Bool => true | _ => false end.

(** [check_payload<T>]. *)
Definition check_payload (T : scalar) (h : Header) (payload_view view : bytes) : Result unit :=
  if is_list h then Err DecodingError.kUnexpectedList
  else if (1 <? payload_size_bytes h) && (byte_at payload_view 0 =? 0)
  then Err DecodingError.kLeadingZero
  else if (payload_size_bytes h =? 1) && (byte_at payload_view 0 =? 0)
          && (kRlpSingleByteThreshold <=? u8 0)
  then Err DecodingError.kLeadingZero
  else if scalar_size T <? payload_size_bytes h then Err DecodingError.kOverflow
  else if len view <? header_size_bytes h + payload_size_bytes h
  then Err DecodingError.kInputTooShort
  else if is_bool T then Ok tt
  else obind (scalar_from_compact T payload_view) (fun temp_out =>
    if (payload_size_bytes h =? 1) && (u8 temp_out <? kRlpSingleByteThreshold)
       && (0 <? header_size_bytes h)
    then Err DecodingError.kNonCanonicalSize else Ok tt).

(** The body of [read(ByteView&, T&, Leftover)] on its temporary decoder. *)
Definition read_scalar (T : scalar) : DecM Z :=
  h ← PeekHeader;
  v ← get_state;
  let payload_view := substr v (header_size_bytes h) (payload_size_bytes h) in
  lift (check_payload T h payload_view v) ;;
  if is_bool T then
    (if payload_size_bytes h =? 1 then
       (if byte_at payload_view 0 =? 1
        then remove_prefix (header_size_bytes h + payload_size_bytes h) ;; mret 1
        else SkipItem ;; throw DecodingError.kOverflow)
     else if payload_size_bytes h =? 0 then
       (if (header_size_bytes h =? 1) && (byte_at v 0 =? kEmptyStringCode)
        then remove_prefix 1 ;; mret 0
        else SkipItem ;; throw DecodingError.kOverflow)
     else SkipItem ;; throw DecodingError.kOverflow)
  else
    (out ← lift (scalar_from_compact T payload_view);
     remove_prefix (header_size_bytes h + payload_size_bytes h) ;;
     mret out).

(** [read(ByteView&, T&, Leftover)]. *)
Definition read_view (T : scalar) (leftover : Leftover) : DecM Z := decode (read_scalar T) leftover.

(** [while (!list_payload.empty()) { vec.emplace_back(); read(list_payload, ...) }]. *)
Fixpoint read_vector_loop (fuel : nat) (T : scalar) : DecM (list Z) :=
  match fuel with
  | O => lift Diverged
  | S fuel =>
      list_payload ← get_state;
      if negb (empty list_payload)
      then x ← read_view T kAllow; xs ← read_vector_loop fuel T; mret (x :: xs)
      else mret []
  end.

(** [read_vector<T>]. Every iteration consumes an octet or fails. *)
Definition read_vector (T : scalar) : DecM (list Z) :=
  payload_len ← ReadListHeaderBytes;
  v ← get_state;
  let list_payload := take (Z.to_nat payload_len) v in
  let '(res, unread) := read_vector_loop (S (length list_payload)) T list_payload in
  vec ← lift res;
  fail_if (negb (empty unread)) DecodingError.kListLengthMismatch ;;
  fail_if (len v <? payload_len) DecodingError.kInputTooShort ;;
  remove_prefix payload_len ;;
  mret vec.

(** ** Headers *)

Ltac consts :=
  unfold kShortStringOffset, kMaxShortStringLen, kShortListOffset, kMaxShortListLen,
    kLongStringOffset, kLongListOffset, kSingleByteStringSize, kRlpSingleByteThreshold,
    kEmptyStringCode in *.

Ltac header_simpl := cbn [is_list payload_size_bytes header_size_bytes] in *.

Lemma decode_header_literal b v :
  b < 0x80 ->
  decode_header_impl (b :: v)
  = (Ok {| is_list := false; payload_size_bytes := 1; header_size_bytes := 0 |}, b :: v).
Proof.
  intros Hb. unfold decode_header_impl. unfold_m. cbn [empty]. rewrite byte_at_0. consts.
  pose proof (len_nonneg v). pose proof (len_cons b v).
  repeat decide_guard. done.
Qed.

(** The octets after the prefix of a long form. *)
Lemma long_header_ok l n v :
  55 < n < 2 ^ 64 ->
  long_header l (1 + len (digits n)) 55 (length_prefix l n ++ v)
  = (Ok {| is_list := l; payload_size_bytes := n; header_size_bytes := 1 + len (digits n) |}, v).
Proof.
  intros Hn. assert (fits 32 n) as Hf by (unfold fits; lia).
  destruct (digits_spec n Hf) as (Hok & Hc & Hv).
  pose proof (digits_len 8 n ltac:(lia) ltac:(unfold fits; lia)).
  pose proof (len_nonneg (digits n)).
  unfold length_prefix. destruct (Z.leb_spec n 55); [lia |]. cbn [app].
  set (ds := digits n) in *. set (c := (if l then 0xF7 else 0xB7) + len ds).
  unfold long_header. unfold_m. rewrite len_cons, len_app. pose proof (len_nonneg v).
  decide_guard.
  assert (substr (c :: ds ++ v) 1 (1 + len ds - 1) = ds) as ->.
  { unfold substr. replace (1 + len ds - 1) with (len ds) by lia. apply take_len_app. }
  rewrite from_big_compact_ok; [| done | by left | lia | change (2 ^ (8 * 8)) with (2 ^ 64); lia].
  rewrite Hv. decide_guard. unfold remove_prefix.
  by rewrite drop_cons_Z, drop_len_app by lia.
Qed.

(** Every prefix the encoder writes is read back, with the payload's size. *)
Lemma decode_header_prefix l p rest :
  (l = false -> is_literal p = false) -> len p < 2 ^ 64 ->
  decode_header_impl (length_prefix l (len p) ++ p ++ rest)
  = (Ok {| is_list := l; payload_size_bytes := len p;
           header_size_bytes := len (length_prefix l (len p)) |}, p ++ rest).
Proof.
  intros Hlit Hl. pose proof (len_nonneg p). pose proof (len_nonneg rest).
  destruct (Z.le_gt_cases (len p) 55) as [Hs|Hs].
  - rewrite length_prefix_short by done. cbn [app].
    unfold decode_header_impl. unfold_m. cbn [empty]. rewrite byte_at_0, len_cons, len_app. consts.
    destruct l; cbv iota.
    + repeat decide_guard. unfold remove_prefix. rewrite drop_1_cons, len_app.
      header_simpl. repeat decide_guard. repeat f_equal; len_lia.
    + assert (len p = 1 -> 0x80 <= byte_at (128 + len p :: p ++ rest) 1) as Hone.
      { intros H1. specialize (Hlit eq_refl). destruct p as [|c [|? ?]]; [done | | len_lia].
        cbn in Hlit. cbn [app]. rewrite byte_at_1. lia. }
      destruct (Z.eqb_spec (128 + len p - 128) 1); repeat decide_guard;
        unfold remove_prefix; rewrite drop_1_cons, len_app; header_simpl; repeat decide_guard;
        repeat f_equal; len_lia.
  - pose proof (digits_len 8 (len p) ltac:(lia) ltac:(unfold fits; lia)).
    pose proof (digits_nonempty (len p) ltac:(lia) ltac:(unfold fits; lia)).
    pose proof (long_header_ok l (len p) (p ++ rest) ltac:(lia)) as Hh. revert Hh.
    unfold length_prefix. destruct (Z.leb_spec (len p) 55); [lia |]. cbn [app].
    set (ds := digits (len p)) in *. set (c := (if l then 0xF7 else 0xB7) + len ds).
    intros Hh.
    assert (c = if l then 0xF7 + len ds else 0xB7 + len ds) as Hc by (by destruct l).
    assert (1 + (c - (if l then 0xF7 else 0xB7)) = 1 + len ds) as Hsz by (destruct l; lia).
    unfold decode_header_impl. unfold_m. cbn [empty]. rewrite byte_at_0, !len_cons, !len_app.
    clearbody c ds. consts.
    destruct l; repeat decide_guard; rewrite Hsz, Hh; cbn [payload_size_bytes];
      rewrite len_app; repeat decide_guard; repeat f_equal; len_lia.
Qed.

Lemma substr_ok v p n : bytes_ok v -> bytes_ok (substr v p n).
Proof. intros. by apply bytes_ok_take, bytes_ok_drop. Qed.

Lemma long_header_inv l k c t h v' :
  bytes_ok (c :: t) -> 1 <= k <= 8 -> long_header l (1 + k) 55 (c :: t) = (Ok h, v') ->
  exists n, h = {| is_list := l; payload_size_bytes := n; header_size_bytes := 1 + k |}
    /\ t = digits n ++ v' /\ len (digits n) = k /\ 55 < n < 2 ^ 64.
Proof.
  intros Hok Hk H. unfold long_header in H. unfold_m. decide_guard_in H.
  replace (1 + k - 1) with k in H by lia.
  destruct (from_big_compact 8 (substr (c :: t) 1 k)) as [n|e|] eqn:Ef; [| done | done].
  apply from_big_compact_inv in Ef; [| by apply substr_ok | lia].
  destruct Ef as (Hd & _ & Hn & Hf). decide_guard_in H. unfold remove_prefix in H.
  rewrite drop_cons_Z in H by lia. injection H as <- <-. exists n.
  unfold substr in *. rewrite drop_1_cons in *.
  assert (len (take (Z.to_nat k) t) = k) as Hlen by (apply len_take; len_lia).
  apply bytes_ok_cons in Hok as [_ Hok].
  assert (canonical (take (Z.to_nat k) t)) as Hc.
  { destruct Hd as [|Hd]; [done |]. rewrite Hn, Hd in E0. change (be_value [0]) with 0 in E0. lia. }
  assert (digits n = take (Z.to_nat k) t) as ->.
  { rewrite Hn. apply digits_be_value; [by apply bytes_ok_take | done | lia]. }
  rewrite take_drop. unfold fits in Hf. change (2 ^ (8 * 8)) with (2 ^ 64) in Hf. repeat split; lia.
Qed.

(** What a decoded header says of the octets it was read from: a literal octet, or the one
    prefix the format has for this kind and this payload size, followed by at least that
    many octets. *)
Definition header_read (v : ByteView) (h : Header) (v' : ByteView) : Prop :=
  (exists b t, v = b :: t /\ b < 0x80 /\ v' = v
    /\ h = {| is_list := false; payload_size_bytes := 1; header_size_bytes := 0 |})
  \/ (v = length_prefix (is_list h) (payload_size_bytes h) ++ v'
    /\ header_size_bytes h = len (length_prefix (is_list h) (payload_size_bytes h))
    /\ 0 <= payload_size_bytes h <= len v' /\ payload_size_bytes h < 2 ^ 64
    /\ (is_list h = false -> payload_size_bytes h = 1 -> 0x80 <= byte_at v' 0)).

Lemma decode_header_inv v h v' :
  bytes_ok v -> decode_header_impl v = (Ok h, v') -> header_read v h v'.
Proof.
  intros Hok H. unfold header_read. unfold decode_header_impl in H. unfold_m.
  destruct v as [|b t]; cbn [empty] in H; [done |]. rewrite byte_at_0 in H.
  pose proof Hok as [Hb Ht]%bytes_ok_cons. unfold uint8 in Hb.
  pose proof (len_nonneg t). consts. rewrite len_cons in H.
  decide_guard_in H.
  destruct (Z.ltb_spec b 128) as [Hb1|Hb1].
  { left. repeat decide_guard_in H. injection H as <- <-. eauto 6. }
  assert (forall (l : bool) n, b = (if l then 0xC0 else 0x80) + n -> 0 <= n <= 55 -> n <= len t -> (l = false -> n = 1 -> 0x80 <= byte_at t 0) ->
    header_read (b :: t) {| is_list := l; payload_size_bytes := n; header_size_bytes := 1 |} t)
    as Hshort.
  { intros l n Hbo Hn Hlen Hone. right. header_simpl. rewrite length_prefix_short by lia.
    rewrite <- Hbo. repeat split; try done; lia. }
  assert (forall (l : bool) k h v', b = (if l then 0xF7 else 0xB7) + k -> 1 <= k <= 8 ->
    long_header l (1 + k) 55 (b :: t) = (Ok h, v') -> payload_size_bytes h <= len v' ->
    header_read (b :: t) h v') as Hlong.
  { intros l k h0 v0 Hbk Hk Hh Hlen. right.
    apply long_header_inv in Hh as (n & -> & -> & Hd & Hn); [| done | done]. header_simpl.
    unfold length_prefix. destruct (Z.leb_spec n 55); [lia |]. rewrite Hd, Hbk.
    repeat split; try done; len_lia. }
  repeat decide_guard_in H;
    first [ unfold remove_prefix in H; rewrite drop_1_cons in H
          | match type of H with context [long_header ?l ?k ?m ?v] =>
              destruct (long_header l k m v) as [[hd|e|] t'] eqn:El; [| done | done] end ];
    header_simpl; repeat decide_guard_in H; injection H as <- <-.
  1, 2, 4: apply Hshort; [lia .. | intros; try discriminate; try lia].
  { destruct t; [len_lia |]. rewrite byte_at_1 in *. rewrite byte_at_0. lia. }
  - apply Hlong with (k := b - 183) in El; [done | lia ..].
  - apply Hlong with (k := b - 247) in El; [done | lia ..].
Qed.

(** A header that is returned fits the view it was read from. *)
Lemma decode_header_bounds v h v' :
  bytes_ok v -> decode_header_impl v = (Ok h, v') ->
  0 <= header_size_bytes h /\ 0 <= payload_size_bytes h
  /\ header_size_bytes h + payload_size_bytes h <= len v
  /\ 1 <= header_size_bytes h + payload_size_bytes h.
Proof.
  intros Hok H. destruct (decode_header_inv v h v' Hok H) as [(b & t & -> & Hb & _ & ->) | Hr].
  - header_simpl. len_lia.
  - destruct Hr as (-> & -> & Hp & _). 
    pose proof (length_prefix_nonempty (is_list h) (payload_size_bytes h)). len_lia.
Qed.

(** ** Every read, from the header it peeks *)

Lemma long_header_drop l k m v h v' :
  long_header l k m v = (Ok h, v') ->
  v' = drop (Z.to_nat k) v /\ header_size_bytes h = k /\ k <= len v.
Proof.
  unfold long_header. unfold_m. intros H. repeat decide_guard_in H.
  destruct (from_big_compact 8 _); [| done | done]. decide_guard_in H.
  injection H as <- <-. header_simpl. repeat split. lia.
Qed.

(** [skip_header_internal] moves where [decode_header_impl] moved. *)
Lemma skip_header_ok v h v' :
  decode_header_impl v = (Ok h, v') ->
  skip_header_internal v = (Ok tt, v') /\ v' = drop (Z.to_nat (header_size_bytes h)) v
  /\ (header_size_bytes h <> 0 -> payload_size_bytes h <= len v').
Proof.
  intros H. unfold decode_header_impl in H. unfold skip_header_internal. unfold_m.
  destruct v as [|b t]; cbn [empty] in *; [done |]. rewrite byte_at_0 in *.
  pose proof (len_nonneg t). rewrite len_cons in *. decide_guard_in H. consts.
  assert (forall l k m, 0x80 <= b ->
    (let (o, s') := long_header l k m (b :: t) in
     match o with
     | Ok a => let (o0, s'0) := (if 128 <=? b then if len s' <? payload_size_bytes a
         then fun s => (Err DecodingError.kInputTooShort, s) else fun s => (Ok tt, s)
         else if 1 + len t <? 1 then fun s => (Err DecodingError.kInputTooShort, s)
              else fun s => (Ok tt, s)) s' in
       match o0 with Ok _ => (Ok a, s'0) | Err e => (Err e, s'0) | Diverged => (Diverged, s'0) end
     | Err e => (Err e, s') | Diverged => (Diverged, s')
     end) = (Ok h, v') ->
    v' = drop (Z.to_nat k) (b :: t) /\ header_size_bytes h = k /\ k <= 1 + len t
    /\ payload_size_bytes h <= len v') as Hl.
  { intros l k m Hb Hm. destruct (long_header l k m (b :: t)) as [[hd|e|] t'] eqn:El;
      [| done | done]. apply long_header_drop in El as (-> & Hk & Hle).
    repeat decide_guard_in Hm. injection Hm as <- <-. rewrite len_cons in Hle. split; [done | lia]. }
  repeat decide_guard_in H.
  1: injection H as <- <-; decide_guard; header_simpl; split; [done | split; [done | lia]].
  1, 2, 4: unfold remove_prefix in *; rewrite ?drop_1_cons in *; header_simpl;
    decide_guard_in H; injection H as <- <-; split; [done | split; [done | header_simpl; lia]].
  all: apply Hl in H as (-> & -> & ? & ?); [| lia]; decide_guard; done.
Qed.

(** ** The header each method sees *)
Section peeked.
Context (v v' : ByteView) (h : Header).
Context (Hv : bytes_ok v) (Hh : decode_header_impl v = (Ok h, v')).

Lemma PeekHeader_ok : PeekHeader v = (Ok h, v).
Proof. unfold PeekHeader. by rewrite Hh. Qed.

(** The payload is there to be read. *)
Lemma payload_in_view : 0 <= payload_size_bytes h <= len v'.
Proof.
  destruct (decode_header_inv v h v' Hv Hh) as [(b & t & -> & _ & -> & ->) | (_ & _ & ? & _)];
    [header_simpl; len_lia | lia].
Qed.

Lemma substr_payload : substr v (header_size_bytes h) (payload_size_bytes h)
  = take (Z.to_nat (payload_size_bytes h)) v'.
Proof. unfold substr. by destruct (skip_header_ok v h v' Hh) as (_ & <- & _). Qed.

Lemma drop_item : drop (Z.to_nat (header_size_bytes h + payload_size_bytes h)) v
  = drop (Z.to_nat (payload_size_bytes h)) v'.
Proof.
  pose proof (decode_header_bounds v h v' Hv Hh).
  destruct (skip_header_ok v h v' Hh) as (_ & -> & _). rewrite drop_drop. f_equal. lia.
Qed.

Lemma SkipItem_ok : SkipItem v = (Ok tt, drop (Z.to_nat (payload_size_bytes h)) v').
Proof.
  pose proof payload_in_view. destruct (skip_header_ok v h v' Hh) as (Hs & _ & _).
  unfold SkipItem. erewrite bind_ok by apply PeekHeader_ok. erewrite bind_ok by apply Hs.
  unfold_m. decide_guard. done.
Qed.

Lemma read_bytes_ok : is_list h = false ->
  read_bytes v = (Ok (take (Z.to_nat (payload_size_bytes h)) v'),
                  drop (Z.to_nat (payload_size_bytes h)) v').
Proof.
  intros Hl. pose proof payload_in_view. destruct (skip_header_ok v h v' Hh) as (Hs & _ & _).
  unfold read_bytes. erewrite bind_ok by apply PeekHeader_ok. rewrite Hl. unfold_m.
  rewrite Hs. decide_guard. done.
Qed.

Lemma ReadListHeaderBytes_ok :
  is_list h = true -> ReadListHeaderBytes v = (Ok (payload_size_bytes h), v').
Proof.
  intros Hl. destruct (skip_header_ok v h v' Hh) as (Hs & _ & _).
  unfold ReadListHeaderBytes. erewrite bind_ok by apply PeekHeader_ok. rewrite Hl. cbn [negb].
  unfold_m. by rewrite Hs.
Qed.

Lemma read_fixed_ok N : is_list h = false -> payload_size_bytes h = N ->
  read_fixed N v = (Ok (take (Z.to_nat N) v'), drop (Z.to_nat N) v').
Proof.
  intros Hl HN. pose proof payload_in_view. destruct (skip_header_ok v h v' Hh) as (Hs & _ & _).
  unfold read_fixed. erewrite bind_ok by apply PeekHeader_ok. rewrite Hl, HN, Z.eqb_refl.
  cbn [negb andb]. unfold_m. rewrite Hs. decide_guard. done.
Qed.

Let p := take (Z.to_nat (payload_size_bytes h)) v'.

Lemma payload_len : len p = payload_size_bytes h.
Proof. apply len_take, payload_in_view. Qed.

Lemma payload_ok : bytes_ok p.
Proof.
  apply bytes_ok_take. destruct (skip_header_ok v h v' Hh) as (_ & -> & _).
  by apply bytes_ok_drop.
Qed.

(** The two guards of the integer reads that the header and the digits make redundant. *)
Lemma integer_guards : is_list h = false -> compact_digits p ->
  (1 <? payload_size_bytes h) && (byte_at p 0 =? 0) = false
  /\ (payload_size_bytes h =? 1) && (0 <? header_size_bytes h)
     && (byte_at p 0 <? kRlpSingleByteThreshold) = false.
Proof.
  intros Hl Hd. pose proof payload_len as Hp. consts. split.
  - destruct Hd as [Hc | E]; [| rewrite E in *; rewrite len_cons, len_nil in Hp; lia].
    destruct p as [|b q]; [rewrite len_nil in Hp; lia |]. rewrite byte_at_0. cbn in Hc. lia.
  - destruct (decode_header_inv v h v' Hv Hh) as [(b & t & -> & _ & -> & ->) | (_ & _ & _ & _ & H1)];
      [header_simpl; lia |].
    destruct (Z.eqb_spec (payload_size_bytes h) 1) as [E|]; [| done]. specialize (H1 Hl E).
    assert (byte_at p 0 = byte_at v' 0) as ->; [| lia].
    unfold p. rewrite E. by destruct v'.
Qed.

(** Both integer reads parse the payload. *)
Lemma read_integral_ok w n : is_list h = false -> 0 <= w <= 32 ->
  len p <= w -> from_big_compact w p = Ok n ->
  read_integral w v = (Ok n, drop (Z.to_nat (payload_size_bytes h)) v').
Proof.
  intros Hl Hw Hlen Hf. pose proof payload_in_view. pose proof payload_len.
  pose proof (decode_header_bounds v h v' Hv Hh).
  destruct (from_big_compact_inv w p n payload_ok ltac:(lia) Hf) as (Hd & _).
  destruct (integer_guards Hl Hd) as [G1 G2].
  unfold read_integral. erewrite bind_ok by apply PeekHeader_ok. rewrite Hl. unfold_m.
  rewrite substr_payload. fold p. rewrite G1, G2. decide_guard. decide_guard.
  rewrite Hf. unfold remove_prefix. by rewrite drop_item.
Qed.

Lemma read_uint256_ok n : is_list h = false ->
  len p <= 32 -> from_big_compact 32 p = Ok n ->
  read_uint256 v = (Ok n, drop (Z.to_nat (payload_size_bytes h)) v').
Proof.
  intros Hl Hlen Hf. pose proof payload_in_view. pose proof payload_len.
  pose proof (decode_header_bounds v h v' Hv Hh).
  destruct (from_big_compact_inv 32 p n payload_ok ltac:(lia) Hf) as (Hd & _ & Hn & _).
  destruct (integer_guards Hl Hd) as [G1 G2].
  unfold read_uint256. erewrite bind_ok by apply PeekHeader_ok. rewrite Hl. unfold_m.
  rewrite substr_payload. fold p. rewrite G1. decide_guard.
  rewrite from_big_compact_uint256_eq, Hf by apply payload_ok.
  assert ((payload_size_bytes h =? 1) && (n <? kRlpSingleByteThreshold)
          && (0 <? header_size_bytes h) = false) as ->.
  { destruct (Z.eqb_spec (payload_size_bytes h) 1); [| done].
    destruct p as [|b [|? ?]]; [len_lia | | len_lia]. rewrite byte_at_0 in G2.
    rewrite Hn. unfold be_value. cbn [rev app le_value]. rewrite Z.mul_0_r, Z.add_0_r.
    destruct (0 <? header_size_bytes h), (b <? kRlpSingleByteThreshold); done. }
  decide_guard. unfold remove_prefix. by rewrite drop_item.
Qed.
End peeked.

(** ** Reading back one item *)

Definition item_payload (it : item) : bytes := match it with Str s => s | Lst l => rlps l end.
Definition item_is_list (it : item) : bool := match it with Str _ => false | Lst _ => true end.

Lemma len_payload_le it : len (item_payload it) <= len (rlp it).
Proof.
  destruct it as [s|l]; cbn.
  - unfold rlp_string. case_match; len_lia.
  - unfold rlp_list, rlps. len_lia.
Qed.

(** The header of an encoded item is the item's, and decoding stops at its payload. *)
Lemma decode_header_rlp it rest :
  len (rlp it) < 2 ^ 64 ->
  decode_header_impl (rlp it ++ rest)
  = (Ok {| is_list := item_is_list it; payload_size_bytes := len (item_payload it);
           header_size_bytes := len (rlp it) - len (item_payload it) |},
     item_payload it ++ rest).
Proof.
  intros Hl. pose proof (len_payload_le it). destruct it as [s|l]; cbn in *.
  - unfold rlp_string in *. destruct (is_literal s) eqn:El.
    + destruct s as [|b [|? ?]]; [done | | done]. cbn in El. cbn [app].
      by rewrite decode_header_literal by lia.
    + rewrite <- app_assoc, decode_header_prefix by (try done; lia). repeat f_equal. len_lia.
  - unfold rlp_list in *. fold (rlps l) in *. rewrite <- app_assoc, decode_header_prefix by (try done; lia).
    repeat f_equal. len_lia.
Qed.

(** [m] reads [bs] off the front of any view and returns [a]. *)
Definition reads {A} (m : DecM A) (bs : bytes) (a : A) : Prop :=
  len bs < 2 ^ 64 -> forall rest, bytes_ok (bs ++ rest) -> m (bs ++ rest) = (Ok a, rest).

Create HintDb reads.

Lemma reads_ret {A} (a : A) : reads (mret a) [] a.
Proof. done. Qed.

Lemma reads_bind {A B} (m : DecM A) (k : A -> DecM B) b1 b2 a b :
  reads m b1 a -> reads (k a) b2 b -> reads (m ≫= k) (b1 ++ b2) b.
Proof.
  intros H1 H2 Hl rest. rewrite <- app_assoc. intros Hok.
  rewrite (bind_ok _ _ _ _ _ (H1 ltac:(len_lia) _ Hok)).
  apply H2; [len_lia |]. by apply bytes_ok_app in Hok as [_ ?].
Qed.

Lemma reads_or_else {A} (m : DecM A) e bs a : reads m bs a -> reads (or_else m e) bs a.
Proof. intros H Hl rest Hok. unfold or_else. by rewrite (H Hl rest Hok). Qed.

(** A test that passes. *)
Lemma reads_fail_if {A} c e (k : unit -> DecM A) bs a :
  c = false -> reads (k tt) bs a -> reads (fail_if c e ≫= k) bs a.
Proof. intros -> H. exact H. Qed.

Section reads_item.
Context (it : item).

Lemma reads_SkipItem : reads SkipItem (rlp it) tt.
Proof.
  intros Hl rest Hok. rewrite (SkipItem_ok _ _ _ Hok (decode_header_rlp it rest Hl)).
  header_simpl. by rewrite drop_len_app.
Qed.
End reads_item.

Lemma reads_read_bytes s : reads read_bytes (rlp (Str s)) s.
Proof.
  intros Hl rest Hok. rewrite (read_bytes_ok _ _ _ Hok (decode_header_rlp (Str s) rest Hl) eq_refl).
  header_simpl. by rewrite take_len_app, drop_len_app.
Qed.

Lemma reads_read_fixed N s : len s = N -> reads (read_fixed N) (rlp (Str s)) s.
Proof.
  intros HN Hl rest Hok.
  rewrite (read_fixed_ok _ _ _ Hok (decode_header_rlp (Str s) rest Hl) N eq_refl HN).
  subst N. by rewrite take_len_app, drop_len_app.
Qed.

Lemma from_digits w n : 0 <= w <= 32 -> fits w n -> from_big_compact w (digits n) = Ok n.
Proof.
  intros Hw Hf. assert (fits 32 n).
  { unfold fits in *. pose proof (Z.pow_le_mono_r 2 (8 * w) (8 * 32)). lia. }
  destruct (digits_spec n) as (Hok & Hc & Hv); [done |]. rewrite <- Hv at 2.
  pose proof (digits_len 32 n ltac:(lia)).
  apply from_big_compact_ok; [done | by left | auto | rewrite Hv; by destruct Hf].
Qed.

Lemma reads_read_integral w n :
  0 <= w <= 32 -> fits w n -> reads (read_integral w) (rlp (uint_item n)) n.
Proof.
  intros Hw Hf Hl rest Hok. pose proof (digits_len w n Hw Hf).
  rewrite (read_integral_ok _ _ _ Hok (decode_header_rlp (uint_item n) rest Hl) w n);
    header_simpl; rewrite ?take_len_app, ?drop_len_app; try done. by apply from_digits.
Qed.

Lemma reads_read_uint256 n : fits 32 n -> reads read_uint256 (rlp (uint_item n)) n.
Proof.
  intros Hf Hl rest Hok. pose proof (digits_len 32 n ltac:(lia) Hf).
  rewrite (read_uint256_ok _ _ _ Hok (decode_header_rlp (uint_item n) rest Hl) n);
    header_simpl; rewrite ?take_len_app, ?drop_len_app; try done. by apply from_digits.
Qed.

Lemma reads_read_bool b : reads read_bool (rlp (bool_item b)) b.
Proof.
  intros Hl rest Hok. pose proof (decode_header_rlp (bool_item b) rest Hl) as Hh.
  pose proof (decode_header_bounds _ _ _ Hok Hh).
  unfold read_bool. erewrite bind_ok by exact (PeekHeader_ok _ _ _ Hh). header_simpl.
  destruct b; [change (rlp (bool_item true)) with [1] in *; change (item_payload _) with [1] in *
              | change (rlp (bool_item false)) with [0x80] in *;
                change (item_payload _) with (@nil Z) in *];
    change (item_is_list _) with false; cbn [app] in *; unfold_m;
    rewrite ?len_cons, ?len_nil in *; decide_guard; reflexivity.
Qed.

(** A list: its header, then whatever reads its body. *)
Lemma reads_list {A} (k : Z -> DecM A) body a :
  reads (k (len body)) body a -> reads (ReadListHeaderBytes ≫= k) (rlp_list body) a.
Proof.
  intros Hk Hl rest Hok. unfold rlp_list in *. rewrite <- app_assoc in *.
  erewrite bind_ok.
  2: { eapply ReadListHeaderBytes_ok;
         [apply decode_header_prefix; [discriminate | len_lia] | done]. }
  apply Hk; [len_lia |]. by apply bytes_ok_app in Hok as [_ ?].
Qed.

(** ** Loops over a list payload *)

(** [while (decoder.Remaining().size() > target) { xs.push_back(elem) }], with fuel. *)
Fixpoint read_while_fuel {A} (fuel : nat) (target : Z) (elem : DecM A) : DecM (list A) :=
  match fuel with
  | O => lift Diverged
  | S fuel =>
      v ← get_state;
      if target <? len v
      then x ← elem; xs ← read_while_fuel fuel target elem; mret (x :: xs)
      else mret []
  end.

(** An iteration consumes an octet or leaves, so one unit of fuel per octet is enough. *)
Definition read_while {A} (target : Z) (elem : DecM A) : DecM (list A) := fun v =>
  read_while_fuel (S (length v)) target elem v.

(** [if (decoder.Remaining().size() != target) return kListLengthMismatch;]. *)
Definition check_target (target : Z) : DecM unit :=
  v ← get_state; fail_if (negb (len v =? target)) DecodingError.kListLengthMismatch.

(** [const size_t target = decoder.Remaining().size() - payload;]. The difference does not
    wrap: [ReadListHeaderBytes] only returns sizes the view has. *)
Definition list_target (payload : Z) : DecM Z := v ← get_state; mret (len v - payload).

(** The loop every list of the upper layers is read with: the header, the items until the
    payload is consumed, and the check that the last one ended where the list does. *)
Definition read_list_of {A} (elem : DecM A) : DecM (list A) :=
  payload ← ReadListHeaderBytes;
  target ← list_target payload;
  xs ← read_while target elem;
  check_target target ;;
  mret xs.

(** Reading up to a target that the rest of the view has. *)
Definition reads_to {A} (m : Z -> DecM A) (bs : bytes) (a : A) : Prop :=
  len bs < 2 ^ 64 -> forall rest, bytes_ok (bs ++ rest) -> m (len rest) (bs ++ rest) = (Ok a, rest).

Lemma reads_list_target {A} (k : Z -> DecM A) bs a :
  reads_to k bs a -> reads (list_target (len bs) ≫= k) bs a.
Proof.
  intros H Hl rest Hok. unfold list_target. unfold_m. rewrite len_app.
  replace (len bs + len rest - len bs) with (len rest) by lia. by apply H.
Qed.

Lemma reads_to_check {A} (a : A) : reads_to (fun target => check_target target ;; mret a) [] a.
Proof. intros _ rest _. unfold check_target. unfold_m. cbn [app]. by rewrite Z.eqb_refl. Qed.

Lemma reads_to_while {A B} (elem : DecM A) (f : A -> bytes) xs (k : Z -> list A -> DecM B) b2 b :
  (forall x, x ∈ xs -> f x <> [] /\ reads elem (f x) x) ->
  reads_to (fun t => k t xs) b2 b -> b2 = [] ->
  reads_to (fun t => xs' ← read_while t elem; k t xs') (concat (map f xs) ++ b2) b.
Proof.
  intros Hx Hk -> Hl rest Hok. rewrite app_nil_r in *.
  assert (forall fuel, (length (concat (map f xs) ++ rest) < fuel)%nat ->
    read_while_fuel fuel (len rest) elem (concat (map f xs) ++ rest) = (Ok xs, rest)) as Hw.
  { clear Hk k b B. induction xs as [|x xs IH]; intros fuel Hfuel.
    - destruct fuel as [|fuel]; [simpl in Hfuel; lia |]. cbn [map concat app read_while_fuel].
      unfold_m. by rewrite Z.ltb_irrefl.
    - destruct (Hx x ltac:(left)) as [Hne Hr]. cbn [map concat] in *. rewrite <- app_assoc in *.
      assert (0 < len (f x)) by (destruct (f x); [done | len_lia]).
      destruct fuel as [|fuel]; [lia |]. cbn [read_while_fuel].
      erewrite bind_ok by done. rewrite len_app. destruct (Z.ltb_spec (len rest)
        (len (f x) + len (concat (map f xs) ++ rest))); [| len_lia].
      erewrite bind_ok by (apply Hr; [len_lia | done]).
      erewrite bind_ok; [done |]. apply IH.
      + intros; apply Hx; by right.
      + len_lia.
      + by apply bytes_ok_app in Hok as [_ ?].
      + rewrite length_app in Hfuel. unfold len in *. lia. }
  erewrite bind_ok by (unfold read_while; apply Hw; lia).
  apply (Hk ltac:(rewrite len_nil; lia) rest). by apply bytes_ok_app in Hok as [_ ?].
Qed.

Lemma reads_to_bind {A B} (m : DecM A) (k : Z -> A -> DecM B) b1 b2 a b :
  reads m b1 a -> reads_to (fun t => k t a) b2 b -> reads_to (fun t => m ≫= k t) (b1 ++ b2) b.
Proof.
  intros H1 H2 Hl rest. rewrite <- app_assoc. intros Hok.
  rewrite (bind_ok _ _ _ _ _ (H1 ltac:(len_lia) _ Hok)).
  apply H2; [len_lia |]. by apply bytes_ok_app in Hok as [_ ?].
Qed.

Lemma reads_read_list_of {A} (elem : DecM A) (f : A -> bytes) xs :
  (forall x, x ∈ xs -> f x <> [] /\ reads elem (f x) x) ->
  reads (read_list_of elem) (rlp_list (concat (map f xs))) xs.
Proof.
  intros Hx. apply reads_list, reads_list_target. rewrite <- (app_nil_r (concat (map f xs))).
  apply reads_to_while; [done | apply reads_to_check | done].
Qed.

(** Lists of encoded items. *)
Lemma reads_read_items {A} (elem : DecM A) (f : A -> item) xs :
  (forall x, x ∈ xs -> reads elem (rlp (f x)) x) ->
  reads (read_list_of elem) (rlp (Lst (map f xs))) xs.
Proof.
  intros Hx. cbn [rlp]. rewrite map_map. apply reads_read_list_of.
  intros x Hin. split; [| by apply Hx].
  pose proof (rlp_nonempty (f x)) as Hn. intros E. rewrite E, len_nil in Hn. lia.
Qed.

#[export] Hint Resolve reads_ret reads_or_else reads_SkipItem reads_read_bytes
  reads_read_fixed reads_read_integral reads_read_uint256 reads_read_bool : reads.

(** ** Termination and memory safety *)

(** Whatever the octets, [m] returns, and leaves a suffix of the view it was given. *)
Definition total {A} (m : DecM A) : Prop := forall v, bytes_ok v ->
  fst (m v) <> Diverged /\ exists p, v = p ++ snd (m v).

(** When [m] succeeds it has consumed at least one octet. *)
Definition consuming {A} (m : DecM A) : Prop :=
  total m /\ forall v a v', bytes_ok v -> m v = (Ok a, v') -> len v' < len v.

Create HintDb total.

Lemma total_ret {A} (a : A) : total (mret a).
Proof. split; [done | by exists []]. Qed.

Lemma total_throw {A} e : total (@throw _ _ A e).
Proof. split; [done | by exists []]. Qed.

Lemma total_lift {A} (r : Result A) : r <> Diverged -> total (lift r).
Proof. split; [done | by exists []]. Qed.

Lemma total_get_state : total get_state.
Proof. split; [done | by exists []]. Qed.

Lemma total_fail_if c e : total (fail_if c e).
Proof. unfold fail_if. destruct c; [apply total_throw | apply total_ret]. Qed.

Lemma total_remove_prefix n : total (remove_prefix n).
Proof. intros v Hv. split; [done |]. exists (take (Z.to_nat n) v). symmetry. apply take_drop. Qed.

Lemma total_bind {A B} (m : DecM A) (f : A -> DecM B) :
  total m -> (forall a, total (f a)) -> total (m ≫= f).
Proof.
  intros Hm Hf v Hv. destruct (Hm v Hv) as (Hd & p & Hp). unfold mbind, M_bind.
  destruct (m v) as [[a|e|] v']; cbn in *; [| by split; [| exists p] | done].
  rewrite Hp in Hv. apply bytes_ok_app in Hv as [_ Hv'].
  destruct (Hf a v' Hv') as (Hd' & q & Hq). split; [done |]. exists (p ++ q).
  rewrite Hp, Hq at 1. by rewrite app_assoc.
Qed.

Lemma total_or_else {A} (m : DecM A) e : total m -> total (or_else m e).
Proof.
  intros Hm v Hv. destruct (Hm v Hv) as (Hd & p & Hp). unfold or_else.
  destruct (m v) as [[|?|] ?]; cbn in *; split; try done; by exists p.
Qed.

Lemma total_peek {A} (m : DecM A) : total m -> total (fun v => (fst (m v), v)).
Proof. intros Hm v Hv. destruct (Hm v Hv) as (Hd & _). split; [done | by exists []]. Qed.

#[export] Hint Resolve total_ret total_throw total_lift total_bind total_or_else from_big_compact_total : total.
#[export] Hint Extern 1 (total get_state) => simple apply total_get_state : total.
#[export] Hint Extern 1 (total (fail_if _ _)) => simple apply total_fail_if : total.
#[export] Hint Extern 1 (total (remove_prefix _)) => simple apply total_remove_prefix : total.

(** Follow the code: its sequence of calls and its branches. *)
Ltac total_tac :=
  repeat first
    [ progress intros
    | solve [auto with total]
    | apply total_bind
    | case_match
    | progress cbv beta zeta ].

Lemma total_long_header l k m : total (long_header l k m).
Proof. unfold long_header. total_tac. Qed.

#[export] Hint Extern 1 (total (long_header _ _ _)) => simple apply total_long_header : total.

Lemma total_decode_header_impl : total decode_header_impl.
Proof. unfold decode_header_impl. total_tac. Qed.

Lemma total_PeekHeader : total PeekHeader.
Proof. apply (total_peek decode_header_impl), total_decode_header_impl. Qed.

Lemma total_skip_header : total skip_header_internal.
Proof. unfold skip_header_internal. total_tac. Qed.

Lemma from_big_compact_uint256_total bs : from_big_compact_uint256 bs <> Diverged.
Proof. unfold from_big_compact_uint256. repeat case_match; done. Qed.

Lemma total_IsFinished : total IsFinished.
Proof. split; [done | by exists []]. Qed.

Lemma total_IsList : total IsList.
Proof. intros v _. unfold IsList. split; [cbn; by case_match | by exists []]. Qed.

#[export] Hint Resolve from_big_compact_uint256_total : total.
#[export] Hint Extern 1 (total decode_header_impl) => simple apply total_decode_header_impl : total.
#[export] Hint Extern 1 (total PeekHeader) => simple apply total_PeekHeader : total.
#[export] Hint Extern 1 (total skip_header_internal) => simple apply total_skip_header : total.
#[export] Hint Extern 1 (total IsFinished) => simple apply total_IsFinished : total.
#[export] Hint Extern 1 (total IsList) => simple apply total_IsList : total.

Lemma total_read_bytes : total read_bytes.
Proof. unfold read_bytes. total_tac. Qed.
Lemma total_read_integral w : total (read_integral w).
Proof. unfold read_integral. total_tac. Qed.
Lemma total_read_uint256 : total read_uint256.
Proof. unfold read_uint256. total_tac. Qed.
Lemma total_read_bool : total read_bool.
Proof. unfold read_bool. total_tac. Qed.
Lemma total_read_fixed N : total (read_fixed N).
Proof. unfold read_fixed. total_tac. Qed.
Lemma total_SkipItem : total SkipItem.
Proof. unfold SkipItem. total_tac. Qed.
Lemma total_ReadListHeaderBytes : total ReadListHeaderBytes.
Proof. unfold ReadListHeaderBytes. total_tac. Qed.

#[export] Hint Extern 1 (total read_bytes) => simple apply total_read_bytes : total.
#[export] Hint Extern 1 (total (read_integral _)) => simple apply total_read_integral : total.
#[export] Hint Extern 1 (total read_uint256) => simple apply total_read_uint256 : total.
#[export] Hint Extern 1 (total read_bool) => simple apply total_read_bool : total.
#[export] Hint Extern 1 (total (read_fixed _)) => simple apply total_read_fixed : total.
#[export] Hint Extern 1 (total SkipItem) => simple apply total_SkipItem : total.
#[export] Hint Extern 1 (total ReadListHeaderBytes) => simple apply total_ReadListHeaderBytes : total.

(** ** What a successful read was given *)

Lemma PeekHeader_inv v h s : PeekHeader v = (Ok h, s) -> s = v /\ exists v', decode_header_impl v = (Ok h, v').
Proof.
  unfold PeekHeader. destruct (decode_header_impl v) as [r v']. cbn. intros [= -> <-]. eauto.
Qed.

(** Peel the header off a read that succeeded. *)
Ltac peek H h v' Hh :=
  let E := fresh in
  apply bind_inv in H as (h & ? & E & H); apply PeekHeader_inv in E as (-> & v' & Hh).

Ltac inv_guard H :=
  apply bind_inv in H as ([] & ? & ? & H);
  match goal with
  | G : fail_if ?c _ _ = (Ok _, _) |- _ =>
      let E := fresh "E" in destruct c eqn:E; [discriminate G | injection G as <-]
  end.

Lemma read_bytes_inv v s w :
  bytes_ok v -> read_bytes v = (Ok s, w) -> exists h v',
    decode_header_impl v = (Ok h, v') /\ is_list h = false
    /\ s = take (Z.to_nat (payload_size_bytes h)) v' /\ w = drop (Z.to_nat (payload_size_bytes h)) v'.
Proof.
  intros Hv H. pose proof H as H0. unfold read_bytes in H. peek H h v' Hh. inv_guard H.
  exists h, v'. rewrite (read_bytes_ok v v' h Hv Hh) in H0 by done. by injection H0 as <- <-.
Qed.

Lemma ReadListHeaderBytes_inv v n w :
  ReadListHeaderBytes v = (Ok n, w) -> exists h,
    decode_header_impl v = (Ok h, w) /\ is_list h = true /\ payload_size_bytes h = n.
Proof.
  intros H. pose proof H as H0. unfold ReadListHeaderBytes in H. peek H h v' Hh. inv_guard H.
  apply negb_false_iff in E. rewrite (ReadListHeaderBytes_ok v v' h Hh) in H0 by done.
  injection H0 as <- <-. eauto.
Qed.

Lemma SkipItem_inv v w :
  bytes_ok v -> SkipItem v = (Ok tt, w) -> exists h v',
    decode_header_impl v = (Ok h, v') /\ w = drop (Z.to_nat (payload_size_bytes h)) v'.
Proof.
  intros Hv H. pose proof H as H0. unfold SkipItem in H. peek H h v' Hh.
  exists h, v'. rewrite (SkipItem_ok v v' h Hv Hh) in H0. by injection H0 as <-.
Qed.

Lemma read_fixed_inv N v s w :
  bytes_ok v -> read_fixed N v = (Ok s, w) -> exists h v',
    decode_header_impl v = (Ok h, v') /\ is_list h = false /\ payload_size_bytes h = N
    /\ s = take (Z.to_nat (payload_size_bytes h)) v' /\ w = drop (Z.to_nat (payload_size_bytes h)) v'.
Proof.
  intros Hv H. pose proof H as H0. unfold read_fixed in H. peek H h v' Hh. do 2 inv_guard H.
  assert (payload_size_bytes h = N) as HN.
  { destruct (Z.eqb_spec (payload_size_bytes h) N); [done |].
    destruct (Z.eqb_spec N 1), (Z.eqb_spec (payload_size_bytes h) 1); cbn in *; congruence || lia. }
  exists h, v'. rewrite (read_fixed_ok v v' h Hv Hh N) in H0 by done.
  injection H0 as <- <-. by rewrite HN.
Qed.

Lemma read_integral_inv w v n v'' :
  bytes_ok v -> 0 <= w -> read_integral w v = (Ok n, v'') -> exists h v',
    decode_header_impl v = (Ok h, v') /\ is_list h = false
    /\ from_big_compact w (take (Z.to_nat (payload_size_bytes h)) v') = Ok n
    /\ v'' = drop (Z.to_nat (payload_size_bytes h)) v'.
Proof.
  intros Hv Hw H. unfold read_integral in H. peek H h v' Hh. inv_guard H.
  apply bind_inv in H as (u & ? & [= -> <-] & H). cbv zeta in H.
  rewrite (substr_payload u v' h Hh) in H. do 4 inv_guard H.
  apply bind_inv in H as (m & s & Hm & H). unfold lift in Hm. injection Hm as Hm <-.
  apply bind_inv in H as ([] & ? & Hr & H). injection Hr as <-. injection H as <- <-.
  exists h, v'. by rewrite (drop_item u v' h Hv Hh).
Qed.

Lemma read_uint256_inv v n v'' :
  bytes_ok v -> read_uint256 v = (Ok n, v'') -> exists h v',
    decode_header_impl v = (Ok h, v') /\ is_list h = false
    /\ from_big_compact 32 (take (Z.to_nat (payload_size_bytes h)) v') = Ok n
    /\ v'' = drop (Z.to_nat (payload_size_bytes h)) v'.
Proof.
  intros Hv H. unfold read_uint256 in H. peek H h v' Hh. inv_guard H.
  apply bind_inv in H as (u & ? & [= -> <-] & H). cbv zeta in H.
  rewrite (substr_payload u v' h Hh) in H. do 2 inv_guard H.
  apply bind_inv in H as (m & s & Hm & H). unfold lift in Hm. injection Hm as Hm <-.
  do 2 inv_guard H.
  apply bind_inv in H as ([] & ? & Hr & H). injection Hr as <-. injection H as <- <-.
  exists h, v'. rewrite (drop_item u v' h Hv Hh). repeat split; try done.
  rewrite <- Hm. symmetry. apply from_big_compact_uint256_eq. by apply (payload_ok u v' h Hv Hh).
Qed.

(** ** Reads consume *)

Lemma drop_item_shorter v h v' :
  bytes_ok v -> decode_header_impl v = (Ok h, v') ->
  len (drop (Z.to_nat (payload_size_bytes h)) v') < len v.
Proof.
  intros Hv Hh. pose proof (decode_header_bounds v h v' Hv Hh).
  rewrite <- (drop_item v v' h Hv Hh). unfold len in *. rewrite length_drop. lia.
Qed.

Lemma consuming_read_bytes : consuming read_bytes.
Proof.
  split; [auto with total |]. intros v a w Hv H.
  apply read_bytes_inv in H as (h & v' & Hh & _ & _ & ->); [| done]. by apply drop_item_shorter.
Qed.

Lemma consuming_SkipItem : consuming SkipItem.
Proof.
  split; [auto with total |]. intros v [] w Hv H.
  apply SkipItem_inv in H as (h & v' & Hh & ->); [| done]. by apply drop_item_shorter.
Qed.

Lemma consuming_read_fixed N : consuming (read_fixed N).
Proof.
  split; [auto with total |]. intros v a w Hv H.
  apply read_fixed_inv in H as (h & v' & Hh & _ & _ & _ & ->); [| done]. by apply drop_item_shorter.
Qed.

Lemma list_header_shorter v h v' :
  bytes_ok v -> decode_header_impl v = (Ok h, v') -> is_list h = true -> len v' < len v.
Proof.
  intros Hv Hh Hl. destruct (decode_header_inv v h v' Hv Hh) as [(? & ? & _ & _ & _ & ->) | (-> & _)];
    [done |]. pose proof (length_prefix_nonempty (is_list h) (payload_size_bytes h)). len_lia.
Qed.

Lemma consuming_ReadListHeaderBytes : consuming ReadListHeaderBytes.
Proof.
  split; [auto with total |]. intros v a w Hv H.
  apply ReadListHeaderBytes_inv in H as (h & Hh & Hl & _). by eapply list_header_shorter.
Qed.

Lemma consuming_bind {A B} (m : DecM A) (f : A -> DecM B) :
  consuming m -> (forall a, total (f a)) -> consuming (m ≫= f).
Proof.
  intros [Ht Hc] Hf. split; [auto with total |]. intros v b v'' Hv H.
  apply bind_inv in H as (a & v' & Hm & H). pose proof (Hc v a v' Hv Hm).
  destruct (Ht v Hv) as (_ & p & Hp). rewrite Hm in Hp. cbn in Hp.
  rewrite Hp in Hv. apply bytes_ok_app in Hv as [_ Hv'].
  destruct (Hf a v' Hv') as (_ & q & Hq). rewrite H in Hq. cbn in Hq. rewrite Hq in *. len_lia.
Qed.

Lemma consuming_or_else {A} (m : DecM A) e : consuming m -> consuming (or_else m e).
Proof.
  intros [Ht Hc]. split; [auto with total |]. intros v a v' Hv H. apply or_else_ok in H. eauto.
Qed.

#[export] Hint Resolve consuming_bind consuming_or_else : total.
#[export] Hint Extern 1 (consuming read_bytes) => simple apply consuming_read_bytes : total.
#[export] Hint Extern 1 (consuming SkipItem) => simple apply consuming_SkipItem : total.
#[export] Hint Extern 1 (consuming (read_fixed _)) => simple apply consuming_read_fixed : total.
#[export] Hint Extern 1 (consuming ReadListHeaderBytes) => simple apply consuming_ReadListHeaderBytes : total.

(** ** Loops end *)

(** [m] returns, in a suffix of the view and past at least one octet when it succeeds, on the
    views of at most [n] octets. *)
Definition ends_below {A} (n : nat) (m : DecM A) : Prop := forall v,
  bytes_ok v -> (length v <= n)%nat ->
  fst (m v) <> Diverged /\ (exists p, v = p ++ snd (m v))
  /\ forall a v', m v = (Ok a, v') -> len v' < len v.

Lemma consuming_ends_below {A} n (m : DecM A) : consuming m -> ends_below n m.
Proof. intros [Ht Hc] v Hv _. destruct (Ht v Hv). eauto. Qed.

Lemma read_while_fuel_ends {A} (elem : DecM A) n target fuel v :
  ends_below n elem -> bytes_ok v -> (length v <= n)%nat -> (length v < fuel)%nat ->
  fst (read_while_fuel fuel target elem v) <> Diverged
  /\ exists p, v = p ++ snd (read_while_fuel fuel target elem v).
Proof.
  intros He. revert v. induction fuel as [|fuel IH]; intros v Hv Hn Hf; [lia |].
  cbn [read_while_fuel]. erewrite bind_ok by done.
  destruct (target <? len v); [| by split; [| exists []]].
  destruct (He v Hv Hn) as (Hd & (p & Hp) & Hc). destruct (elem v) as [[a|e|] v'] eqn:E; cbn in Hd, Hp.
  - pose proof (Hc a v' eq_refl) as Hlt. erewrite bind_ok by exact E. rewrite Hp in Hv.
    apply bytes_ok_app in Hv as [_ Hv']. unfold len in Hlt.
    destruct (IH v' Hv' ltac:(lia) ltac:(lia)) as (Hd' & q & Hq).
    unfold mbind, M_bind. destruct (read_while_fuel fuel target elem v') as [[xs|e|] v'']; cbn in *;
      (split; [done |]); exists (p ++ q); rewrite Hp, Hq at 1; by rewrite app_assoc.
  - erewrite bind_err by exact E. split; [done |]. by exists p.
  - done.
Qed.

Lemma total_read_while {A} (elem : DecM A) target : consuming elem -> total (read_while target elem).
Proof.
  intros Hc v Hv. apply (read_while_fuel_ends elem (length v)); [| done | lia | lia].
  by apply consuming_ends_below.
Qed.

Lemma total_check_target t : total (check_target t).
Proof. unfold check_target. total_tac. Qed.

Lemma total_list_target n : total (list_target n).
Proof. unfold list_target. total_tac. Qed.

#[export] Hint Resolve total_read_while : total.
#[export] Hint Extern 1 (total (check_target _)) => simple apply total_check_target : total.
#[export] Hint Extern 1 (total (list_target _)) => simple apply total_list_target : total.

Lemma consuming_read_list_of {A} (elem : DecM A) : consuming elem -> consuming (read_list_of elem).
Proof. intros H. unfold read_list_of. apply consuming_bind; [auto with total | total_tac]. Qed.

Lemma consuming_total {A} (m : DecM A) : consuming m -> total m.
Proof. by intros []. Qed.

#[export] Hint Resolve consuming_read_list_of consuming_total : total.

(** ** Failed reads *)

(** The methods of a decoder. *)
Inductive decoder_op :=
| OpRead | OpReadIntegral (w : Z) | OpReadUint256 | OpReadBool | OpReadFixed (N : Z)
| OpReadListHeader | OpSkipItem | OpPeekHeader | OpPeekPayload | OpIsList | OpIsString.

(** A method with its value forgotten. *)
Definition forget {A} (m : DecM A) : DecM unit := _ ← m; mret tt.

Definition apply_decoder_op (op : decoder_op) : DecM unit :=
  match op with
  | OpRead => forget read_bytes
  | OpReadIntegral w => forget (read_integral w)
  | OpReadUint256 => forget read_uint256
  | OpReadBool => forget read_bool
  | OpReadFixed N => forget (read_fixed N)
  | OpReadListHeader => forget ReadListHeaderBytes
  | OpSkipItem => SkipItem
  | OpPeekHeader => forget PeekHeader
  | OpPeekPayload => forget PeekPayload
  | OpIsList => forget IsList
  | OpIsString => forget IsString
  end.

(** [m] fails without moving the view. *)
Definition atomic {A} (m : DecM A) : Prop :=
  forall v e v', bytes_ok v -> m v = (Err e, v') -> v' = v.

Lemma atomic_forget {A} (m : DecM A) : atomic m -> atomic (forget m).
Proof.
  intros Hm v e v' Hv. unfold forget, mbind, M_bind.
  destruct (m v) as [[a|e'|] w] eqn:E; intros [= <- <-]; eauto.
Qed.

Lemma atomic_peek {A} (r : ByteView -> Result A) : atomic (fun v => (r v, v)).
Proof. by intros v e v' _ [= _ ->]. Qed.

(** A method that peeks at the header is atomic when what follows is, for a header of the view. *)
Lemma atomic_PeekHeader {A} (k : Header -> DecM A) :
  (forall h v v' e u, bytes_ok v -> decode_header_impl v = (Ok h, v') -> k h v = (Err e, u) -> u = v) ->
  atomic (PeekHeader ≫= k).
Proof.
  intros Hk v e u Hv. unfold mbind, M_bind, PeekHeader.
  destruct (decode_header_impl v) as [[h|e'|] v'] eqn:Hh; cbn; [| by intros [= _ ->] | done].
  by apply (Hk h v v').
Qed.

Ltac atomic_tac :=
  apply atomic_PeekHeader; intros h v v' e u Hv Hh;
  pose proof (payload_in_view v v' h Hv Hh); destruct (skip_header_ok v h v' Hh) as (Hs & _ & _);
  intros Hk; unfold_m; unfold remove_prefix in Hk; repeat (rewrite ?Hs in Hk; decide_guard_in Hk);
  rewrite ?Hs in Hk; try congruence.

Lemma atomic_read_bytes : atomic read_bytes.
Proof. unfold read_bytes. atomic_tac. Qed.

Lemma atomic_SkipItem : atomic SkipItem.
Proof. unfold SkipItem. atomic_tac. Qed.

Lemma atomic_ReadListHeaderBytes : atomic ReadListHeaderBytes.
Proof. unfold ReadListHeaderBytes. atomic_tac. Qed.

Lemma atomic_read_fixed N : atomic (read_fixed N).
Proof. unfold read_fixed. atomic_tac. Qed.

Lemma atomic_read_integral w : atomic (read_integral w).
Proof.
  unfold read_integral. atomic_tac.
  destruct (from_big_compact _ _); cbn in Hk; unfold remove_prefix in Hk; congruence.
Qed.

Lemma atomic_read_uint256 : atomic read_uint256.
Proof.
  unfold read_uint256. atomic_tac.
  all: destruct (from_big_compact_uint256 (substr v _ _)); cbn in Hk; repeat decide_guard_in Hk;
    congruence.
Qed.

Lemma atomic_read_bool : atomic read_bool.
Proof. unfold read_bool. atomic_tac. Qed.

Lemma atomic_PeekPayload : atomic PeekPayload.
Proof. unfold PeekPayload. atomic_tac. Qed.

(** a failed call is harmless. Whatever method fails, whatever its error, the decoder still
    stands where it stood, so that a caller can try another type. *)
Theorem failed_read_keeps_view op v e v' :
  bytes_ok v -> apply_decoder_op op v = (Err e, v') -> v' = v.
Proof.
  intros Hv H. revert Hv H. revert v e v'. change (atomic (apply_decoder_op op)).
  destruct op; cbn [apply_decoder_op]; try apply atomic_forget; auto using
    atomic_read_bytes, atomic_read_integral, atomic_read_uint256, atomic_read_bool,
    atomic_read_fixed, atomic_ReadListHeaderBytes, atomic_SkipItem, atomic_PeekPayload;
    apply atomic_peek.
Qed.

Lemma failed_read_keeps_view_witness :
  apply_decoder_op (OpReadIntegral 1) [0x82; 0x01; 0x00] = (Err DecodingError.kOverflow, [0x82; 0x01; 0x00])
  /\ snd (apply_decoder_op (OpReadIntegral 1) [0x82; 0x01; 0x00]) = [0x82; 0x01; 0x00].
Proof.
  split; [reflexivity |].
  exact (failed_read_keeps_view (OpReadIntegral 1) [0x82; 0x01; 0x00] DecodingError.kOverflow
    _ ltac:(octets) eq_refl).
Defined.
