(* ===== verification/RlpRoundtrip.v ===== *)
(** * RlpRoundtrip: the decoder against the format

    The decoder accepts exactly the canonical encodings: what it reads is what the encoder
    would have written, and everything the encoder writes is read back. *)
From S2P Require Export RlpEncoder RlpDecoder.

(** ** Canonicity of the reads *)

(** [m] accepts only [f a], for the [a] it returns. *)
Definition reads_only {A} (m : DecM A) (f : A -> bytes) : Prop :=
  forall v a v', bytes_ok v -> m v = (Ok a, v') -> v = f a ++ v'.

Lemma take_literal (b : Z) t : take (Z.to_nat 1) (b :: t) = [b].
Proof. reflexivity. Qed.

(** The octets of a string header and its payload are the encoding of the payload. *)
Lemma string_header_rlp v h v' :
  bytes_ok v -> decode_header_impl v = (Ok h, v') -> is_list h = false ->
  v = rlp (Str (take (Z.to_nat (payload_size_bytes h)) v'))
      ++ drop (Z.to_nat (payload_size_bytes h)) v'.
Proof.
  intros Hv Hh Hl. cbn [rlp]. unfold rlp_string.
  destruct (decode_header_inv v h v' Hv Hh) as [(b & t & -> & Hb & -> & ->) | (Hp & _ & Hn & _ & H1)].
  - header_simpl. rewrite take_literal, drop_1_cons. cbn. destruct (Z.ltb_spec b 128); [done | lia].
  - specialize (H1 Hl). rewrite Hl in Hp. rewrite len_take by lia.
    assert (is_literal (take (Z.to_nat (payload_size_bytes h)) v') = false) as ->.
    { destruct (take (Z.to_nat (payload_size_bytes h)) v') as [|b [|? ?]] eqn:E; try done.
      pose proof (len_take (payload_size_bytes h) v' ltac:(lia)) as Hlen. rewrite E in Hlen.
      change (len [b]) with 1 in Hlen. rewrite <- Hlen in E, H1. specialize (H1 eq_refl).
      destruct v' as [|c v']; [done |]. rewrite take_literal in E. injection E as ->.
      rewrite byte_at_0 in H1. cbn. lia. }
    rewrite <- app_assoc, take_drop. exact Hp.
Qed.

Lemma read_bytes_only : reads_only read_bytes (fun s => rlp (Str s)).
Proof.
  intros v s v' Hv H. apply read_bytes_inv in H as (h & w & Hh & Hl & -> & ->); [| done].
  by apply string_header_rlp.
Qed.

Lemma read_fixed_only N : reads_only (read_fixed N) (fun s => rlp (Str s)).
Proof.
  intros v s v' Hv H. apply read_fixed_inv in H as (h & w & Hh & Hl & _ & -> & ->); [| done].
  by apply string_header_rlp.
Qed.

Lemma ReadListHeaderBytes_only : reads_only ReadListHeaderBytes (length_prefix true).
Proof.
  intros v n v' Hv H. apply ReadListHeaderBytes_inv in H as (h & Hh & Hl & <-).
  destruct (decode_header_inv v h v' Hv Hh) as [(? & ? & _ & _ & _ & ->) | (Hp & _)]; [done |].
  by rewrite Hl in Hp.
Qed.

(** The payload size a list header announces is in the view. *)
Lemma ReadListHeaderBytes_bound v n v' :
  bytes_ok v -> ReadListHeaderBytes v = (Ok n, v') -> 0 <= n <= len v'.
Proof.
  intros Hv H. apply ReadListHeaderBytes_inv in H as (h & Hh & _ & <-).
  by apply (payload_in_view v v' h Hv Hh).
Qed.

Lemma read_while_fuel_only {A} (elem : DecM A) f target fuel v xs v' :
  reads_only elem f -> bytes_ok v ->
  read_while_fuel fuel target elem v = (Ok xs, v') ->
  v = concat (map f xs) ++ v' /\ len v' <= target.
Proof.
  intros Hf. revert v xs. induction fuel as [|fuel IH]; intros v xs Hv H; [done |].
  cbn [read_while_fuel] in H. erewrite bind_ok in H by done.
  destruct (Z.ltb_spec target (len v)); [| injection H as <- <-; done].
  apply bind_inv in H as (x & w & Hx & H). apply bind_inv in H as (ys & ? & Hys & H).
  injection H as <- <-. apply Hf in Hx; [| done]. rewrite Hx in Hv.
  apply bytes_ok_app in Hv as [_ Hw]. destruct (IH w ys Hw Hys) as [E Hlt].
  split; [| done]. rewrite Hx, E at 1. cbn. by rewrite app_assoc.
Qed.

(** A list that is read is the encoding of its elements. *)
Lemma read_list_of_only {A} (elem : DecM A) f :
  reads_only elem f -> reads_only (read_list_of elem) (fun xs => rlp_list (concat (map f xs))).
Proof.
  intros Hf v xs v' Hv H. unfold read_list_of in H.
  apply bind_inv in H as (n & w & Hn & H). pose proof (ReadListHeaderBytes_bound v n w Hv Hn).
  apply ReadListHeaderBytes_only in Hn; [| done].
  apply bind_inv in H as (t & w1 & Hlt & H). unfold list_target in Hlt. injection Hlt as <- <-.
  apply bind_inv in H as (ys & w2 & Hys & H). apply bind_inv in H as ([] & w3 & Hck & H).
  injection H as -> ->. unfold check_target in Hck. unfold_m. decide_guard_in Hck.
  injection Hck as ->. unfold read_while in Hys.
  rewrite Hn in Hv. apply bytes_ok_app in Hv as [_ Hw].
  destruct (read_while_fuel_only elem f _ _ _ _ _ Hf Hw Hys) as [Ew _].
  assert (n = len (concat (map f xs))) as ->.
  { apply negb_false_iff, Z.eqb_eq in E. rewrite Ew in E. len_lia. }
  unfold rlp_list. by rewrite <- app_assoc, <- Ew.
Qed.

(** ** Octets of an encoding *)

Lemma digits_ok n : bytes_ok (digits n).
Proof. unfold digits. case_match; [constructor | apply be_bytes_ok]. Qed.

Lemma length_prefix_ok l n : 0 <= n < 2 ^ 64 -> bytes_ok (length_prefix l n).
Proof.
  intros Hn. unfold length_prefix. destruct (Z.leb_spec n 55).
  - constructor; [| constructor]. unfold uint8. destruct l; lia.
  - pose proof (digits_len 8 n ltac:(lia) ltac:(unfold fits; lia)).
    constructor; [| apply digits_ok]. unfold uint8. destruct l; len_lia.
Qed.

Lemma rlp_string_ok s : bytes_ok s -> len (rlp_string s) < 2 ^ 64 -> bytes_ok (rlp_string s).
Proof.
  intros Hs. unfold rlp_string. destruct (is_literal s); [done |]. intros Hl.
  apply bytes_ok_app. split; [apply length_prefix_ok; len_lia | done].
Qed.

Lemma rlp_list_ok b : bytes_ok b -> len (rlp_list b) < 2 ^ 64 -> bytes_ok (rlp_list b).
Proof.
  intros Hs. unfold rlp_list. intros Hl.
  apply bytes_ok_app. split; [apply length_prefix_ok; len_lia | done].
Qed.

Lemma item_ok_Lst l : item_ok (Lst l) <-> Forall item_ok l.
Proof.
  cbn. induction l as [|x l IH]; cbn; [split; [constructor | done] |].
  rewrite Forall_cons_iff. by rewrite IH.
Qed.

Lemma rlp_ok it : item_ok it -> len (rlp it) < 2 ^ 64 -> bytes_ok (rlp it).
Proof.
  induction it as [s|l IH] using item_ind_nested; intros Hok Hl.
  - by apply rlp_string_ok.
  - cbn [rlp] in *. apply rlp_list_ok; [| done]. apply item_ok_Lst in Hok.
    unfold rlp_list in Hl. assert (len (rlps l) < 2 ^ 64) as Hls by (unfold rlps; len_lia).
    clear Hl. change (bytes_ok (rlps l)). induction l as [|x l IHl]; [constructor |].
    rewrite rlps_cons in *. apply Forall_cons_iff in IH as [Hx IH], Hok as [Hok Hoks].
    apply bytes_ok_app. split; [apply Hx; [done | len_lia] | apply IHl; [done .. | len_lia]].
Qed.

(** ** Reading a tree of items *)

(** A client that rebuilds the tree: [IsList] chooses between [read(Bytes&)] and a list loop.
    One unit of fuel per level of nesting. *)
Fixpoint decode_item (fuel : nat) : DecM item :=
  match fuel with
  | O => lift Diverged
  | S fuel =>
      l ← IsList;
      match l with
      | true => xs ← read_list_of (decode_item fuel); mret (Lst xs)
      | false => s ← read_bytes; mret (Str s)
      end
  end.

Lemma decode_item_S fuel : decode_item (S fuel) =
  (l ← IsList;
   match l with
   | true => xs ← read_list_of (decode_item fuel); mret (Lst xs)
   | false => s ← read_bytes; mret (Str s)
   end).
Proof. reflexivity. Qed.

Fixpoint depth (it : item) : nat :=
  match it with
  | Str _ => 1
  | Lst l => S (fold_right (fun (it : item) n => Nat.max (depth it) n) 0%nat l)
  end.

Lemma depth_in it l : it ∈ l -> (depth it < depth (Lst l))%nat.
Proof.
  intros Hin. cbn. induction Hin as [|? ? ? Hin IH]; cbn in *; lia.
Qed.

(** [IsList] announces the kind the header has. *)
Lemma IsList_header v h v' :
  bytes_ok v -> decode_header_impl v = (Ok h, v') -> IsList v = (Ok (is_list h), v).
Proof.
  intros Hv Hh. unfold IsList. f_equal.
  destruct (decode_header_inv v h v' Hv Hh) as [(b & t & -> & Hb & -> & ->) | (E & _ & Hn & Hm & _)].
  - cbn [empty]. rewrite byte_at_0. header_simpl. consts. f_equal. lia.
  - rewrite E. unfold length_prefix. consts.
    destruct (Z.leb_spec (payload_size_bytes h) 55); cbn [app empty]; rewrite byte_at_0; f_equal.
    + destruct (is_list h); lia.
    + pose proof (digits_len 8 (payload_size_bytes h) ltac:(lia) ltac:(unfold fits; lia)).
      pose proof (len_nonneg (digits (payload_size_bytes h))). destruct (is_list h); lia.
Qed.

Lemma decode_item_reads it : forall fuel, (depth it <= fuel)%nat -> reads (decode_item fuel) (rlp it) it.
Proof.
  induction it as [s|l IH] using item_ind_nested; intros fuel Hf Hl rest Hok;
    (destruct fuel as [|fuel]; [cbn in Hf; lia |]);
    pose proof (decode_header_rlp _ rest Hl) as Hh; cbn [decode_item];
    erewrite bind_ok by (by apply (IsList_header _ _ _ Hok Hh)); header_simpl; cbn [item_is_list].
  - by erewrite bind_ok by (by apply reads_read_bytes).
  - erewrite bind_ok; [done |]. rewrite <- (map_id l) in Hl, Hok |- * at 1.
    apply (reads_read_items _ id); [| done | done]. intros x Hx. 
    rewrite List.Forall_forall in IH. apply IH; [by apply list_elem_of_In |].
    pose proof (depth_in x l Hx). lia.
Qed.

Lemma depth_le_length it : (depth it <= length (rlp it))%nat.
Proof.
  induction it as [s|l IH] using item_ind_nested.
  - pose proof (rlp_nonempty (Str s)). unfold len in *. cbn [depth]. lia.
  - cbn [rlp]. unfold rlp_list. rewrite length_app.
    pose proof (length_prefix_nonempty true (len (concat (map rlp l)))) as Hp. unfold len at 1 in Hp.
    cbn [depth]. enough (fold_right (fun (it : item) n => Nat.max (depth it) n) 0%nat l
      <= length (concat (map rlp l)))%nat by lia.
    clear Hp. induction l as [|x l IHl]; cbn; [lia |].
    apply Forall_cons_iff in IH as [Hx IH]. rewrite length_app. specialize (IHl IH). lia.
Qed.

Lemma read_list_of_ends {A} (elem : DecM A) n :
  ends_below n elem -> ends_below (S n) (read_list_of elem).
Proof.
  intros He v Hv Hn. unfold read_list_of.
  destruct (total_ReadListHeaderBytes v Hv) as (Hd & p & Hp).
  destruct (ReadListHeaderBytes v) as [[k|e|] w] eqn:E; cbn in Hd, Hp;
    [| erewrite bind_err by exact E; split; [done |]; split; [by exists p | done] | done].
  pose proof (proj2 consuming_ReadListHeaderBytes v k w Hv E) as Hlt. unfold len in Hlt.
  erewrite bind_ok by exact E. erewrite bind_ok by done.
  rewrite Hp in Hv. apply bytes_ok_app in Hv as [_ Hw].
  destruct (read_while_fuel_ends elem n (len w - k) (S (length w)) w He Hw ltac:(lia) ltac:(lia))
    as (Hd' & q & Hq).
  unfold read_while, mbind, M_bind.
  destruct (read_while_fuel (S (length w)) (len w - k) elem w) as [[xs|e|] u] eqn:Eu;
    cbn in Hd', Hq; [| | done].
  - unfold check_target. unfold_m. decide_guard; cbn.
    all: split; [done |]; split; [exists (p ++ q); by rewrite Hp, Hq, app_assoc |].
    all: intros ? ? [= <- <-]; rewrite Hq, length_app in Hlt; unfold len; lia.
  - cbn. split; [done |]. split; [exists (p ++ q); by rewrite Hp, Hq, app_assoc | done].
Qed.

Lemma ends_bind_ret {A B} n (m : DecM A) (g : A -> B) :
  ends_below n m -> ends_below n (x ← m; mret (g x)).
Proof.
  intros Hm v Hv Hn. destruct (Hm v Hv Hn) as (Hd & Hp & Hc). unfold mbind, M_bind.
  destruct (m v) as [[a|e|] w]; cbn in *; [| done ..].
  split; [done |]. split; [done |]. intros ? ? [= <- <-]. by apply (Hc a).
Qed.

Lemma decode_item_ends fuel : ends_below fuel (decode_item (S fuel)).
Proof.
  induction fuel as [|fuel IH]; intros v Hv Hn.
  - destruct v; [| cbn in Hn; lia]. repeat split; [done | by exists [] | done].
  - rewrite decode_item_S. destruct (total_IsList v Hv) as (Hd & _).
    destruct (IsList v) as [[l|e|] s] eqn:El; cbn in Hd; [| | done];
      assert (s = v) as -> by (unfold IsList in El; congruence).
    + erewrite bind_ok by exact El.
      destruct l; [apply (ends_bind_ret (S fuel)) | apply (ends_bind_ret (S fuel))]; try done.
      * by apply read_list_of_ends.
      * apply consuming_ends_below, consuming_read_bytes.
    + erewrite bind_err by exact El. repeat split; [done | by exists [] | done].
Qed.

Lemma decode_item_only fuel : reads_only (decode_item fuel) rlp.
Proof.
  induction fuel as [|fuel IH]; intros v it v' Hv H; [done |]. rewrite decode_item_S in H.
  apply bind_inv in H as (l & s & Hl & H). unfold IsList in Hl. injection Hl as Hl <-.
  destruct l; apply bind_inv in H as (x & ? & Hx & H); injection H as <- <-.
  - exact (read_list_of_only (decode_item fuel) rlp IH v x _ Hv Hx).
  - exact (read_bytes_only v x _ Hv Hx).
Qed.

Lemma rlp_item_ok it : bytes_ok (rlp it) -> item_ok it.
Proof.
  induction it as [s|l IH] using item_ind_nested; cbn [rlp].
  - unfold rlp_string. case_match; [done |]. by intros [_ ?]%bytes_ok_app.
  - unfold rlp_list. intros [_ Hl]%bytes_ok_app. apply item_ok_Lst.
    induction l as [|x l IHl]; [constructor |]. apply Forall_cons_iff in IH as [Hx IH].
    cbn in Hl. apply bytes_ok_app in Hl as [Hxb Hl]. constructor; auto.
Qed.

(** ** The decoder implements the format *)

(** C2: the decoder accepts the canonical encodings and nothing else. Rebuilding a tree from
    a view with [IsList], [read(Bytes&)] and the list loop succeeds with a tree and a rest
    exactly when the view is the reference encoding of that tree followed by that rest; so no
    two encodings of one tree are accepted, and no octet sequence has two trees. *)
Theorem decode_item_iff_rlp v it rest :
  bytes_ok v -> len v < 2 ^ 64 ->
  decode_item (length v) v = (Ok it, rest) <-> v = rlp it ++ rest.
Proof.
  intros Hv Hl. split; [by apply decode_item_only |]. intros ->.
  apply decode_item_reads; [| len_lia | done].
  pose proof (depth_le_length it). rewrite length_app. lia.
Qed.

Lemma decode_item_iff_rlp_witness :
  decode_item 9 [0xc8; 0x83; 0x63; 0x61; 0x74; 0x83; 0x64; 0x6f; 0x67]
  = (Ok (Lst [Str [0x63; 0x61; 0x74]; Str [0x64; 0x6f; 0x67]]), []).
Proof.
  apply (decode_item_iff_rlp [0xc8; 0x83; 0x63; 0x61; 0x74; 0x83; 0x64; 0x6f; 0x67]).
  - octets.
  - reflexivity.
  - reflexivity.
Defined.

(** decoding terminates on every input. On any octets, a depth budget of the input's
    length is never exhausted, the loops end, and what is left is a suffix of the input: no
    octet outside the input is read and none is skipped backwards. *)
Theorem decode_item_terminates v :
  bytes_ok v ->
  fst (decode_item (S (length v)) v) <> Diverged
  /\ exists p, v = p ++ snd (decode_item (S (length v)) v).
Proof. intros Hv. by destruct (decode_item_ends (length v) v Hv ltac:(lia)) as (? & ? & _). Qed.

Lemma decode_item_terminates_witness :
  fst (decode_item 4 [0xc3; 0xc2; 0xc1]) <> Diverged.
Proof. apply (decode_item_terminates [0xc3; 0xc2; 0xc1]). octets. Defined.

(** Encode, then decode. What the encoder hands out for a tree, followed by anything, is
    read back by the decoder as that tree, and the rest is left. *)
Corollary encode_decode_item it bs rest :
  item_ok it -> len (rlp it) < 2 ^ 64 -> bytes_ok rest ->
  run_encoder (encode_item it ;; GetBytes) = Ok bs ->
  decode_item (depth it) (bs ++ rest) = (Ok it, rest).
Proof.
  intros Hok Hl Hr. rewrite (run_encoder_appends _ _ (appends_encode_item it) Hl).
  intros [= <-]. apply decode_item_reads; [lia | done |].
  apply bytes_ok_app. split; [by apply rlp_ok | done].
Qed.

(** ** Integers *)

(** The octets an integer read accepts: the encoding of the integer, or the literal octet 0. *)
Definition integer_octets (w : Z) (n : Z) (v rest : bytes) : Prop :=
  (fits w n /\ v = rlp (uint_item n) ++ rest) \/ (n = 0 /\ v = 0 :: rest).

Lemma integer_payload_octets w v h v' n :
  bytes_ok v -> decode_header_impl v = (Ok h, v') -> is_list h = false -> 0 <= w <= 32 ->
  from_big_compact w (take (Z.to_nat (payload_size_bytes h)) v') = Ok n ->
  integer_octets w n v (drop (Z.to_nat (payload_size_bytes h)) v').
Proof.
  intros Hv Hh Hl Hw Hf. pose proof (string_header_rlp v h v' Hv Hh Hl) as E.
  pose proof (payload_ok v v' h Hv Hh) as Hp.
  destruct (from_big_compact_inv w _ n Hp ltac:(lia) Hf) as (Hd & Hlen & Hn & Hfit).
  set (p := take _ v') in *. unfold integer_octets, uint_item. destruct Hd as [Hc | Hz].
  - left. rewrite Hn at 2. rewrite digits_be_value by (try done; lia). done.
  - right. rewrite Hz in *. split; [exact Hn | exact E].
Qed.

Lemma read_literal_zero rest :
  bytes_ok (0 :: rest) -> forall w, 1 <= w <= 32 ->
  read_integral w (0 :: rest) = (Ok 0, rest) /\ read_uint256 (0 :: rest) = (Ok 0, rest).
Proof.
  intros Hok w Hw. pose proof (decode_header_literal 0 rest ltac:(lia)) as Hh.
  assert (forall w, 1 <= w <= 32 -> from_big_compact w [0] = Ok 0) as Hz.
  { intros u Hu. apply (from_big_compact_ok u [0]); [octets | by right | unfold len; cbn; lia |].
    change (be_value [0]) with 0. apply Z.pow_pos_nonneg; lia. }
  split.
  - rewrite (read_integral_ok _ _ _ Hok Hh w 0); header_simpl; rewrite ?take_literal, ?drop_1_cons;
      [done .. | lia | unfold len; cbn; lia | apply Hz; lia].
  - rewrite (read_uint256_ok _ _ _ Hok Hh 0); header_simpl; rewrite ?take_literal, ?drop_1_cons;
      [done .. | unfold len; cbn; lia | apply Hz; lia].
Qed.

Lemma read_integral_octets w v n rest : 1 <= w <= 8 -> bytes_ok v ->
  read_integral w v = (Ok n, rest) -> integer_octets w n v rest.
Proof.
  intros Hw Hv H. apply read_integral_inv in H as (h & v' & Hh & Hnl & Hf & ->); [| done | lia].
  by apply integer_payload_octets; [.. | lia |].
Qed.

(** the integer reads accept exactly the canonical encodings of the integers that fit the
    target type, without leading zeros and in the shortest form, and the literal octet 0,
    which they take for a second encoding of zero. Every other input is an error. *)
Theorem read_integers_iff w v n rest :
  1 <= w <= 8 -> bytes_ok v -> len v < 2 ^ 64 ->
  (read_integral w v = (Ok n, rest) <-> integer_octets w n v rest)
  /\ (read_uint256 v = (Ok n, rest) <-> integer_octets 32 n v rest).
Proof.
  intros Hw Hv Hl. split; split.
  - by apply read_integral_octets.
  - intros [[Hf ->] | [-> ->]].
    + apply reads_read_integral; [lia | done | len_lia | done].
    + by apply (read_literal_zero rest Hv w); lia.
  - intros H. apply read_uint256_inv in H as (h & v' & Hh & Hnl & Hf & ->); [| done].
    by apply integer_payload_octets; [.. | lia |].
  - intros [[Hf ->] | [-> ->]].
    + apply reads_read_uint256; [done | len_lia | done].
    + by apply (read_literal_zero rest Hv 1); lia.
Qed.

Lemma read_integers_iff_witness :
  read_integral 2 [0x82; 0x04; 0x00; 0xff] = (Ok 1024, [0xff])
  /\ fst (read_integral 2 [0x83; 0x01; 0x04; 0x00]) = Err DecodingError.kOverflow.
Proof.
  split; [| reflexivity].
  apply (read_integers_iff 2 [0x82; 0x04; 0x00; 0xff] 1024 [0xff]); [lia | octets | reflexivity |].
  left. split; [split; vm_compute; congruence | reflexivity].
Defined.

(** ** Scalars and vectors *)

(** The values of a scalar type. *)
Definition scalar_ok (T : scalar) (n : Z) : Prop :=
  match T with UInt w => int_width w /\ fits w n | UInt256 => fits 32 n | Bool => n = 0 \/ n = 1 end.

(** [add] for the type. *)
Definition add_scalar (T : scalar) (n : Z) : EncM unit :=
  match T with UInt w => add_integral w n | UInt256 => add_uint256 n | Bool => add_bool (n =? 1) end.

Lemma scalar_fits T n : scalar_ok T n -> fits (scalar_size T) n /\ 1 <= scalar_size T <= 32.
Proof.
  unfold scalar_ok, int_width, fits. destruct T; cbn [scalar_size].
  - intros [Hw Hf]. split; [done | lia].
  - intros Hf. split; [done | lia].
  - intros Hf. change (2 ^ (8 * 1)) with 256. lia.
Qed.

Lemma scalar_fits32 T n : scalar_ok T n -> fits 32 n.
Proof.
  intros [Hf Hw]%scalar_fits. unfold fits in *.
  pose proof (Z.pow_le_mono_r 2 (8 * scalar_size T) (8 * 32)). lia.
Qed.

Lemma appends_add_scalar T n : scalar_ok T n -> appends (add_scalar T n) (rlp (uint_item n)).
Proof.
  destruct T as [w| |]; cbn.
  - intros [Hw Hf]. by apply appends_add_integral.
  - apply appends_add_uint256.
  - intros [-> | ->]; [exact (appends_add_bool false) | exact (appends_add_bool true)].
Qed.

Lemma scalar_digits T n : scalar_ok T n ->
  is_bool T = false -> scalar_from_compact T (digits n) = Ok n.
Proof.
  intros Hs Hb. pose proof (scalar_fits32 T n Hs) as Hf. destruct (scalar_fits T n Hs) as [Hw ?].
  destruct T; cbn in *; [by apply from_digits; [lia |] | | done].
  rewrite from_big_compact_uint256_eq by (by destruct (digits_spec n Hf)). by apply from_digits.
Qed.

Lemma scalar_empty T n : scalar_ok T n -> (digits n = [] -> n = 0).
Proof.
  intros Hs. pose proof (scalar_fits32 T n Hs) as Hf. destruct (digits_spec n Hf) as (_ & _ & Hn).
  intros E. rewrite E in Hn. by rewrite <- Hn.
Qed.

(** The type's checks accept what was written for the type. *)
Lemma check_payload_scalar T n rest h v' :
  scalar_ok T n -> bytes_ok (rlp (uint_item n) ++ rest) ->
  decode_header_impl (rlp (uint_item n) ++ rest) = (Ok h, v') ->
  is_list h = false -> payload_size_bytes h = len (digits n) ->
  check_payload T h (digits n) (rlp (uint_item n) ++ rest) = Ok tt.
Proof.
  intros Hs Hok Hh Hl Hp. unfold check_payload. rewrite Hl, Hp.
  destruct (scalar_fits T n Hs) as [Hf Hw]. pose proof (scalar_fits32 T n Hs) as Hf32.
  destruct (digits_spec n Hf32) as (_ & Hc & Hn).
  pose proof (digits_len (scalar_size T) n ltac:(lia) Hf) as Hlen.
  pose proof (decode_header_bounds _ h v' Hok Hh) as Hb. rewrite Hp in Hb.
  assert ((1 <? len (digits n)) && (byte_at (digits n) 0 =? 0) = false) as ->.
  { destruct (digits n) as [|b q]; [done |]. cbn in Hc. rewrite byte_at_0. lia. }
  change (kRlpSingleByteThreshold <=? u8 0) with false. rewrite andb_false_r.
  destruct (Z.ltb_spec (scalar_size T) (len (digits n))); [lia |].
  destruct (Z.ltb_spec (len (rlp (uint_item n) ++ rest)) (header_size_bytes h + len (digits n))); [lia |].
  destruct (is_bool T) eqn:Eb; [done |]. rewrite (scalar_digits T n Hs Eb). cbn [obind].
  destruct (Z.eqb_spec (len (digits n)) 1) as [E1|]; [| done].
  destruct (decode_header_inv _ h v' Hok Hh) as [(b & t & _ & _ & _ & ->) | (Ev & _ & _ & _ & H1)];
    [by rewrite andb_false_r |].
  specialize (H1 Hl ltac:(lia)). rewrite Hl, Hp, E1 in Ev. destruct (digits n) as [|b [|? ?]] eqn:Ed;
    [done | | len_lia]. cbn in Hn. unfold be_value in Hn. cbn in Hn.
  unfold u8. pose proof (digits_ok n) as Hb'. rewrite Ed in Hb'. apply bytes_ok_cons in Hb' as [Hb' _].
  unfold uint8 in Hb'. rewrite Z.mod_small by lia. consts.
  destruct (Z.ltb_spec n 128); [| done]. exfalso.
  unfold uint_item in Ev. rewrite Ed in Ev. cbn in Ev. unfold rlp_string in Ev. cbn in Ev.
  destruct (Z.ltb_spec b 128); [| lia]. injection Ev as -> _. cbn in H. lia.
Qed.

Lemma reads_read_scalar T n : scalar_ok T n -> reads (read_scalar T) (rlp (uint_item n)) n.
Proof.
  intros Hs Hl rest Hok. pose proof (decode_header_rlp (uint_item n) rest Hl) as Hh.
  pose proof (decode_header_bounds _ _ _ Hok Hh) as Hb.
  pose proof (substr_payload _ _ _ Hh) as Hp. pose proof (drop_item _ _ _ Hok Hh) as Hd.
  change (item_payload (uint_item n)) with (digits n) in *. change (item_is_list _) with false in *.
  header_simpl. rewrite take_len_app in Hp. rewrite drop_len_app in Hd.
  unfold read_scalar. erewrite bind_ok by exact (PeekHeader_ok _ _ _ Hh). header_simpl.
  erewrite bind_ok by done. rewrite Hp.
  erewrite bind_ok by (unfold lift; by erewrite check_payload_scalar).
  destruct (is_bool T) eqn:Eb.
  - destruct T; try done. destruct Hs as [-> | ->]; header_simpl; unfold_m; unfold remove_prefix.
    + change (digits 0) with (@nil Z) in *. rewrite len_nil in *. cbn [Z.eqb].
      change (rlp (uint_item 0)) with [0x80] in *. reflexivity.
    + change (digits 1) with [1] in *. change (len [1] =? 1) with true. rewrite byte_at_0.
      cbn [Z.eqb Pos.eqb]. by rewrite Hd.
  - unfold_m. rewrite (scalar_digits T n Hs Eb). unfold remove_prefix. by rewrite Hd.
Qed.

Lemma decode_allow {A} (m : DecM A) bs a : reads m bs a -> reads (decode m kAllow) bs a.
Proof. intros H Hl rest Hok. unfold decode. by rewrite (H Hl rest Hok). Qed.

Lemma rlp_items_empty (l : list item) : rlps l = [] -> l = [].
Proof.
  destruct l as [|x l]; [done |]. rewrite rlps_cons. intros E. pose proof (rlp_nonempty x) as H.
  destruct (rlp x); [len_lia | done].
Qed.

Lemma read_vector_loop_ok T xs fuel :
  Forall (scalar_ok T) xs -> len (rlps (map uint_item xs)) < 2 ^ 64 ->
  bytes_ok (rlps (map uint_item xs)) -> (length (rlps (map uint_item xs)) < fuel)%nat ->
  read_vector_loop fuel T (rlps (map uint_item xs)) = (Ok xs, []).
Proof.
  intros Hs. revert fuel. induction Hs as [|x xs Hx Hs IH]; intros fuel Hl Hok Hf;
    (destruct fuel as [|fuel]; [lia |]); [done |]. cbn [map] in *. rewrite rlps_cons in *.
  cbn [read_vector_loop]. erewrite bind_ok by done. pose proof (rlp_nonempty (uint_item x)).
  assert (empty (rlp (uint_item x) ++ rlps (map uint_item xs)) = false) as ->
    by (destruct (rlp (uint_item x)); [len_lia | done]).
  rewrite length_app in Hf. pose proof Hok as [_ Hok']%bytes_ok_app. cbn [negb].
  erewrite bind_ok by (apply decode_allow; [by apply reads_read_scalar | len_lia | done]).
  erewrite bind_ok; [done |]. apply IH; [len_lia | done | unfold len in *; lia].
Qed.

Lemma reads_read_vector T xs :
  Forall (scalar_ok T) xs -> reads (read_vector T) (rlp (Lst (map uint_item xs))) xs.
Proof.
  intros Hs. change (rlp (Lst (map uint_item xs))) with (rlp_list (rlps (map uint_item xs))).
  apply reads_list. intros Hl rest Hok. pose proof Hok as [Hok' _]%bytes_ok_app.
  erewrite bind_ok by done. cbv zeta. rewrite take_len_app.
  rewrite (read_vector_loop_ok T xs) by (done || lia). unfold_m. cbn [empty negb].
  decide_guard; [len_lia |]. unfold remove_prefix. by rewrite drop_len_app.
Qed.

(** vectors of any integer width, of [uint256] and of [bool] survive a round trip. What
    [add] on a vector appends is read back by [read_vector] for the same type, element for
    element, and the rest of the view is left. *)
Theorem vector_roundtrip T xs bs rest :
  Forall (scalar_ok T) xs -> len (rlp (Lst (map uint_item xs))) < 2 ^ 64 -> bytes_ok rest ->
  run_encoder (add_vector (add_scalar T) xs ;; GetBytes) = Ok bs ->
  read_vector T (bs ++ rest) = (Ok xs, rest).
Proof.
  intros Hs Hl Hr. rewrite (run_encoder_appends _ (rlp (Lst (map uint_item xs)))); [| | done].
  - intros [= <-]. apply reads_read_vector; [done | done |].
    apply bytes_ok_app. split; [| done]. apply rlp_ok; [| done]. apply item_ok_Lst.
    apply Forall_forall. intros it (x & <- & Hx)%in_map_iff. apply digits_ok.
  - apply appends_add_vector. intros x Hx. apply appends_add_scalar.
    apply (proj1 (List.Forall_forall _ _) Hs). by apply list_elem_of_In.
Qed.

Lemma vector_roundtrip_witness :
  read_vector (UInt 2) ([0xc5; 0x80; 0x07; 0x82; 0x04; 0x00] ++ [0x01]) = (Ok [0; 7; 1024], [0x01]).
Proof.
  apply (vector_roundtrip (UInt 2) [0; 7; 1024] [0xc5; 0x80; 0x07; 0x82; 0x04; 0x00] [0x01]);
    [repeat constructor; cbv; congruence || (right; left; reflexivity) | reflexivity | octets | reflexivity].
Defined.

(** The leftover policy of the one-shot [decode<T>]. If a read takes [bs] to [a], then on
    [bs] alone both policies return [a]; with octets left over [kAllow] still returns [a] and
    [kProhibit] fails with [kInputTooLong]; in all cases the caller's view is moved past
    [bs]. *)
Theorem decode_leftover {A} (m : DecM A) bs a rest :
  reads m bs a -> len bs < 2 ^ 64 -> bytes_ok (bs ++ rest) ->
  decode m kAllow (bs ++ rest) = (Ok a, rest)
  /\ decode m kProhibit (bs ++ rest)
     = (if empty rest then Ok a else Err DecodingError.kInputTooLong, rest).
Proof.
  intros Hm Hl Hok. unfold decode. rewrite (Hm Hl rest Hok). split; [done |].
  by destruct rest.
Qed.

(** An instance with an octet left over. *)
Example decode_prohibits_leftover :
  decode (read_integral 2) kProhibit ([0x82; 0x04; 0x00] ++ [0x01])
  = (Err DecodingError.kInputTooLong, [0x01]).
Proof.
  apply (decode_leftover (read_integral 2) [0x82; 0x04; 0x00] 1024 [0x01]).
  - apply (reads_read_integral 2 1024); [lia | split; vm_compute; congruence].
  - reflexivity.
  - octets.
Defined.
