(* ===== verification/RlpStreaming.v ===== *)
(** * RlpStreaming: payloads in pieces

    [include/rlp/rlp_streaming.hpp], [src/rlp/rlp_streaming.cpp]. Two encoders that write
    into an [RlpEncoder] they hold by reference (so a call's state is the pair of the shared
    encoder and the stream object), the two decoders that read the payloads back in pieces,
    and the convenience functions built from them. A generator or callback is the list of
    the chunks it produces or receives. *)
From S2P Require Export RlpRoundtrip.

(** [RlpEncoder::GetBytes] hands out a pointer to the buffer: the caller's writes change the
    encoder. It fails with [kUnclosedList], which the streams report as [kNotFinalized]. *)
Definition with_buffer (f : bytes -> bytes) (enc : RlpEncoder) : StreamingResult unit * RlpEncoder :=
  match GetBytes enc with
  | (Ok buffer, _) =>
      (Ok tt, {| buffer_ := f buffer; list_start_positions_ := list_start_positions_ enc |})
  | _ => (Err StreamingError.kNotFinalized, enc)
  end.

(** ** Large strings: reserve the header, patch it at the end *)
Module LargeString.

(** [class RlpLargeStringEncoder], the reference to its encoder aside. *)
Record RlpLargeStringEncoder := mk {
  header_start_ : Z;
  payload_start_ : Z;
  payload_size_ : Z;
  finished_ : bool
}.

Abbreviation State := (RlpEncoder * RlpLargeStringEncoder)%type.
Abbreviation StreamM A := (M State StreamingError A).

(** [encode_string_header]; empty when the length needs more than 8 octets. *)
Definition encode_string_header (payload_len : Z) : bytes :=
  if payload_len <=? kMaxShortStringLen then [u8 (kShortStringOffset + payload_len)]
  else
    let len_be := to_big_compact payload_len in
    if 8 <? len len_be then [] else u8 (kLongStringOffset + len len_be) :: len_be.

(** The octets reserved for the header. *)
Definition reserved_size : Z := 9.

(** [create] and the private constructor. *)
Definition create (enc : RlpEncoder) : StreamingResult RlpLargeStringEncoder * RlpEncoder :=
  match with_buffer (fun buf => buf ++ repeat 0 (Z.to_nat reserved_size)) enc with
  | (Ok _, enc') =>
      (Ok {| header_start_ := encoder_size enc' - reserved_size;
             payload_start_ := encoder_size enc';
             payload_size_ := 0; finished_ := false |}, enc')
  | (_, enc') => (Err StreamingError.kNotFinalized, enc')
  end.

(** A call on the shared encoder's buffer. *)
Definition on_buffer (f : bytes -> bytes) : StreamM unit := fun '(enc, st) =>
  let '(r, enc') := with_buffer f enc in (r, (enc', st)).

Definition set_stream (f : RlpLargeStringEncoder -> RlpLargeStringEncoder) : StreamM unit :=
  fun '(enc, st) => (Ok tt, (enc, f st)).

Definition addChunk (chunk : bytes) : StreamM unit :=
  s ← get_state;
  fail_if (finished_ (snd s)) StreamingError.kAlreadyFinalized ;;
  on_buffer (fun buf => buf ++ chunk) ;;
  set_stream (fun st => {| header_start_ := header_start_ st; payload_start_ := payload_start_ st;
    payload_size_ := payload_size_ st + len chunk; finished_ := finished_ st |}).

(** [std::memcpy] and [std::memmove] of [src] to [buf + pos], inside the buffer. *)
Definition write_at (buf : bytes) (pos : Z) (src : bytes) : bytes :=
  take (Z.to_nat pos) buf ++ src ++ drop (Z.to_nat (pos + len src)) buf.

(** The header is copied over the reserved octets; the payload then moves left over what is
    left of them and the buffer shrinks by as much. *)
Definition patch (st : RlpLargeStringEncoder) (actual_header buf : bytes) : bytes :=
  let shift := reserved_size - len actual_header in
  let buf1 := write_at buf (header_start_ st) actual_header in
  if 0 <? shift then
    let buf2 := write_at buf1 (header_start_ st + len actual_header)
                  (substr buf1 (payload_start_ st) (payload_size_ st)) in
    take (Z.to_nat (len buf2 - shift)) buf2
  else buf1.

Definition finish : StreamM unit :=
  s ← get_state;
  fail_if (finished_ (snd s)) StreamingError.kAlreadyFinalized ;;
  set_stream (fun st => {| header_start_ := header_start_ st; payload_start_ := payload_start_ st;
    payload_size_ := payload_size_ st; finished_ := true |}) ;;
  let actual_header := encode_string_header (payload_size_ (snd s)) in
  fail_if (empty actual_header && (kMaxShortStringLen <? payload_size_ (snd s)))
    StreamingError.kHeaderSizeExceeded ;;
  (if len actual_header <=? reserved_size
   then on_buffer (patch (snd s) actual_header)
   else on_buffer (fun buf => buf) ;; throw StreamingError.kHeaderSizeExceeded).

(** The destructor: the stream is gone afterwards, the encoder stays. *)
Definition destroy (s : State) : RlpEncoder :=
  if finished_ (snd s) then fst s else fst (snd (finish s)).

(** The generator's callback: a chunk is skipped once one has failed. *)
Definition feed (add : bytes -> StreamM unit) (r : StreamingResult unit * State) (chunk : bytes) :
    StreamingResult unit * State :=
  match r with
  | (Ok _, s) => add chunk s
  | (e, s) => (e, s)
  end.

(** [encodeLargeString] for a generator that produces [chunks]. *)
Definition encodeLargeString (chunks : list bytes) (enc : RlpEncoder) :
    StreamingResult unit * RlpEncoder :=
  match create enc with
  | (Ok stream, enc') =>
      let '(result, s) := fold_left (feed addChunk) chunks (Ok tt, (enc', stream)) in
      (result, destroy s)
  | (_, enc') => (Err StreamingError.kNotFinalized, enc')
  end.

(** [class RlpLargeStringDecoder]. *)
Record RlpLargeStringDecoder := mkDecoder {
  view_ : ByteView;
  d_payload_size_ : Z;
  bytes_read_ : Z;
  initialized_ : bool
}.

Abbreviation ReadM A := (M RlpLargeStringDecoder DecodingError A).

(** The constructors. *)
Definition new_decoder (data : ByteView) : RlpLargeStringDecoder :=
  {| view_ := data; d_payload_size_ := 0; bytes_read_ := 0; initialized_ := false |}.

(** The header both calls peek at, with its checks. *)
Definition peek_string (view : ByteView) : Result Header :=
  obind (fst (PeekHeader view)) (fun h =>
    if is_list h then Err DecodingError.kUnexpectedList
    else if len view <? header_size_bytes h + payload_size_bytes h
    then Err DecodingError.kInputTooShort
    else Ok h).

Definition peekPayloadSize (st : RlpLargeStringDecoder) : Result Z :=
  obind (peek_string (view_ st)) (fun h => Ok (payload_size_bytes h)).

(** The first call's initialisation. *)
Definition initialize : ReadM unit := fun st =>
  if initialized_ st then (Ok tt, st)
  else match peek_string (view_ st) with
       | Ok h => (Ok tt, {| view_ := drop (Z.to_nat (header_size_bytes h)) (view_ st);
                            d_payload_size_ := payload_size_bytes h;
                            bytes_read_ := bytes_read_ st; initialized_ := true |})
       | Err e => (Err e, st)
       | Diverged => (Diverged, st)
       end.

Definition readChunk (max_chunk_size : Z) : ReadM ByteView :=
  initialize ;;
  st ← get_state;
  if d_payload_size_ st <=? bytes_read_ st then mret []
  else
    let remaining := d_payload_size_ st - bytes_read_ st in
    let chunk_size := Z.min remaining max_chunk_size in
    let chunk := take (Z.to_nat chunk_size) (view_ st) in
    put_state {| view_ := drop (Z.to_nat chunk_size) (view_ st);
                 d_payload_size_ := d_payload_size_ st;
                 bytes_read_ := bytes_read_ st + chunk_size;
                 initialized_ := initialized_ st |} ;;
    mret chunk.

Definition isFinished (st : RlpLargeStringDecoder) : bool :=
  initialized_ st && (d_payload_size_ st <=? bytes_read_ st).

(** The loop of [decodeLargeString]: the chunks the callback receives. *)
Fixpoint read_chunks (fuel : nat) (size : Z) : ReadM (list bytes) :=
  match fuel with
  | O => lift Diverged
  | S fuel =>
      chunk ← readChunk size;
      if empty chunk then mret []
      else chunks ← read_chunks fuel size; mret (chunk :: chunks)
  end.

(** [decodeLargeString]; a chunk has at least one octet of the view. *)
Definition decodeLargeString (view : ByteView) (read_chunk_size : Z) : Result (list bytes) :=
  fst (read_chunks (2 + length view) read_chunk_size (new_decoder view)).

(** *** Encoding *)

Lemma encode_string_header_spec n : 0 <= n < 2 ^ 64 -> encode_string_header n = length_prefix false n.
Proof.
  intros Hn. pose proof (encode_header_spec false n Hn) as H. unfold encode_header_bytes in H.
  unfold encode_string_header. destruct (n <=? kMaxShortStringLen); [by injection H |].
  destruct (8 <? len (to_big_compact n)); [done | by injection H].
Qed.

Lemma write_at_app base old new rest :
  len new <= len (old ++ rest) ->
  write_at (base ++ old ++ rest) (len base) new = base ++ new ++ drop (Z.to_nat (len new)) (old ++ rest).
Proof.
  intros Hl. unfold write_at. rewrite take_len_app. do 2 f_equal.
  pose proof (len_nonneg base). pose proof (len_nonneg new).
  replace (Z.to_nat (len base + len new)) with (Z.to_nat (len base) + Z.to_nat (len new))%nat by lia.
  by rewrite <- drop_drop, drop_len_app.
Qed.

Lemma take_app_Z {A} (u v : list A) n : n = len u -> take (Z.to_nat n) (u ++ v) = u.
Proof. intros ->. apply take_len_app. Qed.

Lemma drop_app_Z {A} (u v : list A) n : n = len u -> drop (Z.to_nat n) (u ++ v) = v.
Proof. intros ->. apply drop_len_app. Qed.

(** Patching replaces the reserved octets by the header. *)
Lemma patch_ok st base zeros p hd :
  header_start_ st = len base -> payload_start_ st = len base + reserved_size ->
  payload_size_ st = len p -> len zeros = reserved_size -> len hd <= reserved_size ->
  patch st hd (base ++ zeros ++ p) = base ++ hd ++ p.
Proof.
  intros Hh Hp Hs Hz Hd. unfold patch. rewrite Hh, Hp, Hs.
  rewrite write_at_app by len_lia. rewrite <- (take_drop (Z.to_nat (len hd)) zeros), <- app_assoc.
  pose proof (len_take (len hd) zeros ltac:(len_lia)) as Ht.
  rewrite drop_app_Z by done. set (z := drop (Z.to_nat (len hd)) zeros).
  assert (len z = reserved_size - len hd) as Hzl.
  { rewrite <- (take_drop (Z.to_nat (len hd)) zeros), len_app, Ht in Hz. unfold z. lia. }
  destruct (Z.ltb_spec 0 (reserved_size - len hd)).
  - assert (substr (base ++ hd ++ z ++ p) (len base + reserved_size) (len p) = p) as ->.
    { unfold substr. rewrite !app_assoc. rewrite drop_app_Z by len_lia. apply take_len. }
    rewrite (app_assoc base hd), <- (len_app base hd), write_at_app by len_lia.
    rewrite (app_assoc base hd p), (app_assoc (base ++ hd) p). apply take_app_Z. rewrite !len_app.
    assert (len (drop (Z.to_nat (len p)) (z ++ p)) = len z) as ->.
    { pose proof (take_drop (Z.to_nat (len p)) (z ++ p)) as E. apply (f_equal len) in E.
      rewrite !len_app, len_take in E by len_lia. lia. }
    lia.
  - assert (z = []) as -> by (apply len_zero; lia). done.
Qed.

(** The stream between two calls: its octets are at the end of the buffer. *)
Definition streaming (base : bytes) (p : bytes) (s : State) : Prop :=
  exists zeros, len zeros = reserved_size
  /\ fst s = {| buffer_ := base ++ zeros ++ p; list_start_positions_ := [] |}
  /\ snd s = {| header_start_ := len base; payload_start_ := len base + reserved_size;
                payload_size_ := len p; finished_ := false |}.

Lemma create_streaming base :
  exists st enc', create {| buffer_ := base; list_start_positions_ := [] |} = (Ok st, enc')
  /\ streaming base [] (enc', st).
Proof.
  assert (len (base ++ repeat 0 9) = len base + 9) as Hl by (rewrite len_app; reflexivity).
  eexists _, _. split; [reflexivity |]. exists (repeat 0 9). split; [reflexivity |].
  cbn [fst snd]. rewrite app_nil_r. split; [reflexivity |].
  unfold encoder_size, reserved_size in *. cbn [buffer_]. change (Z.to_nat 9) with 9%nat.
  rewrite Hl. f_equal. lia.
Qed.

Lemma addChunk_streaming base p c s :
  streaming base p s -> exists s', addChunk c s = (Ok tt, s') /\ streaming base (p ++ c) s'.
Proof.
  destruct s as [enc st]. intros (z & Hz & He & Hs). cbn in He, Hs. subst enc st.
  eexists. split; [reflexivity |]. exists z. cbn. rewrite len_app, <- !app_assoc. done.
Qed.

Lemma feed_streaming base chunks : forall p s,
  streaming base p s -> exists s',
    fold_left (feed addChunk) chunks (Ok tt, s) = (Ok tt, s') /\ streaming base (p ++ concat chunks) s'.
Proof.
  induction chunks as [|c cs IH]; intros p s Hs; cbn; [rewrite app_nil_r; eauto |].
  destruct (addChunk_streaming base p c s Hs) as (s' & E & Hs'). rewrite E.
  destruct (IH _ _ Hs') as (s'' & E' & Hs''). exists s''. by rewrite app_assoc.
Qed.

Lemma finish_streaming base p s :
  streaming base p s -> len p < 2 ^ 64 ->
  destroy s = {| buffer_ := base ++ length_prefix false (len p) ++ p; list_start_positions_ := [] |}.
Proof.
  destruct s as [enc st]. intros (z & Hz & He & Hs) Hl. cbn in He, Hs. subst enc st.
  pose proof (len_nonneg p). pose proof (length_prefix_len false (len p) ltac:(lia)) as Hp.
  unfold destroy, finish. cbn [snd finished_]. erewrite bind_ok by done. cbn [snd finished_].
  unfold fail_if at 1. erewrite bind_ok by done. erewrite bind_ok by done. cbn [payload_size_].
  rewrite encode_string_header_spec by lia.
  assert (empty (length_prefix false (len p)) = false) as ->
    by (destruct (length_prefix false (len p)); [len_lia | done]).
  cbn [andb]. unfold fail_if. erewrite bind_ok by done. unfold reserved_size in *.
  destruct (Z.leb_spec (len (length_prefix false (len p))) 9); [| lia].
  unfold on_buffer, with_buffer. cbn [GetBytes list_start_positions_ buffer_ fst snd].
  by rewrite patch_ok.
Qed.

(** the streamed large string. On an encoder with no open list, whatever the sizes of the
    chunks, the buffer gains one string header and the concatenated payload, the reserved
    header octets being closed up; that is the reference encoding of the payload, except
    when the payload is one octet below 0x80. With an open list the call fails with
    [kNotFinalized] and changes nothing. *)
Theorem encodeLargeString_encodes chunks enc :
  len (concat chunks) < 2 ^ 64 ->
  encodeLargeString chunks enc =
  match list_start_positions_ enc with
  | [] => (Ok tt, {| buffer_ := buffer_ enc
                       ++ (if is_literal (concat chunks) then 0x81 :: concat chunks
                           else rlp (Str (concat chunks)));
                     list_start_positions_ := [] |})
  | _ => (Err StreamingError.kNotFinalized, enc)
  end.
Proof.
  destruct enc as [base [|q ps]]; intros Hl; [| done]. cbn [list_start_positions_ buffer_].
  destruct (create_streaming base) as (st & enc' & Hc & Hs). unfold encodeLargeString. rewrite Hc.
  destruct (feed_streaming base chunks [] _ Hs) as (s' & -> & Hs'). cbn [app] in Hs'.
  rewrite (finish_streaming base _ _ Hs' Hl). do 3 f_equal. cbn [rlp]. unfold rlp_string.
  destruct (is_literal (concat chunks)) eqn:El; [| done].
  destruct (concat chunks) as [|b [|? ?]]; done.
Qed.

Lemma encodeLargeString_encodes_witness :
  encodeLargeString [[0x63]; [0x61; 0x74]] new_encoder
  = (Ok tt, {| buffer_ := [0x83; 0x63; 0x61; 0x74]; list_start_positions_ := [] |}).
Proof. apply (encodeLargeString_encodes [[0x63]; [0x61; 0x74]] new_encoder). reflexivity. Defined.

(** A streamed single octet below 0x80 is not what the format asks for, and the decoder
    refuses it. *)
Theorem encodeLargeString_single_octet b :
  0 <= b < 0x80 ->
  fst (encodeLargeString [[b]] new_encoder) = Ok tt
  /\ fst (read_bytes (buffer_ (snd (encodeLargeString [[b]] new_encoder))))
     = Err DecodingError.kNonCanonicalSize.
Proof.
  intros Hb. split; [reflexivity |]. change (buffer_ _) with [0x81; b].
  unfold read_bytes, PeekHeader, decode_header_impl. unfold_m. cbn [empty]. 
  rewrite byte_at_0, byte_at_1. change (len [129; b]) with 2. cbn [fst].
  destruct (Z.ltb_spec b 128); [| lia].
  change kShortStringOffset with 128. destruct (Z.ltb_spec b 128); [done | lia].
Qed.

(** *** Decoding *)

Lemma take_plus {A} (v : list A) a b :
  0 <= a -> 0 <= b -> take (Z.to_nat (a + b)) v = take (Z.to_nat a) v ++ take (Z.to_nat b) (drop (Z.to_nat a) v).
Proof.
  intros. rewrite Z2Nat.inj_add by lia. by rewrite take_take_drop.
Qed.

(** The chunks of [size] octets that are left of the payload. *)
Lemma read_chunks_ok size : 0 < size -> forall fuel v n k,
  0 <= k <= n -> n - k <= len v -> n - k < Z.of_nat fuel ->
  exists cs st', read_chunks fuel size
      {| view_ := v; d_payload_size_ := n; bytes_read_ := k; initialized_ := true |} = (Ok cs, st')
    /\ concat cs = take (Z.to_nat (n - k)) v /\ Forall (fun c => 1 <= len c <= size) cs.
Proof.
  intros Hsz. induction fuel as [|fuel IH]; intros v n k Hk Hv Hf; [lia |].
  cbn [read_chunks]. unfold readChunk, initialize. unfold_m. cbn [initialized_ d_payload_size_ bytes_read_ view_].
  destruct (Z.leb_spec n k).
  - cbn [empty]. exists [], {| view_ := v; d_payload_size_ := n; bytes_read_ := k; initialized_ := true |}.
    replace (n - k) with 0 by lia. split; [done |]. split; [done | constructor].
  - set (m := Z.min (n - k) size).
    pose proof (len_take m v ltac:(lia)) as Hlen.
    assert (empty (take (Z.to_nat m) v) = false) as Hne
      by (destruct (take (Z.to_nat m) v); [rewrite len_nil in Hlen; lia | done]).
    cbv beta iota. rewrite Hne.
    assert (len (drop (Z.to_nat m) v) = len v - m) as Hd
      by (unfold len in *; rewrite length_drop; lia).
    destruct (IH (drop (Z.to_nat m) v) n (k + m) ltac:(lia) ltac:(lia) ltac:(lia))
      as (cs & st' & E & Hc & Hall).
    cbn [initialized_ d_payload_size_ bytes_read_ view_]. rewrite E.
    exists (take (Z.to_nat m) v :: cs), st'. split; [done |]. split.
    + cbn [concat]. rewrite Hc, <- take_plus by lia. f_equal. lia.
    + constructor; [lia | done].
Qed.

Lemma peek_string_ok v h v' :
  bytes_ok v -> decode_header_impl v = (Ok h, v') -> is_list h = false -> peek_string v = Ok h.
Proof.
  intros Hv Hh Hl. pose proof (decode_header_bounds v h v' Hv Hh). unfold peek_string.
  rewrite (PeekHeader_ok v v' h Hh). cbn [fst obind]. rewrite Hl.
  destruct (Z.ltb_spec (len v) (header_size_bytes h + payload_size_bytes h)); [lia | done].
Qed.

(** The first call skips the header. *)
Lemma read_chunks_first view h v' fuel size :
  bytes_ok view -> decode_header_impl view = (Ok h, v') -> is_list h = false ->
  read_chunks (S fuel) size (new_decoder view)
  = read_chunks (S fuel) size {| view_ := v'; d_payload_size_ := payload_size_bytes h;
                                 bytes_read_ := 0; initialized_ := true |}.
Proof.
  intros Hv Hh Hl. cbn [read_chunks].
  assert (readChunk size (new_decoder view)
    = readChunk size {| view_ := v'; d_payload_size_ := payload_size_bytes h;
                        bytes_read_ := 0; initialized_ := true |}) as E.
  { unfold readChunk, initialize, mbind at 1 3, M_bind. cbn [new_decoder initialized_ view_].
    rewrite (peek_string_ok view h v' Hv Hh Hl).
    by destruct (skip_header_ok view h v' Hh) as (_ & <- & _). }
  unfold mbind at 1 3, M_bind. by rewrite E.
Qed.

(** streaming a string in pieces is reading it. On any input and for any positive piece
    size, [decodeLargeString] fails with the error [read(Bytes&)] fails with, or hands the
    callback nonempty pieces of at most that size whose concatenation is the string
    [read(Bytes&)] returns. *)
Theorem decodeLargeString_reads view size :
  bytes_ok view -> 0 < size ->
  match fst (read_bytes view) with
  | Ok s => exists cs, decodeLargeString view size = Ok cs
      /\ concat cs = s /\ Forall (fun c => 1 <= len c <= size) cs
  | Err e => decodeLargeString view size = Err e
  | Diverged => False
  end.
Proof.
  intros Hv Hs. unfold decodeLargeString. cbn [Nat.add read_chunks].
  destruct (decode_header_impl view) as [[h|e|] v'] eqn:Hh.
  - destruct (is_list h) eqn:Hl.
    + unfold read_bytes, readChunk, initialize, peek_string, PeekHeader. unfold_m.
      rewrite Hh. cbn. rewrite ?Hh, Hl. cbn. by rewrite ?Hl.
    + rewrite (read_bytes_ok view v' h Hv Hh Hl). cbn [fst].
      pose proof (payload_in_view view v' h Hv Hh) as Hp.
      destruct (skip_header_ok view h v' Hh) as (_ & Hd & _).
      assert (len v' <= len view) as Hle by (rewrite Hd; unfold len; rewrite length_drop; lia).
      destruct (read_chunks_ok size Hs (S (S (length view))) v' (payload_size_bytes h) 0)
        as (cs & st' & E & Hc & Hall); [lia | lia | unfold len in *; lia |].
      rewrite Z.sub_0_r in Hc. exists cs. split; [| done].
      change (fst (read_chunks (S (S (length view))) size (new_decoder view)) = Ok cs).
      by rewrite (read_chunks_first view h v'), E.
  - unfold read_bytes, readChunk, initialize, peek_string, PeekHeader. unfold_m. cbn. by rewrite Hh.
  - pose proof (proj1 (total_decode_header_impl view Hv)) as Hd. by rewrite Hh in Hd.
Qed.

Lemma decodeLargeString_reads_witness :
  decodeLargeString [0x83; 0x63; 0x61; 0x74] 2 = Ok [[0x63; 0x61]; [0x74]]
  /\ exists cs, decodeLargeString [0x83; 0x63; 0x61; 0x74] 2 = Ok cs /\ concat cs = [0x63; 0x61; 0x74].
Proof.
  split; [reflexivity |].
  destruct (decodeLargeString_reads [0x83; 0x63; 0x61; 0x74] 2 ltac:(octets) ltac:(lia))
    as (cs & E & Hc & _). eauto.
Defined.

End LargeString.

(** ** Chunked lists: a list of strings *)
Module ChunkedList.

(** [class RlpChunkedListEncoder], the reference to its encoder aside. *)
Record RlpChunkedListEncoder := mk {
  chunk_size_ : Z;
  buffer : bytes;
  chunk_count_ : Z;
  total_bytes_ : Z;
  finished_ : bool;
  list_started_ : bool
}.

Abbreviation State := (RlpEncoder * RlpChunkedListEncoder)%type.
Abbreviation StreamM A := (M State StreamingError A).

(** [create] and the private constructor. *)
Definition create (chunk_size : Z) : StreamingResult RlpChunkedListEncoder :=
  if chunk_size =? 0 then Err StreamingError.kInvalidChunkSize
  else Ok {| chunk_size_ := chunk_size; buffer := []; chunk_count_ := 0; total_bytes_ := 0;
             finished_ := false; list_started_ := false |}.

(** A call on the shared encoder whose failure is reported as [kNotFinalized]. *)
Definition on_encoder (m : EncM unit) : StreamM unit := fun '(enc, st) =>
  match m enc with
  | (Ok _, enc') => (Ok tt, (enc', st))
  | (Err _, enc') => (Err StreamingError.kNotFinalized, (enc', st))
  | (Diverged, enc') => (Diverged, (enc', st))
  end.

Definition set_stream (f : RlpChunkedListEncoder -> RlpChunkedListEncoder) : StreamM unit :=
  fun '(enc, st) => (Ok tt, (enc, f st)).

Definition set_list_started (st : RlpChunkedListEncoder) : RlpChunkedListEncoder :=
  {| chunk_size_ := chunk_size_ st; buffer := buffer st; chunk_count_ := chunk_count_ st;
     total_bytes_ := total_bytes_ st; finished_ := finished_ st; list_started_ := true |}.

Definition set_finished (st : RlpChunkedListEncoder) : RlpChunkedListEncoder :=
  {| chunk_size_ := chunk_size_ st; buffer := buffer st; chunk_count_ := chunk_count_ st;
     total_bytes_ := total_bytes_ st; finished_ := true; list_started_ := list_started_ st |}.

(** [flushBuffer]: the result of [add] is ignored. *)
Definition flushBuffer (s : State) : State :=
  let '(enc, st) := s in
  if empty (buffer st) then s
  else (snd (add_bytes (buffer st) enc),
        {| chunk_size_ := chunk_size_ st; buffer := []; chunk_count_ := chunk_count_ st + 1;
           total_bytes_ := total_bytes_ st; finished_ := finished_ st;
           list_started_ := list_started_ st |}).

(** One iteration of [addChunk]'s loop: [to_copy] octets into the buffer, flushed when full. *)
Definition fill (data : bytes) (to_copy : Z) (s : State) : State :=
  let '(enc, st) := s in
  let st1 := {| chunk_size_ := chunk_size_ st;
                buffer := buffer st ++ take (Z.to_nat to_copy) data;
                chunk_count_ := chunk_count_ st; total_bytes_ := total_bytes_ st + to_copy;
                finished_ := finished_ st; list_started_ := list_started_ st |} in
  if chunk_size_ st <=? len (buffer st1) then flushBuffer (enc, st1) else (enc, st1).

(** [while (offset < data.size())]; [data] is what is left from [offset]. *)
Fixpoint fill_loop (fuel : nat) (data : bytes) (s : State) : outcome StreamingError unit * State :=
  match fuel with
  | O => (Diverged, s)
  | S fuel =>
      if empty data then (Ok tt, s)
      else
        let space_left := chunk_size_ (snd s) - len (buffer (snd s)) in
        let to_copy := Z.min space_left (len data) in
        fill_loop fuel (drop (Z.to_nat to_copy) data) (fill data to_copy s)
  end.

Definition addChunk (data : bytes) : StreamM unit :=
  s ← get_state;
  fail_if (finished_ (snd s)) StreamingError.kAlreadyFinalized ;;
  (if list_started_ (snd s) then mret tt
   else on_encoder BeginList ;; set_stream set_list_started) ;;
  fill_loop (S (length data)) data.

Definition finish : StreamM unit :=
  s ← get_state;
  fail_if (finished_ (snd s)) StreamingError.kAlreadyFinalized ;;
  set_stream set_finished ;;
  (fun s => (Ok tt, flushBuffer s)) ;;
  (if list_started_ (snd s) then on_encoder EndList
   else on_encoder BeginList ;; on_encoder EndList).

(** The destructor. *)
Definition destroy (s : State) : RlpEncoder :=
  if finished_ (snd s) then fst s else fst (snd (finish s)).

(** The generator's callback. *)
Definition feed (r : StreamingResult unit * State) (chunk : bytes) :
    StreamingResult unit * State :=
  match r with
  | (Ok _, s) => addChunk chunk s
  | (e, s) => (e, s)
  end.

(** [encodeChunkedList] for a generator that produces [chunks]. *)
Definition encodeChunkedList (chunks : list bytes) (chunk_size : Z) (enc : RlpEncoder) :
    StreamingResult unit * RlpEncoder :=
  match create chunk_size with
  | Ok st =>
      let '(result, s) := fold_left feed chunks (Ok tt, (enc, st)) in (result, destroy s)
  | Err e => (Err e, enc)
  | Diverged => (Diverged, enc)
  end.

(** [class RlpChunkedListDecoder]. *)
Record RlpChunkedListDecoder := mkDecoder {
  view_ : ByteView;
  list_payload_ : ByteView;
  total_size_ : Z;
  total_chunks_ : Z;
  chunk_index_ : Z;
  initialized_ : bool
}.

Abbreviation ReadM A := (M RlpChunkedListDecoder DecodingError A).

Definition new_decoder (data : ByteView) : RlpChunkedListDecoder :=
  {| view_ := data; list_payload_ := []; total_size_ := 0; total_chunks_ := 0;
     chunk_index_ := 0; initialized_ := false |}.

(** The header of the next chunk, with its checks: a string that the view has. *)
Definition peek_chunk (view : ByteView) : Result Header := LargeString.peek_string view.

(** The header of the list, with its checks. *)
Definition peek_list (view : ByteView) : Result Header :=
  obind (fst (PeekHeader view)) (fun h =>
    if negb (is_list h) then Err DecodingError.kUnexpectedString
    else if len view <? header_size_bytes h + payload_size_bytes h
    then Err DecodingError.kInputTooShort
    else Ok h).

(** The scan of the list's payload: the total size of the chunks and their number. *)
Fixpoint scan (fuel : nat) (list_view : ByteView) (total chunks : Z) : Result (Z * Z) :=
  match fuel with
  | O => Diverged
  | S fuel =>
      if empty list_view then Ok (total, chunks)
      else obind (peek_chunk list_view) (fun h =>
        scan fuel (drop (Z.to_nat (header_size_bytes h + payload_size_bytes h)) list_view)
          (total + payload_size_bytes h) (chunks + 1))
  end.

(** Every chunk has at least one octet. *)
Definition scan_list (list_view : ByteView) : Result (Z * Z) :=
  scan (S (length list_view)) list_view 0 0.

Definition peekTotalSize : ReadM Z := fun st =>
  if initialized_ st && (0 <? total_size_ st) then (Ok (total_size_ st), st)
  else match obind (peek_list (view_ st)) (fun h =>
               scan_list (substr (view_ st) (header_size_bytes h) (payload_size_bytes h))) with
       | Ok (total, chunks) =>
           (Ok total, {| view_ := view_ st; list_payload_ := list_payload_ st;
                         total_size_ := total; total_chunks_ := chunks;
                         chunk_index_ := chunk_index_ st; initialized_ := initialized_ st |})
       | Err e => (Err e, st)
       | Diverged => (Diverged, st)
       end.

Definition peekChunkCount : ReadM Z :=
  st ← get_state;
  if initialized_ st && (0 <? total_chunks_ st) then mret (total_chunks_ st)
  else _ ← peekTotalSize; st ← get_state; mret (total_chunks_ st).

(** The first call's initialisation. The views move before the scan can fail. *)
Definition initialize : ReadM unit := fun st =>
  if initialized_ st then (Ok tt, st)
  else match peek_list (view_ st) with
       | Ok h =>
           let view := drop (Z.to_nat (header_size_bytes h)) (view_ st) in
           let list_payload := take (Z.to_nat (payload_size_bytes h)) view in
           let st' chunks done :=
             {| view_ := view; list_payload_ := list_payload; total_size_ := total_size_ st;
                total_chunks_ := chunks; chunk_index_ := chunk_index_ st; initialized_ := done |} in
           if total_chunks_ st =? 0 then
             match scan_list list_payload with
             | Ok (_, chunks) => (Ok tt, st' chunks true)
             | Err e => (Err e, st' (total_chunks_ st) false)
             | Diverged => (Diverged, st' (total_chunks_ st) false)
             end
           else (Ok tt, st' (total_chunks_ st) true)
       | Err e => (Err e, st)
       | Diverged => (Diverged, st)
       end.

Definition readChunk : ReadM ByteView :=
  initialize ;;
  st ← get_state;
  if (total_chunks_ st <=? chunk_index_ st) || empty (list_payload_ st) then
    put_state {| view_ := drop (length (list_payload_ st)) (view_ st); list_payload_ := [];
                 total_size_ := total_size_ st; total_chunks_ := total_chunks_ st;
                 chunk_index_ := chunk_index_ st; initialized_ := initialized_ st |} ;;
    mret []
  else
    h ← lift (peek_chunk (list_payload_ st));
    put_state {| view_ := view_ st;
                 list_payload_ := drop (Z.to_nat (header_size_bytes h + payload_size_bytes h))
                                    (list_payload_ st);
                 total_size_ := total_size_ st; total_chunks_ := total_chunks_ st;
                 chunk_index_ := chunk_index_ st + 1; initialized_ := initialized_ st |} ;;
    mret (substr (list_payload_ st) (header_size_bytes h) (payload_size_bytes h)).

Definition isFinished (st : RlpChunkedListDecoder) : bool :=
  initialized_ st && (total_chunks_ st <=? chunk_index_ st).

(** The loop of [decodeChunkedList]: the chunks the callback receives. *)
Fixpoint read_chunks (fuel : nat) : ReadM (list bytes) :=
  match fuel with
  | O => lift Diverged
  | S fuel =>
      chunk ← readChunk;
      if empty chunk then mret []
      else chunks ← read_chunks fuel; mret (chunk :: chunks)
  end.

(** [decodeChunkedList] and [decodeChunkedListFull]. *)
Definition decodeChunkedList (view : ByteView) : Result (list bytes) :=
  fst (read_chunks (2 + length view) (new_decoder view)).

Definition decodeChunkedListFull (view : ByteView) : Result bytes :=
  obind (decodeChunkedList view) (fun chunks => Ok (concat chunks)).

(** *** Encoding *)

(** The reference: [data] cut every [n] octets. *)
Fixpoint split (fuel : nat) (n : Z) (data : bytes) : list bytes :=
  match fuel with
  | O => []
  | S fuel =>
      if empty data then []
      else take (Z.to_nat n) data :: split fuel n (drop (Z.to_nat n) data)
  end.

Definition chunks_of (n : Z) (data : bytes) : list bytes := split (length data) n data.

Lemma split_concat n fuel : forall data,
  1 <= n -> (length data <= fuel)%nat ->
  concat (split fuel n data) = data /\ Forall (fun c => 1 <= len c <= n) (split fuel n data).
Proof.
  induction fuel as [|fuel IH]; intros data Hn Hf; cbn [split].
  - destruct data; [split; [done | constructor] | cbn in Hf; lia].
  - destruct data as [|b data]; cbn [empty]; [split; [done | constructor] |].
    destruct (IH (drop (Z.to_nat n) (b :: data)) Hn) as [Hc Ha].
    { rewrite length_drop. cbn [length] in *. lia. }
    cbn [concat]. rewrite Hc, take_drop. split; [done |]. constructor; [| done].
    unfold len. rewrite length_take. cbn [length]. lia.
Qed.

Lemma split_fuel n fuel : forall data,
  1 <= n -> (length data <= fuel)%nat -> split fuel n data = chunks_of n data.
Proof.
  unfold chunks_of. intros data Hn. remember (length data) as k eqn:Ek. revert fuel data Ek.
  induction k as [k IH] using lt_wf_ind. intros fuel data Ek Hf.
  destruct data as [|b data]; [subst k; by destruct fuel |].
  destruct fuel as [|fuel], k as [|k]; try (cbn in *; lia). cbn [split empty]. f_equal.
  cbn [length] in Ek. pose proof (length_drop (b :: data) (Z.to_nat n)) as Hd. cbn [length] in Hd.
  rewrite (IH (length (drop (Z.to_nat n) (b :: data))) ltac:(lia) fuel _ eq_refl ltac:(lia)).
  rewrite (IH (length (drop (Z.to_nat n) (b :: data))) ltac:(lia) k _ eq_refl ltac:(lia)). done.
Qed.

Lemma chunks_of_nil n : chunks_of n [] = [].
Proof. done. Qed.

Lemma chunks_of_cons n data :
  1 <= n -> data <> [] ->
  chunks_of n data = take (Z.to_nat n) data :: chunks_of n (drop (Z.to_nat n) data).
Proof.
  intros Hn Hne. destruct data as [|b data]; [done |].
  rewrite <- (split_fuel n (S (length data)) (b :: data)) by (done || lia). cbn [split empty].
  f_equal. apply split_fuel; [done |]. rewrite length_drop. cbn [length]. lia.
Qed.

Lemma chunks_of_small n data : 1 <= n -> data <> [] -> len data <= n -> chunks_of n data = [data].
Proof.
  intros Hn Hne Hl. rewrite chunks_of_cons by done. unfold len in Hl.
  rewrite firstn_all2, drop_ge by lia. done.
Qed.

Lemma chunks_of_app n c data :
  1 <= n -> len c = n -> chunks_of n (c ++ data) = c :: chunks_of n data.
Proof.
  intros Hn Hc. rewrite chunks_of_cons; [| done |].
  - rewrite <- Hc. by rewrite take_len_app, drop_len_app.
  - intros [E _]%app_eq_nil. subst c. rewrite len_nil in Hc. lia.
Qed.

Lemma chunks_of_full n full data :
  1 <= n -> Forall (fun c => len c = n) full ->
  chunks_of n (concat full ++ data) = full ++ chunks_of n data.
Proof.
  intros Hn. induction 1 as [|c full Hc _ IH]; [done |]. cbn [concat].
  rewrite <- app_assoc, chunks_of_app by done. by rewrite IH.
Qed.

Lemma add_chunk_ok c buf ps :
  len c < 2 ^ 63 ->
  add_bytes c {| buffer_ := buf; list_start_positions_ := ps |}
  = (Ok tt, {| buffer_ := buf ++ rlp (Str c); list_start_positions_ := ps |}).
Proof.
  intros Hc. apply (appends_add_bytes c). cbn [rlp]. unfold rlp_string.
  case_match; [len_lia |]. pose proof (len_nonneg c).
  pose proof (length_prefix_len false (len c) ltac:(lia)). len_lia.
Qed.

Section encoding.
Context (base : bytes) (ps : list Z) (n : Z).
Context (Hn : 1 <= n < 2 ^ 63).

(** The stream after [data]: full chunks in the open list, the rest in the buffer. *)
Definition chunking (data : bytes) (s : State) : Prop :=
  exists full r, data = concat full ++ r /\ Forall (fun c => len c = n) full /\ len r < n
  /\ s = ({| buffer_ := base ++ rlps (map Str full);
             list_start_positions_ := len base :: ps |},
          {| chunk_size_ := n; buffer := r; chunk_count_ := len full; total_bytes_ := len data;
             finished_ := false; list_started_ := true |}).

Lemma fill_chunking data piece s k :
  chunking data s -> 0 < len piece ->
  k = Z.min (chunk_size_ (snd s) - len (buffer (snd s))) (len piece) ->
  chunking (data ++ take (Z.to_nat k) piece) (fill piece k s) /\ 0 < k <= len piece.
Proof.
  intros (full & r & -> & Hf & Hr & ->) Hp Hk. cbn [snd chunk_size_ buffer] in Hk.
  pose proof (len_nonneg r). pose proof (len_take k piece ltac:(lia)) as Ht. split; [| lia].
  unfold fill. cbn [chunk_size_ buffer chunk_count_ total_bytes_ finished_ list_started_].
  set (t := take (Z.to_nat k) piece) in *. destruct (Z.leb_spec n (len (r ++ t))) as [Hl|Hl].
  - exists (full ++ [r ++ t]), []. rewrite len_app in Hl.
    assert (len (r ++ t) = n) as Hlen by len_lia.
    unfold flushBuffer. cbn [buffer].
    assert (empty (r ++ t) = false) as -> by (destruct (r ++ t); [rewrite len_nil in Hlen; lia | done]).
    rewrite add_chunk_ok by lia.
    split; [by rewrite concat_app, app_nil_r, <- app_assoc; cbn; rewrite app_nil_r |].
    split; [apply Forall_app; split; [done | by constructor] |]. split; [rewrite len_nil; lia |].
    rewrite map_app, rlps_app. cbn [snd map chunk_size_ chunk_count_ total_bytes_ finished_ list_started_].
    rewrite app_assoc. f_equal; [f_equal; f_equal; cbn; by rewrite app_nil_r |].
    rewrite !len_app. f_equal; rewrite ?len_cons, ?len_nil; lia.
  - exists full, (r ++ t). split; [by rewrite app_assoc |]. split; [done |]. split; [done |].
    do 2 f_equal. len_lia.
Qed.

Lemma fill_loop_chunking fuel : forall data piece s,
  chunking data s -> (length piece < fuel)%nat ->
  exists s', fill_loop fuel piece s = (Ok tt, s') /\ chunking (data ++ piece) s'.
Proof.
  induction fuel as [|fuel IH]; intros data piece s Hs Hf; [lia |]. cbn [fill_loop].
  destruct piece as [|b piece]; cbn [empty]; [rewrite app_nil_r; eauto |].
  destruct (fill_chunking data (b :: piece) s _ Hs ltac:(len_lia) eq_refl) as [Hs' Hk].
  set (k := Z.min _ _) in *.
  destruct (IH _ (drop (Z.to_nat k) (b :: piece)) _ Hs') as (s' & E & Hs'').
  { rewrite length_drop. unfold len in *. lia. }
  exists s'. split; [exact E |]. by rewrite <- app_assoc, take_drop in Hs''.
Qed.

Lemma addChunk_chunking data c s :
  chunking data s -> exists s', addChunk c s = (Ok tt, s') /\ chunking (data ++ c) s'.
Proof.
  intros Hs. destruct (fill_loop_chunking (S (length c)) data c s Hs ltac:(lia)) as (s' & E & Hs').
  exists s'. split; [| done]. destruct Hs as (full & r & -> & _ & _ & ->). exact E.
Qed.

(** The stream before any data: no list has been opened. *)
Definition fresh : State :=
  ({| buffer_ := base; list_start_positions_ := ps |},
   {| chunk_size_ := n; buffer := []; chunk_count_ := 0; total_bytes_ := 0;
      finished_ := false; list_started_ := false |}).

Lemma addChunk_fresh c : exists s', addChunk c fresh = (Ok tt, s') /\ chunking c s'.
Proof.
  assert (chunking [] ({| buffer_ := base; list_start_positions_ := len base :: ps |},
    {| chunk_size_ := n; buffer := []; chunk_count_ := 0; total_bytes_ := 0;
       finished_ := false; list_started_ := true |})) as H0.
  { exists [], []. cbn. rewrite app_nil_r. repeat split; [constructor | rewrite len_nil; lia]. }
  destruct (fill_loop_chunking (S (length c)) [] c _ H0 ltac:(lia)) as (s' & E & Hs').
  exists s'. split; [exact E | done].
Qed.

Lemma feed_chunking chunks : forall data s, chunking data s ->
  exists s', fold_left feed chunks (Ok tt, s) = (Ok tt, s') /\ chunking (data ++ concat chunks) s'.
Proof.
  induction chunks as [|c cs IH]; intros data s Hs; cbn; [rewrite app_nil_r; eauto |].
  destruct (addChunk_chunking data c s Hs) as (s' & -> & Hs').
  destruct (IH _ _ Hs') as (s'' & E' & Hs''). exists s''. by rewrite app_assoc.
Qed.

Lemma chunks_of_chunking data full r :
  data = concat full ++ r -> Forall (fun c => len c = n) full -> len r < n ->
  chunks_of n data = full ++ (if empty r then [] else [r]).
Proof.
  intros -> Hf Hr. rewrite chunks_of_full by (done || lia). f_equal.
  destruct r as [|b r]; [done |]. apply chunks_of_small; [lia | done | lia].
Qed.

Lemma destroy_chunking data s :
  chunking data s -> len (rlp (Lst (map Str (chunks_of n data)))) < 2 ^ 64 ->
  destroy s = {| buffer_ := base ++ rlp (Lst (map Str (chunks_of n data)));
                 list_start_positions_ := ps |}.
Proof.
  intros (full & r & Hd & Hf & Hr & ->) Hl. pose proof (chunks_of_chunking _ _ _ Hd Hf Hr) as E.
  change (rlp (Lst (map Str (chunks_of n data)))) with (rlp_list (rlps (map Str (chunks_of n data)))) in *.
  set (body := rlps (map Str (chunks_of n data))) in *.
  assert (flushBuffer
    ({| buffer_ := base ++ rlps (map Str full); list_start_positions_ := len base :: ps |},
     {| chunk_size_ := n; buffer := r; chunk_count_ := len full; total_bytes_ := len data;
        finished_ := true; list_started_ := true |})
    = ({| buffer_ := base ++ body; list_start_positions_ := len base :: ps |},
       {| chunk_size_ := n; buffer := []; chunk_count_ := len (chunks_of n data);
          total_bytes_ := len data; finished_ := true; list_started_ := true |})) as Hfl.
  { unfold flushBuffer. cbn [buffer]. unfold body. rewrite E. destruct r as [|b r]; cbn [empty].
    - by rewrite !app_nil_r.
    - rewrite add_chunk_ok by lia. cbn [snd]. rewrite map_app, rlps_app, len_app, <- app_assoc.
      cbn [map]. rewrite rlps_cons. by rewrite app_nil_r. }
  unfold destroy, finish. cbn [snd finished_]. erewrite bind_ok by done. cbn [snd finished_].
  unfold fail_if. erewrite bind_ok by done. erewrite bind_ok by done.
  unfold set_finished. cbn [chunk_size_ buffer chunk_count_ total_bytes_ finished_ list_started_].
  erewrite bind_ok by (by rewrite Hfl). unfold on_encoder. unfold rlp_list in Hl.
  rewrite EndList_ok by len_lia. done.
Qed.

Lemma destroy_fresh : destroy fresh = {| buffer_ := base ++ [0xC0]; list_start_positions_ := ps |}.
Proof.
  unfold destroy, fresh. cbn [snd finished_]. unfold finish. erewrite bind_ok by done.
  cbn [snd finished_]. unfold fail_if. do 3 (erewrite bind_ok by done).
  cbn [snd list_started_]. erewrite bind_ok by done.
  pose proof (EndList_ok base [] ps ltac:(rewrite len_nil; lia)) as H. rewrite app_nil_r in H.
  unfold on_encoder at 1. cbn [buffer_ list_start_positions_]. by rewrite H.
Qed.
End encoding.

Lemma encodeChunkedList_run chunks n enc :
  0 <= n < 2 ^ 63 ->
  len (rlp (Lst (map Str (chunks_of n (concat chunks))))) < 2 ^ 64 ->
  encodeChunkedList chunks n enc =
  if n =? 0 then (Err StreamingError.kInvalidChunkSize, enc)
  else (Ok tt, {| buffer_ := buffer_ enc ++ rlp (Lst (map Str (chunks_of n (concat chunks))));
                  list_start_positions_ := list_start_positions_ enc |}).
Proof.
  intros Hn Hl. unfold encodeChunkedList, create. destruct (Z.eqb_spec n 0); [done |].
  assert (1 <= n < 2 ^ 63) as Hn' by lia. destruct enc as [base ps].
  cbn [buffer_ list_start_positions_]. destruct chunks as [|c cs].
  - cbn [fold_left concat]. pose proof (destroy_fresh base ps n) as H. unfold fresh in H.
    rewrite H. done.
  - cbn [fold_left feed]. destruct (addChunk_fresh base ps n Hn' c) as (s & E & Hs).
    unfold fresh in E. rewrite E.
    destruct (feed_chunking base ps n Hn' cs c s Hs) as (s' & E' & Hs'). rewrite E'.
    cbn [concat] in *. by rewrite (destroy_chunking base ps n Hn' _ _ Hs' Hl).
Qed.

(** the chunked list. For a chunk size of at least 1, whatever pieces the generator
    delivers, the call appends the encoding of the list of strings that cuts the concatenated
    data every [chunk_size] octets, leaves the open lists alone, and its loops end; a chunk
    size of 0 is refused and changes nothing. *)
Theorem encodeChunkedList_encodes chunks n enc :
  0 <= n < 2 ^ 63 ->
  len (rlp (Lst (map Str (chunks_of n (concat chunks))))) < 2 ^ 64 ->
  encodeChunkedList chunks n enc =
  if n =? 0 then (Err StreamingError.kInvalidChunkSize, enc)
  else (Ok tt, {| buffer_ := buffer_ enc ++ rlp (Lst (map Str (chunks_of n (concat chunks))));
                  list_start_positions_ := list_start_positions_ enc |}).
Proof. apply encodeChunkedList_run. Qed.

Lemma encodeChunkedList_encodes_witness :
  encodeChunkedList [[0x63]; [0x61; 0x74]] 2 new_encoder
  = (Ok tt, {| buffer_ := [0xc4; 0x82; 0x63; 0x61; 0x74]; list_start_positions_ := [] |}).
Proof.
  apply (encodeChunkedList_encodes [[0x63]; [0x61; 0x74]] 2 new_encoder); [lia | reflexivity].
Defined.

(** *** Decoding *)

Section decoding.
Context (c rest : bytes).
Context (Hl : len (rlp (Str c)) < 2 ^ 64) (Hok : bytes_ok (rlp (Str c) ++ rest)).

(** The next chunk of a list's payload, by its header. *)
Lemma peek_chunk_rlp : exists h, peek_chunk (rlp (Str c) ++ rest) = Ok h
  /\ payload_size_bytes h = len c
  /\ substr (rlp (Str c) ++ rest) (header_size_bytes h) (payload_size_bytes h) = c
  /\ drop (Z.to_nat (header_size_bytes h + payload_size_bytes h)) (rlp (Str c) ++ rest) = rest.
Proof.
  pose proof (decode_header_rlp (Str c) rest Hl) as Hh. eexists.
  split; [exact (LargeString.peek_string_ok _ _ _ Hok Hh eq_refl) |].
  rewrite (substr_payload _ _ _ Hh), (drop_item _ _ _ Hok Hh). header_simpl. cbn [item_payload].
  by rewrite take_len_app, drop_len_app.
Qed.
End decoding.

Lemma empty_rlp it v : empty (rlp it ++ v) = false.
Proof. pose proof (rlp_nonempty it). destruct (rlp it); [len_lia | done]. Qed.

Lemma rlp_string_octets c rest :
  len (rlps (map Str (c :: rest))) < 2 ^ 64 -> len (rlp (Str c)) < 2 ^ 64.
Proof. cbn [map]. rewrite rlps_cons. len_lia. Qed.

Definition total_len (cs : list bytes) : Z := len (concat cs).

Lemma scan_ok cs : forall fuel total chunks,
  len (rlps (map Str cs)) < 2 ^ 64 -> bytes_ok (rlps (map Str cs)) ->
  (length (rlps (map Str cs)) < fuel)%nat ->
  scan fuel (rlps (map Str cs)) total chunks = Ok (total + total_len cs, chunks + len cs).
Proof.
  induction cs as [|c cs IH]; intros fuel total chunks Hl Hok Hf;
    (destruct fuel as [|fuel]; [lia |]); cbn [scan map].
  - cbn [empty rlps map concat]. unfold total_len, len. cbn. do 2 f_equal; lia.
  - pose proof (rlp_string_octets c cs Hl) as Hlc. cbn [map] in *. rewrite rlps_cons in *.
    rewrite empty_rlp. destruct (peek_chunk_rlp c (rlps (map Str cs)) Hlc Hok)
      as (h & -> & Hp & _ & Hd). cbn [obind]. rewrite Hd, Hp.
    pose proof (rlp_nonempty (Str c)). pose proof Hok as [_ Hok']%bytes_ok_app.
    rewrite IH; [| len_lia | done | rewrite length_app in Hf; unfold len in *; lia].
    unfold total_len. cbn [concat]. do 2 f_equal; len_lia.
Qed.

Lemma read_list_chunks_ok cs : forall fuel v total n k,
  Forall (fun c => c <> []) cs -> n - k = len cs ->
  len (rlps (map Str cs)) < 2 ^ 64 -> bytes_ok (rlps (map Str cs)) -> (length cs < fuel)%nat ->
  read_chunks fuel {| view_ := v; list_payload_ := rlps (map Str cs); total_size_ := total;
                      total_chunks_ := n; chunk_index_ := k; initialized_ := true |}
  = (Ok cs, {| view_ := v; list_payload_ := []; total_size_ := total;
               total_chunks_ := n; chunk_index_ := n; initialized_ := true |}).
Proof.
  induction cs as [|c cs IH]; intros fuel v total n k Hne Hk Hl Hok Hf;
    (destruct fuel as [|fuel]; [cbn in Hf; lia |]); cbn [read_chunks].
  - rewrite len_nil in Hk. unfold readChunk, initialize. cbn [rlps map concat]. unfold_m.
    cbn [initialized_ list_payload_ empty]. rewrite orb_true_r. cbn.
    replace k with n by lia. by rewrite drop_0.
  - apply Forall_cons_iff in Hne as [Hc Hne]. pose proof (rlp_string_octets c cs Hl) as Hlc.
    cbn [map] in *. rewrite rlps_cons in *. rewrite len_cons in Hk. pose proof (len_nonneg cs).
    destruct (peek_chunk_rlp c (rlps (map Str cs)) Hlc Hok) as (h & Hh & Hp & Hs & Hd).
    pose proof Hok as [_ Hok']%bytes_ok_app.
    assert (readChunk {| view_ := v; list_payload_ := rlp (Str c) ++ rlps (map Str cs);
        total_size_ := total; total_chunks_ := n; chunk_index_ := k; initialized_ := true |}
      = (Ok c, {| view_ := v; list_payload_ := rlps (map Str cs); total_size_ := total;
                  total_chunks_ := n; chunk_index_ := k + 1; initialized_ := true |})) as E.
    { unfold readChunk, initialize. unfold_m.
      cbn [initialized_ list_payload_ total_chunks_ chunk_index_ view_ total_size_].
      rewrite empty_rlp, orb_false_r. destruct (Z.leb_spec n k); [lia |]. by rewrite Hh, Hs, Hd. }
    erewrite bind_ok by exact E. destruct c as [|b c]; [done |]. cbn [empty].
    erewrite bind_ok; [done |].
    apply (IH fuel v total n (k + 1)); try done; [lia | len_lia | cbn [length] in Hf; lia].
Qed.

(** What a decoder that has read a whole list of nonempty strings returned, and its state. *)
Lemma decode_chunks_run cs rest :
  Forall (fun c => c <> []) cs -> len (rlp (Lst (map Str cs))) < 2 ^ 64 ->
  bytes_ok (rlp (Lst (map Str cs)) ++ rest) ->
  read_chunks (2 + length (rlp (Lst (map Str cs)) ++ rest)) (new_decoder (rlp (Lst (map Str cs)) ++ rest))
  = (Ok cs, {| view_ := rlps (map Str cs) ++ rest; list_payload_ := []; total_size_ := 0;
               total_chunks_ := len cs; chunk_index_ := len cs; initialized_ := true |}).
Proof.
  intros Hne Hl Hok. pose proof (decode_header_rlp (Lst (map Str cs)) rest Hl) as Hh.
  cbn [item_payload item_is_list] in Hh. set (it := Lst (map Str cs)) in *.
  set (body := rlps (map Str cs)) in *. set (v := rlp it ++ rest) in *.
  pose proof (decode_header_bounds v _ _ Hok Hh) as Hb. pose proof (len_payload_le it) as Hle.
  change (item_payload it) with body in Hle. header_simpl.
  destruct (skip_header_ok v _ _ Hh) as (_ & Hd & _). header_simpl.
  assert (bytes_ok body) as Hbok.
  { rewrite Hd in *. pose proof (bytes_ok_drop (Z.to_nat (len (rlp it) - len body)) v Hok) as H.
    rewrite <- Hd in H. by apply bytes_ok_app in H as [? _]. }
  assert (initialize (new_decoder v)
    = (Ok tt, {| view_ := body ++ rest; list_payload_ := body; total_size_ := 0;
                 total_chunks_ := len cs; chunk_index_ := 0; initialized_ := true |})) as E.
  { unfold initialize, peek_list, scan_list. cbn [new_decoder initialized_ view_ total_chunks_ Z.eqb].
    rewrite (PeekHeader_ok v _ _ Hh). cbn [fst obind]. header_simpl. cbn [negb].
    destruct (Z.ltb_spec (len v) (len (rlp it) - len body + len body)); [lia |].
    header_simpl. rewrite <- Hd, take_len_app. unfold body at 1 2.
    rewrite scan_ok; [done | unfold body in *; len_lia | done | lia]. }
  assert (forall st, initialized_ st = true -> initialize st = (Ok tt, st)) as Hi
    by (intros st Hst; unfold initialize; by rewrite Hst).
  change (2 + length v)%nat with (S (S (length v))).
  assert (read_chunks (S (S (length v))) (new_decoder v)
    = read_chunks (S (S (length v))) {| view_ := body ++ rest; list_payload_ := body; total_size_ := 0;
                 total_chunks_ := len cs; chunk_index_ := 0; initialized_ := true |}) as ->.
  { cbn [read_chunks]. unfold readChunk, mbind, M_bind. by rewrite E, Hi. }
  apply read_list_chunks_ok; [done | lia | unfold body in *; len_lia | done |].
  assert (forall l : list bytes, (length l <= length (rlps (map Str l)))%nat) as Hlen.
  { induction l as [|x l IHl]; [done |]. cbn [map]. rewrite rlps_cons, length_app.
    pose proof (rlp_nonempty (Str x)). unfold len in *. cbn [length]. lia. }
  pose proof (Hlen cs) as H. fold body in H. unfold v. rewrite length_app. unfold len in *. lia.
Qed.

Lemma chunks_of_ok n data :
  1 <= n -> bytes_ok data ->
  concat (chunks_of n data) = data /\ Forall (fun c => c <> []) (chunks_of n data)
  /\ item_ok (Lst (map Str (chunks_of n data))).
Proof.
  intros Hn Hok. destruct (split_concat n (length data) data Hn ltac:(lia)) as [Hc Ha].
  fold (chunks_of n data) in Hc, Ha. split; [done |]. split.
  - eapply List.Forall_impl; [| exact Ha]. intros c Hlen ->. cbn in Hlen. rewrite len_nil in Hlen. lia.
  - apply item_ok_Lst. rewrite <- Hc in Hok. clear Hc Ha.
    induction (chunks_of n data) as [|c cs IH]; [constructor |].
    cbn [concat] in Hok. apply bytes_ok_app in Hok as [? ?]. constructor; auto.
Qed.

(** data survives the chunked round trip. Whatever the pieces and the chunk size, what
    [encodeChunkedList] writes on a fresh encoder, followed by anything, is reassembled by
    [decodeChunkedListFull] into the concatenated data. *)
Theorem chunked_roundtrip chunks n rest :
  1 <= n < 2 ^ 63 -> bytes_ok (concat chunks) -> bytes_ok rest ->
  len (rlp (Lst (map Str (chunks_of n (concat chunks))))) < 2 ^ 64 ->
  decodeChunkedListFull (buffer_ (snd (encodeChunkedList chunks n new_encoder)) ++ rest)
  = Ok (concat chunks).
Proof.
  intros Hn Hok Hr Hl. rewrite encodeChunkedList_run by (done || lia).
  destruct (Z.eqb_spec n 0); [lia |]. cbn [snd buffer_ new_encoder app].
  destruct (chunks_of_ok n (concat chunks) ltac:(lia) Hok) as (Hc & Hne & Hi).
  unfold decodeChunkedListFull, decodeChunkedList. rewrite decode_chunks_run; [| done | done |].
  - cbn [fst obind]. by rewrite Hc.
  - apply bytes_ok_app. split; [by apply rlp_ok | done].
Qed.

Lemma chunked_roundtrip_witness :
  decodeChunkedListFull ([0xc4; 0x82; 0x63; 0x61; 0x74] ++ [0xff]) = Ok [0x63; 0x61; 0x74].
Proof.
  refine (chunked_roundtrip [[0x63]; [0x61; 0x74]] 2 [0xff] _ _ _ _); [lia | octets | octets | reflexivity].
Defined.

(** Where a finished decoder stands: [remaining()] is the list's payload again, not what
    follows the list. *)
Theorem finished_decoder_remaining cs rest :
  Forall (fun c => c <> []) cs -> len (rlp (Lst (map Str cs))) < 2 ^ 64 ->
  bytes_ok (rlp (Lst (map Str cs)) ++ rest) ->
  let st := snd (read_chunks (2 + length (rlp (Lst (map Str cs)) ++ rest))
                   (new_decoder (rlp (Lst (map Str cs)) ++ rest))) in
  isFinished st = true /\ view_ st = rlps (map Str cs) ++ rest.
Proof.
  intros Hne Hl Hok. cbv zeta. rewrite decode_chunks_run by done. split; [| done].
  unfold isFinished. cbn. apply Z.leb_refl.
Qed.

(** A list with an empty string in it ends the loop there, as if the list were over. *)
Example empty_chunk_ends_list :
  decodeChunkedListFull (rlp (Lst [Str [0x61]; Str []; Str [0x62]])) = Ok [0x61].
Proof. reflexivity. Qed.

End ChunkedList.
