(* ===== verification/Codec.v ===== *)
(** * Codec: the interface between a type and its encoding

    What one component promises to another about a type it can put on the wire: the item the
    type stands for, a call that appends that item to an encoder, and a call that reads it
    back from a decoder. The objects and messages of the upper layers are proved against this
    interface; the instances here discharge it for the scalars, the arrays and the lists of
    the RLP layer. The file models no code of its own but the encoding idioms of
    [src/eth/objects.cpp] and [src/eth/messages.cpp]. *)
From S2P Require Export RlpRoundtrip.

(** [A] has the items [to_item a]: [enc] appends them for the valid values and [dec] reads
    them back, up to [norm] for the values the code does not distinguish on the wire. *)
Class Codec {A} (enc : A -> EncM unit) (dec : DecM A) (to_item : A -> item)
    (valid : A -> Prop) (norm : A -> A) : Prop := {
  codec_appends a : valid a -> appends (enc a) (rlp (to_item a));
  codec_reads a : valid a -> reads dec (rlp (to_item a)) (norm a);
  codec_octets a : valid a -> item_ok (to_item a)
}.

(** The same for a pair of functions on whole byte sequences, whose decoder is given the
    encoding and nothing else. *)
Class ByteCodec {A} (encode : A -> EncodingResult bytes) (decode : ByteView -> Result A)
    (to_item : A -> item) (valid : A -> Prop) (norm : A -> A) : Prop := {
  byte_encodes a : valid a -> len (rlp (to_item a)) < 2 ^ 64 -> encode a = Ok (rlp (to_item a));
  byte_decodes a : valid a -> len (rlp (to_item a)) < 2 ^ 64 ->
    decode (rlp (to_item a)) = Ok (norm a);
  byte_octets a : valid a -> item_ok (to_item a)
}.

(** ** Octets of the elementary items *)

Lemma item_ok_uint n : item_ok (uint_item n).
Proof. apply digits_ok. Qed.

Lemma item_ok_bool b : item_ok (bool_item b).
Proof. apply digits_ok. Qed.

Lemma item_ok_array n s : is_array n s -> item_ok (Str s).
Proof. by intros [_ ?]. Qed.

Lemma item_ok_bytes s : bytes_ok s -> item_ok (Str s).
Proof. done. Qed.

Lemma item_ok_map {A} (f : A -> item) xs :
  (forall x, x ∈ xs -> item_ok (f x)) -> item_ok (Lst (map f xs)).
Proof.
  intros H. apply item_ok_Lst. induction xs as [|x xs IH]; cbn; [constructor |].
  constructor; [apply H; left | apply IH; intros; apply H; by right].
Qed.

Lemma item_ok_nil : item_ok (Lst []).
Proof. done. Qed.

Lemma item_ok_cons it l : item_ok it -> item_ok (Lst l) -> item_ok (Lst (it :: l)).
Proof. done. Qed.

Create HintDb octets.
#[export] Hint Resolve item_ok_uint item_ok_bool item_ok_array item_ok_bytes item_ok_nil
  item_ok_cons codec_octets byte_octets : octets.

(** ** Instances for the RLP layer *)

Lemma is_array_len n s : is_array n s -> len s = Z.of_nat n.
Proof. intros [H _]. unfold len. by rewrite H. Qed.

(** [encoder.add(ByteView(x.data(), x.size()))] and [decoder.read(x)] for
    [std::array<uint8_t, N>]. *)
#[export] Instance array_codec n e1 e2 :
  Codec (fun s => or_else (add_bytes s) e1) (or_else (read_fixed (Z.of_nat n)) e2) Str (is_array n) id.
Proof.
  split; intros s Hs; cbn [id].
  - eauto with appends.
  - by apply reads_or_else, reads_read_fixed, is_array_len.
  - by apply Hs.
Qed.

(** [std::vector<uint8_t>]. *)
#[export] Instance bytes_codec e1 e2 :
  Codec (fun s => or_else (add_bytes s) e1) (or_else read_bytes e2) Str bytes_ok id.
Proof. split; intros s Hs; cbn [id]; eauto with appends reads. Qed.

#[export] Instance uint_codec w e1 e2 : int_width w ->
  Codec (fun n => or_else (add_integral w n) e1) (or_else (read_integral w) e2) uint_item (fits w) id.
Proof.
  intros Hw. split; intros n Hn; cbn [id].
  - eauto with appends.
  - apply reads_or_else, reads_read_integral; [unfold int_width in Hw; lia | done].
  - apply item_ok_uint.
Qed.

#[export] Instance uint256_codec e1 e2 :
  Codec (fun n => or_else (add_uint256 n) e1) (or_else read_uint256 e2) uint_item (fits 32) id.
Proof. split; intros n Hn; cbn [id]; eauto with appends reads octets. Qed.

#[export] Instance bool_codec e1 e2 :
  Codec (fun b => or_else (add_bool b) e1) (or_else read_bool e2) bool_item (fun _ => True) id.
Proof. split; intros n Hn; cbn [id]; eauto with appends reads octets. Qed.

Section list.
Context {A : Type} {enc : A -> EncM unit} {dec : DecM A} {to_item : A -> item}
  {valid : A -> Prop} {norm : A -> A}.
Context `{HC : !Codec enc dec to_item valid norm}.

Lemma reads_read_norm xs : Forall valid xs ->
  reads (read_list_of dec) (rlp (Lst (map to_item xs))) (map norm xs).
Proof.
  intros Hv.
  assert (forall v ys, Forall valid ys -> forall rest,
    v = concat (map (fun y => rlp (to_item y)) ys) ++ rest -> len v < 2 ^ 64 + len rest ->
    bytes_ok v -> forall fuel, (length v < fuel)%nat ->
    read_while_fuel fuel (len rest) dec v = (Ok (map norm ys), rest)) as Hw.
  { intros v ys Hys. revert v. induction Hys as [|y ys Hy Hys IH]; intros v rest -> Hl Hok fuel Hf;
      (destruct fuel as [|fuel]; [lia |]); cbn [map concat read_while_fuel app] in *.
    - unfold_m. by rewrite Z.ltb_irrefl.
    - rewrite <- app_assoc in *. pose proof (rlp_nonempty (to_item y)).
      erewrite bind_ok by done. rewrite len_app in *.
      pose proof (len_nonneg (concat (map (fun y => rlp (to_item y)) ys))).
      rewrite len_app in *. destruct (Z.ltb_spec (len rest) (len (rlp (to_item y)) +
        (len (concat (map (fun y => rlp (to_item y)) ys)) + len rest))); [| lia].
      erewrite bind_ok by (apply codec_reads; [done | len_lia | done]).
      erewrite bind_ok; [done |]. apply IH; [done | len_lia | by apply bytes_ok_app in Hok as [_ ?] |].
      rewrite length_app in Hf. unfold len in *. lia. }
  cbn [rlp]. rewrite map_map. apply reads_list. intros Hl rest Hok.
  unfold list_target. erewrite bind_ok by done. unfold read_while.
  rewrite len_app. replace (len _ + len rest - len _) with (len rest) by lia.
  erewrite bind_ok by (apply Hw; [exact Hv | done | len_lia | done | lia]).
  unfold check_target. unfold_m. by rewrite Z.eqb_refl.
Qed.

(** [for (x : xs) enc(x)] between [BeginList] and [EndList]; the list loop. *)
#[export] Instance list_codec :
  Codec (fun xs => in_list (for_each xs enc)) (read_list_of dec)
    (fun xs => Lst (map to_item xs)) (Forall valid) (map norm).
Proof using HC.
  split; intros xs Hv.
  - apply appends_list_items. unfold rlps. rewrite map_map. apply appends_for_each.
    intros x Hx. apply codec_appends. rewrite List.Forall_forall in Hv.
    by apply Hv, list_elem_of_In.
  - by apply reads_read_norm.
  - apply item_ok_map. intros x Hx. apply codec_octets. rewrite List.Forall_forall in Hv.
    by apply Hv, list_elem_of_In.
Qed.

(** Encoding on a fresh encoder, decoding a whole view. *)
Lemma codec_encodes a : valid a -> len (rlp (to_item a)) < 2 ^ 64 ->
  run_encoder (enc a ;; GetBytes) = Ok (rlp (to_item a)).
Proof using HC. intros Hv Hl. by apply run_encoder_appends; [apply codec_appends |]. Qed.

Lemma codec_decodes a rest : valid a -> len (rlp (to_item a)) < 2 ^ 64 -> bytes_ok rest ->
  dec (rlp (to_item a) ++ rest) = (Ok (norm a), rest).
Proof using HC.
  intros Hv Hl Hr. apply codec_reads; [done | done |]. apply bytes_ok_app. split; [| done].
  apply rlp_ok; [by apply codec_octets | done].
Qed.

Lemma codec_byte_codec :
  ByteCodec (fun a => run_encoder (enc a ;; GetBytes)) (fun v => fst (dec v)) to_item valid norm.
Proof using HC.
  split; [apply codec_encodes | | apply codec_octets]. intros a Hv Hl.
  pose proof (codec_decodes a [] Hv Hl (Forall_nil _)) as H. rewrite app_nil_r in H. by rewrite H.
Qed.
End list.

(** ** Lists and reads, for the protocols that do not use [in_list] and [read_list_of] *)

Lemma appends_begin_end m l : appends m (rlps l) -> appends (BeginList ;; m ;; EndList) (rlp (Lst l)).
Proof. apply appends_list. Qed.

Lemma rlps_one it : rlp it = rlps [it].
Proof. unfold rlps. cbn. by rewrite app_nil_r. Qed.

Lemma rlps_two a b : rlps [a; b] = rlp a ++ rlp b.
Proof. unfold rlps. cbn. by rewrite app_nil_r. Qed.

Lemma width1 : int_width 1.
Proof. by left. Qed.
Lemma width2 : int_width 2.
Proof. by right; left. Qed.
Lemma width4 : int_width 4.
Proof. by right; right; left. Qed.
Lemma width8 : int_width 8.
Proof. by right; right; right. Qed.

#[export] Hint Resolve width1 width2 width4 width8 : appends.

(** [IsList] in front of an encoded item. *)
Lemma IsList_rlp it rest :
  len (rlp it) < 2 ^ 64 -> bytes_ok (rlp it ++ rest) ->
  IsList (rlp it ++ rest) = (Ok (item_is_list it), rlp it ++ rest).
Proof. intros Hl Hok. exact (IsList_header _ _ _ Hok (decode_header_rlp it rest Hl)). Qed.

Lemma ReadListHeaderBytes_list body rest :
  len (rlp_list body) < 2 ^ 64 ->
  ReadListHeaderBytes (rlp_list body ++ rest) = (Ok (len body), body ++ rest).
Proof.
  intros Hl. unfold rlp_list in *. rewrite <- app_assoc.
  rewrite (ReadListHeaderBytes_ok _ _ _ (decode_header_prefix true body rest
    ltac:(discriminate) ltac:(len_lia))); done.
Qed.

Lemma read_bytes_octets v s w : bytes_ok v -> read_bytes v = (Ok s, w) -> bytes_ok s /\ bytes_ok w.
Proof.
  intros Hv H. apply read_bytes_only in H; [| done]. rewrite H in Hv.
  apply bytes_ok_app in Hv as [Hs Hw]. split; [| done]. exact (rlp_item_ok (Str s) Hs).
Qed.

Lemma read_integral_typed w v n v' :
  bytes_ok v -> 0 <= w -> read_integral w v = (Ok n, v') -> fits w n /\ bytes_ok v'.
Proof.
  intros Hv Hw H. destruct (total_read_integral w v Hv) as (_ & p & Hp). rewrite H in Hp. cbn in Hp.
  apply read_integral_inv in H as (h & v1 & Hh & _ & Hf & ->); [| done..].
  apply from_big_compact_inv in Hf as (_ & _ & _ & Hf); [| by eapply payload_ok | done].
  split; [done |]. rewrite Hp in Hv. by apply bytes_ok_app in Hv as [_ ?].
Qed.

(** [MoveBytes] at the end of an encoding. *)
Lemma run_encoder_moves m bs : appends m bs -> len bs < 2 ^ 64 -> run_encoder (m ;; MoveBytes) = Ok bs.
Proof. intros H Hl. unfold run_encoder. by erewrite bind_ok by apply (H Hl). Qed.

(** Coarse bounds on encoded sizes. *)
Lemma rlp_str_len s : len s < 2 ^ 64 -> len (rlp (Str s)) <= 9 + len s.
Proof.
  intros Hl. cbn [rlp]. unfold rlp_string. pose proof (len_nonneg s). destruct (is_literal s); [lia |].
  rewrite len_app. pose proof (length_prefix_len false (len s)). lia.
Qed.

Lemma rlp_list_len l : len (rlps l) < 2 ^ 64 -> len (rlp (Lst l)) <= 9 + len (rlps l).
Proof.
  intros Hl. change (rlp (Lst l)) with (length_prefix true (len (rlps l)) ++ rlps l). rewrite len_app.
  pose proof (len_nonneg (rlps l)). pose proof (length_prefix_len true (len (rlps l))). lia.
Qed.
