(* ===== verification/EthObjects.v ===== *)
(** * EthObjects: log entries, access lists, transactions, receipts and block headers

    [include/eth/objects.hpp], [src/eth/objects.cpp], [include/eth/eth_constants.hpp]. Each
    [encode_*] is a program on a fresh encoder, each [decode_*] a program on a decoder of the
    given octets. *)
From S2P Require Export Codec.

Definition kRlpListPrefixMin : Z := 0xC0.
Definition kTypedTxPrefixSize : Z := 1.
Definition kDefaultChainId : Z := 1.

(** [Address], [Hash256] and [Bloom] are arrays of 20, 32 and 256 octets. *)
Abbreviation address := bytes.
Abbreviation hash256 := bytes.
Abbreviation bloom := bytes.

(** [codec::Hash256{}]. *)
Definition zero_hash : hash256 := repeat 0 32.

(** ** Data *)

Record LogEntry := mkLogEntry {
  log_address : address;
  log_topics : list hash256;
  log_data : bytes
}.

(** [enum class TransactionType : uint8_t]: any value of the underlying type. *)
Abbreviation TransactionType := Z.
Definition kLegacy : TransactionType := 0x00.
Definition kAccessList : TransactionType := 0x01.
Definition kDynamicFee : TransactionType := 0x02.

Record AccessListEntry := mkAccessListEntry {
  ale_address : address;
  ale_storage_keys : list hash256
}.

Record Transaction := mkTransaction {
  tx_type : TransactionType;
  tx_nonce : Z;
  tx_gas_limit : Z;
  tx_to : option address;
  tx_value : Z;
  tx_data : bytes;
  tx_gas_price : option Z;
  tx_max_priority_fee_per_gas : option Z;
  tx_max_fee_per_gas : option Z;
  tx_access_list : list AccessListEntry;
  tx_chain_id : option Z;
  tx_v : Z;
  tx_r : Z;
  tx_s : Z
}.

Record Receipt := mkReceipt {
  rc_state_root : option hash256;
  rc_status : option bool;
  rc_cumulative_gas_used : Z;
  rc_bloom : bloom;
  rc_logs : list LogEntry
}.

Record BlockHeader := mkBlockHeader {
  bh_parent_hash : hash256;
  bh_ommers_hash : hash256;
  bh_beneficiary : address;
  bh_state_root : hash256;
  bh_transactions_root : hash256;
  bh_receipts_root : hash256;
  bh_logs_bloom : bloom;
  bh_difficulty : Z;
  bh_number : Z;
  bh_gas_limit : Z;
  bh_gas_used : Z;
  bh_timestamp : Z;
  bh_extra_data : bytes;
  bh_mix_hash : hash256;
  bh_nonce : bytes;
  bh_base_fee_per_gas : option Z
}.

#[export] Instance LogEntry_eq_dec : EqDecision LogEntry.
Proof. solve_decision. Defined.
#[export] Instance AccessListEntry_eq_dec : EqDecision AccessListEntry.
Proof. solve_decision. Defined.
#[export] Instance Transaction_eq_dec : EqDecision Transaction.
Proof. solve_decision. Defined.
#[export] Instance Receipt_eq_dec : EqDecision Receipt.
Proof. solve_decision. Defined.
#[export] Instance BlockHeader_eq_dec : EqDecision BlockHeader.
Proof. solve_decision. Defined.

Abbreviation EncodeResult := (EncodingResult bytes).
Abbreviation DecodeResult := Result.

(** ** Encoding *)

(** [finalize_encoding]: the bytes are copied out of the encoder. *)
Definition finalize_encoding : EncM bytes := GetBytes.

(** [encoder.add(ByteView(x.data(), x.size()))] and its test. *)
Definition put_bytes (x : bytes) : EncM unit := checked (add_bytes x).
Definition put_uint64 (n : Z) : EncM unit := checked (add_integral 8 n).
Definition put_uint256 (n : Z) : EncM unit := checked (add_uint256 n).

(** The encoding of a log entry, also written out in [encode_receipt]. *)
Definition encode_log_entry_to_encoder (entry : LogEntry) : EncM unit :=
  in_list (
    put_bytes (log_address entry) ;;
    in_list (for_each (log_topics entry) put_bytes) ;;
    put_bytes (log_data entry)).

Definition encode_log_entry (entry : LogEntry) : EncodeResult :=
  run_encoder (encode_log_entry_to_encoder entry ;; finalize_encoding).

Definition encode_access_list_entry_to_encoder (entry : AccessListEntry) : EncM unit :=
  in_list (
    put_bytes (ale_address entry) ;;
    in_list (for_each (ale_storage_keys entry) put_bytes)).

Definition encode_access_list_entry (entry : AccessListEntry) : EncodeResult :=
  run_encoder (encode_access_list_entry_to_encoder entry ;; finalize_encoding).

Definition encode_access_list (access_list : list AccessListEntry) : EncM unit :=
  in_list (for_each access_list encode_access_list_entry_to_encoder).

(** The recipient, empty for a contract creation. *)
Definition put_to (to : option address) : EncM unit :=
  match to with
  | Some addr => put_bytes addr
  | None => put_bytes []
  end.

Definition encode_transaction (tx : Transaction) : EncodeResult :=
  if tx_type tx =? kLegacy then
    run_encoder (
      in_list (
        put_uint64 (tx_nonce tx) ;;
        put_uint256 (default 0 (tx_gas_price tx)) ;;
        put_uint64 (tx_gas_limit tx) ;;
        put_to (tx_to tx) ;;
        put_uint256 (tx_value tx) ;;
        put_bytes (tx_data tx) ;;
        put_uint256 (tx_v tx) ;; put_uint256 (tx_r tx) ;; put_uint256 (tx_s tx)) ;;
      finalize_encoding)
  else if tx_type tx =? kAccessList then
    obind (run_encoder (
      in_list (
        put_uint64 (default kDefaultChainId (tx_chain_id tx)) ;;
        put_uint64 (tx_nonce tx) ;;
        put_uint256 (default 0 (tx_gas_price tx)) ;;
        put_uint64 (tx_gas_limit tx) ;;
        put_to (tx_to tx) ;;
        put_uint256 (tx_value tx) ;;
        put_bytes (tx_data tx) ;;
        encode_access_list (tx_access_list tx) ;;
        put_uint256 (tx_v tx) ;; put_uint256 (tx_r tx) ;; put_uint256 (tx_s tx)) ;;
      finalize_encoding)) (fun rlp_bytes => Ok (u8 kAccessList :: rlp_bytes))
  else if tx_type tx =? kDynamicFee then
    obind (run_encoder (
      in_list (
        put_uint64 (default kDefaultChainId (tx_chain_id tx)) ;;
        put_uint64 (tx_nonce tx) ;;
        put_uint256 (default 0 (tx_max_priority_fee_per_gas tx)) ;;
        put_uint256 (default 0 (tx_max_fee_per_gas tx)) ;;
        put_uint64 (tx_gas_limit tx) ;;
        put_to (tx_to tx) ;;
        put_uint256 (tx_value tx) ;;
        put_bytes (tx_data tx) ;;
        encode_access_list (tx_access_list tx) ;;
        put_uint256 (tx_v tx) ;; put_uint256 (tx_r tx) ;; put_uint256 (tx_s tx)) ;;
      finalize_encoding)) (fun rlp_bytes => Ok (u8 kDynamicFee :: rlp_bytes))
  else Err EncodingError.kEmptyInput.

Definition encode_receipt (receipt : Receipt) : EncodeResult :=
  run_encoder (
    in_list (
      match rc_state_root receipt, rc_status receipt with
      | Some state_root, _ => put_bytes state_root
      | None, Some status => checked (add_integral 1 (if status then 1 else 0))
      | None, None => throw EncodingError.kEmptyInput
      end ;;
      put_uint256 (rc_cumulative_gas_used receipt) ;;
      put_bytes (rc_bloom receipt) ;;
      in_list (for_each (rc_logs receipt) encode_log_entry_to_encoder)) ;;
    finalize_encoding).

Definition encode_block_header (header : BlockHeader) : EncodeResult :=
  run_encoder (
    in_list (
      put_bytes (bh_parent_hash header) ;;
      put_bytes (bh_ommers_hash header) ;;
      put_bytes (bh_beneficiary header) ;;
      put_bytes (bh_state_root header) ;;
      put_bytes (bh_transactions_root header) ;;
      put_bytes (bh_receipts_root header) ;;
      put_bytes (bh_logs_bloom header) ;;
      put_uint256 (bh_difficulty header) ;;
      put_uint64 (bh_number header) ;;
      put_uint64 (bh_gas_limit header) ;;
      put_uint64 (bh_gas_used header) ;;
      put_uint64 (bh_timestamp header) ;;
      put_bytes (bh_extra_data header) ;;
      put_bytes (bh_mix_hash header) ;;
      put_bytes (bh_nonce header) ;;
      match bh_base_fee_per_gas header with
      | Some base_fee => put_uint256 base_fee
      | None => mret tt
      end) ;;
    finalize_encoding).

(** ** Decoding *)

(** [if (!decoder.read(x)) return error;] for arrays, integers and strings. *)
Definition get_array (n : Z) : DecM bytes := or_else (read_fixed n) DecodingError.kUnexpectedLength.
Definition get_hash : DecM hash256 := get_array 32.
Definition get_uint64 : DecM Z := or_else (read_integral 8) DecodingError.kUnexpectedString.
Definition get_uint256 : DecM Z := or_else read_uint256 DecodingError.kUnexpectedString.
Definition get_bytes : DecM bytes := or_else read_bytes DecodingError.kUnexpectedString.

Definition decode_log_entry_from_decoder : DecM LogEntry :=
  payload_size ← ReadListHeaderBytes;
  target_remaining ← list_target payload_size;
  address ← get_array 20;
  topics ← read_list_of get_hash;
  data ← get_bytes;
  check_target target_remaining ;;
  mret {| log_address := address; log_topics := topics; log_data := data |}.

Definition decode_log_entry (rlp_data : ByteView) : DecodeResult LogEntry :=
  fst (decode_log_entry_from_decoder rlp_data).

Definition decode_access_list_entry_from_decoder : DecM AccessListEntry :=
  payload ← ReadListHeaderBytes;
  target ← list_target payload;
  address ← get_array 20;
  storage_keys ← read_list_of get_hash;
  check_target target ;;
  mret {| ale_address := address; ale_storage_keys := storage_keys |}.

Definition decode_access_list_entry (rlp_data : ByteView) : DecodeResult AccessListEntry :=
  fst (decode_access_list_entry_from_decoder rlp_data).

Definition decode_access_list : DecM (list AccessListEntry) :=
  read_list_of decode_access_list_entry_from_decoder.

(** The recipient: an item without payload is a contract creation. *)
Definition get_to : DecM (option address) :=
  to_header ← PeekHeader;
  if payload_size_bytes to_header =? 0
  then get_bytes ;; mret None
  else addr ← get_array 20; mret (Some addr).

(** The typed transactions, after the type octet. *)
Definition decode_typed_transaction (type : TransactionType) : DecM Transaction :=
  ReadListHeaderBytes ;;
  chain_id ← get_uint64;
  nonce ← get_uint64;
  fees ← (if type =? kAccessList
          then gp ← get_uint256; mret (Some gp, None, None)
          else mpf ← get_uint256; mf ← get_uint256; mret (None, Some mpf, Some mf));
  gas_limit ← get_uint64;
  to ← get_to;
  value ← get_uint256;
  data ← get_bytes;
  access_list ← decode_access_list;
  v ← get_uint256; r ← get_uint256; s ← get_uint256;
  mret {| tx_type := type; tx_nonce := nonce; tx_gas_limit := gas_limit; tx_to := to;
          tx_value := value; tx_data := data; tx_gas_price := fst (fst fees);
          tx_max_priority_fee_per_gas := snd (fst fees); tx_max_fee_per_gas := snd fees;
          tx_access_list := access_list; tx_chain_id := Some chain_id;
          tx_v := v; tx_r := r; tx_s := s |}.

Definition decode_legacy_transaction : DecM Transaction :=
  ReadListHeaderBytes ;;
  nonce ← get_uint64;
  gp ← get_uint256;
  gas_limit ← get_uint64;
  to ← get_to;
  value ← get_uint256;
  data ← get_bytes;
  v ← get_uint256; r ← get_uint256; s ← get_uint256;
  mret {| tx_type := kLegacy; tx_nonce := nonce; tx_gas_limit := gas_limit; tx_to := to;
          tx_value := value; tx_data := data; tx_gas_price := Some gp;
          tx_max_priority_fee_per_gas := None; tx_max_fee_per_gas := None;
          tx_access_list := []; tx_chain_id := None; tx_v := v; tx_r := r; tx_s := s |}.

Definition decode_transaction (raw_data : ByteView) : DecodeResult Transaction :=
  if empty raw_data then Err DecodingError.kInputTooShort
  else if byte_at raw_data 0 <? kRlpListPrefixMin then
    let type_byte := byte_at raw_data 0 in
    let rlp_payload := drop (Z.to_nat kTypedTxPrefixSize) raw_data in
    if type_byte =? u8 kAccessList
    then fst (decode_typed_transaction kAccessList rlp_payload)
    else if type_byte =? u8 kDynamicFee
    then fst (decode_typed_transaction kDynamicFee rlp_payload)
    else Err DecodingError.kUnexpectedString
  else fst (decode_legacy_transaction raw_data).

(** [decode_status_or_state_root]: the two fields it sets. *)
Definition decode_status_or_state_root : DecM (option hash256 * option bool) :=
  header ← PeekHeader;
  fail_if (is_list header) DecodingError.kUnexpectedList ;;
  if payload_size_bytes header =? 32
  then root ← read_fixed 32; mret (Some root, None)
  else
    status_bytes ← read_bytes;
    if empty status_bytes then mret (None, Some false)
    else if len status_bytes =? 1 then mret (None, Some (negb (byte_at status_bytes 0 =? 0)))
    else throw DecodingError.kUnexpectedLength.

Definition decode_receipt_from_decoder : DecM Receipt :=
  ReadListHeaderBytes ;;
  status ← decode_status_or_state_root;
  cumulative_gas_used ← get_uint256;
  bloom ← get_array 256;
  logs ← read_list_of decode_log_entry_from_decoder;
  mret {| rc_state_root := fst status; rc_status := snd status;
          rc_cumulative_gas_used := cumulative_gas_used; rc_bloom := bloom; rc_logs := logs |}.

Definition decode_receipt (rlp_data : ByteView) : DecodeResult Receipt :=
  fst (decode_receipt_from_decoder rlp_data).

(** The base fee is read when octets are left, of the list or not. *)
Definition get_base_fee : DecM (option Z) :=
  finished ← IsFinished;
  if negb finished then base_fee ← get_uint256; mret (Some base_fee) else mret None.

Definition decode_block_header_from_decoder : DecM BlockHeader :=
  ReadListHeaderBytes ;;
  parent_hash ← get_hash;
  ommers_hash ← get_hash;
  beneficiary ← get_array 20;
  state_root ← get_hash;
  transactions_root ← get_hash;
  receipts_root ← get_hash;
  logs_bloom ← get_array 256;
  difficulty ← get_uint256;
  number ← get_uint64;
  gas_limit ← get_uint64;
  gas_used ← get_uint64;
  timestamp ← get_uint64;
  extra_data ← get_bytes;
  mix_hash ← get_hash;
  nonce ← get_array 8;
  base_fee_per_gas ← get_base_fee;
  mret {| bh_parent_hash := parent_hash; bh_ommers_hash := ommers_hash;
          bh_beneficiary := beneficiary; bh_state_root := state_root;
          bh_transactions_root := transactions_root; bh_receipts_root := receipts_root;
          bh_logs_bloom := logs_bloom; bh_difficulty := difficulty; bh_number := number;
          bh_gas_limit := gas_limit; bh_gas_used := gas_used; bh_timestamp := timestamp;
          bh_extra_data := extra_data; bh_mix_hash := mix_hash; bh_nonce := nonce;
          bh_base_fee_per_gas := base_fee_per_gas |}.

Definition decode_block_header (rlp_data : ByteView) : DecodeResult BlockHeader :=
  fst (decode_block_header_from_decoder rlp_data).

(** ** The items of the objects *)

Definition address_ok (a : address) : Prop := is_array 20 a.
Definition hash_ok (h : hash256) : Prop := is_array 32 h.

Definition log_item (e : LogEntry) : item :=
  Lst [Str (log_address e); Lst (map Str (log_topics e)); Str (log_data e)].

Definition log_ok (e : LogEntry) : Prop :=
  address_ok (log_address e) /\ Forall hash_ok (log_topics e) /\ bytes_ok (log_data e).

Definition access_item (e : AccessListEntry) : item :=
  Lst [Str (ale_address e); Lst (map Str (ale_storage_keys e))].

Definition access_ok (e : AccessListEntry) : Prop :=
  address_ok (ale_address e) /\ Forall hash_ok (ale_storage_keys e).

Definition to_bytes (to : option address) : bytes := default [] to.

(** The fields a transaction type signs, in their order. *)
Definition tx_fields (tx : Transaction) : list item :=
  let common := [uint_item (tx_gas_limit tx); Str (to_bytes (tx_to tx)); uint_item (tx_value tx);
                 Str (tx_data tx)] in
  let signature := [uint_item (tx_v tx); uint_item (tx_r tx); uint_item (tx_s tx)] in
  let gas_price := uint_item (default 0 (tx_gas_price tx)) in
  let typed fees :=
    [uint_item (default kDefaultChainId (tx_chain_id tx)); uint_item (tx_nonce tx)] ++ fees ++ common
    ++ [Lst (map access_item (tx_access_list tx))] ++ signature in
  if tx_type tx =? kLegacy then [uint_item (tx_nonce tx); gas_price] ++ common ++ signature
  else if tx_type tx =? kAccessList then typed [gas_price]
  else typed [uint_item (default 0 (tx_max_priority_fee_per_gas tx));
              uint_item (default 0 (tx_max_fee_per_gas tx))].

(** The octets of a transaction: a typed one has its type before the list. *)
Definition tx_octets (tx : Transaction) : bytes :=
  (if tx_type tx =? kLegacy then [] else [tx_type tx]) ++ rlp (Lst (tx_fields tx)).

Definition optional {A} (P : A -> Prop) (o : option A) : Prop :=
  match o with Some a => P a | None => True end.

Definition tx_ok (tx : Transaction) : Prop :=
  (tx_type tx = kLegacy \/ tx_type tx = kAccessList \/ tx_type tx = kDynamicFee)
  /\ fits 8 (tx_nonce tx) /\ fits 8 (tx_gas_limit tx) /\ optional address_ok (tx_to tx)
  /\ fits 32 (tx_value tx) /\ bytes_ok (tx_data tx)
  /\ optional (fits 32) (tx_gas_price tx) /\ optional (fits 32) (tx_max_priority_fee_per_gas tx)
  /\ optional (fits 32) (tx_max_fee_per_gas tx) /\ Forall access_ok (tx_access_list tx)
  /\ optional (fits 8) (tx_chain_id tx)
  /\ fits 32 (tx_v tx) /\ fits 32 (tx_r tx) /\ fits 32 (tx_s tx).

(** What the wire keeps of a transaction: the fields of its type, absent ones as their
    defaults. *)
Definition tx_norm (tx : Transaction) : Transaction :=
  let legacy := tx_type tx =? kLegacy in
  let dynamic := tx_type tx =? kDynamicFee in
  {| tx_type := tx_type tx; tx_nonce := tx_nonce tx; tx_gas_limit := tx_gas_limit tx;
     tx_to := tx_to tx; tx_value := tx_value tx; tx_data := tx_data tx;
     tx_gas_price := if dynamic then None else Some (default 0 (tx_gas_price tx));
     tx_max_priority_fee_per_gas :=
       if dynamic then Some (default 0 (tx_max_priority_fee_per_gas tx)) else None;
     tx_max_fee_per_gas := if dynamic then Some (default 0 (tx_max_fee_per_gas tx)) else None;
     tx_access_list := if legacy then [] else tx_access_list tx;
     tx_chain_id := if legacy then None else Some (default kDefaultChainId (tx_chain_id tx));
     tx_v := tx_v tx; tx_r := tx_r tx; tx_s := tx_s tx |}.

Definition receipt_item (r : Receipt) : item :=
  Lst [match rc_state_root r, rc_status r with
       | Some root, _ => Str root
       | None, Some status => bool_item status
       | None, None => Str []
       end;
       uint_item (rc_cumulative_gas_used r); Str (rc_bloom r); Lst (map log_item (rc_logs r))].

Definition receipt_ok (r : Receipt) : Prop :=
  optional hash_ok (rc_state_root r) /\ (rc_state_root r <> None \/ rc_status r <> None)
  /\ fits 32 (rc_cumulative_gas_used r) /\ is_array 256 (rc_bloom r) /\ Forall log_ok (rc_logs r).

(** A state root hides the status. *)
Definition receipt_norm (r : Receipt) : Receipt :=
  {| rc_state_root := rc_state_root r;
     rc_status := match rc_state_root r with Some _ => None | None => rc_status r end;
     rc_cumulative_gas_used := rc_cumulative_gas_used r; rc_bloom := rc_bloom r; rc_logs := rc_logs r |}.

Definition base_fee_items (fee : option Z) : list item :=
  match fee with Some f => [uint_item f] | None => [] end.

Definition header_item (h : BlockHeader) : item :=
  Lst ([Str (bh_parent_hash h); Str (bh_ommers_hash h); Str (bh_beneficiary h);
        Str (bh_state_root h); Str (bh_transactions_root h); Str (bh_receipts_root h);
        Str (bh_logs_bloom h); uint_item (bh_difficulty h); uint_item (bh_number h);
        uint_item (bh_gas_limit h); uint_item (bh_gas_used h); uint_item (bh_timestamp h);
        Str (bh_extra_data h); Str (bh_mix_hash h); Str (bh_nonce h)]
       ++ base_fee_items (bh_base_fee_per_gas h)).

Definition header_ok (h : BlockHeader) : Prop :=
  hash_ok (bh_parent_hash h) /\ hash_ok (bh_ommers_hash h) /\ address_ok (bh_beneficiary h)
  /\ hash_ok (bh_state_root h) /\ hash_ok (bh_transactions_root h) /\ hash_ok (bh_receipts_root h)
  /\ is_array 256 (bh_logs_bloom h) /\ fits 32 (bh_difficulty h) /\ fits 8 (bh_number h)
  /\ fits 8 (bh_gas_limit h) /\ fits 8 (bh_gas_used h) /\ fits 8 (bh_timestamp h)
  /\ bytes_ok (bh_extra_data h) /\ hash_ok (bh_mix_hash h) /\ is_array 8 (bh_nonce h)
  /\ optional (fits 32) (bh_base_fee_per_gas h).

(** ** Automation: a field at a time *)

Lemma appends_put_bytes s : appends (put_bytes s) (rlp (Str s)).
Proof. apply appends_checked, appends_add_bytes. Qed.
Lemma appends_put_uint64 n : fits 8 n -> appends (put_uint64 n) (rlp (uint_item n)).
Proof. intros. apply appends_checked, appends_add_integral; [by do 3 right | done]. Qed.
Lemma appends_put_uint256 n : fits 32 n -> appends (put_uint256 n) (rlp (uint_item n)).
Proof. intros. by apply appends_checked, appends_add_uint256. Qed.
Lemma appends_put_to to : appends (put_to to) (rlp (Str (to_bytes to))).
Proof. destruct to; apply appends_put_bytes. Qed.

Lemma appends_list_of {A} (xs : list A) (put : A -> EncM unit) (f : A -> item) (P : A -> Prop) :
  (forall x, P x -> appends (put x) (rlp (f x))) -> Forall P xs ->
  appends (in_list (for_each xs put)) (rlp (Lst (map f xs))).
Proof.
  intros Hput Hxs. apply appends_list_items. unfold rlps. rewrite map_map.
  apply appends_for_each. intros x Hx. apply Hput. rewrite List.Forall_forall in Hxs.
  by apply Hxs, list_elem_of_In.
Qed.

Lemma appends_list_bytes xs : appends (in_list (for_each xs put_bytes)) (rlp (Lst (map Str xs))).
Proof.
  apply (appends_list_of _ _ _ (fun _ => True)); [intros; apply appends_put_bytes |].
  by apply List.Forall_forall.
Qed.

#[export] Hint Resolve appends_put_bytes appends_put_uint64 appends_put_uint256 appends_put_to
  appends_list_bytes : appends.

(** The calls of a list's fields, in order. *)
Ltac appends_fields :=
  rewrite ?rlps_cons; change (rlps []) with (@nil Z);
  repeat (apply appends_bind; [solve [eauto with appends] |]);
  solve [eauto with appends].

Lemma reads_get_array n k s : Z.of_nat n = k -> is_array n s -> reads (get_array k) (rlp (Str s)) s.
Proof. intros <- Hs. by apply reads_or_else, reads_read_fixed, is_array_len. Qed.
Lemma reads_get_address s : address_ok s -> reads (get_array 20) (rlp (Str s)) s.
Proof. by apply reads_get_array. Qed.
Lemma reads_get_hash s : hash_ok s -> reads get_hash (rlp (Str s)) s.
Proof. by apply reads_get_array. Qed.
Lemma reads_get_bloom s : is_array 256 s -> reads (get_array 256) (rlp (Str s)) s.
Proof. by apply reads_get_array. Qed.
Lemma reads_get_nonce s : is_array 8 s -> reads (get_array 8) (rlp (Str s)) s.
Proof. by apply reads_get_array. Qed.
Lemma reads_get_uint64 n : fits 8 n -> reads get_uint64 (rlp (uint_item n)) n.
Proof. intros. by apply reads_or_else, reads_read_integral. Qed.
Lemma reads_get_uint256 n : fits 32 n -> reads get_uint256 (rlp (uint_item n)) n.
Proof. intros. by apply reads_or_else, reads_read_uint256. Qed.
Lemma reads_get_bytes s : reads get_bytes (rlp (Str s)) s.
Proof. apply reads_or_else, reads_read_bytes. Qed.

Lemma reads_list_forall {A} (elem : DecM A) (f : A -> item) (P : A -> Prop) xs :
  (forall x, P x -> reads elem (rlp (f x)) x) -> Forall P xs ->
  reads (read_list_of elem) (rlp (Lst (map f xs))) xs.
Proof.
  intros He Hxs. apply reads_read_items. intros x Hx. apply He.
  rewrite List.Forall_forall in Hxs. by apply Hxs, list_elem_of_In.
Qed.

Lemma reads_hashes xs : Forall hash_ok xs -> reads (read_list_of get_hash) (rlp (Lst (map Str xs))) xs.
Proof. apply reads_list_forall, reads_get_hash. Qed.

(** The calls are matched by name, so that no body is compared with another. *)
#[export] Hint Extern 1 (reads (get_array 20) _ _) => simple eapply reads_get_address : reads.
#[export] Hint Extern 1 (reads (get_array 256) _ _) => simple eapply reads_get_bloom : reads.
#[export] Hint Extern 1 (reads (get_array 8) _ _) => simple eapply reads_get_nonce : reads.
#[export] Hint Extern 1 (reads get_hash _ _) => simple eapply reads_get_hash : reads.
#[export] Hint Extern 1 (reads get_uint64 _ _) => simple eapply reads_get_uint64 : reads.
#[export] Hint Extern 1 (reads get_uint256 _ _) => simple eapply reads_get_uint256 : reads.
#[export] Hint Extern 1 (reads get_bytes _ _) => simple eapply reads_get_bytes : reads.
#[export] Hint Extern 1 (reads (read_list_of get_hash) _ _) => simple eapply reads_hashes : reads.

Lemma reads_last {A} (m : DecM A) b a : reads m b a -> reads m (b ++ []) a.
Proof. by rewrite app_nil_r. Qed.

Lemma reads_items {A} (k : Z -> DecM A) l a :
  reads (k (len (rlps l))) (rlps l) a -> reads (ReadListHeaderBytes ≫= k) (rlp (Lst l)) a.
Proof. apply reads_list. Qed.

Lemma reads_items_to {A} (k : Z -> DecM A) l a :
  reads_to k (rlps l) a ->
  reads (payload ← ReadListHeaderBytes; target ← list_target payload; k target) (rlp (Lst l)) a.
Proof. intros H. by apply reads_items, reads_list_target. Qed.

Lemma reads_map {A B} (m : DecM A) (f : A -> B) b a :
  reads m b a -> reads (x ← m; mret (f x)) b (f a).
Proof. intros H. rewrite <- (app_nil_r b). eapply reads_bind; [exact H | apply reads_ret]. Qed.

(** Two fields read together before the rest. *)
Lemma reads_bind2 {A B} (m : DecM A) (k : A -> DecM B) b1 b2 b3 a b :
  reads m (b1 ++ b2) a -> reads (k a) b3 b -> reads (m ≫= k) (b1 ++ b2 ++ b3) b.
Proof. rewrite app_assoc. apply reads_bind. Qed.

(** The reads of a list's fields, in order, up to what returns the record. *)
Ltac reads_field := eapply reads_bind; [solve [eauto with reads] | cbv beta].
Ltac reads_to_field := eapply reads_to_bind; [solve [eauto with reads] | cbv beta].
Ltac reads_fields :=
  rewrite ?rlps_cons; change (rlps []) with (@nil Z); repeat reads_field; apply reads_ret.
Ltac reads_to_fields :=
  rewrite ?rlps_cons; change (rlps []) with (@nil Z); repeat reads_to_field; apply reads_to_check.

(** ** Log entries and access lists *)

Lemma appends_log e : appends (encode_log_entry_to_encoder e) (rlp (log_item e)).
Proof. apply appends_list_items. appends_fields. Qed.

Lemma reads_log e : log_ok e -> reads decode_log_entry_from_decoder (rlp (log_item e)) e.
Proof.
  intros (Ha & Ht & Hd). destruct e as [a t d]. apply reads_items_to. reads_to_fields.
Qed.

Lemma appends_access e : appends (encode_access_list_entry_to_encoder e) (rlp (access_item e)).
Proof. apply appends_list_items. appends_fields. Qed.

Lemma reads_access e : access_ok e -> reads decode_access_list_entry_from_decoder (rlp (access_item e)) e.
Proof.
  intros (Ha & Hk). destruct e as [a k]. apply reads_items_to. reads_to_fields.
Qed.

Lemma item_ok_hashes xs : Forall hash_ok xs -> item_ok (Lst (map Str xs)).
Proof.
  intros H. apply item_ok_map. intros x Hx. rewrite List.Forall_forall in H.
  by destruct (H x (proj1 (list_elem_of_In _ _) Hx)).
Qed.

#[export] Hint Resolve item_ok_hashes : octets.
#[export] Hint Unfold address_ok hash_ok : octets.

#[export] Instance log_codec :
  Codec encode_log_entry_to_encoder decode_log_entry_from_decoder log_item log_ok id.
Proof.
  split; intros e He; [apply appends_log | by apply reads_log |].
  destruct He as (Ha & Ht & Hd). unfold log_item. eauto 10 with octets.
Qed.

#[export] Instance access_codec :
  Codec encode_access_list_entry_to_encoder decode_access_list_entry_from_decoder access_item
    access_ok id.
Proof.
  split; intros e He; [apply appends_access | by apply reads_access |].
  destruct He as (Ha & Hk). unfold access_item. eauto 10 with octets.
Qed.

Lemma reads_access_list l : Forall access_ok l ->
  reads decode_access_list (rlp (Lst (map access_item l))) l.
Proof. apply reads_list_forall, reads_access. Qed.

Lemma appends_access_list l : appends (encode_access_list l) (rlp (Lst (map access_item l))).
Proof.
  apply (appends_list_of _ _ _ (fun _ => True)); [intros; apply appends_access |].
  by apply List.Forall_forall.
Qed.

Lemma appends_log_list l :
  appends (in_list (for_each l encode_log_entry_to_encoder)) (rlp (Lst (map log_item l))).
Proof.
  apply (appends_list_of _ _ _ (fun _ => True)); [intros; apply appends_log |].
  by apply List.Forall_forall.
Qed.

Lemma reads_log_list l : Forall log_ok l ->
  reads (read_list_of decode_log_entry_from_decoder) (rlp (Lst (map log_item l))) l.
Proof. apply reads_list_forall, reads_log. Qed.

(** ** Transactions *)

(** A list's first octet is at least 0xC0. *)
Lemma rlp_list_head l b t : rlp (Lst l) = b :: t -> 0xC0 <= b.
Proof.
  cbn [rlp]. unfold rlp_list, length_prefix.
  pose proof (len_nonneg (concat (map rlp l))). case_match; cbn [app]; intros [= <- _]; len_lia.
Qed.

Lemma PeekHeader_rlp it rest :
  len (rlp it) < 2 ^ 64 -> exists h, PeekHeader (rlp it ++ rest) = (Ok h, rlp it ++ rest)
    /\ is_list h = item_is_list it /\ payload_size_bytes h = len (item_payload it).
Proof.
  intros Hl. eexists. split; [exact (PeekHeader_ok _ _ _ (decode_header_rlp it rest Hl)) | done].
Qed.

Lemma reads_get_to to : optional address_ok to -> reads get_to (rlp (Str (to_bytes to))) to.
Proof.
  intros Hto Hl rest Hok. destruct (PeekHeader_rlp _ rest Hl) as (h & Hh & _ & Hp).
  unfold get_to. erewrite bind_ok by exact Hh. rewrite Hp. destruct to as [a|].
  - change (item_payload (Str (to_bytes (Some a)))) with a. rewrite (is_array_len 20 a Hto).
    change (Z.of_nat 20 =? 0) with false. cbv iota. by erewrite bind_ok by (by apply reads_get_address).
  - change (len (item_payload (Str (to_bytes None))) =? 0) with true. cbv iota.
    by erewrite bind_ok by (by apply reads_get_bytes).
Qed.

#[export] Hint Resolve appends_access_list appends_log_list : appends.
#[export] Hint Extern 1 (reads decode_access_list _ _) => simple eapply reads_access_list : reads.
#[export] Hint Extern 1 (reads (read_list_of decode_log_entry_from_decoder) _ _) =>
  simple eapply reads_log_list : reads.
#[export] Hint Extern 1 (reads get_to _ _) => simple eapply reads_get_to : reads.

Lemma fits_default w d o : fits w d -> optional (fits w) o -> fits w (default d o).
Proof. by destruct o. Qed.

Lemma fits_small w n : 1 <= w -> 0 <= n <= 1 -> fits w n.
Proof. intros Hw Hn. unfold fits. pose proof (Z.pow_le_mono_r 2 8 (8 * w)). lia. Qed.

Lemma fits_default_gas o : optional (fits 32) o -> fits 32 (default 0 o).
Proof. apply fits_default, fits_small; lia. Qed.

Lemma fits_default_chain o : optional (fits 8) o -> fits 8 (default kDefaultChainId o).
Proof. apply fits_default, fits_small; unfold kDefaultChainId; lia. Qed.

#[export] Hint Resolve fits_default_gas fits_default_chain : appends reads octets.

Section transaction.
Context (tx : Transaction) (Htx : tx_ok tx).

Lemma encode_transaction_octets :
  len (tx_octets tx) < 2 ^ 64 -> encode_transaction tx = Ok (tx_octets tx).
Proof.
  destruct Htx as (Hty & ? & ? & ? & ? & ? & ? & ? & ? & ? & ? & ? & ? & ?).
  intros Hl. unfold encode_transaction. revert Hl. unfold tx_octets, tx_fields.
  destruct Hty as [-> | [-> | ->]]; cbn [Z.eqb Pos.eqb kLegacy kAccessList kDynamicFee app]; intros Hl;
    (erewrite run_encoder_appends;
     [ reflexivity
     | apply appends_list_items; appends_fields
     | len_lia ]).
Qed.

Lemma decode_typed_reads :
  tx_type tx = kAccessList \/ tx_type tx = kDynamicFee ->
  reads (decode_typed_transaction (tx_type tx)) (rlp (Lst (tx_fields tx))) (tx_norm tx).
Proof.
  destruct Htx as (_ & ? & ? & ? & ? & ? & ? & ? & ? & ? & ? & ? & ? & ?).
  unfold tx_fields, tx_norm, decode_typed_transaction.
  intros [-> | ->]; cbn [Z.eqb Pos.eqb kLegacy kAccessList kDynamicFee app];
    apply reads_items; rewrite ?rlps_cons; change (rlps []) with (@nil Z); do 2 reads_field.
  - eapply reads_bind; [apply (reads_map _ (fun gp => (Some gp, None, None))); solve [eauto with reads] |].
    cbn [fst snd]. repeat reads_field. apply reads_ret.
  - eapply reads_bind2; [eapply reads_bind; [solve [eauto with reads] |];
      apply (reads_map _ (fun mf => (None, Some _, Some mf))); solve [eauto with reads] |].
    cbn [fst snd]. repeat reads_field. apply reads_ret.
Qed.

Lemma decode_legacy_reads :
  tx_type tx = kLegacy -> reads decode_legacy_transaction (rlp (Lst (tx_fields tx))) (tx_norm tx).
Proof.
  destruct Htx as (_ & ? & ? & ? & ? & ? & ? & ? & ? & ? & ? & ? & ? & ?).
  unfold tx_fields, tx_norm, decode_legacy_transaction.
  intros ->; cbn [Z.eqb Pos.eqb kLegacy kAccessList kDynamicFee app]; apply reads_items.
  reads_fields.
Qed.

Lemma decode_transaction_octets rest :
  len (tx_octets tx) < 2 ^ 64 -> bytes_ok (tx_octets tx ++ rest) ->
  decode_transaction (tx_octets tx ++ rest) = Ok (tx_norm tx).
Proof.
  pose proof (proj1 Htx) as Hty. unfold decode_transaction, tx_octets.
  destruct Hty as [Hty | Hty].
  - rewrite Hty. cbn [Z.eqb kLegacy app]. intros Hl Hok.
    destruct (rlp (Lst (tx_fields tx))) as [|b t] eqn:E;
      [pose proof (rlp_nonempty (Lst (tx_fields tx))) as H; rewrite E in H; done |].
    pose proof (rlp_list_head (tx_fields tx) b t E) as Hb.
    cbn [app empty] in *. rewrite byte_at_0. unfold kRlpListPrefixMin.
    destruct (Z.ltb_spec b 192); [lia |].
    pose proof (decode_legacy_reads Hty) as Hr. rewrite E in Hr.
    specialize (Hr Hl rest Hok). cbn [app] in Hr. by rewrite Hr.
  - intros Hl Hok. destruct Hty as [Hty | Hty]; rewrite Hty in Hl, Hok |- *;
      cbn [Z.eqb Pos.eqb kLegacy kAccessList kDynamicFee app empty] in *; rewrite byte_at_0;
      apply bytes_ok_cons in Hok as [_ Hok]; cbn [Z.ltb Z.compare Pos.compare Pos.compare_cont kRlpListPrefixMin];
      pose proof (decode_typed_reads ltac:(auto)) as Hr; rewrite Hty in Hr;
      change (drop (Z.to_nat kTypedTxPrefixSize) (?c :: ?body ++ rest)) with (body ++ rest);
      by rewrite (Hr ltac:(len_lia) rest Hok).
Qed.
End transaction.

(** C30: transactions survive the wire, whatever their type. A legacy transaction is encoded as
    the list of its nine fields, an EIP-2930 or EIP-1559 one as its type octet and the list of
    its fields, absent fees and chain id as their defaults; decoding these octets, whatever
    follows them, gives the transaction back with those defaults filled in. *)
Theorem transaction_roundtrip tx rest :
  tx_ok tx -> len (tx_octets tx) < 2 ^ 64 -> bytes_ok (tx_octets tx ++ rest) ->
  encode_transaction tx = Ok (tx_octets tx)
  /\ decode_transaction (tx_octets tx ++ rest) = Ok (tx_norm tx).
Proof.
  intros Htx Hl Hok. split; [by apply encode_transaction_octets | by apply decode_transaction_octets].
Qed.

Definition sample_tx : Transaction :=
  {| tx_type := kDynamicFee; tx_nonce := 7; tx_gas_limit := 21000; tx_to := Some (repeat 0x11 20);
     tx_value := 1000000; tx_data := [0xab]; tx_gas_price := None;
     tx_max_priority_fee_per_gas := Some 2; tx_max_fee_per_gas := None;
     tx_access_list := [{| ale_address := repeat 0x22 20; ale_storage_keys := [repeat 0x33 32] |}];
     tx_chain_id := None; tx_v := 1; tx_r := 2 ^ 255; tx_s := 3 |}.

Lemma transaction_roundtrip_witness :
  decode_transaction (tx_octets sample_tx ++ [0xff]) = Ok (tx_norm sample_tx).
Proof.
  apply (transaction_roundtrip sample_tx [0xff]).
  - unfold tx_ok, access_ok, address_ok, hash_ok, fits.
    apply (bool_decide_unpack _). vm_compute. exact I.
  - reflexivity.
  - octets.
Defined.

(** ** Receipts *)

Lemma reads_status r : receipt_ok r ->
  reads decode_status_or_state_root
    (rlp (match rc_state_root r, rc_status r with
          | Some root, _ => Str root
          | None, Some status => bool_item status
          | None, None => Str []
          end)) (rc_state_root (receipt_norm r), rc_status (receipt_norm r)).
Proof.
  intros (Hr & Hs & _). unfold receipt_norm. cbn [rc_state_root rc_status].
  intros Hl rest Hok. unfold decode_status_or_state_root.
  destruct (PeekHeader_rlp _ rest Hl) as (h & Hh & Hil & Hp).
  erewrite bind_ok by exact Hh. destruct (rc_state_root r) as [root|].
  - change (is_list h = false) in Hil. rewrite Hil. erewrite bind_ok by done.
    change (payload_size_bytes h = len root) in Hp. rewrite Hp, (is_array_len 32 root Hr).
    change (Z.of_nat 32 =? 32) with true. cbv iota.
    by erewrite bind_ok by (apply reads_read_fixed; [exact (is_array_len 32 root Hr) | exact Hl | exact Hok]).
  - destruct (rc_status r) as [st|]; [| by destruct Hs].
    change (is_list h = false) in Hil. rewrite Hil. erewrite bind_ok by done.
    destruct st; (change (payload_size_bytes h = 1) in Hp || change (payload_size_bytes h = 0) in Hp);
      rewrite Hp; cbn [Z.eqb Pos.eqb]; (erewrite bind_ok by (apply reads_read_bytes; [exact Hl | exact Hok])); done.
Qed.

Lemma receipt_item_ok r : receipt_ok r -> item_ok (receipt_item r).
Proof.
  intros (Hr & Hs & Hg & Hb & Hlg). unfold receipt_item. apply item_ok_cons.
  { destruct (rc_state_root r); [by destruct Hr |]. destruct (rc_status r); [apply item_ok_bool | constructor]. }
  apply item_ok_cons; [apply item_ok_uint |]. apply item_ok_cons; [by destruct Hb |].
  apply item_ok_cons; [| done]. apply (codec_octets (Codec := list_codec)). exact Hlg.
Qed.

#[export] Instance receipt_codec :
  ByteCodec encode_receipt decode_receipt receipt_item receipt_ok receipt_norm.
Proof.
  split; [intros r Hr Hl | intros r Hr Hl | apply receipt_item_ok].
  - pose proof Hr as (_ & Hs & Hg & _). apply run_encoder_appends; [| done].
    apply appends_list_items. rewrite rlps_cons. apply appends_bind; [| appends_fields].
    destruct (rc_state_root r) as [root|]; [apply appends_put_bytes |].
    destruct (rc_status r) as [st|]; [| by destruct Hs].
    apply appends_checked, appends_add_integral; [by left |]. apply fits_small; [lia |].
    destruct st; lia.
  - unfold decode_receipt. rewrite <- (app_nil_r (rlp (receipt_item r))).
    enough (reads decode_receipt_from_decoder (rlp (receipt_item r)) (receipt_norm r)) as Hd.
    { rewrite (Hd Hl []); [done |]. rewrite app_nil_r.
      apply rlp_ok; [by apply receipt_item_ok | done]. }
    pose proof (reads_status r Hr) as Hst. destruct Hr as (_ & _ & Hg & Hb & Hlg).
    apply reads_items. rewrite rlps_cons. eapply reads_bind; [exact Hst |]. reads_fields.
Qed.

(** ** Block headers *)

Lemma header_item_ok h : header_ok h -> item_ok (header_item h).
Proof.
  intros (? & ? & ? & ? & ? & ? & ? & ? & ? & ? & ? & ? & ? & ? & ? & ?).
  unfold header_item, base_fee_items. destruct (bh_base_fee_per_gas h); cbn [app];
    unfold hash_ok, address_ok in *; eauto 40 with octets.
Qed.

Lemma get_base_fee_ok o : optional (fits 32) o -> len (rlps (base_fee_items o)) < 2 ^ 64 ->
  bytes_ok (rlps (base_fee_items o)) ->
  get_base_fee (rlps (base_fee_items o)) = (Ok o, []).
Proof.
  intros Ho Hl Hok. unfold get_base_fee, IsFinished. erewrite bind_ok by done.
  destruct o as [f|]; [| done]. cbn [base_fee_items] in *. rewrite rlps_cons in *.
  change (rlps []) with (@nil Z) in *.
  pose proof (rlp_nonempty (uint_item f)).
  assert (empty (rlp (uint_item f) ++ []) = false) as -> by (destruct (rlp (uint_item f)); [len_lia | done]).
  cbn [negb]. by erewrite bind_ok by (apply reads_get_uint256; [done | len_lia | done]).
Qed.

(** Reading a list that ends the view, by its fields and what follows them. *)
Definition reads_all {A} (m : DecM A) (bs : bytes) (a : A) : Prop :=
  len bs < 2 ^ 64 -> bytes_ok bs -> m bs = (Ok a, []).

Lemma reads_all_bind {A B} (m : DecM A) (k : A -> DecM B) b1 b2 a b :
  reads m b1 a -> reads_all (k a) b2 b -> reads_all (m ≫= k) (b1 ++ b2) b.
Proof.
  intros H1 H2 Hl Hok. rewrite (bind_ok _ _ _ _ _ (H1 ltac:(len_lia) _ Hok)).
  apply H2; [len_lia |]. by apply bytes_ok_app in Hok as [_ ?].
Qed.

Lemma reads_all_items {A} (k : Z -> DecM A) l a :
  reads_all (k (len (rlps l))) (rlps l) a -> reads_all (ReadListHeaderBytes ≫= k) (rlp (Lst l)) a.
Proof.
  intros Hk Hl Hok. pose proof (decode_header_rlp (Lst l) [] Hl) as Hh.
  rewrite !app_nil_r in Hh. erewrite bind_ok by (by apply (ReadListHeaderBytes_ok _ _ _ Hh)).
  pose proof (len_payload_le (Lst l)) as Hle. cbn [item_payload] in Hle. apply Hk; [lia |].
  change (rlp (Lst l)) with (length_prefix true (len (rlps l)) ++ rlps l) in Hok.
  by apply bytes_ok_app in Hok as [_ ?].
Qed.

Lemma reads_all_header h :
  header_ok h -> reads_all decode_block_header_from_decoder (rlp (header_item h)) h.
Proof.
  intros (? & ? & ? & ? & ? & ? & ? & ? & ? & ? & ? & ? & ? & ? & ? & Hf).
  destruct h as [? ? ? ? ? ? ? ? ? ? ? ? ? ? ? fee]. unfold header_item.
  cbn [bh_parent_hash bh_ommers_hash bh_beneficiary bh_state_root bh_transactions_root bh_receipts_root
       bh_logs_bloom bh_difficulty bh_number bh_gas_limit bh_gas_used bh_timestamp bh_extra_data
       bh_mix_hash bh_nonce bh_base_fee_per_gas app] in *.
  apply reads_all_items. rewrite ?rlps_cons.
  repeat (eapply reads_all_bind; [solve [eauto with reads] | cbv beta]).
  intros Hl Hok. by erewrite bind_ok by (by apply get_base_fee_ok).
Qed.

#[export] Instance header_codec :
  ByteCodec encode_block_header decode_block_header header_item header_ok id.
Proof.
  split; [intros h Hh Hl | intros h Hh Hl | apply header_item_ok].
  - pose proof Hh as (? & ? & ? & ? & ? & ? & ? & ? & ? & ? & ? & ? & ? & ? & ? & Hf).
    apply run_encoder_appends; [| done]. apply appends_list_items. cbn [app]. rewrite ?rlps_cons.
    repeat (apply appends_bind; [solve [eauto with appends] |]).
    destruct (bh_base_fee_per_gas h); cbn [base_fee_items]; [| apply appends_ret].
    rewrite rlps_cons. apply appends_last. by apply appends_put_uint256.
  - unfold decode_block_header. rewrite (reads_all_header h Hh Hl); [done |].
    apply rlp_ok; [by apply header_item_ok | done].
Qed.

(** receipts and block headers survive the wire. A receipt with a state root or a status,
    and a header with or without a base fee, are encoded as the lists of their fields, and
    decoding these octets gives them back (a receipt's state root hides its status). *)
Theorem receipt_header_roundtrip r h :
  receipt_ok r -> len (rlp (receipt_item r)) < 2 ^ 64 ->
  header_ok h -> len (rlp (header_item h)) < 2 ^ 64 ->
  obind (encode_receipt r) (fun bs => Ok (decode_receipt bs)) = Ok (Ok (receipt_norm r))
  /\ obind (encode_block_header h) (fun bs => Ok (decode_block_header bs)) = Ok (Ok h).
Proof.
  intros Hr Hlr Hh Hlh. pose proof (byte_encodes (ByteCodec := receipt_codec) r Hr Hlr) as ->.
  pose proof (byte_encodes (ByteCodec := header_codec) h Hh Hlh) as ->. cbn [obind].
  pose proof (byte_decodes (ByteCodec := receipt_codec) r Hr Hlr) as ->.
  by pose proof (byte_decodes (ByteCodec := header_codec) h Hh Hlh) as ->.
Qed.

Definition sample_log : LogEntry :=
  {| log_address := repeat 0x11 20; log_topics := [repeat 0x22 32]; log_data := [0x01; 0x02] |}.

Definition sample_receipt : Receipt :=
  {| rc_state_root := None; rc_status := Some true; rc_cumulative_gas_used := 21000;
     rc_bloom := repeat 0 256; rc_logs := [sample_log] |}.

Definition sample_header : BlockHeader :=
  {| bh_parent_hash := repeat 1 32; bh_ommers_hash := repeat 2 32; bh_beneficiary := repeat 3 20;
     bh_state_root := repeat 4 32; bh_transactions_root := repeat 5 32;
     bh_receipts_root := repeat 6 32; bh_logs_bloom := repeat 0 256; bh_difficulty := 2 ^ 70;
     bh_number := 100; bh_gas_limit := 30000000; bh_gas_used := 0; bh_timestamp := 1700000000;
     bh_extra_data := [0x67]; bh_mix_hash := repeat 7 32; bh_nonce := repeat 8 8;
     bh_base_fee_per_gas := Some 7 |}.

Lemma sample_receipt_ok : receipt_ok sample_receipt.
Proof.
  repeat split; try (apply (bool_decide_unpack _); vm_compute; exact I).
Qed.

Lemma sample_header_ok : header_ok sample_header.
Proof.
  unfold header_ok, hash_ok, address_ok, fits. apply (bool_decide_unpack _). vm_compute. exact I.
Qed.

Lemma receipt_header_roundtrip_witness :
  obind (encode_receipt sample_receipt) (fun bs => Ok (decode_receipt bs)) = Ok (Ok sample_receipt)
  /\ obind (encode_block_header sample_header) (fun bs => Ok (decode_block_header bs))
     = Ok (Ok sample_header).
Proof.
  apply (receipt_header_roundtrip sample_receipt sample_header);
    [apply sample_receipt_ok | reflexivity | apply sample_header_ok | reflexivity].
Defined.

(** ** Canonicity of the nested objects *)

(** [m] accepts only encodings [f a] of values that satisfy [P]. *)
Definition accepts {A} (m : DecM A) (f : A -> bytes) (P : A -> Prop) : Prop :=
  forall v a v', bytes_ok v -> m v = (Ok a, v') -> v = f a ++ v' /\ P a.

Lemma accepts_get_array n k : Z.of_nat n = k -> accepts (get_array k) (fun s => rlp (Str s)) (is_array n).
Proof.
  intros <- v s v' Hv H. apply or_else_ok in H. pose proof (read_fixed_only _ v s v' Hv H) as E.
  split; [exact E |]. apply read_fixed_inv in H as (h & w & Hh & _ & Hn & Hs & _); [| done].
  pose proof (payload_len v w h Hv Hh) as Hl. pose proof (payload_ok v w h Hv Hh) as Hp.
  rewrite <- Hs in *. split; [unfold len in Hl; lia | done].
Qed.

Lemma accepts_get_bytes : accepts get_bytes (fun s => rlp (Str s)) bytes_ok.
Proof.
  intros v s v' Hv H. apply or_else_ok in H. split; [by apply read_bytes_only |].
  apply read_bytes_inv in H as (h & w & Hh & _ & -> & _); [| done]. by apply (payload_ok v w h Hv Hh).
Qed.

Lemma read_while_fuel_forall {A} (elem : DecM A) f P target fuel : forall v xs v',
  accepts elem f P -> bytes_ok v -> read_while_fuel fuel target elem v = (Ok xs, v') -> Forall P xs.
Proof.
  induction fuel as [|fuel IH]; intros v xs v' Ha Hv H; [done |].
  cbn [read_while_fuel] in H. erewrite bind_ok in H by done.
  destruct (target <? len v); [| injection H as <- <-; constructor].
  apply bind_inv in H as (x & w & Hx & H). apply bind_inv in H as (ys & ? & Hys & H).
  injection H as <- <-. destruct (Ha _ _ _ Hv Hx) as [-> HP]. apply bytes_ok_app in Hv as [_ Hw].
  constructor; [done | by eapply IH].
Qed.

Lemma accepts_list {A} (elem : DecM A) f P : accepts elem f P ->
  accepts (read_list_of elem) (fun xs => rlp_list (concat (map f xs))) (Forall P).
Proof.
  intros Ha v xs v' Hv H. split.
  - apply (read_list_of_only elem f); [intros u a u' Hu Hm; by apply (Ha u a u') | done | done].
  - unfold read_list_of in H. apply bind_inv in H as (n & w & Hn & H).
    apply ReadListHeaderBytes_only in Hn; [| done]. subst v. apply bytes_ok_app in Hv as [_ Hw].
    apply bind_inv in H as (t & w1 & Hlt & H). unfold list_target in Hlt. injection Hlt as <- <-.
    apply bind_inv in H as (ys & w2 & Hys & H). apply bind_inv in H as ([] & w3 & _ & H).
    injection H as <- <-. by eapply read_while_fuel_forall.
Qed.

(** The shape of the decoders that check where their list ends. *)
Lemma accepts_target {A} (m : Z -> DecM A) f P :
  (forall t v a v', bytes_ok v -> m t v = (Ok a, v') -> v = f a ++ v' /\ P a /\ len v' = t) ->
  accepts (payload ← ReadListHeaderBytes; target ← list_target payload; m target)
    (fun a => rlp_list (f a)) P.
Proof.
  intros Hm v a v' Hv H. apply bind_inv in H as (n & w & Hn & H).
  pose proof (ReadListHeaderBytes_bound v n w Hv Hn).
  apply ReadListHeaderBytes_only in Hn; [| done]. subst v. apply bytes_ok_app in Hv as [_ Hw].
  apply bind_inv in H as (t & w1 & Hlt & H). unfold list_target in Hlt. injection Hlt as <- <-.
  destruct (Hm _ _ _ _ Hw H) as (E & HP & Ht). split; [| done].
  assert (n = len (f a)) as -> by (rewrite E in Ht; len_lia).
  unfold rlp_list. by rewrite <- app_assoc, <- E.
Qed.

(** One field of such a decoder, and its end. *)
Ltac accept_field H Hv lem E HP :=
  let w := fresh "w" in let G := fresh in
  apply bind_inv in H as (? & w & G & H);
  destruct (lem _ _ _ Hv G) as [E HP]; clear G;
  match type of E with ?v = _ => subst v end;
  apply bytes_ok_app in Hv as [_ Hv].

Lemma check_target_inv {A} t (a b : A) v v' :
  (check_target t ;; mret a) v = (Ok b, v') -> b = a /\ v' = v /\ len v = t.
Proof.
  unfold check_target. unfold_m. destruct (Z.eqb_spec (len v) t); cbn; [| done].
  by intros [= <- <-].
Qed.

Lemma accepts_log :
  accepts decode_log_entry_from_decoder (fun e => rlp (log_item e)) log_ok.
Proof.
  apply (accepts_target _ (fun e => rlps [Str (log_address e); Lst (map Str (log_topics e)); Str (log_data e)])).
  intros t v e v' Hv H.
  accept_field H Hv (accepts_get_array 20 20 eq_refl) E1 H1.
  accept_field H Hv (accepts_list get_hash (fun s => rlp (Str s)) hash_ok (accepts_get_array 32 32 eq_refl)) E2 H2.
  accept_field H Hv accepts_get_bytes E3 H3.
  apply check_target_inv in H as (-> & -> & Ht). rewrite !rlps_cons. change (rlps []) with (@nil Z).
  cbn [log_address log_topics log_data]. split; [| done]. rewrite app_nil_r, <- !app_assoc.
  cbn [rlp]. by rewrite map_map.
Qed.

Lemma accepts_access :
  accepts decode_access_list_entry_from_decoder (fun e => rlp (access_item e)) access_ok.
Proof.
  apply (accepts_target _ (fun e => rlps [Str (ale_address e); Lst (map Str (ale_storage_keys e))])).
  intros t v e v' Hv H.
  accept_field H Hv (accepts_get_array 20 20 eq_refl) E1 H1.
  accept_field H Hv (accepts_list get_hash (fun s => rlp (Str s)) hash_ok (accepts_get_array 32 32 eq_refl)) E2 H2.
  apply check_target_inv in H as (-> & -> & Ht). rewrite !rlps_cons. change (rlps []) with (@nil Z).
  cbn [ale_address ale_storage_keys]. split; [| done]. rewrite app_nil_r, <- !app_assoc.
  cbn [rlp]. by rewrite map_map.
Qed.

(** log entries and access lists have one encoding each. The decoders succeed exactly on
    the encodings of well-formed values followed by anything, with every nested list ending
    where its header says; and encoding what was decoded gives the octets back. *)
Theorem nested_objects_canonical v rest :
  bytes_ok v -> len v < 2 ^ 64 ->
  (forall e, decode_log_entry_from_decoder v = (Ok e, rest)
     <-> log_ok e /\ v = rlp (log_item e) ++ rest)
  /\ (forall e, decode_log_entry_from_decoder v = (Ok e, rest) ->
       exists bs, encode_log_entry e = Ok bs /\ v = bs ++ rest)
  /\ (forall l, decode_access_list v = (Ok l, rest)
     <-> Forall access_ok l /\ v = rlp (Lst (map access_item l)) ++ rest).
Proof.
  intros Hv Hl. split; [| split].
  - intros e. split; [by intros [-> ?]%accepts_log |]. intros [He ->].
    apply reads_log; [done | len_lia | done].
  - intros e [-> He]%accepts_log; [| done]. exists (rlp (log_item e)). split; [| done].
    apply run_encoder_appends; [apply appends_log | len_lia].
  - intros l. split.
    + intros H. apply (accepts_list _ _ _ accepts_access) in H as [-> HP]; [| done].
      split; [done |]. cbn [rlp]. by rewrite map_map.
    + intros [Hal ->]. apply reads_access_list; [done | len_lia | done].
Qed.

Lemma sample_log_ok : log_ok sample_log.
Proof. unfold log_ok, address_ok, hash_ok. apply (bool_decide_unpack _). vm_compute. exact I. Qed.

Lemma nested_objects_canonical_witness :
  decode_log_entry_from_decoder (rlp (log_item sample_log) ++ [0xff]) = (Ok sample_log, [0xff]).
Proof.
  apply (nested_objects_canonical (rlp (log_item sample_log) ++ [0xff]) [0xff]);
    [octets | reflexivity | split; [apply sample_log_ok | reflexivity]].
Defined.

(** ** Termination *)

Lemma consuming_get_array n : consuming (get_array n).
Proof. unfold get_array. auto with total. Qed.
Lemma consuming_get_hash : consuming get_hash.
Proof. apply consuming_get_array. Qed.
Lemma total_get_uint64 : total get_uint64.
Proof. unfold get_uint64. auto with total. Qed.
Lemma total_get_uint256 : total get_uint256.
Proof. unfold get_uint256. auto with total. Qed.
Lemma total_get_bytes : total get_bytes.
Proof. unfold get_bytes. auto with total. Qed.

#[export] Hint Extern 1 (consuming (get_array _)) => simple apply consuming_get_array : total.
#[export] Hint Extern 1 (consuming get_hash) => simple apply consuming_get_hash : total.
#[export] Hint Extern 1 (total get_uint64) => simple apply total_get_uint64 : total.
#[export] Hint Extern 1 (total get_uint256) => simple apply total_get_uint256 : total.
#[export] Hint Extern 1 (total get_bytes) => simple apply total_get_bytes : total.

Lemma consuming_log : consuming decode_log_entry_from_decoder.
Proof. apply consuming_bind; [auto with total | total_tac]. Qed.
Lemma consuming_access : consuming decode_access_list_entry_from_decoder.
Proof. apply consuming_bind; [auto with total | total_tac]. Qed.

#[export] Hint Extern 1 (consuming decode_log_entry_from_decoder) => simple apply consuming_log : total.
#[export] Hint Extern 1 (consuming decode_access_list_entry_from_decoder) => simple apply consuming_access : total.

Lemma total_get_to : total get_to.
Proof. unfold get_to. total_tac. Qed.
Lemma total_access_list : total decode_access_list.
Proof. unfold decode_access_list. auto with total. Qed.
Lemma total_status : total decode_status_or_state_root.
Proof. unfold decode_status_or_state_root. total_tac. Qed.
Lemma total_get_base_fee : total get_base_fee.
Proof. unfold get_base_fee. total_tac. Qed.

#[export] Hint Extern 1 (total get_to) => simple apply total_get_to : total.
#[export] Hint Extern 1 (total decode_access_list) => simple apply total_access_list : total.
#[export] Hint Extern 1 (total decode_status_or_state_root) => simple apply total_status : total.
#[export] Hint Extern 1 (total get_base_fee) => simple apply total_get_base_fee : total.

Lemma total_receipt : total decode_receipt_from_decoder.
Proof. unfold decode_receipt_from_decoder. total_tac. Qed.
Lemma total_header : total decode_block_header_from_decoder.
Proof. unfold decode_block_header_from_decoder. total_tac. Qed.
Lemma total_typed_transaction t : total (decode_typed_transaction t).
Proof. unfold decode_typed_transaction. total_tac. Qed.
Lemma total_legacy_transaction : total decode_legacy_transaction.
Proof. unfold decode_legacy_transaction. total_tac. Qed.

Lemma decode_transaction_total v : bytes_ok v -> decode_transaction v <> Diverged.
Proof.
  intros Hv. unfold decode_transaction. pose proof (bytes_ok_drop (Z.to_nat kTypedTxPrefixSize) v Hv).
  repeat case_match; try done; by apply total_typed_transaction || by apply total_legacy_transaction.
Qed.

(** The object decoders return on every input: no octets, however malformed, send one of
    their loops on for ever. *)
Lemma object_decoders_total v :
  bytes_ok v ->
  decode_log_entry v <> Diverged /\ decode_access_list_entry v <> Diverged
  /\ decode_transaction v <> Diverged /\ decode_receipt v <> Diverged
  /\ decode_block_header v <> Diverged.
Proof.
  intros Hv. split; [by apply consuming_log |]. split; [by apply consuming_access |].
  split; [by apply decode_transaction_total |]. split; [by apply total_receipt | by apply total_header].
Qed.
