(* ===== verification/EthMessages.v ===== *)
(** * EthMessages: the payloads of the eth protocol

    [include/eth/eth_types.hpp], [include/eth/messages.hpp], [src/eth/messages.cpp]. Built on
    the objects through the [Codec] and [ByteCodec] interfaces. *)
From S2P Require Export EthObjects.

(** ** Data *)

Record ForkId := mkForkId { fork_hash : bytes; next_fork : Z }.

Record StatusMessage68 := mkStatus68 {
  s68_protocol_version : Z;
  s68_network_id : Z;
  s68_td : Z;
  s68_blockhash : hash256;
  s68_genesis_hash : hash256;
  s68_fork_id : ForkId
}.

Record StatusMessage69 := mkStatus69 {
  s69_protocol_version : Z;
  s69_network_id : Z;
  s69_genesis_hash : hash256;
  s69_fork_id : ForkId;
  s69_earliest_block : Z;
  s69_latest_block : Z;
  s69_latest_block_hash : hash256
}.

Record CommonStatusFields := mkCommon {
  c_protocol_version : Z;
  c_network_id : Z;
  c_genesis_hash : hash256;
  c_fork_id : ForkId
}.

(** [std::variant<StatusMessage68, StatusMessage69>]. *)
Inductive StatusMessage := Status68 (m : StatusMessage68) | Status69 (m : StatusMessage69).

Inductive StatusValidationError :=
| kProtocolVersionMismatch | kNetworkIDMismatch | kGenesisMismatch | kInvalidBlockRange.

Definition kEthProtocolVersion66 : Z := 66.
Definition kEthProtocolVersion67 : Z := 67.
Definition kEthProtocolVersion68 : Z := 68.
Definition kEthProtocolVersion69 : Z := 69.

Record NewBlockHashEntry := mkNewBlockHashEntry { nbh_hash : hash256; nbh_number : Z }.

Record GetBlockHeadersMessage := mkGetBlockHeaders {
  gbh_request_id : option Z;
  start_hash : option hash256;
  start_number : option Z;
  max_headers : Z;
  skip : Z;
  reverse : bool
}.

Record BlockBody := mkBlockBody { transactions : list Transaction; ommers : list BlockHeader }.

Record NewBlockMessage := mkNewBlock {
  nb_header : BlockHeader;
  nb_transactions : list Transaction;
  nb_ommers : list BlockHeader;
  nb_total_difficulty : Z
}.

(** The messages of a request id and a payload: [GetReceiptsMessage],
    [GetPooledTransactionsMessage] and [GetBlockBodiesMessage] (hashes), [BlockHeadersMessage],
    [ReceiptsMessage], [PooledTransactionsMessage], [BlockBodiesMessage]. *)
Record WithId (A : Type) := mkWithId { request_id : option Z; payload : A }.
Arguments mkWithId {A}.
Arguments request_id {A}.
Arguments payload {A}.

#[export] Instance ForkId_eq_dec : EqDecision ForkId.
Proof. solve_decision. Defined.
#[export] Instance StatusMessage68_eq_dec : EqDecision StatusMessage68.
Proof. solve_decision. Defined.
#[export] Instance StatusMessage69_eq_dec : EqDecision StatusMessage69.
Proof. solve_decision. Defined.
#[export] Instance StatusMessage_eq_dec : EqDecision StatusMessage.
Proof. solve_decision. Defined.

(** ** Helpers *)

(** [encode_get_block_headers_payload]. *)
Definition encode_get_block_headers_payload (msg : GetBlockHeadersMessage) : EncM unit :=
  match start_hash msg, start_number msg with
  | Some _, Some _ => throw EncodingError.kEmptyInput
  | _, _ =>
      in_list (
        match start_hash msg, start_number msg with
        | Some hash, _ => put_bytes hash
        | None, Some number => put_uint64 number
        | None, None => mret tt
        end ;;
        put_uint64 (max_headers msg) ;;
        put_uint64 (skip msg) ;;
        checked (add_bool (reverse msg)))
  end.

Definition get_bool : DecM bool := or_else read_bool DecodingError.kUnexpectedString.

(** The start of a header request: 32 octets are a hash, anything else is a number. *)
Definition get_start : DecM (option hash256 * option Z) :=
  header ← PeekHeader;
  fail_if (is_list header) DecodingError.kUnexpectedList ;;
  if payload_size_bytes header =? 32
  then hash ← get_hash; mret (Some hash, None)
  else number ← get_uint64; mret (None, Some number).

(** [decode_get_block_headers_payload]: the fields it sets. *)
Definition decode_get_block_headers_payload (id : option Z) : DecM GetBlockHeadersMessage :=
  start ← get_start;
  max_headers ← get_uint64;
  skip ← get_uint64;
  reverse ← get_bool;
  mret {| gbh_request_id := id; start_hash := fst start; start_number := snd start;
          max_headers := max_headers; skip := skip; reverse := reverse |}.

Definition encode_hash_list (hashes : list hash256) : EncM unit :=
  in_list (for_each hashes put_bytes).

Definition decode_hash_list : DecM (list hash256) := read_list_of get_hash.

(** [consume_next_item]: the octets of the next item, header included. *)
Definition consume_next_item : DecM ByteView :=
  before ← get_state;
  fail_if (empty before) DecodingError.kInputTooShort ;;
  SkipItem ;;
  after ← get_state;
  mret (take (Z.to_nat (len before - len after)) before).

(** [consume_eth66_request_id]: probes a copy of the decoder, and reads the id only when a list
    follows it; never an error. *)
Definition consume_eth66_request_id : DecM (option Z) := fun v =>
  match read_integral 8 v with
  | (Ok _, probe) =>
      match PeekHeader probe with
      | (Ok next_header, _) =>
          if is_list next_header then
            match read_integral 8 v with
            | (Ok candidate_request_id, v') => (Ok (Some candidate_request_id), v')
            | (_, v') => (Ok None, v')
            end
          else (Ok None, v)
      | _ => (Ok None, v)
      end
  | _ => (Ok None, v)
  end.

(** [encoder.AddRaw] of an object encoded by itself, and its error. *)
Definition put_raw (encoded : EncodeResult) : EncM unit :=
  bs ← lift encoded; checked (AddRaw bs).

(** The next item decoded as an object of its own. *)
Definition get_raw {A} (decode : ByteView -> DecodeResult A) : DecM A :=
  item_view ← consume_next_item; lift (decode item_view).

Definition encode_block_headers_payload (headers : list BlockHeader) : EncM unit :=
  in_list (for_each headers (fun header => put_raw (encode_block_header header))).

Definition decode_block_headers_payload : DecM (list BlockHeader) :=
  read_list_of (get_raw decode_block_header).

Definition encode_receipts_payload (receipts : list (list Receipt)) : EncM unit :=
  in_list (for_each receipts (fun block_receipts =>
    in_list (for_each block_receipts (fun receipt => put_raw (encode_receipt receipt))))).

Definition decode_receipts_payload : DecM (list (list Receipt)) :=
  read_list_of (read_list_of (get_raw decode_receipt)).

Definition encode_pooled_transactions_payload (encoded_transactions : list bytes) : EncM unit :=
  in_list (for_each encoded_transactions (fun encoded_tx => checked (AddRaw encoded_tx))).

Definition decode_pooled_transactions_payload : DecM (list bytes) := read_list_of consume_next_item.

(** One element of [encode_transaction_list]: a legacy transaction is a list of its own, a
    typed one is wrapped in a string. *)
Definition put_transaction (tx : Transaction) : EncM unit :=
  encoded ← lift (encode_transaction tx);
  if tx_type tx =? kLegacy then checked (AddRaw encoded) else checked (add_bytes encoded).

Definition encode_transaction_list (txs : list Transaction) : EncM unit :=
  in_list (for_each txs put_transaction).

(** One element of [decode_transaction_list]; its test on the first octet of the string has
    two equal branches. *)
Definition get_transaction : DecM Transaction :=
  next_header ← PeekHeader;
  if negb (is_list next_header) && (0 <? payload_size_bytes next_header)
  then raw_bytes ← get_bytes; lift (decode_transaction raw_bytes)
  else get_raw decode_transaction.

Definition decode_transaction_list : DecM (list Transaction) := read_list_of get_transaction.

Definition encode_block_body (body : BlockBody) : EncM unit :=
  in_list (encode_transaction_list (transactions body) ;; encode_block_headers_payload (ommers body)).

Definition decode_block_body : DecM BlockBody :=
  payload ← ReadListHeaderBytes;
  target ← list_target payload;
  transactions ← decode_transaction_list;
  ommers ← decode_block_headers_payload;
  check_target target ;;
  mret {| transactions := transactions; ommers := ommers |}.

(** ** Status *)

Definition get_common_fields (msg : StatusMessage) : CommonStatusFields :=
  match msg with
  | Status68 m => mkCommon (s68_protocol_version m) (s68_network_id m) (s68_genesis_hash m) (s68_fork_id m)
  | Status69 m => mkCommon (s69_protocol_version m) (s69_network_id m) (s69_genesis_hash m) (s69_fork_id m)
  end.

Definition put_uint8 (n : Z) : EncM unit := checked (add_integral 1 n).

(** The nested list of the fork id. *)
Definition put_fork_id (f : ForkId) : EncM unit :=
  in_list (put_bytes (fork_hash f) ;; put_uint64 (next_fork f)).

(** [encode_status]: the generic visitor at its two types. *)
Definition encode_status (msg : StatusMessage) : EncodeResult :=
  run_encoder (
    match msg with
    | Status68 m =>
        in_list (
          put_uint8 (s68_protocol_version m) ;; put_uint64 (s68_network_id m) ;;
          put_uint256 (s68_td m) ;; put_bytes (s68_blockhash m) ;;
          put_bytes (s68_genesis_hash m) ;; put_fork_id (s68_fork_id m))
    | Status69 m =>
        in_list (
          put_uint8 (s69_protocol_version m) ;; put_uint64 (s69_network_id m) ;;
          put_bytes (s69_genesis_hash m) ;; put_fork_id (s69_fork_id m) ;;
          put_uint64 (s69_earliest_block m) ;; put_uint64 (s69_latest_block m) ;;
          put_bytes (s69_latest_block_hash m))
    end ;;
    finalize_encoding).

Definition get_uint8 : DecM Z := or_else (read_integral 1) DecodingError.kUnexpectedString.

(** The fork id; where its list ends is not checked. *)
Definition get_fork_id : DecM ForkId :=
  ReadListHeaderBytes ;;
  fork_hash ← get_array 4;
  next_fork ← get_uint64;
  mret {| fork_hash := fork_hash; next_fork := next_fork |}.

Definition decode_status_from_decoder : DecM StatusMessage :=
  ReadListHeaderBytes ;;
  protocol_version ← get_uint8;
  network_id ← get_uint64;
  if protocol_version =? kEthProtocolVersion69 then
    genesis_hash ← get_hash;
    fork_id ← get_fork_id;
    earliest_block ← get_uint64;
    latest_block ← get_uint64;
    latest_block_hash ← get_hash;
    mret (Status69 {| s69_protocol_version := protocol_version; s69_network_id := network_id;
                      s69_genesis_hash := genesis_hash; s69_fork_id := fork_id;
                      s69_earliest_block := earliest_block; s69_latest_block := latest_block;
                      s69_latest_block_hash := latest_block_hash |})
  else if (protocol_version =? kEthProtocolVersion68) || (protocol_version =? kEthProtocolVersion67)
          || (protocol_version =? kEthProtocolVersion66) then
    td ← get_uint256;
    blockhash ← get_hash;
    genesis_hash ← get_hash;
    fork_id ← get_fork_id;
    mret (Status68 {| s68_protocol_version := protocol_version; s68_network_id := network_id;
                      s68_td := td; s68_blockhash := blockhash;
                      s68_genesis_hash := genesis_hash; s68_fork_id := fork_id |})
  else throw DecodingError.kUnexpectedString.

Definition decode_status (rlp_data : ByteView) : DecodeResult StatusMessage :=
  fst (decode_status_from_decoder rlp_data).

(** [validate_status]; [kProtocolVersionMismatch] is never returned. *)
Definition validate_status (msg : StatusMessage) (expected_network_id : Z)
    (expected_genesis : hash256) : outcome StatusValidationError unit :=
  let common := get_common_fields msg in
  if negb (c_network_id common =? expected_network_id) then Err kNetworkIDMismatch
  else if bool_decide (c_genesis_hash common <> expected_genesis) then Err kGenesisMismatch
  else match msg with
       | Status69 m =>
           if negb (s69_latest_block m =? 0) && (s69_latest_block m <? s69_earliest_block m)
           then Err kInvalidBlockRange else Ok tt
       | Status68 _ => Ok tt
       end.

(** ** Announcements *)

(** [while (!decoder.IsFinished()) { xs.push_back(elem) }], with fuel; every element consumes
    an octet. *)
Fixpoint read_all_fuel {A} (fuel : nat) (elem : DecM A) : DecM (list A) :=
  match fuel with
  | O => lift Diverged
  | S fuel =>
      finished ← IsFinished;
      if negb finished then x ← elem; xs ← read_all_fuel fuel elem; mret (x :: xs) else mret []
  end.

Definition read_all {A} (elem : DecM A) : DecM (list A) := fun v =>
  read_all_fuel (S (length v)) elem v.

Definition put_new_block_hash (entry : NewBlockHashEntry) : EncM unit :=
  in_list (put_bytes (nbh_hash entry) ;; put_uint64 (nbh_number entry)).

Definition get_new_block_hash : DecM NewBlockHashEntry :=
  ReadListHeaderBytes ;;
  hash ← get_hash;
  number ← get_uint64;
  mret {| nbh_hash := hash; nbh_number := number |}.

Definition encode_new_block_hashes (entries : list NewBlockHashEntry) : EncodeResult :=
  run_encoder (in_list (for_each entries put_new_block_hash) ;; finalize_encoding).

Definition decode_new_block_hashes (rlp_data : ByteView) : DecodeResult (list NewBlockHashEntry) :=
  fst ((ReadListHeaderBytes ;; read_all get_new_block_hash) rlp_data).

Definition encode_new_pooled_tx_hashes (hashes : list hash256) : EncodeResult :=
  run_encoder (in_list (for_each hashes put_bytes) ;; finalize_encoding).

Definition decode_new_pooled_tx_hashes (rlp_data : ByteView) : DecodeResult (list hash256) :=
  fst ((ReadListHeaderBytes ;; read_all get_hash) rlp_data).

(** ** Requests and responses *)

(** The two forms of every request and response: [[request_id, payload]] with an id, the bare
    payload without. *)
Definition put_with_id (id : option Z) (payload : EncM unit) : EncM unit :=
  match id with
  | Some id => in_list (put_uint64 id ;; payload)
  | None => payload
  end.

(** [if (!decoder.IsFinished()) return kInputTooLong;]. *)
Definition check_finished : DecM unit :=
  finished ← IsFinished; fail_if (negb finished) DecodingError.kInputTooLong.

(** Their decoders: the outer list, the id if there is one, the payload, and no more. *)
Definition get_with_id {A} (payload : DecM A) : DecM (WithId A) :=
  ReadListHeaderBytes ;;
  request_id ← consume_eth66_request_id;
  payload ← payload;
  check_finished ;;
  mret (mkWithId request_id payload).

Definition encode_get_block_headers (msg : GetBlockHeadersMessage) : EncodeResult :=
  run_encoder (put_with_id (gbh_request_id msg) (encode_get_block_headers_payload msg) ;;
               finalize_encoding).

Definition decode_get_block_headers_from_decoder : DecM GetBlockHeadersMessage :=
  ReadListHeaderBytes ;;
  request_id ← consume_eth66_request_id;
  match request_id with
  | Some _ => _ ← ReadListHeaderBytes; mret tt
  | None => mret tt
  end ;;
  msg ← decode_get_block_headers_payload request_id;
  check_finished ;;
  mret msg.

Definition decode_get_block_headers (rlp_data : ByteView) : DecodeResult GetBlockHeadersMessage :=
  fst (decode_get_block_headers_from_decoder rlp_data).

Definition encode_block_headers (msg : WithId (list BlockHeader)) : EncodeResult :=
  run_encoder (put_with_id (request_id msg) (encode_block_headers_payload (payload msg)) ;; finalize_encoding).
Definition decode_block_headers (rlp_data : ByteView) : DecodeResult (WithId (list BlockHeader)) :=
  fst (get_with_id decode_block_headers_payload rlp_data).

Definition encode_get_receipts (msg : WithId (list hash256)) : EncodeResult :=
  run_encoder (put_with_id (request_id msg) (encode_hash_list (payload msg)) ;; finalize_encoding).
Definition decode_get_receipts (rlp_data : ByteView) : DecodeResult (WithId (list hash256)) :=
  fst (get_with_id decode_hash_list rlp_data).

Definition encode_receipts (msg : WithId (list (list Receipt))) : EncodeResult :=
  run_encoder (put_with_id (request_id msg) (encode_receipts_payload (payload msg)) ;; finalize_encoding).
Definition decode_receipts (rlp_data : ByteView) : DecodeResult (WithId (list (list Receipt))) :=
  fst (get_with_id decode_receipts_payload rlp_data).

Definition encode_get_pooled_transactions (msg : WithId (list hash256)) : EncodeResult :=
  run_encoder (put_with_id (request_id msg) (encode_hash_list (payload msg)) ;; finalize_encoding).
Definition decode_get_pooled_transactions (rlp_data : ByteView) : DecodeResult (WithId (list hash256)) :=
  fst (get_with_id decode_hash_list rlp_data).

Definition encode_pooled_transactions (msg : WithId (list bytes)) : EncodeResult :=
  run_encoder (put_with_id (request_id msg) (encode_pooled_transactions_payload (payload msg)) ;;
               finalize_encoding).
Definition decode_pooled_transactions (rlp_data : ByteView) : DecodeResult (WithId (list bytes)) :=
  fst (get_with_id decode_pooled_transactions_payload rlp_data).

Definition encode_get_block_bodies (msg : WithId (list hash256)) : EncodeResult :=
  run_encoder (put_with_id (request_id msg) (encode_hash_list (payload msg)) ;; finalize_encoding).
Definition decode_get_block_bodies (rlp_data : ByteView) : DecodeResult (WithId (list hash256)) :=
  fst (get_with_id decode_hash_list rlp_data).

(** The lambda [encode_bodies] and the loop of [decode_block_bodies]. *)
Definition encode_bodies (bodies : list BlockBody) : EncM unit := in_list (for_each bodies encode_block_body).
Definition decode_bodies : DecM (list BlockBody) := read_list_of decode_block_body.

Definition encode_block_bodies (msg : WithId (list BlockBody)) : EncodeResult :=
  run_encoder (put_with_id (request_id msg) (encode_bodies (payload msg)) ;; finalize_encoding).
Definition decode_block_bodies (rlp_data : ByteView) : DecodeResult (WithId (list BlockBody)) :=
  fst (get_with_id decode_bodies rlp_data).

(** ** New blocks *)

Definition encode_new_block (msg : NewBlockMessage) : EncodeResult :=
  run_encoder (
    in_list (
      in_list (
        put_raw (encode_block_header (nb_header msg)) ;;
        encode_transaction_list (nb_transactions msg) ;;
        encode_block_headers_payload (nb_ommers msg)) ;;
      put_uint256 (nb_total_difficulty msg)) ;;
    finalize_encoding).

(** The outer list's end is not checked. *)
Definition decode_new_block_from_decoder : DecM NewBlockMessage :=
  ReadListHeaderBytes ;;
  inner_payload ← ReadListHeaderBytes;
  inner_target ← list_target inner_payload;
  header ← get_raw decode_block_header;
  transactions ← decode_transaction_list;
  ommers ← decode_block_headers_payload;
  check_target inner_target ;;
  total_difficulty ← get_uint256;
  mret {| nb_header := header; nb_transactions := transactions; nb_ommers := ommers;
          nb_total_difficulty := total_difficulty |}.

Definition decode_new_block (rlp_data : ByteView) : DecodeResult NewBlockMessage :=
  fst (decode_new_block_from_decoder rlp_data).

(** ** Objects inside messages *)

Lemma reads_consume_next_item it : reads consume_next_item (rlp it) (rlp it).
Proof.
  intros Hl rest Hok. unfold consume_next_item. erewrite bind_ok by done.
  pose proof (rlp_nonempty it).
  assert (empty (rlp it ++ rest) = false) as -> by (destruct (rlp it); [len_lia | done]).
  unfold fail_if. erewrite bind_ok by done. erewrite bind_ok by (by apply reads_SkipItem).
  erewrite bind_ok by done. rewrite len_app.
  replace (len (rlp it) + len rest - len rest) with (len (rlp it)) by lia.
  by rewrite take_len_app.
Qed.

Section raw.
Context {A : Type} {encode : A -> EncodeResult} {decode : ByteView -> DecodeResult A}
  {to_item : A -> item} {valid : A -> Prop} {norm : A -> A}.
Context `{HB : !ByteCodec encode decode to_item valid norm}.

(** An object embedded with [AddRaw] and decoded from the octets of its item. *)
#[export] Instance raw_codec :
  Codec (fun a => put_raw (encode a)) (get_raw decode) to_item valid norm.
Proof using HB.
  split; intros a Hv.
  - intros Hl st. unfold put_raw. rewrite (byte_encodes a Hv Hl).
    erewrite bind_ok by done. apply appends_checked; [| done]. apply appends_AddRaw.
    pose proof (rlp_nonempty (to_item a)). intros E. rewrite E in *. len_lia.
  - intros Hl rest Hok. unfold get_raw.
    erewrite bind_ok by (by apply reads_consume_next_item). unfold lift.
    by rewrite (byte_decodes a Hv Hl).
  - by apply byte_octets.
Qed.
End raw.

#[export] Instance headers_codec :
  Codec encode_block_headers_payload decode_block_headers_payload
    (fun hs => Lst (map header_item hs)) (Forall header_ok) (map id).
Proof. exact (list_codec (HC := raw_codec (HB := header_codec))). Qed.

#[export] Instance receipts_codec :
  Codec encode_receipts_payload decode_receipts_payload
    (fun rs => Lst (map (fun r => Lst (map receipt_item r)) rs)) (Forall (Forall receipt_ok))
    (map (map receipt_norm)).
Proof. exact (list_codec (HC := list_codec (HC := raw_codec (HB := receipt_codec)))). Qed.

#[export] Instance hash_codec : Codec put_bytes get_hash Str hash_ok id.
Proof. exact (array_codec 32 _ _). Qed.

#[export] Instance hash_list_codec :
  Codec encode_hash_list decode_hash_list (fun hs => Lst (map Str hs)) (Forall hash_ok) (map id).
Proof. exact (list_codec (HC := hash_codec)). Qed.

(** An encoded transaction of the pool: the octets of any item. *)
Definition raw_item (bs : bytes) : item :=
  match fst (decode_item (length bs) bs) with Ok it => it | _ => Str [] end.
Definition raw_ok (bs : bytes) : Prop := bytes_ok bs /\ rlp (raw_item bs) = bs.

#[export] Instance pooled_codec :
  Codec (fun tx => checked (AddRaw tx)) consume_next_item raw_item raw_ok id.
Proof.
  split; intros bs [Hok E].
  - rewrite E. apply appends_checked, appends_AddRaw. intros ->.
    pose proof (rlp_nonempty (raw_item [])) as H. rewrite E in H. done.
  - rewrite <- E at 2. apply reads_consume_next_item.
  - apply rlp_item_ok. by rewrite E.
Qed.

#[export] Instance pooled_list_codec :
  Codec encode_pooled_transactions_payload decode_pooled_transactions_payload
    (fun txs => Lst (map raw_item txs)) (Forall raw_ok) (map id).
Proof. exact (list_codec (HC := pooled_codec)). Qed.

(** A transaction inside a list. *)
Definition tx_item (tx : Transaction) : item :=
  if tx_type tx =? kLegacy then Lst (tx_fields tx) else Str (tx_octets tx).

Lemma tx_octets_le tx : len (tx_octets tx) <= len (rlp (tx_item tx)).
Proof.
  unfold tx_item. destruct (Z.eqb_spec (tx_type tx) kLegacy) as [E|].
  - unfold tx_octets. rewrite E. cbn [Z.eqb kLegacy app]. lia.
  - apply (len_payload_le (Str (tx_octets tx))).
Qed.

Lemma item_ok_optional o : optional address_ok o -> item_ok (Str (to_bytes o)).
Proof. destruct o as [a|]; [by intros [_ ?] | constructor]. Qed.

Lemma item_ok_access l : Forall access_ok l -> item_ok (Lst (map access_item l)).
Proof. exact (codec_octets (Codec := list_codec (HC := access_codec)) l). Qed.

Lemma tx_fields_ok tx : tx_ok tx -> item_ok (Lst (tx_fields tx)).
Proof.
  intros (Hty & ? & ? & ? & ? & ? & ? & ? & ? & ? & ? & ? & ? & ?). unfold tx_fields.
  pose proof (item_ok_optional (tx_to tx) ltac:(done)).
  pose proof (item_ok_access (tx_access_list tx) ltac:(done)).
  destruct (_ =? kLegacy); [| destruct (_ =? kAccessList)]; cbn [app]; eauto 40 with octets.
Qed.

Lemma tx_octets_ok tx : tx_ok tx -> len (tx_octets tx) < 2 ^ 64 -> bytes_ok (tx_octets tx).
Proof.
  intros Htx Hl. pose proof (tx_fields_ok tx Htx) as Hf. unfold tx_octets in *.
  apply bytes_ok_app. split; [| apply rlp_ok; [done | len_lia]].
  destruct Htx as ([-> | [-> | ->]] & _); cbn; [constructor | octets | octets].
Qed.

Lemma tx_item_ok tx : tx_ok tx -> len (tx_octets tx) < 2 ^ 64 -> item_ok (tx_item tx).
Proof.
  intros Htx Hl. unfold tx_item. destruct (_ =? _); [by apply tx_fields_ok | by apply tx_octets_ok].
Qed.

(** Valid inside a list: the octets can exist. *)
Definition tx_valid (tx : Transaction) : Prop := tx_ok tx /\ len (tx_octets tx) < 2 ^ 64.

#[export] Instance transaction_codec :
  Codec put_transaction get_transaction tx_item tx_valid tx_norm.
Proof.
  split; intros tx [Htx Ho].
  - intros Hl st. unfold put_transaction. rewrite encode_transaction_octets by done.
    erewrite bind_ok by done. revert Hl. unfold tx_item.
    destruct (Z.eqb_spec (tx_type tx) kLegacy) as [E|]; intros Hl.
    + assert (tx_octets tx = rlp (Lst (tx_fields tx))) as ->
        by (unfold tx_octets; by rewrite E).
      apply appends_checked; [| done]. apply appends_AddRaw. intros E'.
      pose proof (rlp_nonempty (Lst (tx_fields tx))) as H. rewrite E' in H. done.
    + by apply appends_put_bytes.
  - intros Hl rest Hok. destruct (PeekHeader_rlp _ rest Hl) as (h & Hh & Hil & Hp).
    unfold get_transaction. erewrite bind_ok by exact Hh. rewrite Hil, Hp.
    pose proof (decode_transaction_octets tx Htx [] Ho) as Hd. rewrite app_nil_r in Hd.
    specialize (Hd (tx_octets_ok tx Htx Ho)). revert Hl Hok. unfold tx_item.
    destruct (Z.eqb_spec (tx_type tx) kLegacy) as [E|]; intros Hl Hok; cbn [item_is_list item_payload negb andb].
    + unfold get_raw. erewrite bind_ok by (by apply reads_consume_next_item). unfold lift.
      assert (tx_octets tx = rlp (Lst (tx_fields tx))) as <-
        by (unfold tx_octets; by rewrite E). by rewrite Hd.
    + assert (0 < len (tx_octets tx)) as Hpos.
      { unfold tx_octets. pose proof (rlp_nonempty (Lst (tx_fields tx))). len_lia. }
      destruct (Z.ltb_spec 0 (len (tx_octets tx))); [| lia].
      erewrite bind_ok by (by apply reads_get_bytes). unfold lift. by rewrite Hd.
  - by apply tx_item_ok.
Qed.

#[export] Instance transaction_list_codec :
  Codec encode_transaction_list decode_transaction_list (fun txs => Lst (map tx_item txs))
    (Forall tx_valid) (map tx_norm).
Proof. exact (list_codec (HC := transaction_codec)). Qed.

Definition body_item (b : BlockBody) : item :=
  Lst [Lst (map tx_item (transactions b)); Lst (map header_item (ommers b))].
Definition body_ok (b : BlockBody) : Prop :=
  Forall tx_valid (transactions b) /\ Forall header_ok (ommers b).
Definition body_norm (b : BlockBody) : BlockBody :=
  {| transactions := map tx_norm (transactions b); ommers := ommers b |}.

Lemma appends_transaction_list txs : Forall tx_valid txs ->
  appends (encode_transaction_list txs) (rlp (Lst (map tx_item txs))).
Proof. apply (codec_appends (Codec := transaction_list_codec)). Qed.
Lemma appends_headers hs : Forall header_ok hs ->
  appends (encode_block_headers_payload hs) (rlp (Lst (map header_item hs))).
Proof. apply (codec_appends (Codec := headers_codec)). Qed.
Lemma reads_transaction_list txs : Forall tx_valid txs ->
  reads decode_transaction_list (rlp (Lst (map tx_item txs))) (map tx_norm txs).
Proof. apply (codec_reads (Codec := transaction_list_codec)). Qed.
Lemma reads_headers hs : Forall header_ok hs ->
  reads decode_block_headers_payload (rlp (Lst (map header_item hs))) hs.
Proof.
  intros H. pose proof (codec_reads (Codec := headers_codec) hs H) as Hr. by rewrite map_id in Hr.
Qed.

#[export] Hint Resolve appends_transaction_list appends_headers : appends.
#[export] Hint Extern 1 (reads decode_transaction_list _ _) =>
  simple eapply reads_transaction_list : reads.
#[export] Hint Extern 1 (reads decode_block_headers_payload _ _) => simple eapply reads_headers : reads.

#[export] Instance body_codec :
  Codec encode_block_body decode_block_body body_item body_ok body_norm.
Proof.
  split; intros b [Ht Ho].
  - apply appends_list_items. appends_fields.
  - apply reads_items_to. reads_to_fields.
  - apply item_ok_cons; [by apply (codec_octets (Codec := transaction_list_codec)) |].
    apply item_ok_cons; [by apply (codec_octets (Codec := headers_codec)) | done].
Qed.

#[export] Instance bodies_codec :
  Codec encode_bodies decode_bodies (fun bs => Lst (map body_item bs)) (Forall body_ok) (map body_norm).
Proof. exact (list_codec (HC := body_codec)). Qed.

(** ** Messages with a request id *)

Lemma consume_request_id id it rest :
  fits 8 id -> item_is_list it = true -> len (rlp (uint_item id)) < 2 ^ 64 -> len (rlp it) < 2 ^ 64 ->
  bytes_ok (rlp (uint_item id) ++ rlp it ++ rest) ->
  consume_eth66_request_id (rlp (uint_item id) ++ rlp it ++ rest) = (Ok (Some id), rlp it ++ rest).
Proof.
  intros Hid Hlst Hl1 Hl2 Hok. unfold consume_eth66_request_id.
  rewrite (reads_read_integral 8 id ltac:(lia) Hid Hl1 _ Hok).
  destruct (PeekHeader_rlp it rest Hl2) as (h & -> & -> & _). by rewrite Hlst.
Qed.

Definition with_id_item (id : Z) (it : item) : item := Lst [uint_item id; it].

Section with_id.
Context {A : Type} {enc : A -> EncM unit} {dec : DecM A} {to_item : A -> item}
  {valid : A -> Prop} {norm : A -> A}.
Context `{HC : !Codec enc dec to_item valid norm}.
Context (Hlst : forall a, item_is_list (to_item a) = true).

Lemma with_id_ok id a : fits 8 id -> valid a -> item_ok (with_id_item id (to_item a)).
Proof using HC.
  intros Hid Hv. apply item_ok_cons; [apply item_ok_uint |].
  apply item_ok_cons; [by apply codec_octets | done].
Qed.

Lemma encode_with_id id a :
  fits 8 id -> valid a -> len (rlp (with_id_item id (to_item a))) < 2 ^ 64 ->
  run_encoder (put_with_id (Some id) (enc a) ;; finalize_encoding)
  = Ok (rlp (with_id_item id (to_item a))).
Proof using HC.
  intros Hid Hv Hl. apply run_encoder_appends; [| done]. apply appends_list_items.
  rewrite !rlps_cons. apply appends_bind; [by apply appends_put_uint64 |].
  apply appends_last. by apply codec_appends.
Qed.

Lemma decode_with_id id a :
  fits 8 id -> valid a -> len (rlp (with_id_item id (to_item a))) < 2 ^ 64 ->
  get_with_id dec (rlp (with_id_item id (to_item a))) = (Ok (mkWithId (Some id) (norm a)), []).
Proof using HC Hlst.
  intros Hid Hv Hl. pose proof (rlp_ok _ (with_id_ok id a Hid Hv) Hl) as Hok. revert Hl Hok.
  apply reads_all_items. rewrite !rlps_cons. change (rlps []) with (@nil Z). intros Hl Hok.
  erewrite bind_ok by (apply consume_request_id; [done | apply Hlst | len_lia | len_lia | done]).
  apply bytes_ok_app in Hok as [_ Hok].
  by erewrite bind_ok by (apply codec_reads; [done | len_lia | done]).
Qed.

(** The round trip of every request and response with an id. *)
Lemma with_id_roundtrip id a :
  fits 8 id -> valid a -> len (rlp (with_id_item id (to_item a))) < 2 ^ 64 ->
  obind (run_encoder (put_with_id (Some id) (enc a) ;; finalize_encoding))
    (fun bs => Ok (fst (get_with_id dec bs))) = Ok (Ok (mkWithId (Some id) (norm a))).
Proof using HC Hlst.
  intros Hid Hv Hl. rewrite encode_with_id by done. cbn [obind]. by rewrite decode_with_id.
Qed.
End with_id.

(** A message that is encoded, then decoded. *)
Definition send {A B} (encode : A -> EncodeResult) (decode : ByteView -> DecodeResult B) (a : A) :
    outcome EncodingError (DecodeResult B) :=
  obind (encode a) (fun bs => Ok (decode bs)).

(** Requests with an id survive the wire. *)
Lemma requests_roundtrip id hashes :
  fits 8 id -> Forall hash_ok hashes ->
  len (rlp (with_id_item id (Lst (map Str hashes)))) < 2 ^ 64 ->
  let msg := mkWithId (Some id) hashes in
  send encode_get_receipts decode_get_receipts msg = Ok (Ok msg)
  /\ send encode_get_pooled_transactions decode_get_pooled_transactions msg = Ok (Ok msg)
  /\ send encode_get_block_bodies decode_get_block_bodies msg = Ok (Ok msg).
Proof.
  intros Hid Hh Hl. cbv zeta.
  pose proof (with_id_roundtrip (HC := hash_list_codec) (fun _ => eq_refl) id hashes Hid Hh Hl) as H.
  rewrite map_id in H. done.
Qed.

(** requests and responses with an id survive the wire: the requests for receipts, pooled
    transactions and block bodies, block headers, the receipts of several blocks, pooled
    transactions as the octets they came in, and block bodies (whose transactions come back with
    their absent fields as defaults). *)
Theorem exchanges_roundtrip id hashes hs rs txs bodies :
  fits 8 id ->
  (Forall hash_ok hashes -> len (rlp (with_id_item id (Lst (map Str hashes)))) < 2 ^ 64 ->
    let msg := mkWithId (Some id) hashes in
    send encode_get_receipts decode_get_receipts msg = Ok (Ok msg)
    /\ send encode_get_pooled_transactions decode_get_pooled_transactions msg = Ok (Ok msg)
    /\ send encode_get_block_bodies decode_get_block_bodies msg = Ok (Ok msg))
  /\ (Forall header_ok hs -> len (rlp (with_id_item id (Lst (map header_item hs)))) < 2 ^ 64 ->
    send encode_block_headers decode_block_headers (mkWithId (Some id) hs)
    = Ok (Ok (mkWithId (Some id) hs)))
  /\ (Forall (Forall receipt_ok) rs ->
    len (rlp (with_id_item id (Lst (map (fun r => Lst (map receipt_item r)) rs)))) < 2 ^ 64 ->
    send encode_receipts decode_receipts (mkWithId (Some id) rs)
    = Ok (Ok (mkWithId (Some id) (map (map receipt_norm) rs))))
  /\ (Forall raw_ok txs -> len (rlp (with_id_item id (Lst (map raw_item txs)))) < 2 ^ 64 ->
    send encode_pooled_transactions decode_pooled_transactions (mkWithId (Some id) txs)
    = Ok (Ok (mkWithId (Some id) txs)))
  /\ (Forall body_ok bodies -> len (rlp (with_id_item id (Lst (map body_item bodies)))) < 2 ^ 64 ->
    send encode_block_bodies decode_block_bodies (mkWithId (Some id) bodies)
    = Ok (Ok (mkWithId (Some id) (map body_norm bodies)))).
Proof.
  intros Hid. split; [by apply requests_roundtrip |].
  split; [| split; [| split]]; intros Hv Hl.
  - pose proof (with_id_roundtrip (HC := headers_codec) (fun _ => eq_refl) id hs Hid Hv Hl) as H.
    by rewrite map_id in H.
  - exact (with_id_roundtrip (HC := receipts_codec) (fun _ => eq_refl) id rs Hid Hv Hl).
  - pose proof (with_id_roundtrip (HC := pooled_list_codec) (fun _ => eq_refl) id txs Hid Hv Hl) as H.
    by rewrite map_id in H.
  - exact (with_id_roundtrip (HC := bodies_codec) (fun _ => eq_refl) id bodies Hid Hv Hl).
Qed.

Lemma exchanges_roundtrip_witness :
  send encode_receipts decode_receipts (mkWithId (Some 7) [[sample_receipt]; []])
  = Ok (Ok (mkWithId (Some 7) [[sample_receipt]; []])).
Proof.
  destruct (exchanges_roundtrip 7 [] [] [[sample_receipt]; []] [] []) as (_ & _ & H & _);
    [split; vm_compute; congruence |].
  apply H; [| reflexivity].
  constructor; [constructor; [apply sample_receipt_ok | constructor] | constructor; [constructor | constructor]].
Defined.

(** a request without an id cannot be read back: the encoders write the bare payload, but the decoders read the outer list
    and then the payload's own list: what was written for a hash list is never read back. *)
Theorem bare_requests_not_decodable hashes :
  Forall hash_ok hashes -> len (rlp (Lst (map Str hashes))) < 2 ^ 64 ->
  encode_get_receipts (mkWithId None hashes) = Ok (rlp (Lst (map Str hashes)))
  /\ is_ok (decode_get_receipts (rlp (Lst (map Str hashes)))) = false.
Proof.
  intros Hh Hl. split.
  { apply run_encoder_appends; [| done]. exact (codec_appends (Codec := hash_list_codec) hashes Hh). }
  pose proof (rlp_ok _ (item_ok_hashes hashes Hh) Hl) as Hok.
  unfold decode_get_receipts, get_with_id.
  pose proof (decode_header_rlp (Lst (map Str hashes)) [] Hl) as Hd. rewrite !app_nil_r in Hd.
  erewrite bind_ok by (by apply (ReadListHeaderBytes_ok _ _ _ Hd)). cbn [item_payload].
  assert (len (rlps (map Str hashes)) <= len (rlp (Lst (map Str hashes)))) as Hle
    by (apply (len_payload_le (Lst _))).
  assert (bytes_ok (rlps (map Str hashes))) as Hok'.
  { change (rlp (Lst (map Str hashes))) with (length_prefix true (len (rlps (map Str hashes)))
      ++ rlps (map Str hashes)) in Hok. by apply bytes_ok_app in Hok as [_ ?]. }
  destruct Hh as [|h hs Hh _]; [reflexivity |]. cbn [map] in *. rewrite rlps_cons in *.
  destruct (PeekHeader_rlp (Str h) (rlps (map Str hs)) ltac:(len_lia)) as (hd & Hpk & Hil & Hpl).
  cbn [item_is_list item_payload] in *.
  assert (consume_eth66_request_id (rlp (Str h) ++ rlps (map Str hs))
    = (Ok None, rlp (Str h) ++ rlps (map Str hs))) as Hc.
  { unfold consume_eth66_request_id, read_integral. erewrite bind_ok by exact Hpk.
    rewrite Hil, Hpl. unfold fail_if at 1. erewrite bind_ok by done. erewrite bind_ok by done.
    rewrite (is_array_len 32 h Hh). unfold_m. cbn [Z.ltb]. by repeat case_match. }
  erewrite bind_ok by exact Hc. unfold decode_hash_list, read_list_of, ReadListHeaderBytes.
  unfold mbind, M_bind. rewrite Hpk, Hil. done.
Qed.

Lemma bare_requests_not_decodable_witness :
  encode_get_receipts (mkWithId None [repeat 0x11 32]) = Ok (rlp (Lst [Str (repeat 0x11 32)]))
  /\ is_ok (decode_get_receipts (rlp (Lst [Str (repeat 0x11 32)]))) = false.
Proof.
  apply (bare_requests_not_decodable [repeat 0x11 32]); [| reflexivity].
  unfold hash_ok. apply (bool_decide_unpack _). vm_compute. exact I.
Defined.

(** A single pooled transaction without an id is even misread, as one "transaction" per field. *)
Example bare_pooled_transaction_misread :
  decode_pooled_transactions (rlp (Lst [Lst [uint_item 7; uint_item 9]]))
  = Ok (mkWithId None [[7]; [9]]).
Proof. reflexivity. Qed.

(** ** Status *)

Definition fork_item (f : ForkId) : item := Lst [Str (fork_hash f); uint_item (next_fork f)].
Definition fork_ok (f : ForkId) : Prop := is_array 4 (fork_hash f) /\ fits 8 (next_fork f).

Definition status_item (msg : StatusMessage) : item :=
  match msg with
  | Status68 m =>
      Lst [uint_item (s68_protocol_version m); uint_item (s68_network_id m); uint_item (s68_td m);
           Str (s68_blockhash m); Str (s68_genesis_hash m); fork_item (s68_fork_id m)]
  | Status69 m =>
      Lst [uint_item (s69_protocol_version m); uint_item (s69_network_id m);
           Str (s69_genesis_hash m); fork_item (s69_fork_id m); uint_item (s69_earliest_block m);
           uint_item (s69_latest_block m); Str (s69_latest_block_hash m)]
  end.

(** The fields fit their types. *)
Definition status_ok (msg : StatusMessage) : Prop :=
  match msg with
  | Status68 m =>
      fits 1 (s68_protocol_version m) /\ fits 8 (s68_network_id m) /\ fits 32 (s68_td m)
      /\ hash_ok (s68_blockhash m) /\ hash_ok (s68_genesis_hash m) /\ fork_ok (s68_fork_id m)
  | Status69 m =>
      fits 1 (s69_protocol_version m) /\ fits 8 (s69_network_id m) /\ hash_ok (s69_genesis_hash m)
      /\ fork_ok (s69_fork_id m) /\ fits 8 (s69_earliest_block m) /\ fits 8 (s69_latest_block m)
      /\ hash_ok (s69_latest_block_hash m)
  end.

(** The version is one the layout is used for. *)
Definition version_ok (msg : StatusMessage) : Prop :=
  match msg with
  | Status68 m => 66 <= s68_protocol_version m <= 68
  | Status69 m => s69_protocol_version m = 69
  end.

Lemma appends_put_uint8 n : fits 1 n -> appends (put_uint8 n) (rlp (uint_item n)).
Proof. intros. apply appends_checked, appends_add_integral; [by left | done]. Qed.
Lemma reads_get_uint8 n : fits 1 n -> reads get_uint8 (rlp (uint_item n)) n.
Proof. intros. by apply reads_or_else, reads_read_integral. Qed.
Lemma reads_get_bool b : reads get_bool (rlp (bool_item b)) b.
Proof. apply reads_or_else, reads_read_bool. Qed.

Lemma reads_get_array4 s : is_array 4 s -> reads (get_array 4) (rlp (Str s)) s.
Proof. by apply reads_get_array. Qed.

#[export] Hint Resolve appends_put_uint8 : appends.
#[export] Hint Extern 1 (reads get_uint8 _ _) => simple eapply reads_get_uint8 : reads.
#[export] Hint Extern 1 (reads get_bool _ _) => simple eapply reads_get_bool : reads.
#[export] Hint Extern 1 (reads (get_array 4) _ _) => simple eapply reads_get_array4 : reads.

Lemma appends_fork f : fork_ok f -> appends (put_fork_id f) (rlp (fork_item f)).
Proof. intros [_ Hn]. apply appends_list_items. appends_fields. Qed.

Lemma reads_fork f : fork_ok f -> reads get_fork_id (rlp (fork_item f)) f.
Proof. intros [Hh Hn]. destruct f. apply reads_items. reads_fields. Qed.

#[export] Hint Resolve appends_fork : appends.
#[export] Hint Extern 1 (reads get_fork_id _ _) => simple eapply reads_fork : reads.

Lemma reads_status_message msg : status_ok msg -> version_ok msg ->
  reads decode_status_from_decoder (rlp (status_item msg)) msg.
Proof.
  destruct msg as [m|m]; intros Hok Hver; apply reads_items; rewrite !rlps_cons;
    change (rlps []) with (@nil Z); destruct m; unfold version_ok, status_ok in *;
    cbn [s68_protocol_version s68_network_id s68_td s68_blockhash s68_genesis_hash s68_fork_id
         s69_protocol_version s69_network_id s69_genesis_hash s69_fork_id s69_earliest_block
         s69_latest_block s69_latest_block_hash] in *; decompose [and] Hok; do 2 reads_field;
    unfold kEthProtocolVersion66, kEthProtocolVersion67, kEthProtocolVersion68, kEthProtocolVersion69.
  - repeat decide_guard. repeat reads_field. apply reads_ret.
  - repeat decide_guard. repeat reads_field. apply reads_ret.
Qed.

Lemma status_item_ok msg : status_ok msg -> item_ok (status_item msg).
Proof.
  destruct msg as [m|m]; intros H; cbn in H; decompose [and] H; unfold status_item, fork_item;
    match goal with F : fork_ok _ |- _ => destruct F end; unfold hash_ok in *; eauto 20 with octets.
Qed.

(** the Status handshake message. Both layouts survive the wire when their version is one
    the layout is used for (66 to 68 without a block range, 69 with one), so the decoder's
    choice by version is the right one; an unknown version is refused. *)
Theorem status_roundtrip msg :
  status_ok msg -> len (rlp (status_item msg)) < 2 ^ 64 ->
  (version_ok msg -> send encode_status decode_status msg = Ok (Ok msg))
  /\ (forall v, c_protocol_version (get_common_fields msg) = v -> v < 66 \/ 69 < v ->
      send encode_status decode_status msg = Ok (Err DecodingError.kUnexpectedString)).
Proof.
  intros Hok Hl. pose proof (rlp_ok _ (status_item_ok msg Hok) Hl) as Hb.
  assert (encode_status msg = Ok (rlp (status_item msg))) as He.
  { apply run_encoder_appends; [| done].
    destruct msg as [m|m]; cbn in Hok; decompose [and] Hok; apply appends_list_items; appends_fields. }
  unfold send. rewrite He. cbn [obind]. unfold decode_status. split.
  - intros Hv. pose proof (reads_status_message msg Hok Hv Hl []) as Hr.
    rewrite app_nil_r in Hr. by rewrite (Hr Hb).
  - intros v Hv Hver. pose proof (decode_header_rlp (status_item msg) [] Hl) as Hh.
    rewrite !app_nil_r in Hh. unfold decode_status_from_decoder.
    assert (item_is_list (status_item msg) = true) as Hil by (by destruct msg).
    erewrite bind_ok by (by apply (ReadListHeaderBytes_ok _ _ _ Hh)).
    pose proof (len_payload_le (status_item msg)) as Hle.
    assert (exists rest, item_payload (status_item msg) = rlp (uint_item v)
      ++ rlp (uint_item (c_network_id (get_common_fields msg))) ++ rest) as (rest & Ep)
      by (destruct msg; subst v; eexists; reflexivity).
    assert (bytes_ok (item_payload (status_item msg))) as Hp.
    { destruct (skip_header_ok _ _ _ Hh) as (_ & -> & _). by apply bytes_ok_drop. }
    rewrite Ep in *.
    assert (fits 1 v /\ fits 8 (c_network_id (get_common_fields msg))) as [H1 H2]
      by (destruct msg; cbn in *; subst v; tauto).
    erewrite bind_ok by (apply reads_get_uint8; [done | len_lia | done]).
    apply bytes_ok_app in Hp as [_ Hp].
    erewrite bind_ok by (apply reads_get_uint64; [done | len_lia | done]).
    unfold kEthProtocolVersion66, kEthProtocolVersion67, kEthProtocolVersion68, kEthProtocolVersion69.
    repeat decide_guard. done.
Qed.

Definition sample_status : StatusMessage := Status69
  {| s69_protocol_version := 69; s69_network_id := 1; s69_genesis_hash := repeat 0xd4 32;
     s69_fork_id := {| fork_hash := [1; 2; 3; 4]; next_fork := 0 |}; s69_earliest_block := 0;
     s69_latest_block := 100; s69_latest_block_hash := repeat 0xaa 32 |}.

Lemma sample_status_ok : status_ok sample_status.
Proof.
  unfold status_ok, sample_status, fork_ok, hash_ok, fits. apply (bool_decide_unpack _).
  vm_compute. exact I.
Qed.

Lemma status_roundtrip_witness :
  send encode_status decode_status sample_status = Ok (Ok sample_status).
Proof.
  destruct (status_roundtrip sample_status) as [H _];
    [apply sample_status_ok | reflexivity | apply H; reflexivity].
Defined.

(** The block range of an eth/69 status is inverted. *)
Definition inverted_range (msg : StatusMessage) : Prop :=
  match msg with
  | Status69 m => s69_latest_block m <> 0 /\ s69_latest_block m < s69_earliest_block m
  | Status68 _ => False
  end.

(** what a status check guarantees, and which error it reports first. It passes exactly
    when the network and the genesis block are the expected ones and an eth/69 block range is
    not inverted (a peer that claims no block has none); the network is judged before the
    genesis block and the genesis block before the range; and a version mismatch is never
    what it reports. *)
Theorem validate_status_iff msg network genesis :
  let common := get_common_fields msg in
  let r := validate_status msg network genesis in
  (r = Ok tt <-> c_network_id common = network /\ c_genesis_hash common = genesis
                 /\ ~ inverted_range msg)
  /\ (r = Err kNetworkIDMismatch <-> c_network_id common <> network)
  /\ (r = Err kGenesisMismatch <-> c_network_id common = network /\ c_genesis_hash common <> genesis)
  /\ (r = Err kInvalidBlockRange <-> c_network_id common = network
                 /\ c_genesis_hash common = genesis /\ inverted_range msg)
  /\ r <> Err kProtocolVersionMismatch.
Proof.
  cbv zeta. unfold validate_status, inverted_range.
  destruct (Z.eqb_spec (c_network_id (get_common_fields msg)) network); cbn [negb];
    [| repeat split; intros; try done; tauto].
  case_bool_decide; [repeat split; intros; try done; tauto |].
  assert (c_genesis_hash (get_common_fields msg) = genesis)
    by (destruct (decide (c_genesis_hash (get_common_fields msg) = genesis)); tauto).
  destruct msg as [m|m]; [repeat split; intros; try done; tauto |].
  destruct (Z.eqb_spec (s69_latest_block m) 0); cbn [negb andb];
    [| destruct (Z.ltb_spec (s69_latest_block m) (s69_earliest_block m))];
    repeat split; intros; try done; try tauto; try lia.
Qed.

(** ** Block header requests *)

(** Exactly one of the two starts is given. *)
Definition get_headers_ok (msg : GetBlockHeadersMessage) : Prop :=
  match start_hash msg, start_number msg with
  | Some h, None => hash_ok h
  | None, Some n => fits 8 n
  | _, _ => False
  end
  /\ fits 8 (max_headers msg) /\ fits 8 (skip msg) /\ optional (fits 8) (gbh_request_id msg).

Definition start_item (msg : GetBlockHeadersMessage) : item :=
  match start_hash msg, start_number msg with
  | Some h, _ => Str h
  | None, Some n => uint_item n
  | None, None => Str []
  end.

Definition get_headers_item (msg : GetBlockHeadersMessage) : item :=
  let payload := Lst [start_item msg; uint_item (max_headers msg); uint_item (skip msg);
                      bool_item (reverse msg)] in
  match gbh_request_id msg with Some id => with_id_item id payload | None => payload end.

Lemma get_headers_item_ok msg : get_headers_ok msg -> item_ok (get_headers_item msg).
Proof.
  intros (Hs & Hm & Hk & Hid).
  assert (item_ok (start_item msg)) as Hstart.
  { unfold start_item. destruct (start_hash msg), (start_number msg); try done.
    - by destruct Hs.
    - apply item_ok_uint. }
  unfold get_headers_item, with_id_item. destruct (gbh_request_id msg); eauto 20 with octets.
Qed.

Lemma appends_get_headers msg : get_headers_ok msg ->
  appends (encode_get_block_headers_payload msg)
    (rlp (Lst [start_item msg; uint_item (max_headers msg); uint_item (skip msg); bool_item (reverse msg)])).
Proof.
  intros (Hs & Hm & Hk & _). unfold encode_get_block_headers_payload, start_item.
  destruct (start_hash msg), (start_number msg); try done; apply appends_list_items; appends_fields.
Qed.

Lemma reads_start msg : get_headers_ok msg ->
  reads get_start (rlp (start_item msg)) (start_hash msg, start_number msg).
Proof.
  intros (Hs & _) Hl rest Hok. destruct (PeekHeader_rlp _ rest Hl) as (h & Hh & Hil & Hp).
  unfold get_start. erewrite bind_ok by exact Hh. rewrite Hil, Hp. revert Hl Hok. clear Hh.
  unfold start_item. destruct (start_hash msg) as [s|], (start_number msg) as [n|]; try done;
    intros Hl Hok; cbn [item_is_list item_payload uint_item]; unfold fail_if; erewrite bind_ok by done.
  - rewrite (is_array_len 32 s Hs). change (Z.of_nat 32 =? 32) with true. cbv iota.
    by erewrite bind_ok by (by apply reads_get_hash).
  - pose proof (digits_len 8 n ltac:(lia) Hs). destruct (Z.eqb_spec (len (digits n)) 32); [lia |].
    by erewrite bind_ok by (by apply reads_get_uint64).
Qed.

Lemma reads_get_headers msg : get_headers_ok msg ->
  reads (decode_get_block_headers_payload (gbh_request_id msg))
    (rlps [start_item msg; uint_item (max_headers msg); uint_item (skip msg); bool_item (reverse msg)])
    msg.
Proof.
  intros Hok. pose proof (reads_start msg Hok) as Hs. destruct Hok as (_ & Hm & Hk & _).
  destruct msg. rewrite rlps_cons. eapply reads_bind; [exact Hs |]. reads_fields.
Qed.

(** A bare request is not taken for one with an id: no list follows its first field. *)
Lemma consume_no_request_id msg rest :
  get_headers_ok msg -> len (rlp (start_item msg)) < 2 ^ 64 -> len (rlp (uint_item (max_headers msg))) < 2 ^ 64 ->
  bytes_ok (rlp (start_item msg) ++ rlp (uint_item (max_headers msg)) ++ rest) ->
  consume_eth66_request_id (rlp (start_item msg) ++ rlp (uint_item (max_headers msg)) ++ rest)
  = (Ok None, rlp (start_item msg) ++ rlp (uint_item (max_headers msg)) ++ rest).
Proof.
  intros (Hs & Hm & _) Hl1 Hl2 Hok. unfold consume_eth66_request_id.
  destruct (PeekHeader_rlp (uint_item (max_headers msg)) rest Hl2) as (h2 & Hh2 & Hil2 & _).
  destruct (read_integral 8 (rlp (start_item msg) ++ rlp (uint_item (max_headers msg)) ++ rest))
    as [[n|e|] probe] eqn:E; [| done | done].
  destruct (start_hash msg) as [s|] eqn:Es, (start_number msg) as [m|] eqn:En; try done.
  - exfalso. unfold start_item in *. rewrite Es in *.
    destruct (PeekHeader_rlp (Str s) (rlp (uint_item (max_headers msg)) ++ rest) Hl1) as (h & Hh & Hil & Hp).
    unfold read_integral in E. erewrite bind_ok in E by exact Hh. rewrite Hil, Hp in E. cbn [item_payload item_is_list] in E.
    rewrite (is_array_len 32 s Hs) in E. unfold_m. change (8 <? Z.of_nat 32) with true in E.
    change (1 <? Z.of_nat 32) with true in E. by destruct (byte_at _ 0 =? 0).
  - unfold start_item in *. rewrite Es, En in *.
    rewrite (reads_read_integral 8 m ltac:(lia) Hs Hl1 _ Hok) in E. injection E as <- <-.
    change (rlp_string (digits (max_headers msg))) with (rlp (uint_item (max_headers msg))).
    rewrite Hh2, Hil2. done.
Qed.

Lemma put_uint64_ok n st : exists st', put_uint64 n st = (Ok tt, st').
Proof.
  unfold put_uint64, checked, or_else, add_integral. repeat case_match; eauto;
    unfold mbind, M_bind, push_back, append, modify_buffer in *; simplify_eq; eauto.
Qed.

Lemma encode_get_headers_octets msg :
  get_headers_ok msg -> len (rlp (get_headers_item msg)) < 2 ^ 64 ->
  encode_get_block_headers msg = Ok (rlp (get_headers_item msg)).
Proof.
  intros Hok Hl. pose proof (appends_get_headers msg Hok) as Ha.
  apply run_encoder_appends; [| done]. unfold put_with_id, get_headers_item.
  pose proof Hok as (_ & _ & _ & Hid). destruct (gbh_request_id msg) as [id|]; [| exact Ha].
  apply appends_list_items. rewrite !rlps_cons. apply appends_bind; [by apply appends_put_uint64 |].
  apply appends_last. exact Ha.
Qed.

Lemma decode_get_headers_octets msg :
  get_headers_ok msg -> len (rlp (get_headers_item msg)) < 2 ^ 64 ->
  decode_get_block_headers (rlp (get_headers_item msg)) = Ok msg.
Proof.
  intros Hok Hl. pose proof (rlp_ok _ (get_headers_item_ok msg Hok) Hl) as Hb.
  pose proof (reads_get_headers msg Hok) as Hr. unfold decode_get_block_headers.
  set (l := [start_item msg; uint_item (max_headers msg); uint_item (skip msg); bool_item (reverse msg)]) in *.
  enough (reads_all decode_get_block_headers_from_decoder (rlp (get_headers_item msg)) msg) as H
    by (by rewrite H).
  unfold get_headers_item. fold l. pose proof Hok as (_ & Hm & _ & Hid).
  unfold decode_get_block_headers_from_decoder.
  destruct (gbh_request_id msg) as [id|] eqn:Eid; apply reads_all_items; intros Hl' Hb'.
  - rewrite !rlps_cons in *. change (rlps []) with (@nil Z) in *.
    erewrite bind_ok by (apply consume_request_id; [done | done | len_lia | len_lia | done]).
    pose proof Hb' as [_ Hb'']%bytes_ok_app. rewrite app_nil_r in *.
    enough (reads_all (_ ← ReadListHeaderBytes; (msg ← decode_get_block_headers_payload (Some id);
      check_finished ;; mret msg)) (rlp (Lst l)) msg) as H
      by (rewrite bind_assoc; refine (H _ _); [len_lia | done]).
    apply reads_all_items. rewrite <- (app_nil_r (rlps l)).
    by apply (reads_all_bind _ _ _ _ msg).
  - unfold l in *. rewrite !rlps_cons in *.
    erewrite bind_ok by (apply consume_no_request_id; [done | len_lia | len_lia | done]).
    rewrite <- !rlps_cons in *. change (bytes_ok (rlps l)) in Hb'.
    erewrite bind_ok by done.
    rewrite <- (app_nil_r (rlps _)).
    apply (reads_all_bind (decode_get_block_headers_payload None) _ (rlps l) [] msg); try done.
    + rewrite app_nil_r. done.
    + rewrite app_nil_r. done.
Qed.

(** A request cannot have both starts. *)
Lemma encode_get_headers_ambiguous msg :
  start_hash msg <> None -> start_number msg <> None ->
  encode_get_block_headers msg = Err EncodingError.kEmptyInput.
Proof.
  intros Hh Hn. destruct (start_hash msg) as [s|] eqn:Es, (start_number msg) as [n|] eqn:En; try done.
  unfold encode_get_block_headers, put_with_id, encode_get_block_headers_payload. rewrite Es, En.
  destruct (gbh_request_id msg) as [id|]; [| reflexivity].
  destruct (put_uint64_ok id (snd (BeginList new_encoder))) as (st & Hst).
  unfold run_encoder. rewrite (bind_err _ _ _ EncodingError.kEmptyInput st); [done |].
  unfold in_list. rewrite (bind_ok (or_else BeginList EncodingError.kUnclosedList) _ new_encoder tt
    (snd (BeginList new_encoder)) eq_refl).
  apply bind_err. by rewrite (bind_ok _ _ _ tt st Hst).
Qed.

(** header requests survive the wire, with or without a request id, from a hash or from a
    number: the decoder tells the two starts apart by their size and the two forms by whether
    a list follows the first field. A request with both starts is refused by the encoder. *)
Theorem get_headers_roundtrip msg :
  (get_headers_ok msg -> len (rlp (get_headers_item msg)) < 2 ^ 64 ->
    send encode_get_block_headers decode_get_block_headers msg = Ok (Ok msg))
  /\ (start_hash msg <> None -> start_number msg <> None ->
      encode_get_block_headers msg = Err EncodingError.kEmptyInput).
Proof.
  split; [| apply encode_get_headers_ambiguous]. intros Hok Hl.
  unfold send. rewrite encode_get_headers_octets by done. cbn [obind]. by rewrite decode_get_headers_octets.
Qed.

Lemma get_headers_roundtrip_witness :
  send encode_get_block_headers decode_get_block_headers
    {| gbh_request_id := Some 9; start_hash := None; start_number := Some 1000; max_headers := 16;
       skip := 0; reverse := true |}
  = Ok (Ok {| gbh_request_id := Some 9; start_hash := None; start_number := Some 1000;
              max_headers := 16; skip := 0; reverse := true |}).
Proof.
  apply get_headers_roundtrip; [| reflexivity].
  split; [split; vm_compute; congruence |]. repeat split; vm_compute; congruence.
Defined.

(** ** Announcements *)

Lemma read_all_while {A} (elem : DecM A) fuel : forall v,
  read_all_fuel fuel elem v = read_while_fuel fuel 0 elem v.
Proof.
  induction fuel as [|fuel IH]; intros v; [done |]. cbn [read_all_fuel read_while_fuel].
  unfold IsFinished, get_state. unfold mbind, M_bind.
  assert (negb (empty v) = (0 <? len v)) as ->
    by (destruct v; cbn [empty negb]; [done | rewrite len_cons; pose proof (len_nonneg v); lia]).
  destruct (0 <? len v); [| done]. destruct (elem v) as [[x|e|] w]; [| done | done].
  by rewrite IH.
Qed.

(** A list whose elements are read to the end of the view. *)
Lemma reads_all_list {A} (enc : A -> EncM unit) (dec : DecM A) to_item valid xs :
  Codec enc dec to_item valid id -> Forall valid xs ->
  reads_all (ReadListHeaderBytes ;; read_all dec) (rlp (Lst (map to_item xs))) xs.
Proof.
  intros HC Hv Hl Hok.
  pose proof (codec_reads (Codec := list_codec (HC := HC)) xs Hv Hl [] ) as H.
  rewrite app_nil_r, map_id in H. specialize (H Hok). unfold read_list_of in H.
  apply bind_inv in H as (n & w & Hn & H). erewrite bind_ok by exact Hn.
  assert (n = len w) as ->.
  { pose proof (decode_header_rlp (Lst (map to_item xs)) [] Hl) as Hh. rewrite !app_nil_r in Hh.
    pose proof (ReadListHeaderBytes_ok _ _ _ Hh eq_refl) as Hr. rewrite Hn in Hr. by injection Hr as -> ->. }
  apply bind_inv in H as (t & w1 & Ht & H). unfold list_target in Ht. injection Ht as <- <-.
  rewrite Z.sub_diag in H. apply bind_inv in H as (ys & w2 & Hys & H).
  apply bind_inv in H as ([] & w3 & Hc & H). injection H as -> ->.
  unfold check_target in Hc. unfold_m. decide_guard_in Hc. injection Hc as ->.
  unfold read_all. rewrite read_all_while. exact Hys.
Qed.

Definition new_block_hash_item (e : NewBlockHashEntry) : item := Lst [Str (nbh_hash e); uint_item (nbh_number e)].
Definition new_block_hash_ok (e : NewBlockHashEntry) : Prop := hash_ok (nbh_hash e) /\ fits 8 (nbh_number e).

#[export] Instance new_block_hash_codec :
  Codec put_new_block_hash get_new_block_hash new_block_hash_item new_block_hash_ok id.
Proof.
  split; intros [h n] [Hh Hn].
  - apply appends_list_items. appends_fields.
  - apply reads_items. reads_fields.
  - unfold new_block_hash_item, hash_ok in *. eauto with octets.
Qed.

(** the announcements survive the wire: new block hashes with their numbers, and pooled
    transaction hashes, each list read until the message ends. *)
Theorem announcements_roundtrip entries hashes :
  Forall new_block_hash_ok entries -> len (rlp (Lst (map new_block_hash_item entries))) < 2 ^ 64 ->
  Forall hash_ok hashes -> len (rlp (Lst (map Str hashes))) < 2 ^ 64 ->
  send encode_new_block_hashes decode_new_block_hashes entries = Ok (Ok entries)
  /\ send encode_new_pooled_tx_hashes decode_new_pooled_tx_hashes hashes = Ok (Ok hashes).
Proof.
  intros He Hle Hh Hlh. unfold send, encode_new_block_hashes, encode_new_pooled_tx_hashes, finalize_encoding.
  rewrite (codec_encodes (HC := list_codec (HC := new_block_hash_codec)) entries He Hle).
  rewrite (codec_encodes (HC := list_codec (HC := hash_codec)) hashes Hh Hlh). cbn [obind].
  unfold decode_new_block_hashes, decode_new_pooled_tx_hashes. split.
  - rewrite (reads_all_list _ _ _ _ _ new_block_hash_codec He Hle); [done |].
    apply rlp_ok; [| done]. exact (codec_octets (Codec := list_codec (HC := new_block_hash_codec)) entries He).
  - rewrite (reads_all_list _ _ _ _ _ hash_codec Hh Hlh); [done |].
    apply rlp_ok; [| done]. by apply item_ok_hashes.
Qed.

Lemma announcements_roundtrip_witness :
  send encode_new_block_hashes decode_new_block_hashes [{| nbh_hash := repeat 5 32; nbh_number := 12 |}]
  = Ok (Ok [{| nbh_hash := repeat 5 32; nbh_number := 12 |}]).
Proof.
  apply (announcements_roundtrip [{| nbh_hash := repeat 5 32; nbh_number := 12 |}] []);
    [| reflexivity | constructor | reflexivity].
  unfold new_block_hash_ok, hash_ok, fits. apply (bool_decide_unpack _). vm_compute. exact I.
Defined.

(** ** New blocks *)

Definition new_block_item (m : NewBlockMessage) : item :=
  Lst [Lst [header_item (nb_header m); Lst (map tx_item (nb_transactions m));
            Lst (map header_item (nb_ommers m))];
       uint_item (nb_total_difficulty m)].
Definition new_block_ok (m : NewBlockMessage) : Prop :=
  header_ok (nb_header m) /\ Forall tx_valid (nb_transactions m) /\ Forall header_ok (nb_ommers m)
  /\ fits 32 (nb_total_difficulty m).
Definition new_block_norm (m : NewBlockMessage) : NewBlockMessage :=
  {| nb_header := nb_header m; nb_transactions := map tx_norm (nb_transactions m);
     nb_ommers := nb_ommers m; nb_total_difficulty := nb_total_difficulty m |}.

Lemma new_block_item_ok m : new_block_ok m -> item_ok (new_block_item m).
Proof.
  intros (Hh & Ht & Ho & Hd).
  pose proof (header_item_ok _ Hh). pose proof (codec_octets (Codec := transaction_list_codec) _ Ht).
  pose proof (codec_octets (Codec := headers_codec) _ Ho). unfold new_block_item. eauto 20 with octets.
Qed.

Lemma appends_raw_header h : header_ok h -> appends (put_raw (encode_block_header h)) (rlp (header_item h)).
Proof. apply (codec_appends (Codec := raw_codec (HB := header_codec))). Qed.
Lemma reads_raw_header h : header_ok h -> reads (get_raw decode_block_header) (rlp (header_item h)) h.
Proof. apply (codec_reads (Codec := raw_codec (HB := header_codec))). Qed.

#[local] Hint Resolve appends_raw_header : appends.
#[local] Hint Extern 1 (reads (get_raw decode_block_header) _ _) => simple eapply reads_raw_header : reads.

(** Reading a nested list up to its target, then what follows it. *)
Definition reads_over {A} (m : Z -> DecM A) (b1 b2 : bytes) (a : A) : Prop :=
  len (b1 ++ b2) < 2 ^ 64 -> forall rest, bytes_ok (b1 ++ b2 ++ rest) ->
  m (len (b2 ++ rest)) (b1 ++ b2 ++ rest) = (Ok a, rest).

Lemma reads_over_bind {A B} (m : DecM A) (k : Z -> A -> DecM B) b0 b1 b2 a b :
  reads m b0 a -> reads_over (fun t => k t a) b1 b2 b ->
  reads_over (fun t => m ≫= k t) (b0 ++ b1) b2 b.
Proof.
  intros H1 H2 Hl rest. rewrite <- app_assoc. intros Hok.
  rewrite (bind_ok _ _ _ _ _ (H1 ltac:(len_lia) _ Hok)).
  apply H2; [len_lia |]. by apply bytes_ok_app in Hok as [_ ?].
Qed.

Lemma reads_over_check {A} (k : DecM A) b2 a :
  reads k b2 a -> reads_over (fun t => check_target t ;; k) [] b2 a.
Proof.
  intros Hk Hl rest Hok. unfold check_target. unfold_m. cbn [app]. rewrite Z.eqb_refl. cbn [negb].
  by apply Hk.
Qed.

Lemma reads_over_list {A} (k : Z -> DecM A) l b2 a :
  reads_over k (rlps l) b2 a ->
  reads (payload ← ReadListHeaderBytes; target ← list_target payload; k target) (rlp (Lst l) ++ b2) a.
Proof.
  intros Hk Hl rest. rewrite <- app_assoc. intros Hok.
  assert (len (rlp (Lst l)) < 2 ^ 64) as Hli by len_lia.
  pose proof (decode_header_rlp (Lst l) (b2 ++ rest) Hli) as Hh. cbn [item_payload item_is_list] in Hh.
  erewrite bind_ok by (by apply (ReadListHeaderBytes_ok _ _ _ Hh)). cbn [payload_size_bytes].
  assert (bytes_ok (rlps l ++ b2 ++ rest)) as Hb
    by (destruct (skip_header_ok _ _ _ Hh) as (_ & -> & _); by apply bytes_ok_drop).
  pose proof (len_payload_le (Lst l)) as Hle. cbn [item_payload] in Hle.
  unfold list_target. erewrite bind_ok by done. rewrite len_app.
  replace (len (rlps l) + len (b2 ++ rest) - len (rlps l)) with (len (b2 ++ rest)) by lia.
  apply Hk; [len_lia | done].
Qed.

Lemma reads_new_block m : new_block_ok m ->
  reads decode_new_block_from_decoder (rlp (new_block_item m)) (new_block_norm m).
Proof.
  intros (Hh & Ht & Ho & Hd). apply reads_items. rewrite rlps_cons. apply reads_over_list.
  rewrite !rlps_cons. change (rlps []) with (@nil Z).
  repeat (eapply reads_over_bind; [solve [eauto with reads] | cbv beta]).
  apply reads_over_check. reads_field. apply reads_ret.
Qed.

(** a new block survives the wire: its header, its transactions (with absent fields as
    defaults), its ommers and the total difficulty. *)
Theorem new_block_roundtrip m :
  new_block_ok m -> len (rlp (new_block_item m)) < 2 ^ 64 ->
  send encode_new_block decode_new_block m = Ok (Ok (new_block_norm m)).
Proof.
  intros Hm Hl. pose proof (rlp_ok _ (new_block_item_ok m Hm) Hl) as Hb.
  assert (encode_new_block m = Ok (rlp (new_block_item m))) as E.
  { destruct Hm as (Hh & Ht & Ho & Hd). apply run_encoder_appends; [| done].
    apply appends_list_items. rewrite !rlps_cons. change (rlps []) with (@nil Z).
    apply appends_bind; [apply appends_list_items; appends_fields |].
    by apply appends_last, appends_put_uint256. }
  unfold send. rewrite E. cbn [obind]. unfold decode_new_block.
  pose proof (reads_new_block m Hm Hl []) as Hr. rewrite app_nil_r in Hr. by rewrite (Hr Hb).
Qed.

Lemma sample_tx_valid : tx_valid sample_tx.
Proof.
  split; [| reflexivity]. unfold tx_ok, access_ok, address_ok, hash_ok, fits.
  apply (bool_decide_unpack _). vm_compute. exact I.
Qed.

Lemma new_block_roundtrip_witness :
  send encode_new_block decode_new_block
    {| nb_header := sample_header; nb_transactions := [sample_tx]; nb_ommers := [];
       nb_total_difficulty := 2 ^ 80 |}
  = Ok (Ok {| nb_header := sample_header; nb_transactions := [tx_norm sample_tx]; nb_ommers := [];
              nb_total_difficulty := 2 ^ 80 |}).
Proof.
  apply (new_block_roundtrip {| nb_header := sample_header; nb_transactions := [sample_tx];
    nb_ommers := []; nb_total_difficulty := 2 ^ 80 |}); [| reflexivity].
  split; [apply sample_header_ok |].
  split; [constructor; [apply sample_tx_valid | constructor] |].
  split; [constructor | split; vm_compute; congruence].
Defined.

(** ** Termination *)

Lemma total_consume_next_item : total consume_next_item.
Proof. unfold consume_next_item. total_tac. Qed.

Lemma consuming_consume_next_item : consuming consume_next_item.
Proof.
  split; [apply total_consume_next_item |]. intros v a w Hv H. unfold consume_next_item in H.
  apply bind_inv in H as (u & ? & [= -> <-] & H). inv_guard H.
  apply bind_inv in H as ([] & s & Hs & H). apply bind_inv in H as (u' & ? & [= -> <-] & H).
  injection H as _ <-. by eapply (proj2 consuming_SkipItem).
Qed.

Lemma consuming_get_raw {A} (decode : ByteView -> DecodeResult A) :
  (forall v, bytes_ok v -> decode v <> Diverged) -> consuming (get_raw decode).
Proof.
  intros Hd. assert (total (get_raw decode)) as Ht.
  { intros v Hv. destruct (total_consume_next_item v Hv) as (Hn & p & Hp).
    unfold get_raw, mbind, M_bind, lift.
    destruct (consume_next_item v) as [[it|e|] w] eqn:E; cbn in *; [| by split; [| exists p] | done].
    split; [| by exists p]. apply Hd. unfold consume_next_item in E.
    apply bind_inv in E as (u & ? & [= -> <-] & E). inv_guard E.
    apply bind_inv in E as ([] & s & Hs & E). apply bind_inv in E as (u' & ? & [= -> <-] & E).
    injection E as <- _. by apply bytes_ok_take. }
  split; [done |]. intros v a w Hv H. unfold get_raw in H.
  apply bind_inv in H as (it & s & Hs & H). unfold lift in H. injection H as _ <-.
  by eapply (proj2 consuming_consume_next_item).
Qed.

Lemma header_total v : bytes_ok v -> decode_block_header v <> Diverged.
Proof. intros Hv. by apply total_header. Qed.
Lemma receipt_total v : bytes_ok v -> decode_receipt v <> Diverged.
Proof. intros Hv. by apply total_receipt. Qed.

#[export] Hint Resolve consuming_get_raw header_total receipt_total decode_transaction_total : total.
#[export] Hint Extern 1 (consuming consume_next_item) => simple apply consuming_consume_next_item : total.

Lemma consuming_headers : consuming decode_block_headers_payload.
Proof. unfold decode_block_headers_payload. auto with total. Qed.
Lemma consuming_hash_list : consuming decode_hash_list.
Proof. unfold decode_hash_list. auto with total. Qed.
Lemma consuming_receipts : consuming decode_receipts_payload.
Proof. unfold decode_receipts_payload. auto with total. Qed.
Lemma consuming_pooled : consuming decode_pooled_transactions_payload.
Proof. unfold decode_pooled_transactions_payload. auto with total. Qed.

Lemma consuming_then_pure {A B} (m : DecM A) (f : A -> Result B) :
  consuming m -> (forall v a v', bytes_ok v -> m v = (Ok a, v') -> f a <> Diverged) ->
  consuming (a ← m; lift (f a)).
Proof.
  intros [Ht Hc] Hf. split.
  - intros v Hv. destruct (Ht v Hv) as (Hd & p & Hp). unfold mbind, M_bind, lift.
    destruct (m v) as [[a|e|] w] eqn:E; cbn in *; [| by split; [| exists p] | done].
    split; [by apply (Hf v a w) | by exists p].
  - intros v b v' Hv H. apply bind_inv in H as (a & w & Hm & H). injection H as _ <-. eauto.
Qed.

Lemma consuming_PeekHeader {A} (k : Header -> DecM A) :
  (forall h, consuming (k h)) -> consuming (PeekHeader ≫= k).
Proof.
  intros Hk. split; [apply total_bind; [auto with total | intros h; apply Hk] |].
  intros v b v' Hv H. apply bind_inv in H as (h & w & Hh & H).
  apply PeekHeader_inv in Hh as (-> & _). by apply (proj2 (Hk h) v b v').
Qed.

Lemma consuming_get_transaction : consuming get_transaction.
Proof.
  apply consuming_PeekHeader. intros h. destruct (negb (is_list h) && _).
  - apply consuming_then_pure.
    + unfold get_bytes. auto with total.
    + intros v a w Hv H. destruct (accepts_get_bytes v a w Hv H) as [_ Ha].
      by apply decode_transaction_total.
  - auto with total.
Qed.

Lemma consuming_transactions : consuming decode_transaction_list.
Proof. apply consuming_read_list_of, consuming_get_transaction. Qed.

#[export] Hint Extern 1 (consuming decode_block_headers_payload) => simple apply consuming_headers : total.
#[export] Hint Extern 1 (consuming decode_hash_list) => simple apply consuming_hash_list : total.
#[export] Hint Extern 1 (consuming decode_receipts_payload) => simple apply consuming_receipts : total.
#[export] Hint Extern 1 (consuming decode_pooled_transactions_payload) => simple apply consuming_pooled : total.
#[export] Hint Extern 1 (consuming get_transaction) => simple apply consuming_get_transaction : total.
#[export] Hint Extern 1 (consuming decode_transaction_list) => simple apply consuming_transactions : total.

Lemma consuming_body : consuming decode_block_body.
Proof. apply consuming_bind; [auto with total | total_tac]. Qed.

Lemma total_request_id : total consume_eth66_request_id.
Proof.
  intros v Hv. unfold consume_eth66_request_id. destruct (total_read_integral 8 v Hv) as (_ & p & Hp).
  destruct (read_integral 8 v) as [[n|e|] w]; cbn in Hp; [| by split; [| exists []] ..].
  destruct (PeekHeader w) as [[h|e|] ?]; [| by split; [| exists []] ..].
  destruct (is_list h); [by split; [| exists p] | by split; [| exists []]].
Qed.

Lemma total_check_finished : total check_finished.
Proof. unfold check_finished. total_tac. Qed.

#[export] Hint Extern 1 (consuming decode_block_body) => simple apply consuming_body : total.
#[export] Hint Extern 1 (total consume_eth66_request_id) => simple apply total_request_id : total.
#[export] Hint Extern 1 (total check_finished) => simple apply total_check_finished : total.

Lemma total_with_id {A} (dec : DecM A) : total dec -> total (get_with_id dec).
Proof. intros H. unfold get_with_id. total_tac. Qed.

Lemma total_get_start : total get_start.
Proof. unfold get_start. total_tac. Qed.
Lemma total_get_bool : total get_bool.
Proof. apply total_or_else, total_read_bool. Qed.
Lemma total_get_fork_id : total get_fork_id.
Proof. unfold get_fork_id. total_tac. Qed.
Lemma total_get_uint8 : total get_uint8.
Proof. apply total_or_else, total_read_integral. Qed.

#[export] Hint Extern 1 (total get_start) => simple apply total_get_start : total.
#[export] Hint Extern 1 (total get_bool) => simple apply total_get_bool : total.
#[export] Hint Extern 1 (total get_fork_id) => simple apply total_get_fork_id : total.
#[export] Hint Extern 1 (total get_uint8) => simple apply total_get_uint8 : total.

Lemma total_get_headers : total decode_get_block_headers_from_decoder.
Proof. unfold decode_get_block_headers_from_decoder, decode_get_block_headers_payload. total_tac. Qed.
Lemma total_status_message : total decode_status_from_decoder.
Proof. unfold decode_status_from_decoder. total_tac. Qed.
Lemma total_new_block : total decode_new_block_from_decoder.
Proof. unfold decode_new_block_from_decoder. total_tac. Qed.

Lemma consuming_new_block_hash : consuming get_new_block_hash.
Proof. apply consuming_bind; [auto with total | total_tac]. Qed.

Lemma total_read_all {A} (elem : DecM A) : consuming elem -> total (read_all elem).
Proof.
  intros Hc v Hv. unfold read_all. rewrite read_all_while.
  apply (read_while_fuel_ends elem (length v)); [| done | lia | lia]. by apply consuming_ends_below.
Qed.

Lemma total_announcement {A} (elem : DecM A) : consuming elem -> total (ReadListHeaderBytes ;; read_all elem).
Proof. intros Hc. apply total_bind; [auto with total | intros _; by apply total_read_all]. Qed.

(** C40: every decoder of a message or an object returns on every input: whatever a peer sends,
    no decoding loop goes on for ever, the nested lists of receipts and block bodies included. *)
Theorem message_decoders_total v :
  bytes_ok v ->
  decode_status v <> Diverged /\ decode_get_block_headers v <> Diverged
  /\ decode_block_headers v <> Diverged /\ decode_get_receipts v <> Diverged
  /\ decode_receipts v <> Diverged /\ decode_get_pooled_transactions v <> Diverged
  /\ decode_pooled_transactions v <> Diverged /\ decode_get_block_bodies v <> Diverged
  /\ decode_block_bodies v <> Diverged /\ decode_new_block v <> Diverged
  /\ decode_new_block_hashes v <> Diverged /\ decode_new_pooled_tx_hashes v <> Diverged
  /\ decode_log_entry v <> Diverged /\ decode_access_list_entry v <> Diverged
  /\ decode_transaction v <> Diverged /\ decode_receipt v <> Diverged
  /\ decode_block_header v <> Diverged.
Proof.
  intros Hv. assert (total decode_bodies) as Hb by (unfold decode_bodies; auto with total).
  split; [exact (proj1 (total_status_message v Hv)) |].
  split; [exact (proj1 (total_get_headers v Hv)) |].
  split; [exact (proj1 (total_with_id _ (proj1 consuming_headers) v Hv)) |].
  split; [exact (proj1 (total_with_id _ (proj1 consuming_hash_list) v Hv)) |].
  split; [exact (proj1 (total_with_id _ (proj1 consuming_receipts) v Hv)) |].
  split; [exact (proj1 (total_with_id _ (proj1 consuming_hash_list) v Hv)) |].
  split; [exact (proj1 (total_with_id _ (proj1 consuming_pooled) v Hv)) |].
  split; [exact (proj1 (total_with_id _ (proj1 consuming_hash_list) v Hv)) |].
  split; [exact (proj1 (total_with_id _ Hb v Hv)) |].
  split; [exact (proj1 (total_new_block v Hv)) |].
  split; [exact (proj1 (total_announcement _ consuming_new_block_hash v Hv)) |].
  split; [exact (proj1 (total_announcement _ consuming_get_hash v Hv)) |].
  by apply object_decoders_total.
Qed.

Lemma message_decoders_total_witness : decode_block_bodies [0xc2; 0xc1; 0xc5] <> Diverged.
Proof. apply (message_decoders_total [0xc2; 0xc1; 0xc5]). octets. Defined.
