(* ===== verification/ChainTracker.v ===== *)
(** * ChainTracker: the deduplication window

    [include/eth/chain_tracker.hpp], [src/eth/chain_tracker.cpp]: a set of the block hashes
    seen lately, a ring buffer that remembers the order they came in, and the highest block.
    The component's contract is [Window]: a list of distinct hashes, newest first, cut at the
    window's size; the ring buffer is proved to implement it. *)
From stdpp Require Export gmap sets.
From S2P Require Export EthObjects.
Open Scope Z_scope.

Definition kDefaultWindowSize : Z := 1024.

(** [class ChainTracker]. *)
Record ChainTracker := mkTracker {
  window_size_ : Z;
  tip_number_ : Z;
  tip_hash_ : option hash256;
  seen_set_ : gset (list Z);
  eviction_queue_ : list hash256;
  eviction_head_ : Z
}.

(** The constructor. *)
Definition new_tracker (window_size : Z) : ChainTracker :=
  let w := if window_size =? 0 then kDefaultWindowSize else window_size in
  {| window_size_ := w; tip_number_ := 0; tip_hash_ := None; seen_set_ := ∅;
     eviction_queue_ := repeat zero_hash (Z.to_nat w); eviction_head_ := 0 |}.

Definition is_seen (block_hash : hash256) (st : ChainTracker) : bool :=
  bool_decide (block_hash ∈ seen_set_ st).

Definition tip (st : ChainTracker) : Z := tip_number_ st.
Definition tip_hash (st : ChainTracker) : option hash256 := tip_hash_ st.
Definition seen_count (st : ChainTracker) : Z := Z.of_nat (size (seen_set_ st)).

(** [eviction_queue_[i]]; the code only indexes below the queue's size. *)
Definition slot (st : ChainTracker) (i : Z) : hash256 := nth (Z.to_nat i) (eviction_queue_ st) [].

Definition mark_seen (block_hash : hash256) (block_number : Z) (st : ChainTracker) : bool * ChainTracker :=
  if bool_decide (block_hash ∈ seen_set_ st) then (false, st)
  else
    let '(seen, queue, head) :=
      if window_size_ st <=? Z.of_nat (size (seen_set_ st)) then
        let oldest := slot st (eviction_head_ st) in
        (seen_set_ st ∖ {[ oldest ]},
         <[ Z.to_nat (eviction_head_ st) := block_hash ]> (eviction_queue_ st),
         (eviction_head_ st + 1) mod window_size_ st)
      else
        let insert_pos := Z.of_nat (size (seen_set_ st)) in
        (seen_set_ st, <[ Z.to_nat insert_pos := block_hash ]> (eviction_queue_ st), eviction_head_ st) in
    let new_tip := tip_number_ st <? block_number in
    (true,
     {| window_size_ := window_size_ st;
        tip_number_ := if new_tip then block_number else tip_number_ st;
        tip_hash_ := if new_tip then Some block_hash else tip_hash_ st;
        seen_set_ := {[ block_hash ]} ∪ seen; eviction_queue_ := queue; eviction_head_ := head |}).

Definition reset (st : ChainTracker) : ChainTracker :=
  {| window_size_ := window_size_ st; tip_number_ := 0; tip_hash_ := None; seen_set_ := ∅;
     eviction_queue_ := map (fun _ => zero_hash) (eviction_queue_ st); eviction_head_ := 0 |}.

(** ** The contract *)
Module Window.
(** The hashes of the window, oldest first, and the highest block marked. *)
Record t := mk { size : Z; hashes : list hash256; highest : Z * option hash256 }.

Definition mark (h : hash256) (n : Z) (w : t) : bool * t :=
  if decide (h ∈ hashes w) then (false, w)
  else (true, {| size := size w;
                 hashes := (if size w <=? len (hashes w) then drop 1 (hashes w) else hashes w) ++ [h];
                 highest := if fst (highest w) <? n then (n, Some h) else highest w |}).

Definition empty (size : Z) : t := {| size := size; hashes := []; highest := (0, None) |}.
End Window.

(** The hashes of the ring buffer, oldest first: from the head round to the head when it is
    full, from the start otherwise. *)
Definition ring (st : ChainTracker) : list hash256 :=
  let n := Z.to_nat (seen_count st) in
  let k := Z.to_nat (eviction_head_ st) in
  if window_size_ st <=? seen_count st
  then drop k (eviction_queue_ st) ++ take k (eviction_queue_ st)
  else take n (eviction_queue_ st).

(** The tracker's state and the window it stands for. *)
Record implements (st : ChainTracker) (w : Window.t) : Prop := {
  imp_size : window_size_ st = Window.size w /\ 1 <= Window.size w;
  imp_queue : len (eviction_queue_ st) = window_size_ st;
  imp_head : 0 <= eviction_head_ st < window_size_ st;
  imp_head0 : seen_count st < window_size_ st -> eviction_head_ st = 0;
  imp_hashes : ring st = Window.hashes w;
  imp_nodup : NoDup (Window.hashes w);
  imp_set : seen_set_ st = list_to_set (Window.hashes w);
  imp_bound : len (Window.hashes w) <= Window.size w;
  imp_tip : (tip_number_ st, tip_hash_ st) = Window.highest w
}.

Lemma seen_count_len st w : implements st w -> seen_count st = len (Window.hashes w).
Proof.
  intros H. unfold seen_count, len. rewrite (imp_set _ _ H), size_list_to_set; [done |].
  by apply imp_nodup with st.
Qed.

Lemma implements_new n : 0 <= n ->
  implements (new_tracker n) (Window.empty (if n =? 0 then kDefaultWindowSize else n)).
Proof.
  intros Hn. unfold new_tracker, Window.empty.
  set (w := if n =? 0 then kDefaultWindowSize else n).
  assert (1 <= w) by (unfold w, kDefaultWindowSize; destruct (Z.eqb_spec n 0); lia).
  split; cbn [window_size_ tip_number_ tip_hash_ seen_set_ eviction_queue_ eviction_head_
              Window.size Window.hashes Window.highest]; try done; try lia.
  - unfold len. rewrite repeat_length. lia.
  - unfold ring, seen_count. cbn [window_size_ seen_set_ eviction_queue_ eviction_head_].
    change (Z.of_nat (size (∅ : gset (list Z)))) with 0. by destruct (Z.leb_spec w 0); [lia |].
  - constructor.
  - rewrite len_nil. lia.
Qed.

Lemma list_to_set_snoc (l : list (list Z)) h :
  (list_to_set (l ++ [h]) : gset (list Z)) = {[ h ]} ∪ list_to_set l.
Proof. rewrite list_to_set_app_L, list_to_set_singleton_L. apply union_comm_L. Qed.

Lemma union_difference_head (s : gset (list Z)) o : o ∉ s -> s = ({[ o ]} ∪ s) ∖ {[ o ]}.
Proof.
  intros Ho. apply set_eq. intros x. rewrite elem_of_difference, elem_of_union, elem_of_singleton.
  split; [| tauto]. intros Hx. split; [by right |]. by intros ->.
Qed.

Lemma take_insert_snoc {A} (q : list A) c h :
  (c < length q)%nat -> take (S c) (<[c := h]> q) = take c q ++ [h].
Proof.
  intros Hc. rewrite (take_S_r _ c h) by (by apply list_lookup_insert_eq).
  by rewrite take_insert_ge by lia.
Qed.

Lemma size_set_hashes (s : gset (list Z)) l : s = list_to_set l -> NoDup l -> Z.of_nat (size s) = len l.
Proof. intros -> Hn. unfold len. by rewrite size_list_to_set. Qed.

Lemma lookup_nth {A} (l : list A) k d : (k < length l)%nat -> l !! k = Some (nth k l d).
Proof. intros Hk. destruct (nth_lookup_or_length l k d); [done | lia]. Qed.

Section mark.
Context (st : ChainTracker) (w : Window.t) (h : hash256) (n : Z).
Context (Himp : implements st w) (Hnew : h ∉ Window.hashes w).

Lemma not_full_ring :
  seen_count st < window_size_ st ->
  let q := <[ Z.to_nat (seen_count st) := h ]> (eviction_queue_ st) in
  Window.hashes w ++ [h]
  = if window_size_ st <=? seen_count st + 1 then drop 0 q ++ take 0 q
    else take (Z.to_nat (seen_count st + 1)) q.
Proof.
  intros Hlt q. pose proof (imp_queue _ _ Himp) as Hq. unfold len in Hq.
  assert (0 <= seen_count st) by (unfold seen_count; lia).
  pose proof (imp_hashes _ _ Himp) as Hr. unfold ring in Hr.
  destruct (Z.leb_spec (window_size_ st) (seen_count st)); [lia |]. rewrite <- Hr.
  pose proof (take_insert_snoc (eviction_queue_ st) (Z.to_nat (seen_count st)) h ltac:(lia)) as Ht.
  fold q in Ht. rewrite <- Ht. replace (Z.to_nat (seen_count st + 1)) with (S (Z.to_nat (seen_count st))) by lia.
  destruct (Z.leb_spec (window_size_ st) (seen_count st + 1)); [| done].
  rewrite drop_0, take_0, app_nil_r. apply firstn_all2. unfold q. rewrite length_insert. lia.
Qed.

Lemma full_ring :
  window_size_ st <= seen_count st ->
  let k := Z.to_nat (eviction_head_ st) in
  let q := <[ k := h ]> (eviction_queue_ st) in
  let k' := Z.to_nat ((eviction_head_ st + 1) mod window_size_ st) in
  Window.hashes w = slot st (eviction_head_ st) :: drop 1 (Window.hashes w)
  /\ drop k' q ++ take k' q = drop 1 (Window.hashes w) ++ [h].
Proof.
  intros Hge k q k'. pose proof (imp_queue _ _ Himp) as Hq. unfold len in Hq.
  pose proof (imp_head _ _ Himp) as Hh. pose proof (imp_hashes _ _ Himp) as Hr. unfold ring in Hr.
  destruct (Z.leb_spec (window_size_ st) (seen_count st)); [| lia]. fold k in Hr.
  assert (k < length (eviction_queue_ st))%nat as Hk by (unfold k; lia).
  assert (drop k (eviction_queue_ st) = slot st (eviction_head_ st) :: drop (S k) (eviction_queue_ st)) as Hd.
  { apply drop_S. unfold slot. fold k. by apply lookup_nth. }
  rewrite Hd in Hr. cbn [app] in Hr. rewrite <- Hr. cbn [drop]. split; [done |].
  rewrite drop_0. pose proof (take_insert_snoc (eviction_queue_ st) k h Hk) as Ht. fold q in Ht.
  destruct (Z.eq_dec (eviction_head_ st + 1) (window_size_ st)) as [E|E].
  - unfold k'. rewrite E, Z.mod_same by lia. rewrite drop_0, take_0, app_nil_r.
    rewrite (drop_ge (eviction_queue_ st) (S k)) by lia. cbn [app]. rewrite <- Ht.
    symmetry. apply firstn_all2. unfold q. rewrite length_insert. lia.
  - unfold k'. rewrite Z.mod_small by lia.
    replace (Z.to_nat (eviction_head_ st + 1)) with (S k) by lia.
    rewrite Ht. unfold q. rewrite drop_insert_lt by lia. by rewrite app_assoc.
Qed.
End mark.

(** The fields of the tracker after a new hash, in a window with room and in a full one. *)
Section mark_new.
Context (st : ChainTracker) (w : Window.t) (h : hash256) (tip' : Z * option hash256).
Context (Himp : implements st w) (Hnew : h ∉ Window.hashes w).

Lemma mark_not_full :
  seen_count st < window_size_ st ->
  implements
    {| window_size_ := window_size_ st; tip_number_ := fst tip'; tip_hash_ := snd tip';
       seen_set_ := {[ h ]} ∪ seen_set_ st;
       eviction_queue_ := <[ Z.to_nat (seen_count st) := h ]> (eviction_queue_ st);
       eviction_head_ := eviction_head_ st |}
    {| Window.size := Window.size w; Window.hashes := Window.hashes w ++ [h]; Window.highest := tip' |}.
Proof.
  intros Hlt. pose proof (not_full_ring st w h Himp Hlt) as Hring. cbv zeta in Hring.
  pose proof (seen_count_len st w Himp) as Hc.
  destruct Himp as [[Hw Hw1] Hq Hh Hh0 Hr Hn Hs Hb Ht].
  assert (NoDup (Window.hashes w ++ [h])) as Hn'.
  { apply list.NoDup_app. split; [done |]. split; [| apply list.NoDup_singleton]. by intros x Hx ->%list_elem_of_singleton. }
  assert ({[ h ]} ∪ seen_set_ st = list_to_set (Window.hashes w ++ [h])) as Hs'
    by (rewrite list_to_set_snoc; by f_equal).
  pose proof (size_set_hashes _ _ Hs' Hn') as Hsz. rewrite len_app in Hsz. cbn in Hsz.
  change (len [h]) with 1 in Hsz.
  split; unfold ring, seen_count;
    cbn [window_size_ tip_number_ tip_hash_ seen_set_ eviction_queue_ eviction_head_
         Window.size Window.hashes Window.highest]; try done.
  - unfold len in *. by rewrite length_insert.
  - intros. apply Hh0. lia.
  - rewrite Hsz, <- Hc, (Hh0 Hlt). symmetry. exact Hring.
  - rewrite len_app. change (len [h]) with 1. lia.
  - by destruct tip'.
Qed.

Lemma mark_full :
  window_size_ st <= seen_count st ->
  implements
    {| window_size_ := window_size_ st; tip_number_ := fst tip'; tip_hash_ := snd tip';
       seen_set_ := {[ h ]} ∪ (seen_set_ st ∖ {[ slot st (eviction_head_ st) ]});
       eviction_queue_ := <[ Z.to_nat (eviction_head_ st) := h ]> (eviction_queue_ st);
       eviction_head_ := (eviction_head_ st + 1) mod window_size_ st |}
    {| Window.size := Window.size w; Window.hashes := drop 1 (Window.hashes w) ++ [h];
       Window.highest := tip' |}.
Proof.
  intros Hge. pose proof (full_ring st w h Himp Hge) as [Hhd Hring]. cbv zeta in Hring.
  pose proof (seen_count_len st w Himp) as Hc.
  destruct Himp as [[Hw Hw1] Hq Hh Hh0 Hr Hn Hs Hb Ht].
  set (o := slot st (eviction_head_ st)) in *. set (l := drop 1 (Window.hashes w)) in *.
  rewrite Hhd in Hn, Hs, Hnew, Hc, Hb. apply list.NoDup_cons in Hn as [Ho Hn].
  rewrite len_cons in Hc, Hb. apply not_elem_of_cons in Hnew as [Hho Hnew'].
  assert (NoDup (l ++ [h])) as Hn'.
  { apply list.NoDup_app. split; [done |]. split; [| apply list.NoDup_singleton]. by intros x Hx ->%list_elem_of_singleton. }
  assert ({[ h ]} ∪ seen_set_ st ∖ {[ o ]} = list_to_set (l ++ [h])) as Hs'.
  { rewrite list_to_set_snoc, Hs. cbn [list_to_set]. f_equal.
    symmetry. apply union_difference_head. by rewrite elem_of_list_to_set. }
  pose proof (size_set_hashes _ _ Hs' Hn') as Hsz. rewrite len_app in Hsz.
  change (len [h]) with 1 in Hsz.
  assert (0 <= (eviction_head_ st + 1) mod window_size_ st < window_size_ st)
    by (apply Z.mod_pos_bound; lia).
  split; unfold ring, seen_count;
    cbn [window_size_ tip_number_ tip_hash_ seen_set_ eviction_queue_ eviction_head_
         Window.size Window.hashes Window.highest]; try done.
  - unfold len in *. by rewrite length_insert.
  - intros. lia.
  - rewrite Hsz. destruct (Z.leb_spec (window_size_ st) (len l + 1)); [exact Hring | lia].
  - rewrite len_app. change (len [h]) with 1. lia.
  - by destruct tip'.
Qed.
End mark_new.

Lemma mark_seen_implements st w h n :
  implements st w ->
  fst (mark_seen h n st) = fst (Window.mark h n w)
  /\ implements (snd (mark_seen h n st)) (snd (Window.mark h n w)).
Proof.
  intros Hi. pose proof (seen_count_len st w Hi) as Hc.
  assert (bool_decide (h ∈ seen_set_ st) = bool_decide (h ∈ Window.hashes w)) as Hin.
  { apply bool_decide_ext. rewrite (imp_set _ _ Hi). apply elem_of_list_to_set. }
  unfold mark_seen, Window.mark. rewrite Hin. destruct (decide (h ∈ Window.hashes w)) as [E|E].
  { by rewrite bool_decide_true. }
  rewrite bool_decide_false by done. change (Z.of_nat (size (seen_set_ st))) with (seen_count st).
  pose proof (imp_size _ _ Hi) as [Hw _]. rewrite <- Hc, <- Hw.
  pose proof (imp_tip _ _ Hi) as Ht. rewrite <- Ht. cbn [fst].
  set (t' := if tip_number_ st <? n then (n, Some h) else (tip_number_ st, tip_hash_ st)).
  replace (if tip_number_ st <? n then n else tip_number_ st) with (fst t') by (unfold t'; by zcase).
  replace (if tip_number_ st <? n then Some h else tip_hash_ st) with (snd t') by (unfold t'; by zcase).
  rewrite Hw. destruct (Z.leb_spec (Window.size w) (seen_count st)); cbn [fst snd]; split; try done.
  - pose proof (mark_full st w h t' Hi E ltac:(lia)) as Hm. by rewrite Hw in Hm.
  - pose proof (mark_not_full st w h t' Hi E ltac:(lia)) as Hm. by rewrite Hw in Hm.
Qed.

Lemma reset_implements st w :
  implements st w -> implements (reset st) (Window.empty (Window.size w)).
Proof.
  intros [[Hw Hw1] Hq Hh _ _ _ _ _ _].
  unfold reset, Window.empty. split; unfold ring, seen_count;
    cbn [window_size_ tip_number_ tip_hash_ seen_set_ eviction_queue_ eviction_head_
         Window.size Window.hashes Window.highest]; try done; try lia.
  - unfold len in *. by rewrite length_map.
  - change (Z.of_nat (size (∅ : gset (list Z)))) with 0.
    by destruct (Z.leb_spec (window_size_ st) 0); [lia |].
  - constructor.
  - rewrite len_nil. lia.
Qed.

(** ** Runs *)

(** A call on the tracker. *)
Inductive tracker_op := MarkSeen (h : hash256) (n : Z) | Reset.

(** The answers of a sequence of calls, and the tracker after them. *)
Fixpoint run_tracker (ops : list tracker_op) (st : ChainTracker) : list bool * ChainTracker :=
  match ops with
  | [] => ([], st)
  | MarkSeen h n :: ops =>
      let '(b, st') := mark_seen h n st in
      let '(bs, st'') := run_tracker ops st' in (b :: bs, st'')
  | Reset :: ops => run_tracker ops (reset st)
  end.

Fixpoint run_window (ops : list tracker_op) (w : Window.t) : list bool * Window.t :=
  match ops with
  | [] => ([], w)
  | MarkSeen h n :: ops =>
      let '(b, w') := Window.mark h n w in
      let '(bs, w'') := run_window ops w' in (b :: bs, w'')
  | Reset :: ops => run_window ops (Window.empty (Window.size w))
  end.

Lemma run_implements ops : forall st w,
  implements st w ->
  fst (run_tracker ops st) = fst (run_window ops w)
  /\ implements (snd (run_tracker ops st)) (snd (run_window ops w)).
Proof.
  induction ops as [| [h n |] ops IH]; intros st w Hi; cbn [run_tracker run_window]; [done | |].
  - pose proof (mark_seen_implements st w h n Hi) as [Hb Hi'].
    destruct (mark_seen h n st) as [b st'], (Window.mark h n w) as [b' w']. cbn [fst snd] in *.
    specialize (IH st' w' Hi') as [Hbs Hi'']. subst b'.
    destruct (run_tracker ops st'), (run_window ops w'). cbn [fst snd] in *. by subst.
  - by apply IH, reset_implements.
Qed.

Lemma is_seen_window st w h : implements st w -> is_seen h st = bool_decide (h ∈ Window.hashes w).
Proof.
  intros Hi. unfold is_seen. apply bool_decide_ext. rewrite (imp_set _ _ Hi). apply elem_of_list_to_set.
Qed.

Lemma mark_size h n w : Window.size (snd (Window.mark h n w)) = Window.size w.
Proof. unfold Window.mark. by destruct (decide _). Qed.

Lemma run_window_size ops : forall w, Window.size (snd (run_window ops w)) = Window.size w.
Proof.
  induction ops as [| [h n |] ops IH]; intros w; cbn [run_window]; [done | | by rewrite IH].
  rewrite <- (mark_size h n w). destruct (Window.mark h n w) as [b w']. cbn [snd].
  rewrite <- (IH w'). by destruct (run_window ops w').
Qed.

(** C21: the ring buffer of [ChainTracker] implements the sliding window: whatever the sequence of
    [mark_seen] and [reset] calls on a new tracker, every answer of [mark_seen] is the one of
    the window that keeps the last distinct hashes in order of arrival, the hashes seen are
    exactly those of the window (never more than its size), and the tip is the window's. *)
Theorem tracker_refines_window n ops :
  0 <= n ->
  let w0 := Window.empty (if n =? 0 then kDefaultWindowSize else n) in
  let '(answers, st) := run_tracker ops (new_tracker n) in
  let '(answers', w) := run_window ops w0 in
  answers = answers'
  /\ (forall h, is_seen h st = bool_decide (h ∈ Window.hashes w))
  /\ seen_count st = len (Window.hashes w) /\ seen_count st <= Window.size w0
  /\ (tip st, tip_hash st) = Window.highest w.
Proof.
  intros Hn w0. pose proof (run_implements ops _ _ (implements_new n Hn)) as [Ha Hi]. fold w0 in Ha, Hi.
  pose proof (run_window_size ops w0) as Hsz. destruct (run_tracker ops (new_tracker n)), (run_window ops w0).
  cbn [fst snd] in *. split_and!; [done | intros; by apply is_seen_window | by apply seen_count_len | |].
  - rewrite <- Hsz, (seen_count_len _ _ Hi). by apply imp_bound with (1 := Hi).
  - by apply imp_tip.
Qed.

(** ** How long a hash is remembered *)

(** Calls of [mark_seen] only. *)
Definition marks (ms : list (hash256 * Z)) : list tracker_op := map (fun '(h, n) => MarkSeen h n) ms.

(** The number of calls that met a new hash. *)
Definition news (answers : list bool) : Z := len (filter (fun b => b = true) answers).

Record window_ok (w : Window.t) : Prop := {
  wok_size : 1 <= Window.size w;
  wok_nodup : NoDup (Window.hashes w);
  wok_bound : len (Window.hashes w) <= Window.size w
}.

Lemma implements_window_ok st w : implements st w -> window_ok w.
Proof. intros []. split; tauto. Qed.

(** [h] has [b] newer hashes after it. *)
Lemma mark_age h x n w a b :
  window_ok w -> Window.hashes w = a ++ h :: b ->
  let '(new, w') := Window.mark x n w in
  window_ok w'
  /\ ((exists a' b', Window.hashes w' = a' ++ h :: b' /\ len b' = len b + (if new then 1 else 0))
      \/ (new = true /\ len b + 1 = Window.size w /\ (x <> h -> h ∉ Window.hashes w'))).
Proof.
  intros [H1 Hn Hb] Hh. unfold Window.mark. destruct (decide (x ∈ Window.hashes w)) as [Hx|Hx].
  { split; [done |]. left. exists a, b. split; [done | lia]. }
  assert (NoDup ((if Window.size w <=? len (Window.hashes w) then drop 1 (Window.hashes w)
                  else Window.hashes w) ++ [x])) as Hn'.
  { apply list.NoDup_app. split; [zcase; [| done];
      rewrite <- (take_drop 1 (Window.hashes w)) in Hn; by apply list.NoDup_app in Hn as (_ & _ & Hn) |].
    split; [| apply list.NoDup_singleton]. intros y Hy ->%list_elem_of_singleton. apply Hx.
    revert Hy. zcase; [| done]. intros Hy. rewrite <- (take_drop 1 (Window.hashes w)), elem_of_app. by right. }
  split.
  - split; cbn [Window.size Window.hashes]; [done | done |]. rewrite len_app. change (len [x]) with 1.
    zcase; [| lia]. unfold len in *. rewrite length_drop. lia.
  - cbn [Window.hashes]. rewrite Hh in Hn, Hb |- *. revert Hn'. rewrite Hh. zcase; intros Hn'.
    + destruct a as [| y a]; cbn [drop app] in *; rewrite drop_0 in *.
      * right. rewrite (len_cons h b) in Hb, H. split_and!; [done | lia |]. intros Hxh.
        apply list.NoDup_cons in Hn as [Hhb _]. rewrite elem_of_app, list_elem_of_singleton. by intros [? | ->].
      * left. exists a, (b ++ [x]). rewrite <- app_assoc. split; [done |]. rewrite len_app. done.
    + left. exists a, (b ++ [x]). rewrite <- app_assoc. split; [done |]. by rewrite len_app.
Qed.

Lemma news_cons b bs : news (b :: bs) = (if b then 1 else 0) + news bs.
Proof.
  unfold news. destruct b; [rewrite filter_cons_True by done; apply len_cons |].
  by rewrite filter_cons_False by done.
Qed.

Lemma run_marks_cons x n ms w :
  run_window (marks ((x, n) :: ms)) w
  = let '(b, w') := Window.mark x n w in
    let '(bs, w'') := run_window (marks ms) w' in (b :: bs, w'').
Proof. reflexivity. Qed.

(** A hash stays in the window while fewer new hashes follow than it has room for. *)
Lemma run_keeps h ms : forall w a b,
  window_ok w -> Window.hashes w = a ++ h :: b ->
  len b + news (fst (run_window (marks ms) w)) < Window.size w ->
  h ∈ Window.hashes (snd (run_window (marks ms) w)).
Proof.
  induction ms as [| [x n] ms IH]; intros w a b Hw Hh.
  { intros _. cbn. rewrite Hh. set_solver. }
  rewrite run_marks_cons. pose proof (mark_age h x n w a b Hw Hh) as Hm. pose proof (mark_size x n w) as Hsz.
  destruct (Window.mark x n w) as [new w']. destruct Hm as [Hw' Hm]. cbn [snd] in Hsz.
  specialize (IH w'). destruct (run_window (marks ms) w') as [bs w'']. cbn [fst snd] in *.
  rewrite news_cons. intros Hlt. assert (0 <= news bs) by apply len_nonneg.
  destruct Hm as [(a' & b' & Hh' & Hb') | (-> & Hfull & _)]; [| lia].
  apply (IH a' b'); [done | done | destruct new; lia].
Qed.

Lemma run_absent h ms : forall w,
  h ∉ ms.*1 -> h ∉ Window.hashes w -> h ∉ Window.hashes (snd (run_window (marks ms) w)).
Proof.
  induction ms as [| [x n] ms IH]; intros w Hms Hw; [done |].
  rewrite run_marks_cons. cbn in Hms. apply not_elem_of_cons in Hms as [Hx Hms].
  assert (h ∉ Window.hashes (snd (Window.mark x n w))) as Hw'.
  { unfold Window.mark. destruct (decide _); [done |]. cbn [snd Window.hashes].
    rewrite elem_of_app, list_elem_of_singleton. intros [Hd | ->]; [| done]. apply Hw. revert Hd.
    zcase; [| done]. intros Hd. rewrite <- (take_drop 1 (Window.hashes w)), elem_of_app. by right. }
  destruct (Window.mark x n w) as [b w']. cbn [snd] in Hw'. specialize (IH w' Hms Hw').
  by destruct (run_window (marks ms) w').
Qed.

(** It leaves the window when that many have come. *)
Lemma run_forgets h ms : forall w a b,
  window_ok w -> Window.hashes w = a ++ h :: b -> h ∉ ms.*1 ->
  Window.size w <= len b + news (fst (run_window (marks ms) w)) ->
  h ∉ Window.hashes (snd (run_window (marks ms) w)).
Proof.
  induction ms as [| [x n] ms IH]; intros w a b Hw Hh Hms.
  { cbn. destruct Hw as [_ _ Hb]. rewrite Hh, len_app, (len_cons h b) in Hb. change (news []) with 0.
    pose proof (len_nonneg a). lia. }
  rewrite run_marks_cons. pose proof (mark_age h x n w a b Hw Hh) as Hm. pose proof (mark_size x n w) as Hsz.
  cbn in Hms. apply not_elem_of_cons in Hms as [Hx Hms].
  destruct (Window.mark x n w) as [new w']. destruct Hm as [Hw' Hm]. cbn [snd] in Hsz.
  specialize (IH w'). pose proof (run_absent h ms w' Hms) as Habs.
  destruct (run_window (marks ms) w') as [bs w'']. cbn [fst snd] in *.
  rewrite news_cons. intros Hge.
  destruct Hm as [(a' & b' & Hh' & Hb') | (_ & _ & Hgone)]; [| by apply Habs, Hgone; congruence].
  apply (IH a' b'); [done.. | destruct new; lia].
Qed.

Lemma run_tracker_app ops ops' : forall st,
  run_tracker (ops ++ ops') st
  = let '(bs, st') := run_tracker ops st in let '(bs', st'') := run_tracker ops' st' in (bs ++ bs', st'').
Proof.
  induction ops as [| [h n |] ops IH]; intros st; cbn [app run_tracker]; [by destruct (run_tracker ops' st) | | by apply IH].
  destruct (mark_seen h n st) as [b st']. rewrite IH. destruct (run_tracker ops st') as [bs st''].
  by destruct (run_tracker ops' st'').
Qed.

(** what deduplication guarantees: after a call of [mark_seen] that found the block new, in any
    reachable tracker, the block is reported as seen (and so no second request is made for
    it) as long as fewer new blocks have followed than the window's size, and it is
    forgotten exactly when that many have come without it being marked again. *)
Theorem mark_seen_remembers n ops h num ms :
  0 <= n ->
  let st := snd (run_tracker ops (new_tracker n)) in
  fst (mark_seen h num st) = true ->
  let '(answers, st') := run_tracker (marks ms) (snd (mark_seen h num st)) in
  (news answers < window_size_ st -> is_seen h st' = true)
  /\ (window_size_ st <= news answers -> h ∉ ms.*1 -> is_seen h st' = false).
Proof.
  intros Hn st Hnew. destruct (run_implements ops _ _ (implements_new n Hn)) as [_ Hi]. fold st in Hi.
  set (w := snd (run_window _ _)) in Hi. pose proof (mark_seen_implements st w h num Hi) as [Hb Hi1].
  assert (exists a, Window.hashes (snd (Window.mark h num w)) = a ++ [h]) as [a Ha].
  { rewrite Hb in Hnew. unfold Window.mark in *. destruct (decide _); [done |]. cbn. eauto. }
  pose proof (mark_size h num w) as Hsz. pose proof (imp_size _ _ Hi) as [Hws _].
  set (st1 := snd (mark_seen h num st)) in *. set (w1 := snd (Window.mark h num w)) in *.
  pose proof (implements_window_ok _ _ Hi1) as Hok.
  destruct (run_implements (marks ms) _ _ Hi1) as [Has Hi2].
  pose proof (run_keeps h ms w1 a [] Hok Ha) as Hk. pose proof (run_forgets h ms w1 a [] Hok Ha) as Hf.
  destruct (run_tracker (marks ms) st1) as [answers st']. destruct (run_window (marks ms) w1) as [answers' w'].
  cbn [fst snd] in *. subst answers'. change (len []) with 0 in *. rewrite (is_seen_window _ _ h Hi2).
  split; intros; [apply bool_decide_true, Hk; lia | apply bool_decide_false, Hf; [done | lia]].
Qed.

Definition sample_hash (i : Z) : hash256 := i :: repeat 0 31.

Definition sample_run : list tracker_op :=
  [MarkSeen (sample_hash 1) 5; MarkSeen (sample_hash 2) 7; MarkSeen (sample_hash 1) 6;
   MarkSeen (sample_hash 3) 6; MarkSeen (sample_hash 1) 9].

Lemma tracker_refines_window_witness :
  fst (run_tracker sample_run (new_tracker 2)) = [true; true; false; true; true]
  /\ seen_count (snd (run_tracker sample_run (new_tracker 2))) <= 2
  /\ tip (snd (run_tracker sample_run (new_tracker 2))) = 9.
Proof.
  pose proof (tracker_refines_window 2 sample_run ltac:(lia)) as H. cbv zeta in H.
  rewrite (surjective_pairing (run_tracker sample_run (new_tracker 2))),
    (surjective_pairing (run_window sample_run _)) in H.
  destruct H as (Ha & _ & _ & Hs & Ht). rewrite Ha.
  split; [vm_compute; reflexivity |]. split; [exact Hs |].
  change (tip ?st) with (fst (tip st, tip_hash st)). rewrite Ht. vm_compute. reflexivity.
Defined.

Lemma mark_seen_remembers_witness :
  let st := snd (mark_seen (sample_hash 1) 5 (new_tracker 2)) in
  is_seen (sample_hash 1) (snd (run_tracker (marks [(sample_hash 2, 6)]) st)) = true
  /\ is_seen (sample_hash 1) (snd (run_tracker (marks [(sample_hash 2, 6); (sample_hash 3, 7)]) st)) = false.
Proof.
  split.
  - exact (proj1 (mark_seen_remembers 2 [] (sample_hash 1) 5 [(sample_hash 2, 6)]
                    ltac:(lia) eq_refl) eq_refl).
  - apply (proj2 (mark_seen_remembers 2 [] (sample_hash 1) 5 [(sample_hash 2, 6); (sample_hash 3, 7)]
                    ltac:(lia) eq_refl)); [vm_compute; discriminate | octets].
Defined.
