(* ===== verification/EventFilter.v ===== *)
(** * EventFilter: log filters and the dispatch of matching logs

    [include/eth/event_filter.hpp], [src/eth/event_filter.cpp]. A callback is an opaque value
    of a type [C]; what dispatching does to the world is the sequence of calls it makes, each
    a callback with its event. Callbacks do not call back into the watcher. *)
From S2P Require Export EthObjects.
Open Scope Z_scope.

(** [struct EventFilter]. *)
Record EventFilter := mkEventFilter {
  addresses : list address;
  topics : list (option hash256);
  from_block : option Z;
  to_block : option Z
}.

(** [struct MatchedEvent]. *)
Record MatchedEvent := mkMatchedEvent {
  ev_log : LogEntry;
  ev_block_number : Z;
  ev_block_hash : hash256;
  ev_tx_hash : hash256;
  ev_log_index : Z
}.

(** The topic loop of [EventFilter::matches], from position [i]. *)
Fixpoint topics_match (i : nat) (ts : list (option hash256)) (log : LogEntry) : bool :=
  match ts with
  | [] => true
  | None :: ts => topics_match (S i) ts log
  | Some t :: ts =>
      if len (log_topics log) <=? Z.of_nat i then false
      else if bool_decide (nth i (log_topics log) [] <> t) then false
      else topics_match (S i) ts log
  end.

Definition matches (f : EventFilter) (log : LogEntry) (block : Z) : bool :=
  if match from_block f with Some from => block <? from | None => false end then false
  else if match to_block f with Some to => to <? block | None => false end then false
  else if negb (empty (addresses f)) && bool_decide (log_address log ∉ addresses f) then false
  else topics_match 0 (topics f) log.

Section watcher.
(** [EventCallback]. *)
Context {C : Type}.

Record Subscription := mkSubscription {
  sub_id : Z;
  sub_filter : EventFilter;
  sub_callback : C
}.

(** [class EventWatcher]. *)
Record EventWatcher := mkEventWatcher {
  subscriptions_ : list Subscription;
  next_id_ : Z
}.

Definition new_watcher : EventWatcher := {| subscriptions_ := []; next_id_ := 1 |}.

Definition watch (filter : EventFilter) (callback : C) (w : EventWatcher) : Z * EventWatcher :=
  let id := next_id_ w in
  (id, {| subscriptions_ := subscriptions_ w ++ [mkSubscription id filter callback];
          next_id_ := u32 (next_id_ w + 1) |}).

Definition unwatch (id : Z) (w : EventWatcher) : EventWatcher :=
  {| subscriptions_ := filter (fun s => sub_id s <> id) (subscriptions_ w); next_id_ := next_id_ w |}.

Definition subscription_count (w : EventWatcher) : Z := len (subscriptions_ w).

(** The inner loop of [process_*]: the calls made for one log. *)
Fixpoint dispatch (subs : list Subscription) (ev : MatchedEvent) : list (C * MatchedEvent) :=
  match subs with
  | [] => []
  | sub :: subs =>
      if matches (sub_filter sub) (ev_log ev) (ev_block_number ev)
      then (sub_callback sub, ev) :: dispatch subs ev
      else dispatch subs ev
  end.

(** The outer loop, with [log_index]. *)
Fixpoint process_logs (w : EventWatcher) (tx_hash : hash256) (block_number : Z) (block_hash : hash256)
    (log_index : Z) (logs : list LogEntry) : list (C * MatchedEvent) :=
  match logs with
  | [] => []
  | log :: logs =>
      dispatch (subscriptions_ w) (mkMatchedEvent log block_number block_hash tx_hash log_index)
      ++ process_logs w tx_hash block_number block_hash (u32 (log_index + 1)) logs
  end.

Definition process_block_logs (logs : list LogEntry) (block_number : Z) (block_hash : hash256)
    (w : EventWatcher) : list (C * MatchedEvent) :=
  process_logs w zero_hash block_number block_hash 0 logs.

Definition process_receipt (receipt : Receipt) (tx_hash : hash256) (block_number : Z)
    (block_hash : hash256) (w : EventWatcher) : list (C * MatchedEvent) :=
  process_logs w tx_hash block_number block_hash 0 (rc_logs receipt).

(** A change of the subscriptions. *)
Inductive watcher_op := Watch (f : EventFilter) (c : C) | Unwatch (id : Z).

Definition apply_watcher_op (op : watcher_op) (w : EventWatcher) : EventWatcher :=
  match op with
  | Watch f c => snd (watch f c w)
  | Unwatch id => unwatch id w
  end.

Definition run_watcher (ops : list watcher_op) : EventWatcher :=
  fold_left (fun w op => apply_watcher_op op w) ops new_watcher.

(** The number of [watch] calls; the next one is given this number plus one. *)
Fixpoint watches (ops : list watcher_op) : Z :=
  match ops with
  | [] => 0
  | Watch _ _ :: ops => 1 + watches ops
  | Unwatch _ :: ops => watches ops
  end.
End watcher.
Arguments Subscription C : clear implicits.
Arguments EventWatcher C : clear implicits.
Arguments watcher_op C : clear implicits.

(** ** Filters *)

Lemma elem_of_concat {A} (x : A) ls : x ∈ concat ls <-> exists l, x ∈ l /\ l ∈ ls.
Proof.
  rewrite list_elem_of_In, List.in_concat. split; intros (l & Hl & Hx); exists l; by rewrite !list_elem_of_In in *.
Qed.

Lemma topics_match_iff ts log : forall i,
  topics_match i ts log = true
  <-> forall j t, ts !! j = Some (Some t) -> log_topics log !! (i + j)%nat = Some t.
Proof.
  induction ts as [| [t |] ts IH]; intros i; cbn [topics_match].
  - split; [by intros _ j t Hj; rewrite lookup_nil in Hj | done].
  - destruct (Z.leb_spec (len (log_topics log)) (Z.of_nat i)) as [Hl|Hl]; unfold len in Hl.
    { split; [done |]. intros H. specialize (H 0%nat t eq_refl). apply lookup_lt_Some in H. lia. }
    pose proof (nth_lookup_or_length (log_topics log) i []) as [Hi | Hi]; [| lia].
    case_bool_decide as Hne.
    { split; [done |]. intros H. specialize (H 0%nat t eq_refl). rewrite Nat.add_0_r in H. congruence. }
    rewrite Hne in Hi. rewrite IH. split; intros H j u Hj.
    + destruct j as [| j]; [cbn in Hj; rewrite Nat.add_0_r; congruence |].
      rewrite <- Nat.add_succ_comm. by apply H.
    + rewrite Nat.add_succ_comm. by apply H.
  - rewrite IH. split; intros H j u Hj.
    + destruct j as [| j]; [done |]. rewrite <- Nat.add_succ_comm. by apply H.
    + rewrite Nat.add_succ_comm. by apply H.
Qed.

Lemma and_iff_compat (A B A' B' : Prop) : (A <-> A') -> (B <-> B') -> (A /\ B <-> A' /\ B').
Proof. tauto. Qed.

(** a filter accepts exactly the logs of [eth_getLogs]: the block is in the inclusive range, the
    emitter is one of the listed addresses (any, when none is listed), and every position of
    [topics] that is not a wildcard has its exact value in the log, which must be that long. *)
Theorem matches_iff f log block :
  matches f log block = true
  <-> (forall from, from_block f = Some from -> from <= block)
      /\ (forall to, to_block f = Some to -> block <= to)
      /\ (addresses f = [] \/ log_address log ∈ addresses f)
      /\ (forall i t, topics f !! i = Some (Some t) -> log_topics log !! i = Some t).
Proof.
  assert (forall b1 b2 b3 t : bool,
    (if b1 then false else if b2 then false else if b3 then false else t) = true
    <-> b1 = false /\ b2 = false /\ b3 = false /\ t = true) as Hif by (intros [] [] [] []; intuition congruence).
  unfold matches. rewrite Hif, (topics_match_iff (topics f) log 0).
  repeat apply and_iff_compat; try done.
  - destruct (from_block f) as [a|]; [| by split].
    rewrite Z.ltb_ge. split; [by intros H from [= <-] | auto].
  - destruct (to_block f) as [a|]; [| by split].
    rewrite Z.ltb_ge. split; [by intros H from [= <-] | auto].
  - destruct (addresses f) as [| a l]; cbn [empty negb andb]; [by split; [left |] |].
    rewrite bool_decide_eq_false. split; [right; by apply dec_stable | intros [|]; [done | tauto]].
Qed.

(** ** Subscriptions *)
Section watcher_facts.
Context {C : Type}.
Implicit Types (ops pre post : list (watcher_op C)) (w : EventWatcher C).

Lemma watches_app ops ops' : watches (ops ++ ops') = watches ops + watches ops'.
Proof. induction ops as [| [] ops IH]; cbn [app watches]; lia. Qed.

Lemma watches_nonneg ops : 0 <= watches ops.
Proof. induction ops as [| [] ops IH]; cbn [watches]; lia. Qed.

Lemma run_watcher_snoc ops op : run_watcher (ops ++ [op]) = apply_watcher_op op (run_watcher ops).
Proof. unfold run_watcher. by rewrite fold_left_app. Qed.

Lemma run_watcher_next_id ops :
  watches ops < 2 ^ 32 - 1 -> next_id_ (run_watcher ops) = watches ops + 1.
Proof.
  induction ops as [| op ops IH] using rev_ind; [done |].
  rewrite run_watcher_snoc, watches_app. intros Hlt. pose proof (watches_nonneg ops).
  destruct op as [f c | id]; cbn [watches apply_watcher_op watch unwatch snd next_id_] in *.
  - rewrite IH by lia. unfold u32. rewrite Z.mod_small; lia.
  - rewrite IH; lia.
Qed.

(** The subscriptions that the operations leave: the watches not undone since. *)
Definition active ops (s : Subscription C) : Prop :=
  exists pre post, ops = pre ++ Watch (sub_filter s) (sub_callback s) :: post
                   /\ sub_id s = watches pre + 1 /\ (Unwatch (sub_id s) ∉ post).

Lemma active_snoc_watch ops f c s :
  active (ops ++ [Watch f c]) s <-> active ops s \/ s = mkSubscription (watches ops + 1) f c.
Proof.
  split.
  - intros (pre & post & Hops & Hid & Hn). destruct post as [| op post] using rev_ind.
    + apply app_inj_tail in Hops as [<- [= Hf Hc]]. right. destruct s; cbn in *; congruence.
    + clear IHpost. rewrite app_comm_cons, app_assoc in Hops. apply app_inj_tail in Hops as [-> <-].
      left. exists pre, post. split_and!; [done | done |]. intros Hi. apply Hn.
      rewrite elem_of_app. by left.
  - intros [(pre & post & -> & Hid & Hn) | ->].
    + exists pre, (post ++ [Watch f c]). rewrite <- app_assoc. split_and!; [done | done |].
      rewrite elem_of_app, list_elem_of_singleton. by intros [|].
    + exists ops, []. split_and!; [done | done |]. apply not_elem_of_nil.
Qed.

Lemma active_snoc_unwatch ops id s :
  active (ops ++ [Unwatch id]) s <-> active ops s /\ sub_id s <> id.
Proof.
  split.
  - intros (pre & post & Hops & Hid & Hn). destruct post as [| op post] using rev_ind.
    + by apply app_inj_tail in Hops as [_ [=]].
    + clear IHpost. rewrite app_comm_cons, app_assoc in Hops. apply app_inj_tail in Hops as [-> <-].
      rewrite elem_of_app, list_elem_of_singleton in Hn. split; [| intros E; apply Hn; right; congruence].
      exists pre, post. split_and!; [done | done |]. intros Hi. apply Hn. by left.
  - intros [(pre & post & -> & Hid & Hn) Hne]. exists pre, (post ++ [Unwatch id]).
    rewrite <- app_assoc. split_and!; [done | done |].
    rewrite elem_of_app, list_elem_of_singleton. intros [| [= E]]; [done | congruence].
Qed.

Lemma active_id_bound ops s : active ops s -> 1 <= sub_id s <= watches ops.
Proof.
  intros (pre & post & -> & -> & _). rewrite watches_app. cbn [watches].
  pose proof (watches_nonneg pre). pose proof (watches_nonneg post). lia.
Qed.

Lemma NoDup_map_filter {A B} (f : A -> B) (P : A -> Prop) `{!forall x, Decision (P x)} (l : list A) :
  NoDup (map f l) -> NoDup (map f (filter P l)).
Proof.
  induction l as [| x l IH]; [done |]. cbn [map]. intros [Hx Hl]%list.NoDup_cons.
  rewrite filter_cons. case_decide; [| by apply IH]. cbn [map]. apply list.NoDup_cons.
  split; [| by apply IH]. intros (y & E & Hy)%list_elem_of_fmap. rewrite E in Hx. apply Hx.
  apply list_elem_of_filter in Hy as [_ Hy]. apply list_elem_of_fmap. by exists y.
Qed.

(** The watcher holds exactly the active subscriptions, under distinct ids. *)
Lemma run_watcher_active ops :
  watches ops < 2 ^ 32 ->
  (forall s, s ∈ subscriptions_ (run_watcher ops) <-> active ops s)
  /\ NoDup (map sub_id (subscriptions_ (run_watcher ops))).
Proof.
  induction ops as [| op ops IH] using rev_ind.
  { intros _. split; [| constructor]. intros s. cbn. split; [by intros ?%not_elem_of_nil |].
    intros (pre & post & Hops & _). by destruct pre. }
  rewrite run_watcher_snoc, watches_app. intros Hlt.
  destruct op as [f c | id]; cbn [watches apply_watcher_op watch unwatch snd subscriptions_] in *.
  - destruct (IH ltac:(lia)) as [Ha Hn]. rewrite run_watcher_next_id by lia. split.
    + intros s. by rewrite elem_of_app, Ha, list_elem_of_singleton, active_snoc_watch.
    + rewrite map_app. apply list.NoDup_app. split; [done |]. split; [| apply list.NoDup_singleton].
      intros i Hi ->%list_elem_of_singleton. apply list_elem_of_fmap in Hi as (s & Hs & Hin).
      apply Ha, active_id_bound in Hin. cbn in Hs. lia.
  - destruct (IH ltac:(lia)) as [Ha Hn]. split.
    + intros s. rewrite list_elem_of_filter, Ha, active_snoc_unwatch. tauto.
    + by apply NoDup_map_filter.
Qed.

(** ** Deliveries *)

(** The calls a log at position [i] of its receipt (or block) causes, in the order of the
    subscriptions. *)
Definition log_calls w tx_hash block_number block_hash (i : Z) (log : LogEntry) : list (C * MatchedEvent) :=
  map (fun s => (sub_callback s, mkMatchedEvent log block_number block_hash tx_hash i))
    (filter (fun s => matches (sub_filter s) log block_number = true) (subscriptions_ w)).

Lemma dispatch_filter subs ev :
  dispatch subs ev
  = map (fun s : Subscription C => (sub_callback s, ev))
      (filter (fun s => matches (sub_filter s) (ev_log ev) (ev_block_number ev) = true) subs).
Proof.
  induction subs as [| s subs IH]; [done |]. cbn [dispatch]. rewrite filter_cons.
  destruct (matches _ _ _); cbn; by rewrite IH.
Qed.

Lemma process_logs_calls w tx n bh logs : forall i,
  0 <= i -> i + len logs <= 2 ^ 32 ->
  process_logs w tx n bh i logs
  = concat (imap (fun k log => log_calls w tx n bh (i + Z.of_nat k) log) logs).
Proof.
  induction logs as [| log logs IH]; intros i Hi Hlt; [done |].
  cbn [process_logs]. rewrite imap_cons. cbn [concat]. rewrite dispatch_filter.
  f_equal; [unfold log_calls; cbn; by rewrite Z.add_0_r |].
  destruct logs as [| log' logs]; [done |]. rewrite !len_cons in *. pose proof (len_nonneg logs).
  unfold u32. rewrite Z.mod_small by lia. rewrite IH by (rewrite ?len_cons; lia).
  f_equal. apply imap_ext. intros k l _. cbn. f_equal. lia.
Qed.

(** C34: dispatch of a receipt: after any sequence of [watch] and [unwatch] calls, the calls made
    are, log by log in receipt order and for each log in the order of the subscriptions,
    one for each subscription whose filter matches; a callback is called for a log exactly
    when some [watch] call with it has not been followed by [unwatch] of the id that call
    returned, and the event carries the block, the transaction and the log's position in this receipt. That
    is not its position in the block's log set, as which event_filter.hpp documents [log_index]: every
    receipt of a block counts from 0 again ([receipts_restart_log_index]). *)
Theorem receipt_delivery ops receipt tx n bh :
  watches ops < 2 ^ 32 -> len (rc_logs receipt) <= 2 ^ 32 ->
  let w := run_watcher ops in
  process_receipt receipt tx n bh w
  = concat (imap (fun k log => log_calls w tx n bh (Z.of_nat k) log) (rc_logs receipt))
  /\ NoDup (map sub_id (subscriptions_ w))
  /\ forall c ev, (c, ev) ∈ process_receipt receipt tx n bh w <->
      exists pre f post i log,
        ops = pre ++ Watch f c :: post /\ (Unwatch (fst (watch f c (run_watcher pre))) ∉ post)
        /\ rc_logs receipt !! i = Some log /\ matches f log n = true
        /\ ev = mkMatchedEvent log n bh tx (Z.of_nat i).
Proof.
  intros Hops Hlen w. destruct (run_watcher_active ops Hops) as [Hact Hnd].
  assert (process_receipt receipt tx n bh w
          = concat (imap (fun k log => log_calls w tx n bh (Z.of_nat k) log) (rc_logs receipt))) as Hp.
  { unfold process_receipt. rewrite process_logs_calls by lia. reflexivity. }
  split_and!; [exact Hp | exact Hnd |]. intros c ev. rewrite Hp, elem_of_concat.
  split.
  - intros (l & Hin & Hl). apply elem_of_lookup_imap in Hl as (i & log & -> & Hlog).
    apply list_elem_of_fmap in Hin as (s & [= -> ->] & [Hm Hs]%list_elem_of_filter).
    apply Hact in Hs as (pre & post & -> & Hid & Hn).
    exists pre, (sub_filter s), post, i, log. split_and!; try done. cbn.
    rewrite run_watcher_next_id; [congruence |].
    rewrite watches_app in Hops. cbn [watches] in Hops. pose proof (watches_nonneg post). lia.
  - intros (pre & f & post & i & log & -> & Hn & Hlog & Hm & ->).
    exists (log_calls w tx n bh (Z.of_nat i) log). split; [| apply elem_of_lookup_imap; by exists i, log].
    apply list_elem_of_fmap. exists (mkSubscription (fst (watch f c (run_watcher pre))) f c).
    split; [done |]. apply list_elem_of_filter. split; [done |]. apply Hact.
    exists pre, post. split_and!; [done | | done]. cbn.
    rewrite run_watcher_next_id; [done |].
    rewrite watches_app in Hops. cbn [watches] in Hops. pose proof (watches_nonneg post). lia.
Qed.
End watcher_facts.

(** The first logs of two receipts of one block are delivered with the same index. *)
Lemma receipts_restart_log_index {C} (f : EventFilter) (c : C) log log' r r' tx tx' n bh :
  rc_logs r = [log] -> rc_logs r' = [log'] -> matches f log n = true -> matches f log' n = true ->
  let w := run_watcher [Watch f c] in
  process_receipt r tx n bh w = [(c, mkMatchedEvent log n bh tx 0)]
  /\ process_receipt r' tx' n bh w = [(c, mkMatchedEvent log' n bh tx' 0)].
Proof.
  intros Hr Hr' Hm Hm'. unfold process_receipt. rewrite Hr, Hr'. cbn. by rewrite Hm, Hm'.
Qed.

(** ** Instances *)

Definition sample_filter : EventFilter :=
  mkEventFilter [log_address sample_log] [None] (Some 5) None.

Lemma receipt_delivery_witness :
  let ops := [Watch sample_filter 7; Watch sample_filter 8; Unwatch 1] in
  (8, mkMatchedEvent sample_log 6 zero_hash zero_hash 0)
    ∈ process_receipt sample_receipt zero_hash 6 zero_hash (run_watcher ops).
Proof.
  intros ops. apply (receipt_delivery ops sample_receipt zero_hash 6 zero_hash);
    [reflexivity | vm_compute; discriminate |].
  exists [Watch sample_filter 7], sample_filter, [Unwatch 1], 0%nat, sample_log.
  split_and!; [reflexivity | | reflexivity | vm_compute; reflexivity | reflexivity].
  intros Hin. apply list_elem_of_singleton in Hin. vm_compute in Hin. discriminate Hin.
Defined.
