(* ===== verification/AbiDecoder.v ===== *)
(** * AbiDecoder: Solidity event logs

    [include/eth/abi_decoder.hpp], [src/eth/abi_decoder.cpp]. The Keccak-256 sponge of the
    crypto3 library is the parameter [keccak]. A [size_t] is an integer modulo 2^64, and a read
    of the data buffer outside its bounds, which C++ leaves undefined, is the outcome
    [OutOfBounds]. A [std::string] is its octets. *)
From S2P Require Export EthObjects.
Open Scope Z_scope.

Definition kAbiWordSize : Z := 32.
Definition kAbiAddressSize : Z := 20.
Definition kAbiAddressPadding : Z := kAbiWordSize - kAbiAddressSize.
Definition kAbiBoolByteIndex : Z := kAbiWordSize - 1.

(** [using AbiValue = std::variant<...>]. *)
Inductive AbiValue :=
| VAddress (a : address)
| VUint (n : Z)
| VBytes32 (h : hash256)
| VBool (b : bool)
| VBytes (s : bytes)
| VString (s : bytes).

Inductive AbiParamKind := kAddress | kUint | kInt | kBytes32 | kBool | kBytes | kString.

Record AbiParam := mkAbiParam {
  ap_kind : AbiParamKind;
  ap_indexed : bool;
  ap_name : bytes
}.

#[export] Instance AbiValue_eq_dec : EqDecision AbiValue.
Proof. solve_decision. Defined.
#[export] Instance AbiParamKind_eq_dec : EqDecision AbiParamKind.
Proof. solve_decision. Defined.

(** What a call ends in when it does not return a value. *)
Inductive abi_fault :=
| Error (e : DecodingError)
| OutOfBounds.
Abbreviation AbiResult := (outcome abi_fault).

(** The lambda [read64be]: the pointer [p] is the data from there on. *)
Definition read64be (p : bytes) : Z :=
  Z.lor (Z.lor (Z.lor (Z.lor (Z.lor (Z.lor (Z.lor
    (Z.shiftl (byte_at p 0) 56)
    (Z.shiftl (byte_at p 1) 48))
    (Z.shiftl (byte_at p 2) 40))
    (Z.shiftl (byte_at p 3) 32))
    (Z.shiftl (byte_at p 4) 24))
    (Z.shiftl (byte_at p 5) 16))
    (Z.shiftl (byte_at p 6) 8))
    (byte_at p 7).

(** [read_uint256_be]: the four words of the [uint256], the least significant first. *)
Definition read_uint256_be (data : bytes) : Z :=
  read64be (drop 24 data)
  + 2 ^ 64 * read64be (drop 16 data)
  + 2 ^ 128 * read64be (drop 8 data)
  + 2 ^ 192 * read64be (drop 0 data).

Definition is_dynamic (kind : AbiParamKind) : bool :=
  match kind with kBytes | kString => true | _ => false end.

Definition decode_abi_word (word : hash256) (kind : AbiParamKind) : AbiResult AbiValue :=
  match kind with
  | kAddress => Ok (VAddress (drop (Z.to_nat kAbiAddressPadding) word))
  | kUint | kInt => Ok (VUint (read_uint256_be word))
  | kBytes32 => Ok (VBytes32 word)
  | kBool => Ok (VBool (negb (byte_at word kAbiBoolByteIndex =? 0)))
  | kBytes => Ok (VBytes [])
  | kString => Ok (VString [])
  end.

Definition decode_indexed_param (topic : hash256) (param : AbiParam) : AbiResult AbiValue :=
  decode_abi_word topic (ap_kind param).

(** [std::copy(data.data() + off, data.data() + off + n, ...)]. *)
Definition read_at (data : bytes) (off n : Z) : AbiResult bytes :=
  if off + n <=? len data then Ok (substr data off n) else Err OutOfBounds.

(** The branch of [decode_log_data] for a dynamic type. *)
Definition decode_dynamic (data : bytes) (kind : AbiParamKind) (head_offset : Z) : AbiResult AbiValue :=
  obind (read_at data head_offset kAbiWordSize) (fun offset_word =>
  let raw_offset := read_uint256_be offset_word in
  if 2 ^ 64 - 1 <? raw_offset then Err (Error DecodingError.kOverflow) else
  let tail_offset := usize raw_offset in
  if len data <? usize (tail_offset + kAbiWordSize) then Err (Error DecodingError.kInputTooShort) else
  obind (read_at data tail_offset kAbiWordSize) (fun len_word =>
  let raw_len := read_uint256_be len_word in
  if 2 ^ 64 - 1 <? raw_len then Err (Error DecodingError.kOverflow) else
  let content_len := usize raw_len in
  let content_offset := usize (tail_offset + kAbiWordSize) in
  if len data <? usize (content_offset + content_len) then Err (Error DecodingError.kInputTooShort) else
  obind (read_at data content_offset content_len) (fun content =>
  Ok (match kind with kBytes => VBytes content | _ => VString content end)))).

(** The body of the loop of [decode_log_data]. *)
Definition decode_param (data : bytes) (kind : AbiParamKind) (i : Z) : AbiResult AbiValue :=
  let head_offset := usize (i * kAbiWordSize) in
  if negb (is_dynamic kind)
  then obind (read_at data head_offset kAbiWordSize) (fun word => decode_abi_word word kind)
  else decode_dynamic data kind head_offset.

Fixpoint decode_params (data : bytes) (i : Z) (params : list AbiParam) : AbiResult (list AbiValue) :=
  match params with
  | [] => Ok []
  | p :: params =>
      obind (decode_param data (ap_kind p) i) (fun v =>
      obind (decode_params data (i + 1) params) (fun vs => Ok (v :: vs)))
  end.

Definition decode_log_data (data : bytes) (params : list AbiParam) : AbiResult (list AbiValue) :=
  if empty params then Ok []
  else
    let head_size := usize (len params * kAbiWordSize) in
    if len data <? head_size then Err (Error DecodingError.kInputTooShort)
    else decode_params data 0 params.

(** The loop of [decode_log] over the parameters: the values of the indexed ones, and
    [data_params]. *)
Fixpoint decode_topics (topics : list hash256) (topic_index : nat) (params : list AbiParam) :
    AbiResult (list AbiValue * list AbiParam) :=
  match params with
  | [] => Ok ([], [])
  | p :: params =>
      if ap_indexed p then
        if len topics <=? Z.of_nat topic_index then Err (Error DecodingError.kInputTooShort)
        else
          obind (decode_indexed_param (nth topic_index topics []) p) (fun v =>
          obind (decode_topics topics (S topic_index) params) (fun '(vs, ps) => Ok (v :: vs, ps)))
      else obind (decode_topics topics topic_index params) (fun '(vs, ps) => Ok (vs, p :: ps))
  end.

Section keccak.
(** [nil::crypto3::hash<keccak_1600<256>>]. *)
Context (keccak : bytes -> hash256).

(** [keccak256(const uint8_t*, size_t)] and [keccak256(const std::string&)]. *)
Definition keccak256 (data : bytes) : hash256 := keccak data.
Definition keccak256_text (text : bytes) : hash256 := keccak256 text.

Definition event_signature_hash (signature : bytes) : hash256 := keccak256_text signature.

Definition decode_log (log : LogEntry) (signature : bytes) (params : list AbiParam) :
    AbiResult (list AbiValue) :=
  if empty (log_topics log) then Err (Error DecodingError.kInputTooShort)
  else
    let expected_sig := event_signature_hash signature in
    if bool_decide (nth 0 (log_topics log) [] <> expected_sig)
    then Err (Error DecodingError.kUnexpectedString)
    else
      obind (decode_topics (log_topics log) 1 params) (fun '(vals, data_params) =>
      obind (decode_log_data (log_data log) data_params) (fun data_vals =>
      Ok (vals ++ data_vals))).
End keccak.

(** ** The ABI encoding *)

(** The value is one of the type. *)
Definition abi_typed (kind : AbiParamKind) (v : AbiValue) : Prop :=
  match kind, v with
  | kAddress, VAddress a => is_array 20 a
  | (kUint | kInt), VUint n => fits 32 n
  | kBytes32, VBytes32 h => is_array 32 h
  | kBool, VBool _ => True
  | kBytes, VBytes s => bytes_ok s
  | kString, VString s => bytes_ok s
  | _, _ => False
  end.

(** The word of a value of a static type. *)
Definition abi_word (v : AbiValue) : bytes :=
  match v with
  | VAddress a => repeat 0 12 ++ a
  | VUint n => be_bytes 32 n
  | VBytes32 h => h
  | VBool b => be_bytes 32 (if b then 1 else 0)
  | VBytes _ | VString _ => []
  end.

(** The content of a value of a dynamic type. *)
Definition abi_content (v : AbiValue) : option bytes :=
  match v with VBytes s | VString s => Some s | _ => None end.

(** The content with its length, padded to whole words. *)
Definition abi_tail (v : AbiValue) : bytes :=
  match abi_content v with
  | Some s => be_bytes 32 (len s) ++ s ++ repeat 0 (Z.to_nat ((- len s) mod 32))
  | None => []
  end.

(** The head words, the first tail being at [off]. *)
Fixpoint abi_heads (off : Z) (vs : list AbiValue) : bytes :=
  match vs with
  | [] => []
  | v :: vs =>
      match abi_content v with
      | Some _ => be_bytes 32 off ++ abi_heads (off + len (abi_tail v)) vs
      | None => abi_word v ++ abi_heads off vs
      end
  end.

Definition abi_tails (vs : list AbiValue) : bytes := concat (map abi_tail vs).

Definition abi_encode (vs : list AbiValue) : bytes :=
  abi_heads (32 * len vs) vs ++ abi_tails vs.

(** ** Words *)

Lemma read64be_spec p rest :
  bytes_ok p -> length p = 8%nat -> read64be (p ++ rest) = be_value p.
Proof.
  intros Hp Hl. do 8 (destruct p as [| ? p]; [done |]). destruct p; [| done]. clear Hl.
  repeat match goal with H : bytes_ok (_ :: _) |- _ => apply bytes_ok_cons in H as [? H] end.
  unfold uint8 in *. unfold read64be. cbn [app]. unfold byte_at. simpl nth.
  rewrite !Z.shiftl_mul_pow2 by lia.
  rewrite !be_value_cons. change (be_value []) with 0. unfold len; cbn [length].
  change (2 ^ (8 * Z.of_nat 7)) with (2 ^ 56). change (2 ^ (8 * Z.of_nat 6)) with (2 ^ 48).
  change (2 ^ (8 * Z.of_nat 5)) with (2 ^ 40). change (2 ^ (8 * Z.of_nat 4)) with (2 ^ 32).
  change (2 ^ (8 * Z.of_nat 3)) with (2 ^ 24). change (2 ^ (8 * Z.of_nat 2)) with (2 ^ 16).
  change (2 ^ (8 * Z.of_nat 1)) with (2 ^ 8). change (2 ^ (8 * Z.of_nat 0)) with 1.
  rewrite (lor_horner _ _ 56 48), (lor_horner _ _ 48 40), (lor_horner _ _ 40 32), (lor_horner _ _ 32 24),
    (lor_horner _ _ 24 16), (lor_horner _ _ 16 8) by lia.
  change (2 ^ 8) with (2 ^ (0 + 8)). rewrite <- (Z.mul_1_r z6). change 1 with (2 ^ 0) at 1.
  rewrite (lor_horner _ _ (0 + 8) 0) by lia. lia.
Qed.

Lemma be_value_app u v : be_value (u ++ v) = be_value u * 2 ^ (8 * len v) + be_value v.
Proof.
  unfold be_value. rewrite rev_app_distr, le_value_app, len_rev. lia.
Qed.

Lemma read_uint256_be_spec w :
  is_array 32 w -> read_uint256_be w = be_value w.
Proof.
  intros [Hl Hw]. unfold read_uint256_be.
  assert (forall n, (n + 8 <= 32)%nat ->
    read64be (drop n w) = be_value (take 8 (drop n w))) as Hr.
  { intros n Hn. rewrite <- (take_drop 8 (drop n w)) at 1. apply read64be_spec.
    - by apply bytes_ok_take, bytes_ok_drop.
    - rewrite length_take, length_drop. lia. }
  rewrite !Hr by lia.
  assert (w = take 8 (drop 0 w) ++ take 8 (drop 8 w) ++ take 8 (drop 16 w) ++ take 8 (drop 24 w)) as E.
  { do 32 (destruct w as [| ? w]; [done |]). by destruct w. }
  rewrite E at 5. rewrite !be_value_app. unfold len. rewrite !length_app, !length_take, !length_drop, Hl.
  cbn [Nat.min Nat.sub Nat.add]. 
  change (2 ^ (8 * Z.of_nat 8)) with (2 ^ 64). change (2 ^ (8 * Z.of_nat 16)) with (2 ^ 128).
  change (2 ^ (8 * Z.of_nat 24)) with (2 ^ 192). ring.
Qed.

(** ** Decoding the encoding *)

Lemma abi_dynamic kind v :
  abi_typed kind v ->
  if is_dynamic kind then exists s, abi_content v = Some s /\ bytes_ok s /\
    v = match kind with kBytes => VBytes s | _ => VString s end
  else abi_content v = None.
Proof. destruct kind, v; cbn; try done; eauto. Qed.

Lemma be_word_array n : is_array 32 (be_bytes 32 n).
Proof. split; [apply length_be_bytes | apply be_bytes_ok]. Qed.

Lemma abi_word_array kind v : abi_typed kind v -> is_dynamic kind = false -> is_array 32 (abi_word v).
Proof.
  destruct kind, v; cbn [abi_typed abi_word is_dynamic]; try done; intros H _; try apply be_word_array.
  destruct H as [Hl Hb]. split; [rewrite length_app, Hl; reflexivity |].
  apply bytes_ok_app. split; [octets | done].
Qed.

Lemma decode_abi_word_word kind v :
  abi_typed kind v -> is_dynamic kind = false -> decode_abi_word (abi_word v) kind = Ok v.
Proof.
  intros Ht Hd. pose proof (abi_word_array kind v Ht Hd) as Hw.
  destruct kind, v as [a | n | h | [] | |]; try done; unfold decode_abi_word;
    cbn [abi_typed abi_word] in *; try (by rewrite read_uint256_be_spec, be_value_be_bytes by done); done.
Qed.

Lemma read_at_app pre mid post : read_at (pre ++ mid ++ post) (len pre) (len mid) = Ok mid.
Proof.
  unfold read_at, substr. rewrite drop_len_app, take_len_app.
  pose proof (len_nonneg post). rewrite !len_app. by destruct (Z.leb_spec (len pre + len mid) (len pre + (len mid + len post))); [| lia].
Qed.

Lemma read_word_app pre w post :
  is_array 32 w -> read_at (pre ++ w ++ post) (len pre) kAbiWordSize = Ok w.
Proof.
  intros [Hl _]. replace kAbiWordSize with (len w); [apply read_at_app |]. unfold len. by rewrite Hl.
Qed.

Lemma usize_small x : 0 <= x < 2 ^ 64 -> usize x = x.
Proof. apply Z.mod_small. Qed.

Lemma read_be_word n : fits 32 n -> read_uint256_be (be_bytes 32 n) = n.
Proof.
  intros Hn. rewrite read_uint256_be_spec by (split; [apply length_be_bytes | apply be_bytes_ok]).
  by apply be_value_be_bytes.
Qed.

Lemma decode_dynamic_tail data kind v pre post pre' post' :
  abi_typed kind v -> is_dynamic kind = true -> len data < 2 ^ 64 ->
  data = pre ++ be_bytes 32 (len pre') ++ post -> data = pre' ++ abi_tail v ++ post' ->
  decode_dynamic data kind (len pre) = Ok v.
Proof.
  intros Ht Hd Hlen E1 E2. pose proof (abi_dynamic kind v Ht) as Hc. rewrite Hd in Hc.
  destruct Hc as (s & Hs & Hok & ->). unfold abi_tail in E2. rewrite Hs in E2.
  rewrite <- !app_assoc in E2. set (post'' := repeat 0 _ ++ post') in E2.
  unfold decode_dynamic. rewrite E1 at 1. rewrite read_word_app by apply be_word_array. cbn [obind].
  assert (len data = len pre' + 32 + len s + len post'') as Hd'.
  { rewrite E2, !len_app. change (len (be_bytes 32 (len s))) with 32. lia. }
  pose proof (len_nonneg pre'). pose proof (len_nonneg s). pose proof (len_nonneg post'').
  rewrite read_be_word by (unfold fits; lia). unfold kAbiWordSize in *.
  destruct (Z.ltb_spec (2 ^ 64 - 1) (len pre')); [lia |].
  rewrite (usize_small (len pre')) by lia. rewrite (usize_small (len pre' + 32)) by lia.
  destruct (Z.ltb_spec (len data) (len pre' + 32)); [lia |].
  rewrite E2 at 1. change 32 with kAbiWordSize at 2. rewrite read_word_app by apply be_word_array. cbn [obind].
  rewrite read_be_word by (unfold fits; lia). unfold kAbiWordSize.
  destruct (Z.ltb_spec (2 ^ 64 - 1) (len s)); [lia |].
  rewrite (usize_small (len s)) by lia. rewrite (usize_small (len pre' + 32 + len s)) by lia.
  destruct (Z.ltb_spec (len data) (len pre' + 32 + len s)); [lia |].
  assert (data = (pre' ++ be_bytes 32 (len s)) ++ s ++ post'') as E3 by (by rewrite E2, <- app_assoc).
  assert (len pre' + 32 = len (pre' ++ be_bytes 32 (len s))) as -> by (by rewrite len_app).
  rewrite E3, read_at_app. done.
Qed.

Lemma len_abi_heads params vs : Forall2 (fun p v => abi_typed (ap_kind p) v) params vs ->
  forall off, len (abi_heads off vs) = 32 * len vs.
Proof.
  induction 1 as [| p v params vs Hp _ IH]; intros off; [done |]. cbn [abi_heads].
  pose proof (abi_dynamic _ v Hp) as Hd. pose proof (abi_word_array _ v Hp) as Hw. rewrite len_cons.
  destruct (is_dynamic (ap_kind p)).
  - destruct Hd as (s & -> & _). rewrite len_app, IH. change (len (be_bytes 32 off)) with 32. lia.
  - rewrite Hd, len_app, IH. destruct (Hw eq_refl) as [Hl _]. unfold len at 1. rewrite Hl. lia.
Qed.

Lemma decode_params_encode params vs :
  Forall2 (fun p v => abi_typed (ap_kind p) v) params vs ->
  forall data pre mid rest i,
  data = pre ++ abi_heads (len pre + 32 * len vs + len mid) vs ++ mid ++ abi_tails vs ++ rest ->
  len pre = 32 * i -> len data < 2 ^ 64 ->
  decode_params data i params = Ok vs.
Proof.
  induction 1 as [| p v params vs Hp Hps IH]; intros data pre mid rest i E Hi Hlen; [done |].
  cbn [decode_params]. rewrite len_cons in E.
  pose proof (abi_dynamic _ v Hp) as Hd. pose proof (abi_word_array _ v Hp) as Hw.
  pose proof (decode_abi_word_word _ v Hp) as Hdw. pose proof (len_nonneg pre).
  assert (len pre <= len data) as Hpre by (rewrite E, len_app; match goal with |- _ <= _ + len ?x => pose proof (len_nonneg x) end; lia).
  unfold decode_param, kAbiWordSize. replace (i * 32) with (len pre) by lia. rewrite usize_small by lia.
  cbn [abi_heads] in E. unfold abi_tails in E. cbn [map concat] in E. fold (abi_tails vs) in E.
  destruct (is_dynamic (ap_kind p)) eqn:Hdyn; cbn [negb].
  - destruct Hd as (s & Hs & _). rewrite Hs in E. rewrite <- !app_assoc in E.
    set (off := len pre + 32 * (1 + len vs) + len mid) in *.
    set (heads := abi_heads (off + len (abi_tail v)) vs) in *.
    assert (off = len (pre ++ be_bytes 32 off ++ heads ++ mid)) as Hoff.
    { rewrite !len_app. unfold heads. rewrite (len_abi_heads _ _ Hps).
      change (len (be_bytes 32 off)) with 32. unfold off. lia. }
    rewrite (decode_dynamic_tail data (ap_kind p) v pre (heads ++ mid ++ abi_tail v ++ abi_tails vs ++ rest)
      (pre ++ be_bytes 32 off ++ heads ++ mid) (abi_tails vs ++ rest)); [| done | done | done | |].
    2: { rewrite <- Hoff. exact E. }
    2: { rewrite E, <- !app_assoc. done. }
    cbn [obind]. rewrite (IH data (pre ++ be_bytes 32 off) (mid ++ abi_tail v) rest (i + 1)); [done | | | done].
    + rewrite E at 1. rewrite <- !app_assoc. do 3 f_equal. unfold heads. f_equal.
      rewrite !len_app. change (len (be_bytes 32 off)) with 32. unfold off. lia.
    + rewrite len_app. change (len (be_bytes 32 off)) with 32. lia.
  - rewrite Hd in E. assert (abi_tail v = []) as Ht by (unfold abi_tail; by rewrite Hd).
    rewrite Ht in E. cbn [app] in E. rewrite <- !app_assoc in E. destruct (Hw eq_refl) as [Hl Hok].
    assert (len (abi_word v) = 32) as Hl32 by (unfold len; by rewrite Hl).
    rewrite E at 1. change 32 with kAbiWordSize at 1. rewrite read_word_app by done. cbn [obind]. rewrite Hdw by done.
    cbn [obind]. rewrite (IH data (pre ++ abi_word v) mid rest (i + 1)); [done | | | done].
    + rewrite E at 1. rewrite <- !app_assoc. do 2 f_equal. f_equal. f_equal. rewrite len_app. lia.
    + rewrite len_app. lia.
Qed.

Lemma decode_log_data_encode params vs rest :
  Forall2 (fun p v => abi_typed (ap_kind p) v) params vs ->
  len (abi_encode vs ++ rest) < 2 ^ 64 ->
  decode_log_data (abi_encode vs ++ rest) params = Ok vs.
Proof.
  intros Hps Hlen. unfold decode_log_data. pose proof (len_abi_heads _ _ Hps (32 * len vs)) as Hh.
  pose proof (Forall2_length Hps) as Hl.
  destruct Hps as [| p v params vs Hp Hps]; [done |]. cbn [empty].
  set (vs' := v :: vs) in *. assert (len (p :: params) = len vs') as -> by (unfold len; by rewrite Hl).
  unfold abi_encode in *. rewrite !len_app in Hlen. rewrite Hh in Hlen.
  pose proof (len_nonneg vs'). pose proof (len_nonneg (abi_tails vs')). pose proof (len_nonneg rest).
  unfold kAbiWordSize. rewrite usize_small by lia. rewrite !len_app, Hh.
  destruct (Z.ltb_spec (32 * len vs' + len (abi_tails vs') + len rest) (len vs' * 32)); [lia |].
  apply (decode_params_encode (p :: params) vs' ltac:(by constructor) _ [] [] rest); [| done | rewrite !len_app; lia].
  cbn [app]. rewrite <- app_assoc. change (len []) with 0. rewrite Z.add_0_l, Z.add_0_r. done.
Qed.

(** ** A log with its topics *)

(** The value of an indexed parameter and its topic: the hash of a dynamic value does not
    determine it, and the code gives an empty placeholder. *)
Definition topic_for (p : AbiParam) (v : AbiValue) (t : hash256) : Prop :=
  if is_dynamic (ap_kind p)
  then v = match ap_kind p with kBytes => VBytes [] | _ => VString [] end
  else abi_typed (ap_kind p) v /\ t = abi_word v.

Definition indexed (params : list AbiParam) : list AbiParam := filter (fun p => ap_indexed p = true) params.
Definition unindexed (params : list AbiParam) : list AbiParam := filter (fun p => ap_indexed p = false) params.

Lemma decode_indexed_topic p v t : topic_for p v t -> decode_indexed_param t p = Ok v.
Proof.
  unfold topic_for, decode_indexed_param. destruct (is_dynamic (ap_kind p)) eqn:Hd.
  - intros ->. by destruct (ap_kind p).
  - intros [Ht ->]. by apply decode_abi_word_word.
Qed.

Lemma decode_topics_ok params : forall topics pre vs,
  Forall3 topic_for (indexed params) vs topics ->
  decode_topics (pre ++ topics) (length pre) params = Ok (vs, unindexed params).
Proof.
  induction params as [| p params IH]; intros topics pre vs; unfold indexed, unindexed; cbn [decode_topics].
  { intros H. by inversion H. }
  rewrite !filter_cons. destruct (ap_indexed p) eqn:Hi.
  - rewrite decide_True, decide_False by congruence. intros H. apply Forall3_cons_inv_l in H as (v & vs' & t & topics' & -> & -> & Ht & Hts).
    destruct (Z.leb_spec (len (pre ++ t :: topics')) (Z.of_nat (length pre))) as [Hl|Hl].
    { unfold len in Hl. rewrite length_app in Hl. cbn [length] in Hl. lia. }
    rewrite nth_middle, (decode_indexed_topic _ _ _ Ht). cbn [obind].
    specialize (IH topics' (pre ++ [t]) vs' Hts). rewrite <- app_assoc, length_app, Nat.add_1_r in IH.
    cbn [app] in IH. by rewrite IH.
  - rewrite decide_False, decide_True by congruence. intros H. by rewrite (IH topics pre vs H).
Qed.

(** C19: decoding inverts the ABI encoding: a log whose first topic is the hash of the signature,
    whose other topics are the words of the indexed values and whose data is the head and
    tail encoding of the rest (any octets may follow) decodes to these values, the indexed
    ones first; an indexed value of a dynamic type comes back as the empty placeholder. *)
Theorem decode_log_encode (keccak : bytes -> hash256) signature params addr topics ivs dvs rest :
  Forall3 topic_for (indexed params) ivs topics ->
  Forall2 (fun p v => abi_typed (ap_kind p) v) (unindexed params) dvs ->
  len (abi_encode dvs ++ rest) < 2 ^ 64 ->
  decode_log keccak (mkLogEntry addr (keccak signature :: topics) (abi_encode dvs ++ rest)) signature params
  = Ok (ivs ++ dvs).
Proof.
  intros Hi Hd Hlen. unfold decode_log. cbn [log_topics log_data empty nth].
  rewrite bool_decide_false by (by intros []).
  pose proof (decode_topics_ok params topics [keccak signature] ivs Hi) as Ht. cbn [app length] in Ht.
  rewrite Ht. cbn [obind]. by rewrite decode_log_data_encode.
Qed.

(** ** What decoding of arbitrary data can end in *)

(** An addition of the bounds checks for the dynamic parameter whose head is at [h] wraps
    round: the offset and 32, or the position of the content and its length. *)
Definition wraps (data : bytes) (h : Z) : Prop :=
  let o := be_value (substr data h 32) in
  2 ^ 64 - 32 <= o < 2 ^ 64
  \/ (o + 32 <= len data
      /\ let n := be_value (substr data o 32) in n < 2 ^ 64 /\ 2 ^ 64 <= o + 32 + n).

Section faults.
Context (data : bytes) (Hok : bytes_ok data) (Hlen : len data < 2 ^ 64).

Lemma substr_array o : 0 <= o -> o + 32 <= len data -> is_array 32 (substr data o 32).
Proof.
  intros Ho Hl. unfold len in Hl. split; [| by apply bytes_ok_take, bytes_ok_drop].
  unfold substr. rewrite length_take, length_drop. lia.
Qed.

Lemma read_word_value o : 0 <= o -> o + 32 <= len data ->
  read_at data o 32 = Ok (substr data o 32)
  /\ read_uint256_be (substr data o 32) = be_value (substr data o 32)
  /\ 0 <= be_value (substr data o 32) < 2 ^ 256.
Proof.
  intros Ho Hl. pose proof (substr_array o Ho Hl) as Ha. unfold read_at.
  destruct (Z.leb_spec (o + 32) (len data)); [| lia]. split_and!; [done | by apply read_uint256_be_spec | |];
    pose proof (be_value_bound _ (proj2 Ha)) as Hb; unfold len in Hb; rewrite (proj1 Ha) in Hb;
    change (8 * Z.of_nat 32) with 256 in Hb; lia.
Qed.

Lemma usize_wrap x : 2 ^ 64 <= x < 2 ^ 65 -> usize x = x - 2 ^ 64.
Proof.
  intros Hx. unfold usize. replace x with (x - 2 ^ 64 + 1 * 2 ^ 64) at 1 by lia.
  rewrite Z.mod_add by lia. apply Z.mod_small. lia.
Qed.

(** A dynamic parameter whose head is inside the data. *)
Lemma decode_dynamic_result kind h :
  0 <= h -> h + 32 <= len data -> is_dynamic kind = true ->
  match decode_dynamic data kind h with
  | Ok v => abi_typed kind v /\ ~ wraps data h
  | Err (Error _) => ~ wraps data h
  | Err OutOfBounds => wraps data h
  | Diverged => False
  end.
Proof.
  intros Hh Hl Hd. destruct (read_word_value h Hh Hl) as (Hr & Hv & Hb).
  unfold decode_dynamic, wraps, kAbiWordSize. rewrite Hr. cbn [obind]. rewrite Hv.
  set (o := be_value (substr data h 32)) in *.
  destruct (Z.ltb_spec (2 ^ 64 - 1) o); [lia |]. rewrite (usize_small o) by lia.
  destruct (Z.le_gt_cases (2 ^ 64) (o + 32)).
  { rewrite usize_wrap by lia. destruct (Z.ltb_spec (len data) (o + 32 - 2 ^ 64)); [lia |].
    unfold read_at. destruct (Z.leb_spec (o + 32) (len data)); [lia |]. cbn [obind]. lia. }
  rewrite (usize_small (o + 32)) by lia. destruct (Z.ltb_spec (len data) (o + 32)); [lia |].
  destruct (read_word_value o ltac:(lia) ltac:(lia)) as (Hr' & Hv' & Hb'). rewrite Hr'. cbn [obind]. rewrite Hv'.
  set (n := be_value (substr data o 32)) in *.
  destruct (Z.ltb_spec (2 ^ 64 - 1) n); [lia |]. rewrite (usize_small n) by lia.
  destruct (Z.le_gt_cases (2 ^ 64) (o + 32 + n)).
  { rewrite usize_wrap by lia. destruct (Z.ltb_spec (len data) (o + 32 + n - 2 ^ 64)); [lia |].
    unfold read_at. destruct (Z.leb_spec (o + 32 + n) (len data)); [lia |]. cbn [obind]. lia. }
  rewrite (usize_small (o + 32 + n)) by lia. destruct (Z.ltb_spec (len data) (o + 32 + n)); [lia |].
  unfold read_at. destruct (Z.leb_spec (o + 32 + n) (len data)); [| lia]. cbn [obind].
  split; [| lia].
  assert (bytes_ok (substr data (o + 32) n)) by (by apply bytes_ok_take, bytes_ok_drop).
  by destruct kind.
Qed.

Lemma decode_abi_word_typed kind w : is_array 32 w -> is_dynamic kind = false ->
  exists v, decode_abi_word w kind = Ok v /\ abi_typed kind v.
Proof.
  intros Hw Hd. pose proof (read_uint256_be_spec w Hw) as Hr. destruct Hw as [Hl Hb].
  pose proof (be_value_bound w Hb) as Hv. unfold len in Hv. rewrite Hl in Hv.
  destruct kind; try done; eexists; (split; [reflexivity |]); cbn [abi_typed]; rewrite ?Hr; try done.
  split; [by rewrite length_drop, Hl | by apply bytes_ok_drop].
Qed.

Lemma decode_param_result p i :
  0 <= i -> 32 * (i + 1) <= len data ->
  match decode_param data (ap_kind p) i with
  | Ok v => abi_typed (ap_kind p) v /\ ~ (is_dynamic (ap_kind p) = true /\ wraps data (32 * i))
  | Err (Error _) => ~ (is_dynamic (ap_kind p) = true /\ wraps data (32 * i))
  | Err OutOfBounds => is_dynamic (ap_kind p) = true /\ wraps data (32 * i)
  | Diverged => False
  end.
Proof.
  intros Hi Hl. unfold decode_param, kAbiWordSize. rewrite usize_small by lia.
  replace (i * 32) with (32 * i) by lia. destruct (is_dynamic (ap_kind p)) eqn:Hd; cbn [negb].
  - pose proof (decode_dynamic_result (ap_kind p) (32 * i) ltac:(lia) ltac:(lia) Hd) as H.
    destruct (decode_dynamic data (ap_kind p) (32 * i)) as [|[]|]; tauto.
  - destruct (read_word_value (32 * i) ltac:(lia) ltac:(lia)) as (-> & _). cbn [obind].
    destruct (decode_abi_word_typed (ap_kind p) (substr data (32 * i) 32)
      ltac:(apply substr_array; lia) Hd) as (v & -> & Ht). split; [done | by intros []].
Qed.

(** The position of the first parameter that is not decoded, and why. *)
Lemma decode_params_result params : forall i,
  0 <= i -> 32 * (i + len params) <= len data ->
  match decode_params data i params with
  | Ok vs => Forall2 (fun p v => abi_typed (ap_kind p) v) params vs
  | Err (Error _) => True
  | Err OutOfBounds => exists k p, params !! k = Some p /\ is_dynamic (ap_kind p) = true
                                   /\ wraps data (32 * (i + Z.of_nat k))
  | Diverged => False
  end.
Proof.
  induction params as [| p params IH]; intros i Hi Hl; [constructor |].
  rewrite len_cons in Hl. pose proof (len_nonneg params). cbn [decode_params].
  pose proof (decode_param_result p i Hi ltac:(lia)) as Hp.
  destruct (decode_param data (ap_kind p) i) as [v | [] |]; cbn [obind]; [| done | | done].
  - specialize (IH (i + 1) ltac:(lia) ltac:(lia)).
    destruct (decode_params data (i + 1) params) as [vs | [] |]; cbn [obind]; [| done | | done].
    + constructor; [tauto | done].
    + destruct IH as (k & q & Hq & Hd & Hw). exists (S k), q. split_and!; [done | done |].
      replace (i + Z.of_nat (S k)) with (i + 1 + Z.of_nat k) by lia. done.
  - exists 0%nat, p. rewrite Z.add_0_r. tauto.
Qed.
End faults.

(** decoding of arbitrary data always ends, with one value of the right type for each parameter
    (an address of 20 octets, an integer below 2^256, and so on) or with an error, and reads outside
    the buffer only when the sum of an offset with 32, or of a content position with its length,
    exceeds 64 bits. *)
Theorem decode_log_data_total data params :
  bytes_ok data -> len data < 2 ^ 64 -> len params * 32 < 2 ^ 64 ->
  match decode_log_data data params with
  | Ok vs => Forall2 (fun p v => abi_typed (ap_kind p) v) params vs
  | Err (Error _) => True
  | Err OutOfBounds => exists k p, params !! k = Some p /\ is_dynamic (ap_kind p) = true
                                   /\ wraps data (32 * Z.of_nat k)
  | Diverged => False
  end.
Proof.
  intros Hok Hlen Hp. unfold decode_log_data. destruct params as [| p params]; [constructor |].
  cbn [empty]. pose proof (len_nonneg (p :: params)). unfold kAbiWordSize. rewrite usize_small by lia.
  destruct (Z.ltb_spec (len data) (len (p :: params) * 32)); [done |].
  exact (decode_params_result data Hok Hlen (p :: params) 0 ltac:(lia) ltac:(lia)).
Qed.

(** data that is read out of bounds exists: the one word of any offset in the last 32 values
    below 2^64, for a parameter of type [bytes]. The check of the offset wraps and passes. *)
Theorem decode_log_data_out_of_bounds o name :
  2 ^ 64 - 32 <= o < 2 ^ 64 ->
  decode_log_data (be_bytes 32 o) [mkAbiParam kBytes false name] = Err OutOfBounds.
Proof.
  intros Ho. unfold decode_log_data. cbn [empty].
  pose proof (decode_dynamic_result (be_bytes 32 o) (be_bytes_ok _ _) ltac:(reflexivity) kBytes 0
    ltac:(lia) ltac:(reflexivity) eq_refl) as Hr.
  assert (wraps (be_bytes 32 o) 0) as Hw.
  { unfold wraps. left. change (substr (be_bytes 32 o) 0 32) with (take 32 (be_bytes 32 o)).
    rewrite firstn_all2 by (by rewrite length_be_bytes). rewrite be_value_be_bytes; [done |].
    change (8 * Z.of_nat 32) with 256. lia. }
  change (len (be_bytes 32 o)) with 32.
  change (usize (len [mkAbiParam kBytes false name] * kAbiWordSize)) with 32.
  destruct (Z.ltb_spec 32 32); [lia |]. cbn [decode_params decode_param ap_kind is_dynamic negb].
  unfold decode_param. cbn [is_dynamic negb]. change (usize (0 * kAbiWordSize)) with 0.
  destruct (decode_dynamic (be_bytes 32 o) kBytes 0) as [|[]|]; cbn [obind]; tauto.
Qed.

(** ** Instances *)

(** [Transfer(address,address,uint256)] with a [string] added. *)
Definition sample_params : list AbiParam :=
  [mkAbiParam kAddress true []; mkAbiParam kUint false []; mkAbiParam kAddress true [];
   mkAbiParam kString false []].

Definition sample_keccak (bs : bytes) : hash256 := repeat (len bs mod 256) 32.

Lemma decode_log_encode_witness :
  let from := VAddress (repeat 1 20) in
  let to := VAddress (repeat 2 20) in
  let dvs := [VUint 1000; VString [104; 105]] in
  decode_log sample_keccak
    (mkLogEntry (repeat 9 20) (sample_keccak [84] :: map abi_word [from; to]) (abi_encode dvs ++ [0]))
    [84] sample_params
  = Ok ([from; to] ++ dvs).
Proof.
  intros from to dvs.
  apply (decode_log_encode sample_keccak [84] sample_params (repeat 9 20) (map abi_word [from; to])
           [from; to] dvs [0]).
  - repeat constructor; octets.
  - repeat constructor; octets.
  - vm_compute. reflexivity.
Defined.

Lemma decode_log_data_total_witness :
  decode_log_data (be_bytes 32 7) [mkAbiParam kUint false []] = Ok [VUint 7]
  /\ Forall2 (fun p v => abi_typed (ap_kind p) v) [mkAbiParam kUint false []] [VUint 7].
Proof.
  assert (decode_log_data (be_bytes 32 7) [mkAbiParam kUint false []] = Ok [VUint 7]) as E
    by (vm_compute; reflexivity).
  split; [exact E |].
  pose proof (decode_log_data_total (be_bytes 32 7) [mkAbiParam kUint false []]
    ltac:(octets) ltac:(reflexivity) ltac:(reflexivity)) as H.
  rewrite E in H. exact H.
Defined.

Lemma decode_log_data_out_of_bounds_witness :
  decode_log_data (be_bytes 32 (2 ^ 64 - 1)) [mkAbiParam kBytes false []] = Err OutOfBounds.
Proof. apply (decode_log_data_out_of_bounds (2 ^ 64 - 1) []). lia. Defined.
