(* ===== verification/EthWatchService.v ===== *)
(** * EthWatchService: from wire messages to decoded events

    [include/eth/eth_watch_service.hpp], [src/eth/eth_watch_service.cpp]. The service ties the
    tracker, the watcher, the ABI decoder and the message codecs together. A handler returns
    the service after it and the calls it makes outside, in order: messages given to the send
    callback and events given to the subscribers' callbacks (values of a type [C]). The
    callbacks do not call back into the service. The lambda that [watch_event] registers with
    the watcher captures the id only, so the watcher's callbacks are ids here. *)
From S2P Require Export EthMessages ChainTracker EventFilter AbiDecoder.
Open Scope Z_scope.

Definition kNewBlockHashesMessageId : Z := 0x01.
Definition kNewBlockMessageId : Z := 0x07.
Definition kGetReceiptsMessageId : Z := 0x0f.
Definition kReceiptsMessageId : Z := 0x10.

(** [struct PendingRequest]. *)
Record PendingRequest := mkPending { pr_block_hash : hash256; pr_block_number : Z }.

Section service.
(** [DecodedEventCallback], and the sponge of the ABI decoder. *)
Context {C : Type} (keccak : bytes -> hash256).

(** [struct EthWatchService::Subscription]. *)
Record EventSubscription := mkEventSubscription {
  es_id : Z;
  es_signature : bytes;
  es_params : list AbiParam;
  es_callback : C
}.

Record EthWatchService := mkService {
  send_cb_ : bool;
  chain_tracker_ : ChainTracker;
  watcher_ : EventWatcher Z;
  event_subscriptions_ : list EventSubscription;
  next_watch_id_ : Z;
  next_req_id_ : Z;
  pending_requests_ : gmap Z PendingRequest
}.

Definition new_service : EthWatchService :=
  {| send_cb_ := false; chain_tracker_ := new_tracker kDefaultWindowSize; watcher_ := new_watcher;
     event_subscriptions_ := []; next_watch_id_ := 1; next_req_id_ := 1; pending_requests_ := ∅ |}.

(** What a handler does outside the service. [Undefined]: the ABI decoder reads outside its
    buffer, and nothing is known of what follows. *)
Inductive effect :=
| Sent (msg_id : Z) (payload : bytes)
| Called (callback : C) (ev : MatchedEvent) (vals : list AbiValue)
| Undefined.

Definition set_send_callback (st : EthWatchService) : EthWatchService :=
  {| send_cb_ := true; chain_tracker_ := chain_tracker_ st; watcher_ := watcher_ st;
     event_subscriptions_ := event_subscriptions_ st; next_watch_id_ := next_watch_id_ st;
     next_req_id_ := next_req_id_ st; pending_requests_ := pending_requests_ st |}.

(** [codec::Address{}]. *)
Definition zero_addr : address := repeat 0 20.

Definition event_filter (contract_address : address) (event_signature : bytes) (from to : option Z) :
    EventFilter :=
  {| addresses := if bool_decide (contract_address <> zero_addr) then [contract_address] else [];
     topics := [Some (event_signature_hash keccak event_signature)];
     from_block := from; to_block := to |}.

Definition watch_event (contract_address : address) (event_signature : bytes) (params : list AbiParam)
    (callback : C) (from to : option Z) (st : EthWatchService) : Z * EthWatchService :=
  let id := next_watch_id_ st in
  (id,
   {| send_cb_ := send_cb_ st; chain_tracker_ := chain_tracker_ st;
      watcher_ := snd (watch (event_filter contract_address event_signature from to) id (watcher_ st));
      event_subscriptions_ :=
        event_subscriptions_ st ++ [mkEventSubscription id event_signature params callback];
      next_watch_id_ := u32 (next_watch_id_ st + 1);
      next_req_id_ := next_req_id_ st; pending_requests_ := pending_requests_ st |}).

Definition unwatch_event (id : Z) (st : EthWatchService) : EthWatchService :=
  {| send_cb_ := send_cb_ st; chain_tracker_ := chain_tracker_ st; watcher_ := unwatch id (watcher_ st);
     event_subscriptions_ := filter (fun s => es_id s <> id) (event_subscriptions_ st);
     next_watch_id_ := next_watch_id_ st; next_req_id_ := next_req_id_ st;
     pending_requests_ := pending_requests_ st |}.

(** [std::find_if] for an id. *)
Fixpoint find_subscription (id : Z) (subs : list EventSubscription) : option EventSubscription :=
  match subs with
  | [] => None
  | s :: subs => if es_id s =? id then Some s else find_subscription id subs
  end.

(** The lambda of [watch_event]. *)
Definition on_matched_event (st : EthWatchService) (id : Z) (ev : MatchedEvent) : list effect :=
  match find_subscription id (event_subscriptions_ st) with
  | None => []
  | Some s =>
      match decode_log keccak (ev_log ev) (es_signature s) (es_params s) with
      | Ok vals => [Called (es_callback s) ev vals]
      | Err (Error _) => []
      | Err OutOfBounds | Diverged => [Undefined]
      end
  end.

Definition run_callbacks (st : EthWatchService) (calls : list (Z * MatchedEvent)) : list effect :=
  concat (map (fun '(id, ev) => on_matched_event st id ev) calls).

(** The state after the tracker, the request counter or the pending requests changed. *)
Definition with_requests (st : EthWatchService) (tracker : ChainTracker) (next_req_id : Z)
    (pending : gmap Z PendingRequest) : EthWatchService :=
  {| send_cb_ := send_cb_ st; chain_tracker_ := tracker; watcher_ := watcher_ st;
     event_subscriptions_ := event_subscriptions_ st; next_watch_id_ := next_watch_id_ st;
     next_req_id_ := next_req_id; pending_requests_ := pending |}.

Definition request_receipts (block_hash : hash256) (block_number : Z) (st : EthWatchService) :
    list effect * EthWatchService :=
  if negb (send_cb_ st) then ([], st)
  else
    let '(new, tracker) := mark_seen block_hash block_number (chain_tracker_ st) in
    if negb new then ([], with_requests st tracker (next_req_id_ st) (pending_requests_ st))
    else
      let req_id := next_req_id_ st in
      let next := usize (next_req_id_ st + 1) in
      match encode_get_receipts (mkWithId (Some req_id) [block_hash]) with
      | Ok encoded =>
          ([Sent kGetReceiptsMessageId encoded],
           with_requests st tracker next
             (<[ req_id := mkPending block_hash block_number ]> (pending_requests_ st)))
      | _ => ([], with_requests st tracker next (pending_requests_ st))
      end.

Definition process_new_block (msg : NewBlockMessage) (block_hash : hash256) (st : EthWatchService) :
    list effect * EthWatchService :=
  request_receipts block_hash (bh_number (nb_header msg)) st.

(** The loop of [process_receipts]: it stops at the shorter of the two vectors. *)
Fixpoint process_receipts (receipts : list Receipt) (tx_hashes : list hash256) (block_number : Z)
    (block_hash : hash256) (st : EthWatchService) : list effect :=
  match receipts, tx_hashes with
  | receipt :: receipts, tx_hash :: tx_hashes =>
      run_callbacks st (process_receipt receipt tx_hash block_number block_hash (watcher_ st))
      ++ process_receipts receipts tx_hashes block_number block_hash st
  | _, _ => []
  end.

(** The loop over the entries of a [NewBlockHashes] message. *)
Fixpoint request_all (entries : list NewBlockHashEntry) (st : EthWatchService) :
    list effect * EthWatchService :=
  match entries with
  | [] => ([], st)
  | e :: entries =>
      let '(effs, st) := request_receipts (nbh_hash e) (nbh_number e) st in
      let '(effs', st) := request_all entries st in (effs ++ effs', st)
  end.

(** The loop over the blocks of a [Receipts] message. *)
Fixpoint process_blocks (request_id : option Z) (block_idx : Z) (blocks : list (list Receipt))
    (st : EthWatchService) : list effect * EthWatchService :=
  match blocks with
  | [] => ([], st)
  | block_receipts :: blocks =>
      let '(block_hash, block_number, st) :=
        match request_id with
        | Some id =>
            if block_idx =? 0 then
              match pending_requests_ st !! id with
              | Some p => (pr_block_hash p, pr_block_number p,
                           with_requests st (chain_tracker_ st) (next_req_id_ st)
                             (delete id (pending_requests_ st)))
              | None => (zero_hash, 0, st)
              end
            else (zero_hash, 0, st)
        | None => (zero_hash, 0, st)
        end in
      let tx_hashes := repeat zero_hash (length block_receipts) in
      let effs := process_receipts block_receipts tx_hashes block_number block_hash st in
      let '(effs', st) := process_blocks request_id (block_idx + 1) blocks st in
      (effs ++ effs', st)
  end.

Definition process_message (eth_msg_id : Z) (payload_ : bytes) (st : EthWatchService) :
    list effect * EthWatchService :=
  if eth_msg_id =? kNewBlockHashesMessageId then
    match decode_new_block_hashes payload_ with
    | Ok entries => request_all entries st
    | _ => ([], st)
    end
  else if eth_msg_id =? kNewBlockMessageId then
    match decode_new_block payload_ with
    | Ok msg => process_new_block msg zero_hash st
    | _ => ([], st)
    end
  else if eth_msg_id =? kReceiptsMessageId then
    match decode_receipts payload_ with
    | Ok msg => process_blocks (request_id msg) 0 (payload msg) st
    | _ => ([], st)
    end
  else ([], st).

Definition service_tip (st : EthWatchService) : Z := tip (chain_tracker_ st).
Definition service_tip_hash (st : EthWatchService) : option hash256 := tip_hash (chain_tracker_ st).
Definition service_subscription_count (st : EthWatchService) : Z := subscription_count (watcher_ st).

(** The calls a client can make. *)
Inductive service_op :=
| SetSendCallback
| WatchEvent (addr : address) (signature : bytes) (params : list AbiParam) (callback : C)
    (from to : option Z)
| UnwatchEvent (id : Z)
| ProcessMessage (msg_id : Z) (data : bytes)
| ProcessReceipts (receipts : list Receipt) (tx_hashes : list hash256) (n : Z) (h : hash256)
| ProcessNewBlock (msg : NewBlockMessage) (h : hash256)
| RequestReceipts (h : hash256) (n : Z).

Definition apply_service_op (op : service_op) (st : EthWatchService) : list effect * EthWatchService :=
  match op with
  | SetSendCallback => ([], set_send_callback st)
  | WatchEvent addr signature params callback from to =>
      ([], snd (watch_event addr signature params callback from to st))
  | UnwatchEvent id => ([], unwatch_event id st)
  | ProcessMessage msg_id data => process_message msg_id data st
  | ProcessReceipts receipts tx_hashes n h => (process_receipts receipts tx_hashes n h st, st)
  | ProcessNewBlock msg h => process_new_block msg h st
  | RequestReceipts h n => request_receipts h n st
  end.

(** The services a client can meet. *)
Inductive reachable : EthWatchService -> Prop :=
| reach_new : reachable new_service
| reach_op op st : reachable st -> reachable (snd (apply_service_op op st)).
End service.
Arguments EthWatchService C : clear implicits.
Arguments EventSubscription C : clear implicits.
Arguments effect C : clear implicits.
Arguments service_op C : clear implicits.

(** ** The subscriptions *)
Section facts.
Context {C : Type} (keccak : bytes -> hash256).
Implicit Types (st : EthWatchService C).

(** A subscription of the watcher and the service's own entry for it. *)
Definition paired (w : Subscription Z) (s : EventSubscription C) : Prop :=
  sub_id w = es_id s /\ sub_callback w = es_id s
  /\ topics (sub_filter w) = [Some (keccak (es_signature s))].

(** The invariant of the service. *)
Record service_ok st : Prop := {
  ok_paired : Forall2 paired (subscriptions_ (watcher_ st)) (event_subscriptions_ st);
  ok_next : next_id_ (watcher_ st) = next_watch_id_ st;
  ok_tracker : exists w, implements (chain_tracker_ st) w;
  ok_req_id : fits 8 (next_req_id_ st)
}.

Lemma Forall2_filter {A B} (R : A -> B -> Prop) (P : A -> Prop) (Q : B -> Prop)
    `{!forall x, Decision (P x), !forall x, Decision (Q x)} l k :
  (forall x y, R x y -> (P x <-> Q y)) -> Forall2 R l k -> Forall2 R (filter P l) (filter Q k).
Proof.
  intros HPQ. induction 1 as [| x y l k Hxy _ IH]; [constructor |].
  rewrite !filter_cons. destruct (decide (P x)) as [HP|HP], (decide (Q y)) as [HQ|HQ];
    [by constructor | by apply (HPQ x y Hxy) in HP | by apply (HPQ x y Hxy) in HQ | done].
Qed.

Lemma mark_seen_tracker tr h n :
  (exists w, implements tr w) -> exists w, implements (snd (mark_seen h n tr)) w.
Proof. intros [w Hw]. eexists. by apply mark_seen_implements. Qed.

Lemma mark_seen_old tr h n : fst (mark_seen h n tr) = false -> snd (mark_seen h n tr) = tr.
Proof. unfold mark_seen. case_bool_decide; [done |]. by destruct (_ <=? _). Qed.

Lemma mark_seen_new tr h n : fst (mark_seen h n tr) = negb (is_seen h tr).
Proof. unfold mark_seen, is_seen. case_bool_decide; [done |]. by destruct (_ <=? _). Qed.

(** The changes of [with_requests] keep the invariant. *)
Lemma with_requests_ok st tr next pending :
  service_ok st -> (exists w, implements tr w) -> fits 8 next ->
  service_ok (with_requests st tr next pending).
Proof. intros [Hp Hn _ _] Htr Hr. by split. Qed.

Lemma usize_fits x : fits 8 (usize x).
Proof. unfold fits, usize. change (2 ^ (8 * 8)) with (2 ^ 64). apply Z.mod_pos_bound. lia. Qed.

Lemma request_receipts_ok st h n : service_ok st -> service_ok (snd (request_receipts h n st)).
Proof.
  intros Hok. pose proof Hok as [_ _ Htr Hr]. unfold request_receipts.
  destruct (send_cb_ st); [| done]. cbn [negb].
  pose proof (mark_seen_tracker _ h n Htr) as Htr'. destruct (mark_seen h n _) as [new tr]. cbn [snd] in Htr'.
  destruct new; cbn [negb]; [| by apply with_requests_ok].
  destruct (encode_get_receipts _); cbn [snd]; apply with_requests_ok; auto using usize_fits.
Qed.

Lemma request_all_ok entries : forall st, service_ok st -> service_ok (snd (request_all entries st)).
Proof.
  induction entries as [| e entries IH]; intros st Hok; [done |]. cbn [request_all].
  pose proof (request_receipts_ok st (nbh_hash e) (nbh_number e) Hok) as Hok'.
  destruct (request_receipts _ _ st) as [effs st']. specialize (IH st' Hok').
  by destruct (request_all entries st').
Qed.

Lemma process_blocks_ok id blocks : forall i st,
  service_ok st -> service_ok (snd (process_blocks keccak id i blocks st)).
Proof.
  induction blocks as [| rs blocks IH]; intros i st Hok; [done |]. cbn [process_blocks].
  destruct (match id with Some _ => _ | None => _ end) as [[h n] st'] eqn:E.
  assert (service_ok st') as Hok'.
  { pose proof Hok as [_ _ Htr Hr]. destruct id as [id |]; [| congruence].
    destruct (i =? 0); [| congruence].
    destruct (pending_requests_ st !! id); [| congruence]. injection E as _ _ <-. by apply with_requests_ok. }
  specialize (IH (i + 1) st' Hok'). by destruct (process_blocks keccak id (i + 1) blocks st').
Qed.

Lemma process_message_ok st id data : service_ok st -> service_ok (snd (process_message keccak id data st)).
Proof.
  intros Hok. unfold process_message, process_new_block.
  destruct (id =? _); [destruct (decode_new_block_hashes data); auto using request_all_ok |].
  destruct (id =? _); [destruct (decode_new_block data); auto using request_receipts_ok |].
  destruct (id =? _); [destruct (decode_receipts data); auto using process_blocks_ok | done].
Qed.

Lemma new_service_ok : service_ok new_service.
Proof.
  split; cbn; [constructor | done | eexists; by apply (implements_new kDefaultWindowSize) | split; lia].
Qed.

Lemma apply_service_op_ok op st : service_ok st -> service_ok (snd (apply_service_op keccak op st)).
Proof.
  intros Hok. pose proof Hok as [Hp Hn Htr Hr].
  destruct op; cbn [apply_service_op snd]; auto using process_message_ok, request_receipts_ok;
    try (by apply request_receipts_ok).
  - by split.
  - split; cbn; [| by rewrite Hn | done | done].
    apply Forall2_app; [done |]. constructor; [| constructor]. by rewrite <- Hn.
  - split; cbn; [| done | done | done].
    apply Forall2_filter; [| done]. intros w s (-> & _). done.
Qed.

Lemma reachable_ok st : reachable keccak st -> service_ok st.
Proof. induction 1; [apply new_service_ok | by apply apply_service_op_ok]. Qed.

Lemma find_subscription_some id (subs : list (EventSubscription C)) s :
  s ∈ subs -> es_id s = id -> exists s', find_subscription id subs = Some s' /\ es_id s' = id.
Proof.
  induction subs as [| x subs IH]; [by intros ?%not_elem_of_nil |]. cbn [find_subscription].
  intros [-> | Hs]%elem_of_cons Hid; destruct (Z.eqb_spec (es_id x) id); eauto; done.
Qed.

Lemma find_subscription_last id (subs : list (EventSubscription C)) s :
  (forall x, x ∈ subs -> es_id x <> id) -> es_id s = id -> find_subscription id (subs ++ [s]) = Some s.
Proof.
  intros Hn Hs. induction subs as [| x subs IH]; cbn [app find_subscription].
  - by rewrite Hs, Z.eqb_refl.
  - destruct (Z.eqb_spec (es_id x) id) as [E|E]; [by apply Hn in E; [| left] |].
    apply IH. intros y Hy. apply Hn. by right.
Qed.

Lemma filter_all {A} (P : A -> Prop) `{!forall x, Decision (P x)} (l : list A) :
  (forall x, x ∈ l -> P x) -> filter P l = l.
Proof.
  intros Hl. induction l as [| x l IH]; [done |]. rewrite filter_cons_True by (apply Hl; by left).
  f_equal. apply IH. intros y Hy. apply Hl. by right.
Qed.

Lemma decode_log_topic log signature params vals :
  decode_log keccak log signature params = Ok vals ->
  exists ts, log_topics log = keccak signature :: ts.
Proof.
  unfold decode_log. destruct (log_topics log) as [| t ts]; [done |]. cbn [empty nth].
  case_bool_decide as E; [done |]. intros _. exists ts. by f_equal.
Qed.

Lemma event_filter_matches addr signature from to log n ts :
  log_topics log = keccak signature :: ts ->
  (addr = zero_addr \/ log_address log = addr) ->
  (forall f, from = Some f -> f <= n) -> (forall t, to = Some t -> n <= t) ->
  matches (event_filter keccak addr signature from to) log n = true.
Proof.
  intros Ht Ha Hf Hto. unfold matches, event_filter. cbn [addresses topics from_block to_block].
  replace (match from with Some f => n <? f | None => false end) with false
    by (destruct from as [f|]; [specialize (Hf f eq_refl); by destruct (Z.ltb_spec n f); [lia |] | done]).
  replace (match to with Some t => t <? n | None => false end) with false
    by (destruct to as [t|]; [specialize (Hto t eq_refl); by destruct (Z.ltb_spec t n); [lia |] | done]).
  replace (negb _ && _) with false.
  2: { case_bool_decide as E; [| done]. destruct Ha as [Ha | Ha]; [done |]. cbn [empty negb andb].
       symmetry. apply bool_decide_false. rewrite Ha. intros Hn. apply Hn. by left. }
  cbn [topics_match]. rewrite Ht. rewrite len_cons. pose proof (len_nonneg ts).
  destruct (Z.leb_spec (1 + len ts) (Z.of_nat 0)); [lia |]. cbn [nth].
  by rewrite bool_decide_false by (by intros []).
Qed.

Lemma unwatch_watch st addr signature params cb from to :
  service_ok st ->
  let id := next_watch_id_ st in
  (forall s, s ∈ event_subscriptions_ st -> es_id s <> id) ->
  let st' := unwatch_event id (snd (watch_event keccak addr signature params cb from to st)) in
  subscriptions_ (watcher_ st') = subscriptions_ (watcher_ st)
  /\ event_subscriptions_ st' = event_subscriptions_ st.
Proof.
  intros [Hp Hn _ _] id Hfresh. cbn -[filter]. rewrite Hn. fold id.
  split; rewrite list.filter_app.
  - rewrite filter_cons_False by (cbn; tauto). rewrite filter_nil, app_nil_r. apply filter_all.
    intros w Hw. apply list_elem_of_lookup in Hw as [k Hk].
    destruct (Forall2_lookup_l _ _ _ _ _ Hp Hk) as (s & Hs & -> & _).
    apply Hfresh. by eapply list_elem_of_lookup_2.
  - rewrite filter_cons_False by (cbn; tauto). rewrite filter_nil, app_nil_r. by apply filter_all.
Qed.

Lemma process_receipts_ext receipts : forall txs n bh st st',
  subscriptions_ (watcher_ st) = subscriptions_ (watcher_ st') ->
  event_subscriptions_ st = event_subscriptions_ st' ->
  process_receipts keccak receipts txs n bh st = process_receipts keccak receipts txs n bh st'.
Proof.
  induction receipts as [| r receipts IH]; intros [| tx txs] n bh st st' Hw Hs; try done.
  cbn [process_receipts]. rewrite (IH txs n bh st st' Hw Hs). f_equal.
  unfold process_receipt, run_callbacks.
  assert (forall logs i, process_logs (watcher_ st) tx n bh i logs = process_logs (watcher_ st') tx n bh i logs) as ->.
  { induction logs as [| log logs IHl]; intros i; [done |]. cbn [process_logs]. by rewrite IHl, Hw. }
  f_equal. apply map_ext. intros [id ev]. unfold on_matched_event. by rewrite Hs.
Qed.

(** the watcher and the service agree on the subscriptions: in every service a client can meet
    they hold the same ids in the same order, each id with a filter on the hash of the
    service's own signature, so that [subscription_count] counts the service's entries and
    every id the watcher calls back with is found. *)
Theorem service_subscriptions_in_sync st :
  reachable keccak st ->
  Forall2 paired (subscriptions_ (watcher_ st)) (event_subscriptions_ st)
  /\ service_subscription_count st = len (event_subscriptions_ st)
  /\ forall receipt tx n bh id ev,
       (id, ev) ∈ process_receipt receipt tx n bh (watcher_ st) ->
       exists s, find_subscription id (event_subscriptions_ st) = Some s /\ es_id s = id.
Proof.
  intros Hr. destruct (reachable_ok st Hr) as [Hp _ _ _]. split_and!; [done | |].
  - unfold service_subscription_count, subscription_count, len. by rewrite (Forall2_length Hp).
  - intros receipt tx n bh id ev. unfold process_receipt. generalize 0.
    induction (rc_logs receipt) as [| log logs IH]; intros i; [by intros ?%not_elem_of_nil |].
    cbn [process_logs]. rewrite elem_of_app. intros [Hin | Hin]; [| by apply (IH _ Hin)].
    rewrite dispatch_filter in Hin. apply list_elem_of_fmap in Hin as (w & [= -> _] & [_ Hw]%list_elem_of_filter).
    apply list_elem_of_lookup in Hw as [k Hk].
    destruct (Forall2_lookup_l _ _ _ _ _ Hp Hk) as (s & Hs & _ & Hc & _). rewrite Hc.
    apply list_elem_of_lookup_2 in Hs. by apply find_subscription_some with s.
Qed.

(** C17: a watched event reaches its subscriber: after [watch_event], a receipt with a log of the
    watched contract (any, for the zero address) in the block range, whose topics and data
    decode by the signature and the parameters, makes the callback be called with the decoded
    values and the log's block, transaction and position; and [unwatch] of the returned id undoes
    the registration: every receipt is then processed as it was before. *)
Theorem watched_event_delivered st addr signature params cb from to receipt tx n bh i log vals :
  reachable keccak st ->
  (forall s, s ∈ event_subscriptions_ st -> es_id s <> next_watch_id_ st) ->
  len (rc_logs receipt) <= 2 ^ 32 -> rc_logs receipt !! i = Some log ->
  (addr = zero_addr \/ log_address log = addr) ->
  (forall f, from = Some f -> f <= n) -> (forall t, to = Some t -> n <= t) ->
  decode_log keccak log signature params = Ok vals ->
  let '(id, st') := watch_event keccak addr signature params cb from to st in
  Called cb (mkMatchedEvent log n bh tx (Z.of_nat i)) vals ∈ process_receipts keccak [receipt] [tx] n bh st'
  /\ forall receipts txs n' bh',
      process_receipts keccak receipts txs n' bh' (unwatch_event id st')
      = process_receipts keccak receipts txs n' bh' st.
Proof.
  intros Hr Hfresh Hlen Hlog Haddr Hfrom Hto Hdec.
  pose proof (reachable_ok st Hr) as Hok. cbn [watch_event]. set (st' := {| send_cb_ := _ |}).
  destruct (decode_log_topic _ _ _ _ Hdec) as [ts Hts]. split.
  - cbn [process_receipts]. rewrite app_nil_r. unfold run_callbacks, process_receipt.
    rewrite process_logs_calls by lia. apply elem_of_concat.
    exists (on_matched_event keccak st' (next_watch_id_ st) (mkMatchedEvent log n bh tx (Z.of_nat i))). split.
    + unfold on_matched_event. cbn [event_subscriptions_ st'].
      rewrite find_subscription_last by done. cbn [ev_log es_signature es_params es_callback].
      rewrite Hdec. by left.
    + apply list_elem_of_fmap.
      exists (next_watch_id_ st, mkMatchedEvent log n bh tx (Z.of_nat i)). split; [done |].
      apply elem_of_concat. exists (log_calls (watcher_ st') tx n bh (Z.of_nat i) log).
      split; [| apply elem_of_lookup_imap; by exists i, log].
      apply list_elem_of_fmap.
      exists (mkSubscription (next_id_ (watcher_ st)) (event_filter keccak addr signature from to) (next_watch_id_ st)).
      split; [done |]. apply list_elem_of_filter. split; [by apply event_filter_matches with ts |].
      cbn [watcher_ st' watch snd subscriptions_]. apply elem_of_app. right. by left.
  - intros receipts txs n' bh'. pose proof (unwatch_watch st addr signature params cb from to Hok Hfresh) as [H1 H2].
    by apply process_receipts_ext.
Qed.

(** ** Requests *)

(** The [GetReceipts] message of a request. *)
Definition get_receipts_octets (id : Z) (h : hash256) : bytes := rlp (with_id_item id (Lst [Str h])).

Lemma rlp_string_len s : len s <= 55 -> len (rlp_string s) <= len s + 1.
Proof.
  intros Hs. unfold rlp_string. destruct (is_literal s); [lia |].
  rewrite len_app, length_prefix_short by done. change (len [_]) with 1. lia.
Qed.

Lemma get_receipts_octets_len id h : fits 8 id -> hash_ok h -> len (get_receipts_octets id h) < 2 ^ 64.
Proof.
  intros Hid Hh. pose proof (digits_len 8 id ltac:(lia) Hid) as Hd. destruct Hh as [Hh _].
  assert (len h = 32) as Hl by (unfold len; by rewrite Hh).
  pose proof (rlp_string_len h ltac:(lia)) as H1. pose proof (rlp_string_len (digits id) ltac:(lia)) as H2.
  unfold get_receipts_octets, with_id_item, uint_item. cbn [rlp map concat].
  rewrite !app_nil_r. unfold rlp_list. rewrite (length_prefix_short _ (len (rlp_string h))) by lia.
  rewrite length_prefix_short.
  all: rewrite ?len_app; change (len [_]) with 1; lia.
Qed.

Lemma encode_get_receipts_eq id h :
  fits 8 id -> hash_ok h ->
  encode_get_receipts (mkWithId (Some id) [h]) = Ok (get_receipts_octets id h)
  /\ decode_get_receipts (get_receipts_octets id h) = Ok (mkWithId (Some id) [h]).
Proof.
  intros Hid Hh. pose proof (get_receipts_octets_len id h Hid Hh) as Hl.
  assert (Forall hash_ok [h]) as Hv by (by constructor). split.
  - exact (encode_with_id (HC := hash_list_codec) id [h] Hid Hv Hl).
  - unfold decode_get_receipts. unfold get_receipts_octets. change [Str h] with (map Str [h]).
    rewrite (decode_with_id (HC := hash_list_codec) (fun _ => eq_refl) id [h] Hid Hv Hl). done.
Qed.

Lemma mark_seen_is_seen h n tr : is_seen h (snd (mark_seen h n tr)) = true.
Proof.
  unfold is_seen. apply bool_decide_true. unfold mark_seen.
  destruct (decide (h ∈ seen_set_ tr)) as [E | E]; [by rewrite bool_decide_true |].
  rewrite bool_decide_false by done. destruct (_ <=? _); cbn [snd seen_set_]; set_solver.
Qed.

Lemma with_requests_same st : with_requests st (chain_tracker_ st) (next_req_id_ st) (pending_requests_ st) = st.
Proof. by destruct st. Qed.

Lemma request_receipts_skips st h n :
  send_cb_ st = false \/ is_seen h (chain_tracker_ st) = true -> request_receipts h n st = ([], st).
Proof.
  intros [Hs | Hs]; unfold request_receipts; [by rewrite Hs |].
  destruct (send_cb_ st); [| done]. cbn [negb].
  pose proof (mark_seen_new (chain_tracker_ st) h n) as Hn. rewrite Hs in Hn. cbn in Hn.
  pose proof (mark_seen_old _ _ _ Hn) as Ho. destruct (mark_seen h n _) as [new tr]. cbn [fst snd] in *. subst.
  cbn [negb]. by rewrite with_requests_same.
Qed.

Lemma request_receipts_marks st h n :
  send_cb_ st = true -> is_seen h (chain_tracker_ (snd (request_receipts h n st))) = true.
Proof.
  intros Hs. unfold request_receipts. rewrite Hs. cbn [negb]. pose proof (mark_seen_is_seen h n (chain_tracker_ st)) as Hm.
  destruct (mark_seen h n _) as [[] tr]; cbn [snd negb] in *; [| done].
  by destruct (encode_get_receipts _).
Qed.

(** A block is requested once. *)
Lemma request_receipts_again st h n n' :
  let st' := snd (request_receipts h n st) in request_receipts h n' st' = ([], st').
Proof.
  intros st'. destruct (send_cb_ st) eqn:Hs.
  - apply request_receipts_skips. right. by apply request_receipts_marks.
  - unfold st'. rewrite (request_receipts_skips st h n) by auto. apply request_receipts_skips. auto.
Qed.

(** what a request does: with no send callback, or for a block already seen, nothing, and the
    service is unchanged; otherwise exactly one [GetReceipts] message goes out, the block is
    marked, and the request is pending under the id of the message, which decodes to that id
    and the one hash. The block is not requested a second time. *)
Theorem request_receipts_effect st h n :
  reachable keccak st -> hash_ok h ->
  let id := next_req_id_ st in
  let sends := send_cb_ st && negb (is_seen h (chain_tracker_ st)) in
  request_receipts h n st
  = (if sends
     then ([Sent kGetReceiptsMessageId (get_receipts_octets id h)],
           with_requests st (snd (mark_seen h n (chain_tracker_ st))) (usize (id + 1))
             (<[ id := mkPending h n ]> (pending_requests_ st)))
     else ([], st))
  /\ decode_get_receipts (get_receipts_octets id h) = Ok (mkWithId (Some id) [h])
  /\ forall n', request_receipts h n' (snd (request_receipts h n st)) = ([], snd (request_receipts h n st)).
Proof.
  intros Hr Hh id sends. destruct (reachable_ok st Hr) as [_ _ _ Hid]. fold id in Hid.
  destruct (encode_get_receipts_eq id h Hid Hh) as [He Hd].
  assert (request_receipts h n st
    = if sends
      then ([Sent kGetReceiptsMessageId (get_receipts_octets id h)],
            with_requests st (snd (mark_seen h n (chain_tracker_ st))) (usize (id + 1))
              (<[ id := mkPending h n ]> (pending_requests_ st)))
      else ([], st)) as Heq.
  { unfold sends. destruct (send_cb_ st) eqn:Hs; [| apply request_receipts_skips; auto].
    destruct (is_seen h (chain_tracker_ st)) eqn:Hseen; [apply request_receipts_skips; auto |]. cbn [negb andb].
    pose proof (mark_seen_new (chain_tracker_ st) h n) as Hn. rewrite Hseen in Hn. cbn in Hn.
    unfold request_receipts. rewrite Hs. cbn [negb]. rewrite (surjective_pairing (mark_seen h n _)), Hn.
    cbn [negb]. fold id. rewrite He. reflexivity. }
  split_and!; [exact Heq | exact Hd |]. intros n'. apply request_receipts_again.
Qed.

(** ** Responses *)

Lemma process_receipts_norm receipts : forall txs n bh st,
  process_receipts keccak (map receipt_norm receipts) txs n bh st
  = process_receipts keccak receipts txs n bh st.
Proof.
  induction receipts as [| r receipts IH]; intros [| tx txs] n bh st; try done.
  cbn [map process_receipts]. by rewrite IH.
Qed.

(** The calls made for the blocks of a response that belong to no request. *)
Definition uncorrelated st (blocks : list (list Receipt)) : list (effect C) :=
  concat (map (fun b => process_receipts keccak b (repeat zero_hash (length b)) 0 zero_hash st) blocks).

Lemma process_blocks_rest id blocks : forall i st,
  0 < i -> process_blocks keccak (Some id) i blocks st = (uncorrelated st blocks, st).
Proof.
  induction blocks as [| b blocks IH]; intros i st Hi; [done |]. cbn [process_blocks].
  destruct (Z.eqb_spec i 0); [lia |]. by rewrite IH by lia.
Qed.

Lemma uncorrelated_ext st st' blocks :
  subscriptions_ (watcher_ st) = subscriptions_ (watcher_ st') ->
  event_subscriptions_ st = event_subscriptions_ st' ->
  uncorrelated st blocks = uncorrelated st' blocks.
Proof.
  intros Hw Hs. unfold uncorrelated. f_equal. apply map_ext. intros b. by apply process_receipts_ext.
Qed.

Lemma uncorrelated_norm st blocks : uncorrelated st (map (map receipt_norm) blocks) = uncorrelated st blocks.
Proof.
  unfold uncorrelated. rewrite map_map. f_equal. apply map_ext. intros b.
  by rewrite length_map, process_receipts_norm.
Qed.

(** The service after the response to request [id]. *)
Definition answered id st : EthWatchService C :=
  with_requests st (chain_tracker_ st) (next_req_id_ st) (delete id (pending_requests_ st)).

Lemma answered_again id st : answered id (answered id st) = answered id st.
Proof. unfold answered, with_requests. cbn. by rewrite delete_delete_eq. Qed.

Lemma process_blocks_first id b blocks st :
  let p := default (mkPending zero_hash 0) (pending_requests_ st !! id) in
  process_blocks keccak (Some id) 0 (b :: blocks) st
  = (process_receipts keccak b (repeat zero_hash (length b)) (pr_block_number p) (pr_block_hash p) st
     ++ uncorrelated st blocks, answered id st).
Proof.
  cbn [process_blocks Z.eqb]. change (0 + 1) with 1.
  destruct (pending_requests_ st !! id) as [p |] eqn:E; cbn [default]; rewrite process_blocks_rest by lia.
  - unfold answered. cbn [chain_tracker_ next_req_id_].
    f_equal. f_equal; [by apply process_receipts_ext | by apply uncorrelated_ext].
  - unfold answered. by rewrite delete_id, with_requests_same.
Qed.

(** C20: a response meets its request: a [Receipts] message with an id, encoded by the peer and
    processed by the service, dispatches the receipts of its first block under the hash and number
    of the block requested with that id and closes the request; further blocks, and a second
    answer to the same id, are dispatched under block number 0 and the zero hash, and nothing
    else of the service changes. *)
Theorem receipts_correlated st id b blocks :
  fits 8 id -> Forall (Forall receipt_ok) (b :: blocks) ->
  len (rlp (with_id_item id (Lst (map (fun r => Lst (map receipt_item r)) (b :: blocks))))) < 2 ^ 64 ->
  let p := default (mkPending zero_hash 0) (pending_requests_ st !! id) in
  exists data, encode_receipts (mkWithId (Some id) (b :: blocks)) = Ok data
  /\ process_message keccak kReceiptsMessageId data st
     = (process_receipts keccak b (repeat zero_hash (length b)) (pr_block_number p) (pr_block_hash p) st
        ++ uncorrelated st blocks, answered id st)
  /\ process_message keccak kReceiptsMessageId data (answered id st)
     = (uncorrelated st (b :: blocks), answered id st).
Proof.
  intros Hid Hv Hl p.
  exists (rlp (with_id_item id (Lst (map (fun r => Lst (map receipt_item r)) (b :: blocks))))).
  split; [exact (encode_with_id (HC := receipts_codec) id (b :: blocks) Hid Hv Hl) |].
  unfold process_message, decode_receipts. cbn -[rlp get_with_id process_blocks uncorrelated map].
  rewrite (decode_with_id (HC := receipts_codec) (fun _ => eq_refl) id (b :: blocks) Hid Hv Hl).
  cbn [fst request_id payload map]. split; rewrite process_blocks_first; fold p;
    rewrite length_map, process_receipts_norm, uncorrelated_norm; [done |].
  rewrite answered_again. change (pending_requests_ (answered id st)) with (delete id (pending_requests_ st)).
  rewrite lookup_delete_eq. cbn [default pr_block_number pr_block_hash].
  unfold uncorrelated at 2. cbn [map concat]. f_equal. f_equal; [by apply process_receipts_ext |].
  by apply uncorrelated_ext.
Qed.

(** [NewBlock] messages carry no hash, and the service marks the zero hash for all of them:
    once one has been processed, whatever it announced, the next one makes no request and leaves
    the service as it is. *)
Theorem second_new_block_ignored st d1 m1 d2 m2 :
  decode_new_block d1 = Ok m1 -> decode_new_block d2 = Ok m2 ->
  let st1 := snd (process_message keccak kNewBlockMessageId d1 st) in
  process_message keccak kNewBlockMessageId d2 st1 = ([], st1).
Proof.
  intros H1 H2. unfold process_message. cbn -[decode_new_block process_new_block].
  rewrite H1, H2. unfold process_new_block. by apply request_receipts_again.
Qed.
End facts.

(** ** Instances *)

Definition sample_signature : bytes := [84].

(** [(uint256 value)]. *)
Definition sample_event_params : list AbiParam := [mkAbiParam kUint false []].

Definition sample_event_log : LogEntry :=
  mkLogEntry (repeat 9 20) [sample_keccak sample_signature] (abi_encode [VUint 1000]).

Definition sample_event_receipt : Receipt :=
  {| rc_state_root := None; rc_status := Some true; rc_cumulative_gas_used := 21000;
     rc_bloom := repeat 0 256; rc_logs := [sample_log; sample_event_log] |}.

(** A service that can send, and the same with one watch. *)
Definition sample_service : EthWatchService Z := set_send_callback new_service.

Definition sample_watching : EthWatchService Z :=
  snd (apply_service_op sample_keccak
         (WatchEvent zero_addr sample_signature sample_event_params 7 (Some 5) None) sample_service).

Lemma sample_service_reachable : reachable sample_keccak sample_service.
Proof. exact (reach_op sample_keccak SetSendCallback new_service (reach_new _)). Qed.

Lemma sample_watching_reachable : reachable sample_keccak sample_watching.
Proof. apply reach_op, sample_service_reachable. Qed.

Lemma service_subscriptions_in_sync_witness :
  service_subscription_count sample_watching = 1 /\ len (event_subscriptions_ sample_watching) = 1
  /\ Forall2 (paired sample_keccak) (subscriptions_ (watcher_ sample_watching))
       (event_subscriptions_ sample_watching).
Proof.
  pose proof (service_subscriptions_in_sync sample_keccak sample_watching sample_watching_reachable)
    as (H1 & H2 & _).
  split_and!; [vm_compute; reflexivity | vm_compute; reflexivity | exact H1].
Defined.

Lemma watched_event_delivered_witness :
  Called 7 (mkMatchedEvent sample_event_log 6 zero_hash zero_hash 1) [VUint 1000]
    ∈ process_receipts sample_keccak [sample_event_receipt] [zero_hash] 6 zero_hash sample_watching.
Proof.
  pose proof (watched_event_delivered sample_keccak sample_service zero_addr sample_signature
    sample_event_params 7 (Some 5) None sample_event_receipt zero_hash 6 zero_hash 1 sample_event_log
    [VUint 1000] sample_service_reachable) as H.
  apply H; clear H.
  - intros s Hs. by apply not_elem_of_nil in Hs.
  - vm_compute. discriminate.
  - reflexivity.
  - by left.
  - intros f [= <-]. lia.
  - done.
  - vm_compute. reflexivity.
Defined.

Lemma request_receipts_effect_witness :
  fst (request_receipts (repeat 5 32) 100 sample_service)
  = [Sent kGetReceiptsMessageId (get_receipts_octets 1 (repeat 5 32))].
Proof.
  pose proof (request_receipts_effect sample_keccak sample_service (repeat 5 32) 100
    sample_service_reachable ltac:(unfold hash_ok; octets)) as (H & _).
  rewrite H. vm_compute. reflexivity.
Defined.

(** The request above, answered with the sample receipt. *)
Lemma receipts_correlated_witness :
  let st := snd (request_receipts (repeat 5 32) 100 sample_watching) in
  exists data, encode_receipts (mkWithId (Some 1) [[sample_event_receipt]]) = Ok data
  /\ process_message sample_keccak kReceiptsMessageId data st
     = ([Called 7 (mkMatchedEvent sample_event_log 100 (repeat 5 32) zero_hash 1) [VUint 1000]],
        answered 1 st).
Proof.
  intros st.
  destruct (receipts_correlated sample_keccak st 1 [sample_event_receipt] []) as (data & Hd & Hp & _).
  - split; vm_compute; congruence.
  - constructor; [| constructor]. constructor; [| constructor].
    repeat split; try (apply (bool_decide_unpack _); vm_compute; exact I).
  - vm_compute. reflexivity.
  - exists data. split; [exact Hd |]. rewrite Hp. vm_compute. reflexivity.
Defined.

Definition sample_new_block (number : Z) : NewBlockMessage :=
  {| nb_header := {| bh_parent_hash := repeat 1 32; bh_ommers_hash := repeat 2 32;
       bh_beneficiary := repeat 3 20; bh_state_root := repeat 4 32; bh_transactions_root := repeat 5 32;
       bh_receipts_root := repeat 6 32; bh_logs_bloom := repeat 0 256; bh_difficulty := 1;
       bh_number := number; bh_gas_limit := 30000000; bh_gas_used := 0; bh_timestamp := 1700000000;
       bh_extra_data := []; bh_mix_hash := repeat 7 32; bh_nonce := repeat 8 8;
       bh_base_fee_per_gas := None |};
     nb_transactions := []; nb_ommers := []; nb_total_difficulty := 1 |}.

Definition sample_new_block_octets (number : Z) : bytes :=
  match encode_new_block (sample_new_block number) with Ok bs => bs | _ => [] end.

(** Block 101 is not requested after block 100. *)
Lemma second_new_block_ignored_witness :
  let st1 := snd (process_message sample_keccak kNewBlockMessageId (sample_new_block_octets 100) sample_service) in
  process_message sample_keccak kNewBlockMessageId (sample_new_block_octets 101) st1 = ([], st1).
Proof.
  apply (second_new_block_ignored sample_keccak sample_service
    (sample_new_block_octets 100) (sample_new_block 100) (sample_new_block_octets 101) (sample_new_block 101));
    vm_compute; reflexivity.
Defined.
