(* ===== verification/EthCli.v ===== *)
(** * EthCli: addresses and events given on the command line

    [include/eth/eth_watch_cli.hpp]. A [std::string] is its octets; [text] gives those of a
    literal. The registry's [std::unordered_map] is a finite map, and the process-wide
    singleton is the value its initialiser builds. *)
From stdpp Require Export gmap.
From S2P Require Export AbiDecoder.
Open Scope Z_scope.

(** [struct WatchSpec]. *)
Record WatchSpec := mkWatchSpec { contract_hex : bytes; ws_event_signature : bytes }.

(** [hex_nibble]; ['0'], ['9'], ['a'], ['f'], ['A'] and ['F'] are 48, 57, 97, 102, 65 and 70. *)
Definition hex_nibble (c : Z) : option Z :=
  if (48 <=? c) && (c <=? 57) then Some (u8 (c - 48))
  else if (97 <=? c) && (c <=? 102) then Some (u8 (10 + (c - 97)))
  else if (65 <=? c) && (c <=? 70) then Some (u8 (10 + (c - 65)))
  else None.

(** The loop of [parse_hex_array] from position [i], with [fuel] positions left. The array keeps
    the octets written before a bad digit. *)
Fixpoint parse_hex_loop (fuel i : nat) (hex : bytes) (out : bytes) : bool * bytes :=
  match fuel with
  | O => (true, out)
  | S fuel =>
      match hex_nibble (byte_at hex (Z.of_nat (i * 2))), hex_nibble (byte_at hex (Z.of_nat (i * 2 + 1))) with
      | Some hi, Some lo =>
          parse_hex_loop fuel (S i) hex (<[ i := u8 (Z.lor (Z.shiftl hi 4) lo) ]> out)
      | _, _ => (false, out)
      end
  end.

(** [parse_hex_array<N>]: the result and [out]. *)
Definition parse_hex_array (N : nat) (hex : bytes) (out : bytes) : bool * bytes :=
  if negb (len hex =? Z.of_nat N * 2) then (false, out) else parse_hex_loop N 0 hex out.

Definition parse_address (hex : bytes) : option address :=
  let hex :=
    if (2 <=? len hex) && (byte_at hex 0 =? 48) && ((byte_at hex 1 =? 120) || (byte_at hex 1 =? 88))
    then drop 2 hex else hex in
  let '(ok, addr) := parse_hex_array 20 hex (repeat 0 20) in
  if negb ok then None else Some addr.

(** [class EventRegistry]. *)
Record EventRegistry := mkRegistry { map_ : gmap (list Z) (list AbiParam) }.

Definition register_event (sig : bytes) (params : list AbiParam) (r : EventRegistry) : EventRegistry :=
  {| map_ := <[ sig := params ]> (map_ r) |}.

Definition lookup_event (sig : bytes) (r : EventRegistry) : option (list AbiParam) := map_ r !! sig.

Definition params_for (sig : bytes) (r : EventRegistry) : list AbiParam :=
  match lookup_event sig r with Some p => p | None => [] end.

(** The initialiser of the singleton: the calls of [register_event] in order. *)
Definition event_registry : EventRegistry :=
  let p kind indexed name := mkAbiParam kind indexed (text name) in
  fold_left (fun r '(sig, params) => register_event (text sig) params r)
    [("Transfer(address,address,uint256)",
       [p kAddress true "from"; p kAddress true "to"; p kUint false "value"]);
     ("Approval(address,address,uint256)",
       [p kAddress true "owner"; p kAddress true "spender"; p kUint false "value"]);
     ("Transfer(address,address,uint256 indexed)",
       [p kAddress true "from"; p kAddress true "to"; p kUint true "tokenId"]);
     ("ApprovalForAll(address,address,bool)",
       [p kAddress true "owner"; p kAddress true "operator"; p kBool false "approved"]);
     ("TransferSingle(address,address,address,uint256,uint256)",
       [p kAddress true "operator"; p kAddress true "from"; p kAddress true "to";
        p kUint false "id"; p kUint false "value"]);
     ("TransferBatch(address,address,address,uint256[],uint256[])",
       [p kAddress true "operator"; p kAddress true "from"; p kAddress true "to";
        p kBytes32 false "ids"; p kBytes32 false "values"]);
     ("BridgeSourceBurned(address,uint256,uint256,uint256,uint256)",
       [p kAddress true "sender"; p kUint false "id"; p kUint false "amount";
        p kUint false "srcChainID"; p kUint false "destChainID"])]%string
    {| map_ := ∅ |}.

Definition infer_params (sig : bytes) : list AbiParam := params_for sig event_registry.

(** ** Hexadecimal *)

(** The digit of a value below 16, in lower case, and a letter in lower case. *)
Definition digit_char (n : Z) : Z := if n <? 10 then 48 + n else 87 + n.
Definition lower (c : Z) : Z := if (65 <=? c) && (c <=? 70) then c + 32 else c.

(** The two digits of each octet. *)
Definition to_hex (bs : bytes) : bytes := concat (map (fun b => [digit_char (b / 16); digit_char (b mod 16)]) bs).

Lemma hex_nibble_iff c n : hex_nibble c = Some n <-> 0 <= n < 16 /\ lower c = digit_char n.
Proof.
  unfold hex_nibble, lower, digit_char, u8.
  destruct (Z.leb_spec 48 c), (Z.leb_spec c 57), (Z.leb_spec 97 c), (Z.leb_spec c 102),
    (Z.leb_spec 65 c), (Z.leb_spec c 70), (Z.ltb_spec n 10); cbn [andb]; try lia;
    rewrite ?Z.mod_small by lia;
    (split; [intros [= <-] | intros [? ?]; f_equal]; first [lia | done | (split; lia)]).
Qed.

Lemma nibbles_octet hi lo : 0 <= hi < 16 -> 0 <= lo < 16 ->
  u8 (Z.lor (Z.shiftl hi 4) lo) = hi * 16 + lo.
Proof.
  intros Hh Hl. rewrite Z.shiftl_mul_pow2 by lia.
  rewrite (lor_add _ _ 4); [| lia | by apply Z.mod_mul | lia].
  change (2 ^ 4) with 16. unfold u8. apply Z.mod_small. lia.
Qed.

Lemma digit_char_nibble c n : 0 <= n < 16 -> lower c = digit_char n -> hex_nibble c = Some n.
Proof. intros. by apply hex_nibble_iff. Qed.

Lemma byte_at_mid pre c d : byte_at (pre ++ c :: d) (Z.of_nat (length pre)) = c.
Proof. unfold byte_at. rewrite Nat2Z.id. apply nth_middle. Qed.

(** The two digits of an octet. *)
Lemma octet_nibbles a b y : uint8 y ->
  lower a = digit_char (y / 16) -> lower b = digit_char (y mod 16) ->
  hex_nibble a = Some (y / 16) /\ hex_nibble b = Some (y mod 16)
  /\ u8 (Z.lor (Z.shiftl (y / 16) 4) (y mod 16)) = y.
Proof.
  unfold uint8. intros Hy Ha Hb. pose proof (Z.div_mod y 16 ltac:(lia)). pose proof (Z.mod_pos_bound y 16 ltac:(lia)).
  split_and!; [by apply digit_char_nibble; [lia |] | by apply digit_char_nibble | rewrite nibbles_octet; lia].
Qed.

(** The loop writes the octets of the digits, when all are digits. *)
Lemma parse_hex_loop_iff fuel : forall pre d written out bs,
  length pre = (length written * 2)%nat -> length d = (fuel * 2)%nat -> length out = fuel ->
  parse_hex_loop fuel (length written) (pre ++ d) (written ++ out) = (true, bs)
  <-> exists v, bs = written ++ v /\ is_array fuel v /\ map lower d = to_hex v.
Proof.
  induction fuel as [| fuel IH]; intros pre d written out bs Hpre Hd Ho.
  { destruct d, out; try done. cbn. split; [intros [= <-]; exists []; repeat constructor |].
    intros (v & -> & [Hv _] & _). by destruct v. }
  destruct d as [| a [| b d]]; [done | done |]. destruct out as [| o out]; [done |].
  cbn in Hd, Ho. cbn [parse_hex_loop]. rewrite <- Hpre, byte_at_mid.
  replace (length pre + 1)%nat with (length (pre ++ [a])) by (rewrite length_app; cbn; lia).
  change (a :: b :: d) with ([a] ++ b :: d). rewrite app_assoc, byte_at_mid, <- app_assoc. cbn [app].
  destruct (hex_nibble a) as [hi |] eqn:Ea, (hex_nibble b) as [lo |] eqn:Eb.
  2, 3, 4: split; [done |]; intros (v & _ & [Hl Hv] & Hm); destruct v as [| y v]; [done |];
    apply bytes_ok_cons in Hv as [Hy _]; injection Hm as Ha Hb _;
    destruct (octet_nibbles a b y Hy Ha Hb) as (? & ? & _); congruence.
  rewrite insert_app_r_alt, Nat.sub_diag by lia. cbn [insert list_insert].
  set (x := u8 _). specialize (IH (pre ++ [a; b]) d (written ++ [x]) out bs).
  rewrite !length_app, <- !app_assoc in IH. cbn [length app] in IH. rewrite Nat.add_1_r in IH.
  rewrite IH by (cbn; lia). clear IH.
  pose proof Ea as [Hhi Hla]%hex_nibble_iff. pose proof Eb as [Hlo Hlb]%hex_nibble_iff.
  assert (x = hi * 16 + lo) as Hx by (by apply nibbles_octet). split.
  - intros (v & -> & [Hl Hv] & Hm). exists (x :: v). split_and!; [by rewrite <- app_assoc | split; [cbn; congruence |] |].
    + apply bytes_ok_cons. split; [unfold uint8; lia | done].
    + cbn [map to_hex concat app]. unfold to_hex in *. cbn [map concat app]. rewrite Hm, Hla, Hlb.
      f_equal; [f_equal; rewrite Hx; apply (Z.div_unique _ 16 hi lo); lia |].
      f_equal. f_equal. rewrite Hx. apply (Z.mod_unique _ 16 hi lo); lia.
  - intros (v & -> & [Hl Hv] & Hm). destruct v as [| y v]; [done |].
    apply bytes_ok_cons in Hv as [Hy Hv]. injection Hm as Ha Hb Hm.
    destruct (octet_nibbles a b y Hy Ha Hb) as (Ha' & Hb' & Hxy).
    rewrite Ha' in Ea. rewrite Hb' in Eb. injection Ea as <-. injection Eb as <-.
    exists v. unfold x. rewrite Hxy. split_and!; [by rewrite <- app_assoc | split; [by injection Hl | done] | done].
Qed.

Lemma parse_hex_array_iff N hex out bs : length out = N ->
  parse_hex_array N hex out = (true, bs) <-> is_array N bs /\ map lower hex = to_hex bs.
Proof.
  intros Ho. unfold parse_hex_array. assert (forall v, length (to_hex v) = (length v * 2)%nat) as Hlen.
  { induction v as [| y v IH]; [done |]. unfold to_hex in *. cbn. by rewrite IH. }
  destruct (Z.eqb_spec (len hex) (Z.of_nat N * 2)) as [E|E]; cbn [negb]; unfold len in E.
  - pose proof (parse_hex_loop_iff N [] hex [] out bs eq_refl ltac:(lia) Ho) as H. cbn [app length] in H.
    rewrite H. split; [intros (v & -> & ? & ?); done | intros [? ?]; by exists bs].
  - split; [done |]. intros [[Hl _] Hm]. apply (f_equal length) in Hm.
    rewrite length_map, Hlen in Hm. lia.
Qed.

Lemma and_iff_l (A B B' : Prop) : (A -> B <-> B') -> (A /\ B <-> A /\ B').
Proof. tauto. Qed.

(** The prefixes [parse_address] takes off: none, [0x] and [0X]. *)
Definition hex_prefixes : list bytes := [[]; [48; 120]; [48; 88]].

(** Digits do not begin with a prefix. *)
Lemma no_prefix a c c' d :
  map lower (c :: c' :: d) = to_hex a -> bytes_ok a ->
  (2 <=? len (c :: c' :: d)) && (c =? 48) && ((c' =? 120) || (c' =? 88)) = true -> False.
Proof.
  destruct a as [| y a]; [done |]. intros Hm Hok E. injection Hm as _ Hc _.
  apply andb_prop in E as [_ E].
  assert (lower c' = c') as Hlow by (unfold lower; destruct (Z.eqb_spec c' 120), (Z.eqb_spec c' 88); subst; done).
  pose proof (Z.mod_pos_bound y 16 ltac:(lia)). rewrite Hlow in Hc. unfold digit_char in Hc.
  destruct (Z.eqb_spec c' 120), (Z.eqb_spec c' 88), (Z.ltb_spec (y mod 16) 10); try done; lia.
Qed.

(** [parse_address] accepts exactly the texts of addresses: it returns the address [a] just when the
    text is an optional [0x] or [0X] followed by the 40 hexadecimal digits of [a], in either case;
    so every address is read back from its digits, and nothing else is accepted. *)
Theorem parse_address_iff hex a :
  parse_address hex = Some a
  <-> is_array 20 a /\ exists p d, p ∈ hex_prefixes /\ hex = p ++ d /\ map lower d = to_hex a.
Proof.
  assert (forall h, (let '(ok, addr) := parse_hex_array 20 h (repeat 0 20) in
                     if negb ok then None else Some addr) = Some a
                    <-> is_array 20 a /\ map lower h = to_hex a) as Hp.
  { intros h. rewrite <- (parse_hex_array_iff 20 h (repeat 0 20) a eq_refl).
    destruct (parse_hex_array 20 h (repeat 0 20)) as [[] b]; cbn [negb]; split; congruence. }
  unfold parse_address. rewrite Hp. apply and_iff_l. intros [_ Ha]. split.
  - case_match eqn:E; [| intros Hm; exists [], hex; split_and!; [by left | done | done]].
    destruct hex as [| c [| c' d]]; [done | done |]. rewrite byte_at_0, byte_at_1 in E.
    intros Hm. cbn [drop] in Hm. exists [c; c'], d. split_and!; [| done | by destruct d].
    unfold hex_prefixes. destruct (Z.eqb_spec c 48), (Z.eqb_spec c' 120), (Z.eqb_spec c' 88); subst;
      rewrite ?andb_false_r in E; try done; by repeat first [left | right].
  - intros (p & d & Hin & -> & Hm). unfold hex_prefixes in Hin. rewrite !elem_of_cons in Hin.
    destruct Hin as [-> | [-> | [-> | Hin%not_elem_of_nil]]]; [| | | done]; cbn [app].
    + case_match eqn:E; [| done]. destruct d as [| c [| c' d]]; [done | done |].
      rewrite byte_at_0, byte_at_1 in E. exfalso. by apply (no_prefix a c c' d).
    + rewrite !len_cons, byte_at_0, byte_at_1. pose proof (len_nonneg d).
      destruct (Z.leb_spec 2 (1 + (1 + len d))); [done | lia].
    + rewrite !len_cons, byte_at_0, byte_at_1. pose proof (len_nonneg d).
      destruct (Z.leb_spec 2 (1 + (1 + len d))); [done | lia].
Qed.
