(* ===== verification/Secp256k1.v ===== *)
(** * Secp256k1: the interface to the signature library

    The functions of libsecp256k1 the program calls, which the model takes as parameters: keys
    and signatures are parsed from octets and serialised to octets, and the parsed forms are
    opaque. A context is created for every call, and [context_create] says whether that
    succeeds. [Secp256k1Laws] states what the code relies on. The file models no code. *)
From S2P Require Export Prelude.
Open Scope Z_scope.

Class Secp256k1 : Type := {
  Pubkey : Type;
  Signature : Type;
  (** [secp256k1_context_create]. *)
  context_create : bool;
  (** [secp256k1_ec_pubkey_parse], of a compressed or an uncompressed key. *)
  ec_pubkey_parse : bytes -> option Pubkey;
  (** [secp256k1_ec_pubkey_serialize], with [SECP256K1_EC_COMPRESSED] or
      [SECP256K1_EC_UNCOMPRESSED]. *)
  ec_pubkey_serialize : bool -> Pubkey -> bytes;
  (** [secp256k1_ec_pubkey_tweak_mul]: the key times a scalar. *)
  ec_pubkey_tweak_mul : Pubkey -> bytes -> option Pubkey;
  (** [secp256k1_ec_seckey_verify]: the octets are a secret key. *)
  ec_seckey_verify : bytes -> bool;
  (** [secp256k1_ec_pubkey_create]: the public key of a secret key. *)
  ec_pubkey_create : bytes -> option Pubkey;
  (** [secp256k1_ecdsa_sign_recoverable] of a digest with a secret key, and its compact form
      with the recovery id. *)
  ecdsa_sign_recoverable : bytes -> bytes -> option (bytes * Z);
  (** [secp256k1_ecdsa_signature_parse_compact] of 64 octets. *)
  ecdsa_signature_parse_compact : bytes -> option Signature;
  (** [secp256k1_ecdsa_recoverable_signature_parse_compact]: the 64 octets and the recovery id are
      a signature; and [secp256k1_ecdsa_recover] of such a signature over a digest. *)
  recoverable_parse_compact : bytes -> Z -> bool;
  ecdsa_recover : bytes -> Z -> bytes -> option Pubkey;
  (** [secp256k1_ecdsa_verify] of a signature over a digest. *)
  ecdsa_verify : Signature -> bytes -> Pubkey -> bool
}.

Class Secp256k1Laws (S : Secp256k1) : Prop := {
  serialize_length c pk : length (ec_pubkey_serialize c pk) = if c then 33%nat else 65%nat;
  serialize_octets c pk : bytes_ok (ec_pubkey_serialize c pk);
  (** The uncompressed form starts with 0x04; no serialised form is all zeros. *)
  serialize_prefix pk : take 1 (ec_pubkey_serialize false pk) = [0x04];
  serialize_nonzero pk : ec_pubkey_serialize true pk <> repeat 0 33;
  (** A key is read back from either form. *)
  parse_serialize c pk : ec_pubkey_parse (ec_pubkey_serialize c pk) = Some pk;
  (** A secret key has a public key and signs, and a key that has one is a secret key. *)
  seckey_pubkey k : ec_seckey_verify k = true <-> is_Some (ec_pubkey_create k);
  seckey_signs h k : ec_seckey_verify k = true -> is_Some (ecdsa_sign_recoverable h k);
  (** A signature of a secret key verifies with its public key. *)
  sign_length h k s r : ecdsa_sign_recoverable h k = Some (s, r) -> length s = 64%nat /\ bytes_ok s;
  sign_recid h k s r : ecdsa_sign_recoverable h k = Some (s, r) -> 0 <= r < 4;
  sign_verify h k s r pk : ecdsa_sign_recoverable h k = Some (s, r) -> ec_pubkey_create k = Some pk ->
    exists sig, ecdsa_signature_parse_compact s = Some sig /\ ecdsa_verify sig h pk = true;
  (** The public key of the signer is recovered. *)
  sign_recover h k s r pk : ecdsa_sign_recoverable h k = Some (s, r) -> ec_pubkey_create k = Some pk ->
    recoverable_parse_compact s r = true /\ ecdsa_recover s r h = Some pk;
  (** Diffie-Hellman. *)
  tweak_commutes a b pa pb : ec_pubkey_create a = Some pa -> ec_pubkey_create b = Some pb ->
    exists s, ec_pubkey_tweak_mul pa b = Some s /\ ec_pubkey_tweak_mul pb a = Some s
}.

(** The 64 octets that identify a key: its uncompressed form after the prefix. *)
Definition key_id `{Secp256k1} (pk : Pubkey) : bytes := take 64 (drop 1 (ec_pubkey_serialize false pk)).

Lemma parse_key_id `{Secp256k1Laws} pk : ec_pubkey_parse (0x04 :: key_id pk) = Some pk /\ is_array 64 (key_id pk).
Proof.
  pose proof (serialize_prefix pk) as Hp. pose proof (serialize_length false pk) as Hl.
  pose proof (serialize_octets false pk) as Ho. unfold key_id.
  pose proof (parse_serialize false pk) as Hs. destruct (ec_pubkey_serialize false pk) as [|x t]; [done |].
  cbn [take] in Hp. injection Hp as ->. injection Hl as Hl. change (drop 1 (4 :: t)) with t.
  rewrite take_ge by lia. split; [done |].
  split; [lia |]. by apply bytes_ok_cons in Ho as [_ ?].
Qed.

(** ** A toy instance

    It obeys the laws, so that theorems under them can be applied. There are two keys; the
    product of keys is conjunction, and a signature is the key and the digest. *)
Module ToySecp.
Definition secret (k : bytes) : bool := Z.odd (byte_at k 0).
Definition of_key (pk : bool) : Z := if pk then 1 else 0.
Definition serialize (compressed : bool) (pk : bool) : bytes :=
  if compressed then 0x02 :: of_key pk :: repeat 0 31 else 0x04 :: of_key pk :: repeat 0 63.
Definition parse (bs : bytes) : option bool :=
  if bool_decide (bs = serialize true true) || bool_decide (bs = serialize false true) then Some true
  else if bool_decide (bs = serialize true false) || bool_decide (bs = serialize false false) then Some false
  else None.
Definition signature (h : bytes) (pk : bool) : bytes := of_key pk :: map u8 (take 63 (h ++ repeat 0 63)).

#[export] Instance toy : Secp256k1 := {|
  Pubkey := bool;
  Signature := bytes;
  context_create := true;
  ec_pubkey_parse := parse;
  ec_pubkey_serialize := serialize;
  ec_pubkey_tweak_mul pk k := Some (pk && secret k);
  ec_seckey_verify k := bool_decide (length k = 32%nat);
  ec_pubkey_create k := if bool_decide (length k = 32%nat) then Some (secret k) else None;
  ecdsa_sign_recoverable h k := Some (signature h (secret k), 0);
  ecdsa_signature_parse_compact s := Some s;
  recoverable_parse_compact s r := (0 <=? r) && (r <? 4);
  ecdsa_recover s r h := Some (byte_at s 0 =? 1);
  ecdsa_verify s h pk := bool_decide (s = signature h pk)
|}.

#[export] Instance toy_laws : Secp256k1Laws toy.
Proof.
  split; cbn.
  - by intros [] [].
  - intros [] []; by vm_compute; repeat constructor.
  - by intros [].
  - by intros [].
  - intros [] []; by vm_compute.
  - intros k. split; [by intros ->%bool_decide_eq_true; eexists |]. intros [pk H].
    by destruct (bool_decide (length k = 32%nat)).
  - by eexists.
  - intros h k s r [= <- <-]. split.
    + unfold signature. cbn [length]. rewrite length_map, length_take, length_app, repeat_length. lia.
    + constructor; [by unfold of_key, uint8; destruct (secret k) |]. apply Forall_map, Forall_true.
      intros x. cbn. apply Z.mod_pos_bound. lia.
  - intros h k s r [= <- <-]. lia.
  - intros h k s r pk [= <- <-] H. destruct (bool_decide _); simplify_eq.
    eexists. split; [done |]. by apply bool_decide_eq_true.
  - intros h k s r pk [= <- <-] H. destruct (bool_decide _); simplify_eq. split; [done |].
    unfold signature. rewrite byte_at_0. by destruct (secret k).
  - intros a b pa pb Ha Hb. destruct (bool_decide (length a = 32%nat)), (bool_decide (length b = 32%nat)); simplify_eq.
    eexists. split; [done |]. by rewrite andb_comm.
Qed.
(** The key of an odd secret. *)
Definition odd_key : @Pubkey toy := true.
(** The key of an even one. *)
Definition even_key : @Pubkey toy := false.
End ToySecp.
