(* ===== verification/OpenSsl.v ===== *)
(** * OpenSsl: the interface to OpenSSL

    The functions of OpenSSL the program calls, which the model takes as parameters.
    [OpenSslLaws] states what the code relies on. The file models no code. *)
From S2P Require Export Prelude.
Open Scope Z_scope.

Class OpenSsl := {
  sha256 : bytes -> bytes;
  (** [HMAC] with SHA-256 of a key and data. *)
  hmac_sha256 : bytes -> bytes -> bytes;
  (** Cipher contexts can be created and initialised. *)
  evp_context : bool;
  (** Counter mode with a key of 128 or 256 bits: key, IV, octets the context has processed,
      data. *)
  aes128_ctr : bytes -> bytes -> nat -> bytes -> bytes;
  aes256_ctr : bytes -> bytes -> nat -> bytes -> bytes;
  (** AES-128-GCM: key, nonce, additional data; the tag follows the ciphertext. *)
  gcm_seal : bytes -> bytes -> bytes -> bytes -> bytes;
  gcm_open : bytes -> bytes -> bytes -> bytes -> option bytes;
  (** [RAND_bytes]: the number of the call, and how many octets. *)
  rand_bytes : nat -> Z -> option bytes
}.

(** Counter mode is a stream, keeps lengths and octets and is its own inverse; GCM opens what it
    sealed; digests have 32 octets. *)
Class OpenSslLaws (C : OpenSsl) : Prop := {
  sha256_array d : is_array 32 (sha256 d);
  hmac_array k d : is_array 32 (hmac_sha256 k d);
  ctr_app k iv n u v : aes128_ctr k iv n (u ++ v) = aes128_ctr k iv n u ++ aes128_ctr k iv (n + length u) v;
  ctr_length k iv n d : length (aes128_ctr k iv n d) = length d;
  ctr_octets k iv n d : bytes_ok d -> bytes_ok (aes128_ctr k iv n d);
  ctr_inverse k iv n d : bytes_ok d -> aes128_ctr k iv n (aes128_ctr k iv n d) = d;
  ctr256_length k iv n d : length (aes256_ctr k iv n d) = length d;
  ctr256_octets k iv n d : bytes_ok d -> bytes_ok (aes256_ctr k iv n d);
  ctr256_inverse k iv n d : bytes_ok d -> aes256_ctr k iv n (aes256_ctr k iv n d) = d;
  gcm_length k n ad p : length (gcm_seal k n ad p) = (length p + 16)%nat;
  gcm_octets k n ad p : bytes_ok p -> bytes_ok (gcm_seal k n ad p);
  gcm_roundtrip k n ad p : bytes_ok p -> gcm_open k n ad (gcm_seal k n ad p) = Some p;
  gcm_opened k n ad c p : gcm_open k n ad c = Some p -> bytes_ok p;
  rand_array i n r : rand_bytes i n = Some r -> is_array (Z.to_nat n) r
}.

(** ** A toy instance

    It obeys the laws. The stream cipher complements, a sealed message is the message and a tag
    of its key, and the draws are constant. *)
Module ToySsl.
Definition digest (d : bytes) : bytes := u8 (foldr Z.add 0 d) :: take 31 (map u8 d ++ repeat 0 31).
Definition complement (d : bytes) : bytes := map (fun b => 255 - b) d.
Definition tag (k : bytes) : bytes := take 16 (map u8 k ++ repeat 0 16).
Definition opened (k c : bytes) : option bytes :=
  if bool_decide (drop (length c - 16) c = tag k) && bool_decide (bytes_ok (take (length c - 16) c)) then Some (take (length c - 16) c) else None.

#[export] Instance toy : OpenSsl := {|
  sha256 := digest;
  hmac_sha256 k d := digest (k ++ d);
  evp_context := true;
  aes128_ctr _ _ _ d := complement d;
  aes256_ctr _ _ _ d := complement d;
  gcm_seal k _ _ p := p ++ tag k;
  gcm_open k _ _ c := opened k c;
  rand_bytes i n := Some (repeat (u8 (Z.of_nat i + 1)) (Z.to_nat n))
|}.

Lemma length_tag k : length (tag k) = 16%nat.
Proof. unfold tag. rewrite length_take, length_app, length_map, repeat_length. lia. Qed.

Lemma u8_octets d : bytes_ok (map u8 d).
Proof. apply Forall_map, Forall_true. intros x. apply Z.mod_pos_bound. lia. Qed.

Lemma tag_octets k : bytes_ok (tag k).
Proof. apply bytes_ok_take, bytes_ok_app. split; [apply u8_octets | octets]. Qed.

Lemma digest_array d : is_array 32 (digest d).
Proof.
  unfold digest. split.
  - cbn [length]. rewrite length_take, length_app, length_map, repeat_length. lia.
  - apply bytes_ok_cons. split; [apply Z.mod_pos_bound; lia |]. apply bytes_ok_take, bytes_ok_app.
    split; [apply u8_octets | octets].
Qed.

Lemma complement_octets d : bytes_ok d -> bytes_ok (complement d).
Proof.
  intros Hd. apply Forall_map. induction Hd as [|b d Hb Hd IH]; constructor; [unfold uint8 in *; cbn; lia | done].
Qed.

Lemma complement_twice d : complement (complement d) = d.
Proof. unfold complement. rewrite map_map. rewrite <- (map_id d) at 2. apply map_ext. lia. Qed.

#[export] Instance toy_laws : OpenSslLaws toy.
Proof.
  split; cbn; intros; try apply digest_array; try apply length_map; try (by apply complement_octets);
    try apply complement_twice.
  - apply map_app.
  - by rewrite length_app, length_tag.
  - apply bytes_ok_app. split; [done | apply tag_octets].
  - unfold opened. rewrite length_app, length_tag, Nat.add_sub, drop_app_length, take_app_length.
    by rewrite !bool_decide_true.
  - unfold opened in *. destruct (bool_decide (drop _ _ = _)); [| done].
    destruct (bool_decide_reflect (bytes_ok (take (length c - 16) c))); cbn in *; [by simplify_eq | done].
  - simplify_eq. split; [apply repeat_length |]. apply List.Forall_forall. intros x Hx. apply repeat_spec in Hx as ->.
    apply Z.mod_pos_bound. lia.
Qed.
End ToySsl.
