(* ===== verification/RlpxTypes.v ===== *)
(** * RlpxTypes: constants and errors of the RLPx layer

    [include/rlpx/rlpx_types.hpp], [include/rlpx/rlpx_error.hpp], [src/rlpx/rlpx_error.cpp].
    Keys, nonces, digests and buffers are octet lists; the sizes the C++ types fix are
    hypotheses where they matter ([is_array]). The conversions of namespace [detail] between
    views and buffers are the identity. *)
From Stdlib Require Export String.
From S2P Require Export Prelude.
Open Scope Z_scope.

(** ** Sizes *)

Definition kPublicKeySize : Z := 64.
Definition kPrivateKeySize : Z := 32.
Definition kNonceSize : Z := 32.
Definition kSharedSecretSize : Z := 32.
Definition kAesKeySize : Z := 32.
Definition kMacKeySize : Z := 32.
Definition kUncompressedPubKeyPrefixSize : Z := 1.
Definition kUncompressedPubKeySize : Z := kPublicKeySize + kUncompressedPubKeyPrefixSize.
Definition kUncompressedPubKeyPrefix : Z := 0x04.
Definition kHmacSha256Size : Z := 32.
Definition kAesBlockSize : Z := 16.
Definition kMacSize : Z := 16.
Definition kFrameHeaderSize : Z := 16.
Definition kEciesMacSize : Z := kHmacSha256Size.
Definition kEciesOverheadSize : Z := kUncompressedPubKeySize + kAesBlockSize + kEciesMacSize.
Definition kEip8LengthPrefixSize : Z := 2.
Definition kEip8AuthPaddingSize : Z := 100.
Definition kMaxEip8HandshakePacketSize : Z := 2048.
Definition kFrameLengthSize : Z := 3.
Definition kFrameHeaderDataOffset : Z := kFrameLengthSize.
Definition kFrameHeaderWithMacSize : Z := kFrameHeaderSize + kMacSize.
Definition kFramePaddingAlignment : Z := kAesBlockSize.
Definition kFrameHeaderStaticRlpBytes : bytes := [0xC2; 0x80; 0x80].
Definition kEcdsaCompactSigSize : Z := 64.
Definition kEcdsaRecoveryIdSize : Z := 1.
Definition kEcdsaSigSize : Z := kEcdsaCompactSigSize + kEcdsaRecoveryIdSize.
Definition kAuthVersionSize : Z := 1.
Definition kAuthVersion : Z := 4.
Definition kMaxFrameSizeMiB : Z := 16.
Definition kMaxFrameSize : Z := kMaxFrameSizeMiB * 1024 * 1024.

(** ** Sessions and protocol messages *)

(** [enum class SessionState]. *)
Inductive SessionState :=
| kUninitialized | kConnecting | kAuthenticating | kHandshaking | kActive | kDisconnecting
| kClosed | kError.

(** [enum class DisconnectReason : uint8_t] holds any octet: [byte_to_reason] is a cast. These
    are its named values. *)
Module DisconnectReason.
Definition kRequested : Z := 0x00.
Definition kTcpError : Z := 0x01.
Definition kProtocolError : Z := 0x02.
Definition kUselessPeer : Z := 0x03.
Definition kTooManyPeers : Z := 0x04.
Definition kAlreadyConnected : Z := 0x05.
Definition kIncompatibleVersion : Z := 0x06.
Definition kInvalidIdentity : Z := 0x07.
Definition kClientQuitting : Z := 0x08.
Definition kUnexpectedIdentity : Z := 0x09.
Definition kSelfConnection : Z := 0x0A.
Definition kTimeout : Z := 0x0B.
Definition kSubprotocolError : Z := 0x10.
End DisconnectReason.

Definition kHelloMessageId : Z := 0x00.
Definition kDisconnectMessageId : Z := 0x01.
Definition kPingMessageId : Z := 0x02.
Definition kPongMessageId : Z := 0x03.
Definition kProtocolVersion : Z := 5.

(** ** Errors *)

Module SessionError.
Inductive t :=
| kNetworkFailure | kAuthenticationFailed | kHandshakeFailed | kInvalidState
| kPeerDisconnected | kTimeout | kCompressionError | kEncryptionError | kDecryptionError
| kInvalidMessage | kInvalidFrameSize | kBufferOverflow | kConnectionFailed | kNotConnected
| kDisconnected.
End SessionError.
Abbreviation SessionError := SessionError.t.

Module AuthError.
Inductive t :=
| kEciesEncryptFailed | kEciesDecryptFailed | kInvalidAuthMessage | kInvalidAckMessage
| kSharedSecretFailed | kSignatureInvalid | kKeyDerivationFailed | kInvalidPublicKey
| kInvalidNonce.
End AuthError.
Abbreviation AuthError := AuthError.t.

Module FramingError.
Inductive t :=
| kEncryptionFailed | kDecryptionFailed | kMacMismatch | kInvalidFrameSize | kBufferTooSmall
| kInvalidHeader | kCompressionFailed | kDecompressionFailed.
End FramingError.
Abbreviation FramingError := FramingError.t.

Module CryptoError.
Inductive t :=
| kAesEncryptFailed | kAesDecryptFailed | kHmacFailed | kKdfFailed | kEcdhFailed
| kInvalidKeySize | kInvalidIvSize | kInvalidPublicKey | kInvalidPrivateKey | kOpenSslError
| kSecp256k1Error.
End CryptoError.
Abbreviation CryptoError := CryptoError.t.

#[export] Instance SessionError_eq_dec : EqDecision SessionError.
Proof. solve_decision. Defined.
#[export] Instance AuthError_eq_dec : EqDecision AuthError.
Proof. solve_decision. Defined.
#[export] Instance FramingError_eq_dec : EqDecision FramingError.
Proof. solve_decision. Defined.
#[export] Instance CryptoError_eq_dec : EqDecision CryptoError.
Proof. solve_decision. Defined.
#[export] Instance SessionState_eq_dec : EqDecision SessionState.
Proof. solve_decision. Defined.

(** [to_string], one overload for each error type. *)

Definition session_error_to_string (error : SessionError) : string :=
  match error with
  | SessionError.kNetworkFailure => "Network failure"
  | SessionError.kAuthenticationFailed => "Authentication failed"
  | SessionError.kHandshakeFailed => "Handshake failed"
  | SessionError.kInvalidState => "Invalid state"
  | SessionError.kPeerDisconnected => "Peer disconnected"
  | SessionError.kTimeout => "Timeout"
  | SessionError.kCompressionError => "Compression error"
  | SessionError.kEncryptionError => "Encryption error"
  | SessionError.kDecryptionError => "Decryption error"
  | SessionError.kInvalidMessage => "Invalid message"
  | SessionError.kInvalidFrameSize => "Invalid frame size"
  | SessionError.kBufferOverflow => "Buffer overflow"
  | _ => "Unknown error"
  end%string.

Definition auth_error_to_string (error : AuthError) : string :=
  match error with
  | AuthError.kEciesEncryptFailed => "ECIES encryption failed"
  | AuthError.kEciesDecryptFailed => "ECIES decryption failed"
  | AuthError.kInvalidAuthMessage => "Invalid auth message"
  | AuthError.kInvalidAckMessage => "Invalid ack message"
  | AuthError.kSharedSecretFailed => "Shared secret computation failed"
  | AuthError.kSignatureInvalid => "Invalid signature"
  | AuthError.kKeyDerivationFailed => "Key derivation failed"
  | AuthError.kInvalidPublicKey => "Invalid public key"
  | AuthError.kInvalidNonce => "Invalid nonce"
  end%string.

Definition framing_error_to_string (error : FramingError) : string :=
  match error with
  | FramingError.kEncryptionFailed => "Frame encryption failed"
  | FramingError.kDecryptionFailed => "Frame decryption failed"
  | FramingError.kMacMismatch => "MAC mismatch"
  | FramingError.kInvalidFrameSize => "Invalid frame size"
  | FramingError.kBufferTooSmall => "Buffer too small"
  | FramingError.kInvalidHeader => "Invalid header"
  | FramingError.kCompressionFailed => "Compression failed"
  | FramingError.kDecompressionFailed => "Decompression failed"
  end%string.

Definition crypto_error_to_string (error : CryptoError) : string :=
  match error with
  | CryptoError.kAesEncryptFailed => "AES encryption failed"
  | CryptoError.kAesDecryptFailed => "AES decryption failed"
  | CryptoError.kHmacFailed => "HMAC computation failed"
  | CryptoError.kKdfFailed => "Key derivation failed"
  | CryptoError.kEcdhFailed => "ECDH computation failed"
  | CryptoError.kInvalidKeySize => "Invalid key size"
  | CryptoError.kInvalidIvSize => "Invalid IV size"
  | CryptoError.kInvalidPublicKey => "Invalid public key"
  | CryptoError.kInvalidPrivateKey => "Invalid private key"
  | CryptoError.kOpenSslError => "OpenSSL error"
  | CryptoError.kSecp256k1Error => "secp256k1 error"
  end%string.
