(* ===== verification/RlpxMessages.v ===== *)
(** * RlpxMessages: Hello, Disconnect, Ping and Pong

    [include/rlpx/protocol/messages.hpp], [src/rlpx/protocol/messages.cpp]. Every failure of
    these functions is reported as [kInvalidMessage]. Strings are octet lists. Theorems: a
    Hello survives the wire ([hello_roundtrip]); decoding a Hello ends on every input in a
    well-typed message or that error ([hello_decode_typed]); decoding a Disconnect always ends
    in a message, and finds the reason however the peer wrote it ([disconnect_decode]). *)
From S2P Require Export RlpxTypes Codec.

(** ** Data *)

Record Capability := mkCapability { cap_name : bytes; cap_version : Z }.

Record HelloMessage := mkHello {
  protocol_version : Z;
  client_id : bytes;
  capabilities : list Capability;
  listen_port : Z;
  hello_node_id : bytes
}.

(** [struct DisconnectMessage], and the empty [PingMessage] and [PongMessage]. *)
Record DisconnectMessage := mkDisconnect { reason : Z }.
Record PingMessage := mkPing {}.
Record PongMessage := mkPong {}.

(** [struct Message], the generic wrapper. *)
Record Message := mkMessage { msg_id : Z; msg_payload : bytes }.

Definition is_hello (m : Message) : bool := msg_id m =? kHelloMessageId.
Definition is_disconnect (m : Message) : bool := msg_id m =? kDisconnectMessageId.
Definition is_ping (m : Message) : bool := msg_id m =? kPingMessageId.
Definition is_pong (m : Message) : bool := msg_id m =? kPongMessageId.

#[export] Instance Capability_eq_dec : EqDecision Capability.
Proof. solve_decision. Defined.
#[export] Instance HelloMessage_eq_dec : EqDecision HelloMessage.
Proof. solve_decision. Defined.

(** [rlpx::Result<T>]. *)
Abbreviation SessionResult := (outcome SessionError).

(** ** Encoding *)

(** [if (!encoder...) return kInvalidMessage;] around a whole encoding. *)
Definition encoded (m : EncM unit) : SessionResult bytes :=
  map_err SessionError.kInvalidMessage (run_encoder (m ;; GetBytes)).

Definition put_capability (cap : Capability) : EncM unit :=
  BeginList ;; (add_bytes (cap_name cap) ;; add_integral 1 (cap_version cap)) ;; EndList.

Definition encode_hello (msg : HelloMessage) : SessionResult bytes :=
  encoded (
    BeginList ;;
    (add_integral 1 (protocol_version msg) ;;
     add_bytes (client_id msg) ;;
     (BeginList ;; for_each (capabilities msg) put_capability ;; EndList) ;;
     add_integral 2 (listen_port msg) ;;
     add_bytes (hello_node_id msg)) ;;
    EndList).

(** [static_cast<uint8_t>(reason)] is the identity on octets. *)
Definition encode_disconnect (msg : DisconnectMessage) : SessionResult bytes :=
  encoded (BeginList ;; add_integral 1 (reason msg) ;; EndList).

Definition encode_ping (_ : PingMessage) : SessionResult bytes :=
  encoded (BeginList ;; mret tt ;; EndList).

Definition encode_pong (_ : PongMessage) : SessionResult bytes :=
  encoded (BeginList ;; mret tt ;; EndList).

(** ** Decoding *)

(** [bytes.empty() ? 0 : bytes[0]]. *)
Definition first_octet (bs : bytes) : Z := match bs with [] => 0 | b :: _ => b end.

(** The loop over capabilities. It stops at the first item that is not a list ([break]); a name
    or a version that cannot be read only ends its iteration ([continue]). *)
Fixpoint read_capabilities (fuel : nat) : DecM (list Capability) := fun v =>
  match fuel with
  | O => (Diverged, v)
  | S fuel =>
      if empty v then (Ok [], v)
      else match fst (IsList v) with
      | Ok true =>
          match ReadListHeaderBytes v with
          | (Ok _, v) =>
              match read_bytes v with
              | (Ok name, v) =>
                  match read_bytes v with
                  | (Ok ver, v) =>
                      (caps ← read_capabilities fuel; mret (mkCapability name (first_octet ver) :: caps)) v
                  | (Err _, v) => read_capabilities fuel v
                  | (Diverged, v) => (Diverged, v)
                  end
              | (Err _, v) => read_capabilities fuel v
              | (Diverged, v) => (Diverged, v)
              end
          | (Err _, v) => (Ok [], v)
          | (Diverged, v) => (Diverged, v)
          end
      | _ => (Ok [], v)
      end
  end.

(** The decoder's calls of [HelloMessage::decode]. *)
Definition decode_hello_from_decoder : DecM HelloMessage :=
  ReadListHeaderBytes ;;
  version_bytes ← read_bytes;
  client_id_bytes ← read_bytes;
  ReadListHeaderBytes ;;
  caps ← (fun v => read_capabilities (S (length v)) v);
  port ← read_integral 2;
  id_bytes ← read_bytes;
  fail_if (negb (len id_bytes =? kPublicKeySize)) DecodingError.kUnexpectedLength ;;
  mret {| protocol_version := first_octet version_bytes; client_id := client_id_bytes;
          capabilities := caps; listen_port := port; hello_node_id := id_bytes |}.

Definition decode_hello (rlp_data : bytes) : SessionResult HelloMessage :=
  map_err SessionError.kInvalidMessage (fst (decode_hello_from_decoder rlp_data)).

Definition decode_disconnect (rlp_data : bytes) : SessionResult DisconnectMessage :=
  if empty rlp_data then Ok (mkDisconnect DisconnectReason.kRequested)
  else match ReadListHeaderBytes rlp_data with
  | (Ok list_size, rest) =>
      if list_size =? 0 then Ok (mkDisconnect DisconnectReason.kRequested)
      else match read_bytes rest with
      | (Ok reason_bytes, _) => Ok (mkDisconnect (first_octet reason_bytes))
      | (Err _, _) => Ok (mkDisconnect DisconnectReason.kRequested)
      | (Diverged, _) => Diverged
      end
  | (Err _, _) => Ok (mkDisconnect (byte_at rlp_data 0))
  | (Diverged, _) => Diverged
  end.

Definition decode_ping (_ : bytes) : SessionResult PingMessage := Ok mkPing.
Definition decode_pong (_ : bytes) : SessionResult PongMessage := Ok mkPong.

(** ** Round trips *)

(** The values the C++ types hold. *)
Definition capability_ok (c : Capability) : Prop := bytes_ok (cap_name c) /\ fits 1 (cap_version c).

Definition hello_ok (m : HelloMessage) : Prop :=
  fits 1 (protocol_version m) /\ bytes_ok (client_id m) /\ Forall capability_ok (capabilities m)
  /\ fits 2 (listen_port m) /\ is_array 64 (hello_node_id m).

Definition capability_item (c : Capability) : item := Lst [Str (cap_name c); uint_item (cap_version c)].

Definition hello_item (m : HelloMessage) : item :=
  Lst [uint_item (protocol_version m); Str (client_id m); Lst (map capability_item (capabilities m));
       uint_item (listen_port m); Str (hello_node_id m)].

Lemma appends_capability c : capability_ok c -> appends (put_capability c) (rlp (capability_item c)).
Proof.
  intros [Hn Hv]. apply appends_begin_end. rewrite rlps_two. apply appends_bind; eauto with appends.
Qed.

Lemma encode_hello_item m :
  hello_ok m -> len (rlp (hello_item m)) < 2 ^ 64 -> encode_hello m = Ok (rlp (hello_item m)).
Proof.
  intros (Hv & Hc & Hcaps & Hp & Hid) Hl. unfold encode_hello, encoded.
  rewrite (run_encoder_appends _ (rlp (hello_item m))); [done | | done].
  apply appends_begin_end. rewrite !rlps_cons. apply appends_bind; [eauto with appends |].
  apply appends_bind; [eauto with appends |]. apply appends_bind.
  - apply appends_begin_end. unfold rlps. rewrite map_map. apply appends_for_each.
    intros c Hin. apply appends_capability. rewrite List.Forall_forall in Hcaps.
    by apply Hcaps, list_elem_of_In.
  - apply appends_bind; [eauto with appends |]. apply appends_last. eauto with appends.
Qed.

Lemma first_octet_digits n : fits 1 n -> first_octet (digits n) = n.
Proof.
  unfold fits. intros Hn. destruct (Z.eqb_spec n 0) as [->|Hz]; [done |].
  by rewrite digits_small by lia.
Qed.

(** The loop reads the capabilities that are there, up to the item after them. *)
Lemma read_capabilities_reads caps s rest : Forall capability_ok caps ->
  let body := rlps (map capability_item caps) in
  len body < 2 ^ 64 -> len (rlp (Str s)) < 2 ^ 64 -> bytes_ok (body ++ rlp (Str s) ++ rest) ->
  forall fuel, (length (body ++ rlp (Str s) ++ rest) < fuel)%nat ->
  read_capabilities fuel (body ++ rlp (Str s) ++ rest) = (Ok caps, rlp (Str s) ++ rest).
Proof.
  intros Hcaps. induction Hcaps as [|c caps [Hn Hv] Hcaps IH]; cbn zeta; intros Hl Hls Hok fuel Hf;
    (destruct fuel as [|fuel]; [lia |]); cbn [read_capabilities].
  - cbn [map] in *. change (rlps []) with (@nil Z) in *. cbn [app] in *.
    pose proof (rlp_nonempty (Str s)).
    destruct (rlp (Str s) ++ rest) as [|b t] eqn:E; [apply (f_equal len) in E; len_lia |].
    cbn [empty]. rewrite <- E in *. by rewrite IsList_rlp.
  - cbn [map] in *. rewrite rlps_cons, <- app_assoc in *.
    set (tail := rlps (map capability_item caps) ++ rlp (Str s) ++ rest) in *.
    pose proof (rlp_nonempty (capability_item c)) as Hne.
    assert (length tail < fuel)%nat as Hft by (rewrite length_app in Hf; unfold len in Hne; lia).
    destruct (rlp (capability_item c) ++ tail) as [|b t] eqn:E; [apply (f_equal len) in E; len_lia |].
    cbn [empty]. rewrite <- E in *. rewrite IsList_rlp by (done || len_lia). cbn [fst capability_item item_is_list].
    change (rlp (capability_item c)) with
      (rlp_list (rlp (Str (cap_name c)) ++ rlp (Str (digits (cap_version c))) ++ [])) in *.
    rewrite app_nil_r in *.
    assert (len (rlp (Str (cap_name c)) ++ rlp (Str (digits (cap_version c)))) < 2 ^ 64) as Hlb
      by (unfold rlp_list in Hl; len_lia).
    rewrite ReadListHeaderBytes_list by len_lia.
    unfold rlp_list in Hok. rewrite <- !app_assoc in *. apply bytes_ok_app in Hok as [_ Hok].
    rewrite (reads_read_bytes (cap_name c)) by (done || len_lia).
    apply bytes_ok_app in Hok as [_ Hok].
    rewrite (reads_read_bytes (digits (cap_version c))) by (done || len_lia).
    apply bytes_ok_app in Hok as [_ Hok].
    erewrite bind_ok; [| apply IH; [len_lia | done..]].
    rewrite first_octet_digits by done. by destruct c.
Qed.

Lemma hello_reads m : hello_ok m -> reads decode_hello_from_decoder (rlp (hello_item m)) m.
Proof.
  intros (Hv & Hc & Hcaps & Hp & [Hid Hido]).
  refine (reads_list _ (rlps [uint_item (protocol_version m); Str (client_id m);
    Lst (map capability_item (capabilities m)); uint_item (listen_port m); Str (hello_node_id m)]) m _).
  rewrite !rlps_cons. apply (reads_bind _ _ _ _ (digits (protocol_version m))); [apply reads_read_bytes |].
  apply (reads_bind _ _ _ _ (client_id m)); [apply reads_read_bytes |].
  change (rlp (Lst (map capability_item (capabilities m)))) with
    (rlp_list (rlps (map capability_item (capabilities m)))).
  change (uint_item (listen_port m)) with (Str (digits (listen_port m))).
  intros Hl rest Hok. rewrite <- !app_assoc in *.
  erewrite bind_ok by (apply ReadListHeaderBytes_list; len_lia).
  unfold rlp_list in Hl, Hok. rewrite <- !app_assoc in Hok. apply bytes_ok_app in Hok as [_ Hok].
  erewrite bind_ok.
  2: { apply (read_capabilities_reads (capabilities m) (digits (listen_port m)));
         try done; try len_lia. }
  apply bytes_ok_app in Hok as [_ Hok].
  erewrite bind_ok by (apply (reads_read_integral 2 (listen_port m)); [lia | done | unfold uint_item; len_lia | done]).
  apply bytes_ok_app in Hok as [_ Hok]. change (rlps [] ++ rest) with rest in *.
  erewrite bind_ok by (apply (reads_read_bytes (hello_node_id m)); [len_lia | done]).
  unfold_m. unfold len. rewrite Hid, first_octet_digits by done. by destruct m.
Qed.

(** a Hello message survives the wire, whatever its strings, versions and capabilities. *)
Theorem hello_roundtrip m :
  hello_ok m -> len (rlp (hello_item m)) < 2 ^ 64 ->
  exists wire, encode_hello m = Ok wire /\ decode_hello wire = Ok m.
Proof.
  intros Hm Hl. exists (rlp (hello_item m)). split; [by apply encode_hello_item |].
  assert (bytes_ok (rlp (hello_item m))) as Hok.
  { apply rlp_ok; [| done]. destruct Hm as (_ & Hc & Hcaps & _ & [_ Hid]).
    unfold hello_item. repeat apply item_ok_cons; auto with octets.
    apply item_ok_map. intros c Hin. rewrite List.Forall_forall in Hcaps.
    destruct (Hcaps c ltac:(by apply list_elem_of_In)) as [Hn _].
    unfold capability_item. auto with octets. }
  pose proof (hello_reads m Hm Hl []) as H. rewrite app_nil_r in H.
  unfold decode_hello. by rewrite H.
Qed.

(** The Hello of the session: four versions of eth. *)
Definition sample_hello : HelloMessage :=
  {| protocol_version := 5; client_id := [0x74; 0x65; 0x73; 0x74];
     capabilities := map (mkCapability [0x65; 0x74; 0x68]) [66; 67; 68; 69];
     listen_port := 30303; hello_node_id := repeat 0x11 64 |}.

Lemma sample_hello_ok : hello_ok sample_hello.
Proof.
  unfold hello_ok, capability_ok, fits, is_array. cbn. repeat split; try lia; try octets.
Qed.

Lemma hello_roundtrip_witness :
  exists wire, encode_hello sample_hello = Ok wire /\ decode_hello wire = Ok sample_hello.
Proof. apply hello_roundtrip; [apply sample_hello_ok | reflexivity]. Defined.

(** ** Decoding whatever a peer sends *)

Lemma read_capabilities_ends fuel : forall v, bytes_ok v -> (length v < fuel)%nat ->
  fst (read_capabilities fuel v) <> Diverged /\ exists p, v = p ++ snd (read_capabilities fuel v).
Proof.
  induction fuel as [|fuel IH]; intros v Hv Hf; [lia |]. cbn [read_capabilities].
  destruct (empty v); [by split; [| exists []] |].
  destruct (fst (IsList v)) as [[]| |]; try (by split; [| exists []]).
  destruct (total_ReadListHeaderBytes v Hv) as (Hd & p & Hp).
  pose proof (proj2 consuming_ReadListHeaderBytes v) as Hc.
  destruct (ReadListHeaderBytes v) as [[n|e|] v1] eqn:E1; cbn in Hd, Hp; [| by split; [| exists p] | done].
  specialize (Hc n v1 Hv eq_refl). rewrite Hp in Hv. apply bytes_ok_app in Hv as [_ Hv1].
  destruct (total_read_bytes v1 Hv1) as (Hd1 & p1 & Hp1).
  assert (forall w q, v1 = q ++ w -> bytes_ok w -> fst (read_capabilities fuel w) <> Diverged
    /\ exists p, v = p ++ snd (read_capabilities fuel w)) as Hgo.
  { intros w q Hq Hw. destruct (IH w Hw) as (Hd' & r & Hr).
    - rewrite Hq in Hc. unfold len in Hc. rewrite length_app in Hc. lia.
    - split; [done |]. exists (p ++ q ++ r). rewrite Hp, Hq, Hr at 1. by rewrite !app_assoc. }
  destruct (read_bytes v1) as [[name|e|] v2] eqn:E2; cbn in Hd1, Hp1; [| | done].
  2: { apply (Hgo v2 p1 Hp1). rewrite Hp1 in Hv1. by apply bytes_ok_app in Hv1 as [_ ?]. }
  destruct (read_bytes_octets _ _ _ Hv1 E2) as [_ Hv2].
  destruct (total_read_bytes v2 Hv2) as (Hd2 & p2 & Hp2).
  destruct (read_bytes v2) as [[ver|e|] v3] eqn:E3; cbn in Hd2, Hp2; [| | done].
  - destruct (read_bytes_octets _ _ _ Hv2 E3) as [_ Hv3].
    destruct (Hgo v3 (p1 ++ p2)) as (Hd' & r & Hr); [by rewrite Hp1, Hp2, app_assoc at 1 | done |].
    unfold mbind, M_bind. destruct (read_capabilities fuel v3) as [[caps|e|] v4]; cbn in *; eauto.
  - apply (Hgo v3 (p1 ++ p2)); [by rewrite Hp1, Hp2, app_assoc at 1 |].
    rewrite Hp2 in Hv2. by apply bytes_ok_app in Hv2 as [_ ?].
Qed.

Lemma total_capabilities : total (fun v => read_capabilities (S (length v)) v).
Proof. intros v Hv. apply read_capabilities_ends; [done | lia]. Qed.

Lemma fits_first_octet bs : bytes_ok bs -> fits 1 (first_octet bs).
Proof. intros [|b bs' Hb Hbs]; unfold fits, uint8 in *; cbn; lia. Qed.

Lemma read_capabilities_typed fuel : forall v caps w, bytes_ok v ->
  read_capabilities fuel v = (Ok caps, w) -> Forall capability_ok caps /\ bytes_ok w.
Proof.
  induction fuel as [|fuel IH]; intros v caps w Hv H; [done |]. cbn [read_capabilities] in H.
  destruct (empty v); [by injection H as <- <- |].
  destruct (fst (IsList v)) as [[]| |]; try (by injection H as <- <-).
  destruct (total_ReadListHeaderBytes v Hv) as (_ & p & Hp).
  destruct (ReadListHeaderBytes v) as [[n|e|] v1]; cbn in Hp; [| | done];
    (rewrite Hp in Hv; apply bytes_ok_app in Hv as [_ Hv1]); [| by injection H as <- <-].
  destruct (total_read_bytes v1 Hv1) as (_ & p1 & Hp1).
  destruct (read_bytes v1) as [[name|e|] v2] eqn:E2; cbn in Hp1; [| | done].
  2: { eapply IH; [| exact H]. rewrite Hp1 in Hv1. by apply bytes_ok_app in Hv1 as [_ ?]. }
  destruct (read_bytes_octets _ _ _ Hv1 E2) as [Hn Hv2].
  destruct (total_read_bytes v2 Hv2) as (_ & p2 & Hp2).
  destruct (read_bytes v2) as [[ver|e|] v3] eqn:E3; cbn in Hp2; [| | done].
  2: { eapply IH; [| exact H]. rewrite Hp2 in Hv2. by apply bytes_ok_app in Hv2 as [_ ?]. }
  destruct (read_bytes_octets _ _ _ Hv2 E3) as [Hver Hv3].
  apply bind_inv in H as (caps' & w' & Hc & H). injection H as <- <-.
  destruct (IH v3 caps' w' Hv3 Hc) as [H1 H2]. split; [| done].
  constructor; [| done]. split; [done | by apply fits_first_octet].
Qed.

Lemma total_hello : total decode_hello_from_decoder.
Proof. unfold decode_hello_from_decoder. pose proof total_capabilities. auto 20 with total. Qed.

(** C38: whatever octets a peer sends as its Hello, decoding ends: in a message whose fields are
    values of their types (octet strings, octet versions, a 16-bit port and a key of 64
    octets), or in [kInvalidMessage]. *)
Theorem hello_decode_typed v :
  bytes_ok v ->
  decode_hello v = Err SessionError.kInvalidMessage
  \/ exists m, decode_hello v = Ok m /\ hello_ok m.
Proof.
  intros Hv. unfold decode_hello. destruct (total_hello v Hv) as [Hd _].
  destruct (decode_hello_from_decoder v) as [[m|e|] w] eqn:E; cbn in *; [| by left | done].
  right. exists m. split; [done |]. unfold decode_hello_from_decoder in E.
  apply bind_inv in E as (n & v1 & E1 & E).
  destruct (total_ReadListHeaderBytes v Hv) as (_ & p & Hp). rewrite E1 in Hp. cbn in Hp.
  rewrite Hp in Hv. apply bytes_ok_app in Hv as [_ Hv].
  apply bind_inv in E as (ver & v2 & E2 & E). apply read_bytes_octets in E2 as [Hver Hv2]; [| done].
  apply bind_inv in E as (cid & v3 & E3 & E). apply read_bytes_octets in E3 as [Hcid Hv3]; [| done].
  apply bind_inv in E as (n' & v4 & E4 & E).
  destruct (total_ReadListHeaderBytes v3 Hv3) as (_ & q & Hq). rewrite E4 in Hq. cbn in Hq.
  rewrite Hq in Hv3. apply bytes_ok_app in Hv3 as [_ Hv4].
  apply bind_inv in E as (caps & v5 & E5 & E). apply read_capabilities_typed in E5 as [Hcaps Hv5]; [| done].
  apply bind_inv in E as (port & v6 & E6 & E). apply read_integral_typed in E6 as [Hport Hv6]; [| done | lia].
  apply bind_inv in E as (id & v7 & E7 & E). apply read_bytes_octets in E7 as [Hid Hv7]; [| done].
  inv_guard E. injection E as <- _. apply negb_false_iff, Z.eqb_eq in E0.
  unfold hello_ok, is_array. cbn. repeat split; auto using fits_first_octet.
  all: try (by apply fits_first_octet). all: unfold fits, len, kPublicKeySize in *; lia.
Qed.

Lemma hello_decode_typed_witness :
  decode_hello [0xc3; 0x05; 0x80; 0xc1] = Err SessionError.kInvalidMessage.
Proof.
  destruct (hello_decode_typed [0xc3; 0x05; 0x80; 0xc1]) as [H|(m & H & _)]; [octets | exact H |].
  vm_compute in H. discriminate H.
Defined.

Lemma disconnect_total v :
  bytes_ok v -> exists r, decode_disconnect v = Ok (mkDisconnect r) /\ fits 1 r.
Proof.
  intros Hv. unfold decode_disconnect. destruct (empty v); [by exists 0 |].
  destruct (total_ReadListHeaderBytes v Hv) as (Hd & p & Hp).
  destruct (ReadListHeaderBytes v) as [[n|e|] v1] eqn:E; cbn in Hd, Hp; [| | done].
  - destruct (n =? 0); [by exists 0 |].
    rewrite Hp in Hv. apply bytes_ok_app in Hv as [_ Hv1]. destruct (total_read_bytes v1 Hv1) as [Hd1 _].
    destruct (read_bytes v1) as [[bs|e|] v2] eqn:E2; cbn in Hd1; [| by exists 0 | done].
    apply read_bytes_octets in E2 as [Hbs _]; [| done]. eauto using fits_first_octet.
  - exists (byte_at v 0). split; [done |]. pose proof (byte_at_ok v 0 Hv). unfold uint8, fits in *. lia.
Qed.

(** The encoding of a list of one octet. *)
Lemma rlp_singleton r : fits 1 r ->
  rlp (Lst [uint_item r]) = rlp_list (rlp (uint_item r)) /\ len (rlp (Lst [uint_item r])) <= 3.
Proof.
  intros Hr. assert (rlp (Lst [uint_item r]) = rlp_list (rlp (uint_item r))) as E
    by (cbn; by rewrite app_nil_r).
  pose proof (digits_len 1 r ltac:(lia) Hr) as Hd.
  assert (len (rlp (uint_item r)) <= 2) as Hl.
  { cbn. unfold rlp_string. case_match; [lia |]. rewrite length_prefix_short by lia. len_lia. }
  split; [done |]. rewrite E. unfold rlp_list. rewrite length_prefix_short by lia. len_lia.
Qed.

Lemma disconnect_roundtrip r : fits 1 r -> exists wire,
  encode_disconnect (mkDisconnect r) = Ok wire /\ decode_disconnect wire = Ok (mkDisconnect r).
Proof.
  intros Hr. exists (rlp (Lst [uint_item r])). destruct (rlp_singleton r Hr) as [E Hl].
  split.
  - unfold encode_disconnect, encoded. rewrite (run_encoder_appends _ (rlp (Lst [uint_item r]))); [done | | lia].
    apply appends_begin_end. rewrite <- rlps_one. eauto with appends.
  - assert (bytes_ok (rlp (Lst [uint_item r]))) as Hok by (apply rlp_ok; [auto with octets | lia]).
    pose proof (rlp_nonempty (uint_item r)). pose proof (rlp_nonempty (Lst [uint_item r])).
    unfold decode_disconnect. destruct (rlp (Lst [uint_item r])) as [|b t] eqn:Eb; [by rewrite len_nil in * |].
    cbn [empty]. rewrite <- Eb, E in *. rewrite <- (app_nil_r (rlp_list _)), ReadListHeaderBytes_list by lia.
    unfold rlp_list in Hok, Hl. apply bytes_ok_app in Hok as [_ Hok].
    destruct (Z.eqb_spec (len (rlp (uint_item r))) 0); [lia |]. unfold uint_item in *.
    rewrite (reads_read_bytes (digits r)) by (rewrite ?app_nil_r; done || len_lia).
    by rewrite first_octet_digits.
Qed.

Lemma disconnect_bare b : 0 <= b < 0xC0 -> decode_disconnect [b] = Ok (mkDisconnect b).
Proof.
  intros Hb. unfold decode_disconnect. cbn [empty].
  assert (bytes_ok [b]) as Hok by (repeat constructor; unfold uint8; lia).
  destruct (total_ReadListHeaderBytes [b] Hok) as [Hd _].
  destruct (ReadListHeaderBytes [b]) as [[n|e|] w] eqn:E; cbn in Hd; [| done..].
  apply ReadListHeaderBytes_inv in E as (h & Hh & Hl & _).
  pose proof (IsList_header _ _ _ Hok Hh) as Hi. rewrite Hl in Hi. unfold IsList in Hi. cbn in Hi.
  injection Hi as Hi. change (byte_at [b] 0) with b in Hi. unfold kShortListOffset in Hi. lia.
Qed.

(** decoding a Disconnect never fails. A reason that was encoded comes back; an empty
    payload and an empty list stand for reason 0, and a bare octet below 0xc0 for itself. *)
Theorem disconnect_decode :
  (forall v, bytes_ok v -> exists r, decode_disconnect v = Ok (mkDisconnect r) /\ fits 1 r)
  /\ (forall r, fits 1 r -> exists wire,
        encode_disconnect (mkDisconnect r) = Ok wire /\ decode_disconnect wire = Ok (mkDisconnect r))
  /\ decode_disconnect [] = Ok (mkDisconnect DisconnectReason.kRequested)
  /\ decode_disconnect [0xC0] = Ok (mkDisconnect DisconnectReason.kRequested)
  /\ (forall b, 0 <= b < 0xC0 -> decode_disconnect [b] = Ok (mkDisconnect b)).
Proof.
  split; [exact disconnect_total |]. split; [exact disconnect_roundtrip |].
  split; [done | split; [done | exact disconnect_bare]].
Qed.
