(* ===== verification/RlpxFraming.v ===== *)
(** * RlpxFraming: encrypted frames and the message stream

    [rlpx/framing/frame_cipher.hpp/.cpp], [rlpx/framing/message_stream.hpp/.cpp],
    [rlpx/socket/socket_transport.hpp/.cpp] and [FrameSecrets] of [rlpx/auth/auth_keys.hpp].
    The primitives of OpenSSL, crypto3 and Snappy are parameters. AES-256-CTR is a function of
    the key, the number of octets already processed and the octets. A socket is the octets that
    arrive on it, the octets written to it and the error its next operation meets.

    Theorems: what one side sends the other receives, in order ([messages_delivered]); a frame
    with another MAC is refused ([forged_mac_refused]); the bounds on frame sizes
    ([frame_size_bounds]), which let a frame of 16 MiB through that no receiver accepts; message
    ids are truncated to an octet ([received_id_truncated]). *)
From S2P Require Export RlpxMessages.
Open Scope Z_scope.

(** ** Data *)

Abbreviation FramingResult := (outcome FramingError).

Record FrameSecrets := mkSecrets {
  aes_secret : bytes;
  mac_secret : bytes;
  egress_mac_seed : bytes;
  ingress_mac_seed : bytes
}.

Record FrameEncryptParams := mkEncryptParams { frame_data : bytes; is_first_frame : bool }.

Record FrameDecryptParams := mkDecryptParams {
  header_ciphertext : bytes;
  header_mac : bytes;
  frame_ciphertext : bytes;
  frame_mac : bytes
}.

(** [struct HashMAC]: everything written to the hash so far. *)
Record HashMAC := mkMAC { mac_key : bytes; written : bytes }.

(** [struct AesCtrState]: the key, and the octets the context has processed. *)
Record AesCtrState := mkCtr { ctr_key : bytes; ctr_pos : nat }.

(** [class FrameCipher] with its [FrameCipherImpl]. *)
Record FrameCipher := mkCipher {
  secrets_ : FrameSecrets;
  enc : AesCtrState;
  dec : AesCtrState;
  egress_mac : HashMAC;
  ingress_mac : HashMAC
}.

(** The errors of a socket that [read_exact] and [write_all] tell apart. *)
Inductive SocketError := eof | connection_reset | operation_aborted | broken_pipe | other_error.

Record SocketTransport := mkTransport {
  incoming : bytes;
  outgoing : bytes;
  fault : option SocketError;
  is_open : bool
}.

(** [class MessageStream]; its two buffers are only reserved. *)
Record MessageStream := mkStream {
  cipher_ : FrameCipher;
  transport_ : SocketTransport;
  compression_enabled_ : bool
}.

(** [struct MessageSendParams]; [compress] is never read. *)
Record MessageSendParams := mkSendParams { message_id : Z; send_payload : bytes; compress : bool }.

(** ** The socket *)

Definition read_error (ec : SocketError) : SessionError :=
  match ec with
  | eof | connection_reset | operation_aborted => SessionError.kConnectionFailed
  | _ => SessionError.kInvalidMessage
  end.

Definition write_error (ec : SocketError) : SessionError :=
  match ec with
  | eof | connection_reset | broken_pipe => SessionError.kConnectionFailed
  | _ => SessionError.kInvalidMessage
  end.

Abbreviation TransportM A := (M SocketTransport SessionError A).

(** [async_read] fills the buffer or meets the end of the stream. *)
Definition read_exact (num_bytes : Z) : TransportM bytes := fun t =>
  match fault t with
  | Some ec => (Err (read_error ec), t)
  | None =>
      if len (incoming t) <? num_bytes
      then (Err (read_error eof), mkTransport [] (outgoing t) None (is_open t))
      else (Ok (take (Z.to_nat num_bytes) (incoming t)),
            mkTransport (drop (Z.to_nat num_bytes) (incoming t)) (outgoing t) None (is_open t))
  end.

Definition write_all (data : bytes) : TransportM unit := fun t =>
  match fault t with
  | Some ec => (Err (write_error ec), t)
  | None => (Ok tt, mkTransport (incoming t) (outgoing t ++ data) None (is_open t))
  end.

(** [close]; [failed] says whether closing the socket reports an error. Afterwards the
    descriptor is bad. *)
Definition close (failed : bool) : TransportM unit := fun t =>
  if is_open t
  then (if failed then Err SessionError.kConnectionFailed else Ok tt,
        mkTransport (incoming t) (outgoing t) (Some other_error) false)
  else (Ok tt, t).

Section crypto.
Context (keccak256 : bytes -> bytes) (aes_ecb_encrypt_block : bytes -> bytes -> bytes)
  (aes_ctr : bytes -> nat -> bytes -> bytes).

(** ** HashMAC *)

Definition mac_write (data : bytes) (m : HashMAC) : HashMAC := mkMAC (mac_key m) (written m ++ data).

Definition sum (m : HashMAC) : bytes := keccak256 (written m).

(** [compute]: AES of the digest, xor the seed, back into the hash. *)
Definition compute (sum1 seed16 : bytes) (m : HashMAC) : bytes * HashMAC :=
  let aes_buf := zip_with Z.lxor (aes_ecb_encrypt_block (mac_key m) (take 16 sum1)) (take 16 seed16) in
  let m := mac_write aes_buf m in
  (take 16 (sum m), m).

Definition compute_header (header_ct16 : bytes) (m : HashMAC) : bytes * HashMAC :=
  compute (sum m) header_ct16 m.

Definition compute_frame (framedata : bytes) (m : HashMAC) : bytes * HashMAC :=
  let m := mac_write framedata m in
  let seed := sum m in
  compute seed seed m.

(** [AesCtrState::process]. *)
Definition process (data : bytes) (c : AesCtrState) : bytes * AesCtrState :=
  (aes_ctr (ctr_key c) (ctr_pos c) data, mkCtr (ctr_key c) (ctr_pos c + length data)).

(** ** FrameCipher *)

Definition new_cipher (secrets : FrameSecrets) : FrameCipher :=
  {| secrets_ := secrets;
     enc := mkCtr (aes_secret secrets) 0;
     dec := mkCtr (aes_secret secrets) 0;
     egress_mac := mkMAC (mac_secret secrets) (egress_mac_seed secrets);
     ingress_mac := mkMAC (mac_secret secrets) (ingress_mac_seed secrets) |}.

Abbreviation CipherM A := (M FrameCipher FramingError A).

(** [impl_->enc.process], [impl_->dec.process] and the two MACs, as steps of the cipher. *)
Definition enc_process (data : bytes) : CipherM bytes := fun c =>
  let '(out, s) := process data (enc c) in
  (Ok out, mkCipher (secrets_ c) s (dec c) (egress_mac c) (ingress_mac c)).

Definition dec_process (data : bytes) : CipherM bytes := fun c =>
  let '(out, s) := process data (dec c) in
  (Ok out, mkCipher (secrets_ c) (enc c) s (egress_mac c) (ingress_mac c)).

Definition egress (f : HashMAC -> bytes * HashMAC) : CipherM bytes := fun c =>
  let '(mac, m) := f (egress_mac c) in
  (Ok mac, mkCipher (secrets_ c) (enc c) (dec c) m (ingress_mac c)).

Definition ingress (f : HashMAC -> bytes * HashMAC) : CipherM bytes := fun c =>
  let '(mac, m) := f (ingress_mac c) in
  (Ok mac, mkCipher (secrets_ c) (enc c) (dec c) (egress_mac c) m).

Definition padding (fsize : Z) : Z :=
  if negb (fsize mod kFramePaddingAlignment =? 0)
  then kFramePaddingAlignment - fsize mod kFramePaddingAlignment
  else 0.

(** The header: three octets of length, the fixed list, zeros up to 16. *)
Definition frame_header (fsize : Z) : bytes :=
  [u8 (Z.land (Z.shiftr fsize 16) 0xFF); u8 (Z.land (Z.shiftr fsize 8) 0xFF);
   u8 (Z.land (Z.shiftr fsize 0) 0xFF)]
  ++ kFrameHeaderStaticRlpBytes ++ repeat 0 10.

Definition encrypt_frame (params : FrameEncryptParams) : CipherM bytes :=
  let fsize := len (frame_data params) in
  fail_if (empty (frame_data params) || (kMaxFrameSize <? fsize)) FramingError.kInvalidFrameSize ;;
  header_ct ← enc_process (frame_header fsize);
  header_mac ← egress (compute_header header_ct);
  frame_ct ← enc_process (frame_data params ++ repeat 0 (Z.to_nat (padding fsize)));
  frame_mac ← egress (compute_frame frame_ct);
  mret (header_ct ++ header_mac ++ frame_ct ++ frame_mac).

(** The length in a decrypted header. *)
Definition header_fsize (header_pt : bytes) : Z :=
  Z.lor (Z.lor (Z.shiftl (byte_at header_pt 0) 16) (Z.shiftl (byte_at header_pt 1) 8))
        (Z.shiftl (byte_at header_pt 2) 0).

Definition decrypt_header (header_ct header_mac_wire : bytes) : CipherM Z :=
  expected_mac ← ingress (compute_header header_ct);
  fail_if (negb (bool_decide (header_mac_wire = expected_mac))) FramingError.kMacMismatch ;;
  header_pt ← dec_process header_ct;
  let fsize := header_fsize header_pt in
  fail_if ((fsize =? 0) || (kMaxFrameSize <? fsize)) FramingError.kInvalidFrameSize ;;
  mret fsize.

(** The end of [decrypt_frame], and [decrypt_frame_body] after its size checks. *)
Definition open_body (fsize : Z) (frame_ct frame_mac : bytes) : CipherM bytes :=
  frame_mac_expected ← ingress (compute_frame frame_ct);
  fail_if (negb (bool_decide (take (Z.to_nat kMacSize) frame_mac = frame_mac_expected)))
    FramingError.kMacMismatch ;;
  frame_pt ← dec_process frame_ct;
  mret (take (Z.to_nat fsize) frame_pt).

Definition decrypt_frame (params : FrameDecryptParams) : CipherM bytes :=
  fail_if ((len (header_ciphertext params) <? kFrameHeaderSize)
           || (len (header_mac params) <? kMacSize) || (len (frame_mac params) <? kMacSize))
    FramingError.kInvalidFrameSize ;;
  fsize ← decrypt_header (take (Z.to_nat kFrameHeaderSize) (header_ciphertext params))
                         (take (Z.to_nat kMacSize) (header_mac params));
  fail_if (len (frame_ciphertext params) <? fsize) FramingError.kInvalidFrameSize ;;
  open_body fsize (frame_ciphertext params) (frame_mac params).

Definition decrypt_frame_body (fsize : Z) (frame_ct_padded frame_mac : bytes) : CipherM bytes :=
  fail_if ((len frame_ct_padded <? fsize) || (len frame_mac <? kMacSize))
    FramingError.kInvalidFrameSize ;;
  open_body fsize frame_ct_padded frame_mac.

(** ** MessageStream *)

(** [snappy::Compress], [snappy::GetUncompressedLength] and [snappy::RawUncompress]. *)
Context (snappy_compress : bytes -> bytes) (snappy_length : bytes -> option Z)
  (snappy_uncompress : bytes -> option bytes).

Abbreviation StreamM A := (M MessageStream SessionError A).

Definition new_stream (c : FrameCipher) (t : SocketTransport) : MessageStream :=
  {| cipher_ := c; transport_ := t; compression_enabled_ := false |}.

Definition enable_compression (s : MessageStream) : MessageStream :=
  mkStream (cipher_ s) (transport_ s) true.

Definition stream_close (failed : bool) (s : MessageStream) : MessageStream :=
  mkStream (cipher_ s) (snd (close failed (transport_ s))) (compression_enabled_ s).

(** A call of the cipher, and of the transport. *)
Definition on_cipher {E A} (m : M FrameCipher E A) : M MessageStream E A := fun s =>
  let '(r, c) := m (cipher_ s) in (r, mkStream c (transport_ s) (compression_enabled_ s)).

Definition on_transport {E A} (m : M SocketTransport E A) : M MessageStream E A := fun s =>
  let '(r, t) := m (transport_ s) in (r, mkStream (cipher_ s) t (compression_enabled_ s)).

(** [RLP(msg_id) || payload], the payload compressed when compression is on. *)
Definition message_data (message_id : Z) (payload : bytes) (compression : bool) : SessionResult bytes :=
  obind (map_err SessionError.kInvalidMessage (run_encoder (add_integral 1 message_id ;; GetBytes)))
    (fun id_bytes =>
       Ok (id_bytes ++ (if empty payload then []
                        else if compression then snappy_compress payload else payload))).

Definition send_message (params : MessageSendParams) : StreamM unit :=
  s ← get_state;
  message_data ← lift (message_data (message_id params) (send_payload params) (compression_enabled_ s));
  fail_if (kMaxFrameSize <? len message_data) SessionError.kInvalidMessage ;;
  encrypted ← with_error SessionError.kEncryptionError
                (on_cipher (encrypt_frame (mkEncryptParams message_data true)));
  on_transport (write_all encrypted).

Definition send_frame (data : bytes) : M MessageStream FramingError unit :=
  encrypted ← on_cipher (encrypt_frame (mkEncryptParams data true));
  with_error FramingError.kEncryptionFailed (on_transport (write_all encrypted)).

(** [receive_frame] until a failure. *)
Definition receive_frame_steps : M MessageStream FramingError bytes :=
  header_data ← with_error FramingError.kInvalidHeader (on_transport (read_exact kFrameHeaderWithMacSize));
  frame_size ← on_cipher (decrypt_header (take (Z.to_nat kFrameHeaderSize) header_data)
                                         (drop (Z.to_nat kFrameHeaderSize) header_data));
  let padded_size := frame_size + padding frame_size in
  frame_data ← with_error FramingError.kInvalidHeader (on_transport (read_exact (padded_size + kMacSize)));
  on_cipher (decrypt_frame_body frame_size (take (Z.to_nat padded_size) frame_data)
                                (drop (Z.to_nat padded_size) frame_data)).

(** Every failure is answered with an empty buffer. *)
Definition receive_frame : M MessageStream FramingError bytes := fun s =>
  match receive_frame_steps s with
  | (Err _, s') => (Ok [], s')
  | r => r
  end.

(** The end of [receive_message], on a frame that is not empty. *)
Definition decode_frame (compression : bool) (frame_data : bytes) : SessionResult Message :=
  match read_integral 8 frame_data with
  | (Ok msg_id, remaining_view) =>
      if compression && negb (empty remaining_view) then
        match snappy_length remaining_view with
        | None => Err SessionError.kInvalidMessage
        | Some _ =>
            match snappy_uncompress remaining_view with
            | None => Err SessionError.kInvalidMessage
            | Some payload => Ok (mkMessage (u8 msg_id) payload)
            end
        end
      else Ok (mkMessage (u8 msg_id) remaining_view)
  | (Err _, _) => Err SessionError.kInvalidMessage
  | (Diverged, _) => Diverged
  end.

Definition receive_message : StreamM Message :=
  frame_data ← with_error SessionError.kInvalidMessage receive_frame;
  fail_if (empty frame_data) SessionError.kInvalidMessage ;;
  s ← get_state;
  lift (decode_frame (compression_enabled_ s) frame_data).

(** ** Frames *)

(** What the code relies on: CTR mode keeps lengths and octets and is its own inverse, and a
    Keccak-256 digest has 32 octets. *)
Class CipherLaws : Prop := {
  ctr_length k n d : length (aes_ctr k n d) = length d;
  ctr_octets k n d : bytes_ok d -> bytes_ok (aes_ctr k n d);
  ctr_inverse k n d : bytes_ok d -> aes_ctr k n (aes_ctr k n d) = d;
  keccak_length d : length (keccak256 d) = 32%nat
}.

(** The sending half of [s] and the receiving half of [r] are in step. *)
Definition synced (s r : FrameCipher) : Prop := enc s = dec r /\ egress_mac s = ingress_mac r.

Lemma padding_bounds n : 0 <= padding n < 16 /\ (n + padding n) mod 16 = 0.
Proof.
  unfold padding, kFramePaddingAlignment, kAesBlockSize.
  pose proof (Z.mod_pos_bound n 16 ltac:(lia)). destruct (Z.eqb_spec (n mod 16) 0) as [E|]; cbn [negb].
  - rewrite Z.add_0_r. lia.
  - split; [lia |]. replace (n + (16 - n mod 16)) with ((n / 16 + 1) * 16); [apply Z.mod_mul; lia |].
    pose proof (Z.div_mod n 16 ltac:(lia)). lia.
Qed.

Lemma header_octet n k : 0 <= k -> u8 (Z.land (Z.shiftr n k) 0xFF) = n / 2 ^ k mod 256.
Proof.
  intros Hk. unfold u8. change 0xFF with (Z.ones 8). rewrite Z.land_ones, Z.shiftr_div_pow2 by lia.
  change (2 ^ 8) with 256. apply Z.mod_mod. lia.
Qed.

(** The three octets of length, read back. *)
Lemma header_fsize_spec a b c rest : uint8 a -> uint8 b -> uint8 c ->
  header_fsize (a :: b :: c :: rest) = a * 65536 + b * 256 + c.
Proof.
  unfold uint8, header_fsize. intros Ha Hb Hc.
  change (byte_at (a :: b :: c :: rest) 0) with a. change (byte_at (a :: b :: c :: rest) 1) with b.
  change (byte_at (a :: b :: c :: rest) 2) with c. rewrite !Z.shiftl_mul_pow2 by lia.
  rewrite (lor_horner a b 16 8) by lia. rewrite Z.mul_1_r by lia.
  rewrite (lor_add _ c 8) by (try apply Z.mod_mul; lia). lia.
Qed.

Lemma header_fsize_frame n : 0 <= n -> header_fsize (frame_header n) = n mod 2 ^ 24.
Proof.
  intros Hn. unfold frame_header. rewrite !header_octet by lia. cbn [app].
  rewrite header_fsize_spec by (unfold uint8; apply Z.mod_pos_bound; lia).
  replace (n / 2 ^ 16) with (n / 256 / 256) by (by rewrite Z.div_div by lia).
  change (2 ^ 0) with 1. change (2 ^ 8) with 256. change (2 ^ 24) with 16777216.
  Z.div_mod_to_equations. lia.
Qed.

Lemma frame_header_ok n : bytes_ok (frame_header n) /\ length (frame_header n) = 16%nat.
Proof.
  split; [| done]. unfold frame_header. rewrite !header_octet by lia.
  repeat (apply bytes_ok_cons; split; [unfold uint8; apply Z.mod_pos_bound; lia |]). octets.
Qed.

Context {laws : CipherLaws}.

Lemma compute_length sum1 seed m : length (fst (compute sum1 seed m)) = 16%nat.
Proof using laws. unfold compute. cbn. rewrite length_take. unfold sum. rewrite keccak_length. lia. Qed.

Lemma bytes_ok_zeros n : bytes_ok (repeat 0 n).
Proof. induction n; constructor; [unfold uint8; lia | done]. Qed.

(** The octets of an encrypted frame. *)
Record sealed := mkSealed { s_header : bytes; s_header_mac : bytes; s_body : bytes; s_body_mac : bytes }.

Definition seal (d : bytes) (c : FrameCipher) : sealed * FrameCipher :=
  let header_ct := aes_ctr (ctr_key (enc c)) (ctr_pos (enc c)) (frame_header (len d)) in
  let '(hm, m1) := compute_header header_ct (egress_mac c) in
  let padded := d ++ repeat 0 (Z.to_nat (padding (len d))) in
  let frame_ct := aes_ctr (ctr_key (enc c)) (ctr_pos (enc c) + 16) padded in
  let '(fm, m2) := compute_frame frame_ct m1 in
  (mkSealed header_ct hm frame_ct fm,
   mkCipher (secrets_ c) (mkCtr (ctr_key (enc c)) (ctr_pos (enc c) + 16 + length padded)) (dec c) m2
     (ingress_mac c)).

Definition wire (f : sealed) : bytes := s_header f ++ s_header_mac f ++ s_body f ++ s_body_mac f.

Lemma encrypt_frame_seal d first c : 1 <= len d <= kMaxFrameSize ->
  encrypt_frame (mkEncryptParams d first) c = (Ok (wire (fst (seal d c))), snd (seal d c)).
Proof using laws.
  intros Hl. unfold encrypt_frame. cbn [frame_data].
  assert (empty d = false) as -> by (destruct d; [rewrite len_nil in Hl; lia | done]).
  assert ((kMaxFrameSize <? len d) = false) as -> by (apply Z.ltb_ge; lia). cbn [orb].
  unfold_m. unfold enc_process, egress, process, seal, wire. cbn [enc ctr_key ctr_pos].
  rewrite (proj2 (frame_header_ok (len d))).
  cbn [egress_mac secrets_ enc dec ingress_mac ctr_key ctr_pos].
  destruct (compute_header _ (egress_mac c)) as [hm m1].
  cbn [egress_mac secrets_ enc dec ingress_mac ctr_key ctr_pos].
  by destruct (compute_frame _ m1) as [fm m2].
Qed.

Lemma seal_lengths d c : let f := fst (seal d c) in
  length (s_header f) = 16%nat /\ length (s_header_mac f) = 16%nat
  /\ len (s_body f) = len d + padding (len d) /\ length (s_body_mac f) = 16%nat.
Proof using laws.
  unfold seal. destruct (compute_header _ (egress_mac c)) as [hm m1] eqn:E1.
  destruct (compute_frame _ m1) as [fm m2] eqn:E2.
  cbn [fst s_header s_header_mac s_body s_body_mac].
  apply (f_equal fst) in E1, E2. change (fst (hm, m1)) with hm in E1.
  change (fst (fm, m2)) with fm in E2. subst hm fm.
  pose proof (padding_bounds (len d)). unfold len in *. rewrite !ctr_length, length_app, repeat_length.
  repeat split; [apply compute_length | lia | unfold compute_frame; cbv zeta; apply compute_length].
Qed.

(** Opening the header of a frame that was sealed by a synchronised cipher. *)
Lemma decrypt_header_seal d c r : synced c r -> 0 <= len d ->
  let f := fst (seal d c) in
  exists r1, decrypt_header (s_header f) (s_header_mac f) r
    = (if len d mod 2 ^ 24 =? 0 then Err FramingError.kInvalidFrameSize else Ok (len d mod 2 ^ 24), r1)
  /\ dec r1 = mkCtr (ctr_key (enc c)) (ctr_pos (enc c) + 16) /\ secrets_ r1 = secrets_ r
  /\ enc r1 = enc r /\ egress_mac r1 = egress_mac r
  /\ ingress_mac r1 = snd (compute_header (s_header f) (egress_mac c)).
Proof using laws.
  intros [Hs1 Hs2] Hl. unfold seal.
  destruct (compute_header _ (egress_mac c)) as [hm m1] eqn:E1.
  destruct (compute_frame _ m1) as [fm m2]. cbn [fst s_header s_header_mac].
  unfold decrypt_header, ingress, dec_process, process. unfold_m. rewrite <- Hs2, E1.
  rewrite bool_decide_true by done. cbn [negb dec secrets_ enc egress_mac ingress_mac snd]. rewrite <- Hs1.
  destruct (frame_header_ok (len d)) as [Hok Hlen].
  rewrite ctr_inverse, ctr_length, Hlen, header_fsize_frame by done.
  pose proof (Z.mod_pos_bound (len d) (2 ^ 24) ltac:(lia)).
  assert ((kMaxFrameSize <? len d mod 2 ^ 24) = false) as -> by (apply Z.ltb_ge; unfold kMaxFrameSize, kMaxFrameSizeMiB; lia).
  rewrite orb_false_r. destruct (len d mod 2 ^ 24 =? 0); (eexists; split; [reflexivity |]);
    cbn [dec secrets_ enc egress_mac ingress_mac]; done.
Qed.

Lemma decrypt_body_seal d c r1 : bytes_ok d ->
  let f := fst (seal d c) in
  dec r1 = mkCtr (ctr_key (enc c)) (ctr_pos (enc c) + 16) ->
  ingress_mac r1 = snd (compute_header (s_header f) (egress_mac c)) ->
  exists r', decrypt_frame_body (len d) (s_body f) (s_body_mac f) r1 = (Ok d, r')
  /\ synced (snd (seal d c)) r' /\ enc r' = enc r1 /\ egress_mac r' = egress_mac r1.
Proof using laws.
  intros Hok. pose proof (seal_lengths d c) as (_ & _ & Hlb & Hlm). cbn zeta in *.
  pose proof (padding_bounds (len d)) as [Hp _]. intros Hd Hi.
  unfold decrypt_frame_body, open_body, ingress, dec_process, process. unfold_m.
  assert (len (s_body_mac (fst (seal d c))) = 16) by (unfold len; lia).
  assert ((len (s_body (fst (seal d c))) <? len d) || (len (s_body_mac (fst (seal d c))) <? kMacSize) = false)
    as -> by (unfold kMacSize; lia).
  revert Hlb Hlm Hi. unfold seal. destruct (compute_header _ (egress_mac c)) as [hm m1] eqn:E1.
  cbn [fst snd s_header]. destruct (compute_frame _ m1) as [fm m2] eqn:E2.
  cbn [fst snd s_header s_body s_body_mac]. intros Hlb Hlm Hi. rewrite Hi, E2.
  change (Z.to_nat kMacSize) with 16%nat. rewrite take_ge by lia. rewrite bool_decide_true by done.
  cbn [negb dec secrets_ enc egress_mac ingress_mac snd]. rewrite Hd. cbn [ctr_key ctr_pos].
  rewrite ctr_length, ctr_inverse
    by (apply bytes_ok_app; split; [done | apply bytes_ok_zeros]).
  rewrite take_len_app. eexists. split; [reflexivity |]. done.
Qed.

(** C39: the bounds on frames. A frame is encrypted when it has 1 to 2^24 octets, and otherwise
    refused with the cipher untouched. A header is accepted only with a size of 1 to 2^24 - 1,
    what its three octets hold; so a frame of exactly [kMaxFrameSize] octets, which is
    encrypted, is refused by the receiver. *)
Theorem frame_size_bounds :
  (forall d first c, encrypt_frame (mkEncryptParams d first) c
     = if (1 <=? len d) && (len d <=? kMaxFrameSize)
       then (Ok (wire (fst (seal d c))), snd (seal d c))
       else (Err FramingError.kInvalidFrameSize, c))
  /\ (forall hct hm r n r', bytes_ok hct -> decrypt_header hct hm r = (Ok n, r') -> 1 <= n < 2 ^ 24)
  /\ (forall d c r, synced c r -> len d = kMaxFrameSize ->
       is_ok (fst (encrypt_frame (mkEncryptParams d true) c)) = true
       /\ fst (decrypt_header (s_header (fst (seal d c))) (s_header_mac (fst (seal d c))) r)
          = Err FramingError.kInvalidFrameSize).
Proof using laws.
  split; [| split].
  - intros d first c. destruct (Z.leb_spec 1 (len d)) as [H1|H1]; cbn [andb].
    + destruct (Z.leb_spec (len d) kMaxFrameSize); [by apply encrypt_frame_seal |].
      unfold encrypt_frame. cbn [frame_data]. unfold_m.
      destruct (empty d); [done |]. by rewrite (proj2 (Z.ltb_lt _ _)).
    + destruct d; [done | len_lia].
  - intros hct hm r n r' Hok H. unfold decrypt_header in H.
    apply bind_inv in H as (mac & r1 & Hm & H). inv_guard H.
    apply bind_inv in H as (pt & r2 & Hp & H). inv_guard H. injection H as <- <-.
    unfold ingress in Hm. destruct (compute_header hct (ingress_mac r)). injection Hm as _ <-.
    unfold dec_process, process in Hp. injection Hp as <- _. cbn [dec] in *.
    apply (ctr_octets (ctr_key (dec r)) (ctr_pos (dec r))) in Hok.
    set (pt := aes_ctr _ _ _) in *. apply orb_false_iff in E0 as [E0 _]. apply Z.eqb_neq in E0.
    assert (header_fsize pt = header_fsize [byte_at pt 0; byte_at pt 1; byte_at pt 2]) as E1 by done.
    rewrite E1 in *. rewrite header_fsize_spec in * by by apply byte_at_ok.
    pose proof (byte_at_ok pt 0 Hok). pose proof (byte_at_ok pt 1 Hok). pose proof (byte_at_ok pt 2 Hok).
    unfold uint8 in *. lia.
  - intros d c r Hs Hl. split.
    + rewrite encrypt_frame_seal; [done |]. rewrite Hl. by split.
    + destruct (decrypt_header_seal d c r Hs (len_nonneg d)) as (r1 & H & _). rewrite H, Hl. done.
Qed.

(** a frame of a synchronised sender is accepted only with the MACs the sender computed.
    Another header MAC, or another MAC of the body, is answered with [kMacMismatch], and
    nothing is decrypted: the decrypting context has not moved. *)
Theorem forged_mac_refused d c r hm fm :
  synced c r -> 1 <= len d < kMaxFrameSize -> length fm = 16%nat ->
  let f := fst (seal d c) in
  (hm <> s_header_mac f -> exists r1,
     decrypt_header (s_header f) hm r = (Err FramingError.kMacMismatch, r1) /\ dec r1 = dec r)
  /\ (fm <> s_body_mac f -> exists r1 r2,
     decrypt_header (s_header f) (s_header_mac f) r = (Ok (len d), r1)
     /\ decrypt_frame_body (len d) (s_body f) fm r1 = (Err FramingError.kMacMismatch, r2)
     /\ dec r2 = dec r1).
Proof using laws.
  intros Hs Hl Hfm. cbn zeta. split; intros Hne.
  - destruct Hs as [_ Hs]. revert Hne. unfold seal.
    destruct (compute_header _ (egress_mac c)) as [hm' m1] eqn:E1. destruct (compute_frame _ m1).
    cbn [fst s_header s_header_mac]. intros Hne.
    unfold decrypt_header, ingress. unfold_m. rewrite <- Hs, E1. rewrite bool_decide_false by done.
    cbn [negb]. eexists. by split.
  - destruct (decrypt_header_seal d c r Hs ltac:(lia)) as (r1 & H & Hd & _ & _ & _ & Hi).
    rewrite Z.mod_small in H by (unfold kMaxFrameSize, kMaxFrameSizeMiB in *; lia).
    destruct (Z.eqb_spec (len d) 0); [lia |].
    pose proof (seal_lengths d c) as (_ & _ & Hlb & _). pose proof (padding_bounds (len d)) as [Hp _].
    exists r1. revert Hne Hi Hlb. unfold decrypt_frame_body, open_body, ingress. unfold_m.
    assert (len fm = 16) as Hlfm by (unfold len; lia). cbn zeta. intros Hne Hi Hlb.
    assert ((len (s_body (fst (seal d c))) <? len d) || (len fm <? kMacSize) = false) as ->
      by (unfold kMacSize; lia).
    revert Hne Hi H. unfold seal. destruct (compute_header _ (egress_mac c)) as [hm' m1] eqn:E1.
    cbn [fst snd s_header]. destruct (compute_frame _ m1) as [fm' m2] eqn:E2.
    cbn [fst snd s_header s_header_mac s_body s_body_mac]. intros Hne Hi H. rewrite Hi.
    cbn [snd]. rewrite E2. change (Z.to_nat kMacSize) with 16%nat. rewrite take_ge by lia.
    rewrite bool_decide_false by done. cbn [negb]. eexists. by split_and!.
Qed.

(** ** Messages *)

(** What the code relies on of Snappy. *)
Class SnappyLaws : Prop := {
  snappy_octets p : bytes_ok p -> bytes_ok (snappy_compress p);
  snappy_length_compress p : snappy_length (snappy_compress p) = Some (len p);
  snappy_roundtrip p : snappy_uncompress (snappy_compress p) = Some p;
  snappy_empty : snappy_length [] = None
}.
Context {snappy : SnappyLaws}.

(** The plaintext of a frame. *)
Definition frame_text (compression : bool) (m : Message) : bytes :=
  rlp (uint_item (msg_id m))
  ++ (if empty (msg_payload m) then []
      else if compression then snappy_compress (msg_payload m) else msg_payload m).

Definition sendable (compression : bool) (m : Message) : Prop :=
  uint8 (msg_id m) /\ bytes_ok (msg_payload m) /\ len (frame_text compression m) < kMaxFrameSize.

Lemma frame_text_ok compression m : sendable compression m ->
  bytes_ok (frame_text compression m) /\ 1 <= len (frame_text compression m)
  /\ message_data (msg_id m) (msg_payload m) compression = Ok (frame_text compression m).
Proof using snappy.
  intros (Hid & Hp & Hl). pose proof (rlp_nonempty (uint_item (msg_id m))) as Hne.
  assert (fits 1 (msg_id m)) as Hf by (unfold fits, uint8 in *; lia).
  assert (len (rlp (uint_item (msg_id m))) < 2 ^ 64) as Hl64.
  { unfold frame_text, kMaxFrameSize, kMaxFrameSizeMiB in *. len_lia. }
  split; [| split].
  - unfold frame_text. apply bytes_ok_app. split; [apply rlp_ok; [auto with octets | done] |].
    destruct (empty (msg_payload m)); [constructor |]. destruct compression; [by apply snappy_octets | done].
  - unfold frame_text. len_lia.
  - unfold message_data. rewrite (run_encoder_appends _ (rlp (uint_item (msg_id m)))); [done | | done].
    apply appends_add_integral; [by left | done].
Qed.

Lemma decode_frame_text compression m : sendable compression m ->
  decode_frame compression (frame_text compression m) = Ok m.
Proof using snappy.
  intros Hm. destruct (frame_text_ok compression m Hm) as (Hok & _ & _).
  destruct Hm as (Hid & Hp & Hl). unfold decode_frame, frame_text in *.
  assert (fits 8 (msg_id m)) as Hf by (unfold fits, uint8 in *; lia).
  rewrite (reads_read_integral 8) by (unfold kMaxFrameSize, kMaxFrameSizeMiB in *; done || lia || len_lia).
  assert (u8 (msg_id m) = msg_id m) as Hu by (unfold u8, uint8 in *; by apply Z.mod_small).
  destruct m as [id [|b p]]; cbn [msg_id msg_payload empty] in *.
  { rewrite andb_false_r, Hu. done. }
  destruct compression; cbn [andb]; [| by rewrite Hu].
  rewrite snappy_length_compress, snappy_roundtrip, Hu.
  destruct (snappy_compress (b :: p)) eqn:E; [| done].
  pose proof (snappy_length_compress (b :: p)) as Hc. by rewrite E, snappy_empty in Hc.
Qed.

Lemma send_message_ok m flag a :
  sendable (compression_enabled_ a) m -> fault (transport_ a) = None ->
  let '(f, c) := seal (frame_text (compression_enabled_ a) m) (cipher_ a) in
  send_message (mkSendParams (msg_id m) (msg_payload m) flag) a
  = (Ok tt, mkStream c (mkTransport (incoming (transport_ a)) (outgoing (transport_ a) ++ wire f) None
                          (is_open (transport_ a))) (compression_enabled_ a)).
Proof using laws snappy.
  intros Hm Hf. destruct (frame_text_ok _ m Hm) as (Hok & Hne & Hd). destruct Hm as (_ & _ & Hl).
  set (d := frame_text (compression_enabled_ a) m) in *.
  pose proof (encrypt_frame_seal d true (cipher_ a) ltac:(lia)) as He.
  destruct (seal d (cipher_ a)) as [f c]. unfold send_message. cbn [message_id send_payload]. unfold_m.
  rewrite Hd. assert ((kMaxFrameSize <? len d) = false) as -> by (apply Z.ltb_ge; lia).
  unfold with_error, on_cipher. rewrite He. cbn [map_err fst snd]. unfold on_transport, write_all.
  cbn [transport_ cipher_ compression_enabled_]. by rewrite Hf.
Qed.

(** The two reads of a frame. *)
Lemma read_exact_app n u v t : fault t = None -> incoming t = u ++ v -> len u = n ->
  read_exact n t = (Ok u, mkTransport v (outgoing t) None (is_open t)).
Proof.
  intros Hf Hi <-. unfold read_exact. rewrite Hf, Hi, len_app. pose proof (len_nonneg v).
  assert ((len u + len v <? len u) = false) as -> by (apply Z.ltb_ge; lia).
  by rewrite take_len_app, drop_len_app.
Qed.

Lemma receive_frame_ok d rest a b :
  synced a (cipher_ b) -> bytes_ok d -> 1 <= len d < kMaxFrameSize ->
  fault (transport_ b) = None -> incoming (transport_ b) = wire (fst (seal d a)) ++ rest ->
  exists r, receive_frame b = (Ok d, mkStream r (mkTransport rest (outgoing (transport_ b)) None
                                       (is_open (transport_ b))) (compression_enabled_ b))
  /\ synced (snd (seal d a)) r.
Proof using laws.
  intros Hs Hok Hl Hf Hi. pose proof (seal_lengths d a) as (H1 & H2 & H3 & H4). cbn zeta in *.
  pose proof (padding_bounds (len d)) as [Hp _].
  destruct (decrypt_header_seal d a _ Hs ltac:(lia)) as (r1 & Hdh & Hd & _ & _ & _ & Hin).
  rewrite Z.mod_small in Hdh by (unfold kMaxFrameSize, kMaxFrameSizeMiB in *; lia).
  destruct (Z.eqb_spec (len d) 0); [lia |].
  destruct (decrypt_body_seal d a r1 Hok Hd Hin) as (r2 & Hdb & Hs2 & _).
  set (f := fst (seal d a)) in *. unfold wire in Hi. rewrite <- !app_assoc in Hi.
  unfold receive_frame, receive_frame_steps. unfold_m. unfold with_error at 1, on_transport at 1.
  rewrite (read_exact_app _ (s_header f ++ s_header_mac f) (s_body f ++ s_body_mac f ++ rest))
    by (rewrite ?app_assoc in *; unfold len, kFrameHeaderWithMacSize, kFrameHeaderSize, kMacSize;
        rewrite ?length_app; done || lia).
  cbn [map_err transport_ cipher_ compression_enabled_]. unfold on_cipher at 1. cbn [cipher_ transport_ compression_enabled_].
  change (Z.to_nat kFrameHeaderSize) with 16%nat. rewrite take_app_length', drop_app_length' by done.
  rewrite Hdh. cbn [transport_ cipher_ compression_enabled_]. unfold with_error, on_transport.
  cbn [cipher_ transport_ compression_enabled_].
  rewrite (read_exact_app _ (s_body f ++ s_body_mac f) rest)
    by (cbn [incoming]; rewrite ?app_assoc, ?len_app; unfold len, kMacSize in *; done || lia).
  cbn [map_err]. unfold on_cipher. cbn [cipher_ transport_ compression_enabled_ outgoing is_open].
  rewrite <- H3, take_len_app, drop_len_app, Hdb. eauto.
Qed.

Lemma receive_message_ok m rest a b :
  synced a (cipher_ b) -> sendable (compression_enabled_ b) m ->
  fault (transport_ b) = None ->
  incoming (transport_ b) = wire (fst (seal (frame_text (compression_enabled_ b) m) a)) ++ rest ->
  exists r, receive_message b = (Ok m, mkStream r (mkTransport rest (outgoing (transport_ b)) None
                                         (is_open (transport_ b))) (compression_enabled_ b))
  /\ synced (snd (seal (frame_text (compression_enabled_ b) m) a)) r.
Proof using laws snappy.
  intros Hs Hm Hf Hi. destruct (frame_text_ok _ m Hm) as (Hok & Hne & _). pose proof Hm as (_ & _ & Hl).
  destruct (receive_frame_ok _ rest a b Hs Hok ltac:(lia) Hf Hi) as (r & Hr & Hs').
  exists r. split; [| done]. unfold receive_message. unfold_m. unfold with_error. rewrite Hr. cbn [map_err].
  destruct (frame_text (compression_enabled_ b) m) as [|x y] eqn:E; [rewrite len_nil in Hne; lia |].
  cbn [empty compression_enabled_]. rewrite <- E, decode_frame_text; done.
Qed.

(** Sending the messages of [params] one after the other, and receiving [n]. *)
Definition send_all (params : list MessageSendParams) : StreamM unit := for_each params send_message.

Fixpoint receive_all (n : nat) : StreamM (list Message) :=
  match n with
  | O => mret []
  | S n => m ← receive_message; ms ← receive_all n; mret (m :: ms)
  end.

Definition sent (p : MessageSendParams) : Message := mkMessage (message_id p) (send_payload p).

(** The octets of the messages, and the cipher after them. *)
Fixpoint seal_all (compression : bool) (c : FrameCipher) (ms : list Message) : bytes * FrameCipher :=
  match ms with
  | [] => ([], c)
  | m :: ms =>
      let f := seal (frame_text compression m) c in
      let w := seal_all compression (snd f) ms in
      (wire (fst f) ++ fst w, snd w)
  end.

Lemma send_all_ok params a :
  Forall (fun p => sendable (compression_enabled_ a) (sent p)) params -> fault (transport_ a) = None ->
  let w := seal_all (compression_enabled_ a) (cipher_ a) (map sent params) in
  send_all params a
  = (Ok tt, mkStream (snd w) (mkTransport (incoming (transport_ a)) (outgoing (transport_ a) ++ fst w) None
                                (is_open (transport_ a))) (compression_enabled_ a)).
Proof using laws snappy.
  revert a. induction params as [|p params IH]; intros a Hps Hf; cbn zeta.
  - cbn. rewrite app_nil_r. by destruct a as [c [i o ft op] e]; cbn in *; subst.
  - apply Forall_cons_iff in Hps as [Hp Hps]. pose proof (send_message_ok (sent p) (compress p) a Hp Hf) as Hs.
    destruct p as [id pl fl]. change (sent (mkSendParams id pl fl)) with (mkMessage id pl) in *.
    cbn [msg_id msg_payload message_id send_payload compress] in *. cbn [map seal_all fst snd].
    change (sent (mkSendParams id pl fl)) with (mkMessage id pl).
    destruct (seal _ (cipher_ a)) as [f c].
    change (send_all (mkSendParams id pl fl :: params)) with (send_message (mkSendParams id pl fl) ;; send_all params).
    erewrite bind_ok by exact Hs.
    rewrite IH by done. cbn [compression_enabled_ cipher_ transport_ incoming outgoing is_open fst snd].
    by rewrite app_assoc.
Qed.

Lemma receive_all_ok ms a b rest :
  Forall (sendable (compression_enabled_ b)) ms -> fault (transport_ b) = None -> synced a (cipher_ b) ->
  let w := seal_all (compression_enabled_ b) a ms in
  incoming (transport_ b) = fst w ++ rest ->
  exists b', receive_all (length ms) b = (Ok ms, b')
  /\ incoming (transport_ b') = rest /\ synced (snd w) (cipher_ b').
Proof using laws snappy.
  revert a b. induction ms as [|m ms IH]; intros a b Hms Hf Hs; cbn zeta.
  - intros Hi. by exists b.
  - apply Forall_cons_iff in Hms as [Hm Hms]. cbn [seal_all fst snd length receive_all].
    rewrite <- app_assoc. intros Hi.
    destruct (receive_message_ok m _ a b Hs Hm Hf Hi) as (r & Hr & Hs').
    destruct (IH _ (mkStream r (mkTransport (fst (seal_all (compression_enabled_ b)
        (snd (seal (frame_text (compression_enabled_ b) m) a)) ms) ++ rest) (outgoing (transport_ b)) None
        (is_open (transport_ b))) (compression_enabled_ b)) Hms eq_refl Hs' eq_refl) as (b' & Hb & Hi' & Hs2).
    exists b'. split; [| done]. erewrite bind_ok by exact Hr. erewrite bind_ok by exact Hb. done.
Qed.

(** The two halves of a stream share no state but the socket's. *)
Definition sender (s : MessageStream) :=
  (enc (cipher_ s), egress_mac (cipher_ s), outgoing (transport_ s), fault (transport_ s), compression_enabled_ s).
Definition receiver (s : MessageStream) :=
  (dec (cipher_ s), ingress_mac (cipher_ s), incoming (transport_ s), fault (transport_ s), compression_enabled_ s).

Lemma preserves_on_cipher {E A T} (f : MessageStream -> T) (m : M FrameCipher E A) :
  (forall c t b, f (mkStream (snd (m c)) t b) = f (mkStream c t b)) -> preserves f (on_cipher m).
Proof. intros Hm [c t b]. specialize (Hm c t b). unfold on_cipher. cbn in *. by destruct (m c). Qed.

Lemma preserves_on_transport {E A T} (f : MessageStream -> T) (m : M SocketTransport E A) :
  (forall c t b, f (mkStream c (snd (m t)) b) = f (mkStream c t b)) -> preserves f (on_transport m).
Proof. intros Hm [c t b]. specialize (Hm c t b). unfold on_transport. cbn in *. by destruct (m t). Qed.

Lemma preserves_encrypt params : preserves (fun c => (dec c, ingress_mac c)) (encrypt_frame params).
Proof.
  unfold encrypt_frame. repeat (apply preserves_bind; [| intros]); auto with preserves;
    intros c; unfold enc_process, egress; repeat case_match; done.
Qed.

Lemma preserves_decrypt_header hct hm : preserves (fun c => (enc c, egress_mac c)) (decrypt_header hct hm).
Proof.
  unfold decrypt_header. cbn zeta. repeat (apply preserves_bind; [| intros]); auto with preserves;
    intros c; unfold dec_process, ingress; repeat case_match; done.
Qed.

Lemma preserves_decrypt_body n ct mac : preserves (fun c => (enc c, egress_mac c)) (decrypt_frame_body n ct mac).
Proof.
  unfold decrypt_frame_body, open_body. repeat (apply preserves_bind; [| intros]); auto with preserves;
    intros c; unfold dec_process, ingress; repeat case_match; done.
Qed.

Lemma preserves_send params : preserves receiver (send_message params).
Proof.
  unfold send_message. repeat (apply preserves_bind; [| intros]); auto with preserves.
  - apply preserves_with_error, preserves_on_cipher. intros c t b. unfold receiver. cbn.
    by injection (preserves_encrypt (mkEncryptParams a0 true) c) as -> ->.
  - apply preserves_on_transport. intros c t b. unfold receiver, write_all. cbn. by destruct (fault t) eqn:E; cbn; rewrite ?E.
Qed.

Lemma preserves_receive_steps : preserves sender receive_frame_steps.
Proof.
  assert (forall n, preserves (E := SessionError) sender (on_transport (read_exact n))) as Hread.
  { intros n. apply preserves_on_transport. intros c t b. unfold sender, read_exact. cbn.
    destruct (fault t) eqn:E; cbn; rewrite ?E; [done |]. destruct (_ <? _); done. }
  unfold receive_frame_steps. cbn zeta. repeat (apply preserves_bind; [| intros]); auto with preserves;
    apply preserves_on_cipher; intros c t b; unfold sender; cbn.
  - by injection (preserves_decrypt_header (take (Z.to_nat kFrameHeaderSize) a) (drop (Z.to_nat kFrameHeaderSize) a) c) as -> ->.
  - by match goal with |- context [decrypt_frame_body ?n ?u ?v c] => injection (preserves_decrypt_body n u v c) as -> -> end.
Qed.

Lemma preserves_receive : preserves sender receive_message.
Proof.
  unfold receive_message. repeat (apply preserves_bind; [| intros]); auto with preserves.
  apply preserves_with_error. intros s. pose proof (preserves_receive_steps s) as Hs. unfold receive_frame.
  by destruct (receive_frame_steps s) as [[] ?].
Qed.

(** C6: messages arrive. What one side sends, on a cipher in step with the other side's and with
    the same compression setting, in messages that fit a frame, all succeeds, and the other side receives exactly those
    messages, in order, from the octets that were written; the octets after them stay unread,
    and the two ciphers are in step again. The [compress] flags play no part. *)
Theorem messages_delivered params a b rest :
  Forall (fun p => sendable (compression_enabled_ a) (sent p)) params ->
  fault (transport_ a) = None -> fault (transport_ b) = None ->
  synced (cipher_ a) (cipher_ b) -> compression_enabled_ b = compression_enabled_ a ->
  exists w a', send_all params a = (Ok tt, a')
    /\ outgoing (transport_ a') = outgoing (transport_ a) ++ w
    /\ (incoming (transport_ b) = w ++ rest -> exists b',
          receive_all (length params) b = (Ok (map sent params), b')
          /\ incoming (transport_ b') = rest /\ synced (cipher_ a') (cipher_ b')).
Proof using laws snappy.
  intros Hps Hfa Hfb Hs Hc. eexists _, _. split; [by apply send_all_ok |].
  split; [reflexivity |]. intros Hi. rewrite <- (length_map sent). rewrite <- Hc in *.
  apply receive_all_ok; [by apply Forall_map | done ..].
Qed.

(** a message id is sent as an octet, but received as an integer of up to eight octets and
    cut down to one: on an uncompressed stream the id [n] arrives as [n mod 256]. So a frame
    with the id 256 arrives as a Hello. *)
Theorem received_id_truncated n p : fits 8 n -> bytes_ok p ->
  decode_frame false (rlp (uint_item n) ++ p) = Ok (mkMessage (n mod 256) p).
Proof.
  intros Hn Hp. unfold decode_frame. pose proof (rlp_uint_len n (int_width_fits 8 n ltac:(by repeat right) Hn)).
  rewrite (reads_read_integral 8); try (done || lia).
  apply bytes_ok_app. split; [| done]. apply rlp_ok; [auto with octets | lia].
Qed.
End crypto.

(** ** Witnesses *)

(** Toy primitives that obey the laws: a cipher that complements every octet, a hash that
    preserves 32 octets, a compressor that adds an octet. *)
Module Toy.
Definition keccak256 (d : bytes) : bytes := take 32 (d ++ repeat 0 32).
Definition aes_ecb (k d : bytes) : bytes := d.
Definition aes_ctr (k : bytes) (n : nat) (d : bytes) : bytes := map (fun b => 255 - b) d.
Definition compress (p : bytes) : bytes := 1 :: p.
Definition uncompressed_length (c : bytes) : option Z := match c with [] => None | _ :: p => Some (len p) end.
Definition uncompress (c : bytes) : option bytes := match c with [] => None | _ :: p => Some p end.

Definition secrets : FrameSecrets := mkSecrets (repeat 7 32) (repeat 9 32) [1; 2; 3] [1; 2; 3].
Definition stream (compression : bool) (arriving : bytes) : MessageStream :=
  mkStream (new_cipher secrets) (mkTransport arriving [] None true) compression.
End Toy.

#[export] Instance toy_cipher_laws : CipherLaws Toy.keccak256 Toy.aes_ctr.
Proof.
  split.
  - intros k n d. apply length_map.
  - intros k n d H. apply Forall_map. revert H. apply Forall_impl. unfold uint8. intros x; cbn; lia.
  - intros k n d _. unfold Toy.aes_ctr. rewrite map_map. rewrite <- map_id. apply map_ext. intros; lia.
  - intros d. unfold Toy.keccak256. rewrite length_take, length_app, repeat_length. lia.
Defined.

#[export] Instance toy_snappy_laws : SnappyLaws Toy.compress Toy.uncompressed_length Toy.uncompress.
Proof. split; try done. intros p Hp. constructor; [by unfold uint8 | done]. Defined.

Lemma toy_synced s : synced (new_cipher s) (new_cipher (mkSecrets (aes_secret s) (mac_secret s)
  (ingress_mac_seed s) (egress_mac_seed s))).
Proof. by split. Qed.

Lemma frame_size_bounds_witness :
  encrypt_frame Toy.keccak256 Toy.aes_ecb Toy.aes_ctr (mkEncryptParams [] true) (new_cipher Toy.secrets)
  = (Err FramingError.kInvalidFrameSize, new_cipher Toy.secrets).
Proof. apply (proj1 (frame_size_bounds Toy.keccak256 Toy.aes_ecb Toy.aes_ctr)). Defined.

Lemma forged_mac_refused_witness :
  let f := fst (seal Toy.keccak256 Toy.aes_ecb Toy.aes_ctr [5; 6] (new_cipher Toy.secrets)) in
  repeat 0 16 <> s_header_mac f
  /\ exists r1, decrypt_header Toy.keccak256 Toy.aes_ecb Toy.aes_ctr (s_header f) (repeat 0 16)
       (new_cipher Toy.secrets) = (Err FramingError.kMacMismatch, r1)
     /\ dec r1 = dec (new_cipher Toy.secrets).
Proof.
  cbn zeta. assert (repeat 0 16 <> s_header_mac (fst (seal Toy.keccak256 Toy.aes_ecb Toy.aes_ctr [5; 6]
    (new_cipher Toy.secrets)))) as H by (vm_compute; discriminate).
  split; [exact H |].
  exact (proj1 (forged_mac_refused Toy.keccak256 Toy.aes_ecb Toy.aes_ctr [5; 6] (new_cipher Toy.secrets)
    (new_cipher Toy.secrets) (repeat 0 16) (repeat 0 16) (toy_synced Toy.secrets) ltac:(vm_compute; split; congruence)
    eq_refl) H).
Defined.

(** Two messages, one of them empty, over a compressed stream. *)
Lemma messages_delivered_witness :
  exists a', send_all Toy.keccak256 Toy.aes_ecb Toy.aes_ctr Toy.compress
      [mkSendParams 0x10 [1; 2; 3] false; mkSendParams 2 [] true] (Toy.stream true []) = (Ok tt, a')
  /\ fst (receive_all Toy.keccak256 Toy.aes_ecb Toy.aes_ctr Toy.uncompressed_length Toy.uncompress 2
       (Toy.stream true (outgoing (transport_ a') ++ [0xEE])))
     = Ok [mkMessage 0x10 [1; 2; 3]; mkMessage 2 []].
Proof.
  set (ps := [mkSendParams 0x10 [1; 2; 3] false; mkSendParams 2 [] true]).
  set (out := outgoing (transport_ (snd (send_all Toy.keccak256 Toy.aes_ecb Toy.aes_ctr Toy.compress ps
    (Toy.stream true []))))).
  destruct (messages_delivered Toy.keccak256 Toy.aes_ecb Toy.aes_ctr Toy.compress Toy.uncompressed_length
    Toy.uncompress ps (Toy.stream true []) (Toy.stream true (out ++ [0xEE])) [0xEE]) as (w & a' & Hs & Hw & Hr).
  - repeat constructor; try (unfold uint8; cbn; lia); by vm_compute.
  - done.
  - done.
  - apply toy_synced.
  - done.
  - exists a'. split; [done |]. unfold out in Hr. rewrite Hs in Hr. cbn [snd] in Hr. change (outgoing _) with (@nil Z) in Hw at 2.
    rewrite Hw in *. destruct Hr as (b' & Hb & _); [done |]. apply (f_equal fst) in Hb. exact Hb.
Defined.

Lemma received_id_truncated_witness :
  decode_frame Toy.uncompressed_length Toy.uncompress false (rlp (uint_item 0x100) ++ [7])
  = Ok (mkMessage kHelloMessageId [7]).
Proof.
  apply (received_id_truncated Toy.uncompressed_length Toy.uncompress 0x100 [7]);
    [split; vm_compute; congruence | octets].
Defined.
