(* ===== verification/RlpxCrypto.v ===== *)
(** * RlpxCrypto: keys, MACs and ciphers of the RLPx layer

    [src/rlpx/crypto/ecdh.cpp], [hmac.cpp], [kdf.cpp], [aes.cpp] with their headers. The static
    members of a class are the definitions of a Module. OpenSSL and libsecp256k1 are parameters;
    the state of the functions that draw random octets is the number of draws.

    Theorems: the two ends of a key exchange agree ([key_exchange]); the key derivation is the
    concatenation of digests up to the length at which its loop guard cuts in ([kdf_derive]);
    a MAC is accepted iff it is a beginning of the digest ([hmac_verify_prefix]). *)
From S2P Require Export RlpxTypes Secp256k1 OpenSsl.
Open Scope Z_scope.

Abbreviation CryptoResult := (outcome CryptoError).

(** ** [class Ecdh] *)

Module Ecdh.
Record KeyPair := mkKeyPair { public_key : bytes; private_key : bytes }.

Section ecdh.
Context `{Secp256k1} `{OpenSsl}.

Definition parse_public_key (public_key : bytes) : option Pubkey :=
  ec_pubkey_parse (kUncompressedPubKeyPrefix :: public_key).

Definition compute_shared_secret (public_key private_key : bytes) : CryptoResult bytes :=
  if negb context_create then Err CryptoError.kSecp256k1Error
  else if negb (ec_seckey_verify private_key) then Err CryptoError.kInvalidPrivateKey
  else match parse_public_key public_key with
  | None => Err CryptoError.kInvalidPublicKey
  | Some parsed =>
      match ec_pubkey_tweak_mul parsed private_key with
      | None => Err CryptoError.kEcdhFailed
      | Some result => Ok (take (Z.to_nat kSharedSecretSize)
                         (drop (Z.to_nat kUncompressedPubKeyPrefixSize) (ec_pubkey_serialize false result)))
      end
  end.

(** [while (true)]: keys are drawn until one is valid. *)
Fixpoint draw_private_key (fuel : nat) : M nat CryptoError bytes := fun draws =>
  match fuel with
  | O => (Diverged, draws)
  | S fuel =>
      match rand_bytes draws kPrivateKeySize with
      | None => (Err CryptoError.kOpenSslError, S draws)
      | Some key => if ec_seckey_verify key then (Ok key, S draws) else draw_private_key fuel (S draws)
      end
  end.

Definition generate_ephemeral_keypair (fuel : nat) : M nat CryptoError KeyPair :=
  fail_if (negb context_create) CryptoError.kSecp256k1Error ;;
  private_key ← draw_private_key fuel;
  match ec_pubkey_create private_key with
  | None => throw CryptoError.kSecp256k1Error
  | Some pubkey => mret {| public_key := key_id pubkey; private_key := private_key |}
  end.

Definition verify_public_key (public_key : bytes) : bool :=
  if negb context_create then false
  else match parse_public_key public_key with Some _ => true | None => false end.
End ecdh.
End Ecdh.

(** ** [class Hmac] *)

Module Hmac.
Section hmac.
Context `{OpenSsl}.

Definition compute (key data : bytes) : CryptoResult bytes :=
  if empty key then Err CryptoError.kInvalidKeySize else
  let result := hmac_sha256 key data in
  if empty result then Err CryptoError.kHmacFailed else Ok result.

Definition compute_mac (key data : bytes) : CryptoResult bytes :=
  obind (compute key data) (fun full_hmac =>
  if len full_hmac <? kMacSize then Err CryptoError.kHmacFailed
  else Ok (take (Z.to_nat kMacSize) full_hmac)).

Definition verify (key data expected_mac : bytes) : bool :=
  match compute key data with
  | Ok computed_mac =>
      if len computed_mac <? len expected_mac then false
      else bool_decide (expected_mac = take (length expected_mac) computed_mac)
  | _ => false
  end.
End hmac.
End Hmac.

(** ** [class Kdf] *)

Module Kdf.
Record DerivedKeys := mkKeys { aes_key : bytes; mac_key : bytes }.

Definition SHA256_DIGEST_LENGTH : Z := 32.
Definition kMaxIterations : Z := 1000.

Section kdf.
Context `{OpenSsl}.

(** The digest of an iteration. *)
Definition block (shared_secret shared_info : bytes) (counter : Z) : bytes :=
  sha256 ([u8 (Z.land (Z.shiftr counter 24) 0xFF); u8 (Z.land (Z.shiftr counter 16) 0xFF);
           u8 (Z.land (Z.shiftr counter 8) 0xFF); u8 (Z.land counter 0xFF)]
          ++ shared_secret ++ shared_info).

(** [while (output.size() < key_data_len)]. *)
Fixpoint derive_loop (fuel : nat) (shared_secret shared_info : bytes) (key_data_len counter : Z) (output : bytes)
    : CryptoResult bytes :=
  match fuel with
  | O => Diverged
  | S fuel =>
      if key_data_len <=? len output then Ok output else
      let bytes_to_copy := Z.min SHA256_DIGEST_LENGTH (key_data_len - len output) in
      let output := output ++ take (Z.to_nat bytes_to_copy) (block shared_secret shared_info counter) in
      let counter := u32 (counter + 1) in
      if kMaxIterations <? counter then Err CryptoError.kKdfFailed
      else derive_loop fuel shared_secret shared_info key_data_len counter output
  end.

Definition derive (shared_secret : bytes) (key_data_len : Z) (shared_info : bytes) : CryptoResult bytes :=
  if empty shared_secret || (key_data_len =? 0) then Err CryptoError.kKdfFailed
  else derive_loop (S (Z.to_nat kMaxIterations)) shared_secret shared_info key_data_len 1 [].

Definition derive_aes_key (shared_secret info : bytes) : CryptoResult bytes :=
  obind (derive shared_secret kAesKeySize info) (fun key_data =>
  if negb (len key_data =? kAesKeySize) then Err CryptoError.kInvalidKeySize else Ok key_data).

Definition derive_mac_key (shared_secret info : bytes) : CryptoResult bytes :=
  obind (derive shared_secret kMacKeySize info) (fun key_data =>
  if negb (len key_data =? kMacKeySize) then Err CryptoError.kInvalidKeySize else Ok key_data).

Definition derive_keys (shared_secret info : bytes) : CryptoResult DerivedKeys :=
  let total_len := kAesKeySize + kMacKeySize in
  obind (derive shared_secret total_len info) (fun key_data =>
  if negb (len key_data =? total_len) then Err CryptoError.kKdfFailed
  else Ok {| aes_key := take (Z.to_nat kAesKeySize) key_data;
             mac_key := take (Z.to_nat kMacKeySize) (drop (Z.to_nat kAesKeySize) key_data) |}).
End kdf.
End Kdf.

(** ** [class Aes] *)

Module Aes.
(** [static_cast<int>] of a size. *)
Definition int_of_size (n : Z) : Z := (n + 2 ^ 31) mod 2 ^ 32 - 2 ^ 31.

Lemma int_of_size_small n : 0 <= n < 2 ^ 31 -> int_of_size n = n.
Proof. intros. unfold int_of_size. rewrite Z.mod_small by lia. lia. Qed.

Section aes.
Context `{OpenSsl}.

(** A context, one update of as many octets as the [int] says, and the end. OpenSSL refuses a
    negative length; the output is cut to what it has processed. *)
Definition cipher_update (key iv data : bytes) (error : CryptoError) : CryptoResult bytes :=
  if negb evp_context then Err error else
  let n := int_of_size (len data) in
  if n <? 0 then Err error else Ok (aes256_ctr key iv 0 (take (Z.to_nat n) data)).

Definition encrypt_ctr (key iv plaintext : bytes) : CryptoResult bytes :=
  cipher_update key iv plaintext CryptoError.kAesEncryptFailed.
Definition decrypt_ctr (key iv ciphertext : bytes) : CryptoResult bytes :=
  cipher_update key iv ciphertext CryptoError.kAesDecryptFailed.

(** In place: the octets of the span that were not processed stay. *)
Definition inplace (key iv data : bytes) (error : CryptoError) : CryptoResult bytes :=
  if empty data then Ok data
  else obind (cipher_update key iv data error) (fun out => Ok (out ++ drop (length out) data)).
Definition encrypt_ctr_inplace (key iv data : bytes) : CryptoResult bytes :=
  inplace key iv data CryptoError.kAesEncryptFailed.
Definition decrypt_ctr_inplace (key iv data : bytes) : CryptoResult bytes :=
  inplace key iv data CryptoError.kAesDecryptFailed.
End aes.
End Aes.

(** ** Key exchange *)

Section exchange.
Context `{SL : Secp256k1Laws} `{OL : OpenSslLaws}.

(** From draw [i] on, draw [j] is the first that is a secret key. *)
Definition finds_key (i j : nat) (key : bytes) : Prop :=
  (forall n, (n < j)%nat -> exists k, rand_bytes (i + n) 32 = Some k /\ ec_seckey_verify k = false)
  /\ rand_bytes (i + j) 32 = Some key /\ ec_seckey_verify key = true.

(** The same, one draw later. *)
Lemma finds_key_S i j key : finds_key i (S j) key ->
  exists k, rand_bytes i 32 = Some k /\ ec_seckey_verify k = false /\ finds_key (S i) j key.
Proof.
  intros (Hn & Hr & Hk). destruct (Hn O ltac:(lia)) as (k & E & Hv). rewrite Nat.add_0_r in E.
  exists k. split; [done |]. split; [done |]. rewrite <- Nat.add_succ_comm in Hr. split; [| done].
  intros n Hl. rewrite Nat.add_succ_comm. apply Hn. lia.
Qed.

Lemma finds_key_0 i key : finds_key i 0 key -> rand_bytes i 32 = Some key /\ ec_seckey_verify key = true.
Proof. intros (_ & Hr & Hk). by rewrite Nat.add_0_r in Hr. Qed.

(** A pair a key of the library belongs to. *)
Definition keypair_ok (kp : Ecdh.KeyPair) : Prop :=
  exists pk, ec_pubkey_create (Ecdh.private_key kp) = Some pk /\ Ecdh.public_key kp = key_id pk.

(** The secret with another's key is the beginning of the product. *)
Lemma compute_shared_secret_ok pk k s : context_create = true -> ec_seckey_verify k = true ->
  ec_pubkey_tweak_mul pk k = Some s ->
  Ecdh.compute_shared_secret (key_id pk) k = Ok (take 32 (drop 1 (ec_pubkey_serialize false s))).
Proof using SL.
  intros Hc Hk Hs. unfold Ecdh.compute_shared_secret, Ecdh.parse_public_key. rewrite Hc, Hk.
  change kUncompressedPubKeyPrefix with 0x04. rewrite (proj1 (parse_key_id pk)). cbn [negb]. by rewrite Hs.
Qed.

Lemma draw_private_key_ok j key : forall fuel i, (j < fuel)%nat -> finds_key i j key ->
  Ecdh.draw_private_key fuel i = (Ok key, S (i + j)).
Proof using SL OL.
  induction j as [|j IH]; intros [|fuel] i Hf Hk; try lia; cbn [Ecdh.draw_private_key];
    change kPrivateKeySize with 32.
  - apply finds_key_0 in Hk as [-> ->]. by rewrite Nat.add_0_r.
  - apply finds_key_S in Hk as (k & -> & -> & Hk). rewrite (IH fuel (S i)) by (done || lia). f_equal. lia.
Qed.

(** A secret key of the library has a pair. *)
Lemma seckey_pair k : ec_seckey_verify k = true -> exists pk, ec_pubkey_create k = Some pk.
Proof using SL. intros Hk. destruct (proj1 (seckey_pubkey k) Hk) as [pk E]. by exists pk. Qed.

(** key exchange. A pair is generated as soon as a draw is a secret key, however many were
    not; the public key is that of the private key, so any two generated pairs exchange their
    public keys and compute the same secret of 32 octets. *)
Theorem key_exchange fuel i j key :
  context_create = true -> (j < fuel)%nat -> finds_key i j key ->
  exists a, Ecdh.generate_ephemeral_keypair fuel i = (Ok a, S (i + j))
  /\ Ecdh.private_key a = key /\ is_array 64 (Ecdh.public_key a) /\ Ecdh.verify_public_key (Ecdh.public_key a) = true
  /\ forall b, keypair_ok b -> exists s, is_array 32 s
     /\ Ecdh.compute_shared_secret (Ecdh.public_key b) (Ecdh.private_key a) = Ok s
     /\ Ecdh.compute_shared_secret (Ecdh.public_key a) (Ecdh.private_key b) = Ok s.
Proof using SL OL.
  intros Hc Hf Hd. pose proof Hd as (_ & _ & Hv). destruct (seckey_pair key Hv) as [pk Hpk].
  exists {| Ecdh.public_key := key_id pk; Ecdh.private_key := key |}. split_and!.
  - unfold Ecdh.generate_ephemeral_keypair. rewrite Hc. cbn [negb]. unfold_m.
    rewrite (draw_private_key_ok j key) by done. by rewrite Hpk.
  - done.
  - apply parse_key_id.
  - unfold Ecdh.verify_public_key, Ecdh.parse_public_key. rewrite Hc. change kUncompressedPubKeyPrefix with 0x04.
    cbn [Ecdh.public_key negb]. by rewrite (proj1 (parse_key_id pk)).
  - intros [pub kb] (pb & Hb & Epub). cbn in *. subst pub.
    destruct (tweak_commutes _ _ _ _ Hpk Hb) as (s & H1 & H2).
    assert (ec_seckey_verify kb = true) as Hvb by (apply seckey_pubkey; eauto).
    exists (take 32 (drop 1 (ec_pubkey_serialize false s))). split_and!.
    + split; [rewrite length_take, length_drop, (serialize_length false s); done |].
      apply bytes_ok_take, bytes_ok_drop, serialize_octets.
    + by apply compute_shared_secret_ok.
    + by apply compute_shared_secret_ok.
Qed.
End exchange.

(** ** Key derivation *)

Section derivation.
Context `{OL : OpenSslLaws}.

(** The first [k] digests. *)
Definition blocks (shared_secret info : bytes) (k : nat) : bytes :=
  concat (map (fun c => Kdf.block shared_secret info (Z.of_nat c)) (seq 1 k)).

Lemma blocks_S ss info k : blocks ss info (S k) = blocks ss info k ++ Kdf.block ss info (Z.of_nat (S k)).
Proof. unfold blocks. rewrite seq_S, map_app, concat_app. cbn [map concat]. by rewrite app_nil_r. Qed.

Lemma length_block ss info c : length (Kdf.block ss info c) = 32%nat.
Proof using OL. apply sha256_array. Qed.

Lemma length_blocks ss info k : length (blocks ss info k) = (32 * k)%nat.
Proof using OL.
  induction k as [|k IH]; [done |]. rewrite blocks_S, length_app, IH, length_block. lia.
Qed.

(** More blocks do not change the beginning. *)
Lemma take_blocks ss info n k j : (n <= 32 * k)%nat -> (k <= j)%nat -> take n (blocks ss info j) = take n (blocks ss info k).
Proof using OL.
  intros Hn Hj. induction Hj as [|j Hj IH]; [done |].
  rewrite blocks_S, take_app_le by (rewrite length_blocks; lia). done.
Qed.

Lemma derive_loop_from ss info n : 0 <= n -> forall fuel k, (k <= 999)%nat -> (1000 <= fuel + k)%nat ->
  Kdf.derive_loop fuel ss info n (Z.of_nat (S k)) (take (Z.to_nat n) (blocks ss info k))
  = if n <=? 32 * 999 then Ok (take (Z.to_nat n) (blocks ss info 999)) else Err CryptoError.kKdfFailed.
Proof using OL.
  intros Hn0. induction fuel as [|fuel IH]; intros k Hk Hf; [lia |]. cbn [Kdf.derive_loop].
  assert (len (take (Z.to_nat n) (blocks ss info k)) = Z.min n (32 * Z.of_nat k)) as El
    by (unfold len; rewrite length_take, length_blocks; lia).
  rewrite El. destruct (Z.leb_spec n (Z.min n (32 * Z.of_nat k))).
  - rewrite (proj2 (Z.leb_le n (32 * 999))) by lia. f_equal. symmetry. apply take_blocks; lia.
  - assert (Z.min n (32 * Z.of_nat k) = 32 * Z.of_nat k) as Em by lia. rewrite Em.
    assert (take (Z.to_nat n) (blocks ss info k)
              ++ take (Z.to_nat (Z.min Kdf.SHA256_DIGEST_LENGTH (n - 32 * Z.of_nat k))) (Kdf.block ss info (Z.of_nat (S k)))
            = take (Z.to_nat n) (blocks ss info (S k))) as ->.
    { rewrite blocks_S, take_app, length_blocks. f_equal. pose proof (length_block ss info (Z.of_nat (S k))) as Hb.
      unfold Kdf.SHA256_DIGEST_LENGTH. destruct (Z.min_spec 32 (n - 32 * Z.of_nat k)) as [[? ->]|[? ->]].
      - by rewrite !take_ge by lia.
      - f_equal. lia. }
    replace (u32 (Z.of_nat (S k) + 1)) with (Z.of_nat (S (S k))) by (unfold u32; rewrite Z.mod_small; lia).
    unfold Kdf.kMaxIterations. destruct (Z.ltb_spec 1000 (Z.of_nat (S (S k)))).
    + rewrite (proj2 (Z.leb_gt n (32 * 999))) by lia. done.
    + apply IH; lia.
Qed.

(** key derivation. Every request of up to 31968 octets is answered with exactly that many octets, the
    beginning of the digests of the numbered secret; every longer one is refused, even the 32000
    octets that the thousand iterations the guard allows would give. The derived keys are the two
    halves of 64 octets. *)
Theorem kdf_derive ss info n : ss <> [] -> 0 < n ->
  (n <= 31968 -> exists out, Kdf.derive ss n info = Ok out /\ len out = n
     /\ forall k, (32 * Z.of_nat k >= n) -> (k <= 999)%nat -> out = take (Z.to_nat n) (blocks ss info k))
  /\ (31968 < n -> Kdf.derive ss n info = Err CryptoError.kKdfFailed)
  /\ Kdf.derive_keys ss info = Ok (Kdf.mkKeys (Kdf.block ss info 1) (Kdf.block ss info 2)).
Proof using OL.
  intros Hs Hn. assert (empty ss = false) as He by by destruct ss.
  assert (forall m, 0 < m -> Kdf.derive ss m info
    = if m <=? 32 * 999 then Ok (take (Z.to_nat m) (blocks ss info 999)) else Err CryptoError.kKdfFailed) as Hd.
  { intros m Hm. unfold Kdf.derive. rewrite He, (proj2 (Z.eqb_neq m 0)) by lia. cbn [orb].
    rewrite <- (derive_loop_from ss info m ltac:(lia) (S (Z.to_nat Kdf.kMaxIterations)) 0) by (unfold Kdf.kMaxIterations; lia).
    change (blocks ss info 0) with (@nil Z). by rewrite take_nil. }
  split_and!.
  - intros Hm. exists (take (Z.to_nat n) (blocks ss info 999)). split_and!.
    + rewrite Hd by done. by rewrite (proj2 (Z.leb_le _ _)) by lia.
    + unfold len. rewrite length_take, length_blocks. lia.
    + intros k Hk1 Hk2. apply take_blocks; lia.
  - intros Hm. rewrite Hd by done. by rewrite (proj2 (Z.leb_gt _ _)) by lia.
  - unfold Kdf.derive_keys. change (kAesKeySize + kMacKeySize) with 64. rewrite Hd by done. change (64 <=? 32 * 999) with true.
    cbn [obind]. rewrite (take_blocks ss info (Z.to_nat 64) 2 999) by lia.
    rewrite take_ge by (rewrite length_blocks; lia). unfold len. rewrite length_blocks. change (negb _) with false. cbv iota.
    rewrite !blocks_S. change (blocks ss info 0) with (@nil Z). cbn [app].
    pose proof (length_block ss info (Z.of_nat 1)) as H1. pose proof (length_block ss info (Z.of_nat 2)) as H2.
    change (Z.to_nat kAesKeySize) with 32%nat. change (Z.to_nat kMacKeySize) with 32%nat.
    rewrite take_app_length', drop_app_length' by done. by rewrite take_ge by lia.
Qed.
End derivation.

(** ** MACs and ciphers *)

Section macs.
Context `{OL : OpenSslLaws}.

(** a MAC is accepted iff the key is not empty and the MAC is a beginning of the digest, of
    any length: the 16 octets of [compute_mac], and also no octets at all. *)
Theorem hmac_verify_prefix key data mac : key <> [] ->
  (Hmac.verify key data mac = true <-> mac `prefix_of` hmac_sha256 key data)
  /\ Hmac.verify key data [] = true
  /\ (exists m, Hmac.compute_mac key data = Ok m /\ len m = 16 /\ Hmac.verify key data m = true)
  /\ Hmac.verify [] data mac = false.
Proof using OL.
  intros Hk. destruct (hmac_array key data) as [Hl _].
  assert (Hmac.compute key data = Ok (hmac_sha256 key data)) as Hc.
  { unfold Hmac.compute. destruct key; [done |]. cbn [empty]. by destruct (hmac_sha256 _ _). }
  assert (forall m, Hmac.verify key data m = true <-> m `prefix_of` hmac_sha256 key data) as Hv.
  { intros m. unfold Hmac.verify. rewrite Hc. split.
    - destruct (_ <? _); [done |]. intros E%bool_decide_eq_true. exists (drop (length m) (hmac_sha256 key data)).
      rewrite E at 1. by rewrite take_drop.
    - intros [t E]. rewrite E. unfold len. rewrite length_app, (proj2 (Z.ltb_ge _ _)) by lia.
      apply bool_decide_eq_true. by rewrite take_app_length. }
  split_and!; [apply Hv | | | done].
  - apply Hv. by eexists.
  - exists (take 16 (hmac_sha256 key data)). split_and!.
    + unfold Hmac.compute_mac. rewrite Hc. cbn [obind]. by rewrite (proj2 (Z.ltb_ge _ _)) by (unfold len; rewrite Hl; done).
    + unfold len. by rewrite length_take, Hl.
    + apply Hv. exists (drop 16 (hmac_sha256 key data)). by rewrite take_drop.
Qed.

(** AES. Below 2 GiB a text is encrypted to as many octets and decrypted to itself, in place
    too; from there to 4 GiB the size is a negative [int] and both are refused. *)
Theorem aes_roundtrip key iv text : evp_context = true -> bytes_ok text ->
  (len text < 2 ^ 31 -> exists c, Aes.encrypt_ctr key iv text = Ok c /\ len c = len text
     /\ Aes.decrypt_ctr key iv c = Ok text /\ Aes.encrypt_ctr_inplace key iv text = Ok c
     /\ Aes.decrypt_ctr_inplace key iv c = Ok text)
  /\ (2 ^ 31 <= len text < 2 ^ 32 -> Aes.encrypt_ctr key iv text = Err CryptoError.kAesEncryptFailed
     /\ Aes.decrypt_ctr_inplace key iv text = Err CryptoError.kAesDecryptFailed).
Proof using OL.
  intros Hevp Ht. pose proof (len_nonneg text) as H0. split.
  - intros Hl. assert (forall d e, len d = len text -> Aes.cipher_update key iv d e = Ok (aes256_ctr key iv 0 d)) as Hu.
    { intros d e Hd. unfold Aes.cipher_update. rewrite Hevp, Hd. cbn [negb].
      rewrite Aes.int_of_size_small by lia.
      rewrite (proj2 (Z.ltb_ge _ _)) by lia. by rewrite <- Hd, take_len. }
    set (c := aes256_ctr key iv 0 text).
    assert (len c = len text) as Hc by (unfold len, c; by rewrite ctr256_length).
    assert (aes256_ctr key iv 0 c = text) as Hi by by apply ctr256_inverse.
    exists c. unfold Aes.encrypt_ctr, Aes.decrypt_ctr, Aes.encrypt_ctr_inplace, Aes.decrypt_ctr_inplace, Aes.inplace.
    rewrite !Hu, Hi by done. fold c. cbn [obind]. split_and!; try done.
    + destruct (empty text) eqn:E; [destruct text; [| done]; by rewrite (len_zero c) by done |].
      unfold len in Hc. rewrite drop_ge by lia. by rewrite app_nil_r.
    + destruct (empty c) eqn:E; [destruct c; [| done]; by rewrite (len_zero text) by done |].
      unfold len in Hc. rewrite drop_ge by lia. by rewrite app_nil_r.
  - intros Hl. assert (forall e, Aes.cipher_update key iv text e = Err e) as Hu.
    { intros e. unfold Aes.cipher_update. rewrite Hevp. cbn [negb].
      rewrite (proj2 (Z.ltb_lt _ _)); [done |]. unfold Aes.int_of_size.
      rewrite <- (Z.mod_add _ (-1)) by lia. rewrite Z.mod_small; lia. }
    unfold Aes.encrypt_ctr, Aes.decrypt_ctr_inplace, Aes.inplace. rewrite !Hu. split; [done |].
    destruct text; [rewrite len_nil in Hl; lia | done].
Qed.
End macs.

(** ** Witnesses *)

#[local] Existing Instances ToySecp.toy ToySecp.toy_laws ToySsl.toy ToySsl.toy_laws.

Lemma key_exchange_witness :
  exists a, Ecdh.generate_ephemeral_keypair 3 0%nat = (Ok a, 1%nat)
  /\ exists s, Ecdh.compute_shared_secret (key_id ToySecp.odd_key) (Ecdh.private_key a) = Ok s
     /\ Ecdh.compute_shared_secret (Ecdh.public_key a) (repeat 3 32) = Ok s.
Proof.
  destruct (key_exchange 3 0 0 (repeat 1 32)) as (a & Ha & _ & _ & _ & Hx); [done | lia | by split; [lia |] |].
  exists a. split; [exact Ha |].
  destruct (Hx (Ecdh.mkKeyPair (key_id ToySecp.odd_key) (repeat 3 32))) as (s & _ & H1 & H2).
  - by exists ToySecp.odd_key.
  - by exists s.
Defined.

Lemma kdf_derive_witness :
  exists out, Kdf.derive [1; 2; 3] 40 [4] = Ok out /\ len out = 40 /\ out = take 40 (blocks [1; 2; 3] [4] 2).
Proof.
  destruct (kdf_derive [1; 2; 3] [4] 40) as [H _]; [done.. |].
  destruct (H ltac:(lia)) as (out & H1 & H2 & H3). exists out. split_and!; [done.. |]. apply (H3 2%nat); lia.
Defined.

Lemma hmac_verify_prefix_witness :
  Hmac.verify [1] [2; 3] (take 5 (hmac_sha256 [1] [2; 3])) = true /\ Hmac.verify [1] [2; 3] [7] = false.
Proof.
  destruct (hmac_verify_prefix [1] [2; 3] (take 5 (hmac_sha256 [1] [2; 3]))) as [[_ H] _]; [done |].
  split; [apply H; eexists; symmetry; apply take_drop | reflexivity].
Defined.

Lemma aes_roundtrip_witness :
  exists c, Aes.encrypt_ctr (repeat 1 32) (repeat 0 16) [1; 2; 3] = Ok c
  /\ Aes.decrypt_ctr (repeat 1 32) (repeat 0 16) c = Ok [1; 2; 3].
Proof.
  destruct (aes_roundtrip (repeat 1 32) (repeat 0 16) [1; 2; 3]) as [H _]; [done | octets |].
  destruct (H eq_refl) as (c & H1 & _ & H2 & _). by exists c.
Defined.
