(* ===== verification/RlpxHandshake.v ===== *)
(** * RlpxHandshake: ECIES and the RLPx handshake

    [src/rlpx/auth/ecies_cipher.cpp], [src/rlpx/auth/auth_handshake.cpp],
    [include/rlpx/auth/auth_keys.hpp]. A handshake has a transport and the number of random
    draws made so far. Local buffers the code leaves unassigned are parameters ([unset],
    [unset_secrets]).

    Theorems: what is encrypted for a key its owner decrypts, and nothing with another MAC
    ([ecies_roundtrip]); the initiator completes a handshake with any peer that answers as EIP-8
    asks, and the ciphers of the two sides are then in step ([initiator_completes]); the
    responder takes the peer's key from the wrong place ([responder_misreads_auth]), and its
    answer is not accepted ([own_ack_refused]). *)
From S2P Require Export RlpxFraming RlpxCrypto.
Open Scope Z_scope.

(** ** Data *)

Abbreviation AuthResult := (outcome AuthError).

Record EciesEncryptParams := mkEciesEncrypt {
  plaintext : bytes; recipient_public_key : bytes; encrypt_mac_data : bytes }.
Record EciesDecryptParams := mkEciesDecrypt {
  ecies_ciphertext : bytes; recipient_private_key : bytes; decrypt_mac_data : bytes }.

Record AuthKeyMaterial := mkKeyMaterial {
  peer_public_key : bytes;
  peer_ephemeral_public_key : bytes;
  local_ephemeral_public_key : bytes;
  local_ephemeral_private_key : bytes;
  initiator_nonce : bytes;
  recipient_nonce : bytes;
  initiator_auth_message : bytes;
  recipient_ack_message : bytes
}.

(** [struct HandshakeConfig]; without the peer's key the side is the responder. *)
Record HandshakeConfig := mkHandshakeConfig {
  local_public_key : bytes;
  local_private_key : bytes;
  config_peer_public_key : option bytes
}.

(** [struct HandshakeResult]; the transport is the one of the handshake's state. *)
Record HandshakeResult := mkHandshakeResult { key_material : AuthKeyMaterial; frame_secrets : FrameSecrets }.

(** The transport of [class AuthHandshake], and the draws. *)
Record AuthHandshake := mkHandshake { hs_transport : SocketTransport; draws : nat }.

Section handshake.
Context (keccak256 : bytes -> bytes) `{Secp256k1} `{OpenSsl} (fuel : nat).

(** ** ECIES *)


(** [struct EciesKeys], [derive_keys]. *)
Definition derive_keys (shared_secret : bytes) : bytes * bytes :=
  let kdf_out := sha256 ([0; 0; 0; 1] ++ shared_secret) in
  (take 16 kdf_out, sha256 (take 16 (drop 16 kdf_out))).

(** Without a context, or with a negative size, nothing is written. *)
Definition ecies_aes128_ctr (data key iv : bytes) : bytes :=
  if negb evp_context then [] else
  let n := Aes.int_of_size (len data) in
  if n <? 0 then [] else aes128_ctr key iv 0 (take (Z.to_nat n) data).

Definition compute_shared_secret (public_key private_key : bytes) : AuthResult bytes :=
  map_err AuthError.kSharedSecretFailed (Ecdh.compute_shared_secret public_key private_key).

(** [RAND_bytes] into a buffer of zeros, whose result is not looked at. *)
Definition fill_random (n : Z) : M nat AuthError bytes := fun i =>
  (Ok (default (repeat 0 (Z.to_nat n)) (rand_bytes i n)), S i).

(** [for (;;)]: a failed draw leaves the buffer as it was. *)
Fixpoint draw_ephemeral (fuel : nat) (ephemeral_priv : bytes) : M nat AuthError bytes := fun i =>
  match fuel with
  | O => (Diverged, i)
  | S fuel =>
      let ephemeral_priv := default ephemeral_priv (rand_bytes i kPrivateKeySize) in
      if ec_seckey_verify ephemeral_priv then (Ok ephemeral_priv, S i)
      else draw_ephemeral fuel ephemeral_priv (S i)
  end.

Definition mac_of (mac_key iv ciphertext shared_mac_data : bytes) : bytes :=
  hmac_sha256 mac_key (iv ++ ciphertext ++ shared_mac_data).

Definition encrypt (params : EciesEncryptParams) : M nat AuthError bytes :=
  fail_if (negb context_create) AuthError.kEciesEncryptFailed ;;
  ephemeral_priv ← draw_ephemeral fuel (repeat 0 (Z.to_nat kPrivateKeySize));
  match ec_pubkey_create ephemeral_priv with
  | None => throw AuthError.kInvalidPublicKey
  | Some ephemeral_pub =>
      let ephemeral_pub_bytes := ec_pubkey_serialize false ephemeral_pub in
      shared ← lift (compute_shared_secret (recipient_public_key params) ephemeral_priv);
      let '(enc_key, mac_key) := derive_keys shared in
      iv ← fill_random kAesBlockSize;
      let ciphertext := ecies_aes128_ctr (plaintext params) enc_key iv in
      let mac := mac_of mac_key iv ciphertext (encrypt_mac_data params) in
      mret (ephemeral_pub_bytes ++ iv ++ ciphertext ++ mac)
  end.

Definition decrypt (params : EciesDecryptParams) : AuthResult bytes :=
  let ciphertext_size := len (ecies_ciphertext params) in
  if ciphertext_size <? kEciesOverheadSize then Err AuthError.kEciesDecryptFailed else
  let ephemeral_pub_bytes := substr (ecies_ciphertext params) 0 kUncompressedPubKeySize in
  let iv := substr (ecies_ciphertext params) kUncompressedPubKeySize kAesBlockSize in
  let ct_offset := kUncompressedPubKeySize + kAesBlockSize in
  let ct_len := ciphertext_size - kEciesOverheadSize in
  let ciphertext := substr (ecies_ciphertext params) ct_offset ct_len in
  let mac := substr (ecies_ciphertext params) (ct_offset + ct_len) kEciesMacSize in
  let ephemeral_pub := drop (Z.to_nat kUncompressedPubKeyPrefixSize) ephemeral_pub_bytes in
  obind (compute_shared_secret ephemeral_pub (recipient_private_key params)) (fun shared =>
  let '(enc_key, mac_key) := derive_keys shared in
  if negb (bool_decide (mac = mac_of mac_key iv ciphertext (decrypt_mac_data params)))
  then Err AuthError.kEciesDecryptFailed
  else Ok (ecies_aes128_ctr ciphertext enc_key iv)).

Definition estimate_encrypted_size (plaintext_size : Z) : Z :=
  kUncompressedPubKeySize + kAesBlockSize + plaintext_size + kEciesMacSize.

(** ** The messages of the handshake *)

(** A size as the two octets of an EIP-8 prefix. *)
Definition eip8_prefix (size : Z) : bytes :=
  let prefix_val := u16 size in [u8 (Z.shiftr prefix_val 8); u8 (Z.land prefix_val 0xFF)].

(** The calls that encode [authMsgV4]. *)
Definition put_auth (signature public_key nonce : bytes) : EncM unit :=
  BeginList ;; (add_bytes signature ;; add_bytes public_key ;; add_bytes nonce ;; add_integral 8 kAuthVersion) ;; EndList.

Definition create_auth_message (local_private_key local_public_key ephemeral_private_key nonce remote_public_key : bytes)
    : M nat AuthError bytes :=
  fail_if (negb context_create) AuthError.kSignatureInvalid ;;
  token ← lift (map_err AuthError.kSharedSecretFailed (Ecdh.compute_shared_secret remote_public_key local_private_key));
  let signed_msg := zip_with Z.lxor token nonce in
  match ecdsa_sign_recoverable signed_msg ephemeral_private_key with
  | None => throw AuthError.kSignatureInvalid
  | Some (sig_compact, recid) =>
      let signature := sig_compact ++ [u8 recid] in
      rlp_body ← lift (map_err AuthError.kSignatureInvalid
                         (run_encoder (put_auth signature local_public_key nonce ;; MoveBytes)));
      padding ← fill_random kEip8AuthPaddingSize;
      let rlp_body := rlp_body ++ padding in
      let prefix := eip8_prefix (len rlp_body + kEciesOverheadSize) in
      encrypt (mkEciesEncrypt rlp_body remote_public_key prefix)
  end.

(** What [AuthKeyMaterial keys;] holds before it is assigned, and [FrameSecrets secrets;]. *)
Context (unset : AuthKeyMaterial) (unset_secrets : bytes * bytes).

Definition with_auth_message (m : bytes) (k : AuthKeyMaterial) : AuthKeyMaterial :=
  mkKeyMaterial (peer_public_key k) (peer_ephemeral_public_key k) (local_ephemeral_public_key k)
    (local_ephemeral_private_key k) (initiator_nonce k) (recipient_nonce k) m (recipient_ack_message k).
Definition with_ack_message (m : bytes) (k : AuthKeyMaterial) : AuthKeyMaterial :=
  mkKeyMaterial (peer_public_key k) (peer_ephemeral_public_key k) (local_ephemeral_public_key k)
    (local_ephemeral_private_key k) (initiator_nonce k) (recipient_nonce k) (initiator_auth_message k) m.
Definition with_local_ephemeral (kp : Ecdh.KeyPair) (k : AuthKeyMaterial) : AuthKeyMaterial :=
  mkKeyMaterial (peer_public_key k) (peer_ephemeral_public_key k) (Ecdh.public_key kp) (Ecdh.private_key kp)
    (initiator_nonce k) (recipient_nonce k) (initiator_auth_message k) (recipient_ack_message k).
Definition with_initiator_nonce (n : bytes) (k : AuthKeyMaterial) : AuthKeyMaterial :=
  mkKeyMaterial (peer_public_key k) (peer_ephemeral_public_key k) (local_ephemeral_public_key k)
    (local_ephemeral_private_key k) n (recipient_nonce k) (initiator_auth_message k) (recipient_ack_message k).
Definition with_recipient_nonce (n : bytes) (k : AuthKeyMaterial) : AuthKeyMaterial :=
  mkKeyMaterial (peer_public_key k) (peer_ephemeral_public_key k) (local_ephemeral_public_key k)
    (local_ephemeral_private_key k) (initiator_nonce k) n (initiator_auth_message k) (recipient_ack_message k).
Definition with_peer_key (p : bytes) (k : AuthKeyMaterial) : AuthKeyMaterial :=
  mkKeyMaterial p (peer_ephemeral_public_key k) (local_ephemeral_public_key k)
    (local_ephemeral_private_key k) (initiator_nonce k) (recipient_nonce k) (initiator_auth_message k) (recipient_ack_message k).
Definition with_peer_ephemeral (p : bytes) (k : AuthKeyMaterial) : AuthKeyMaterial :=
  mkKeyMaterial (peer_public_key k) p (local_ephemeral_public_key k)
    (local_ephemeral_private_key k) (initiator_nonce k) (recipient_nonce k) (initiator_auth_message k) (recipient_ack_message k).

(** The fixed layout: signature, hash of the ephemeral key, key, nonce, version. *)
Definition parse_auth_message (encrypted_auth local_private_key shared_mac_data : bytes) : AuthResult AuthKeyMaterial :=
  obind (decrypt (mkEciesDecrypt encrypted_auth local_private_key shared_mac_data)) (fun auth_body =>
  if len auth_body <? kEcdsaSigSize + kNonceSize + kPublicKeySize + kNonceSize + kAuthVersionSize
  then Err AuthError.kInvalidAuthMessage else
  let offset := kEcdsaSigSize + kNonceSize in
  let peer := substr auth_body offset kPublicKeySize in
  let nonce := substr auth_body (offset + kPublicKeySize) kNonceSize in
  Ok (with_auth_message auth_body (with_initiator_nonce nonce (with_peer_key peer
        (mkKeyMaterial (peer_public_key unset) (peer_ephemeral_public_key unset) (local_ephemeral_public_key unset)
           (local_ephemeral_private_key unset) (initiator_nonce unset) (recipient_nonce unset) [] []))))).

Definition create_ack_message (ephemeral_public_key nonce remote_public_key : bytes) : M nat AuthError bytes :=
  let ack_body := ephemeral_public_key ++ nonce ++ [kAuthVersion] in
  encrypt (mkEciesEncrypt ack_body remote_public_key []).

(** The reads of [parse_ack_message]: the ephemeral key and the nonce. *)
Definition read_ack : M bytes AuthError (bytes * bytes) :=
  _ ← with_error AuthError.kInvalidAckMessage ReadListHeaderBytes;
  pubkey_bytes ← with_error AuthError.kInvalidAckMessage read_bytes;
  fail_if (negb (len pubkey_bytes =? kPublicKeySize)) AuthError.kInvalidAckMessage ;;
  nonce_bytes ← with_error AuthError.kInvalidAckMessage read_bytes;
  fail_if (negb (len nonce_bytes =? kNonceSize)) AuthError.kInvalidAckMessage ;;
  mret (pubkey_bytes, nonce_bytes).

(** The key material is only used when this succeeds. *)
Definition parse_ack_message (encrypted_ack local_private_key shared_mac_data : bytes) (keys : AuthKeyMaterial)
    : AuthResult AuthKeyMaterial :=
  obind (decrypt (mkEciesDecrypt encrypted_ack local_private_key shared_mac_data)) (fun ack_plain =>
  obind (fst (read_ack ack_plain)) (fun '(pubkey, nonce) =>
  Ok (with_recipient_nonce nonce (with_peer_ephemeral pubkey keys)))).

(** ** Frame secrets *)

Definition mac_seed_bytes (mac_secret nonce msg : bytes) : bytes := zip_with Z.lxor mac_secret nonce ++ msg.

Definition derive_frame_secrets (keys : AuthKeyMaterial) (is_initiator : bool) : FrameSecrets :=
  match Ecdh.compute_shared_secret (peer_ephemeral_public_key keys) (local_ephemeral_private_key keys) with
  | Ok ecdhe_secret =>
      let nonce_hash := keccak256 (recipient_nonce keys ++ initiator_nonce keys) in
      let shared_secret := keccak256 (ecdhe_secret ++ nonce_hash) in
      let aes_secret := keccak256 (ecdhe_secret ++ shared_secret) in
      let mac_secret := keccak256 (ecdhe_secret ++ aes_secret) in
      let auth_seed := mac_seed_bytes mac_secret (recipient_nonce keys) (initiator_auth_message keys) in
      let ack_seed := mac_seed_bytes mac_secret (initiator_nonce keys) (recipient_ack_message keys) in
      if is_initiator
      then mkSecrets aes_secret mac_secret auth_seed ack_seed
      else mkSecrets aes_secret mac_secret ack_seed auth_seed
  | _ => mkSecrets (fst unset_secrets) (snd unset_secrets) [] []
  end.

(** ** [AuthHandshake::execute] *)

Abbreviation HandshakeM A := (M AuthHandshake SessionError A).

(** A call that draws, and one of the transport; every failure is the same. *)
Definition drawing {E A} (m : M nat E A) : HandshakeM A := fun h =>
  let '(r, i) := m (draws h) in
  (map_err SessionError.kAuthenticationFailed r, mkHandshake (hs_transport h) i).

Definition on_socket {A} (m : M SocketTransport SessionError A) : HandshakeM A := fun h =>
  let '(r, t) := m (hs_transport h) in
  (map_err SessionError.kAuthenticationFailed r, mkHandshake t (draws h)).

(** The local nonce: here the result of [RAND_bytes] is looked at. *)
Definition draw_nonce : M nat SessionError bytes := fun i =>
  (match rand_bytes i kNonceSize with Some n => Ok n | None => Err SessionError.kAuthenticationFailed end, S i).

(** A message after its length. *)
Definition read_packet : HandshakeM (bytes * bytes) :=
  len_bytes ← on_socket (read_exact kEip8LengthPrefixSize);
  let body_len := Z.lor (Z.shiftl (byte_at len_bytes 0) 8) (byte_at len_bytes 1) in
  fail_if (kMaxEip8HandshakePacketSize <? body_len) SessionError.kAuthenticationFailed ;;
  body ← on_socket (read_exact body_len);
  mret (len_bytes, body).

Definition initiate (config : HandshakeConfig) (peer : bytes) (keypair : Ecdh.KeyPair) (local_nonce : bytes)
    : HandshakeM AuthKeyMaterial :=
  auth_ciphertext ← drawing (create_auth_message (local_private_key config) (local_public_key config)
                               (Ecdh.private_key keypair) local_nonce peer);
  let auth_wire := eip8_prefix (len auth_ciphertext) ++ auth_ciphertext in
  on_socket (write_all auth_wire) ;;
  packet ← read_packet;
  let '(len_bytes, ack) := packet in
  let keys := with_ack_message (len_bytes ++ ack) (with_auth_message auth_wire
                (with_initiator_nonce local_nonce (with_local_ephemeral keypair unset))) in
  keys ← lift (map_err SessionError.kAuthenticationFailed
                 (parse_ack_message ack (local_private_key config) len_bytes keys));
  mret (with_peer_key peer keys).

Definition respond (config : HandshakeConfig) (keypair : Ecdh.KeyPair) (local_nonce : bytes) : HandshakeM AuthKeyMaterial :=
  packet ← read_packet;
  let '(len_bytes, auth) := packet in
  keys ← lift (map_err SessionError.kAuthenticationFailed
                 (parse_auth_message auth (local_private_key config) len_bytes));
  let keys := with_recipient_nonce local_nonce (with_local_ephemeral keypair (with_auth_message auth keys)) in
  ack ← drawing (create_ack_message (Ecdh.public_key keypair) local_nonce (peer_public_key keys));
  on_socket (write_all (eip8_prefix (len ack) ++ ack)) ;;
  mret (with_ack_message ack keys).

Definition is_initiator (config : HandshakeConfig) : bool :=
  match config_peer_public_key config with Some _ => true | None => false end.

Definition execute (config : HandshakeConfig) : HandshakeM HandshakeResult :=
  keypair ← drawing (Ecdh.generate_ephemeral_keypair fuel);
  local_nonce ← drawing draw_nonce;
  keys ← match config_peer_public_key config with
         | Some peer => initiate config peer keypair local_nonce
         | None => respond config keypair local_nonce
         end;
  mret {| key_material := keys; frame_secrets := derive_frame_secrets keys (is_initiator config) |}.

(** Placeholders of the class. *)
Definition perform_auth : AuthResult AuthKeyMaterial := Err AuthError.kInvalidAuthMessage.
Definition exchange_hello : SessionResult unit := Err SessionError.kHandshakeFailed.
End handshake.

(** ** ECIES *)

Section ecies.
Context `{SL : Secp256k1Laws} `{OL : OpenSslLaws} (fuel : nat).

Lemma draw_ephemeral_ok j key : forall fuel buf i, (j < fuel)%nat -> finds_key i j key ->
  draw_ephemeral fuel buf i = (Ok key, S (i + j)).
Proof using OL SL.
  induction j as [|j IH]; intros [|fuel'] buf i Hf Hk; try lia; cbn [draw_ephemeral]; change kPrivateKeySize with 32; cbv zeta.
  - apply finds_key_0 in Hk as [-> Hv]. cbn [default from_option id]. by rewrite Hv, Nat.add_0_r.
  - apply finds_key_S in Hk as (k & -> & Hv & Hk). cbn [default from_option id]. rewrite Hv, (IH fuel') by (done || lia). f_equal. lia.
Qed.

Lemma ecies_aes128_ctr_ok d key iv : evp_context = true -> len d < 2 ^ 31 ->
  ecies_aes128_ctr d key iv = aes128_ctr key iv 0 d.
Proof.
  intros He Hd. unfold ecies_aes128_ctr. pose proof (len_nonneg d).
  rewrite He, Aes.int_of_size_small, (proj2 (Z.ltb_ge _ _)) by lia. by rewrite take_len.
Qed.

(** The two ends agree on the secret. *)
Lemma shared_agree a b pa pb : context_create = true -> ec_pubkey_create a = Some pa -> ec_pubkey_create b = Some pb ->
  exists s, is_array 32 s /\ Ecdh.compute_shared_secret (key_id pb) a = Ok s /\ Ecdh.compute_shared_secret (key_id pa) b = Ok s.
Proof using SL.
  intros Hc Ha Hb. destruct (tweak_commutes _ _ _ _ Ha Hb) as (s & H1 & H2).
  assert (ec_seckey_verify a = true) by (apply seckey_pubkey; eauto).
  assert (ec_seckey_verify b = true) by (apply seckey_pubkey; eauto).
  exists (take 32 (drop 1 (ec_pubkey_serialize false s))). split_and!.
  - split; [rewrite length_take, length_drop, (serialize_length false s); done |].
    apply bytes_ok_take, bytes_ok_drop, serialize_octets.
  - by apply compute_shared_secret_ok.
  - by apply compute_shared_secret_ok.
Qed.

(** Decryption of a message by its parts. *)
Lemma decrypt_parts pk iv ct mac k md : len iv = 16 -> len mac = 32 ->
  decrypt (mkEciesDecrypt (ec_pubkey_serialize false pk ++ iv ++ ct ++ mac) k md)
  = obind (compute_shared_secret (key_id pk) k) (fun shared =>
      let '(enc_key, mac_key) := derive_keys shared in
      if negb (bool_decide (mac = mac_of mac_key iv ct md)) then Err AuthError.kEciesDecryptFailed
      else Ok (ecies_aes128_ctr ct enc_key iv)).
Proof using SL.
  intros Hi Hm. pose proof (serialize_length false pk) as He. cbn iota in He.
  assert (len (ec_pubkey_serialize false pk) = 65) as He' by (unfold len; by rewrite He).
  unfold decrypt. cbn [ecies_ciphertext recipient_private_key decrypt_mac_data].
  change kUncompressedPubKeySize with 65. change kAesBlockSize with 16. change kEciesMacSize with 32.
  change kEciesOverheadSize with 113. pose proof (len_nonneg ct).
  rewrite !len_app, He', Hi, Hm. rewrite (proj2 (Z.ltb_ge _ _)) by lia.
  replace (65 + (16 + (len ct + 32)) - 113) with (len ct) by lia.
  pose proof (substr_app [] (ec_pubkey_serialize false pk) (iv ++ ct ++ mac) 0 65 eq_refl He') as E. cbn [app] in E. rewrite E. clear E.
  rewrite (substr_app (ec_pubkey_serialize false pk) iv (ct ++ mac) 65 16) by done.
  assert (substr (ec_pubkey_serialize false pk ++ iv ++ ct ++ mac) (65 + 16) (len ct) = ct) as ->
    by (rewrite app_assoc; apply substr_app; [by rewrite len_app, He', Hi | done]).
  assert (substr (ec_pubkey_serialize false pk ++ iv ++ ct ++ mac) (65 + 16 + len ct) 32 = mac) as ->.
  { rewrite 2 app_assoc, <- (app_nil_r mac) at 1. apply substr_app; [rewrite !len_app; lia | done]. }
  assert (drop (Z.to_nat kUncompressedPubKeyPrefixSize) (ec_pubkey_serialize false pk) = key_id pk) as ->.
  { unfold key_id. change (Z.to_nat kUncompressedPubKeyPrefixSize) with 1%nat. rewrite take_ge; [done |].
    rewrite length_drop, He. done. }
  done.
Qed.

(** What encryption returns, for the owner of [k]. *)
Lemma encrypt_ok text k pk md i j key : context_create = true -> evp_context = true ->
  (j < fuel)%nat -> finds_key i j key -> ec_pubkey_create k = Some pk -> len text < 2 ^ 31 ->
  exists eph shared iv, ec_pubkey_create key = Some eph /\ Ecdh.compute_shared_secret (key_id eph) k = Ok shared
  /\ is_array 16 iv
  /\ encrypt fuel (mkEciesEncrypt text (key_id pk) md) i
     = (let '(enc_key, mac_key) := derive_keys shared in
        let ct := aes128_ctr enc_key iv 0 text in
        Ok (ec_pubkey_serialize false eph ++ iv ++ ct ++ mac_of mac_key iv ct md), S (S (i + j))).
Proof using SL OL.
  intros Hc He Hf Hk Hpk Hl. pose proof Hk as (_ & _ & Hv). destruct (seckey_pair key Hv) as [eph Heph].
  destruct (shared_agree key k eph pk Hc Heph Hpk) as (s & _ & H1 & H2).
  set (iv := default (repeat 0 16) (rand_bytes (S (i + j)) 16)).
  assert (is_array 16 iv) as Hiv.
  { unfold iv. destruct (rand_bytes _ _) as [r|] eqn:E; [by apply rand_array in E | split; [done | octets]]. }
  exists eph, s, iv. split_and!; try done. unfold encrypt. rewrite Hc. cbn [negb]. unfold_m.
  rewrite (draw_ephemeral_ok j key) by done. cbv beta iota. rewrite Heph. unfold compute_shared_secret.
  cbn [recipient_public_key plaintext encrypt_mac_data]. rewrite H1. cbn [map_err].
  destruct (derive_keys s) as [ek mk]. unfold fill_random. change kAesBlockSize with 16. change (Z.to_nat 16) with 16%nat.
  fold iv. by rewrite ecies_aes128_ctr_ok.
Qed.

(** Encryption and decryption, and a wrong MAC. *)
Lemma encrypt_decrypts text k pk md i j key :
  context_create = true -> evp_context = true -> (j < fuel)%nat -> finds_key i j key ->
  ec_pubkey_create k = Some pk -> bytes_ok text -> len text < 2 ^ 31 ->
  exists front mac, encrypt fuel (mkEciesEncrypt text (key_id pk) md) i = (Ok (front ++ mac), S (S (i + j)))
  /\ len mac = 32 /\ len (front ++ mac) = estimate_encrypted_size (len text)
  /\ decrypt (mkEciesDecrypt (front ++ mac) k md) = Ok text
  /\ (forall mac', len mac' = 32 -> mac' <> mac ->
        decrypt (mkEciesDecrypt (front ++ mac') k md) = Err AuthError.kEciesDecryptFailed).
Proof using SL OL.
  intros Hc He Hf Hk Hpk Ho Hl.
  destruct (encrypt_ok text k pk md i j key Hc He Hf Hk Hpk Hl) as (eph & s & iv & Heph & Hs & [Hiv _] & E).
  destruct (derive_keys s) as [ek mk] eqn:Ek. set (ct := aes128_ctr ek iv 0 text) in *.
  assert (len ct = len text) as Hct by (unfold len, ct; by rewrite ctr_length).
  assert (len iv = 16) as Hi by (unfold len; by rewrite Hiv).
  assert (forall m, len (mac_of mk iv ct m) = 32) as Hm
    by (intros m; unfold len, mac_of; by rewrite (proj1 (hmac_array _ _))).
  assert (compute_shared_secret (key_id eph) k = Ok s) as Hcs by (unfold compute_shared_secret; by rewrite Hs).
  exists (ec_pubkey_serialize false eph ++ iv ++ ct), (mac_of mk iv ct md). split_and!.
  - rewrite E. by rewrite <- !app_assoc.
  - apply Hm.
  - rewrite !len_app, Hm, Hi, Hct. unfold estimate_encrypted_size, len at 1. rewrite (serialize_length false eph).
    change kUncompressedPubKeySize with 65. change kAesBlockSize with 16. change kEciesMacSize with 32. lia.
  - rewrite <- !app_assoc, decrypt_parts, Hcs by done. cbn [obind]. rewrite Ek, bool_decide_true by done. cbn [negb].
    rewrite ecies_aes128_ctr_ok by (done || lia). unfold ct. by rewrite ctr_inverse.
  - intros mac' Hm' Hne. rewrite <- !app_assoc, decrypt_parts, Hcs by done. cbn [obind].
    by rewrite Ek, bool_decide_false.
Qed.
(** ECIES. Once the draws give a secret key, a text is encrypted to a message of the estimated
    size, which the owner of the key decrypts to the text with the same authenticated data; with
    any other 32 octets in place of the MAC it is refused, and so is anything too short. *)
Theorem ecies_roundtrip text k pk md i j key :
  context_create = true -> evp_context = true -> (j < fuel)%nat -> finds_key i j key ->
  ec_pubkey_create k = Some pk -> bytes_ok text -> len text < 2 ^ 31 ->
  exists front mac, encrypt fuel (mkEciesEncrypt text (key_id pk) md) i = (Ok (front ++ mac), S (S (i + j)))
  /\ len mac = 32 /\ len (front ++ mac) = estimate_encrypted_size (len text)
  /\ decrypt (mkEciesDecrypt (front ++ mac) k md) = Ok text
  /\ (forall mac', len mac' = 32 -> mac' <> mac ->
        decrypt (mkEciesDecrypt (front ++ mac') k md) = Err AuthError.kEciesDecryptFailed)
  /\ (forall c, len c < estimate_encrypted_size 0 ->
        decrypt (mkEciesDecrypt c k md) = Err AuthError.kEciesDecryptFailed).
Proof using SL OL.
  intros Hc He Hf Hk Hpk Ho Ht.
  destruct (encrypt_decrypts text k pk md i j key Hc He Hf Hk Hpk Ho Ht) as (front & mac & E & Hm & Hl & Hd & Hr).
  exists front, mac. do 4 (split; [assumption |]). split; [exact Hr |].
  intros c Hlc. unfold decrypt. cbn [ecies_ciphertext]. by rewrite (proj2 (Z.ltb_lt _ _)).
Qed.
End ecies.

(** ** The messages *)

Section messages.
Context (keccak256 : bytes -> bytes) `{SL : Secp256k1Laws} `{OL : OpenSslLaws} (fuel : nat).
Context (unset : AuthKeyMaterial) (unset_secrets : bytes * bytes).

Lemma rlp_str_sized s n : len s = n -> 1 < n -> rlp (Str s) = length_prefix false n ++ s.
Proof.
  intros <- Hs. cbn [rlp]. unfold rlp_string. assert (is_literal s = false) as ->; [| done].
  unfold len in Hs. destruct s as [|? [|]]; [done | cbn in Hs; lia | done].
Qed.

(** [authMsgV4], and its encoding. *)
Definition auth_item (sig pub nonce : bytes) : item := Lst [Str sig; Str pub; Str nonce; uint_item 4].

Lemma rlp_auth_item sig pub nonce : is_array 65 sig -> is_array 64 pub -> is_array 32 nonce ->
  rlp (auth_item sig pub nonce)
  = [0xf8; 0xa7] ++ ([0xb8; 0x41] ++ sig) ++ ([0xb8; 0x40] ++ pub) ++ ([0xa0] ++ nonce) ++ [4].
Proof.
  intros [Hs _] [Hp _] [Hn _].
  assert (rlps [Str sig; Str pub; Str nonce; uint_item 4]
          = ([0xb8; 0x41] ++ sig) ++ ([0xb8; 0x40] ++ pub) ++ ([0xa0] ++ nonce) ++ [4]) as E.
  { rewrite !rlps_cons. rewrite (rlp_str_sized sig 65), (rlp_str_sized pub 64), (rlp_str_sized nonce 32)
      by (unfold len; rewrite ?Hs, ?Hp, ?Hn; done). done. }
  unfold auth_item. change (rlp (Lst ?l)) with (rlp_list (rlps l)). unfold rlp_list. rewrite E.
  f_equal. rewrite !len_app. unfold len. rewrite Hs, Hp, Hn. done.
Qed.

Lemma length_auth_item sig pub nonce : is_array 65 sig -> is_array 64 pub -> is_array 32 nonce ->
  len (rlp (auth_item sig pub nonce)) = 169.
Proof.
  intros Hs Hp Hn. rewrite rlp_auth_item by done. destruct Hs as [Hs _], Hp as [Hp _], Hn as [Hn _].
  rewrite !len_app. unfold len. rewrite Hs, Hp, Hn. done.
Qed.

(** The prefix is the length. *)
Lemma eip8_prefix_value n : 0 <= n < 2 ^ 16 ->
  Z.lor (Z.shiftl (byte_at (eip8_prefix n) 0) 8) (byte_at (eip8_prefix n) 1) = n.
Proof.
  intros Hn. unfold eip8_prefix. rewrite byte_at_0, byte_at_1.
  assert (u16 n = n) as -> by (unfold u16; apply Z.mod_small; lia).
  change 0xFF with (Z.ones 8). rewrite Z.land_ones, Z.shiftr_div_pow2, Z.shiftl_mul_pow2 by lia. change (2 ^ 8) with 256.
  unfold u8. rewrite Z.mod_mod by lia. assert (0 <= n / 256 < 256) by (split; [apply Z.div_pos | apply Z.div_lt_upper_bound]; lia).
  rewrite (Z.mod_small (n / 256)) by lia. change 256 with (2 ^ 8) at 2.
  rewrite (lor_add _ _ 8); [pose proof (Z.div_mod n 256); lia | lia | apply Z.mod_mul; lia | apply Z.mod_pos_bound; lia].
Qed.

Lemma xor_array n u v : is_array n u -> is_array n v -> is_array n (zip_with Z.lxor u v).
Proof.
  intros [Hu Hou] [Hv Hov]. split; [rewrite length_zip_with; lia |].
  clear n Hu Hv. revert v Hov. induction Hou as [|a u Ha Hu IH]; intros v Hv; [constructor |].
  destruct Hv as [|b v Hb Hv]; [constructor |]. constructor; [| by apply IH].
  unfold uint8 in *. change 256 with (2 ^ 8) in *.
  assert (Z.lxor a b = Z.lxor a b mod 2 ^ 8) as ->; [| apply Z.mod_pos_bound; lia].
  rewrite <- Z.land_ones by lia. apply Z.bits_inj'. intros i Hi. rewrite Z.land_spec, Z.lxor_spec.
  destruct (Z.ltb_spec i 8); [rewrite Z.ones_spec_low by lia; by rewrite andb_true_r |].
  rewrite <- (Z.mod_small a (2 ^ 8)), <- (Z.mod_small b (2 ^ 8)) by lia.
  by rewrite !Z.mod_pow2_bits_high by lia.
Qed.

Lemma rand_or_zeros i n : 0 <= n -> is_array (Z.to_nat n) (default (repeat 0 (Z.to_nat n)) (rand_bytes i n)).
Proof using OL.
  intros Hn. destruct (rand_bytes i n) as [r|] eqn:E; [by apply rand_array in E |].
  split; [apply repeat_length |]. apply List.Forall_forall. intros x Hx. by apply repeat_spec in Hx as ->.
Qed.

(** The owner of [sig], a compact signature and a recovery id, is found from what was signed. *)
Definition recovers (sig digest : bytes) (pk : Pubkey) : Prop := exists compact recid,
  sig = compact ++ [recid] /\ recoverable_parse_compact compact recid = true /\ ecdsa_recover compact recid digest = Some pk.

(** The auth message, as the owner of the remote key sees it. *)
Lemma create_auth_ok k pk rk rpk ek nonce i j key :
  context_create = true -> evp_context = true -> (j < fuel)%nat -> finds_key (S i) j key ->
  ec_pubkey_create k = Some pk -> ec_pubkey_create rk = Some rpk -> ec_seckey_verify ek = true -> is_array 32 nonce ->
  exists sig padding auth,
    create_auth_message fuel k (key_id pk) ek nonce (key_id rpk) i = (Ok auth, S (S (S i + j)))
    /\ is_array 65 sig /\ is_array 100 padding /\ len auth = 382
    /\ (exists token, Ecdh.compute_shared_secret (key_id pk) rk = Ok token
         /\ forall epk, ec_pubkey_create ek = Some epk -> recovers sig (zip_with Z.lxor token nonce) epk)
    /\ decrypt (mkEciesDecrypt auth rk (eip8_prefix (len auth)))
       = Ok (rlp (auth_item sig (key_id pk) nonce) ++ padding).
Proof using SL OL.
  intros Hc He Hf Hk Hpk Hrk Hek Hn.
  destruct (shared_agree k rk pk rpk Hc Hpk Hrk) as (token & Ht & Hs & Hs').
  set (padding := default (repeat 0 100) (rand_bytes i 100)).
  assert (is_array 100 padding) as Hp by by apply (rand_or_zeros i 100).
  destruct (seckey_signs (zip_with Z.lxor token nonce) ek Hek) as [[compact recid] Hsig].
  destruct (sign_length _ _ _ _ Hsig) as [Hcl Hco]. pose proof (sign_recid _ _ _ _ Hsig) as Hr.
  assert (u8 recid = recid) as Hu8 by (apply Z.mod_small; lia). set (sig := compact ++ [u8 recid]).
  assert (is_array 65 sig) as Hsa.
  { split; [unfold sig; rewrite length_app, Hcl; done |]. apply bytes_ok_app. split; [done |].
    constructor; [apply Z.mod_pos_bound; lia | constructor]. }
  pose proof (proj2 (parse_key_id pk)) as Hpub. pose proof (length_auth_item sig (key_id pk) nonce Hsa Hpub Hn) as Hl.
  set (body := rlp (auth_item sig (key_id pk) nonce) ++ padding).
  assert (len body = 269) as Hb by (unfold body; rewrite len_app, Hl; unfold len; by rewrite (proj1 Hp)).
  assert (bytes_ok body) as Hbo.
  { apply bytes_ok_app. split; [| by destruct Hp]. apply rlp_ok; [| lia].
    apply item_ok_Lst. repeat (apply List.Forall_cons; [solve [auto with octets | by destruct Hsa | by destruct Hpub | by destruct Hn] |]).
    constructor. }
  destruct (encrypt_decrypts fuel body rk rpk (eip8_prefix 382) (S i) j key Hc He Hf Hk Hrk Hbo ltac:(lia))
    as (front & mac & Henc & _ & Hel & Hdec & _).
  exists sig, padding, (front ++ mac). rewrite Hb in Hel. change (estimate_encrypted_size 269) with 382 in Hel.
  rewrite Hel. split_and!; try done; [| exists token; split; [done |]; intros epk Hepk; exists compact, recid; destruct (sign_recover _ _ _ _ _ Hsig Hepk); split_and!; [unfold sig; by rewrite Hu8 | done | done]].
  assert (run_encoder (put_auth sig (key_id pk) nonce ;; MoveBytes) = Ok (rlp (auth_item sig (key_id pk) nonce))) as Hrun.
  { apply run_encoder_moves; [| lia]. apply appends_begin_end.
    do 3 (rewrite rlps_cons; apply appends_bind; [apply appends_add_bytes |]).
    rewrite <- rlps_one. apply appends_add_integral; [auto with appends | by split]. }
  unfold create_auth_message. rewrite Hc. cbn [negb]. unfold_m. rewrite Hs. cbn [map_err]. rewrite Hsig. fold sig.
  rewrite Hrun. cbn [map_err]. unfold fill_random. change kEip8AuthPaddingSize with 100.
  change (Z.to_nat 100) with 100%nat. fold padding.
  fold body. rewrite Hb. change (269 + kEciesOverheadSize) with 382. exact Henc.
Qed.
(** ** Frame secrets *)

(** The two sides' material: each has the other's ephemeral key, and they have the same nonces and
    messages. *)
Record same_handshake (init resp : AuthKeyMaterial) : Prop := {
  same_init_eph : exists pk, ec_pubkey_create (local_ephemeral_private_key init) = Some pk
                   /\ peer_ephemeral_public_key resp = key_id pk;
  same_resp_eph : exists pk, ec_pubkey_create (local_ephemeral_private_key resp) = Some pk
                   /\ peer_ephemeral_public_key init = key_id pk;
  same_init_nonce : initiator_nonce init = initiator_nonce resp;
  same_resp_nonce : recipient_nonce init = recipient_nonce resp;
  same_auth : initiator_auth_message init = initiator_auth_message resp;
  same_ack : recipient_ack_message init = recipient_ack_message resp
}.

(** Ciphers made from the secrets are in step both ways. *)
Lemma frame_secrets_synced init resp : context_create = true -> same_handshake init resp ->
  let a := new_cipher (derive_frame_secrets keccak256 unset_secrets init true) in
  let b := new_cipher (derive_frame_secrets keccak256 unset_secrets resp false) in
  synced a b /\ synced b a.
Proof using SL.
  intros Hc [(pa & Ha & Ea) (pb & Hb & Eb) E1 E2 E3 E4].
  destruct (shared_agree _ _ _ _ Hc Ha Hb) as (s & _ & H1 & H2).
  unfold derive_frame_secrets. rewrite Ea, Eb, H1, H2, E1, E2, E3, E4. by repeat split.
Qed.

(** ** The initiator *)

(** From draw [i] on: the ephemeral key, the nonce, the padding and the key of the encryption,
    each found; the next draw is [i']. *)
Definition initiator_draws (i : nat) (ek nonce : bytes) (i' : nat) : Prop :=
  exists j j' key, (j < fuel)%nat /\ (j' < fuel)%nat /\ finds_key i j ek
  /\ rand_bytes (S (i + j)) 32 = Some nonce /\ finds_key (S (S (S (i + j)))) j' key
  /\ i' = S (S (S (S (S (i + j))) + j')).

Lemma on_socket_read t i b rest : fault t = None -> incoming t = b ++ rest ->
  on_socket (read_exact (len b)) (mkHandshake t i)
  = (Ok b, mkHandshake (mkTransport rest (outgoing t) None (is_open t)) i).
Proof.
  intros Hf Hi. pose proof (len_nonneg rest). unfold on_socket, read_exact. cbn [hs_transport draws]. rewrite Hf, Hi.
  rewrite (proj2 (Z.ltb_ge _ _)) by (rewrite len_app; lia). by rewrite take_len_app, drop_len_app.
Qed.

Lemma read_packet_ok t i body rest :
  fault t = None -> incoming t = eip8_prefix (len body) ++ body ++ rest -> len body <= 2048 ->
  read_packet (mkHandshake t i)
  = (Ok (eip8_prefix (len body), body), mkHandshake (mkTransport rest (outgoing t) None (is_open t)) i).
Proof.
  intros Hf Hi Hl. pose proof (len_nonneg body). pose proof (eip8_prefix_value (len body) ltac:(lia)) as Hv.
  unfold read_packet. change kEip8LengthPrefixSize with (len (eip8_prefix (len body))).
  erewrite bind_ok by (by apply on_socket_read). cbv zeta. rewrite Hv.
  change kMaxEip8HandshakePacketSize with 2048. rewrite (proj2 (Z.ltb_ge _ _)) by lia.
  erewrite bind_ok by done. by erewrite bind_ok by (by apply on_socket_read).
Qed.

Lemma read_ack_ok p n more pad : is_array 64 p -> is_array 32 n ->
  bytes_ok (rlp (Lst (Str p :: Str n :: more)) ++ pad) -> len (rlp (Lst (Str p :: Str n :: more))) < 2 ^ 64 ->
  fst (read_ack (rlp (Lst (Str p :: Str n :: more)) ++ pad)) = Ok (p, n).
Proof.
  intros [Hp Hpo] [Hn Hno] Hok Hl. change (rlp (Lst (Str p :: Str n :: more))) with (rlp_list (rlps (Str p :: Str n :: more))) in *.
  unfold read_ack, with_error. unfold_m. rewrite ReadListHeaderBytes_list by done. cbn [map_err].
  unfold rlp_list in Hok. rewrite <- app_assoc in Hok. apply bytes_ok_app in Hok as [_ Hok].
  rewrite !rlps_cons, <- !app_assoc in *. pose proof (rlp_str_len p) as H1. pose proof (rlp_str_len n) as H2.
  unfold len in H1, H2 at 1. rewrite (reads_read_bytes p); [| unfold len in *; lia | done].
  cbn [map_err]. unfold len at 1. rewrite Hp. change (negb (Z.of_nat 64 =? kPublicKeySize)) with false. cbv iota beta.
  apply bytes_ok_app in Hok as [_ Hok]. rewrite (reads_read_bytes n); [| unfold len in *; lia | done].
  cbn [map_err]. unfold len. by rewrite Hn.
Qed.

(** C16: the initiator's handshake. Its auth message reaches the owner of the remote key as
    EIP-8 has it: a list of a signature, the initiator's key, the nonce and the version 4, before
    100 octets of padding; and the signature is over the static shared secret, which the owner computes from
    its own key and the key in the list, xor the nonce in the list, so that the owner recovers the
    initiator's ephemeral key from it. Whenever the peer answers with a list that starts with its ephemeral
    key and a nonce, encrypted to the initiator and authenticated with its length, in at most 2048
    octets, the handshake succeeds and takes only that answer from the socket, and the ciphers
    of the two sides are in step both ways. *)
Theorem initiator_completes config pk rk rpk i ek nonce i' :
  context_create = true -> evp_context = true -> initiator_draws i ek nonce i' ->
  ec_pubkey_create (local_private_key config) = Some pk -> local_public_key config = key_id pk ->
  ec_pubkey_create rk = Some rpk -> config_peer_public_key config = Some (key_id rpk) ->
  exists epk sig padding auth,
    ec_pubkey_create ek = Some epk /\ is_array 65 sig /\ is_array 100 padding
    /\ (exists token, Ecdh.compute_shared_secret (key_id pk) rk = Ok token /\ recovers sig (zip_with Z.lxor token nonce) epk)
    /\ decrypt (mkEciesDecrypt auth rk (eip8_prefix (len auth))) = Ok (rlp (auth_item sig (key_id pk) nonce) ++ padding)
    /\ forall t kr pr rnonce more pad ack rest,
      fault t = None -> incoming t = eip8_prefix (len ack) ++ ack ++ rest -> len ack <= 2048 ->
      ec_pubkey_create kr = Some pr -> is_array 32 rnonce ->
      bytes_ok (rlp (Lst (Str (key_id pr) :: Str rnonce :: more)) ++ pad) ->
      len (rlp (Lst (Str (key_id pr) :: Str rnonce :: more))) < 2 ^ 64 ->
      decrypt (mkEciesDecrypt ack (local_private_key config) (eip8_prefix (len ack)))
        = Ok (rlp (Lst (Str (key_id pr) :: Str rnonce :: more)) ++ pad) ->
      let auth_wire := eip8_prefix (len auth) ++ auth in
      let ack_wire := eip8_prefix (len ack) ++ ack in
      let resp := mkKeyMaterial (key_id pk) (key_id epk) (key_id pr) kr nonce rnonce auth_wire ack_wire in
      exists res, execute keccak256 fuel unset unset_secrets config (mkHandshake t i)
        = (Ok res, mkHandshake (mkTransport rest (outgoing t ++ auth_wire) None (is_open t)) i')
      /\ peer_public_key (key_material res) = key_id rpk
      /\ synced (new_cipher (frame_secrets res)) (new_cipher (derive_frame_secrets keccak256 unset_secrets resp false))
      /\ synced (new_cipher (derive_frame_secrets keccak256 unset_secrets resp false)) (new_cipher (frame_secrets res)).
Proof using SL OL.
  intros Hc He (j & j' & key & Hj & Hj' & Hek & Hnonce & Hkey & ->) Hpk Epub Hrk Epeer.
  pose proof Hek as (_ & _ & Hvek). destruct (seckey_pair ek Hvek) as [epk Hepk].
  pose proof (rand_array _ _ _ Hnonce) as Hna. change (Z.to_nat 32) with 32%nat in Hna.
  destruct (create_auth_ok (local_private_key config) pk rk rpk ek nonce (S (S (i + j))) j' key Hc He Hj' Hkey Hpk Hrk Hvek Hna)
    as (sig & padding & auth & Hauth & Hsig & Hpad & Hla & (token & Htok & Hrec) & Hdec).
  exists epk, sig, padding, auth. split_and!; try done; [exists token; split; [done | by apply Hrec] |].
  intros t kr pr rnonce more pad ack rest Hf Hi Hl Hkr Hrn Hok Hal Hack auth_wire ack_wire resp.
  set (keys := mkKeyMaterial (key_id rpk) (key_id pr) (key_id epk) ek nonce rnonce auth_wire ack_wire).
  exists {| key_material := keys; frame_secrets := derive_frame_secrets keccak256 unset_secrets keys true |}.
  assert (same_handshake keys resp) as Hsame by (split; cbn; eauto).
  destruct (frame_secrets_synced _ _ Hc Hsame) as [H1 H2]. split_and!; try done.
  assert (Ecdh.generate_ephemeral_keypair fuel i = (Ok (Ecdh.mkKeyPair (key_id epk) ek), S (i + j))) as Hgen.
  { unfold Ecdh.generate_ephemeral_keypair. rewrite Hc. cbn [negb]. unfold_m.
    rewrite (draw_private_key_ok j ek) by done. by rewrite Hepk. }
  unfold execute. erewrite bind_ok by (unfold drawing; cbn [draws]; rewrite Hgen; reflexivity).
  erewrite bind_ok by (unfold drawing, draw_nonce; cbn [draws]; change kNonceSize with 32; rewrite Hnonce; reflexivity).
  rewrite Epeer. assert (is_initiator config = true) as -> by (unfold is_initiator; by rewrite Epeer).
  cbn [hs_transport]. erewrite bind_ok; [reflexivity |]. unfold initiate. cbn [Ecdh.private_key]. rewrite Epub.
  erewrite bind_ok by (unfold drawing; cbn [draws]; rewrite Hauth; reflexivity). fold auth_wire. cbn [hs_transport].
  erewrite bind_ok by (unfold on_socket, write_all; cbn [hs_transport]; rewrite Hf; reflexivity). cbn [draws].
  erewrite bind_ok by (apply read_packet_ok; [reflexivity | exact Hi | done]). fold ack_wire. cbv beta iota zeta.
  erewrite bind_ok by (unfold lift, parse_ack_message; rewrite Hack; cbn [obind];
    rewrite read_ack_ok by (done || apply parse_key_id); reflexivity). reflexivity.
Qed.
(** ** The responder *)

(** The fields at the offsets of the fixed layout, when the octets are those of the list. *)
Lemma fixed_layout sig p1 p2 n1 n2 pad :
  length sig = 65%nat -> length p1 = 26%nat -> length p2 = 38%nat -> length n1 = 25%nat -> length n2 = 7%nat ->
  len pad = 100 ->
  let body := ([0xf8; 0xa7] ++ ([0xb8; 0x41] ++ sig) ++ ([0xb8; 0x40] ++ p1 ++ p2) ++ ([0xa0] ++ n1 ++ n2) ++ [4]) ++ pad in
  substr body 97 64 = p2 ++ [0xa0] ++ n1 /\ substr body 161 32 = n2 ++ [4] ++ take 24 pad.
Proof.
  intros Hs H1 H2 H3 H4 Hp body. split.
  - assert (body = ([0xf8; 0xa7] ++ [0xb8; 0x41] ++ sig ++ [0xb8; 0x40] ++ p1) ++ (p2 ++ [0xa0] ++ n1) ++ (n2 ++ [4] ++ pad))
      as -> by (unfold body; by rewrite <- !app_assoc).
    apply substr_app; unfold len; rewrite !length_app, ?Hs, ?H1, ?H2, ?H3; done.
  - assert (body = ([0xf8; 0xa7] ++ [0xb8; 0x41] ++ sig ++ [0xb8; 0x40] ++ p1 ++ p2 ++ [0xa0] ++ n1)
                   ++ (n2 ++ [4] ++ take 24 pad) ++ drop 24 pad)
      as -> by (unfold body; rewrite <- !app_assoc; by rewrite take_drop).
    apply substr_app; unfold len in *; rewrite !length_app, ?length_take, ?Hs, ?H1, ?H2, ?H3, ?H4; [done |].
    change (length [4]) with 1%nat. lia.
Qed.

(** the responder misreads the auth message. The initiator sends a list of RLP items; the
    responder takes the fields at the offsets of a fixed layout. It accepts the message, but what
    it takes for the initiator's key is the end of that key, the header of the nonce and the
    beginning of the nonce; what it takes for the nonce is the rest of the nonce, the version and
    padding; and it has no ephemeral key of the peer, only what was in the unassigned field. *)
Theorem responder_misreads_auth k pk rk rpk ek nonce i j key :
  context_create = true -> evp_context = true -> (j < fuel)%nat -> finds_key (S i) j key ->
  ec_pubkey_create k = Some pk -> ec_pubkey_create rk = Some rpk -> ec_seckey_verify ek = true -> is_array 32 nonce ->
  exists padding auth keys,
    create_auth_message fuel k (key_id pk) ek nonce (key_id rpk) i = (Ok auth, S (S (S i + j)))
    /\ parse_auth_message unset auth rk (eip8_prefix (len auth)) = Ok keys
    /\ peer_public_key keys = drop 26 (key_id pk) ++ [0xa0] ++ take 25 nonce
    /\ initiator_nonce keys = drop 25 nonce ++ [4] ++ take 24 padding
    /\ peer_ephemeral_public_key keys = peer_ephemeral_public_key unset.
Proof using SL OL.
  intros Hc He Hf Hk Hpk Hrk Hek Hn.
  destruct (create_auth_ok k pk rk rpk ek nonce i j key Hc He Hf Hk Hpk Hrk Hek Hn)
    as (sig & padding & auth & Hauth & Hsig & Hpad & Hla & _ & Hdec).
  pose proof (proj2 (parse_key_id pk)) as Hpub.
  exists padding, auth. eexists. split; [exact Hauth |]. unfold parse_auth_message. rewrite Hdec. cbn [obind].
  rewrite len_app, length_auth_item by done. assert (len padding = 100) as Hp100 by (unfold len; by rewrite (proj1 Hpad)).
  rewrite Hp100. change (169 + 100 <? _) with false. cbv iota. split; [reflexivity |].
  cbn [peer_public_key initiator_nonce peer_ephemeral_public_key with_auth_message with_initiator_nonce with_peer_key].
  rewrite rlp_auth_item by done. destruct Hsig as [Hs _], Hpub as [Hpl _], Hn as [Hn _].
  destruct (fixed_layout sig (take 26 (key_id pk)) (drop 26 (key_id pk)) (take 25 nonce) (drop 25 nonce) padding)
    as [H1 H2]; try done; try (rewrite ?length_take, ?length_drop; lia). rewrite !take_drop in H1, H2.
  by split_and!.
Qed.

(** the two sides of the library do not meet. The responder authenticates its answer without
    the length that goes before it, and the initiator checks it with that length: unless the
    digests of the two happen to be equal, the initiator refuses the answer. *)
Theorem own_ack_refused k pk eph nonce keys i j key :
  context_create = true -> evp_context = true -> (j < fuel)%nat -> finds_key i j key ->
  ec_pubkey_create k = Some pk -> is_array 64 eph -> is_array 32 nonce ->
  exists ack mac_key data,
    create_ack_message fuel eph nonce (key_id pk) i = (Ok ack, S (S (i + j)))
    /\ (hmac_sha256 mac_key data <> hmac_sha256 mac_key (data ++ eip8_prefix (len ack)) ->
        parse_ack_message ack k (eip8_prefix (len ack)) keys = Err AuthError.kEciesDecryptFailed).
Proof using SL OL.
  intros Hc He Hf Hk Hpk [Hel _] [Hnl _].
  assert (len (eph ++ nonce ++ [kAuthVersion]) < 2 ^ 31) as Hl
    by (rewrite !len_app; unfold len; rewrite Hel, Hnl; done).
  destruct (encrypt_ok fuel (eph ++ nonce ++ [kAuthVersion]) k pk [] i j key Hc He Hf Hk Hpk Hl)
    as (e & s & iv & He' & Hs & [Hiv _] & E).
  unfold create_ack_message. rewrite E. destruct (derive_keys s) as [ek mk] eqn:Ek.
  set (ct := aes128_ctr ek iv 0 _) in *.
  eexists _, mk, (iv ++ ct). split; [reflexivity |]. intros Hne. unfold parse_ack_message.
  rewrite decrypt_parts; [| unfold len; by rewrite Hiv | unfold len, mac_of; by rewrite (proj1 (hmac_array _ _))].
  unfold compute_shared_secret. rewrite Hs. cbn [map_err obind]. rewrite Ek. rewrite bool_decide_false; [done |].
  unfold mac_of at 1. rewrite app_nil_r. unfold mac_of. rewrite app_assoc. done.
Qed.
(** ** Failures *)

(** Every error of a computation is [e]. *)
Definition fails_only {St E A} (e : E) (m : M St E A) : Prop := forall s e' s', m s = (Err e', s') -> e' = e.

Lemma fails_bind {St E A B} (e : E) (m : M St E A) (f : A -> M St E B) :
  fails_only e m -> (forall a, fails_only e (f a)) -> fails_only e (m ≫= f).
Proof.
  intros Hm Hf s e' s'. unfold mbind, M_bind. destruct (m s) as [[a|e1|] s1] eqn:E1; intros H.
  - by eapply Hf.
  - simplify_eq. by eapply Hm.
  - done.
Qed.

Lemma fails_ret {St E A} (e : E) (a : A) : fails_only (St := St) e (mret a).
Proof. done. Qed.
Lemma fails_fail_if {St E} b (e : E) : fails_only (St := St) e (fail_if b e).
Proof. intros s e' s'. unfold fail_if. unfold_m. destruct b; congruence. Qed.
Lemma fails_drawing {E A} (m : M nat E A) : fails_only SessionError.kAuthenticationFailed (drawing m).
Proof. intros s e' s'. unfold drawing. destruct (m (draws s)) as [[|?|] ?]; cbn; congruence. Qed.
Lemma fails_socket {A} (m : M SocketTransport SessionError A) : fails_only SessionError.kAuthenticationFailed (on_socket m).
Proof. intros s e' s'. unfold on_socket. destruct (m (hs_transport s)) as [[|?|] ?]; cbn; congruence. Qed.
Lemma fails_lift {St E E' A} (e : E') (r : outcome E A) : fails_only (St := St) e (lift (map_err e r)).
Proof. intros s e' s'. unfold lift. destruct r; cbn; congruence. Qed.

Create HintDb fails.
Hint Resolve fails_ret fails_fail_if fails_drawing fails_socket fails_lift : fails.
Local Ltac fails := repeat first [apply fails_bind; [| intros ?] | solve [auto with fails] | case_match].

Lemma fails_read_packet : fails_only SessionError.kAuthenticationFailed read_packet.
Proof. unfold read_packet. fails. Qed.
Hint Resolve fails_read_packet : fails.

(** failures. Whatever goes wrong, [execute] has one error; and an announced length above 2048 is
    refused before any of the octets after it is read. *)
Theorem execute_fails_closed config h e h' a b rest :
  (execute keccak256 fuel unset unset_secrets config h = (Err e, h') -> e = SessionError.kAuthenticationFailed)
  /\ (fault (hs_transport h) = None -> incoming (hs_transport h) = [a; b] ++ rest ->
      2048 < Z.lor (Z.shiftl a 8) b ->
      read_packet h = (Err SessionError.kAuthenticationFailed,
                       mkHandshake (mkTransport rest (outgoing (hs_transport h)) None (is_open (hs_transport h))) (draws h))).
Proof.
  split.
  - unfold execute. revert h e h'. change (fails_only SessionError.kAuthenticationFailed
      (execute keccak256 fuel unset unset_secrets config)).
    unfold execute, initiate, respond. fails.
  - intros Hf Hi Hl. unfold read_packet. destruct h as [t i]. cbn [hs_transport] in *.
    change kEip8LengthPrefixSize with (len [a; b]). erewrite bind_ok by (by apply on_socket_read).
    cbv zeta. rewrite byte_at_0, byte_at_1. change kMaxEip8HandshakePacketSize with 2048.
    rewrite (proj2 (Z.ltb_lt _ _)) by done. by erewrite bind_err by done.
Qed.
End messages.

(** ** Witnesses *)

#[local] Existing Instances ToySecp.toy ToySecp.toy_laws ToySsl.toy ToySsl.toy_laws.

Module HandshakeSample.
Definition node : Pubkey := ToySecp.odd_key.
Definition config : HandshakeConfig := mkHandshakeConfig (key_id node) (repeat 1 32) (Some (key_id node)).
Definition unset : AuthKeyMaterial := mkKeyMaterial (repeat 0xcc 64) (repeat 0xcc 64) (repeat 0xcc 64) (repeat 0xcc 32)
  (repeat 0xcc 32) (repeat 0xcc 32) [] [].
Definition unset_secrets : bytes * bytes := (repeat 0xcc 32, repeat 0xcc 32).
(** The peer's answer. *)
Definition answer : bytes := rlp (Lst [Str (key_id node); Str (repeat 6 32); uint_item 4]).
Definition ack : bytes :=
  match fst (encrypt 1 (mkEciesEncrypt answer (key_id node) (eip8_prefix 215)) 9%nat) with Ok c => c | _ => [] end.
Definition transport : SocketTransport := mkTransport (eip8_prefix 215 ++ ack ++ [7]) [] None true.
Lemma finds i : finds_key i 0 (repeat (u8 (Z.of_nat (i + 0) + 1)) 32).
Proof. split; [lia | done]. Qed.
End HandshakeSample.

Lemma ecies_roundtrip_witness :
  exists front mac, encrypt 1 (mkEciesEncrypt [1; 2; 3] (key_id HandshakeSample.node) [0; 9]) 0%nat = (Ok (front ++ mac), 2%nat)
  /\ decrypt (mkEciesDecrypt (front ++ mac) (repeat 1 32) [0; 9]) = Ok [1; 2; 3].
Proof.
  destruct (ecies_roundtrip (SL := ToySecp.toy_laws) (OL := ToySsl.toy_laws) 1 [1; 2; 3] (repeat 1 32) HandshakeSample.node [0; 9] 0 0 _ eq_refl eq_refl ltac:(lia)
    (HandshakeSample.finds 0) eq_refl ltac:(octets) eq_refl) as (front & mac & H1 & _ & _ & H2 & _).
  by exists front, mac.
Defined.

Lemma initiator_completes_witness :
  exists res h, execute ToySsl.digest 1 HandshakeSample.unset HandshakeSample.unset_secrets HandshakeSample.config
                  (mkHandshake HandshakeSample.transport 0) = (Ok res, h)
  /\ incoming (hs_transport h) = [7] /\ peer_public_key (key_material res) = key_id HandshakeSample.node.
Proof.
  destruct (initiator_completes (SL := ToySecp.toy_laws) (OL := ToySsl.toy_laws) ToySsl.digest 1 HandshakeSample.unset HandshakeSample.unset_secrets HandshakeSample.config
    HandshakeSample.node (repeat 3 32) HandshakeSample.node 0 (repeat 1 32) (repeat 2 32) 5) as (epk & sig & padding & auth & _ & _ & _ & _ & _ & H);
    try reflexivity.
  - exists 0%nat, 0%nat. eexists. split_and!; [lia | lia | exact (HandshakeSample.finds 0) | reflexivity
      | exact (HandshakeSample.finds 3) | reflexivity].
  - destruct (H HandshakeSample.transport (repeat 5 32) HandshakeSample.node (repeat 6 32) [uint_item 4] [] HandshakeSample.ack [7])
      as (res & H1 & H2 & _).
    + vm_compute; reflexivity.
    + vm_compute; reflexivity.
    + vm_compute; congruence.
    + vm_compute; reflexivity.
    + octets.
    + octets.
    + vm_compute; reflexivity.
    + vm_compute; reflexivity.
    + eexists res, _. split; [exact H1 |]. split; [reflexivity | exact H2].
Defined.

Lemma responder_misreads_auth_witness :
  exists auth keys,
    create_auth_message 1 (repeat 1 32) (key_id HandshakeSample.node) (repeat 5 32) (repeat 6 32) (key_id HandshakeSample.node) 0%nat
      = (Ok auth, 3%nat)
    /\ parse_auth_message HandshakeSample.unset auth (repeat 1 32) (eip8_prefix (len auth)) = Ok keys
    /\ peer_public_key keys <> key_id HandshakeSample.node.
Proof.
  destruct (responder_misreads_auth (SL := ToySecp.toy_laws) (OL := ToySsl.toy_laws) 1 HandshakeSample.unset (repeat 1 32) HandshakeSample.node (repeat 1 32) HandshakeSample.node
    (repeat 5 32) (repeat 6 32) 0 0 _ eq_refl eq_refl ltac:(lia) (HandshakeSample.finds 1) eq_refl eq_refl eq_refl ltac:(octets))
    as (padding & auth & keys & H1 & H2 & H3 & _).
  exists auth, keys. split_and!; [exact H1 | exact H2 |]. rewrite H3. vm_compute. congruence.
Defined.

Lemma own_ack_refused_witness :
  exists ack, create_ack_message 1 (repeat 5 64) (repeat 6 32) (key_id HandshakeSample.node) 0%nat = (Ok ack, 2%nat)
  /\ parse_ack_message ack (repeat 1 32) (eip8_prefix (len ack)) HandshakeSample.unset = Err AuthError.kEciesDecryptFailed.
Proof.
  destruct (own_ack_refused (SL := ToySecp.toy_laws) (OL := ToySsl.toy_laws) 1 (repeat 1 32) HandshakeSample.node (repeat 5 64) (repeat 6 32) HandshakeSample.unset 0 0 _
    eq_refl eq_refl ltac:(lia) (HandshakeSample.finds 0) eq_refl ltac:(octets) ltac:(octets)) as (ack & mk & data & H1 & _).
  exists ack. split; [exact H1 |]. vm_compute in H1. injection H1 as <-. vm_compute. reflexivity.
Defined.

Lemma execute_fails_closed_witness :
  read_packet (mkHandshake (mkTransport [8; 1; 9] [] None true) 0)
  = (Err SessionError.kAuthenticationFailed, mkHandshake (mkTransport [9] [] None true) 0).
Proof.
  exact (proj2 (execute_fails_closed ToySsl.digest 1 HandshakeSample.unset HandshakeSample.unset_secrets HandshakeSample.config
    (mkHandshake (mkTransport [8; 1; 9] [] None true) 0) SessionError.kAuthenticationFailed
    (mkHandshake HandshakeSample.transport 0) 8 1 [9]) eq_refl eq_refl eq_refl).
Defined.
