(* ===== verification/RlpxSession.v ===== *)
(** * RlpxSession: a session with a peer

    [rlpx/rlpx_session.hpp/.cpp] and [connect_with_timeout] of [rlpx/socket/socket_transport.cpp]:
    version negotiation, [RlpxSession::connect] with the exchange of Hellos, the two channels, the
    routing of messages to handlers, and the two loops of an active session.

    The loops are coroutines over one session. Each waits in one place at a time (the send loop for
    its poll timer or a write, the receive loop for the next message or for the handlers it calls,
    which may call the session), so the events of [session_step] are the steps between two waits
    and the calls of the session's methods, in any order. A handler is a number, and its calls are
    outputs.

    Theorems: after the handshake [connect] gives an active session with the highest common version,
    and the peer can read the Hello ([session_connects]); whatever the order of events, messages
    leave in the order they were posted and arrive in the order they were sent, each once
    ([session_delivers]); a session that is not active any more stays so and writes nothing
    ([session_ends]). A session is made active without a Hello ([active_without_hello]), and a graceful
    disconnect ends in the error state, without a Disconnect message ([disconnect_ends_in_error]). *)
From S2P Require Export EthMessages RlpxHandshake.
Open Scope Z_scope.

(** ** Data *)

Record SessionConnectParams := mkConnectParams {
  remote_host : bytes;
  params_remote_port : Z;
  params_public_key : bytes;
  params_private_key : bytes;
  params_peer_key : bytes;
  params_client_id : bytes;
  params_listen_port : Z
}.

Record SessionAcceptParams := mkAcceptParams {
  accept_public_key : bytes;
  accept_private_key : bytes;
  accept_client_id : bytes;
  accept_listen_port : Z
}.

Record PeerInfo := mkPeerInfo {
  info_public_key : bytes;
  info_client_id : bytes;
  info_listen_port : Z;
  remote_address : bytes;
  info_remote_port : Z
}.

(** [class MessageChannel]: a queue, whose mutex makes each operation atomic. *)
Definition MessageChannel : Type := list Message.
Definition push (msg : Message) (c : MessageChannel) : MessageChannel := c ++ [msg].
Definition try_pop (c : MessageChannel) : option Message * MessageChannel :=
  match c with [] => (None, []) | msg :: c => (Some msg, c) end.
Definition channel_empty (c : MessageChannel) : bool := empty c.

(** The five handlers. *)
Record Handlers := mkHandlers {
  hello_handler_ : option Z;
  disconnect_handler_ : option Z;
  ping_handler_ : option Z;
  pong_handler_ : option Z;
  generic_handler_ : option Z
}.

Definition no_handlers : Handlers := mkHandlers None None None None None.

Inductive session_call :=
| HelloCall (handler : Z) (msg : HelloMessage)
| DisconnectCall (handler : Z) (msg : DisconnectMessage)
| PingCall (handler : Z) (msg : PingMessage)
| PongCall (handler : Z) (msg : PongMessage)
| GenericCall (handler : Z) (msg : Message).

(** Where the loops wait: before an iteration; for the poll timer; for a write; for a message; for
    the handlers of a message. *)
Inductive send_wait := SendReady | Polling | Writing | SendEnded (result : SessionResult unit).
Inductive receive_wait := ReceiveReady | Reading | Routing (msg : Message) | ReceiveEnded (result : SessionResult unit).

(** [class RlpxSession], with its two coroutines. *)
Record RlpxSession := mkSession {
  state_ : SessionState;
  stream_ : MessageStream;
  peer_info_ : PeerInfo;
  negotiated_eth_version_ : Z;
  is_initiator_ : bool;
  send_channel_ : MessageChannel;
  recv_channel_ : MessageChannel;
  handlers : Handlers;
  send_loop : send_wait;
  receive_loop : receive_wait
}.

Definition new_session (stream : MessageStream) (peer_info : PeerInfo) (is_initiator : bool) : RlpxSession :=
  {| state_ := kUninitialized; stream_ := stream; peer_info_ := peer_info; negotiated_eth_version_ := 0;
     is_initiator_ := is_initiator; send_channel_ := []; recv_channel_ := []; handlers := no_handlers;
     send_loop := SendEnded (Ok tt); receive_loop := ReceiveEnded (Ok tt) |}.

(** Assignments to one part of the session. *)
Definition with_state (x : SessionState) (s : RlpxSession) : RlpxSession :=
  mkSession x (stream_ s) (peer_info_ s) (negotiated_eth_version_ s) (is_initiator_ s) (send_channel_ s)
    (recv_channel_ s) (handlers s) (send_loop s) (receive_loop s).
Definition with_stream (x : MessageStream) (s : RlpxSession) : RlpxSession :=
  mkSession (state_ s) x (peer_info_ s) (negotiated_eth_version_ s) (is_initiator_ s) (send_channel_ s)
    (recv_channel_ s) (handlers s) (send_loop s) (receive_loop s).
Definition with_peer (x : PeerInfo) (version : Z) (s : RlpxSession) : RlpxSession :=
  mkSession (state_ s) (stream_ s) x version (is_initiator_ s) (send_channel_ s)
    (recv_channel_ s) (handlers s) (send_loop s) (receive_loop s).
Definition with_send_channel (x : MessageChannel) (s : RlpxSession) : RlpxSession :=
  mkSession (state_ s) (stream_ s) (peer_info_ s) (negotiated_eth_version_ s) (is_initiator_ s) x
    (recv_channel_ s) (handlers s) (send_loop s) (receive_loop s).
Definition with_recv_channel (x : MessageChannel) (s : RlpxSession) : RlpxSession :=
  mkSession (state_ s) (stream_ s) (peer_info_ s) (negotiated_eth_version_ s) (is_initiator_ s) (send_channel_ s)
    x (handlers s) (send_loop s) (receive_loop s).
Definition with_handlers (x : Handlers) (s : RlpxSession) : RlpxSession :=
  mkSession (state_ s) (stream_ s) (peer_info_ s) (negotiated_eth_version_ s) (is_initiator_ s) (send_channel_ s)
    (recv_channel_ s) x (send_loop s) (receive_loop s).
Definition with_send_loop (x : send_wait) (s : RlpxSession) : RlpxSession :=
  mkSession (state_ s) (stream_ s) (peer_info_ s) (negotiated_eth_version_ s) (is_initiator_ s) (send_channel_ s)
    (recv_channel_ s) (handlers s) x (receive_loop s).
Definition with_receive_loop (x : receive_wait) (s : RlpxSession) : RlpxSession :=
  mkSession (state_ s) (stream_ s) (peer_info_ s) (negotiated_eth_version_ s) (is_initiator_ s) (send_channel_ s)
    (recv_channel_ s) (handlers s) (send_loop s) x.

(** ** State *)

Definition is_active (s : RlpxSession) : bool := bool_decide (state_ s = kActive).
Definition is_terminal_state (x : SessionState) : bool :=
  bool_decide (x = kClosed) || bool_decide (x = kError).
Definition try_transition_state (from to : SessionState) (s : RlpxSession) : bool * RlpxSession :=
  if bool_decide (state_ s = from) then (true, with_state to s) else (false, s).
Definition force_error_state (s : RlpxSession) : RlpxSession := with_state kError s.

(** The destructor; and the moves, which leave the handlers behind. *)
Definition destroy_session (s : RlpxSession) : RlpxSession :=
  if is_terminal_state (state_ s) then s else with_state kClosed s.
Definition move_construct (other : RlpxSession) : RlpxSession := with_handlers no_handlers other.
Definition move_assign (this other : RlpxSession) : RlpxSession := with_handlers (handlers this) other.

(** ** Versions *)

Definition eth_name : bytes := text "eth".

Definition negotiate_step (negotiated_version : Z) (capability : Capability) : Z :=
  if negb (bool_decide (cap_name capability = eth_name)) then negotiated_version
  else if (kEthProtocolVersion66 <=? cap_version capability) && (cap_version capability <=? kEthProtocolVersion69)
          && (negotiated_version <? cap_version capability)
  then cap_version capability else negotiated_version.

Definition negotiate_eth_version (capabilities : list Capability) : Z := fold_left negotiate_step capabilities 0.

(** ** Connecting *)

(** What the resolution and the connection attempt report; the timer can only make the second
    fail. *)
Definition connect_with_timeout (resolve_failed connect_failed : bool) (socket : SocketTransport)
    : SessionResult SocketTransport :=
  if resolve_failed then Err SessionError.kConnectionFailed
  else if connect_failed then Err SessionError.kConnectionFailed
  else Ok socket.

Section session.
Context (keccak256 : bytes -> bytes) (aes_ecb_encrypt_block : bytes -> bytes -> bytes)
  (aes_ctr : bytes -> nat -> bytes -> bytes)
  (snappy_compress : bytes -> bytes) (snappy_length : bytes -> option Z) (snappy_uncompress : bytes -> option bytes).

Abbreviation send := (RlpxFraming.send_message keccak256 aes_ecb_encrypt_block aes_ctr snappy_compress).
Abbreviation receive := (RlpxFraming.receive_message keccak256 aes_ecb_encrypt_block aes_ctr snappy_length snappy_uncompress).

Definition handshake_config (params : SessionConnectParams) : HandshakeConfig :=
  mkHandshakeConfig (params_public_key params) (params_private_key params) (Some (params_peer_key params)).

(** The peer as it is known before its Hello: with the local client id and port. *)
Definition connect_peer_info (params : SessionConnectParams) : PeerInfo :=
  mkPeerInfo (params_peer_key params) (params_client_id params) (params_listen_port params) []
    (params_remote_port params).

Definition local_hello (params : SessionConnectParams) : HelloMessage :=
  {| protocol_version := kProtocolVersion; client_id := params_client_id params;
     capabilities := map (mkCapability eth_name)
       [kEthProtocolVersion66; kEthProtocolVersion67; kEthProtocolVersion68; kEthProtocolVersion69];
     listen_port := params_listen_port params; hello_node_id := params_public_key params |}.

(** What the peer's Hello changes. *)
Definition take_hello (hello : HelloMessage) (s : RlpxSession) : RlpxSession :=
  let info := peer_info_ s in
  let s := with_peer (mkPeerInfo (info_public_key info) (client_id hello) (listen_port hello)
                        (remote_address info) (info_remote_port info))
             (negotiate_eth_version (capabilities hello)) s in
  if kProtocolVersion <=? protocol_version hello then with_stream (enable_compression (stream_ s)) s else s.

(** The state becomes active, and the loops are spawned. *)
Definition activate (s : RlpxSession) : RlpxSession :=
  with_receive_loop ReceiveReady (with_send_loop SendReady (with_state kActive s)).

(** A call of the session's stream. *)
Definition on_stream {A} (m : M MessageStream SessionError A) : M RlpxSession SessionError A := fun s =>
  let '(r, x) := m (stream_ s) in (r, with_stream x s).

Definition update (f : RlpxSession -> RlpxSession) : M RlpxSession SessionError unit := fun s => (Ok tt, f s).

(** Steps 5 to 7 of [connect], on the session's stream. No handler can be set yet. *)
Definition exchange_hellos (params : SessionConnectParams) : M RlpxSession SessionError unit :=
  payload ← lift (map_err SessionError.kHandshakeFailed (encode_hello (local_hello params)));
  on_stream (send (mkSendParams kHelloMessageId payload false)) ;;
  peer_msg ← on_stream receive;
  if is_hello peer_msg then
    match decode_hello (msg_payload peer_msg) with
    | Ok hello => update (fun s => activate (take_hello hello s))
    | Err _ => update activate
    | Diverged => lift Diverged
    end
  else if is_disconnect peer_msg then throw SessionError.kHandshakeFailed
  else update activate.

Section connect.
Context `{Secp256k1} `{OpenSsl} (fuel : nat) (unset : AuthKeyMaterial) (unset_secrets : bytes * bytes).

(** [RlpxSession::connect]; the state is the number of random draws. *)
Definition connect (params : SessionConnectParams) (connected : SessionResult SocketTransport)
    : M nat SessionError RlpxSession := fun i =>
  match connected with
  | Ok transport =>
      match execute keccak256 fuel unset unset_secrets (handshake_config params) (mkHandshake transport i) with
      | (Ok hs, h) =>
          let stream := new_stream (new_cipher (frame_secrets hs)) (hs_transport h) in
          let '(r, s) := exchange_hellos params (new_session stream (connect_peer_info params) true) in
          (obind r (fun _ => Ok s), draws h)
      | (Err e, h) => (Err e, draws h)
      | (Diverged, h) => (Diverged, draws h)
      end
  | Err e => (Err e, i)
  | Diverged => (Diverged, i)
  end.
End connect.

(** Inbound connections are not implemented. *)
Definition accept (_ : SessionAcceptParams) : SessionResult RlpxSession := Err SessionError.kConnectionFailed.

(** ** The methods *)

(** Only an active session takes and gives messages. *)
Definition check_active : M RlpxSession SessionError unit := fun s =>
  if is_active s then (Ok tt, s)
  else if is_terminal_state (state_ s) then (Err SessionError.kConnectionFailed, s)
  else (Err SessionError.kNotConnected, s).

Definition post_message (message : Message) : M RlpxSession SessionError unit :=
  check_active ;; update (fun s => with_send_channel (push message (send_channel_ s)) s).

Definition session_receive_message : M RlpxSession SessionError Message :=
  check_active ;;
  s ← get_state;
  match try_pop (recv_channel_ s) with
  | (Some msg, c) => update (with_recv_channel c) ;; mret msg
  | (None, _) => throw SessionError.kNotConnected
  end.

(** [disconnect], which always succeeds and does not use its reason; [close_failed] as in [close]. *)
Definition disconnect (close_failed : bool) (s : RlpxSession) : RlpxSession :=
  if bool_decide (state_ s = kDisconnecting) || is_terminal_state (state_ s) then s
  else
    let s := with_state kClosed (with_state kDisconnecting s) in
    with_stream (stream_close close_failed (stream_ s)) s.

(** A handler is called with what its decoder accepts. *)
Definition call_handler {A} (handler : option Z) (decoded : SessionResult A) (call : Z -> A -> session_call)
    : list session_call :=
  match handler, decoded with Some h, Ok a => [call h a] | _, _ => [] end.

Definition route_message (h : Handlers) (msg : Message) : list session_call :=
  if is_hello msg then call_handler (hello_handler_ h) (decode_hello (msg_payload msg)) HelloCall
  else if is_disconnect msg then
    call_handler (disconnect_handler_ h) (decode_disconnect (msg_payload msg)) DisconnectCall
  else if is_ping msg then call_handler (ping_handler_ h) (decode_ping (msg_payload msg)) PingCall
  else if is_pong msg then call_handler (pong_handler_ h) (decode_pong (msg_payload msg)) PongCall
  else call_handler (generic_handler_ h) (Ok msg) GenericCall.

(** ** The loops *)

Definition end_send (result : SessionResult unit) (s : RlpxSession) : RlpxSession :=
  with_send_loop (SendEnded result) (if is_ok result then s else force_error_state s).
Definition end_receive (result : SessionResult unit) (s : RlpxSession) : RlpxSession :=
  with_receive_loop (ReceiveEnded result) (if is_ok result then s else force_error_state s).

(** [run_send_loop], from the test of the loop to the next wait. A write that is started has its
    octets on the wire; how it ends is another event. *)
Definition send_iteration (s : RlpxSession) : RlpxSession :=
  if negb (is_active s) then end_send (Ok tt) s
  else match try_pop (send_channel_ s) with
  | (None, _) => with_send_loop Polling s
  | (Some msg, c) =>
      let s := with_send_channel c s in
      let params := mkSendParams (msg_id msg) (msg_payload msg) (compression_enabled_ (stream_ s)) in
      match on_stream (send params) s with
      | (Ok _, s) => with_send_loop Writing s
      | (Err e, s) => end_send (Err e) s
      | (Diverged, s) => end_send Diverged s
      end
  end.

Definition poll_done (failed : bool) (s : RlpxSession) : RlpxSession :=
  if failed then end_send (Err SessionError.kConnectionFailed) s else with_send_loop SendReady s.

Definition write_done (ec : option SocketError) (s : RlpxSession) : RlpxSession :=
  match ec with Some ec => end_send (Err (write_error ec)) s | None => with_send_loop SendReady s end.

(** [run_receive_loop]: the test of the loop; a message and its routing; the channel. *)
Definition receive_iteration (s : RlpxSession) : RlpxSession :=
  if negb (is_active s) then end_receive (Ok tt) s else with_receive_loop Reading s.

Definition message_read (s : RlpxSession) : list session_call * RlpxSession :=
  match on_stream receive s with
  | (Ok msg, s) => (route_message (handlers s) msg, with_receive_loop (Routing msg) s)
  | (Err e, s) => ([], end_receive (Err e) s)
  | (Diverged, s) => ([], end_receive Diverged s)
  end.

Definition handler_done (msg : Message) (s : RlpxSession) : RlpxSession :=
  with_receive_loop ReceiveReady (with_recv_channel (push msg (recv_channel_ s)) s).

(** ** Runs *)

(** The steps of the two loops; a socket that breaks; the calls of the session's user. *)
Inductive session_event :=
| SendRuns | PollDone (failed : bool) | WriteDone (ec : option SocketError)
| ReceiveRuns | MessageRead | HandlersReturn
| SocketBreaks (ec : SocketError)
| Post (message : Message) | Pull | Disconnect (close_failed : bool) | SetHandlers (h : Handlers).

Inductive session_output :=
| Called (call : session_call)
| Posted (message : Message) (result : SessionResult unit)
| Pulled (result : SessionResult Message).

Definition break_socket (ec : SocketError) (x : MessageStream) : MessageStream :=
  let t := transport_ x in
  mkStream (cipher_ x) (mkTransport (incoming t) (outgoing t) (Some ec) (is_open t)) (compression_enabled_ x).

(** An event whose coroutine is elsewhere does nothing. *)
Definition session_step (e : session_event) (s : RlpxSession) : list session_output * RlpxSession :=
  match e with
  | SendRuns => ([], match send_loop s with SendReady => send_iteration s | _ => s end)
  | PollDone failed => ([], match send_loop s with Polling => poll_done failed s | _ => s end)
  | WriteDone ec => ([], match send_loop s with Writing => write_done ec s | _ => s end)
  | ReceiveRuns => ([], match receive_loop s with ReceiveReady => receive_iteration s | _ => s end)
  | MessageRead =>
      match receive_loop s with
      | Reading => let '(calls, s) := message_read s in (map Called calls, s)
      | _ => ([], s)
      end
  | HandlersReturn => ([], match receive_loop s with Routing msg => handler_done msg s | _ => s end)
  | SocketBreaks ec => ([], with_stream (break_socket ec (stream_ s)) s)
  | Post m => let '(r, s) := post_message m s in ([Posted m r], s)
  | Pull => let '(r, s) := session_receive_message s in ([Pulled r], s)
  | Disconnect close_failed => ([], disconnect close_failed s)
  | SetHandlers h => ([], with_handlers h s)
  end.

Fixpoint run_session (events : list session_event) (s : RlpxSession) : list session_output * RlpxSession :=
  match events with
  | [] => ([], s)
  | e :: events =>
      let '(o1, s) := session_step e s in
      let '(o2, s) := run_session events s in (o1 ++ o2, s)
  end.

(** ** What negotiation gives *)

Lemma negotiate_fold caps : forall v,
  let r := fold_left negotiate_step caps v in
  v <= r /\ (r = v \/ kEthProtocolVersion66 <= r <= kEthProtocolVersion69 /\ In (mkCapability eth_name r) caps)
  /\ forall n, In (mkCapability eth_name n) caps -> kEthProtocolVersion66 <= n <= kEthProtocolVersion69 -> n <= r.
Proof.
  induction caps as [|c caps IH]; intros v; cbn zeta; [cbn; split_and!; [lia | by left | done] |].
  change (fold_left negotiate_step (c :: caps) v) with (fold_left negotiate_step caps (negotiate_step v c)).
  destruct (IH (negotiate_step v c)) as (H1 & H2 & H3). set (r := fold_left negotiate_step caps _) in *.
  assert (v <= negotiate_step v c) as Hv.
  { unfold negotiate_step. destruct (negb _); [lia |]. destruct (_ && _) eqn:E; lia. }
  split_and!; [lia | | ].
  - destruct H2 as [H2 | [Hr Hin]]; [| right; split; [done | by right]].
    revert H2. unfold negotiate_step. destruct (bool_decide_reflect (cap_name c = eth_name)) as [Hn|]; cbn [negb]; [| by left].
    destruct (_ && _) eqn:E; [| by left]. intros ->. right. split; [lia |]. left. destruct c. cbn in *. by subst.
  - intros n [Hc | Hin] Hr; [| by apply H3]. etransitivity; [| exact H1].
    subst c. unfold negotiate_step. cbn [cap_name cap_version]. rewrite bool_decide_true by done. cbn [negb].
    destruct (_ && _) eqn:E; lia.
Qed.

(** The highest version of eth that both sides have, and 0 when there is none, whatever else the
    peer announces. *)
Definition highest_common (caps : list Capability) (v : Z) : Prop :=
  (v = 0 \/ kEthProtocolVersion66 <= v <= kEthProtocolVersion69 /\ In (mkCapability eth_name v) caps)
  /\ forall n, In (mkCapability eth_name n) caps -> kEthProtocolVersion66 <= n <= kEthProtocolVersion69 -> n <= v.

Lemma negotiation_highest caps : highest_common caps (negotiate_eth_version caps).
Proof. destruct (negotiate_fold caps 0) as (_ & H1 & H2). by split. Qed.

(** ** Connecting *)

Context {laws : CipherLaws keccak256 aes_ctr} {snappy : SnappyLaws snappy_compress snappy_length snappy_uncompress}.

Abbreviation sealing := (RlpxFraming.seal keccak256 aes_ecb_encrypt_block aes_ctr).
Abbreviation seal_all := (RlpxFraming.seal_all keccak256 aes_ecb_encrypt_block aes_ctr snappy_compress).
Abbreviation sendable := (RlpxFraming.sendable snappy_compress).
Abbreviation receive_all := (RlpxFraming.receive_all keccak256 aes_ecb_encrypt_block aes_ctr snappy_length snappy_uncompress).

(** What is sealed depends on the sending half only. *)
Definition egress_half (c : FrameCipher) : AesCtrState * HashMAC := (enc c, egress_mac c).
Definition ingress_half (c : FrameCipher) : AesCtrState * HashMAC := (dec c, ingress_mac c).

Lemma seal_half d c c' : egress_half c = egress_half c' ->
  fst (sealing d c) = fst (sealing d c')
  /\ egress_half (snd (sealing d c))
     = egress_half (snd (sealing d c')).
Proof.
  intros [= He Hm]. unfold RlpxFraming.seal. rewrite He, Hm. destruct (compute_header _ _ _ (egress_mac c')) as [hm m1].
  by destruct (compute_frame _ _ _ m1).
Qed.

Lemma seal_all_half compression ms : forall c c', egress_half c = egress_half c' ->
  fst (seal_all compression c ms) = fst (seal_all compression c' ms)
  /\ egress_half (snd (seal_all compression c ms)) = egress_half (snd (seal_all compression c' ms)).
Proof.
  induction ms as [|m ms IH]; intros c c' Hc; [done |]. cbn [RlpxFraming.seal_all fst snd].
  destruct (seal_half (frame_text snappy_compress compression m) c c' Hc) as [-> H].
  by destruct (IH _ _ H) as [-> ->].
Qed.

Lemma seal_all_app compression ms1 ms2 : forall c,
  seal_all compression c (ms1 ++ ms2)
  = (fst (seal_all compression c ms1) ++ fst (seal_all compression (snd (seal_all compression c ms1)) ms2),
     snd (seal_all compression (snd (seal_all compression c ms1)) ms2)).
Proof.
  induction ms1 as [|m ms1 IH]; intros c; [cbn; apply surjective_pairing |].
  cbn [app RlpxFraming.seal_all fst snd]. rewrite IH. cbn [fst snd]. by rewrite app_assoc.
Qed.

Lemma seal_all_one compression m c : seal_all compression c [m]
  = (wire (fst (sealing (frame_text snappy_compress compression m) c)),
     snd (sealing (frame_text snappy_compress compression m) c)).
Proof. cbn. by rewrite app_nil_r. Qed.

Definition hello_message (hello : HelloMessage) : Message := mkMessage kHelloMessageId (rlp (hello_item hello)).

(** A Hello that the types allow and that fits in a frame. *)
Definition hello_sendable (hello : HelloMessage) : Prop :=
  hello_ok hello /\ sendable false (hello_message hello).

Lemma hello_codec hello : hello_sendable hello ->
  encode_hello hello = Ok (rlp (hello_item hello)) /\ decode_hello (rlp (hello_item hello)) = Ok hello.
Proof.
  intros [Hok (_ & _ & Hl)]. assert (len (rlp (hello_item hello)) < 2 ^ 64) as Hl64.
  { unfold frame_text, kMaxFrameSize, kMaxFrameSizeMiB in Hl. cbn [hello_message msg_payload msg_id] in Hl.
    pose proof (rlp_nonempty (hello_item hello)). destruct (rlp (hello_item hello)); [len_lia |]. cbn [empty] in Hl. len_lia. }
  destruct (hello_roundtrip hello Hok Hl64) as (w & He & Hd). pose proof (encode_hello_item hello Hok Hl64) as He'.
  split; [done |]. by rewrite He in He'; injection He' as ->.
Qed.

(** Sending on a stream that works. *)
Lemma send_ok m flag x : sendable (compression_enabled_ x) m -> fault (transport_ x) = None ->
  exists x', send (mkSendParams (msg_id m) (msg_payload m) flag) x = (Ok tt, x')
  /\ outgoing (transport_ x') = outgoing (transport_ x) ++ fst (seal_all (compression_enabled_ x) (cipher_ x) [m])
  /\ egress_half (cipher_ x') = egress_half (snd (seal_all (compression_enabled_ x) (cipher_ x) [m]))
  /\ receiver x' = receiver x /\ compression_enabled_ x' = compression_enabled_ x.
Proof using laws snappy.
  intros Hm Hf. pose proof (send_message_ok keccak256 aes_ecb_encrypt_block aes_ctr _ _ _ m flag x Hm Hf) as Hs.
  pose proof (preserves_send keccak256 aes_ecb_encrypt_block aes_ctr snappy_compress (mkSendParams (msg_id m) (msg_payload m) flag) x) as Hk.
  rewrite seal_all_one. destruct (sealing _ (cipher_ x)) as [f c]. rewrite Hs in *. cbn [snd fst] in *.
  eexists. by split_and!.
Qed.

(** Receiving from a peer in step. *)
Lemma receive_ok a m rest x : synced a (cipher_ x) -> sendable (compression_enabled_ x) m ->
  fault (transport_ x) = None -> incoming (transport_ x) = fst (seal_all (compression_enabled_ x) a [m]) ++ rest ->
  exists x', receive x = (Ok m, x')
  /\ incoming (transport_ x') = rest /\ synced (snd (seal_all (compression_enabled_ x) a [m])) (cipher_ x')
  /\ sender x' = sender x.
Proof using laws snappy.
  intros Hs Hm Hf Hi. rewrite seal_all_one in *. cbn [fst snd] in *.
  pose proof (preserves_receive keccak256 aes_ecb_encrypt_block aes_ctr snappy_length snappy_uncompress x) as Hk.
  destruct (receive_message_ok keccak256 aes_ecb_encrypt_block aes_ctr _ _ _ m rest a x Hs Hm Hf Hi) as (r & Hr & Hs').
  rewrite Hr in *. cbn [snd] in Hk. eexists. by split_and!.
Qed.

(** A session as [connect] leaves it. *)
Definition started (s : RlpxSession) : Prop :=
  state_ s = kActive /\ send_channel_ s = [] /\ recv_channel_ s = []
  /\ send_loop s = SendReady /\ receive_loop s = ReceiveReady.

(** The exchange of Hellos with a peer that sends a Hello. *)
Lemma exchange_hellos_ok params hello peer x rest pi :
  hello_sendable (local_hello params) -> hello_sendable hello ->
  fault (transport_ x) = None -> compression_enabled_ x = false -> synced peer (cipher_ x) ->
  incoming (transport_ x) = fst (seal_all false peer [hello_message hello]) ++ rest ->
  exists s, exchange_hellos params (new_session x pi true) = (Ok tt, s)
  /\ started s /\ negotiated_eth_version_ s = negotiate_eth_version (capabilities hello)
  /\ client_id hello = info_client_id (peer_info_ s) /\ info_public_key (peer_info_ s) = info_public_key pi
  /\ compression_enabled_ (stream_ s) = (kProtocolVersion <=? protocol_version hello)
  /\ incoming (transport_ (stream_ s)) = rest /\ fault (transport_ (stream_ s)) = None
  /\ synced (snd (seal_all false peer [hello_message hello])) (cipher_ (stream_ s))
  /\ outgoing (transport_ (stream_ s))
     = outgoing (transport_ x) ++ fst (seal_all false (cipher_ x) [hello_message (local_hello params)])
  /\ egress_half (cipher_ (stream_ s))
     = egress_half (snd (seal_all false (cipher_ x) [hello_message (local_hello params)])).
Proof using laws snappy.
  intros Hl [Hh Hhs] Hf Hc Hs Hi. destruct (hello_codec _ Hl) as [Henc _]. destruct Hl as [_ Hls].
  destruct (hello_codec _ (conj Hh Hhs)) as [_ Hdec].
  destruct (send_ok (hello_message (local_hello params)) false x ltac:(by rewrite Hc) Hf) as (x1 & Hx1 & Ho1 & He1 & Hr1 & Hc1).
  injection Hr1 as Hd1 Hm1 Hi1 Hf1 _. rewrite Hc in *.
  destruct (receive_ok peer (hello_message hello) rest x1) as (x2 & Hx2 & Hi2 & Hs2 & Hk2);
    [destruct Hs; split; congruence | by rewrite Hc1 | congruence | by rewrite Hc1, Hi1 |].
  injection Hk2 as He2 Hm2 Ho2 Hf2 Hc2. rewrite Hc1 in *.
  eexists. split.
  { unfold exchange_hellos, on_stream. rewrite Henc. unfold_m. cbn [stream_ new_session map_err].
    unfold hello_message in Hx1. cbn [msg_id msg_payload] in Hx1. rewrite Hx1. cbn [with_stream stream_]. rewrite Hx2.
    cbn [is_hello hello_message msg_id msg_payload]. rewrite Hdec. reflexivity. }
  generalize dependent (seal_all false (cipher_ x) [hello_message (local_hello params)]). intros w Ho1 He1.
  generalize dependent (seal_all false peer [hello_message hello]). intros w' Hi Hs2.
  unfold take_hello. cbn [peer_info_ with_stream]. destruct (kProtocolVersion <=? protocol_version hello);
    cbn; unfold started, egress_half in *; cbn; split_and!; try done; try congruence.
Qed.

(** C8: a session is made. After a handshake that leaves a working socket and two ciphers in step
    (which is what [initiator_completes] gives), and when the peer's Hello is what arrives next,
    [connect] returns an active session: it has the highest common version of eth and the name of
    the peer, it compresses when the peer speaks version 5 of the base protocol, and nothing after
    the Hello is taken from the socket. The peer reads the local Hello as it was meant from what
    was written, and both directions are still in step. *)
Theorem session_connects `{Secp256k1} `{OpenSsl} fuel unset unset_secrets params transport i hs h peer hello rest :
  execute keccak256 fuel unset unset_secrets (handshake_config params) (mkHandshake transport i) = (Ok hs, h) ->
  let cipher := new_cipher (frame_secrets hs) in
  fault (hs_transport h) = None -> synced peer cipher -> synced cipher peer ->
  hello_sendable (local_hello params) -> hello_sendable hello ->
  incoming (hs_transport h) = fst (seal_all false peer [hello_message hello]) ++ rest ->
  exists s, connect fuel unset unset_secrets params (Ok transport) i = (Ok s, draws h)
  /\ started s /\ fault (transport_ (stream_ s)) = None /\ incoming (transport_ (stream_ s)) = rest
  /\ highest_common (capabilities hello) (negotiated_eth_version_ s)
  /\ info_client_id (peer_info_ s) = client_id hello /\ info_public_key (peer_info_ s) = params_peer_key params
  /\ compression_enabled_ (stream_ s) = (kProtocolVersion <=? protocol_version hello)
  /\ synced (snd (seal_all false peer [hello_message hello])) (cipher_ (stream_ s))
  /\ exists w, outgoing (transport_ (stream_ s)) = outgoing (hs_transport h) ++ w
     /\ forall b after, cipher_ b = peer -> compression_enabled_ b = false -> fault (transport_ b) = None ->
          incoming (transport_ b) = w ++ after ->
          exists payload b', receive b = (Ok (mkMessage kHelloMessageId payload), b')
          /\ decode_hello payload = Ok (local_hello params)
          /\ incoming (transport_ b') = after /\ synced (cipher_ (stream_ s)) (cipher_ b').
Proof using laws snappy.
  intros Hx cipher Hf Hs Hs' Hl Hh Hi. subst cipher. destruct (hello_codec _ Hl) as [_ Hdec].
  destruct (exchange_hellos_ok params hello peer (new_stream (new_cipher (frame_secrets hs)) (hs_transport h)) rest (connect_peer_info params)
    Hl Hh Hf eq_refl Hs Hi) as (s & He & Hst & Hv & Hid & Hkey & Hc & Hi2 & Hf2 & Hs2 & Ho & Heg).
  exists s. split; [unfold connect; by rewrite Hx, He |]. split_and!; try done; [rewrite Hv; apply negotiation_highest |].
  eexists. split; [exact Ho |]. intros b after <- Hcb Hfb Hib.
  destruct (receive_ok (new_cipher (frame_secrets hs)) (hello_message (local_hello params)) after b)
    as (b' & Hb & Hib' & Hsb & _); [done | rewrite Hcb; apply Hl | done | by rewrite Hcb |].
  eexists _, b'. split_and!; [exact Hb | done | done |]. rewrite Hcb in Hsb. cbn [stream_ new_stream cipher_] in Heg.
  injection Heg as He1 He2. destruct Hsb. by split; [rewrite He1 | rewrite He2].
Qed.

(** ** Delivery *)

(** What the outputs of a run say. *)
Definition posted (out : list session_output) : list Message :=
  flat_map (fun o => match o with Posted m (Ok _) => [m] | _ => [] end) out.
Definition pulled (out : list session_output) : list Message :=
  flat_map (fun o => match o with Pulled (Ok m) => [m] | _ => [] end) out.
Definition called (out : list session_output) : list session_call :=
  flat_map (fun o => match o with Called c => [c] | _ => [] end) out.

(** The message whose handlers run. *)
Definition in_handlers (s : RlpxSession) : list Message :=
  match receive_loop s with Routing m => [m] | _ => [] end.

(** What is posted: [sent] is on the wire, then come a message that could not be written, if
    any, and the channel. *)
Definition sends (x0 : MessageStream) (accepted : list Message) (s : RlpxSession) : Prop :=
  exists sent lost,
    outgoing (transport_ (stream_ s)) = outgoing (transport_ x0) ++ fst (seal_all (compression_enabled_ x0) (cipher_ x0) sent)
    /\ accepted = sent ++ lost ++ send_channel_ s /\ Forall (sendable (compression_enabled_ x0)) (sent ++ send_channel_ s)
    /\ compression_enabled_ (stream_ s) = compression_enabled_ x0
    /\ (is_active s = true -> lost = []
        /\ egress_half (cipher_ (stream_ s)) = egress_half (snd (seal_all (compression_enabled_ x0) (cipher_ x0) sent))).

(** What the two directions use of a session. *)
Definition sending (s : RlpxSession) :=
  (egress_half (cipher_ (stream_ s)), outgoing (transport_ (stream_ s)), compression_enabled_ (stream_ s), send_channel_ s).
Definition receiving (s : RlpxSession) :=
  (ingress_half (cipher_ (stream_ s)), incoming (transport_ (stream_ s)), compression_enabled_ (stream_ s),
   recv_channel_ s, receive_loop s).

Lemma sends_frame x0 accepted s s' :
  sends x0 accepted s -> sending s' = sending s -> (is_active s' = true -> is_active s = true) -> sends x0 accepted s'.
Proof.
  intros (sent & lost & Ho & Ha & Hs & Hc & Hi) [= He Hm Ho' Hc' Hch] Hact.
  exists sent, lost. unfold egress_half in *. rewrite He, Hm, Ho', Hc', Hch. split_and!; try done. auto.
Qed.

Lemma inactive_frame x0 accepted s s' :
  sends x0 accepted s -> outgoing (transport_ (stream_ s')) = outgoing (transport_ (stream_ s)) ->
  compression_enabled_ (stream_ s') = compression_enabled_ (stream_ s) ->
  (exists lost, send_channel_ s = lost ++ send_channel_ s') -> is_active s' = false -> sends x0 accepted s'.
Proof.
  intros (sent & lost & Ho & Ha & Hs & Hc & _) Ho' Hc' [l Hl] Hact.
  exists sent, (lost ++ l). rewrite Ho', Hc', Ha, Hl, <- app_assoc. rewrite Hl, app_assoc in Hs.
  apply Forall_app in Hs as [Hs1 Hs2]. apply Forall_app in Hs1 as [Hs1 _].
  split_and!; try done; [by apply Forall_app | congruence].
Qed.

(** A write to a broken socket. *)
Lemma send_broken m flag x ec : sendable (compression_enabled_ x) m -> fault (transport_ x) = Some ec ->
  exists x', send (mkSendParams (msg_id m) (msg_payload m) flag) x = (Err (write_error ec), x')
  /\ outgoing (transport_ x') = outgoing (transport_ x) /\ compression_enabled_ x' = compression_enabled_ x.
Proof using laws snappy.
  intros Hm Hf. destruct (frame_text_ok _ _ _ _ m Hm) as (_ & Hne & Hd). destruct Hm as (_ & _ & Hl).
  eexists. split.
  - unfold send_message. cbn [message_id send_payload]. unfold_m. rewrite Hd. rewrite (proj2 (Z.ltb_ge kMaxFrameSize _)) by (apply Z.lt_le_incl, Hl).
    unfold with_error, on_cipher.
    rewrite (encrypt_frame_seal keccak256 aes_ecb_encrypt_block aes_ctr) by lia. cbn [map_err]. unfold on_transport, write_all.
    cbn [transport_]. rewrite Hf. reflexivity.
  - done.
Qed.

Lemma sends_iteration x0 accepted s : sends x0 accepted s -> sends x0 accepted (send_iteration s).
Proof using laws snappy.
  intros Hinv. unfold send_iteration. destruct (is_active s) eqn:Hact; cbn [negb]; [| by apply (sends_frame x0 _ s)].
  destruct (send_channel_ s) as [|m q] eqn:Hq; cbn [try_pop]; [by apply (sends_frame x0 _ s) |].
  pose proof Hinv as (sent & lost & Ho & Ha & Hs & Hc & Hi). destruct (Hi Hact) as [-> Heg].
  pose proof Hs as Hs'. rewrite Hq in Hs'. apply Forall_app in Hs' as [Hs1 Hs2]. apply Forall_cons_iff in Hs2 as [Hm Hs2].
  unfold on_stream. cbn [stream_ with_send_channel].
  destruct (fault (transport_ (stream_ s))) as [ec|] eqn:Hf.
  - destruct (send_broken m (compression_enabled_ (stream_ s)) (stream_ s) ec ltac:(by rewrite Hc) Hf) as (x' & -> & Ho' & Hc').
    apply (inactive_frame x0 _ s); try done. by exists [m].
  - destruct (send_ok m (compression_enabled_ (stream_ s)) (stream_ s) ltac:(by rewrite Hc) Hf) as (x' & -> & Ho' & Heg' & _ & Hc').
    rewrite Hc in *. destruct (seal_all_half (compression_enabled_ x0) [m] _ _ Heg) as [Hw Hh].
    exists (sent ++ [m]), []. cbn [stream_ with_send_loop with_stream send_channel_ with_send_channel].
    rewrite Ho', Ho, Hw, seal_all_app, <- !app_assoc. cbn [fst snd]. split_and!; try done.
    + by rewrite Ha, Hq.
    + by rewrite Hq in Hs.
    + intros _. split; [done |]. by rewrite Heg'.
Qed.

Lemma check_active_spec s : check_active s
  = (if is_active s then Ok tt
     else if is_terminal_state (state_ s) then Err SessionError.kConnectionFailed else Err SessionError.kNotConnected, s).
Proof. unfold check_active. by repeat case_match. Qed.

(** The messages that a user posts. *)
Definition post_ok (compression : bool) (e : session_event) : Prop :=
  match e with Post m => sendable compression m | _ => True end.

Lemma disconnect_closes close_failed s : is_active (disconnect close_failed s) = false.
Proof.
  unfold disconnect, is_active, is_terminal_state. destruct (_ || _) eqn:E; [| done].
  apply bool_decide_false. intros H. by rewrite H in E.
Qed.

Lemma disconnect_streams close_failed s :
  sending (disconnect close_failed s) = sending s /\ receiving (disconnect close_failed s) = receiving s.
Proof.
  unfold disconnect. destruct (_ || _); [done |]. unfold sending, receiving. cbn. unfold close.
  by destruct (is_open (transport_ (stream_ s))).
Qed.

Lemma outputs_of_calls calls :
  posted (map Called calls) = [] /\ pulled (map Called calls) = [] /\ called (map Called calls) = calls.
Proof. unfold posted, pulled, called. induction calls as [|c calls (IH1 & IH2 & IH3)]; cbn; [done |]. by rewrite IH1, IH2, IH3. Qed.

Lemma sends_step x0 accepted e s : sends x0 accepted s -> post_ok (compression_enabled_ x0) e ->
  sends x0 (accepted ++ posted (fst (session_step e s))) (snd (session_step e s)).
Proof using laws snappy.
  intros Hs He. destruct e as [|failed|ec| | | |ec|m| |close_failed|h]; cbn [session_step].
  all: try (cbn [fst posted flat_map snd]; rewrite app_nil_r).
  - destruct (send_loop s); [by apply sends_iteration | done..].
  - destruct (send_loop s); try done. destruct failed; by apply (sends_frame x0 _ s).
  - destruct (send_loop s); try done. destruct ec; by apply (sends_frame x0 _ s).
  - destruct (receive_loop s); try done. unfold receive_iteration. destruct (negb _); by apply (sends_frame x0 _ s).
  - destruct (receive_loop s); cbn [fst snd posted flat_map]; rewrite ?app_nil_r; try done.
    unfold message_read, on_stream. pose proof (preserves_receive keccak256 aes_ecb_encrypt_block aes_ctr snappy_length
      snappy_uncompress (stream_ s)) as Hk.
    destruct (receive (stream_ s)) as [[m|e|] x]; injection Hk as H1 H2 H3 H4 H5; cbn [fst snd];
      rewrite (proj1 (outputs_of_calls _)), app_nil_r; apply (sends_frame x0 _ s); try done; unfold sending, egress_half; cbn; congruence.
  - by destruct (receive_loop s).
  - by apply (sends_frame x0 _ s).
  - unfold post_message, update. unfold mbind, M_bind. rewrite check_active_spec.
    destruct (is_active s) eqn:Hact; [| destruct (is_terminal_state (state_ s)); cbn; by rewrite app_nil_r].
    cbn [fst snd posted flat_map app]. destruct Hs as (sent & lost & Ho & Ha & Hss & Hc & Hi).
    exists sent, lost. cbn [stream_ send_channel_ with_send_channel]. split_and!; try done.
    + rewrite Ha. unfold push. by rewrite <- !app_assoc.
    + unfold push. rewrite app_assoc. apply Forall_app. split; [done | by constructor].
  - unfold session_receive_message, mbind, M_bind. rewrite check_active_spec.
    destruct (is_active s) eqn:Hact; [| destruct (is_terminal_state (state_ s)); cbn; by rewrite app_nil_r].
    cbn. destruct (recv_channel_ s); cbn; rewrite app_nil_r; [done |]. by apply (sends_frame x0 _ s).
  - destruct (disconnect_streams close_failed s) as [H _].
    apply (sends_frame x0 _ s); [done | exact H |]. by rewrite disconnect_closes.
  - by apply (sends_frame x0 _ s).
Qed.

(** What the peer sends: [read] has been taken off the socket, given to the handlers of that time,
    and put in the channel, from which [pulls] were taken; the rest is still to come, as long as the
    loop runs. *)
Definition receives (a : FrameCipher) (compression : bool) (ms pulls : list Message) (calls : list session_call)
    (s : RlpxSession) : Prop :=
  exists read unread hs,
    ms = read ++ unread /\ read = pulls ++ recv_channel_ s ++ in_handlers s
    /\ calls = concat (zip_with route_message hs read) /\ length hs = length read
    /\ compression_enabled_ (stream_ s) = compression
    /\ match receive_loop s with
       | ReceiveEnded _ => True
       | _ => synced (snd (seal_all compression a read)) (cipher_ (stream_ s))
              /\ incoming (transport_ (stream_ s)) = fst (seal_all compression (snd (seal_all compression a read)) unread)
       end.

Lemma receives_frame a compression ms pulls calls s s' :
  receives a compression ms pulls calls s -> receiving s' = receiving s -> receives a compression ms pulls calls s'.
Proof.
  intros (rd & un & hs & Hms & Hrd & Hcalls & Hlen & Hc & Hl) [= Hd Hm Hi Hc' Hch Hloop].
  exists rd, un, hs. unfold in_handlers in *. rewrite Hch, Hloop, Hc', Hi. split_and!; try done.
  destruct (receive_loop s); try done; (destruct Hl as [[H1 H2] H3]; split; [split; congruence | done]).
Qed.

(** A read that fails because the socket is broken or at its end. *)
Lemma receive_fails x : fault (transport_ x) <> None \/ incoming (transport_ x) = [] ->
  exists x', receive x = (Err SessionError.kInvalidMessage, x') /\ compression_enabled_ x' = compression_enabled_ x.
Proof.
  intros H. unfold RlpxFraming.receive_message, receive_frame, receive_frame_steps, with_error, on_transport, read_exact. unfold_m.
  destruct (fault (transport_ x)) as [ec|]; [by eexists |]. destruct H as [H | ->]; [done |]. by eexists.
Qed.

Lemma receives_end a compression ms pulls calls s s' :
  receives a compression ms pulls calls s -> in_handlers s = [] -> recv_channel_ s' = recv_channel_ s ->
  compression_enabled_ (stream_ s') = compression_enabled_ (stream_ s) ->
  (exists r, receive_loop s' = ReceiveEnded r) -> receives a compression ms pulls calls s'.
Proof.
  intros (rd & un & hs & Hms & Hrd & Hcalls & Hlen & Hc & _) Hin Hch Hc' [r Hr]. exists rd, un, hs.
  unfold in_handlers in *. rewrite Hch, Hc', Hr. rewrite Hin in Hrd. by split_and!.
Qed.

Lemma receives_read a compression ms pulls calls s :
  Forall (sendable compression) ms -> receives a compression ms pulls calls s -> receive_loop s = Reading ->
  receives a compression ms pulls (calls ++ fst (message_read s)) (snd (message_read s)).
Proof using laws snappy.
  intros Hms Hinv Hloop. pose proof Hinv as (rd & un & hs & -> & Hrd & Hcalls & Hlen & Hc & Hl).
  rewrite Hloop in Hl. destruct Hl as [Hs Hi]. assert (in_handlers s = []) as Hin by (unfold in_handlers; by rewrite Hloop).
  unfold message_read, on_stream.
  destruct (decide (fault (transport_ (stream_ s)) = None /\ un <> [])) as [[Hf Hun]|Hno].
  - destruct un as [|m un]; [done |]. apply Forall_app in Hms as [_ Hms]. apply Forall_cons_iff in Hms as [Hm _].
    destruct (receive_ok (snd (seal_all compression a rd)) m
      (fst (seal_all compression (snd (seal_all compression (snd (seal_all compression a rd)) [m])) un)) (stream_ s))
      as (x & -> & Hi' & Hs' & [= _ _ _ _ Hc']); [done | by rewrite Hc | done | |].
    { rewrite Hc, Hi. change (m :: un) with ([m] ++ un). by rewrite seal_all_app. }
    exists (rd ++ [m]), un, (hs ++ [handlers s]). cbn. unfold in_handlers in *. rewrite Hc in *. cbn.
    rewrite seal_all_app. cbn [snd]. split_and!; try done.
    + by rewrite <- app_assoc.
    + rewrite Hrd, Hin. by rewrite <- !app_assoc.
    + rewrite zip_with_app, concat_app, Hcalls by done. cbn. by rewrite app_nil_r.
    + rewrite !length_app. cbn. lia.
  - destruct (receive_fails (stream_ s)) as (x & -> & Hc').
    { destruct (fault (transport_ (stream_ s))); [by left | right]. destruct un; [done |]. exfalso. by apply Hno. }
    cbn [fst snd]. rewrite app_nil_r. apply (receives_end _ _ _ _ _ s); try done. by eexists.
Qed.

Lemma send_iteration_receiving s : receiving (send_iteration s) = receiving s.
Proof.
  unfold send_iteration. destruct (negb _); [done |]. destruct (send_channel_ s) as [|m q]; cbn [try_pop]; [done |].
  unfold on_stream. cbn [stream_ with_send_channel]. set (params := mkSendParams _ _ _).
  pose proof (preserves_send keccak256 aes_ecb_encrypt_block aes_ctr snappy_compress params (stream_ s)) as Hk.
  destruct (send params (stream_ s)) as [[[]|e|] x]; injection Hk as H1 H2 H3 H4 H5;
    unfold receiving, ingress_half; cbn; congruence.
Qed.

Lemma receives_step a compression ms pulls calls e s :
  Forall (sendable compression) ms -> receives a compression ms pulls calls s ->
  receives a compression ms (pulls ++ pulled (fst (session_step e s))) (calls ++ called (fst (session_step e s)))
    (snd (session_step e s)).
Proof using laws snappy.
  intros Hms Hs. destruct e as [|failed|ec| | | |ec|m| |close_failed|h]; cbn [session_step];
    try (cbn [fst snd pulled called flat_map]; rewrite !app_nil_r).
  - destruct (send_loop s); try done. apply (receives_frame _ _ _ _ _ s); [done | apply send_iteration_receiving].
  - destruct (send_loop s); try done. destruct failed; by apply (receives_frame _ _ _ _ _ s).
  - destruct (send_loop s); try done. destruct ec; by apply (receives_frame _ _ _ _ _ s).
  - destruct (receive_loop s) eqn:Hl; try done. unfold receive_iteration. destruct (negb (is_active s)).
    + apply (receives_end _ _ _ _ _ s); try done; [unfold in_handlers; by rewrite Hl | by eexists].
    + destruct Hs as (rd & un & hs & Hs). exists rd, un, hs. unfold in_handlers in *. by rewrite Hl in Hs.
  - destruct (receive_loop s) eqn:Hl; try (cbn [fst snd pulled called flat_map]; by rewrite !app_nil_r).
    pose proof (receives_read _ _ _ _ _ s Hms Hs Hl) as Hr. destruct (message_read s) as [cs s']. cbn [fst snd] in *.
    destruct (outputs_of_calls cs) as (_ & -> & ->). by rewrite app_nil_r.
  - destruct (receive_loop s) eqn:Hl; try done. destruct Hs as (rd & un & hs & Hm & Hrd & Hs).
    exists rd, un, hs. unfold in_handlers, handler_done, push in *. rewrite Hl in *. cbn. by rewrite app_nil_r.
  - by apply (receives_frame _ _ _ _ _ s).
  - unfold post_message, update, mbind, M_bind. rewrite check_active_spec.
    repeat case_match; simplify_eq; cbn; rewrite !app_nil_r; try done; by apply (receives_frame _ _ _ _ _ s).
  - unfold session_receive_message, update, mbind, M_bind. rewrite check_active_spec.
    destruct (is_active s); [| destruct (is_terminal_state (state_ s)); cbn; by rewrite !app_nil_r].
    cbn. destruct (recv_channel_ s) as [|m q] eqn:Hq; cbn; rewrite !app_nil_r; [done |].
    destruct Hs as (rd & un & hs & Hm & Hrd & Hs). exists rd, un, hs. cbn. split_and!; try apply Hs; try done.
    by rewrite Hrd, Hq, <- app_assoc.
  - apply (receives_frame _ _ _ _ _ s); [done |]. apply disconnect_streams.
  - by apply (receives_frame _ _ _ _ _ s).
Qed.

(** C7: delivery. Whatever the order in which the loops run, the socket breaks, handlers are set and
    the methods are called: the messages that [post_message] accepts reach the wire in that order,
    each once, and all of them but those still queued as long as the session is active; a peer in step
    receives exactly what is on the wire. In the other direction, the messages of the peer are taken
    off the socket in order, each once; every one is routed to the handlers that are set at that time, and
    those that [receive_message] returned, then those that wait, are all of them. *)
Theorem session_delivers a ms events s0 : started s0 -> synced a (cipher_ (stream_ s0)) ->
  let compression := compression_enabled_ (stream_ s0) in
  Forall (sendable compression) ms -> incoming (transport_ (stream_ s0)) = fst (seal_all compression a ms) ->
  Forall (post_ok compression) events ->
  let '(out, s) := run_session events s0 in
  (exists sent lost w,
    posted out = sent ++ lost ++ send_channel_ s /\ (is_active s = true -> lost = [])
    /\ outgoing (transport_ (stream_ s)) = outgoing (transport_ (stream_ s0)) ++ w
    /\ forall b after, synced (cipher_ (stream_ s0)) (cipher_ b) -> compression_enabled_ b = compression ->
         fault (transport_ b) = None -> incoming (transport_ b) = w ++ after ->
         exists b', receive_all (length sent) b = (Ok sent, b') /\ incoming (transport_ b') = after)
  /\ exists read unread hs,
    ms = read ++ unread /\ read = pulled out ++ recv_channel_ s ++ in_handlers s
    /\ called out = concat (zip_with route_message hs read) /\ length hs = length read.
Proof using laws snappy.
  intros (Hact & Hsend & Hrecv & _ & Hloop) Hs compression Hms Hi Hev.
  assert (forall acc pulls calls s, sends (stream_ s0) acc s -> receives a compression ms pulls calls s ->
    sends (stream_ s0) (acc ++ posted (fst (run_session events s))) (snd (run_session events s))
    /\ receives a compression ms (pulls ++ pulled (fst (run_session events s)))
         (calls ++ called (fst (run_session events s))) (snd (run_session events s))) as Hrun.
  { clear Hact Hsend Hrecv Hloop Hs Hi. induction Hev as [|e events He Hev IH]; intros acc pulls calls s H1 H2; cbn [run_session].
    - cbn. by rewrite !app_nil_r.
    - pose proof (sends_step _ _ e s H1 He) as H3. pose proof (receives_step _ _ _ _ _ e s Hms H2) as H4.
      destruct (session_step e s) as [o1 s1]. cbn [fst snd] in *. destruct (IH _ _ _ _ H3 H4) as [H5 H6].
      destruct (run_session events s1) as [o2 s2]. cbn [fst snd] in *. unfold posted, pulled, called in *.
      by rewrite !flat_map_app, !app_assoc. }
  destruct (Hrun [] [] [] s0) as [(sent & lost & Ho & Ha & Hsent & _ & Hl) (rd & un & hs & Hm & Hrd & Hc & Hlen & _)].
  - exists [], []. rewrite Hsend. cbn. rewrite app_nil_r. by split_and!.
  - exists [], ms, []. unfold in_handlers. rewrite Hrecv, Hloop. by split_and!.
  - cbn [app] in *. destruct (run_session events s0) as [out s]. cbn [fst snd] in *. split; [| by exists rd, un, hs].
    exists sent, lost. eexists. split_and!; [done | by intros ?; apply Hl | exact Ho |].
    intros b after Hsb Hcb Hfb Hib. apply Forall_app in Hsent as [Hsent _].
    edestruct (receive_all_ok keccak256 aes_ecb_encrypt_block aes_ctr snappy_compress snappy_length snappy_uncompress sent
      (cipher_ (stream_ s0)) b after) as (b' & Hb & Hib' & _); rewrite ?Hcb; try done. by exists b'.
Qed.

(** What is queued is sent: on a working socket, one turn of the send loop for each message empties
    the channel. *)
Theorem session_drains q : forall s,
  let compression := compression_enabled_ (stream_ s) in
  is_active s = true -> send_loop s = SendReady -> fault (transport_ (stream_ s)) = None ->
  send_channel_ s = q -> Forall (sendable compression) q ->
  let '(out, s') := run_session (flat_map (fun _ => [SendRuns; WriteDone None]) q) s in
  out = [] /\ send_channel_ s' = [] /\ is_active s' = true
  /\ outgoing (transport_ (stream_ s')) = outgoing (transport_ (stream_ s)) ++ fst (seal_all compression (cipher_ (stream_ s)) q).
Proof using laws snappy.
  induction q as [|m q IH]; intros s; cbn zeta; intros Hact Hloop Hf Hq Hs.
  - cbn. by rewrite app_nil_r.
  - apply Forall_cons_iff in Hs as [Hm Hs].
    destruct (send_ok m (compression_enabled_ (stream_ s)) (stream_ s) Hm Hf) as (x & Hx & Ho & Heg & [= _ _ _ Hf' _] & Hc).
    set (s1 := with_send_loop SendReady (with_stream x (with_send_channel q s))).
    change (flat_map _ (m :: q)) with ([SendRuns; WriteDone None] ++ flat_map (fun _ : Message => [SendRuns; WriteDone None]) q).
    cbn [app run_session session_step]. rewrite Hloop. unfold send_iteration. rewrite Hact, Hq. cbn [negb try_pop].
    unfold on_stream. cbn [stream_ with_send_channel]. rewrite Hx. cbn [send_loop with_send_loop write_done app].
    change (with_send_loop SendReady (with_send_loop Writing (with_stream x (with_send_channel q s)))) with s1.
    specialize (IH s1 Hact eq_refl ltac:(by rewrite <- Hf) eq_refl).
    cbn [s1 stream_ with_send_loop with_stream] in IH. rewrite Hc in IH. specialize (IH Hs).
    destruct (run_session _ s1) as [out s']. destruct IH as (-> & Hq' & Hact' & Ho'). split_and!; try done.
    destruct (seal_all_half (compression_enabled_ (stream_ s)) q _ _ Heg) as [Hw _].
    rewrite Ho', Ho, Hw. change (m :: q) with ([m] ++ q). rewrite (seal_all_app _ [m] q). cbn [fst]. by rewrite app_assoc.
Qed.

(** ** The end of a session *)

Lemma terminal_step e s : is_terminal_state (state_ s) = true ->
  let '(out, s') := session_step e s in
  is_terminal_state (state_ s') = true /\ outgoing (transport_ (stream_ s')) = outgoing (transport_ (stream_ s))
  /\ posted out = [] /\ pulled out = [].
Proof.
  intros Ht. assert (is_active s = false) as Hact.
  { unfold is_active, is_terminal_state in *. apply bool_decide_false. intros E. by rewrite E in Ht. }
  destruct e as [|failed|ec| | | |ec|m| |close_failed|h]; cbn [session_step].
  - unfold send_iteration. rewrite Hact. by destruct (send_loop s).
  - by destruct (send_loop s), failed.
  - by destruct (send_loop s), ec.
  - unfold receive_iteration. rewrite Hact. by destruct (receive_loop s).
  - destruct (receive_loop s); try done. unfold message_read, on_stream.
    pose proof (preserves_receive keccak256 aes_ecb_encrypt_block aes_ctr snappy_length snappy_uncompress (stream_ s)) as Hk.
    destruct (receive (stream_ s)) as [[m|e|] x]; injection Hk as _ _ Ho _ _; try done.
    by destruct (outputs_of_calls (route_message (handlers (with_stream x s)) m)) as (-> & -> & _).
  - by destruct (receive_loop s).
  - done.
  - unfold post_message, mbind, M_bind. by rewrite check_active_spec, Hact, Ht.
  - unfold session_receive_message, mbind, M_bind. by rewrite check_active_spec, Hact, Ht.
  - unfold disconnect. by rewrite Ht, orb_true_r.
  - done.
Qed.

(** A session that is closed or has failed stays so: nothing more is written, no message is
    accepted, and none is handed out, not even those that wait in the channel. [disconnect] closes every
    session that has not ended. *)
Theorem session_ends events s :
  is_terminal_state (state_ s) = true ->
  let '(out, s') := run_session events s in
  is_terminal_state (state_ s') = true /\ outgoing (transport_ (stream_ s')) = outgoing (transport_ (stream_ s))
  /\ posted out = [] /\ pulled out = [].
Proof.
  revert s. induction events as [|e events IH]; intros s Ht; [done |]. cbn [run_session].
  pose proof (terminal_step e s Ht) as H1. destruct (session_step e s) as [o1 s1]. destruct H1 as (Ht1 & Ho1 & Hp1 & Hq1).
  specialize (IH s1 Ht1). destruct (run_session events s1) as [o2 s2]. destruct IH as (Ht2 & Ho2 & Hp2 & Hq2).
  unfold posted, pulled in *. by rewrite Ho2, !flat_map_app, Hp1, Hp2, Hq1, Hq2.
Qed.

(** A disconnect of an active session writes nothing, so the peer gets no Disconnect message; the
    read that the receive loop waits for then fails, and the closed session ends in the error state. *)
Theorem disconnect_ends_in_error s close_failed :
  is_active s = true -> is_open (transport_ (stream_ s)) = true -> receive_loop s = Reading ->
  let s1 := disconnect close_failed s in
  let '(out, s2) := run_session [MessageRead] s1 in
  state_ s1 = kClosed /\ state_ s2 = kError /\ out = []
  /\ outgoing (transport_ (stream_ s2)) = outgoing (transport_ (stream_ s)).
Proof.
  intros Hact Ho Hl. cbn zeta. unfold disconnect, is_active, is_terminal_state in *.
  apply bool_decide_eq_true in Hact. rewrite Hact.
  rewrite (bool_decide_false (kActive = kDisconnecting)) by done.
  rewrite (bool_decide_false (kActive = kClosed)), (bool_decide_false (kActive = kError)) by done. cbn [orb].
  set (x := stream_close close_failed (stream_ (with_state kClosed (with_state kDisconnecting s)))).
  assert (fault (transport_ x) <> None /\ outgoing (transport_ x) = outgoing (transport_ (stream_ s))) as [Hf Hout].
  { unfold x, stream_close, close. cbn. by rewrite Ho. }
  clearbody x.
  pose proof (preserves_receive keccak256 aes_ecb_encrypt_block aes_ctr snappy_length snappy_uncompress x) as Hk.
  destruct (receive_fails x (or_introl Hf)) as (x' & Hx' & _). rewrite Hx' in Hk. cbn [snd] in Hk. injection Hk as _ _ Ho' _ _.
  cbn [run_session session_step receive_loop with_stream with_state]. rewrite Hl. unfold message_read, on_stream.
  cbn [stream_ with_stream]. rewrite Hx'. cbn. split_and!; try done. congruence.
Qed.

(** a session is active without a Hello. When the peer's first message is neither a Hello nor a
    Disconnect, or is a Hello that cannot be decoded, [connect] goes on: the session is active with no
    common version, without compression, and under the local client's own name. *)
Theorem active_without_hello params x pi m rest :
  hello_sendable (local_hello params) -> fault (transport_ x) = None ->
  (msg_id m <> kHelloMessageId /\ msg_id m <> kDisconnectMessageId
   \/ msg_id m = kHelloMessageId /\ decode_hello (msg_payload m) = Err SessionError.kInvalidMessage) ->
  compression_enabled_ x = false -> sendable false m ->
  (exists peer, synced peer (cipher_ x) /\ incoming (transport_ x) = fst (seal_all false peer [m]) ++ rest) ->
  exists s, exchange_hellos params (new_session x pi true) = (Ok tt, s)
  /\ started s /\ negotiated_eth_version_ s = 0 /\ peer_info_ s = pi /\ compression_enabled_ (stream_ s) = false.
Proof using laws snappy.
  intros Hl Hf Hm Hc Hms (peer & Hs & Hi). destruct (hello_codec _ Hl) as [Henc _]. destruct Hl as [_ Hls].
  destruct (send_ok (hello_message (local_hello params)) false x ltac:(by rewrite Hc) Hf) as (x1 & Hx1 & _ & _ & [= Hd1 Hm1 Hi1 Hf1 _] & Hc1).
  rewrite Hc in *. destruct (receive_ok peer m rest x1) as (x2 & Hx2 & _ & _ & [= _ _ _ _ Hc2]);
    [destruct Hs; split; congruence | by rewrite Hc1 | congruence | by rewrite Hc1, Hi1 |].
  exists (activate (with_stream x2 (with_stream x1 (new_session x pi true)))). split; [| split_and!; try done; cbn; congruence].
  unfold exchange_hellos, on_stream. rewrite Henc. unfold_m. cbn [stream_ new_session map_err].
  unfold hello_message in Hx1. cbn [msg_id msg_payload] in Hx1. rewrite Hx1. cbn [with_stream stream_]. rewrite Hx2.
  unfold is_hello, is_disconnect. destruct Hm as [[H1 H2] | [H1 H2]].
  - by rewrite (proj2 (Z.eqb_neq _ _) H1), (proj2 (Z.eqb_neq _ _) H2).
  - by rewrite H1, H2.
Qed.

End session.

(** ** Witnesses *)

#[local] Existing Instances ToySecp.toy ToySsl.toy.

#[local] Instance sample_cipher_laws : CipherLaws ToySsl.digest Toy.aes_ctr.
Proof.
  destruct toy_cipher_laws as [H1 H2 H3 _]. split; [exact H1 | exact H2 | exact H3 |].
  intros d. apply (ToySsl.digest_array d).
Defined.

Module SessionSample.
Abbreviation sealed_all := (RlpxFraming.seal_all ToySsl.digest Toy.aes_ecb Toy.aes_ctr Toy.compress).
Abbreviation run := (run_session ToySsl.digest Toy.aes_ecb Toy.aes_ctr Toy.compress Toy.uncompressed_length Toy.uncompress).
Abbreviation connecting := (connect ToySsl.digest Toy.aes_ecb Toy.aes_ctr Toy.compress Toy.uncompressed_length
  Toy.uncompress 1 HandshakeSample.unset HandshakeSample.unset_secrets).

Definition node : Pubkey := HandshakeSample.node.
Definition params : SessionConnectParams :=
  mkConnectParams (text "host") 30303 (key_id node) (repeat 1 32) (key_id node) (text "client") 30303.

(** The peer's Hello, which has versions 67 and 68 and another protocol. *)
Definition hello : HelloMessage :=
  mkHello 5 (text "peer") [mkCapability eth_name 67; mkCapability eth_name 68; mkCapability (text "snap") 1] 30304 (repeat 3 64).

(** The cipher after a handshake with the sample transport, and the peer's. *)
Definition secrets : FrameSecrets :=
  match fst (execute ToySsl.digest 1 HandshakeSample.unset HandshakeSample.unset_secrets (handshake_config params)
               (mkHandshake HandshakeSample.transport 0)) with
  | Ok hs => frame_secrets hs
  | _ => Toy.secrets
  end.
Definition peer : FrameCipher :=
  let c := new_cipher secrets in mkCipher (secrets_ c) (dec c) (enc c) (ingress_mac c) (egress_mac c).

Definition peer_messages : list Message := [mkMessage 0x10 [1; 2; 3]; mkMessage kPingMessageId [0xc0]].
Definition hello_wire : bytes := fst (sealed_all false peer [hello_message hello]).
Definition messages_wire : bytes := fst (sealed_all true (snd (sealed_all false peer [hello_message hello])) peer_messages).
Definition transport : SocketTransport :=
  mkTransport (eip8_prefix 215 ++ HandshakeSample.ack ++ hello_wire ++ messages_wire) [] None true.

Definition session : RlpxSession :=
  match fst (connecting params (Ok transport) 0%nat) with
  | Ok s => s
  | _ => new_session (Toy.stream false []) (connect_peer_info params) true
  end.

Lemma local_sendable : hello_sendable Toy.compress (local_hello params).
Proof. split; [unfold hello_ok, capability_ok, fits; cbn; split_and!; try lia; octets | split_and!; octets]. Defined.

Lemma peer_sendable : hello_sendable Toy.compress hello.
Proof. split; [unfold hello_ok, capability_ok, fits; cbn; split_and!; try lia; octets | split_and!; octets]. Defined.
End SessionSample.

Lemma peer_synced : synced SessionSample.peer (new_cipher SessionSample.secrets)
  /\ synced (new_cipher SessionSample.secrets) SessionSample.peer.
Proof. by split. Defined.

Lemma session_connects_witness : exists s h,
  SessionSample.connecting SessionSample.params (Ok SessionSample.transport) 0%nat = (Ok s, h)
  /\ is_active s = true /\ negotiated_eth_version_ s = kEthProtocolVersion68
  /\ compression_enabled_ (stream_ s) = true /\ incoming (transport_ (stream_ s)) = SessionSample.messages_wire.
Proof.
  destruct (execute ToySsl.digest 1 HandshakeSample.unset HandshakeSample.unset_secrets
    (handshake_config SessionSample.params) (mkHandshake SessionSample.transport 0)) as [r h] eqn:E.
  assert (exists hs, r = Ok hs /\ frame_secrets hs = SessionSample.secrets /\ fault (hs_transport h) = None
    /\ incoming (hs_transport h) = SessionSample.hello_wire ++ SessionSample.messages_wire) as (hs & -> & Hsec & Hf & Hi).
  { vm_compute in E. injection E as <- <-. eexists. split; [reflexivity |]. vm_compute. by split_and!. }
  destruct (session_connects ToySsl.digest Toy.aes_ecb Toy.aes_ctr Toy.compress Toy.uncompressed_length Toy.uncompress
    1 HandshakeSample.unset HandshakeSample.unset_secrets SessionSample.params SessionSample.transport 0 hs h
    SessionSample.peer SessionSample.hello SessionSample.messages_wire E Hf) as (s & H1 & (H2 & _) & _ & H3 & [H4 H4'] & _ & _ & H5 & _).
  - rewrite Hsec. apply peer_synced.
  - rewrite Hsec. apply peer_synced.
  - apply SessionSample.local_sendable.
  - apply SessionSample.peer_sendable.
  - exact Hi.
  - exists s, (draws h). split; [exact H1 |]. split; [unfold is_active; by rewrite H2 |].
    split; [| split; [exact H5 | exact H3]].
    specialize (H4' 68 ltac:(by right; left) ltac:(by split)). destruct H4 as [H4 | [_ H4]]; [lia |].
    destruct H4 as [H4 | [H4 | [H4 | []]]]; injection H4 as H4; try lia; by rewrite <- H4.
Defined.

(** Messages posted and read around a handler that is set late, and a disconnect. *)
Module SessionRun.
Definition out_message : Message := mkMessage 0x12 [9].
Definition ping_handlers : Handlers := mkHandlers None None (Some 7) None None.
Definition events : list session_event :=
  [ReceiveRuns; MessageRead; Post out_message; SendRuns; SetHandlers ping_handlers; HandlersReturn; Pull; ReceiveRuns;
   MessageRead; HandlersReturn; WriteDone None; Disconnect false; Pull; Post out_message; SendRuns].
End SessionRun.

Lemma session_run_ok :
  started SessionSample.session
  /\ synced (snd (SessionSample.sealed_all false SessionSample.peer [hello_message SessionSample.hello]))
       (cipher_ (stream_ SessionSample.session))
  /\ compression_enabled_ (stream_ SessionSample.session) = true
  /\ incoming (transport_ (stream_ SessionSample.session)) = SessionSample.messages_wire.
Proof. vm_compute. by split_and!. Defined.

Lemma messages_sendable : Forall (sendable Toy.compress true) (SessionRun.out_message :: SessionSample.peer_messages).
Proof. repeat constructor; try (unfold uint8; cbn; lia); by vm_compute. Defined.

Lemma session_delivers_witness :
  let '(out, s) := SessionSample.run SessionRun.events SessionSample.session in
  posted out = [SessionRun.out_message] /\ called out = [PingCall 7 mkPing]
  /\ pulled out ++ recv_channel_ s = SessionSample.peer_messages
  /\ exists sent lost, posted out = sent ++ lost ++ send_channel_ s.
Proof.
  destruct session_run_ok as (H1 & H2 & H3 & H4). destruct (proj1 (Forall_cons_iff _ _ _) messages_sendable) as [Hout Hpeer].
  pose proof (session_delivers ToySsl.digest Toy.aes_ecb Toy.aes_ctr Toy.compress Toy.uncompressed_length Toy.uncompress
    _ SessionSample.peer_messages SessionRun.events _ H1 H2) as H. cbn zeta in H. rewrite H3 in H.
  specialize (H Hpeer H4 ltac:(repeat constructor; apply Hout)).
  destruct (SessionSample.run SessionRun.events SessionSample.session) as [out s] eqn:E.
  destruct H as [(sent & lost & w & H & _) _]. assert (E' := E). vm_compute in E'. injection E' as Ho Hs.
  split; [by rewrite <- Ho |]. split; [by rewrite <- Ho |]. split; [by rewrite <- Ho, <- Hs |].
  exists sent, lost. exact H.
Defined.

Lemma session_drains_witness :
  let '(_, s) := post_message SessionRun.out_message SessionSample.session in
  let '(out, s') := SessionSample.run [SendRuns; WriteDone None] s in out = [] /\ send_channel_ s' = [].
Proof.
  pose proof (session_drains ToySsl.digest Toy.aes_ecb Toy.aes_ctr Toy.compress Toy.uncompressed_length Toy.uncompress
    [SessionRun.out_message] (snd (post_message SessionRun.out_message SessionSample.session))) as H.
  assert (snd (post_message SessionRun.out_message SessionSample.session)
    = with_send_channel [SessionRun.out_message] SessionSample.session) as E by (vm_compute; reflexivity).
  cbn zeta in H. specialize (H ltac:(vm_compute; reflexivity) ltac:(vm_compute; reflexivity) ltac:(vm_compute; reflexivity)
    ltac:(vm_compute; reflexivity)).
  destruct (post_message _ _) as [r s]. cbn [snd] in *. cbn [flat_map app] in H.
  destruct (SessionSample.run [SendRuns; WriteDone None] s) as [out s'].
  destruct H as (H5 & H6 & _); [| by split]. rewrite E. destruct (proj1 (Forall_cons_iff _ _ _) messages_sendable) as [Hout _].
  by constructor.
Defined.

Lemma session_ends_witness :
  let s := disconnect false SessionSample.session in
  is_terminal_state (state_ s) = true
  /\ let '(out, s') := SessionSample.run [Post SessionRun.out_message; SendRuns] s in
     is_terminal_state (state_ s') = true /\ posted out = [].
Proof.
  cbn zeta. assert (is_terminal_state (state_ (disconnect false SessionSample.session)) = true) as Ht by (vm_compute; reflexivity).
  split; [exact Ht |].
  pose proof (session_ends ToySsl.digest Toy.aes_ecb Toy.aes_ctr Toy.compress Toy.uncompressed_length Toy.uncompress
    [Post SessionRun.out_message; SendRuns] _ Ht) as H.
  destruct (SessionSample.run _ _) as [out s']. destruct H as (H1 & _ & H2 & _). by split.
Defined.

Lemma disconnect_ends_in_error_witness :
  let s1 := disconnect false (with_receive_loop Reading SessionSample.session) in
  let '(out, s2) := SessionSample.run [MessageRead] s1 in state_ s1 = kClosed /\ state_ s2 = kError /\ out = [].
Proof.
  cbn zeta. pose proof (disconnect_ends_in_error ToySsl.digest Toy.aes_ecb Toy.aes_ctr Toy.compress Toy.uncompressed_length
    Toy.uncompress (with_receive_loop Reading SessionSample.session) false) as H. cbn zeta in H.
  specialize (H ltac:(vm_compute; reflexivity) ltac:(vm_compute; reflexivity) eq_refl).
  destruct (SessionSample.run _ _) as [out s2]. destruct H as (H1 & H2 & H3 & _). split; [exact H1 |]. by split.
Defined.

(** A peer whose first message is a Ping. *)
Lemma active_without_hello_witness :
  let ping := mkMessage kPingMessageId [0xc0] in
  let x := new_stream (new_cipher SessionSample.secrets)
    (mkTransport (fst (SessionSample.sealed_all false SessionSample.peer [ping]) ++ []) [] None true) in
  exists s, exchange_hellos ToySsl.digest Toy.aes_ecb Toy.aes_ctr Toy.compress Toy.uncompressed_length Toy.uncompress
    SessionSample.params (new_session x (connect_peer_info SessionSample.params) true) = (Ok tt, s)
  /\ is_active s = true /\ negotiated_eth_version_ s = 0 /\ info_client_id (peer_info_ s) = text "client".
Proof.
  intros ping x. destruct (active_without_hello ToySsl.digest Toy.aes_ecb Toy.aes_ctr Toy.compress Toy.uncompressed_length
    Toy.uncompress SessionSample.params x (connect_peer_info SessionSample.params) ping []) as (s & H1 & (H2 & _) & H3 & H4 & _).
  - apply SessionSample.local_sendable.
  - done.
  - left. by split.
  - done.
  - split_and!; octets.
  - exists SessionSample.peer. split; [apply peer_synced | reflexivity].
  - exists s. split; [exact H1 |]. split; [unfold is_active; by rewrite H2 |]. split; [exact H3 |]. by rewrite H4.
Defined.
