(* ===== verification/Discv5Types.v ===== *)
(** * Discv5Types: constants, errors and records of the discv5 layer

    [include/discv5/discv5_constants.hpp], [include/discv5/discv5_types.hpp],
    [include/discv5/discv5_error.hpp], [src/discv5/discv5_error.cpp],
    [include/discovery/discovered_peer.hpp]. Keys, nonces, identifiers and digests are octet
    lists, and so are strings. The wire structs only give sizes and offsets. *)
From stdpp Require Export gmap.
From S2P Require Export Common.
Open Scope Z_scope.

(** ** Sizes *)

Definition kDefaultUdpPort : Z := 9000.
Definition kDefaultTcpPort : Z := 30303.
Definition kNodeIdBytes : Z := 64.
Definition kCompressedKeyBytes : Z := 33.
Definition kPrivateKeyBytes : Z := 32.
Definition kUncompressedPubKeyPrefix : Z := 0x04.
Definition kKeccak256Bytes : Z := 32.
Definition kIPv4Bytes : Z := 4.
Definition kIPv6Bytes : Z := 16.
Definition kMaxPortBytes : Z := 2.
Definition kForkHashBytes : Z := 4.
Definition kProtocolIdBytes : Z := 6.
Definition kProtocolId : bytes := text "discv5".
Definition kGcmNonceBytes : Z := 12.
Definition kMaskingIvBytes : Z := 16.
Definition kWhoareyouIdNonceBytes : Z := 16.
Definition kMinPacketBytes : Z := 63.
Definition kMaxPacketBytes : Z := 1280.
Definition kAes128KeyBytes : Z := 16.
Definition kGcmTagBytes : Z := 16.
Definition kRandomMessageCiphertextBytes : Z := 20.
Definition kFindNodeDistanceAll : Z := 256.
Definition kHkdfFirstBlockCounter : Z := 0x01.
Definition kMessageTypePrefixBytes : Z := 1.
Definition kNodesResponseCountSingle : Z := 1.
Definition kEnrMaxBytes : Z := 300.
Definition kEnrSigBytes : Z := 64.
Definition kEnrPrefixLen : Z := 4.
Definition kEnrPrefix : bytes := text "enr:".
Definition kInitialEnrSeq : Z := 1.
Definition kIdentitySchemeV4 : bytes := text "v4".
Definition kEnrKeyId : bytes := text "id".
Definition kEnrKeyIp : bytes := text "ip".
Definition kEnrKeySecp256k1 : bytes := text "secp256k1".
Definition kEnrKeyTcp : bytes := text "tcp".
Definition kEnrKeyUdp : bytes := text "udp".
Definition kBase64UpperCount : Z := 26.
Definition kBase64LowerCount : Z := 26.
Definition kBase64DigitCount : Z := 10.
Definition kBase64LowerStart : Z := kBase64UpperCount.
Definition kBase64DigitStart : Z := kBase64UpperCount + kBase64LowerCount.
Definition kBase64DashIndex : Z := 62.
Definition kBase64UnderIndex : Z := 63.
Definition kBase64Invalid : Z := 0xFF.
Definition kBase64BitsPerChar : Z := 6.
Definition kBase64BitsPerByte : Z := 8.
Definition kDefaultMaxConcurrent : Z := 8.

(** The packed [StaticHeaderWire]: the protocol id, the version, the flag, the nonce and the
    size of the auth data; with the masking IV before it, [kStaticPacketBytes]. *)
Definition kStaticHeaderVersionOffset : Z := kProtocolIdBytes.
Definition kStaticHeaderFlagOffset : Z := kStaticHeaderVersionOffset + 2.
Definition kStaticHeaderNonceOffset : Z := kStaticHeaderFlagOffset + 1.
Definition kStaticHeaderAuthSizeOffset : Z := kStaticHeaderNonceOffset + kGcmNonceBytes.
Definition kStaticHeaderBytes : Z := kStaticHeaderAuthSizeOffset + 2.
Definition kStaticPacketBytes : Z := kMaskingIvBytes + kStaticHeaderBytes.

(** [WhoareyouAuthDataWire] and the fixed part of the handshake's auth data. *)
Definition kWhoareyouAuthDataBytes : Z := kWhoareyouIdNonceBytes + 8.
Definition kHandshakeAuthSigSizeOffset : Z := kKeccak256Bytes.
Definition kHandshakeAuthPubkeySizeOffset : Z := kHandshakeAuthSigSizeOffset + 1.
Definition kHandshakeAuthFixedBytes : Z := kKeccak256Bytes + 2 * 1.

Definition kFlagMessage : Z := 0.
Definition kFlagWhoareyou : Z := 1.
Definition kFlagHandshake : Z := 2.
Definition kMsgPing : Z := 0x01.
Definition kMsgPong : Z := 0x02.
Definition kMsgFindNode : Z := 0x03.
Definition kMsgNodes : Z := 0x04.
Definition kMsgTalkReq : Z := 0x05.
Definition kMsgTalkResp : Z := 0x06.
Definition kProtocolVersion : Z := 1.

(** ** Errors *)

Inductive discv5Error :=
| kEnrMissingPrefix | kEnrBase64DecodeFailed | kEnrRlpDecodeFailed | kEnrTooShort | kEnrTooLarge
| kEnrSignatureInvalid | kEnrSignatureWrongSize | kEnrMissingSecp256k1Key
| kEnrInvalidSecp256k1Key | kEnrMissingAddress | kEnrInvalidIp | kEnrInvalidIp6
| kEnrInvalidUdpPort | kEnrInvalidEthEntry | kEnrIdentityUnknown | kEnodeUriMalformed
| kEnodeHexPubkeyInvalid | kContextCreationFailed | kCrawlerAlreadyRunning | kCrawlerNotRunning
| kNetworkSendFailed | kNetworkReceiveFailed.

#[export] Instance discv5Error_eq_dec : EqDecision discv5Error.
Proof. solve_decision. Defined.

Definition to_string (error : discv5Error) : string :=
  match error with
  | kEnrMissingPrefix => "ENR URI does not start with 'enr:'"
  | kEnrBase64DecodeFailed => "Base64url decode of ENR body failed"
  | kEnrRlpDecodeFailed => "RLP decode of ENR record failed"
  | kEnrTooShort => "ENR RLP list has too few items (need signature + seq + at least one kv pair)"
  | kEnrTooLarge => "Serialised ENR exceeds maximum allowed size"
  | kEnrSignatureInvalid => "ENR secp256k1-v4 signature verification failed"
  | kEnrSignatureWrongSize => "ENR signature field is not 64 bytes"
  | kEnrMissingSecp256k1Key => "ENR record is missing required 'secp256k1' field"
  | kEnrInvalidSecp256k1Key => "ENR 'secp256k1' field is not a valid compressed public key"
  | kEnrMissingAddress => "ENR record has no dialable address ('ip' or 'ip6')"
  | kEnrInvalidIp => "ENR 'ip' field is not exactly 4 bytes"
  | kEnrInvalidIp6 => "ENR 'ip6' field is not exactly 16 bytes"
  | kEnrInvalidUdpPort => "ENR 'udp' port value is zero or out of range"
  | kEnrInvalidEthEntry => "ENR 'eth' entry could not be decoded as [fork_hash, fork_next]"
  | kEnrIdentityUnknown => "ENR 'id' field names an unsupported identity scheme"
  | kEnodeUriMalformed => "enode:// URI could not be parsed"
  | kEnodeHexPubkeyInvalid => "Hex-encoded public key in enode URI is invalid"
  | kContextCreationFailed => "Failed to create secp256k1 context"
  | kCrawlerAlreadyRunning => "Crawler start() called while already running"
  | kCrawlerNotRunning => "Crawler stop() called while not running"
  | kNetworkSendFailed => "UDP send operation failed"
  | kNetworkReceiveFailed => "UDP receive operation failed"
  end%string.

(** What a call ends in when it does not return a value: an error, or [Lost]: the code reads
    outside a buffer, or an exception leaves a [noexcept] function and ends the process. *)
Inductive fault :=
| Error (e : discv5Error)
| Lost.

#[export] Instance fault_eq_dec : EqDecision fault.
Proof. solve_decision. Defined.

Abbreviation Discv5Result := (outcome fault).

(** ** Records *)

(** [discovery::ForkId]. *)
Record ForkId := mkForkId { hash : bytes; next : Z }.

#[export] Instance ForkId_eq_dec : EqDecision ForkId.
Proof. solve_decision. Defined.

(** [discovery::ValidatedPeer]; [last_seen] is a reading of the steady clock. *)
Record ValidatedPeer := mkPeer {
  peer_node_id : bytes;
  peer_ip : bytes;
  peer_udp_port : Z;
  peer_tcp_port : Z;
  peer_last_seen : Z;
  peer_eth_fork_id : option ForkId
}.

#[export] Instance ValidatedPeer_eq_dec : EqDecision ValidatedPeer.
Proof. solve_decision. Defined.

Record EnrRecord := mkRecord {
  enr_seq : Z;
  raw_rlp : bytes;
  node_id : bytes;
  compressed_pubkey : bytes;
  ip : bytes;
  ip6 : bytes;
  udp_port : Z;
  tcp_port : Z;
  udp6_port : Z;
  tcp6_port : Z;
  identity_scheme : bytes;
  eth_fork_id : option ForkId;
  extra_fields : gmap bytes bytes
}.

(** The fields of [discv5Config] the code reads. *)
Record discv5Config := mkConfig {
  bind_ip : bytes;
  bind_port : Z;
  config_tcp_port : Z;
  private_key : bytes;
  public_key : bytes;
  bootstrap_enrs : list bytes;
  max_concurrent_queries : Z;
  query_interval_sec : Z;
  required_fork_id : option ForkId
}.
