(* ===== verification/Discv5Enr.v ===== *)
(** * Discv5Enr: Ethereum node records

    [include/discv5/discv5_enr.hpp], [src/discv5/discv5_enr.cpp]. Keccak-256, libsecp256k1
    ([Secp256k1.v]), the text form of IP addresses and the steady clock are parameters.

    Theorems: Base64url ([base64url_decode_encode]); a record is accepted when its signature
    verifies, with its fields ([signed_record_accepted]), even without an address
    ([addressless_record_accepted]); but fields after its end are accepted
    unsigned ([unsigned_fields_accepted]), its own keys can replace the signature that is checked
    ([forged_record_accepted]), a value that is a list hides what follows it
    ([list_value_ends_record]), and one kind of malformed record makes the decoder leave its
    buffer ([decode_rlp_safe]). *)
From S2P Require Export Discv5Types Addresses Codec Secp256k1.
Open Scope Z_scope.

(** ** Base64url *)

(** [kBase64UrlTable]; ['A'], ['a'], ['0'], ['-'] and ['_'] are 65, 97, 48, 45 and 95. *)
Definition kBase64UrlTable (ch : Z) : Z :=
  if (65 <=? ch) && (ch <? 65 + kBase64UpperCount) then ch - 65
  else if (97 <=? ch) && (ch <? 97 + kBase64LowerCount) then kBase64LowerStart + (ch - 97)
  else if (48 <=? ch) && (ch <? 48 + kBase64DigitCount) then kBase64DigitStart + (ch - 48)
  else if ch =? 45 then kBase64DashIndex
  else if ch =? 95 then kBase64UnderIndex
  else kBase64Invalid.

(** The lambda [effective_len], from the first [n] characters; ['='] is 61. *)
Fixpoint effective_len (n : nat) (body : bytes) : nat :=
  match n with
  | O => O
  | S n' => if byte_at body (Z.of_nat n') =? 61 then effective_len n' body else n
  end.

(** The loop over the characters. *)
Fixpoint base64_loop (accumulator bits : Z) (chars : bytes) : Discv5Result bytes :=
  match chars with
  | [] => Ok []
  | ch :: chars =>
      let val := kBase64UrlTable ch in
      if val =? kBase64Invalid then Err (Error kEnrBase64DecodeFailed) else
      let accumulator := Z.lor (u32 (Z.shiftl accumulator kBase64BitsPerChar)) val in
      let bits := bits + kBase64BitsPerChar in
      if kBase64BitsPerByte <=? bits then
        let bits := bits - kBase64BitsPerByte in
        obind (base64_loop accumulator bits chars)
          (fun out => Ok (u8 (Z.land (Z.shiftr accumulator bits) 0xFF) :: out))
      else base64_loop accumulator bits chars
  end.

Definition base64url_decode (body : bytes) : Discv5Result bytes :=
  base64_loop 0 0 (take (effective_len (length body) body) body).

Definition decode_uri (enr_uri : bytes) : Discv5Result bytes :=
  if (len enr_uri <? kEnrPrefixLen)
     || negb (bool_decide (take (Z.to_nat kEnrPrefixLen) enr_uri = kEnrPrefix))
  then Err (Error kEnrMissingPrefix)
  else base64url_decode (drop (Z.to_nat kEnrPrefixLen) enr_uri).

(** ** Fields *)

(** Assignments to one field of a record. *)
Definition with_identity_scheme (x : bytes) (r : EnrRecord) : EnrRecord :=
  mkRecord (enr_seq r) (raw_rlp r) (node_id r) (compressed_pubkey r) (ip r) (ip6 r) (udp_port r) (tcp_port r)
    (udp6_port r) (tcp6_port r) x (eth_fork_id r) (extra_fields r).
Definition with_pubkey (x : bytes) (r : EnrRecord) : EnrRecord :=
  mkRecord (enr_seq r) (raw_rlp r) (node_id r) x (ip r) (ip6 r) (udp_port r) (tcp_port r)
    (udp6_port r) (tcp6_port r) (identity_scheme r) (eth_fork_id r) (extra_fields r).
Definition with_ip (x : bytes) (r : EnrRecord) : EnrRecord :=
  mkRecord (enr_seq r) (raw_rlp r) (node_id r) (compressed_pubkey r) x (ip6 r) (udp_port r) (tcp_port r)
    (udp6_port r) (tcp6_port r) (identity_scheme r) (eth_fork_id r) (extra_fields r).
Definition with_ip6 (x : bytes) (r : EnrRecord) : EnrRecord :=
  mkRecord (enr_seq r) (raw_rlp r) (node_id r) (compressed_pubkey r) (ip r) x (udp_port r) (tcp_port r)
    (udp6_port r) (tcp6_port r) (identity_scheme r) (eth_fork_id r) (extra_fields r).
Definition with_udp (x : Z) (r : EnrRecord) : EnrRecord :=
  mkRecord (enr_seq r) (raw_rlp r) (node_id r) (compressed_pubkey r) (ip r) (ip6 r) x (tcp_port r)
    (udp6_port r) (tcp6_port r) (identity_scheme r) (eth_fork_id r) (extra_fields r).
Definition with_tcp (x : Z) (r : EnrRecord) : EnrRecord :=
  mkRecord (enr_seq r) (raw_rlp r) (node_id r) (compressed_pubkey r) (ip r) (ip6 r) (udp_port r) x
    (udp6_port r) (tcp6_port r) (identity_scheme r) (eth_fork_id r) (extra_fields r).
Definition with_udp6 (x : Z) (r : EnrRecord) : EnrRecord :=
  mkRecord (enr_seq r) (raw_rlp r) (node_id r) (compressed_pubkey r) (ip r) (ip6 r) (udp_port r) (tcp_port r)
    x (tcp6_port r) (identity_scheme r) (eth_fork_id r) (extra_fields r).
Definition with_tcp6 (x : Z) (r : EnrRecord) : EnrRecord :=
  mkRecord (enr_seq r) (raw_rlp r) (node_id r) (compressed_pubkey r) (ip r) (ip6 r) (udp_port r) (tcp_port r)
    (udp6_port r) x (identity_scheme r) (eth_fork_id r) (extra_fields r).
Definition with_eth (x : ForkId) (r : EnrRecord) : EnrRecord :=
  mkRecord (enr_seq r) (raw_rlp r) (node_id r) (compressed_pubkey r) (ip r) (ip6 r) (udp_port r) (tcp_port r)
    (udp6_port r) (tcp6_port r) (identity_scheme r) (Some x) (extra_fields r).
Definition with_extra (x : gmap bytes bytes) (r : EnrRecord) : EnrRecord :=
  mkRecord (enr_seq r) (raw_rlp r) (node_id r) (compressed_pubkey r) (ip r) (ip6 r) (udp_port r) (tcp_port r)
    (udp6_port r) (tcp6_port r) (identity_scheme r) (eth_fork_id r) x.
Definition with_node_id (x : bytes) (r : EnrRecord) : EnrRecord :=
  mkRecord (enr_seq r) (raw_rlp r) x (compressed_pubkey r) (ip r) (ip6 r) (udp_port r) (tcp_port r)
    (udp6_port r) (tcp6_port r) (identity_scheme r) (eth_fork_id r) (extra_fields r).

Section enr.
Context `{AddressText}.

Definition decode_ipv4 (bs : bytes) : Discv5Result bytes :=
  if negb (len bs =? kIPv4Bytes) then Err (Error kEnrInvalidIp) else Ok (address_v4_to_string bs).

Definition decode_ipv6 (bs : bytes) : Discv5Result bytes :=
  if negb (len bs =? kIPv6Bytes) then Err (Error kEnrInvalidIp6) else Ok (address_v6_to_string bs).

Definition decode_port (bs : bytes) : Discv5Result Z :=
  if empty bs || (kMaxPortBytes <? len bs) then Err (Error kEnrInvalidUdpPort) else
  let port := fold_left (fun port b => u16 (Z.lor (Z.shiftl port 8) b)) bs 0 in
  if port =? 0 then Err (Error kEnrInvalidUdpPort) else Ok port.

(** A read of the decoder whose failure is answered with [e]. *)
Definition try {A} (m : DecM A) (e : discv5Error) : M bytes fault A := with_error (Error e) m.

Definition decode_eth_entry_from_decoder : M bytes fault ForkId :=
  is_list ← try IsList kEnrInvalidEthEntry;
  fail_if (negb is_list) (Error kEnrInvalidEthEntry) ;;
  _ ← try ReadListHeaderBytes kEnrInvalidEthEntry;
  is_list ← try IsList kEnrInvalidEthEntry;
  fail_if (negb is_list) (Error kEnrInvalidEthEntry) ;;
  _ ← try ReadListHeaderBytes kEnrInvalidEthEntry;
  hash_bytes ← try read_bytes kEnrInvalidEthEntry;
  fail_if (negb (len hash_bytes =? kForkHashBytes)) (Error kEnrInvalidEthEntry) ;;
  next ← try (read_integral 8) kEnrInvalidEthEntry;
  mret (mkForkId hash_bytes next).

Definition decode_eth_entry (bs : bytes) : Discv5Result ForkId :=
  if empty bs then Err (Error kEnrInvalidEthEntry) else fst (decode_eth_entry_from_decoder bs).

(** [if (result) { assignment }]. *)
Definition assign {A} (result : Discv5Result A) (f : A -> EnrRecord -> EnrRecord) (r : EnrRecord) : EnrRecord :=
  match result with Ok a => f a r | _ => r end.

(** The chain of tests on the key. *)
Definition set_field (key val : bytes) (r : EnrRecord) : EnrRecord :=
  if bool_decide (key = text "id") then with_identity_scheme val r
  else if bool_decide (key = text "secp256k1") then
    if len val =? kCompressedKeyBytes then with_pubkey val r else r
  else if bool_decide (key = text "ip") then assign (decode_ipv4 val) with_ip r
  else if bool_decide (key = text "ip6") then assign (decode_ipv6 val) with_ip6 r
  else if bool_decide (key = text "tcp") then assign (decode_port val) with_tcp r
  else if bool_decide (key = text "udp") then assign (decode_port val) with_udp r
  else if bool_decide (key = text "tcp6") then assign (decode_port val) with_tcp6 r
  else if bool_decide (key = text "udp6") then assign (decode_port val) with_udp6 r
  else if bool_decide (key = text "eth") then assign (decode_eth_entry val) with_eth r
  else with_extra (<[ key := val ]> (extra_fields r)) r.

(** The loop over keys and values; it stops at the end of the view, or where a key or a value
    cannot be read as a string. *)
Fixpoint read_fields (fuel : nat) (r : EnrRecord) : M bytes fault EnrRecord := fun v =>
  match fuel with
  | O => (Diverged, v)
  | S fuel =>
      if empty v then (Ok r, v)
      else match read_bytes v with
      | (Ok key, v) =>
          match read_bytes v with
          | (Ok val, v) => read_fields fuel (set_field key val r) v
          | (Err _, v) => (Ok r, v)
          | (Diverged, v) => (Diverged, v)
          end
      | (Err _, v) => (Ok r, v)
      | (Diverged, v) => (Diverged, v)
      end
  end.

(** ** Records *)

Definition sig_key : bytes := text "__sig__".
Definition content_key : bytes := text "__content__".

(** The signed content: the first [content_elements_len] octets after the signature, wrapped in
    a list. A length beyond the view is a read outside it. *)
Definition content_bytes (content_elements_len : Z) (after_sig : bytes) : Discv5Result bytes :=
  if len after_sig <? content_elements_len then Err Lost
  else map_err (Error kEnrRlpDecodeFailed)
         (run_encoder ((BeginList ;; AddRaw (take (Z.to_nat content_elements_len) after_sig) ;; EndList) ;; MoveBytes)).

(** The record before its fields are read. *)
Definition initial_record (raw sig_bytes content : bytes) (seq : Z) : EnrRecord :=
  {| enr_seq := seq; raw_rlp := raw; node_id := repeat 0 64; compressed_pubkey := repeat 0 33;
     ip := []; ip6 := []; udp_port := 0; tcp_port := 0; udp6_port := 0; tcp6_port := 0;
     identity_scheme := []; eth_fork_id := None;
     extra_fields := <[ content_key := content ]> (<[ sig_key := sig_bytes ]> ∅) |}.

Definition decode_rlp_from_decoder (raw : bytes) : M bytes fault EnrRecord :=
  is_list ← try IsList kEnrRlpDecodeFailed;
  fail_if (negb is_list) (Error kEnrRlpDecodeFailed) ;;
  list_payload_len ← try ReadListHeaderBytes kEnrRlpDecodeFailed;
  after_list_header ← get_state;
  sig_bytes ← try read_bytes kEnrRlpDecodeFailed;
  fail_if (negb (len sig_bytes =? kEnrSigBytes)) (Error kEnrSignatureWrongSize) ;;
  after_sig ← get_state;
  let sig_consumed := len after_list_header - len after_sig in
  content ← lift (content_bytes (usize (list_payload_len - sig_consumed)) after_sig);
  seq ← try (read_integral 8) kEnrRlpDecodeFailed;
  record ← (fun v => read_fields (S (length v)) (initial_record raw sig_bytes content seq) v);
  fail_if (bool_decide (compressed_pubkey record = repeat 0 33)) (Error kEnrMissingSecp256k1Key) ;;
  mret record.

Definition decode_rlp (raw : bytes) : Discv5Result EnrRecord := fst (decode_rlp_from_decoder raw raw).

Context (keccak256 : bytes -> bytes) `{Secp256k1}.

Definition decompress_pubkey (compressed : bytes) : Discv5Result bytes :=
  if negb context_create then Err (Error kContextCreationFailed)
  else match ec_pubkey_parse compressed with
  | None => Err (Error kEnrInvalidSecp256k1Key)
  | Some pubkey => Ok (take (Z.to_nat kNodeIdBytes) (drop 1 (ec_pubkey_serialize false pubkey)))
  end.

(** [if (!f(...)) return e;] for a function of libsecp256k1 that fills in its result. *)
Definition some_or {S A} (o : option A) (e : discv5Error) : M S fault A :=
  lift (match o with Some a => Ok a | None => Err (Error e) end).

(** [secp256k1_ecdsa_signature_parse_compact] reads 64 octets from [sig_bytes.data()]. *)
Definition verify_signature : M EnrRecord fault unit :=
  record ← get_state;
  match extra_fields record !! sig_key, extra_fields record !! content_key with
  | Some sig_bytes, Some content =>
      let hash_array := keccak256 content in
      fail_if (negb context_create) (Error kContextCreationFailed) ;;
      pubkey ← some_or (ec_pubkey_parse (compressed_pubkey record)) kEnrInvalidSecp256k1Key;
      fail_if (len sig_bytes <? kEnrSigBytes) Lost ;;
      sig ← some_or (ecdsa_signature_parse_compact (take (Z.to_nat kEnrSigBytes) sig_bytes)) kEnrSignatureInvalid;
      fail_if (negb (ecdsa_verify sig hash_array pubkey)) (Error kEnrSignatureInvalid) ;;
      id ← lift (decompress_pubkey (compressed_pubkey record));
      put_state (with_extra (delete content_key (delete sig_key (extra_fields record)))
                   (with_node_id id record))
  | _, _ => throw (Error kEnrRlpDecodeFailed)
  end.

(** A record after [verify_signature]. *)
Definition verified (record : EnrRecord) : Discv5Result EnrRecord :=
  let '(result, record) := verify_signature record in obind result (fun _ => Ok record).

Definition parse (enr_uri : bytes) : Discv5Result EnrRecord :=
  obind (decode_uri enr_uri) (fun raw =>
  if kEnrMaxBytes <? len raw then Err (Error kEnrTooLarge)
  else obind (decode_rlp raw) verified).

(** [now] is the reading of the steady clock. *)
Definition to_validated_peer (now : Z) (record : EnrRecord) : Discv5Result ValidatedPeer :=
  let or_default port default := if negb (port =? 0) then port else default in
  if empty (ip record) && empty (ip6 record) then Err (Error kEnrMissingAddress)
  else if negb (empty (ip record)) then
    Ok {| peer_node_id := node_id record; peer_ip := ip record;
          peer_udp_port := or_default (udp_port record) kDefaultUdpPort;
          peer_tcp_port := or_default (tcp_port record) kDefaultTcpPort;
          peer_last_seen := now; peer_eth_fork_id := eth_fork_id record |}
  else
    Ok {| peer_node_id := node_id record; peer_ip := ip6 record;
          peer_udp_port := or_default (udp6_port record) kDefaultUdpPort;
          peer_tcp_port := or_default (tcp6_port record) kDefaultTcpPort;
          peer_last_seen := now; peer_eth_fork_id := eth_fork_id record |}.
End enr.

(** ** Base64url decodes what RFC 4648 encodes *)

Definition base64url_char (v : Z) : Z :=
  if v <? 26 then 65 + v
  else if v <? 52 then 97 + (v - 26)
  else if v <? 62 then 48 + (v - 52)
  else if v =? 62 then 45 else 95.

Fixpoint base64url_encode (bs : bytes) : bytes :=
  match bs with
  | a :: b :: c :: bs =>
      base64url_char (a / 4) :: base64url_char (a mod 4 * 16 + b / 16)
      :: base64url_char (b mod 16 * 4 + c / 64) :: base64url_char (c mod 64) :: base64url_encode bs
  | [a; b] => [base64url_char (a / 4); base64url_char (a mod 4 * 16 + b / 16); base64url_char (b mod 16 * 4)]
  | [a] => [base64url_char (a / 4); base64url_char (a mod 4 * 16)]
  | [] => []
  end.

(** The characters of the alphabet. *)
Definition base64url_ok (c : Z) : Prop := kBase64UrlTable c <> kBase64Invalid.

#[export] Instance base64url_ok_dec c : Decision (base64url_ok c).
Proof. unfold base64url_ok. apply _. Defined.

Ltac base64_consts := unfold kBase64Invalid, kBase64UpperCount, kBase64LowerCount, kBase64DigitCount,
  kBase64LowerStart, kBase64DigitStart, kBase64DashIndex, kBase64UnderIndex, kBase64UpperCount,
  kBase64LowerCount, kBase64BitsPerChar, kBase64BitsPerByte in *.

(** Evaluate the closed arithmetic of a goal. *)
Ltac closed_consts :=
  repeat match goal with
  | |- context [?a ^ ?b] => let x := eval vm_compute in (a ^ b) in
      lazymatch x with Zpos _ => change (a ^ b) with x end
  | |- context [Z.eqb ?a ?b] => let x := eval vm_compute in (Z.eqb a b) in
      lazymatch x with true => change (Z.eqb a b) with true | false => change (Z.eqb a b) with false end
  | |- context [Z.leb ?a ?b] => let x := eval vm_compute in (Z.leb a b) in
      lazymatch x with true => change (Z.leb a b) with true | false => change (Z.leb a b) with false end
  end; cbv iota.

Lemma base64url_char_ok v : 0 <= v < 64 ->
  kBase64UrlTable (base64url_char v) = v /\ base64url_char v <> 61.
Proof.
  intros Hv. unfold base64url_char, kBase64UrlTable. base64_consts.
  repeat (zcase; cbn [andb]; try lia).
Qed.

Lemma base64url_char_table v : 0 <= v < 64 -> kBase64UrlTable (base64url_char v) = v.
Proof. apply base64url_char_ok. Qed.

Lemma base64url_range c : base64url_ok c -> 0 <= kBase64UrlTable c < 64.
Proof.
  unfold base64url_ok, kBase64UrlTable. base64_consts. intros H. revert H.
  repeat (zcase; cbn [andb]; try lia).
Qed.

(** One step of the loop, with [bits] bits of the accumulator pending: [r] are their value. *)
Lemma base64_step acc bits r c chars :
  base64url_ok c -> acc mod 2 ^ bits = r -> bits = 0 \/ bits = 2 \/ bits = 4 \/ bits = 6 ->
  let x := r * 64 + kBase64UrlTable c in
  let bits' := (bits + 6) mod 8 in
  exists acc', acc' mod 2 ^ bits' = x mod 2 ^ bits'
  /\ base64_loop acc bits (c :: chars)
     = if bits =? 0 then base64_loop acc' bits' chars
       else obind (base64_loop acc' bits' chars) (fun out => Ok (x / 2 ^ bits' :: out)).
Proof.
  intros Hc Hr Hb. pose proof (base64url_range c Hc) as Hv. cbn zeta. cbn [base64_loop].
  rewrite (proj2 (Z.eqb_neq _ _)) by exact Hc. set (v := kBase64UrlTable c) in *.
  assert (Z.lor (u32 (Z.shiftl acc kBase64BitsPerChar)) v = acc * 64 mod 2 ^ 32 + v) as ->.
  { base64_consts. rewrite Z.shiftl_mul_pow2 by lia. unfold u32. apply (lor_add _ _ 6); [lia | | lia].
    change (2 ^ 6) with 64. change (2 ^ 32) with 4294967296. Z.div_mod_to_equations. lia. }
  exists (acc * 64 mod 2 ^ 32 + v). base64_consts.
  assert (forall s, 0 <= s -> u8 (Z.land (Z.shiftr (acc * 64 mod 2 ^ 32 + v) s) 0xFF)
    = (acc * 64 mod 2 ^ 32 + v) / 2 ^ s mod 256) as Ho.
  { intros s Hs. change 0xFF with (Z.ones 8). rewrite Z.land_ones, Z.shiftr_div_pow2 by lia.
    unfold u8. change (2 ^ 8) with 256. apply Z.mod_mod. lia. }
  destruct Hb as [-> | [-> | [-> | ->]]]; (split; [clear Ho; subst r; closed_consts; Z.div_mod_to_equations; lia |]).
  1: reflexivity.
  all: rewrite Ho by (closed_consts; lia); closed_consts.
  all: match goal with |- obind _ (fun o1 => Ok (?x :: o1)) = obind _ (fun o2 => Ok (?y :: o2)) =>
      assert (x = y) as -> by (clear Ho; subst r; closed_consts; Z.div_mod_to_equations; lia) end; reflexivity.
Qed.

(** A whole group of four characters. *)
Lemma base64_group acc c1 c2 c3 c4 chars :
  base64url_ok c1 -> base64url_ok c2 -> base64url_ok c3 -> base64url_ok c4 ->
  let x := ((kBase64UrlTable c1 * 64 + kBase64UrlTable c2) * 64 + kBase64UrlTable c3) * 64 + kBase64UrlTable c4 in
  exists acc', base64_loop acc 0 (c1 :: c2 :: c3 :: c4 :: chars)
  = obind (base64_loop acc' 0 chars) (fun out => Ok (x / 65536 :: x / 256 mod 256 :: x mod 256 :: out)).
Proof.
  intros H1 H2 H3 H4. pose proof (base64url_range _ H1). pose proof (base64url_range _ H2).
  pose proof (base64url_range _ H3). pose proof (base64url_range _ H4). cbn zeta.
  destruct (base64_step acc 0 0 c1 (c2 :: c3 :: c4 :: chars) H1) as (a1 & R1 & ->); [apply Z.mod_1_r | lia |].
  destruct (base64_step a1 6 _ c2 (c3 :: c4 :: chars) H2 eq_refl) as (a2 & R2 & E2); [lia |].
  destruct (base64_step a2 4 _ c3 (c4 :: chars) H3 eq_refl) as (a3 & R3 & E3); [lia |].
  destruct (base64_step a3 2 _ c4 chars H4 eq_refl) as (a4 & R4 & E4); [lia |].
  change ((0 + 6) mod 8) with 6 in *. change ((6 + 6) mod 8) with 4 in *.
  change ((4 + 6) mod 8) with 2 in *. change ((2 + 6) mod 8) with 0 in *.
  cbn [Z.eqb Pos.eqb]. rewrite E2. cbn [Z.eqb Pos.eqb]. rewrite E3. cbn [Z.eqb Pos.eqb]. rewrite E4.
  cbn [Z.eqb Pos.eqb]. exists a4. clear E2 E3 E4. rewrite R1 in R2 |- *. rewrite R2 in R3 |- *. rewrite R3 in R4 |- *.
  clear R1 R2 R3 R4. destruct (base64_loop a4 0 chars); [| done ..]. cbn [obind].
  generalize dependent (kBase64UrlTable c1). generalize dependent (kBase64UrlTable c2).
  generalize dependent (kBase64UrlTable c3). generalize dependent (kBase64UrlTable c4). intros.
  do 2 f_equal; [| f_equal; [| f_equal]]; closed_consts; Z.div_mod_to_equations; lia.
Qed.

(** The padding is stripped, and nothing else. *)
Lemma effective_len_padding u n : Forall (fun c => c <> 61) u ->
  effective_len (length (u ++ repeat 61 n)) (u ++ repeat 61 n) = length u.
Proof.
  intros Hu. rewrite length_app, repeat_length.
  assert (forall k, (k <= n)%nat -> effective_len (length u + k) (u ++ repeat 61 n) = length u) as H; [| by apply H].
  induction k as [|k IH]; intros Hk.
  - rewrite Nat.add_0_r. destruct u as [|x u] using rev_ind; [done |]. clear IHu.
    apply Forall_app in Hu as [_ Hx]. apply Forall_cons_iff in Hx as [Hx _].
    rewrite length_app, Nat.add_1_r. cbn [effective_len]. unfold byte_at. rewrite Nat2Z.id, <- app_assoc.
    rewrite app_nth2, Nat.sub_diag by lia. cbn [app nth]. by destruct (Z.eqb_spec x 61).
  - rewrite Nat.add_succ_r. cbn [effective_len]. unfold byte_at. rewrite Nat2Z.id, app_nth2 by lia.
    replace (length u + k - length u)%nat with k by lia. rewrite nth_repeat_lt by lia. cbn. apply IH. lia.
Qed.

(** Induction by groups of three octets. *)
Lemma triples_ind (P : bytes -> Prop) :
  P [] -> (forall a, P [a]) -> (forall a b, P [a; b]) -> (forall a b c bs, P bs -> P (a :: b :: c :: bs)) ->
  forall bs, P bs.
Proof.
  intros H0 H1 H2 H3. enough (forall n bs, (length bs <= n)%nat -> P bs) by eauto.
  induction n as [|n IH]; intros [|a [|b [|c bs]]] Hl; auto; cbn in Hl; try lia.
  apply H3, IH. lia.
Qed.

Lemma base64url_encode_ok bs : bytes_ok bs ->
  Forall (fun c => base64url_ok c /\ c <> 61) (base64url_encode bs).
Proof.
  assert (forall v, 0 <= v < 64 -> base64url_ok (base64url_char v) /\ base64url_char v <> 61) as Hc.
  { intros v Hv. unfold base64url_ok. destruct (base64url_char_ok v Hv) as [-> H]. split; [base64_consts; lia | done]. }
  induction bs as [|a|a b|a b c bs IH] using triples_ind; rewrite ?bytes_ok_cons; unfold uint8;
    intros Hok; cbn [base64url_encode]; repeat constructor;
    try (apply Hc; Z.div_mod_to_equations; lia); auto; apply IH, Hok.
Qed.

Lemma base64_loop_encode bs : bytes_ok bs -> forall acc, base64_loop acc 0 (base64url_encode bs) = Ok bs.
Proof.
  intros Hok. pose proof (base64url_encode_ok bs Hok) as He. revert Hok He.
  induction bs as [|a|a b|a b c bs IH] using triples_ind; rewrite ?bytes_ok_cons; unfold uint8; intros Hok He acc.
  - done.
  - cbn [base64url_encode] in *. rewrite !Forall_cons_iff in He. destruct He as ([H1 _] & [H2 _] & _).
    destruct (base64_step acc 0 0 _ [base64url_char (a mod 4 * 16)] H1 (Z.mod_1_r _)) as (a1 & R1 & ->); [lia |].
    destruct (base64_step a1 6 _ _ [] H2 eq_refl) as (a2 & _ & E2); [lia |].
    cbn [Z.eqb] in *. change ((0 + 6) mod 8) with 6 in *. change ((6 + 6) mod 8) with 4 in *. rewrite E2.
    cbn [Z.eqb Pos.eqb base64_loop obind]. rewrite R1, !base64url_char_table by (Z.div_mod_to_equations; lia).
    do 2 f_equal. closed_consts. Z.div_mod_to_equations. lia.
  - cbn [base64url_encode] in *. rewrite !Forall_cons_iff in He. destruct He as ([H1 _] & [H2 _] & [H3 _] & _).
    destruct (base64_step acc 0 0 _ [base64url_char (a mod 4 * 16 + b / 16); base64url_char (b mod 16 * 4)] H1
      (Z.mod_1_r _)) as (a1 & R1 & ->); [lia |].
    destruct (base64_step a1 6 _ _ [base64url_char (b mod 16 * 4)] H2 eq_refl) as (a2 & R2 & E2); [lia |].
    destruct (base64_step a2 4 _ _ [] H3 eq_refl) as (a3 & _ & E3); [lia |].
    cbn [Z.eqb] in *. change ((0 + 6) mod 8) with 6 in *. change ((6 + 6) mod 8) with 4 in *.
    change ((4 + 6) mod 8) with 2 in *. rewrite E2. cbn [Z.eqb Pos.eqb]. rewrite E3.
    cbn [Z.eqb Pos.eqb base64_loop obind]. rewrite R2, R1, !base64url_char_table by (Z.div_mod_to_equations; lia).
    do 2 f_equal; [| f_equal]; closed_consts; Z.div_mod_to_equations; lia.
  - cbn [base64url_encode] in *. rewrite !Forall_cons_iff in He.
    destruct He as ([H1 _] & [H2 _] & [H3 _] & [H4 _] & He).
    destruct (base64_group acc _ _ _ _ (base64url_encode bs) H1 H2 H3 H4) as (a' & ->).
    rewrite IH by (done || apply Hok). cbn [obind]. rewrite !base64url_char_table by (Z.div_mod_to_equations; lia).
    do 2 f_equal; [| f_equal; [| f_equal]]; Z.div_mod_to_equations; lia.
Qed.

(** The loop accepts every text of the alphabet, and no other. *)
Lemma base64_loop_outcome chars : forall acc bits, 0 <= bits < 8 ->
  match base64_loop acc bits chars with
  | Ok out => Forall base64url_ok chars /\ bytes_ok out /\ len out = (6 * len chars + bits) / 8
  | Err e => e = Error kEnrBase64DecodeFailed /\ ~ Forall base64url_ok chars
  | Diverged => False
  end.
Proof.
  induction chars as [|c chars IH]; intros acc bits Hb; cbn [base64_loop].
  - split_and!; [constructor | constructor | rewrite !len_nil; Z.div_mod_to_equations; lia].
  - destruct (Z.eqb_spec (kBase64UrlTable c) kBase64Invalid) as [Hc|Hc].
    { split; [done |]. intros Hall. by apply Forall_cons_iff in Hall as [? _]. }
    set (acc' := Z.lor _ _). base64_consts. zcase.
    + specialize (IH acc' (bits + 6 - 8) ltac:(lia)). destruct (base64_loop acc' _ chars) as [out|e|]; cbn [obind].
      * destruct IH as (H1 & H2 & H3). split; [by constructor |]. rewrite bytes_ok_cons, !len_cons, H3.
        split; [split; [unfold u8, uint8; apply Z.mod_pos_bound; lia | done] |].
        Z.div_mod_to_equations. lia.
      * destruct IH as [-> H']. split; [done |]. intros Hall. by apply Forall_cons_iff in Hall as [_ ?].
      * done.
    + specialize (IH acc' (bits + 6) ltac:(lia)). destruct (base64_loop acc' _ chars) as [out|e|].
      * destruct IH as (H1 & H2 & H3). rewrite len_cons, H3. split_and!; [by constructor | done |]. f_equal. lia.
      * destruct IH as [-> H']. split; [done |]. intros Hall. by apply Forall_cons_iff in Hall as [_ ?].
      * done.
Qed.

Lemma base64url_inverse bs n : bytes_ok bs -> base64url_decode (base64url_encode bs ++ repeat 61 n) = Ok bs.
Proof.
  intros Hok. unfold base64url_decode. rewrite effective_len_padding, take_app_length.
  - by apply base64_loop_encode.
  - generalize (base64url_encode_ok bs Hok). apply Forall_impl. by intros c [_ ?].
Qed.

(** Base64url. Decoding inverts the encoding of RFC 4648, with or without padding. A text is
    decoded just when, without its trailing padding, it has only characters of the alphabet,
    and then to one octet for every 8 bits; otherwise the answer is [kEnrBase64DecodeFailed]. *)
Theorem base64url_decode_encode :
  (forall bs n, bytes_ok bs -> base64url_decode (base64url_encode bs ++ repeat 61 n) = Ok bs)
  /\ (forall body,
       let chars := take (effective_len (length body) body) body in
       match base64url_decode body with
       | Ok out => Forall base64url_ok chars /\ bytes_ok out /\ len out = 6 * len chars / 8
       | Err e => e = Error kEnrBase64DecodeFailed /\ ~ Forall base64url_ok chars
       | Diverged => False
       end).
Proof.
  split; [apply base64url_inverse |]. intros body chars.
  pose proof (base64_loop_outcome chars 0 0 ltac:(lia)) as H. rewrite Z.add_0_r in H. exact H.
Qed.

(** ** Records on the wire *)

(** A record of EIP-778: the signature, the sequence number, and the keys and values, which are
    strings here ([field_items]). The signature is over the list without itself. *)
Definition field_items (kvs : list (bytes * bytes)) : list item :=
  concat (map (fun kv => [Str (fst kv); Str (snd kv)]) kvs).
Definition content_item (seq : Z) (its : list item) : item := Lst (uint_item seq :: its).
Definition enr_item (sig : bytes) (seq : Z) (its : list item) : item := Lst (Str sig :: uint_item seq :: its).

Definition fields_ok (kvs : list (bytes * bytes)) : Prop :=
  Forall (fun kv => bytes_ok (fst kv) /\ bytes_ok (snd kv)) kvs.

Lemma rlps_field k v kvs : rlps (field_items ((k, v) :: kvs)) = rlp (Str k) ++ rlp (Str v) ++ rlps (field_items kvs).
Proof. unfold field_items. cbn [map concat fst snd app]. by rewrite !rlps_cons. Qed.

Lemma rlps_Lst l : len (rlps l) <= len (rlp (Lst l)).
Proof. apply (len_payload_le (Lst l)). Qed.

Lemma field_items_ok kvs : fields_ok kvs -> Forall item_ok (field_items kvs).
Proof.
  intros Hk. induction Hk as [|[k v] kvs [H1 H2] _ IH]; [constructor |].
  unfold field_items. cbn [map concat fst snd app]. repeat constructor; auto with octets.
Qed.

Section record.
Context `{AddressText}.

Definition set_fields (kvs : list (bytes * bytes)) (r : EnrRecord) : EnrRecord :=
  fold_left (fun r kv => set_field (fst kv) (snd kv) r) kvs r.

Lemma set_fields_app u v r : set_fields (u ++ v) r = set_fields v (set_fields u r).
Proof. apply fold_left_app. Qed.

(** The loop reads the pairs that are there, and goes on after them. *)
Lemma read_fields_pairs kvs rest : forall r fuel,
  len (rlps (field_items kvs)) < 2 ^ 64 -> bytes_ok (rlps (field_items kvs) ++ rest) ->
  read_fields (length kvs + fuel) r (rlps (field_items kvs) ++ rest) = read_fields fuel (set_fields kvs r) rest.
Proof.
  induction kvs as [|[k v] kvs IH]; intros r fuel Hl Hok; [done |].
  rewrite rlps_field, <- !app_assoc in *. cbn [length Nat.add read_fields].
  pose proof (rlp_nonempty (Str k)).
  destruct (rlp (Str k) ++ rlp (Str v) ++ rlps (field_items kvs) ++ rest) as [|b t] eqn:E;
    [apply (f_equal len) in E; len_lia |]. cbn [empty]. rewrite <- E in *.
  rewrite (reads_read_bytes k) by (done || len_lia). apply bytes_ok_app in Hok as [_ Hok].
  rewrite (reads_read_bytes v) by (done || len_lia). apply bytes_ok_app in Hok as [_ Hok].
  apply IH; [len_lia | done].
Qed.

Lemma read_fields_all kvs rest r k : len (rlps (field_items kvs)) < 2 ^ 64 ->
  bytes_ok (rlps (field_items kvs) ++ rest) -> (length kvs < k)%nat ->
  read_fields k r (rlps (field_items kvs) ++ rest) = read_fields (k - length kvs) (set_fields kvs r) rest.
Proof.
  intros Hl Hok Hk. rewrite <- read_fields_pairs by done. f_equal. lia.
Qed.

Lemma length_pairs kvs : (2 * length kvs <= length (rlps (field_items kvs)))%nat.
Proof.
  induction kvs as [|[k v] kvs IH]; [done |]. rewrite rlps_field, !length_app. cbn [length].
  pose proof (rlp_nonempty (Str k)). pose proof (rlp_nonempty (Str v)). unfold len in *. lia.
Qed.

(** The signed content is the list that follows the signature, whatever comes after the record. *)
Lemma content_bytes_ok seq its rest :
  len (rlp (content_item seq its)) < 2 ^ 64 ->
  content_bytes (len (rlps (uint_item seq :: its))) (rlps (uint_item seq :: its) ++ rest)
  = Ok (rlp (content_item seq its)).
Proof.
  intros Hl. unfold content_bytes. set (body := rlps (uint_item seq :: its)). rewrite len_app.
  pose proof (len_nonneg rest).
  assert ((len body + len rest <? len body) = false) as -> by (apply Z.ltb_ge; lia).
  rewrite take_len_app.
  assert (appends (BeginList ;; AddRaw body ;; EndList) (rlp_list body)) as Ha.
  { apply appends_list, appends_AddRaw. unfold body. rewrite rlps_cons.
    pose proof (rlp_nonempty (uint_item seq)). intros E. apply (f_equal len) in E. rewrite len_nil in E. len_lia. }
  by rewrite (run_encoder_moves _ _ Ha) by exact Hl.
Qed.

(** What [decode_rlp] does with the octets of a record and whatever follows them: everything up
    to the fields is determined, and the loop over the fields goes on into the rest. *)
Lemma decode_rlp_record sig seq its rest :
  let raw := rlp (enr_item sig seq its) ++ rest in
  let v := rlps its ++ rest in
  length sig = 64%nat -> fits 8 seq -> bytes_ok raw -> len raw < 2 ^ 64 ->
  decode_rlp raw
  = obind (fst (read_fields (S (length v)) (initial_record raw sig (rlp (content_item seq its)) seq) v))
      (fun r => if bool_decide (compressed_pubkey r = repeat 0 33) then Err (Error kEnrMissingSecp256k1Key)
                else Ok r).
Proof.
  intros raw v Hsig Hseq Hok Hl. set (cs := uint_item seq :: its) in *.
  pose proof (rlps_Lst (Str sig :: cs)) as Hle.
  change (rlp (Lst (Str sig :: cs))) with (rlp (enr_item sig seq its)) in Hle.
  assert (len (rlp (enr_item sig seq its)) + len rest < 2 ^ 64) as Hlr by (unfold raw in Hl; len_lia).
  pose proof (len_nonneg rest).
  assert (IsList raw = (Ok true, raw)) as HI by (apply (IsList_rlp (enr_item sig seq its)); [lia | done]).
  assert (ReadListHeaderBytes raw = (Ok (len (rlps (Str sig :: cs))), rlps (Str sig :: cs) ++ rest)) as HL
    by (apply (ReadListHeaderBytes_list (rlps (Str sig :: cs))); change (len (rlp (enr_item sig seq its)) < 2 ^ 64); lia).
  assert (bytes_ok (rlps (Str sig :: cs) ++ rest)) as Hok1.
  { unfold raw in Hok. change (rlp (enr_item sig seq its)) with (rlp_list (rlps (Str sig :: cs))) in Hok.
    unfold rlp_list in Hok. rewrite <- app_assoc in Hok. by apply bytes_ok_app in Hok as [_ ?]. }
  assert (len (rlp (content_item seq its)) < 2 ^ 64) as Hlc.
  { pose proof (len_payload_le (Str sig)) as Hs. cbn [item_payload] in Hs. unfold len at 1 in Hs.
    rewrite Hsig in Hs. rewrite rlps_cons, len_app in Hle. pose proof (len_nonneg (rlps cs)).
    change (rlp (content_item seq its)) with (length_prefix true (len (rlps cs)) ++ rlps cs). rewrite len_app.
    pose proof (length_prefix_len true (len (rlps cs)) ltac:(lia)). lia. }
  clearbody raw. unfold decode_rlp, decode_rlp_from_decoder.
  unfold_m. unfold try, with_error. rewrite HI. cbn [map_err negb]. rewrite HL. cbn [map_err].
  rewrite rlps_cons, <- app_assoc in *.
  rewrite (reads_read_bytes sig) by (done || len_lia). cbn [map_err].
  apply bytes_ok_app in Hok1 as [_ Hok1].
  assert ((len sig =? kEnrSigBytes) = true) as -> by (unfold len; rewrite Hsig; done). cbn [negb].
  assert (usize (len (rlp (Str sig) ++ rlps cs) - (len (rlp (Str sig) ++ rlps cs ++ rest) - len (rlps cs ++ rest)))
    = len (rlps cs)) as ->.
  { rewrite !len_app. pose proof (len_nonneg (rlps cs)). unfold usize. rewrite len_app in Hle.
    pose proof (len_nonneg (rlp (Str sig))). rewrite Z.mod_small by lia. lia. }
  unfold cs at 1 2. rewrite content_bytes_ok by exact Hlc.
  unfold cs in Hok1 |- *. rewrite rlps_cons, <- app_assoc in *.
  rewrite (reads_read_integral 8) by (done || pose proof (rlp_uint_len seq (int_width_fits 8 seq width8 Hseq)); lia).
  cbn [map_err]. fold v. unfold obind.
  destruct (read_fields _ _ v) as [[r|e|] v']; cbn [fst]; [| done ..].
  by case_bool_decide.
Qed.
Lemma field_items_app u w : field_items (u ++ w) = field_items u ++ field_items w.
Proof. unfold field_items. by rewrite map_app, concat_app. Qed.

Definition record_ok (sig : bytes) (seq : Z) (kvs : list (bytes * bytes)) : Prop :=
  is_array 64 sig /\ fits 8 seq /\ fields_ok kvs.

(** The octets of a record, and of keys and values after its end. *)
Definition record_octets (sig : bytes) (seq : Z) (kvs extra : list (bytes * bytes)) : bytes :=
  rlp (enr_item sig seq (field_items kvs)) ++ rlps (field_items extra).

(** The record [decode_rlp] finds in [raw] with the keys and values [kvs]. *)
Definition record_of (raw sig : bytes) (seq : Z) (its : list item) (kvs : list (bytes * bytes)) : EnrRecord :=
  set_fields kvs (initial_record raw sig (rlp (content_item seq its)) seq).

Lemma record_octets_ok sig seq kvs extra : record_ok sig seq kvs -> fields_ok extra ->
  len (record_octets sig seq kvs extra) < 2 ^ 64 -> bytes_ok (record_octets sig seq kvs extra).
Proof.
  unfold record_octets. intros ([_ Hs] & _ & Hk) He Hl. pose proof (len_nonneg (rlps (field_items extra))).
  rewrite len_app in Hl. pose proof (len_nonneg (rlp (enr_item sig seq (field_items kvs)))).
  apply bytes_ok_app. split.
  - apply rlp_ok; [| lia]. apply item_ok_Lst. repeat constructor; [auto with octets .. |]. by apply field_items_ok.
  - clear Hk. induction He as [|[k v] extra [Hko Hvo] _ IH]; [constructor |]. rewrite rlps_field in *.
    rewrite !len_app in *. pose proof (len_nonneg (rlp (Str k))). pose proof (len_nonneg (rlp (Str v))).
    pose proof (len_nonneg (rlps (field_items extra))).
    rewrite !bytes_ok_app. split_and!; [apply rlp_ok; [done | lia] .. | apply IH; lia].
Qed.

Lemma decode_rlp_fields sig seq kvs extra :
  let raw := record_octets sig seq kvs extra in
  let r := record_of raw sig seq (field_items kvs) (kvs ++ extra) in
  record_ok sig seq kvs -> fields_ok extra -> len raw < 2 ^ 64 ->
  decode_rlp raw
  = if bool_decide (compressed_pubkey r = repeat 0 33) then Err (Error kEnrMissingSecp256k1Key) else Ok r.
Proof.
  intros raw r Hr He Hl. pose proof (record_octets_ok _ _ _ _ Hr He Hl) as Hok. destruct Hr as ([Hs _] & Hseq & Hk).
  unfold raw, record_octets in *. rewrite decode_rlp_record by done.
  assert (rlps (field_items kvs) ++ rlps (field_items extra) = rlps (field_items (kvs ++ extra)) ++ []) as ->
    by by rewrite field_items_app, rlps_app, app_nil_r.
  pose proof (length_pairs (kvs ++ extra)). rewrite read_fields_all.
  - rewrite app_nil_r. destruct (S _ - _)%nat eqn:E; [lia |]. done.
  - rewrite field_items_app, rlps_app, len_app. rewrite len_app in Hl. unfold enr_item in Hl.
    pose proof (rlps_Lst (Str sig :: uint_item seq :: field_items kvs)) as H1.
    rewrite !rlps_cons, !len_app in H1. pose proof (len_nonneg (rlp (Str sig))). pose proof (len_nonneg (rlp (uint_item seq))). lia.
  - rewrite app_nil_r, field_items_app, rlps_app. apply bytes_ok_app in Hok as [H1 H2]. apply bytes_ok_app. split; [| done].
    change (rlp (enr_item sig seq (field_items kvs))) with (rlp_list (rlps (Str sig :: uint_item seq :: field_items kvs))) in H1.
    unfold rlp_list in H1. apply bytes_ok_app in H1 as [_ H1]. rewrite !rlps_cons in H1.
    apply bytes_ok_app in H1 as [_ H1]. by apply bytes_ok_app in H1 as [_ H1].
  - rewrite app_nil_r. lia.
Qed.

(** Fields with other keys leave an entry of [extra_fields] alone. *)
Lemma extra_fields_set key k v r : k <> key -> extra_fields (set_field k v r) !! key = extra_fields r !! key.
Proof.
  intros Hk. unfold set_field.
  repeat (case_bool_decide; [unfold assign; repeat case_match; done |]).
  cbn [extra_fields with_extra]. by rewrite lookup_insert_ne.
Qed.

Lemma extra_fields_keep key kvs : forall r, Forall (fun kv => fst kv <> key) kvs ->
  extra_fields (set_fields kvs r) !! key = extra_fields r !! key.
Proof.
  induction kvs as [|[k v] kvs IH]; intros r Hk; [done |]. apply Forall_cons_iff in Hk as [H1 Hk].
  unfold set_fields in *. cbn [fold_left]. rewrite IH by done. by apply extra_fields_set.
Qed.

End record.

Section signed.
Context `{AddressText} (keccak256 : bytes -> bytes) `{Secp256k1}.

(** The record [verify_signature] leaves when it accepts. *)
Definition accepted (pk : Pubkey) (r : EnrRecord) : EnrRecord :=
  with_extra (delete content_key (delete sig_key (extra_fields r))) (with_node_id (key_id pk) r).

(** Neither key of the internal bookkeeping. *)
Definition plain_keys (kvs : list (bytes * bytes)) : Prop :=
  Forall (fun kv => fst kv <> sig_key) kvs /\ Forall (fun kv => fst kv <> content_key) kvs.

Lemma verified_iff r s c pk sig :
  context_create = true ->
  extra_fields r !! sig_key = Some s -> extra_fields r !! content_key = Some c -> 64 <= len s ->
  ec_pubkey_parse (compressed_pubkey r) = Some pk -> ecdsa_signature_parse_compact (take 64 s) = Some sig ->
  verified keccak256 r
  = if ecdsa_verify sig (keccak256 c) pk then Ok (accepted pk r) else Err (Error kEnrSignatureInvalid).
Proof.
  intros Hctx Hs Hc Hl Hpk Hsig. unfold verified, verify_signature. unfold_m. rewrite Hs, Hc, Hctx. cbn [negb].
  unfold some_or. rewrite Hpk. unfold_m.
  assert ((len s <? kEnrSigBytes) = false) as -> by (apply Z.ltb_ge; exact Hl).
  change (Z.to_nat kEnrSigBytes) with 64%nat. rewrite Hsig. unfold_m.
  destruct (ecdsa_verify sig (keccak256 c) pk); cbn [negb obind]; [| done].
  unfold decompress_pubkey. by rewrite Hctx, Hpk.
Qed.

(** The record of [kvs], possibly with fields after its end, goes through the whole parser. *)
Lemma parse_record sig seq kvs extra n pk sg :
  let raw := record_octets sig seq kvs extra in
  let r := record_of raw sig seq (field_items kvs) (kvs ++ extra) in
  record_ok sig seq kvs -> fields_ok extra -> plain_keys (kvs ++ extra) -> len raw <= kEnrMaxBytes ->
  context_create = true -> compressed_pubkey r <> repeat 0 33 ->
  ec_pubkey_parse (compressed_pubkey r) = Some pk -> ecdsa_signature_parse_compact sig = Some sg ->
  parse keccak256 (kEnrPrefix ++ base64url_encode raw ++ repeat 61 n)
  = if ecdsa_verify sg (keccak256 (rlp (content_item seq (field_items kvs)))) pk then Ok (accepted pk r)
    else Err (Error kEnrSignatureInvalid).
Proof.
  intros raw r Hr He [Hp1 Hp2] Hl Hctx Hnz Hpk Hsg.
  assert (len raw < 2 ^ 64) as Hl64 by (unfold kEnrMaxBytes in Hl; lia).
  pose proof (record_octets_ok _ _ _ _ Hr He Hl64) as Hok. fold raw in Hok.
  unfold parse, decode_uri. rewrite take_app_length', drop_app_length' by done.
  rewrite bool_decide_true by done. rewrite len_app. change (len kEnrPrefix) with 4.
  assert ((4 + len (base64url_encode raw ++ repeat 61 n) <? kEnrPrefixLen) = false) as ->
    by (apply Z.ltb_ge; unfold kEnrPrefixLen; len_lia). cbn [negb orb].
  rewrite base64url_inverse by done. cbn [obind].
  assert ((kEnrMaxBytes <? len raw) = false) as -> by by apply Z.ltb_ge.
  unfold raw at 1. rewrite decode_rlp_fields by done. fold raw r. rewrite bool_decide_false by done. cbn [obind].
  destruct Hr as ([Hs _] & _). apply (verified_iff r sig _ pk sg Hctx).
  - unfold r, record_of. rewrite extra_fields_keep by done. cbn [extra_fields initial_record].
    rewrite lookup_insert_ne by (vm_compute; congruence). apply lookup_insert_eq.
  - unfold r, record_of. rewrite extra_fields_keep by done. apply lookup_insert_eq.
  - unfold len. lia.
  - done.
  - by rewrite take_ge by lia.
Qed.

Definition with_raw (x : bytes) (r : EnrRecord) : EnrRecord :=
  mkRecord (enr_seq r) x (node_id r) (compressed_pubkey r) (ip r) (ip6 r) (udp_port r) (tcp_port r)
    (udp6_port r) (tcp6_port r) (identity_scheme r) (eth_fork_id r) (extra_fields r).

Lemma set_fields_raw x kvs : forall r, set_fields kvs (with_raw x r) = with_raw x (set_fields kvs r).
Proof.
  induction kvs as [|[k v] kvs IH]; intros r; [done |]. unfold set_fields in *. cbn [fold_left].
  rewrite <- IH. f_equal. unfold set_field. repeat (case_match; [done |]).
  all: unfold assign; repeat case_match; done.
Qed.

Lemma set_ip a r : length a = 4%nat -> set_field kEnrKeyIp a r = with_ip (address_v4_to_string a) r.
Proof. intros Ha. unfold set_field, decode_ipv4. by replace (len a) with 4 by (unfold len; lia). Qed.

Lemma set_id v r : set_field kEnrKeyId v r = with_identity_scheme v r.
Proof. reflexivity. Qed.

Lemma set_secp256k1 v r : length v = 33%nat -> set_field kEnrKeySecp256k1 v r = with_pubkey v r.
Proof. intros Hv. unfold set_field. by replace (len v) with 33 by (unfold len; lia). Qed.

Lemma set_tcp v p r : decode_port v = Ok p -> set_field kEnrKeyTcp v r = with_tcp p r.
Proof. intros Hv. unfold set_field. by rewrite Hv. Qed.

Lemma set_udp v p r : decode_port v = Ok p -> set_field kEnrKeyUdp v r = with_udp p r.
Proof. intros Hv. unfold set_field. by rewrite Hv. Qed.

(** the signature does not cover what follows the record. Whoever appends a key and a value
    after the end of an accepted record changes what it says: any four octets become its
    address, and it is accepted again, under the same identity. *)
Theorem unsigned_fields_accepted sig seq kvs pk sg a :
  let raw := record_octets sig seq kvs [] in
  let raw' := record_octets sig seq kvs [(kEnrKeyIp, a)] in
  let r := record_of raw sig seq (field_items kvs) kvs in
  record_ok sig seq kvs -> plain_keys kvs -> is_array 4 a -> len raw' <= kEnrMaxBytes ->
  context_create = true -> compressed_pubkey r <> repeat 0 33 ->
  ec_pubkey_parse (compressed_pubkey r) = Some pk -> ecdsa_signature_parse_compact sig = Some sg ->
  ecdsa_verify sg (keccak256 (rlp (content_item seq (field_items kvs)))) pk = true ->
  exists r1 r2, parse keccak256 (kEnrPrefix ++ base64url_encode raw) = Ok r1
  /\ parse keccak256 (kEnrPrefix ++ base64url_encode raw') = Ok r2
  /\ node_id r1 = key_id pk /\ node_id r2 = key_id pk /\ ip r2 = address_v4_to_string a.
Proof.
  intros raw raw' r Hr Hp [Ha Hao] Hl Hctx Hnz Hpk Hsg Hv.
  assert (len raw <= len raw') as Hle.
  { unfold raw, raw', record_octets. rewrite !len_app. change (len (rlps (field_items []))) with 0.
    pose proof (len_nonneg (rlps (field_items [(kEnrKeyIp, a)]))). lia. }
  set (r' := record_of raw' sig seq (field_items kvs) (kvs ++ [(kEnrKeyIp, a)])).
  assert (r' = with_ip (address_v4_to_string a) (with_raw raw' r)) as Er.
  { unfold r', r, record_of. rewrite set_fields_app. cbn [set_fields fold_left fst snd].
    rewrite set_ip by done. f_equal. by rewrite <- set_fields_raw. }
  exists (accepted pk r), (accepted pk r'). pose proof (app_nil_r (base64url_encode raw)) as E1.
  pose proof (app_nil_r (base64url_encode raw')) as E2. rewrite <- E1, <- E2. clear E1 E2.
  split_and!; try done.
  - pose proof (parse_record sig seq kvs [] 0 pk sg) as H'. cbn zeta in H'. rewrite !(app_nil_r kvs) in H'.
    rewrite Hv in H'. apply H'; try done; [constructor | fold raw; lia].
  - pose proof (parse_record sig seq kvs [(kEnrKeyIp, a)] 0 pk sg) as H'. cbn zeta in H'. fold raw' r' in H'.
    rewrite Hv, Er in H'. rewrite Er. apply H'; try done; [constructor; [split; [octets | done] | constructor] |].
    destruct Hp as [Hp1 Hp2]. split; apply Forall_app; (split; [done |]); repeat constructor; vm_compute; congruence.
  - by rewrite Er.
Qed.
(** C37: the internal bookkeeping can be forged. The signature and the signed content are kept
    among the extra fields of the record, under keys that the record may contain itself. Whoever
    has one signature [s] of a key over any content [c] makes any record acceptable in its name:
    the keys [__sig__] and [__content__] replace what was received, and nothing else is checked. *)
Theorem forged_record_accepted junk seq kvs s c pk sg :
  let kvs' := kvs ++ [(sig_key, s); (content_key, c)] in
  let raw := record_octets junk seq kvs' [] in
  let r := record_of raw junk seq (field_items kvs') kvs' in
  record_ok junk seq kvs' -> len raw < 2 ^ 64 -> context_create = true ->
  compressed_pubkey r <> repeat 0 33 -> ec_pubkey_parse (compressed_pubkey r) = Some pk ->
  length s = 64%nat -> ecdsa_signature_parse_compact s = Some sg -> ecdsa_verify sg (keccak256 c) pk = true ->
  obind (decode_rlp raw) (verified keccak256) = Ok (accepted pk r) /\ node_id (accepted pk r) = key_id pk.
Proof.
  intros kvs' raw r Hr Hl Hctx Hnz Hpk Hs Hsg Hv. split; [| done].
  unfold raw at 1. rewrite decode_rlp_fields by (done || constructor). rewrite (app_nil_r kvs'). fold raw r.
  rewrite bool_decide_false by done. cbn [obind]. rewrite (verified_iff r s c pk sg Hctx); [by rewrite Hv | ..].
  - unfold r, record_of, kvs'. rewrite set_fields_app. cbn [set_fields fold_left fst snd].
    rewrite extra_fields_set by (vm_compute; congruence). apply lookup_insert_eq.
  - unfold r, record_of, kvs'. rewrite set_fields_app. cbn [set_fields fold_left fst snd]. apply lookup_insert_eq.
  - unfold len. lia.
  - done.
  - by rewrite take_ge by lia.
Qed.
End signed.

Section decoding.
Context `{AddressText}.

Lemma read_bytes_list l rest : bytes_ok (rlp (Lst l) ++ rest) -> len (rlp (Lst l)) < 2 ^ 64 ->
  read_bytes (rlp (Lst l) ++ rest) = (Err DecodingError.kUnexpectedList, rlp (Lst l) ++ rest).
Proof.
  intros Hok Hl. unfold read_bytes. unfold_m. rewrite (PeekHeader_ok _ _ _ (decode_header_rlp (Lst l) rest Hl)).
  done.
Qed.

(** a value that is a list ends the record. The keys and values before it are read, the ones
    after it are not, although the signature covers them; without a public key among the
    former the record is refused. The entry [eth] of the network's records is such a value, and
    sorts before the public key. *)
Theorem list_value_ends_record sig seq kvs key l more :
  let its := field_items kvs ++ Str key :: Lst l :: more in
  let raw := rlp (enr_item sig seq its) in
  let r := record_of raw sig seq its kvs in
  length sig = 64%nat -> fits 8 seq -> item_ok (enr_item sig seq its) -> len raw < 2 ^ 64 ->
  decode_rlp raw
  = if bool_decide (compressed_pubkey r = repeat 0 33) then Err (Error kEnrMissingSecp256k1Key) else Ok r.
Proof.
  intros its raw r Hs Hseq Hok Hl. assert (bytes_ok raw) as Hraw by by apply rlp_ok.
  unfold r. clear r. pose proof (app_nil_r raw) as Er. rewrite <- Er in *. unfold raw in *. clear raw Er.
  rewrite decode_rlp_record by done. rewrite !app_nil_r.
  assert (bytes_ok (rlps its)) as Hoki.
  { rewrite app_nil_r in Hraw. change (rlp (enr_item sig seq its)) with
      (rlp_list (rlps (Str sig :: uint_item seq :: its))) in Hraw. unfold rlp_list in Hraw.
    apply bytes_ok_app in Hraw as [_ Hr]. rewrite !rlps_cons in Hr. apply bytes_ok_app in Hr as [_ Hr].
    by apply bytes_ok_app in Hr as [_ Hr]. }
  assert (len (rlps its) < 2 ^ 64) as Hli.
  { rewrite app_nil_r in Hl. pose proof (rlps_Lst (Str sig :: uint_item seq :: its)) as H1. unfold enr_item in Hl.
    rewrite !rlps_cons, !len_app in H1. pose proof (len_nonneg (rlp (Str sig))).
    pose proof (len_nonneg (rlp (uint_item seq))). lia. }
  assert (rlps its = rlps (field_items kvs) ++ rlp (Str key) ++ rlp (Lst l) ++ rlps more) as Ei
    by (unfold its; by rewrite rlps_app, !rlps_cons).
  rewrite Ei in *. pose proof (length_pairs kvs).
  rewrite read_fields_all; [| len_lia | done | rewrite length_app; lia].
  apply bytes_ok_app in Hoki as [_ Hoki]. rewrite length_app.
  destruct (S _ - _)%nat eqn:E; [lia |]. cbn [read_fields]. pose proof (rlp_nonempty (Str key)).
  destruct (rlp (Str key) ++ rlp (Lst l) ++ rlps more) as [|b t] eqn:Eb; [apply (f_equal len) in Eb; len_lia |].
  cbn [empty]. rewrite <- Eb in *. rewrite reads_read_bytes by (done || len_lia).
  apply bytes_ok_app in Hoki as [_ Hoki]. rewrite read_bytes_list by (done || len_lia). done.
Qed.

Lemma read_fields_ends fuel : forall r v, bytes_ok v -> (length v < fuel)%nat ->
  exists r', fst (read_fields fuel r v) = Ok r'.
Proof.
  induction fuel as [|fuel IH]; intros r v Hv Hf; [lia |]. cbn [read_fields].
  destruct v as [|b v]; [eauto |]. cbn [empty]. set (u := b :: v) in *.
  destruct (total_read_bytes u Hv) as (Hd & p & Hp). pose proof (proj2 consuming_read_bytes u) as Hc.
  destruct (read_bytes u) as [[k|e|] u1] eqn:E1; cbn [fst snd] in *; [| eauto | done].
  specialize (Hc k u1 Hv eq_refl). destruct (read_bytes_octets _ _ _ Hv E1) as [_ Hv1].
  destruct (total_read_bytes u1 Hv1) as (Hd1 & p1 & Hp1). pose proof (proj2 consuming_read_bytes u1) as Hc1.
  destruct (read_bytes u1) as [[x|e|] u2] eqn:E2; cbn [fst snd] in *; [| eauto | done].
  specialize (Hc1 x u2 Hv1 eq_refl). destruct (read_bytes_octets _ _ _ Hv1 E2) as [_ Hv2].
  apply IH; [done |]. unfold len in *. lia.
Qed.

(** The signature item reaches beyond the list it begins. *)
Definition signature_overruns (raw : bytes) : Prop := exists n v sig w,
  ReadListHeaderBytes raw = (Ok n, v) /\ read_bytes v = (Ok sig, w) /\ length sig = 64%nat /\ n < len v - len w.

Lemma content_bytes_outcome n v : len v < 2 ^ 63 ->
  match content_bytes n v with
  | Ok _ => n <= len v
  | Err Lost => len v < n
  | Err (Error _) => n <= len v
  | Diverged => False
  end.
Proof.
  intros Hl. unfold content_bytes. destruct (Z.ltb_spec (len v) n) as [|Hn]; [done |].
  destruct (decide (take (Z.to_nat n) v = [])) as [E|E].
  - rewrite E. exact Hn.
  - assert (len (take (Z.to_nat n) v) <= len v) by (unfold len; rewrite length_take; lia).
    rewrite (run_encoder_moves _ (rlp_list (take (Z.to_nat n) v))); [done | |].
    + by apply appends_list, appends_AddRaw.
    + unfold rlp_list. rewrite len_app. pose proof (len_nonneg (take (Z.to_nat n) v)).
      pose proof (length_prefix_len true (len (take (Z.to_nat n) v)) ltac:(lia)). lia.
Qed.

(** The call returns a value or reports an error, unless [P]. *)
Definition reports {S A} (P : Prop) (x : outcome fault A * S) : Prop :=
  P \/ (fst x <> Diverged /\ fst x <> Err Lost).

Lemma reports_bind {S A B} P (m : M S fault A) (f : A -> M S fault B) s :
  reports P (m s) -> (forall a s', m s = (Ok a, s') -> reports P (f a s')) -> reports P ((m ≫= f) s).
Proof.
  intros [HP|[H1 H2]] Hf; [by left |]. unfold mbind, M_bind.
  destruct (m s) as [[a|e|] s'] eqn:E; [by apply Hf | right; split; [done | by intros [= ->]] | done].
Qed.

Lemma reports_try {A} P (m : DecM A) e v : fst (m v) <> Diverged -> reports P (try m e v).
Proof. intros H1. right. unfold try, with_error. destruct (m v) as [[]]; cbn in *; done. Qed.

Lemma reports_fail_if {S} P b e (s : S) : e <> Lost -> reports P (fail_if b e s).
Proof. intros He. right. unfold fail_if, throw. destruct b; cbn; split; congruence. Qed.

Lemma try_ok {A} (m : DecM A) e v a v' : try m e v = (Ok a, v') -> m v = (Ok a, v').
Proof. unfold try, with_error. destruct (m v) as [[|?|] ?]; cbn; congruence. Qed.

Lemma decode_rlp_reports raw : bytes_ok raw -> len raw < 2 ^ 63 ->
  reports (signature_overruns raw) (decode_rlp_from_decoder raw raw).
Proof.
  intros Hok Hl. unfold decode_rlp_from_decoder.
  apply reports_bind; [by apply reports_try, total_IsList |]. intros b v0 E0. apply try_ok in E0.
  assert (v0 = raw) as -> by (unfold IsList in E0; by injection E0). clear E0.
  apply reports_bind; [by apply reports_fail_if |]. intros [] v0 E0.
  assert (v0 = raw) as -> by (unfold fail_if in E0; destruct (negb b); by injection E0). clear E0.
  apply reports_bind; [by apply reports_try, total_ReadListHeaderBytes |]. intros n v E1. apply try_ok in E1.
  destruct (total_ReadListHeaderBytes raw Hok) as (_ & p & Hp). rewrite E1 in Hp. cbn [snd] in Hp.
  assert (bytes_ok v /\ len v <= len raw) as [Hv Hlv].
  { rewrite Hp in Hok |- *. apply bytes_ok_app in Hok as [_ ?]. split; [done | len_lia]. }
  apply reports_bind; [by right |]. intros v0 ? [= <- <-].
  apply reports_bind; [by apply reports_try, total_read_bytes |]. intros sig w E2. apply try_ok in E2.
  destruct (total_read_bytes v Hv) as (_ & q & Hq). rewrite E2 in Hq. cbn [snd] in Hq.
  assert (bytes_ok w /\ len w <= len v) as [Hw Hlw].
  { rewrite Hq in Hv |- *. apply bytes_ok_app in Hv as [_ ?]. split; [done | len_lia]. }
  apply reports_bind; [by apply reports_fail_if |]. intros [] w0 E3. unfold fail_if in E3.
  destruct (Z.eqb_spec (len sig) kEnrSigBytes) as [Hs|]; cbn [negb] in E3; [injection E3 as <- | discriminate].
  apply reports_bind; [by right |]. intros w0 ? [= <- <-].
  apply reports_bind.
  { pose proof (content_bytes_outcome (usize (n - (len v - len w))) w ltac:(lia)) as Hc. unfold lift.
    destruct (content_bytes _ w) as [|[|]|]; [by right .. | | done].
    left. exists n, v, sig, w. split_and!; try done; [unfold len in Hs; unfold kEnrSigBytes in Hs; lia |].
    destruct (Z.lt_ge_cases n (len v - len w)) as [|Hge]; [done |]. exfalso.
    apply ReadListHeaderBytes_inv in E1 as (h & Hh & _ & Hn).
    pose proof (payload_in_view _ _ _ Hok Hh) as Hpay. rewrite Hn in Hpay.
    unfold usize in Hc. pose proof (len_nonneg w). rewrite Z.mod_small in Hc by lia. lia. }
  intros content w0 E4. unfold lift in E4. injection E4 as _ <-.
  apply reports_bind; [by apply reports_try, total_read_integral |]. intros seq u E5. apply try_ok in E5.
  destruct (read_integral_typed 8 w seq u Hw ltac:(lia) E5) as [_ Hu].
  apply reports_bind.
  { right. destruct (read_fields_ends (S (length u)) (initial_record raw sig content seq) u Hu ltac:(lia)) as (r & ->).
    by split. }
  intros r u' _. apply reports_bind; [by apply reports_fail_if |]. by right.
Qed.

(** decoding a record ends on every input, with a record or an error, but for one kind of
    input: where the signature item reaches beyond the list it begins, the length of the signed
    content wraps around, and the call reads outside its buffer. *)
Theorem decode_rlp_safe raw : bytes_ok raw -> len raw < 2 ^ 63 ->
  decode_rlp raw <> Diverged /\ (decode_rlp raw = Err Lost <-> signature_overruns raw).
Proof.
  intros Hok Hl. assert (signature_overruns raw -> decode_rlp raw = Err Lost) as Hlost.
  { intros (n & v & sig & w & E1 & E2 & Hs & Hn). pose proof E1 as E1'.
    apply ReadListHeaderBytes_inv in E1' as (h & Hh & Hlst & Hpn).
    pose proof (payload_in_view _ _ _ Hok Hh) as Hpay.
    destruct (total_ReadListHeaderBytes raw Hok) as (_ & p & Hp). rewrite E1 in Hp. cbn [snd] in Hp.
    assert (len v <= len raw) as Hlv by (rewrite Hp; len_lia).
    unfold decode_rlp, decode_rlp_from_decoder, try, with_error. unfold_m.
    rewrite (IsList_header _ _ _ Hok Hh), Hlst. cbn [map_err negb]. rewrite E1. cbn [map_err]. rewrite E2. cbn [map_err].
    assert ((len sig =? kEnrSigBytes) = true) as -> by (unfold len; by rewrite Hs). cbn [negb].
    assert (content_bytes (usize (n - (len v - len w))) w = Err Lost) as ->; [| done].
    unfold content_bytes. assert ((len w <? usize (n - (len v - len w))) = true) as ->; [| done].
    apply Z.ltb_lt. unfold usize. pose proof (len_nonneg w).
    rewrite <- (Z.mod_add _ 1) by lia. rewrite Z.mod_small by lia. lia. }
  destruct (decode_rlp_reports raw Hok Hl) as [Ho|[H1 H2]].
  - rewrite (Hlost Ho). split; [done |]. split; done.
  - split; [done |]. split; [done | apply Hlost].
Qed.
(** Values the encoders write come back. *)
Lemma decode_port_value bs : bytes_ok bs -> 1 <= len bs <= 2 ->
  decode_port bs = if be_value bs =? 0 then Err (Error kEnrInvalidUdpPort) else Ok (be_value bs).
Proof.
  intros Hok Hl. unfold decode_port, kMaxPortBytes. destruct bs as [|a [|b [|c bs]]]; try len_lia; cbn [empty orb].
  - apply bytes_ok_cons in Hok as [Ha _]. unfold uint8 in Ha. change (be_value [a]) with (a + 256 * 0).
    change (2 <? len [a]) with false. cbn [fold_left]. rewrite Z.shiftl_0_l, Z.lor_0_l. unfold u16.
    rewrite Z.mod_small by lia. by replace (a + 256 * 0) with a by lia.
  - rewrite !bytes_ok_cons in Hok. destruct Hok as (Ha & Hb & _). unfold uint8 in *.
    change (be_value [a; b]) with (b + 256 * (a + 256 * 0)).
    change (2 <? len [a; b]) with false. cbn [fold_left]. rewrite Z.shiftl_0_l, Z.lor_0_l.
    assert (u16 a = a) as -> by (unfold u16; apply Z.mod_small; lia).
    rewrite Z.shiftl_mul_pow2 by lia. rewrite (lor_add _ b 8) by (try apply Z.mod_mul; lia).
    unfold u16. rewrite Z.mod_small by lia. by replace (b + 256 * (a + 256 * 0)) with (a * 2 ^ 8 + b) by lia.
Qed.

Lemma decode_port_digits p : 0 < p < 65536 -> decode_port (digits p) = Ok p.
Proof.
  intros Hp. assert (fits 32 p) as Hf by (split; [lia | apply (Z.lt_trans _ 65536); [lia | reflexivity]]).
  destruct (digits_spec p Hf) as (Hok & _ & Hv). pose proof (digits_nonempty p ltac:(lia) Hf).
  pose proof (digits_len 2 p ltac:(lia) ltac:(split; [lia | exact (proj2 Hp)])).
  rewrite decode_port_value by (done || lia). rewrite Hv. by destruct (Z.eqb_spec p 0); [lia |].
Qed.

Lemma decode_eth_entry_item h n : is_array 4 h -> fits 8 n ->
  decode_eth_entry (rlp (Lst [Lst [Str h; uint_item n]])) = Ok (mkForkId h n).
Proof.
  intros [Hl Hok] Hn. set (inner := Lst [Str h; uint_item n]).
  pose proof (rlp_uint_len n (int_width_fits 8 n width8 Hn)) as Hu.
  assert (rlp (Str h) = 0x84 :: h) as Eh.
  { cbn [rlp]. unfold rlp_string. destruct h as [|a [|b [|c [|d [|e h]]]]]; done. }
  assert (len (rlp (Str h)) = 5) as Hh by (rewrite Eh, len_cons; unfold len; rewrite Hl; done).
  assert (rlp inner = rlp_list (rlp (Str h) ++ rlp (uint_item n))) as Ei
    by (cbn [rlp inner map concat]; by rewrite app_nil_r).
  assert (len (rlp inner) <= 47) as Hli.
  { rewrite Ei. unfold rlp_list. rewrite len_app. pose proof (len_nonneg (rlp (uint_item n))).
    pose proof (length_prefix_len true (len (rlp (Str h) ++ rlp (uint_item n))) ltac:(len_lia)). len_lia. }
  assert (rlp (Lst [inner]) = rlp_list (rlp inner)) as Eo by (cbn [rlp map concat]; by rewrite app_nil_r).
  assert (len (rlp (Lst [inner])) <= 56) as Hlo.
  { rewrite Eo. unfold rlp_list. rewrite len_app. pose proof (len_nonneg (rlp inner)).
    pose proof (length_prefix_len true (len (rlp inner)) ltac:(lia)). lia. }
  assert (bytes_ok (rlp inner)) as Hoki by (apply rlp_ok; [unfold inner; auto with octets | lia]).
  assert (bytes_ok (rlp (Lst [inner]))) as Hoko by (apply rlp_ok; [unfold inner; auto with octets | lia]).
  unfold decode_eth_entry, decode_eth_entry_from_decoder, try, with_error. unfold_m.
  destruct (rlp (Lst [inner])) as [|x t] eqn:Ex; [pose proof (rlp_nonempty (Lst [inner])); rewrite Ex, len_nil in *; lia |].
  cbn [empty]. rewrite <- Ex in *. clear x t Ex. rewrite <- (app_nil_r (rlp (Lst [inner]))) in Hoko |- *.
  rewrite IsList_rlp by (done || lia). cbn [item_is_list map_err negb]. rewrite Eo in Hlo |- *.
  rewrite ReadListHeaderBytes_list by lia. cbn [map_err].
  rewrite IsList_rlp by (rewrite ?app_nil_r; done || lia). cbn [item_is_list inner map_err negb]. fold inner.
  rewrite Ei in Hli, Hoki |- *. rewrite ReadListHeaderBytes_list by lia. cbn [map_err].
  unfold rlp_list in Hoki. apply bytes_ok_app in Hoki as [_ Hoki].
  rewrite <- (app_nil_r (_ ++ _)) in Hoki. rewrite <- app_assoc in Hoki |- *.
  rewrite (reads_read_bytes h) by (done || lia). cbn [map_err]. apply bytes_ok_app in Hoki as [_ Hoki].
  assert ((len h =? kForkHashBytes) = true) as -> by (unfold len; by rewrite Hl). cbn [negb].
  by rewrite (reads_read_integral 8) by (done || lia).
Qed.
End decoding.

(** ** Witnesses *)

Module EnrSample.
#[export] Existing Instance ToySecp.toy.
#[export] Instance address_text : AddressText :=
  {| address_v4_to_string a := a; address_v6_to_string a := a;
     make_address a := if bool_decide (length a = 4%nat) then Some (V4 a)
                       else if bool_decide (length a = 16%nat) then Some (V6 a) else None |}.
Definition keccak256 (d : bytes) : bytes := take 32 (d ++ repeat 0 32).
Definition key : bytes := ToySecp.serialize true true.
Definition kvs : list (bytes * bytes) :=
  [(kEnrKeyId, kIdentitySchemeV4); (kEnrKeyIp, [127; 0; 0; 1]); (kEnrKeySecp256k1, key); (kEnrKeyUdp, [0x76; 0x5f])].
(** The identity of the key. *)
Definition node : Pubkey := true.
Definition content : bytes := rlp (content_item 1 (field_items kvs)).
Definition sig : bytes := ToySecp.signature (keccak256 content) true.

Lemma sample_ok : record_ok sig 1 kvs.
Proof.
  split; [split; [vm_compute; reflexivity | octets] |]. split; [by split; vm_compute |].
  repeat constructor; octets.
Qed.

Lemma sample_plain : plain_keys kvs.
Proof. split; repeat constructor; vm_compute; congruence. Qed.
End EnrSample.
#[local] Existing Instance ToySecp.toy.
#[local] Existing Instance EnrSample.address_text.

Lemma base64url_decode_encode_witness :
  base64url_decode (text "AQIDBA==") = Ok [1; 2; 3; 4]
  /\ base64url_decode (text "AQ!D") = Err (Error kEnrBase64DecodeFailed).
Proof. split; [apply (proj1 base64url_decode_encode [1; 2; 3; 4] 2%nat); octets | reflexivity]. Defined.


(** A signed record that names only its key is accepted, and yields no peer. *)
Example addressless_record_accepted :
  let kvs := [(kEnrKeySecp256k1, EnrSample.key)] in
  let sig := ToySecp.signature (EnrSample.keccak256 (rlp (content_item 1 (field_items kvs)))) true in
  match parse EnrSample.keccak256 (kEnrPrefix ++ base64url_encode (record_octets sig 1 kvs [])) with
  | Ok r => node_id r = key_id EnrSample.node /\ to_validated_peer 0 r = Err (Error kEnrMissingAddress)
  | _ => False
  end.
Proof. vm_compute. by split. Qed.

Lemma unsigned_fields_accepted_witness :
  exists r1 r2,
    parse EnrSample.keccak256
      (kEnrPrefix ++ base64url_encode (record_octets EnrSample.sig 1 EnrSample.kvs [])) = Ok r1
    /\ parse EnrSample.keccak256
      (kEnrPrefix ++ base64url_encode (record_octets EnrSample.sig 1 EnrSample.kvs [(kEnrKeyIp, [6; 6; 6; 6])])) = Ok r2
    /\ node_id r1 = key_id EnrSample.node /\ node_id r2 = key_id EnrSample.node /\ ip r2 = address_v4_to_string [6; 6; 6; 6].
Proof.
  apply (unsigned_fields_accepted EnrSample.keccak256 EnrSample.sig 1 EnrSample.kvs EnrSample.node EnrSample.sig [6; 6; 6; 6]
    EnrSample.sample_ok EnrSample.sample_plain); try (vm_compute; congruence). by split; [| octets].
Defined.

(** The signature of the sample, used for a record that sends its peers elsewhere. *)
Lemma forged_record_accepted_witness :
  let kvs := [(kEnrKeyIp, [6; 6; 6; 6]); (kEnrKeySecp256k1, EnrSample.key)] in
  let kvs' := kvs ++ [(sig_key, EnrSample.sig); (content_key, EnrSample.content)] in
  obind (decode_rlp (record_octets (repeat 0 64) 9 kvs' [])) (verified EnrSample.keccak256)
  = Ok (accepted EnrSample.node (record_of (record_octets (repeat 0 64) 9 kvs' []) (repeat 0 64) 9 (field_items kvs') kvs'))
  /\ node_id (accepted EnrSample.node (record_of (record_octets (repeat 0 64) 9 kvs' []) (repeat 0 64) 9 (field_items kvs') kvs'))
     = key_id EnrSample.node.
Proof.
  apply (forged_record_accepted EnrSample.keccak256 (repeat 0 64) 9
    [(kEnrKeyIp, [6; 6; 6; 6]); (kEnrKeySecp256k1, EnrSample.key)] EnrSample.sig EnrSample.content EnrSample.node EnrSample.sig);
    try (vm_compute; congruence).
  split; [split; [reflexivity | octets] |]. split; [by split; vm_compute |]. repeat constructor; octets.
Defined.

(** The [eth] entry as the network writes it, before the key. *)
Lemma list_value_ends_record_witness :
  decode_rlp (rlp (enr_item EnrSample.sig 1
    (field_items [] ++ Str (text "eth") :: Lst [Lst [Str [1; 2; 3; 4]; uint_item 0]]
     :: [Str kEnrKeySecp256k1; Str EnrSample.key]))) = Err (Error kEnrMissingSecp256k1Key).
Proof.
  rewrite (list_value_ends_record EnrSample.sig 1 [] (text "eth") [Lst [Str [1; 2; 3; 4]; uint_item 0]]
    [Str kEnrKeySecp256k1; Str EnrSample.key]).
  - reflexivity.
  - reflexivity.
  - by split; vm_compute.
  - apply item_ok_Lst. repeat constructor; octets.
  - reflexivity.
Defined.

(** An empty list with 66 octets after it. *)
Lemma decode_rlp_safe_witness :
  decode_rlp ([0xc0; 0xb8; 0x40] ++ repeat 1 64) = Err Lost.
Proof.
  apply (decode_rlp_safe ([0xc0; 0xb8; 0x40] ++ repeat 1 64)).
  - octets.
  - reflexivity.
  - exists 0, ([0xb8; 0x40] ++ repeat 1 64), (repeat 1 64), []. by split_and!.
Defined.
