(* ===== verification/Discv5Crawler.v ===== *)
(** * Discv5Crawler: the sets of peers behind the discv5 client

    [include/discv5/discv5_crawler.hpp], [src/discv5/discv5_crawler.cpp]. A set of node keys is a
    [gset] of node identifiers. Methods are state transformers that return the calls they make;
    each runs to its end before the next one starts, which is how the single thread of the
    client's [io_context] runs them. [now] is the reading of the steady clock.

    Theorems: every peer handed to the callback is new and on the required chain
    ([peers_emitted_once]); the text of an enode is understood ([enode_uri_parsed]), with a port
    that wraps around. *)
From S2P Require Export Discv5Enr.
Open Scope Z_scope.

(** ** Data *)

(** [struct CrawlerStats]. *)
Record CrawlerStats := mkStats {
  queued : Z; measured : Z; failed : Z; discovered : Z; invalid_enr : Z; wrong_chain : Z;
  no_eth_entry : Z; duplicates : Z
}.

(** The five atomic counters. *)
Record Counters := mkCounters {
  stat_discovered_ : Z;
  stat_invalid_enr_ : Z;
  stat_wrong_chain_ : Z;
  stat_no_eth_entry_ : Z;
  stat_duplicates_ : Z
}.

(** [class discv5_crawler]; a callback is a number. *)
Record discv5_crawler := mkCrawler {
  config_ : discv5Config;
  queued_peers_ : list ValidatedPeer;
  measured_ids_ : gset bytes;
  failed_ids_ : gset bytes;
  discovered_ids_ : gset bytes;
  counters_ : Counters;
  running_ : bool;
  peer_callback_ : option Z;
  error_callback_ : option Z
}.

(** The calls of the callbacks. *)
Inductive crawler_call :=
| PeerDiscovered (callback : Z) (peer : ValidatedPeer)
| ErrorReported (callback : Z) (message : bytes).

(** A method: the calls it makes, and the crawler after it. *)
Abbreviation Method := (discv5_crawler -> list crawler_call * discv5_crawler).

Definition new_crawler (config : discv5Config) : discv5_crawler :=
  {| config_ := config; queued_peers_ := []; measured_ids_ := ∅; failed_ids_ := ∅;
     discovered_ids_ := ∅; counters_ := mkCounters 0 0 0 0 0; running_ := false;
     peer_callback_ := None; error_callback_ := None |}.

(** Assignments to one part of the crawler. *)
Definition with_queue (q : list ValidatedPeer) (c : discv5_crawler) : discv5_crawler :=
  mkCrawler (config_ c) q (measured_ids_ c) (failed_ids_ c) (discovered_ids_ c) (counters_ c) (running_ c)
    (peer_callback_ c) (error_callback_ c).
Definition with_discovered (s : gset bytes) (c : discv5_crawler) : discv5_crawler :=
  mkCrawler (config_ c) (queued_peers_ c) (measured_ids_ c) (failed_ids_ c) s (counters_ c) (running_ c)
    (peer_callback_ c) (error_callback_ c).
Definition with_running (b : bool) (c : discv5_crawler) : discv5_crawler :=
  mkCrawler (config_ c) (queued_peers_ c) (measured_ids_ c) (failed_ids_ c) (discovered_ids_ c) (counters_ c) b
    (peer_callback_ c) (error_callback_ c).
Definition count (f : Counters -> Counters) (c : discv5_crawler) : discv5_crawler :=
  mkCrawler (config_ c) (queued_peers_ c) (measured_ids_ c) (failed_ids_ c) (discovered_ids_ c)
    (f (counters_ c)) (running_ c) (peer_callback_ c) (error_callback_ c).

(** [++stat_..._] on a [size_t]. *)
Definition count_discovered : discv5_crawler -> discv5_crawler := count (fun s =>
  mkCounters (usize (stat_discovered_ s + 1)) (stat_invalid_enr_ s) (stat_wrong_chain_ s) (stat_no_eth_entry_ s) (stat_duplicates_ s)).
Definition count_invalid_enr : discv5_crawler -> discv5_crawler := count (fun s =>
  mkCounters (stat_discovered_ s) (usize (stat_invalid_enr_ s + 1)) (stat_wrong_chain_ s) (stat_no_eth_entry_ s) (stat_duplicates_ s)).
Definition count_wrong_chain : discv5_crawler -> discv5_crawler := count (fun s =>
  mkCounters (stat_discovered_ s) (stat_invalid_enr_ s) (usize (stat_wrong_chain_ s + 1)) (stat_no_eth_entry_ s) (stat_duplicates_ s)).
Definition count_no_eth_entry : discv5_crawler -> discv5_crawler := count (fun s =>
  mkCounters (stat_discovered_ s) (stat_invalid_enr_ s) (stat_wrong_chain_ s) (usize (stat_no_eth_entry_ s + 1)) (stat_duplicates_ s)).
Definition count_duplicate : discv5_crawler -> discv5_crawler := count (fun s =>
  mkCounters (stat_discovered_ s) (stat_invalid_enr_ s) (stat_wrong_chain_ s) (stat_no_eth_entry_ s) (usize (stat_duplicates_ s + 1))).

(** ** Peers *)

(** [std::any_of] over the queue. *)
Definition is_queued (id : bytes) (c : discv5_crawler) : bool :=
  existsb (fun qp => bool_decide (peer_node_id qp = id)) (queued_peers_ c).

Definition is_discovered (id : bytes) (c : discv5_crawler) : bool := bool_decide (id ∈ discovered_ids_ c).

(** An iteration of [process_found_peers], and the method. *)
Definition process_found_peer (c : discv5_crawler) (p : ValidatedPeer) : discv5_crawler :=
  if is_discovered (peer_node_id p) c then count_duplicate c
  else if is_queued (peer_node_id p) c then count_duplicate c
  else with_queue (queued_peers_ c ++ [p]) c.

Definition process_found_peers (peers : list ValidatedPeer) (c : discv5_crawler) : discv5_crawler :=
  fold_left process_found_peer peers c.

Definition emit_peer (p : ValidatedPeer) : Method := fun c =>
  let emit :=
    if is_discovered (peer_node_id p) c then ([], count_duplicate c)
    else
      let c := count_discovered (with_discovered ({[ peer_node_id p ]} ∪ discovered_ids_ c) c) in
      (match peer_callback_ c with Some cb => [PeerDiscovered cb p] | None => [] end, c) in
  match required_fork_id (config_ c), peer_eth_fork_id p with
  | None, _ => emit
  | Some _, None => ([], count_no_eth_entry c)
  | Some required, Some actual =>
      if negb (bool_decide (hash required = hash actual)) || negb (next required =? next actual)
      then ([], count_wrong_chain c) else emit
  end.

(** An iteration of [ingest_discovered_peers], and the method. *)
Definition ingest_peer (p : ValidatedPeer) : Method := fun c =>
  let already_discovered := is_discovered (peer_node_id p) c in
  let already_queued := is_queued (peer_node_id p) c in
  let c := if negb already_discovered && negb already_queued
           then with_queue (queued_peers_ c ++ [p]) c else c in
  if already_discovered then ([], count_duplicate c) else emit_peer p c.

Fixpoint ingest_discovered_peers (peers : list ValidatedPeer) : Method := fun c =>
  match peers with
  | [] => ([], c)
  | p :: peers =>
      let '(e1, c) := ingest_peer p c in
      let '(e2, c) := ingest_discovered_peers peers c in
      (e1 ++ e2, c)
  end.

Definition stats (c : discv5_crawler) : CrawlerStats :=
  {| queued := len (queued_peers_ c); measured := Z.of_nat (size (measured_ids_ c));
     failed := Z.of_nat (size (failed_ids_ c)); discovered := stat_discovered_ (counters_ c);
     invalid_enr := stat_invalid_enr_ (counters_ c); wrong_chain := stat_wrong_chain_ (counters_ c);
     no_eth_entry := stat_no_eth_entry_ (counters_ c); duplicates := stat_duplicates_ (counters_ c) |}.

Definition mark_measured (id : bytes) (c : discv5_crawler) : discv5_crawler :=
  mkCrawler (config_ c) (queued_peers_ c) ({[ id ]} ∪ measured_ids_ c) (failed_ids_ c) (discovered_ids_ c)
    (counters_ c) (running_ c) (peer_callback_ c) (error_callback_ c).

Definition mark_failed (id : bytes) (c : discv5_crawler) : discv5_crawler :=
  mkCrawler (config_ c) (queued_peers_ c) (measured_ids_ c) ({[ id ]} ∪ failed_ids_ c) (discovered_ids_ c)
    (counters_ c) (running_ c) (peer_callback_ c) (error_callback_ c).

Definition dequeue_next (c : discv5_crawler) : option ValidatedPeer * discv5_crawler :=
  match queued_peers_ c with
  | [] => (None, c)
  | p :: q => (Some p, with_queue q c)
  end.

Definition set_peer_discovered_callback (cb : option Z) (c : discv5_crawler) : discv5_crawler :=
  mkCrawler (config_ c) (queued_peers_ c) (measured_ids_ c) (failed_ids_ c) (discovered_ids_ c)
    (counters_ c) (running_ c) cb (error_callback_ c).

Definition set_error_callback (cb : option Z) (c : discv5_crawler) : discv5_crawler :=
  mkCrawler (config_ c) (queued_peers_ c) (measured_ids_ c) (failed_ids_ c) (discovered_ids_ c)
    (counters_ c) (running_ c) (peer_callback_ c) cb.

(** ** Enode texts *)

Definition kPubkeyHexLen : Z := 128.
Definition kEnodePrefix : bytes := text "enode://".

(** The lambda [hex_to_nibble]; ['0'], ['9'], ['a'], ['f'], ['A'] and ['F'] are 48, 57, 97, 102, 65
    and 70. *)
Definition hex_to_nibble (c : Z) : Z :=
  if (48 <=? c) && (c <=? 57) then c - 48
  else if (97 <=? c) && (c <=? 102) then 10 + (c - 97)
  else if (65 <=? c) && (c <=? 70) then 10 + (c - 65)
  else 0xFF.

(** [find] and [rfind] of a character. *)
Fixpoint find (ch : Z) (s : bytes) : option Z :=
  match s with
  | [] => None
  | c :: s => if c =? ch then Some 0 else match find ch s with Some i => Some (i + 1) | None => None end
  end.
Definition rfind (ch : Z) (s : bytes) : option Z :=
  match find ch (rev s) with Some i => Some (len s - 1 - i) | None => None end.

(** The loop over the digits of the key. *)
Fixpoint decode_hex (n : nat) (hex : bytes) : option bytes :=
  match n, hex with
  | O, _ => Some []
  | S n, hi_char :: lo_char :: hex =>
      let hi := hex_to_nibble hi_char in
      let lo := hex_to_nibble lo_char in
      if (hi =? 0xFF) || (lo =? 0xFF) then None
      else match decode_hex n hex with
           | Some out => Some (u8 (Z.lor (Z.shiftl hi 4) lo) :: out)
           | None => None
           end
  | _, _ => None
  end.

(** The loop over the digits of the port; ['0'] and ['9'] are 48 and 57. *)
Fixpoint decode_decimal (port : Z) (s : bytes) : option Z :=
  match s with
  | [] => Some port
  | c :: s => if (c <? 48) || (57 <? c) then None else decode_decimal (u16 (port * 10 + (c - 48))) s
  end.

(** [enqueue_enode_uri] up to the peer; every [None] counts as an invalid record. ['@'] and [':']
    are 64 and 58. *)
Definition parse_enode_uri (now : Z) (uri : bytes) : option ValidatedPeer :=
  if len uri <? len kEnodePrefix + kPubkeyHexLen + 2 then None else
  let body := drop (length kEnodePrefix) uri in
  at_pos ← find 64 body;
  if negb (at_pos =? kPubkeyHexLen) then None else
  node_id ← decode_hex (Z.to_nat kNodeIdBytes) (take (Z.to_nat kPubkeyHexLen) body);
  let host_port := drop (Z.to_nat (at_pos + 1)) body in
  colon_pos ← rfind 58 host_port;
  port ← decode_decimal 0 (drop (Z.to_nat (colon_pos + 1)) host_port);
  if port =? 0 then None else
  Some {| peer_node_id := node_id; peer_ip := take (Z.to_nat colon_pos) host_port; peer_udp_port := port;
          peer_tcp_port := port; peer_last_seen := now; peer_eth_fork_id := None |}.

Definition enqueue_enode_uri (now : Z) (uri : bytes) (c : discv5_crawler) : discv5_crawler :=
  match parse_enode_uri now uri with
  | None => count_invalid_enr c
  | Some p => process_found_peers [p] c
  end.

Section crawler.
Context `{AddressText} (keccak256 : bytes -> bytes) `{Secp256k1}.

(** A record whose decoding leaves a buffer ([Lost]) ends the process: no crawler is left. *)
Definition enqueue_enr_uri (now : Z) (uri : bytes) (c : discv5_crawler) : option (list crawler_call * discv5_crawler) :=
  match parse keccak256 uri with
  | Ok record =>
      match to_validated_peer now record with
      | Ok p => Some ([], process_found_peers [p] c)
      | _ => Some ([], count_invalid_enr c)
      end
  | Err Lost | Diverged => None
  | Err (Error _) =>
      Some (match error_callback_ c with
            | Some cb => [ErrorReported cb (text "Invalid ENR URI: " ++ take 60 uri)]
            | None => []
            end, count_invalid_enr c)
  end.

Definition add_bootstrap (now : Z) (record : EnrRecord) (c : discv5_crawler) : discv5_crawler :=
  match to_validated_peer now record with
  | Ok p => process_found_peers [p] c
  | _ => count_invalid_enr c
  end.

(** The loop of [start] over the configured texts; [rfind(prefix, 0) == 0] tests for a prefix. *)
Fixpoint seed (now : Z) (uris : list bytes) (c : discv5_crawler) : option (list crawler_call * discv5_crawler) :=
  match uris with
  | [] => Some ([], c)
  | uri :: uris =>
      '(e1, c) ← (if bool_decide (take 4 uri = text "enr:") then enqueue_enr_uri now uri c
                  else if bool_decide (take 8 uri = kEnodePrefix) then Some ([], enqueue_enode_uri now uri c)
                  else Some ([], c));
      '(e2, c) ← seed now uris c;
      Some (e1 ++ e2, c)
  end.

Definition start (now : Z) (c : discv5_crawler)
    : option (Discv5Result unit * list crawler_call * discv5_crawler) :=
  if running_ c then Some (Err (Error kCrawlerAlreadyRunning), [], c)
  else '(e, c) ← seed now (bootstrap_enrs (config_ c)) (with_running true c); Some (Ok tt, e, c).

Definition stop (c : discv5_crawler) : Discv5Result unit * discv5_crawler :=
  if running_ c then (Ok tt, with_running false c) else (Err (Error kCrawlerNotRunning), with_running false c).
End crawler.

(** ** Every step keeps its promises *)

(** The peers of the calls. *)
Definition emitted (es : list crawler_call) : list ValidatedPeer :=
  omap (fun e => match e with PeerDiscovered _ p => Some p | _ => None end) es.

Lemma emitted_app e1 e2 : emitted (e1 ++ e2) = emitted e1 ++ emitted e2.
Proof. apply omap_app. Qed.

Definition ids (ps : list ValidatedPeer) : list bytes := map peer_node_id ps.

(** The fork of a peer is the required one, if any. *)
Definition on_chain (config : discv5Config) (p : ValidatedPeer) : Prop :=
  match required_fork_id config with None => True | Some f => peer_eth_fork_id p = Some f end.

(** What the calls [es] that lead from [c] to [c'] have in common: the emitted peers are on the
    required chain, distinct, not discovered before and discovered afterwards; the counter
    follows the set; the queue keeps one entry for each node. *)
Record evolves (c : discv5_crawler) (es : list crawler_call) (c' : discv5_crawler) : Prop := {
  ev_config : config_ c' = config_ c;
  ev_chain : Forall (on_chain (config_ c)) (emitted es);
  ev_nodup : NoDup (ids (emitted es));
  ev_new : Forall (fun i => i ∉ discovered_ids_ c) (ids (emitted es));
  ev_discovered : Forall (fun i => i ∈ discovered_ids_ c') (ids (emitted es));
  ev_mono : discovered_ids_ c ⊆ discovered_ids_ c';
  ev_count : stat_discovered_ (counters_ c) = usize (Z.of_nat (size (discovered_ids_ c))) ->
             stat_discovered_ (counters_ c') = usize (Z.of_nat (size (discovered_ids_ c')));
  ev_queue : NoDup (ids (queued_peers_ c)) -> NoDup (ids (queued_peers_ c'))
}.

Lemma evolves_refl c : evolves c [] c.
Proof. split; try done; constructor. Qed.

Lemma evolves_trans c e1 c1 e2 c2 : evolves c e1 c1 -> evolves c1 e2 c2 -> evolves c (e1 ++ e2) c2.
Proof.
  intros [A1 A2 A3 A4 A5 A6 A7 A8] [B1 B2 B3 B4 B5 B6 B7 B8].
  assert (ids (emitted (e1 ++ e2)) = ids (emitted e1) ++ ids (emitted e2)) as Ei
    by (unfold ids; by rewrite emitted_app, map_app).
  split; rewrite ?Ei, ?emitted_app.
  - congruence.
  - apply Forall_app. split; [done | by rewrite <- A1].
  - apply list.NoDup_app. split_and!; [done | | done]. intros i H1 H2.
    rewrite List.Forall_forall in A5, B4. apply list_elem_of_In in H1, H2. exact (B4 i H2 (A5 i H1)).
  - apply Forall_app. split; [done |]. revert B4. apply Forall_impl. set_solver.
  - apply Forall_app. split; [| done]. revert A5. apply Forall_impl. set_solver.
  - set_solver.
  - auto.
  - auto.
Qed.

(** A step that makes no call and keeps the sets and their counter. *)
Lemma evolves_quiet c es c' : emitted es = [] -> config_ c' = config_ c ->
  discovered_ids_ c' = discovered_ids_ c -> stat_discovered_ (counters_ c') = stat_discovered_ (counters_ c) ->
  (NoDup (ids (queued_peers_ c)) -> NoDup (ids (queued_peers_ c'))) -> evolves c es c'.
Proof. intros He H1 H2 H3 H4. split; rewrite ?He, ?H1, ?H2, ?H3; try done; constructor. Qed.

Lemma queue_push p c : is_queued (peer_node_id p) c = false ->
  NoDup (ids (queued_peers_ c)) -> NoDup (ids (queued_peers_ c ++ [p])).
Proof.
  unfold is_queued. intros Hq Hn. unfold ids. rewrite map_app. apply list.NoDup_app.
  split_and!; [done | | apply NoDup_singleton]. intros i Hi H1. apply list_elem_of_singleton in H1 as ->.
  apply not_true_iff_false in Hq. apply Hq, existsb_exists. apply list_elem_of_In, in_map_iff in Hi as (qp & E & Hin).
  exists qp. split; [done | by apply bool_decide_eq_true].
Qed.

Lemma evolves_push p c : evolves c [] (if negb (is_queued (peer_node_id p) c) then with_queue (queued_peers_ c ++ [p]) c else c).
Proof.
  destruct (is_queued (peer_node_id p) c) eqn:E; cbn [negb]; [apply evolves_refl |].
  apply evolves_quiet; try done. by apply queue_push.
Qed.

Lemma evolves_process peers : forall c, evolves c [] (process_found_peers peers c).
Proof.
  induction peers as [|p peers IH]; intros c; [apply evolves_refl |].
  apply (evolves_trans _ [] (process_found_peer c p) []); [| apply IH]. unfold process_found_peer.
  destruct (is_discovered _ c); [by apply evolves_quiet |].
  pose proof (evolves_push p c) as H. destruct (is_queued _ c); [by apply evolves_quiet | exact H].
Qed.

Lemma evolves_emit p c : evolves c (fst (emit_peer p c)) (snd (emit_peer p c)).
Proof.
  assert (on_chain (config_ c) p -> evolves c
    (fst (if is_discovered (peer_node_id p) c then ([], count_duplicate c)
      else let c := count_discovered (with_discovered ({[ peer_node_id p ]} ∪ discovered_ids_ c) c) in
        (match peer_callback_ c with Some cb => [PeerDiscovered cb p] | None => [] end, c)))
    (snd (if is_discovered (peer_node_id p) c then ([], count_duplicate c)
      else let c := count_discovered (with_discovered ({[ peer_node_id p ]} ∪ discovered_ids_ c) c) in
        (match peer_callback_ c with Some cb => [PeerDiscovered cb p] | None => [] end, c)))) as Hemit.
  { intros Hch. unfold is_discovered. case_bool_decide as Hd; cbn [fst snd]; [by apply evolves_quiet |].
    cbn [peer_callback_ count_discovered count with_discovered]. split; cbn.
    - done.
    - destruct (peer_callback_ c); repeat constructor. exact Hch.
    - destruct (peer_callback_ c); cbn; [apply NoDup_singleton | constructor].
    - destruct (peer_callback_ c); repeat constructor. exact Hd.
    - destruct (peer_callback_ c); repeat constructor. cbn. set_solver.
    - set_solver.
    - intros ->. rewrite size_union by set_solver. rewrite size_singleton. unfold usize.
      rewrite Zplus_mod_idemp_l. f_equal. lia.
    - done. }
  unfold emit_peer. unfold on_chain in Hemit. destruct (required_fork_id (config_ c)) as [f|]; [| by apply Hemit].
  destruct (peer_eth_fork_id p) as [g|] eqn:Ef; [| by apply evolves_quiet].
  case_bool_decide as Hh; cbn [negb orb]; [| by apply evolves_quiet].
  destruct (Z.eqb_spec (next f) (next g)) as [Hn|]; cbn [negb]; [| by apply evolves_quiet].
  apply Hemit. f_equal. destruct f, g. cbn in *. congruence.
Qed.

Lemma evolves_ingest peers : forall c,
  evolves c (fst (ingest_discovered_peers peers c)) (snd (ingest_discovered_peers peers c)).
Proof.
  induction peers as [|p peers IH]; intros c; [apply evolves_refl |]. cbn [ingest_discovered_peers].
  assert (evolves c (fst (ingest_peer p c)) (snd (ingest_peer p c))) as H1.
  { unfold ingest_peer. destruct (is_discovered (peer_node_id p) c); cbn [negb andb fst snd]; [by apply evolves_quiet |].
    apply (evolves_trans _ [] _ _ _ (evolves_push p c)). apply evolves_emit. }
  destruct (ingest_peer p c) as [e1 c1]. specialize (IH c1).
  destruct (ingest_discovered_peers peers c1) as [e2 c2]. by apply (evolves_trans _ _ c1).
Qed.

Section runs.
Context `{AddressText} (keccak256 : bytes -> bytes) `{Secp256k1}.

Lemma evolves_seed now uris : forall c es c', seed keccak256 now uris c = Some (es, c') -> evolves c es c'.
Proof.
  induction uris as [|uri uris IH]; intros c es c' Hs; cbn [seed] in Hs; [injection Hs as <- <-; apply evolves_refl |].
  apply bind_Some in Hs as ([e1 c1] & H1 & Hs). apply bind_Some in Hs as ([e2 c2] & H2 & Hs).
  injection Hs as <- <-. apply (evolves_trans _ _ c1); [| by apply IH].
  case_bool_decide; [| case_bool_decide].
  - unfold enqueue_enr_uri in H1. destruct (parse keccak256 uri) as [r|[e|]|]; try done.
    + destruct (to_validated_peer now r) as [p| |]; injection H1 as <- <-;
        [exact (evolves_process [p] c) | by apply evolves_quiet ..].
    + injection H1 as <- <-. by apply evolves_quiet; [destruct (error_callback_ c) | ..].
  - injection H1 as <- <-. unfold enqueue_enode_uri. destruct (parse_enode_uri now uri) as [p|]; [exact (evolves_process [p] c) |].
    by apply evolves_quiet.
  - injection H1 as <- <-. apply evolves_refl.
Qed.

(** The public methods, called one after the other on a new crawler. *)
Inductive crawler_step (c : discv5_crawler) : list crawler_call -> discv5_crawler -> Prop :=
| step_add_bootstrap now r : crawler_step c [] (add_bootstrap now r c)
| step_peer_callback cb : crawler_step c [] (set_peer_discovered_callback cb c)
| step_error_callback cb : crawler_step c [] (set_error_callback cb c)
| step_start now r es c' : start keccak256 now c = Some (r, es, c') -> crawler_step c es c'
| step_stop : crawler_step c [] (snd (stop c))
| step_process peers : crawler_step c [] (process_found_peers peers c)
| step_ingest peers : crawler_step c (fst (ingest_discovered_peers peers c)) (snd (ingest_discovered_peers peers c))
| step_measured id : crawler_step c [] (mark_measured id c)
| step_failed id : crawler_step c [] (mark_failed id c)
| step_dequeue : crawler_step c [] (snd (dequeue_next c)).

Inductive crawler_run (config : discv5Config) : list crawler_call -> discv5_crawler -> Prop :=
| run_new : crawler_run config [] (new_crawler config)
| run_step es c e c' : crawler_run config es c -> crawler_step c e c' -> crawler_run config (es ++ e) c'.

Lemma step_evolves c e c' : crawler_step c e c' -> evolves c e c'.
Proof.
  intros [now r|cb|cb|now r es c1 Hs| |peers|peers|id|id|]; try (by apply evolves_quiet).
  - unfold add_bootstrap. destruct (to_validated_peer now r) as [p| |]; [exact (evolves_process [p] c) | by apply evolves_quiet ..].
  - unfold start in Hs. destruct (running_ c); [injection Hs as _ <- <-; apply evolves_refl |].
    apply bind_Some in Hs as ([e2 c2] & H2 & Hs). injection Hs as _ <- <-.
    apply (evolves_trans _ [] (with_running true c)); [by apply evolves_quiet | by eapply evolves_seed].
  - unfold stop. destruct (running_ c); by apply evolves_quiet.
  - apply evolves_process.
  - apply evolves_ingest.
  - unfold dequeue_next. destruct (queued_peers_ c) as [|p q] eqn:E; cbn; [by apply evolves_quiet |].
    apply evolves_quiet; try done. rewrite E. cbn. intros Hn. by apply list.NoDup_cons in Hn as [_ ?].
Qed.

(** C32: in every run of the crawler, whatever peers it is given: no node is handed to the callback
    twice, and none that is not on the required chain; every node handed on counts as
    discovered, and the counter of discovered nodes is the size of that set (modulo the width of
    a [size_t]); and the queue never holds two entries for one node. *)
Theorem peers_emitted_once config es c : crawler_run config es c ->
  NoDup (ids (emitted es)) /\ Forall (on_chain config) (emitted es)
  /\ Forall (fun i => is_discovered i c = true) (ids (emitted es))
  /\ discovered (stats c) = usize (Z.of_nat (size (discovered_ids_ c)))
  /\ NoDup (ids (queued_peers_ c)).
Proof.
  intros Hrun. assert (evolves (new_crawler config) es c) as [H1 H2 H3 H4 H5 H6 H7 H8].
  { induction Hrun as [|es c e c' _ IH Hs]; [apply evolves_refl |].
    apply (evolves_trans _ _ c); [done | by apply step_evolves]. }
  split_and!; [done | done | | by apply H7 | apply H8; constructor].
  revert H5. apply Forall_impl. intros i Hi. by apply bool_decide_eq_true.
Qed.
End runs.

(** ** The text of an enode *)

(** Lower-case hexadecimal digits, and the number a text of decimal digits stands for. *)
Definition hex_char (d : Z) : Z := if d <? 10 then 48 + d else 87 + d.
Definition hex (bs : bytes) : bytes := concat (map (fun b => [hex_char (b / 16); hex_char (b mod 16)]) bs).
Definition decimal_value (s : bytes) : Z := fold_left (fun n c => n * 10 + (c - 48)) s 0.

Lemma hex_char_nibble d : 0 <= d < 16 -> hex_to_nibble (hex_char d) = d /\ hex_char d <> 64.
Proof. intros Hd. unfold hex_to_nibble, hex_char. repeat (zcase; cbn [andb]; try lia). Qed.

Lemma decode_hex_hex id rest : bytes_ok id -> decode_hex (length id) (hex id ++ rest) = Some id.
Proof.
  induction id as [|b id IH]; intros Hok; [done |]. apply bytes_ok_cons in Hok as [Hb Hok]. unfold uint8 in Hb.
  assert (0 <= b / 16 < 16 /\ 0 <= b mod 16 < 16) as [H1 H2] by (Z.div_mod_to_equations; lia).
  cbn [hex map concat app length decode_hex]. fold (hex id). destruct (hex_char_nibble _ H1) as [-> _].
  destruct (hex_char_nibble _ H2) as [-> _].
  assert ((b / 16 =? 0xFF) || (b mod 16 =? 0xFF) = false) as -> by (apply orb_false_iff; split; apply Z.eqb_neq; lia).
  rewrite IH by done. rewrite Z.shiftl_mul_pow2 by lia. rewrite (lor_add _ _ 4) by (try apply Z.mod_mul; lia).
  unfold u8. rewrite Z.mod_small by (Z.div_mod_to_equations; lia). do 2 f_equal. Z.div_mod_to_equations. lia.
Qed.

Lemma find_app ch u v : Forall (fun c => c <> ch) u -> find ch (u ++ ch :: v) = Some (len u).
Proof.
  intros Hu. induction Hu as [|c u Hc _ IH]; cbn [app find]; [by rewrite Z.eqb_refl |].
  rewrite (proj2 (Z.eqb_neq c ch)) by done. rewrite IH, len_cons. f_equal. lia.
Qed.

Lemma rfind_app ch u v : Forall (fun c => c <> ch) v -> rfind ch (u ++ ch :: v) = Some (len u).
Proof.
  intros Hv. unfold rfind. rewrite rev_app_distr. cbn [rev]. rewrite <- app_assoc. cbn [app].
  rewrite find_app by by apply Forall_rev. f_equal. rewrite len_app, len_cons, len_rev. lia.
Qed.

Lemma hex_chars id : bytes_ok id -> Forall (fun c => c <> 64) (hex id).
Proof.
  intros Hok. induction Hok as [|b id Hb _ IH]; [constructor |]. unfold uint8 in Hb.
  cbn [hex map concat app]. repeat constructor; [.. | exact IH]; apply hex_char_nibble; Z.div_mod_to_equations; lia.
Qed.

Lemma length_hex id : length (hex id) = (2 * length id)%nat.
Proof. induction id as [|b id IH]; [done |]. cbn [hex map concat app length]. fold (hex id). lia. Qed.

Lemma decode_decimal_value s : Forall (fun c => 48 <= c <= 57) s -> forall n,
  decode_decimal (u16 n) s = Some (u16 (fold_left (fun n c => n * 10 + (c - 48)) s n)).
Proof.
  intros Hs. induction Hs as [|c s Hc _ IH]; intros n; [done |]. cbn [decode_decimal fold_left].
  assert ((c <? 48) || (57 <? c) = false) as -> by lia. rewrite <- IH. f_equal. unfold u16.
  rewrite <- (Z.add_mod_idemp_l (_ * 10)), Z.mul_mod_idemp_l, Z.add_mod_idemp_l by lia. done.
Qed.

(** the text [enode://<key>@<host>:<port>] gives the peer with that key, host and port; but the
    port wraps around at 2^16, so that a number that is no port stands for another one, and
    only a multiple of 2^16 is refused. The host is not examined. *)
Theorem enode_uri_parsed now id host digits :
  is_array 64 id -> Forall (fun c => 48 <= c <= 57) digits ->
  let port := decimal_value digits mod 2 ^ 16 in
  parse_enode_uri now (kEnodePrefix ++ hex id ++ [64] ++ host ++ [58] ++ digits)
  = if port =? 0 then None
    else Some {| peer_node_id := id; peer_ip := host; peer_udp_port := port; peer_tcp_port := port;
                 peer_last_seen := now; peer_eth_fork_id := None |}.
Proof.
  intros [Hl Hok] Hd port. unfold parse_enode_uri. pose proof (length_hex id) as Hh. rewrite Hl in Hh.
  assert ((len (kEnodePrefix ++ hex id ++ [64] ++ host ++ [58] ++ digits) <? len kEnodePrefix + kPubkeyHexLen + 2) = false)
    as ->.
  { apply Z.ltb_ge. rewrite !len_app. change (len [64]) with 1. change (len [58]) with 1.
    pose proof (len_nonneg host). pose proof (len_nonneg digits). unfold len at 3. rewrite Hh.
    unfold kPubkeyHexLen. lia. }
  rewrite drop_app_length. cbn [app]. rewrite find_app by by apply hex_chars. cbn [mbind option_bind].
  assert (len (hex id) = 128) as Hlh by (unfold len; lia). rewrite Hlh. cbn [negb Z.eqb Pos.eqb kPubkeyHexLen].
  change (Z.to_nat 128) with 128%nat. change (Z.to_nat (128 + 1)) with 129%nat. change (Z.to_nat kNodeIdBytes) with 64%nat.
  rewrite take_app_length' by done. rewrite <- (app_nil_r (hex id)) at 1. rewrite <- Hl, decode_hex_hex by done.
  cbn [mbind option_bind].
  replace (hex id ++ 64 :: host ++ 58 :: digits) with ((hex id ++ [64]) ++ host ++ 58 :: digits) by by rewrite <- app_assoc.
  rewrite drop_app_length' by (rewrite length_app; cbn; lia).
  rewrite rfind_app by (revert Hd; apply Forall_impl; intros; lia). cbn [mbind option_bind].
  rewrite take_len_app. replace (host ++ 58 :: digits) with ((host ++ [58]) ++ digits) by by rewrite <- app_assoc.
  rewrite drop_app_length' by (rewrite length_app; cbn; unfold len; lia).
  rewrite (decode_decimal_value digits Hd 0 : decode_decimal 0 digits = Some port). done.
Qed.

(** ** Witnesses *)

Module CrawlerSample.
Definition config : discv5Config := mkConfig [] 9000 30303 (repeat 1 32) (repeat 2 64) [] 8 30 (Some (mkForkId [1; 2; 3; 4] 0)).
Definition peer (i : Z) (h : bytes) : ValidatedPeer := mkPeer (repeat i 64) [49] 9000 30303 0 (Some (mkForkId h 0)).
End CrawlerSample.

(** Three peers, one of them twice and one on another chain. *)
Lemma peers_emitted_once_witness :
  let c0 := snd (ingest_discovered_peers [CrawlerSample.peer 1 [1; 2; 3; 4]; CrawlerSample.peer 2 [9; 9; 9; 9];
      CrawlerSample.peer 1 [1; 2; 3; 4]] (set_peer_discovered_callback (Some 7) (new_crawler CrawlerSample.config))) in
  ids (queued_peers_ c0) = [repeat 1 64; repeat 2 64] /\ discovered (stats c0) = usize (Z.of_nat (size (discovered_ids_ c0))).
Proof.
  set (peers := [CrawlerSample.peer 1 [1; 2; 3; 4]; CrawlerSample.peer 2 [9; 9; 9; 9]; CrawlerSample.peer 1 [1; 2; 3; 4]]).
  set (c1 := set_peer_discovered_callback (Some 7) (new_crawler CrawlerSample.config)). cbn zeta.
  split; [vm_compute; reflexivity |].
  assert (@crawler_run EnrSample.address_text EnrSample.keccak256 ToySecp.toy CrawlerSample.config
    (([] ++ []) ++ fst (ingest_discovered_peers peers c1)) (snd (ingest_discovered_peers peers c1))) as Hrun.
  { apply run_step with c1; [| apply step_ingest].
    apply run_step with (new_crawler CrawlerSample.config); [apply run_new | apply step_peer_callback]. }
  exact (proj1 (proj2 (proj2 (proj2
    (@peers_emitted_once EnrSample.address_text EnrSample.keccak256 ToySecp.toy _ _ _ Hrun))))).
Defined.

(** Port 65537 is port 1. *)
Lemma enode_uri_parsed_witness :
  parse_enode_uri 5 (kEnodePrefix ++ hex (repeat 0xAB 64) ++ [64] ++ text "10.0.0.1" ++ [58] ++ text "65537")
  = Some (mkPeer (repeat 0xAB 64) (text "10.0.0.1") 1 1 5 None).
Proof.
  apply (enode_uri_parsed 5 (repeat 0xAB 64) (text "10.0.0.1") (text "65537")).
  - by split; [| octets].
  - repeat constructor; vm_compute; congruence.
Defined.
