(* ===== verification/Discv5Bootnodes.v ===== *)
(** * Discv5Bootnodes: the built-in bootnodes of each chain

    [include/discv5/discv5_bootnodes.hpp] and [src/discv5/discv5_bootnodes.cpp]: the two sources of
    bootnodes, the lists, and the registry that finds them by chain. A source is a record; a null
    pointer is [None]. Theorems: the two forms of [for_chain] agree, and name the nine chains
    ([chains_found]); the crawler takes every built-in enode URI into its queue
    ([enode_lists_accepted]), and every built-in record decodes to one with a key and a UDP port
    ([enr_list_decodes]). *)
From stdpp Require Export strings.
From S2P Require Export Discv5Crawler.
Open Scope Z_scope.

(** ** Sources *)

(** [StaticEnrBootnodeSource] and [StaticEnodeBootnodeSource], the [IBootnodeSource]s. *)
Inductive IBootnodeSource :=
| StaticEnrBootnodeSource (enr_uris : list bytes) (enr_source : string)
| StaticEnodeBootnodeSource (enode_uris : list bytes) (enode_source : string).

Definition fetch (s : IBootnodeSource) : list bytes :=
  match s with StaticEnrBootnodeSource uris _ | StaticEnodeBootnodeSource uris _ => uris end.
Definition name (s : IBootnodeSource) : string :=
  match s with StaticEnrBootnodeSource _ n | StaticEnodeBootnodeSource _ n => n end.

(** ** Chains *)

(** [OtherChain n] is a value of the type that is none of the enumerators. *)
Inductive ChainId :=
| kEthereumMainnet | kEthereumSepolia | kEthereumHolesky | kPolygonMainnet | kPolygonAmoy | kBscMainnet | kBscTestnet
| kBaseMainnet | kBaseSepolia | OtherChain (n : Z).

#[export] Instance ChainId_eq_dec : EqDecision ChainId.
Proof. solve_decision. Defined.

(** [static_cast<uint64_t>(chain_id)]. *)
Definition chain_number (c : ChainId) : Z :=
  match c with
  | kEthereumMainnet => 1
  | kEthereumSepolia => 11155111
  | kEthereumHolesky => 17000
  | kPolygonMainnet => 137
  | kPolygonAmoy => 80002
  | kBscMainnet => 56
  | kBscTestnet => 97
  | kBaseMainnet => 8453
  | kBaseSepolia => 84532
  | OtherChain n => n
  end.

Definition chain_name (c : ChainId) : string :=
  match c with
  | kEthereumMainnet => "ethereum-mainnet"
  | kEthereumSepolia => "ethereum-sepolia"
  | kEthereumHolesky => "ethereum-holesky"
  | kPolygonMainnet => "polygon-mainnet"
  | kPolygonAmoy => "polygon-amoy"
  | kBscMainnet => "bsc-mainnet"
  | kBscTestnet => "bsc-testnet"
  | kBaseMainnet => "base-mainnet"
  | kBaseSepolia => "base-sepolia"
  | OtherChain _ => "unknown"
  end%string.

(** ** The lists *)

Definition make_ethereum_mainnet : IBootnodeSource :=
  StaticEnrBootnodeSource [
    text "enr:-KG4QMOEswP62yzDjSwWS4YEjtTZ5PO6r65CPqYBkgTTkrpaedQ8uEUo1uMALtJIvb2w_WWEVmg5yt1UAuK1ftxUU7QDhGV0aDKQu6TalgMAAAD__________4JpZIJ2NIJpcIQEnfA2iXNlY3AyNTZrMaEDfol8oLr6XJ7FsdAYE7lpJhKMls4G_v6qQOGKJUWGb_uDdGNwgiMog3VkcIIjKA";
    text "enr:-KG4QF4B5WrlFcRhUU6dZETwY5ZzAXnA0vGC__L1Kdw602nDZwXSTs5RFXFIFUnbQJmhNGVU6OIX7KVrCSTODsz1tK4DhGV0aDKQu6TalgMAAAD__________4JpZIJ2NIJpcIQExNYEiXNlY3AyNTZrMaECQmM9vp7KhaXhI-nqL_R0ovULLCFSFTa9CPPSdb1zPX6DdGNwgiMog3VkcIIjKA";
    text "enr:-Ku4QImhMc1z8yCiNJ1TyUxdcfNucje3BGwEHzodEZUan8PherEo4sF7pPHPSIB1NNuSg5fZy7qFsjmUKs2ea1Whi0EBh2F0dG5ldHOIAAAAAAAAAACEZXRoMpD1pf1CAAAAAP__________gmlkgnY0gmlwhBLf22SJc2VjcDI1NmsxoQOVphkDqal4QzPMksc5wnpuC3gvSC8AfbFOnZY_On34wIN1ZHCCIyg";
    text "enr:-Ku4QP2xDnEtUXIjzJ_DhlCRN9SN99RYQPJL92TMlSv7U5C1YnYLjwOQHgZIUXw6c-BvRg2Yc2QsZxxoS_pPRVe0yK8Bh2F0dG5ldHOIAAAAAAAAAACEZXRoMpD1pf1CAAAAAP__________gmlkgnY0gmlwhBLf22SJc2VjcDI1NmsxoQMeFF5GrS7UZpAH2Ly84aLK-TyvH-dRo0JM1i8yygH50YN1ZHCCJxA";
    text "enr:-Ku4QHqVeJ8PPICcWk1vSn_XcSkjOkNiTg6Fmii5j6vUQgvzMc9L1goFnLKgXqBJspJjIsB91LTOleFmyWWrFVATGngBh2F0dG5ldHOIAAAAAAAAAACEZXRoMpC1MD8qAAAAAP__________gmlkgnY0gmlwhAMRHkWJc2VjcDI1NmsxoQKLVXFOhp2uX6jeT0DvvDpPcU8FWMjQdR4wMuORMhpX24N1ZHCCIyg";
    text "enr:-Ku4QG-2_Md3sZIAUebGYT6g0SMskIml77l6yR-M_JXc-UdNHCmHQeOiMLbylPejyJsdAPsTHJyjJB2sYGDLe0dn8uYBh2F0dG5ldHOIAAAAAAAAAACEZXRoMpC1MD8qAAAAAP__________gmlkgnY0gmlwhBLY-NyJc2VjcDI1NmsxoQORcM6e19T1T9gi7jxEZjk_sjVLGFscUNqAY9obgZaxbIN1ZHCCIyg"
  ] "ethereum-mainnet-enr".

Definition make_ethereum_sepolia : IBootnodeSource :=
  StaticEnodeBootnodeSource [
    text "enode://4e5e92199ee224a01932a377160aa432f31d0b351f84ab413a8e0a42f4f36476f8fb1cbe914af0d9aef0d51665c214cf653c651c4bbd9d5550a934f241f1682b@138.197.51.181:30303";
    text "enode://143e11fb766781d22d92a2e33f8f104cddae4411a122295ed1fdb6638de96a6ce65f5b7c964ba3763bba27961738fef7d3ecc739268f3e5e771fb4c87b6234ba@146.190.1.103:30303";
    text "enode://8b61dc2d06c3f96fddcbebb0efb29d60d3598650275dc469c22229d3e5620369b0d3dedafd929835fe7f489618f19f456fe7c0df572bf2d914a9f4e006f783a9@170.64.250.88:30303";
    text "enode://10d62eff032205fcef19497f35ca8477bea0eadfff6d769a147e895d8b2b8f8ae6341630c645c30f5df6e67547c03494ced3d9c5764e8622a26587b083b028e8@139.59.49.206:30303";
    text "enode://9e9492e2e8836114cc75f5b929784f4f46c324ad01daf87d956f98b3b6c5fcba95524d6e5cf9861dc96a2c8a171ea7105bb554a197455058de185fa870970c7c@138.68.123.152:30303"
  ] "ethereum-sepolia-enode".

Definition make_ethereum_holesky : IBootnodeSource :=
  StaticEnodeBootnodeSource [
    text "enode://ac906289e4b7f12df423d654c5a962b6ebe5b3a74cc9e06292a85221f9a64a6f1cfdd6b714ed6dacef51578f92b34c60ee91e9ede9c7f8fadc4d347326d95e2b@146.190.13.128:30303";
    text "enode://a3435a0155a3e837c02f5e7f5662a2f1fbc25b48e4dc232016e1c51b544cb5b4510ef633ea3278c0e970fa8ad8141e2d4d0f9f95456c537ff05fdf9b31c15072@178.128.136.233:30303"
  ] "ethereum-holesky-enode".

Definition make_polygon_mainnet : IBootnodeSource :=
  StaticEnodeBootnodeSource [
    text "enode://48e6326841ce106f6b4e229a1be7e98a1d12be57e328b08cb461f6744ae4e78f5ec2340996ce9b40928a1a90137aadea13e25ca34774b52a3600d13a52c5c7bb@34.185.209.56:30303";
    text "enode://b8f1cc9c5d4403703fbf377116469667d2b1823c0daf16b7250aa576bacf399e42c3930ccfcb02c5df6879565a2b8931335565f0e8d3f8e72385ecf4a4bf160a@3.36.224.80:30303";
    text "enode://8729e0c825f3d9cad382555f3e46dcff21af323e89025a0e6312df541f4a9e73abfa562d64906f5e59c51fe6f0501b3e61b07979606c56329c020ed739910759@54.194.245.5:30303"
  ] "polygon-mainnet-enode".

Definition make_polygon_amoy : IBootnodeSource :=
  StaticEnodeBootnodeSource [
    text "enode://d40ab6b340be9f78179bd1ec7aa4df346d43dc1462d85fb44c5d43f595991d2ec215d7c778a7588906cb4edf175b3df231cecce090986a739678cd3c620bf580@34.89.255.109:30303";
    text "enode://13abba15caa024325f2209d3566fa77cd864281dda4f73bca4296277bfd919ac68cef4dbb508028e0310a24f6f9e23c761fa41ac735cdc87efdee76d5ff985a7@34.185.137.160:30303";
    text "enode://fc5bd3856a4ce6389eef1d6bc637ce7617e6ba8013f7d722d9878cf13f1c5a5a95a9e26ccb0b38bcc330343941ce117ab50db9f61e72ba450dd528a1184d8e6a@34.89.119.250:30303"
  ] "polygon-amoy-enode".

Definition make_bsc_mainnet : IBootnodeSource :=
  StaticEnodeBootnodeSource [
    text "enode://433c8bfdf53a3e2268ccb1b829e47f629793291cbddf0c76ae626da802f90532251fc558e2e0d10d6725e759088439bf1cd4714716b03a259a35d4b2e4acfa7f@52.69.102.73:30311";
    text "enode://bac6a548c7884270d53c3694c93ea43fa87ac1c7219f9f25c9d57f6a2fec9d75441bc4bad1e81d78c049a1c4daf3b1404e2bbb5cd9bf60c0f3a723bbaea110bc@3.255.117.110:30311";
    text "enode://94e56c84a5a32e2ef744af500d0ddd769c317d3c3dd42d50f5ea95f5f3718a5f81bc5ce32a7a3ea127bc0f10d3f88f4526a67f5b06c1d85f9cdfc6eb46b2b375@3.255.231.219:30311"
  ] "bsc-mainnet-enode".

Definition make_bsc_testnet : IBootnodeSource :=
  StaticEnodeBootnodeSource [
    text "enode://1cc4534b14cfe351ab740a1418ab944a234ca2f702915eadb7e558a02010cb7c5a8c295a3b56bcefa7701c07752acd5539cb13df2aab8ae2d98934d712611443@52.71.43.172:30311";
    text "enode://28b1d16562dac280dacaaf45d54516b85bc6c994252a9825c5cc4e080d3e53446d05f63ba495ea7d44d6c316b54cd92b245c5c328c37da24605c4a93a0d099c4@34.246.65.14:30311";
    text "enode://5a7b996048d1b0a07683a949662c87c09b55247ce774aeee10bb886892e586e3c604564393292e38ef43c023ee9981e1f8b335766ec4f0f256e57f8640b079d5@35.73.137.11:30311"
  ] "bsc-testnet-enode".

Definition make_base_mainnet : IBootnodeSource :=
  StaticEnodeBootnodeSource [] "base-mainnet-enode".

Definition make_base_sepolia : IBootnodeSource :=
  StaticEnodeBootnodeSource [] "base-sepolia-enode".

(** ** The registry *)

Definition for_chain (c : ChainId) : option IBootnodeSource :=
  match c with
  | kEthereumMainnet => Some make_ethereum_mainnet
  | kEthereumSepolia => Some make_ethereum_sepolia
  | kEthereumHolesky => Some make_ethereum_holesky
  | kPolygonMainnet => Some make_polygon_mainnet
  | kPolygonAmoy => Some make_polygon_amoy
  | kBscMainnet => Some make_bsc_mainnet
  | kBscTestnet => Some make_bsc_testnet
  | kBaseMainnet => Some make_base_mainnet
  | kBaseSepolia => Some make_base_sepolia
  | OtherChain _ => None
  end.

(** [kChainMap], and the integer overload. *)
Definition kChainMap : gmap Z ChainId :=
  list_to_map (map (fun c => (chain_number c, c))
    [kEthereumMainnet; kEthereumSepolia; kEthereumHolesky; kPolygonMainnet; kPolygonAmoy; kBscMainnet; kBscTestnet;
     kBaseMainnet; kBaseSepolia]).

Definition for_chain_number (chain_id_int : Z) : option IBootnodeSource :=
  c ← kChainMap !! chain_id_int; for_chain c.

(** The two forms of [for_chain] agree: the integer one knows the numbers of the chains, and no other. *)
Theorem chains_found n s : for_chain_number n = Some s <-> exists c, n = chain_number c /\ for_chain c = Some s.
Proof.
  unfold for_chain_number, kChainMap. split.
  - intros (c & Hc & Hs)%bind_Some. apply elem_of_list_to_map_2 in Hc. apply list_elem_of_fmap in Hc as (c' & [= -> ->] & _). eauto.
  - intros (c & -> & Hs). destruct c; [vm_compute; exact Hs .. | discriminate Hs].
Qed.

Section accepted.
Context `{AddressText} (keccak256 : bytes -> bytes) `{Secp256k1}.

(** The URI of a node that is not queued yet. *)
Definition fresh_enode (now : Z) (uri : bytes) (known : list bytes) : option bytes :=
  if bool_decide (take 4 uri = text "enr:") then None else
  if negb (bool_decide (take 8 uri = kEnodePrefix)) then None else
  match parse_enode_uri now uri with
  | Some p => if existsb (fun id => bool_decide (id = peer_node_id p)) known then None else Some (peer_node_id p)
  | None => None
  end.
Fixpoint fresh_enodes (now : Z) (uris known : list bytes) : bool :=
  match uris with
  | [] => true
  | uri :: uris => match fresh_enode now uri known with Some id => fresh_enodes now uris (known ++ [id]) | None => false end
  end.

Lemma seed_enodes now uris : forall c, discovered_ids_ c = ∅ ->
  fresh_enodes now uris (map peer_node_id (queued_peers_ c)) = true ->
  exists ps, seed keccak256 now uris c = Some ([], with_queue (queued_peers_ c ++ ps) c)
  /\ Forall2 (fun uri p => parse_enode_uri now uri = Some p) uris ps.
Proof.
  induction uris as [|uri uris IH]; intros c Hd Hf.
  { exists []. rewrite app_nil_r. split; [by destruct c | constructor]. }
  cbn [fresh_enodes] in Hf. unfold fresh_enode in Hf. cbn [seed].
  destruct (bool_decide (take 4 uri = text "enr:")); [done |]. destruct (bool_decide (take 8 uri = kEnodePrefix)); [| done].
  cbn [negb] in Hf. unfold enqueue_enode_uri. destruct (parse_enode_uri now uri) as [p|] eqn:Ep; [| done].
  destruct (existsb _ _) eqn:Ee; [done |].
  assert (process_found_peers [p] c = with_queue (queued_peers_ c ++ [p]) c) as ->.
  { cbn. unfold process_found_peer, is_discovered, is_queued. rewrite Hd, bool_decide_false by set_solver.
    replace (existsb _ (queued_peers_ c)) with false; [done |]. rewrite <- Ee. clear. induction (queued_peers_ c) as [|q l IHl]; [done |].
    cbn. by rewrite IHl. }
  destruct (IH (with_queue (queued_peers_ c ++ [p]) c) Hd) as (ps & Hs & Hps).
  { cbn [queued_peers_ with_queue]. by rewrite map_app. }
  exists (p :: ps). split; [| by constructor]. cbn. rewrite Hs. cbn. by rewrite <- app_assoc.
Qed.

(** A crawler that is configured with the built-in enode URIs of a chain starts with all of them in
    its queue, none twice and none refused. *)
Theorem enode_lists_accepted chain uris label config now :
  for_chain chain = Some (StaticEnodeBootnodeSource uris label) -> bootstrap_enrs config = uris ->
  exists ps, start keccak256 now (new_crawler config) = Some (Ok tt, [], with_queue ps (with_running true (new_crawler config)))
  /\ Forall2 (fun uri p => parse_enode_uri now uri = Some p) uris ps.
Proof.
  intros Hc Hb. assert (fresh_enodes now uris [] = true) as Hf
    by (destruct chain; injection Hc as <- _ || discriminate; vm_compute; reflexivity).
  destruct (seed_enodes now uris (with_running true (new_crawler config)) eq_refl Hf) as (ps & Hs & Hps).
  exists ps. split; [| exact Hps]. unfold start. cbn [running_ new_crawler config_]. rewrite Hb, Hs. reflexivity.
Qed.

(** What a record must have to be of use. *)
Definition usable_record (r : EnrRecord) : bool :=
  bool_decide (identity_scheme r = text "v4") && bool_decide (length (compressed_pubkey r) = 33%nat)
  && negb (udp_port r =? 0) && (udp_port r <? 65536).
Definition usable_enr (uri : bytes) : bool :=
  match decode_uri uri with
  | Ok raw => (len raw <=? kEnrMaxBytes) && match decode_rlp raw with Ok r => usable_record r | _ => false end
  | _ => false
  end.

(** Every built-in record of Ethereum decodes: to at most 300 octets, with the v4 scheme, a
    compressed key and a UDP port. Its signature is for libsecp256k1 to check. *)
Theorem enr_list_decodes : forallb usable_enr (fetch make_ethereum_mainnet) = true.
Proof. vm_compute. reflexivity. Qed.
End accepted.
