(* ===== verification/Discv5Crawl.v ===== *)
(** * Discv5Crawl: the crawler program

    [examples/discv5_crawl/discv5_crawl.cpp]: the arguments, the seeds, and what is said of a run from its
    counters; and [load_fork_hash] of [examples/chain_config.hpp]. Texts are octets. The program ends
    with a usage error or, when [std::stoul] throws, which nothing catches, by [terminate].

    Theorems: the arguments are read back ([crawl_arguments_parsed]), a port and a timeout modulo their
    width ([port_argument_wraps]); the seeds are those of the chain and then the given ones
    ([crawl_seeds]); the status and its interpretation belong together ([interpretation_of_status]); the
    fork hash is the one of the first file that has one ([fork_hash_loaded]). *)
From S2P Require Import EthCli.
From S2P Require Export Discv5Bootnodes.
Open Scope Z_scope.

(** ** Arguments *)

Definition kChainNameMap : gmap (list Z) ChainId :=
  list_to_map (map (fun '(name, c) => (text name, c))
    [("ethereum", kEthereumMainnet); ("mainnet", kEthereumMainnet); ("sepolia", kEthereumSepolia);
     ("holesky", kEthereumHolesky); ("polygon", kPolygonMainnet); ("amoy", kPolygonAmoy); ("bsc", kBscMainnet);
     ("bsc-testnet", kBscTestnet); ("base", kBaseMainnet); ("base-sepolia", kBaseSepolia)]%string).

Record CliArgs := mkCliArgs {
  chain : ChainId;
  extra_enrs : list bytes;
  arg_bind_port : Z;
  timeout_sec : Z;
  log_level : bytes
}.

Definition default_args : CliArgs := mkCliArgs kEthereumMainnet [] kDefaultUdpPort 60 (text "info").

(** [std::stoul] in base 10: blanks, a sign, and the digits that follow; what comes after them is not
    looked at. It throws without a digit and when the number does not fit; a minus negates the
    result in 64 bits. *)
Definition is_blank (c : Z) : bool := (c =? 32) || ((9 <=? c) && (c <=? 13)).
Definition is_decimal (c : Z) : bool := (48 <=? c) && (c <=? 57).
Fixpoint skip_blanks (s : bytes) : bytes :=
  match s with c :: s' => if is_blank c then skip_blanks s' else s | [] => [] end.
Fixpoint leading_number (n : Z) (s : bytes) : Z :=
  match s with c :: s => if is_decimal c then leading_number (n * 10 + (c - 48)) s else n | [] => n end.
Definition stoul (s : bytes) : option Z :=
  let s := skip_blanks s in
  let negative := match s with 45 :: _ => true | _ => false end in
  let s := match s with c :: s' => if (c =? 45) || (c =? 43) then s' else s | [] => s end in
  match s with
  | c :: _ =>
      if negb (is_decimal c) then None
      else let n := leading_number 0 s in
           if 2 ^ 64 <=? n then None else Some (if negative then u64 (- n) else n)
  | [] => None
  end.

(** A usage error, and an exception. *)
Inductive args_error := Usage | Uncaught.

(** [parse_args] on the arguments after the program's name. *)
Fixpoint parse_args (argv : list bytes) (args : CliArgs) : outcome args_error CliArgs :=
  match argv with
  | [] => Ok args
  | flag :: rest =>
      if bool_decide (flag = text "--help") || bool_decide (flag = text "-h") then Err Usage
      else if bool_decide (flag ∈ map text ["--chain"; "--bootnode-enr"; "--port"; "--timeout"; "--log-level"]%string) then
        match rest with
        | [] => Err Usage
        | val :: rest =>
            if bool_decide (flag = text "--chain") then
              match kChainNameMap !! val with
              | Some c => parse_args rest (mkCliArgs c (extra_enrs args) (arg_bind_port args) (timeout_sec args) (log_level args))
              | None => Err Usage
              end
            else if bool_decide (flag = text "--bootnode-enr") then
              parse_args rest (mkCliArgs (chain args) (extra_enrs args ++ [val]) (arg_bind_port args) (timeout_sec args) (log_level args))
            else if bool_decide (flag = text "--port") then
              match stoul val with
              | Some n => parse_args rest (mkCliArgs (chain args) (extra_enrs args) (u16 n) (timeout_sec args) (log_level args))
              | None => Err Uncaught
              end
            else if bool_decide (flag = text "--timeout") then
              match stoul val with
              | Some n => parse_args rest (mkCliArgs (chain args) (extra_enrs args) (arg_bind_port args) (u32 n) (log_level args))
              | None => Err Uncaught
              end
            else parse_args rest (mkCliArgs (chain args) (extra_enrs args) (arg_bind_port args) (timeout_sec args) val)
        end
      else Err Usage
  end.

(** ** Seeds *)

(** The configuration of the client: the default one with the port, an interval of 10 seconds, the fresh
    key pair and the seeds; [None] without a seed. *)
Definition crawl_config (args : CliArgs) (private_key public_key : bytes) (base : discv5Config) : option discv5Config :=
  let seeds := match for_chain (chain args) with Some chain_source => fetch chain_source | None => [] end in
  let bootstrap := bootstrap_enrs base ++ seeds ++ extra_enrs args in
  if empty bootstrap then None else
  Some {| bind_ip := bind_ip base; bind_port := arg_bind_port args; config_tcp_port := config_tcp_port base;
          private_key := private_key; public_key := public_key; bootstrap_enrs := bootstrap;
          max_concurrent_queries := max_concurrent_queries base; query_interval_sec := 10;
          required_fork_id := required_fork_id base |}.

(** ** What is said of a run *)

Inductive StopReason := kIoStopped | kTimeout | kSignal.
Inductive RunStatus :=
| kCallbackEmissionsSeen | kSendFailuresOnly | kPartialLiveTraffic | kMeasuredWithoutReceive | kErrorsOnly | kNoLiveResponse.

Definition stop_reason_to_string (reason : StopReason) : string :=
  match reason with kTimeout => "timeout" | kSignal => "signal" | kIoStopped => "io_stopped" end%string.

Definition run_status_to_string (status : RunStatus) : string :=
  match status with
  | kCallbackEmissionsSeen => "callback_emissions_seen"
  | kSendFailuresOnly => "send_failures_only"
  | kPartialLiveTraffic => "partial_live_traffic"
  | kMeasuredWithoutReceive => "measured_without_receive"
  | kErrorsOnly => "errors_only"
  | kNoLiveResponse => "no_live_response"
  end%string.

Definition classify_run (callback_discoveries callback_errors received_packets send_failures : Z) (stats : CrawlerStats)
    : RunStatus :=
  if (0 <? callback_discoveries) || (0 <? discovered stats) then kCallbackEmissionsSeen
  else if 0 <? send_failures then kSendFailuresOnly
  else if 0 <? received_packets then kPartialLiveTraffic
  else if 0 <? measured stats then kMeasuredWithoutReceive
  else if 0 <? callback_errors then kErrorsOnly
  else kNoLiveResponse.

Definition interpret_run (callback_discoveries callback_errors received_packets whoareyou_packets send_failures : Z)
    (stats : CrawlerStats) : string :=
  (if (0 <? callback_discoveries) || (0 <? discovered stats) then "peers were emitted by the crawler callback path"%string
   else if 0 <? send_failures then "outbound FINDNODE send failures occurred before any discovery callback fired"%string
   else if 0 <? whoareyou_packets then
     "remote WHOAREYOU challenges were parsed, but outbound handshake and NODES decode are not implemented yet"%string
   else if 0 <? received_packets then
     "live packets arrived, but receive-side WHOAREYOU/HANDSHAKE/NODES decode is still missing"%string
   else if 0 <? measured stats then
     "crawler marked peers as measured, but no inbound packets were classified or emitted"%string
   else if 0 <? callback_errors then "the run reported crawler errors and produced no discoveries"%string
   else "no observable discv5 traffic reached the current harness during the bounded run"%string).

Definition consistency_note (callback_discoveries received_packets send_failures : Z) (stats : CrawlerStats) : string :=
  (if negb (callback_discoveries =? discovered stats) then "callback discovery count differs from crawler discovered count"%string
   else if (0 <? measured stats) && (received_packets =? 0) then
     "measured peers were recorded without any receive-loop packet classification"%string
   else if (0 <? failed stats) && (send_failures =? 0) then
     "some peers failed without a local FINDNODE send-failure being recorded"%string
   else if (0 <? received_packets) && (discovered stats =? 0) then
     "packets were received, but no peers reached the discovered callback path"%string
   else "counters are internally consistent for the current partial discv5 harness"%string).

(** ** The fork hash file *)

(** The loop over the eight digits. *)
Fixpoint fork_hash_octets (n : nat) (hex : bytes) : option bytes :=
  match n, hex with
  | O, _ => Some []
  | S n, hi :: lo :: hex =>
      hi ← hex_nibble hi; lo ← hex_nibble lo; rest ← fork_hash_octets n hex;
      Some (u8 (Z.lor (Z.shiftl hi 4) lo) :: rest)
  | _, _ => None
  end.

(** [load_fork_hash]. A candidate, [chains.json] next to the binary and then in the working directory, is
    the string it has for the chain: [None] when it cannot be opened or parsed, is not an object, or has no
    such entry. *)
Fixpoint load_fork_hash (candidates : list (option bytes)) : option bytes :=
  match candidates with
  | [] => None
  | None :: candidates => load_fork_hash candidates
  | Some hex :: candidates =>
      if negb (len hex =? 8) then load_fork_hash candidates
      else match fork_hash_octets 4 hex with
           | Some hash => Some hash
           | None => load_fork_hash candidates
           end
  end.

(** ** Arguments *)

(** A number in decimal digits. *)
Lemma leading_number_digits s rest : Forall (fun c => is_decimal c = true) s ->
  (match rest with c :: _ => is_decimal c = false | [] => True end) -> forall n,
  leading_number n (s ++ rest) = fold_left (fun n c => n * 10 + (c - 48)) s n.
Proof.
  intros Hs Hr. induction Hs as [|c s Hc _ IH]; intros n; cbn [app leading_number fold_left].
  - destruct rest; cbn [leading_number]; [done | by rewrite Hr].
  - by rewrite Hc, IH.
Qed.

(** Digits are read as their number, when it fits in 64 bits, and what comes after them is not looked at. *)
Theorem stoul_digits s rest : s <> [] -> Forall (fun c => is_decimal c = true) s ->
  (match rest with c :: _ => is_decimal c = false | [] => True end) ->
  let n := fold_left (fun n c => n * 10 + (c - 48)) s 0 in
  stoul (s ++ rest) = if 2 ^ 64 <=? n then None else Some n.
Proof.
  intros Hne Hs Hr. cbn zeta. destruct s as [|c s]; [done |]. pose proof (Forall_inv Hs) as Hc.
  assert (is_blank c = false /\ c <> 45 /\ c <> 43) as (Hb & H45 & H43).
  { unfold is_decimal, is_blank in *. apply andb_true_iff in Hc as [H1 H2].
    split; [| lia]. apply orb_false_iff. split; [lia |]. apply andb_false_iff. lia. }
  unfold stoul. cbn [app skip_blanks]. rewrite Hb, (proj2 (Z.eqb_neq c 45)), (proj2 (Z.eqb_neq c 43)) by done. cbn [orb].
  rewrite Hc. cbn [negb]. change (c :: s ++ rest) with ((c :: s) ++ rest). rewrite leading_number_digits by done.
  destruct (2 ^ 64 <=? _); [done |]. f_equal. repeat (case_match; try done; try congruence).
Qed.

(** An option of the command line, as it is written, and what it sets. *)
Inductive crawl_option :=
| OfChain (name : bytes) (c : ChainId) | Extra (uri : bytes) | OnPort (value : bytes) (n : Z) | For (value : bytes) (n : Z)
| AtLevel (level : bytes).

Definition option_ok (o : crawl_option) : Prop :=
  match o with
  | OfChain name c => kChainNameMap !! name = Some c
  | OnPort value n | For value n => stoul value = Some n
  | Extra _ | AtLevel _ => True
  end.
Definition written (o : crawl_option) : list bytes :=
  match o with
  | OfChain name _ => [text "--chain"; name]
  | Extra uri => [text "--bootnode-enr"; uri]
  | OnPort value _ => [text "--port"; value]
  | For value _ => [text "--timeout"; value]
  | AtLevel level => [text "--log-level"; level]
  end.
Definition set_option (args : CliArgs) (o : crawl_option) : CliArgs :=
  match o with
  | OfChain _ c => mkCliArgs c (extra_enrs args) (arg_bind_port args) (timeout_sec args) (log_level args)
  | Extra uri => mkCliArgs (chain args) (extra_enrs args ++ [uri]) (arg_bind_port args) (timeout_sec args) (log_level args)
  | OnPort _ n => mkCliArgs (chain args) (extra_enrs args) (u16 n) (timeout_sec args) (log_level args)
  | For _ n => mkCliArgs (chain args) (extra_enrs args) (arg_bind_port args) (u32 n) (log_level args)
  | AtLevel level => mkCliArgs (chain args) (extra_enrs args) (arg_bind_port args) (timeout_sec args) level
  end.

(** The options are read in their order, each with its value: a later one wins, and the extra bootnodes add
    up. A port counts modulo 2^16 and a timeout modulo 2^32. *)
Theorem crawl_arguments_parsed opts : forall args, Forall option_ok opts ->
  parse_args (concat (map written opts)) args = Ok (fold_left set_option opts args).
Proof.
  induction opts as [|o opts IH]; intros args Ho; [done |]. apply Forall_cons_iff in Ho as [Ho Hos].
  destruct o; cbn [map concat written app parse_args]; rewrite ?bool_decide_false by done; cbn [orb]; cbv iota;
    (rewrite (bool_decide_true (_ ∈ _)) by (apply (bool_decide_unpack _); vm_compute; exact I));
    repeat (first [rewrite (bool_decide_true (_ = _)) by done | rewrite (bool_decide_false (_ = _)) by done]);
    cbn [option_ok] in Ho; rewrite ?Ho; cbn [fold_left set_option]; by rewrite IH.
Qed.

(** A port that does not fit is taken modulo 2^16, and minus one is the last. *)
Theorem port_argument_wraps :
  option_map arg_bind_port (match parse_args (map text ["--port"; "65616"]%string) default_args with Ok a => Some a | _ => None end)
    = Some 80
  /\ option_map arg_bind_port (match parse_args (map text ["--port"; "-1"]%string) default_args with Ok a => Some a | _ => None end)
    = Some 65535
  /\ parse_args (map text ["--port"; "abc"]%string) default_args = Err Uncaught.
Proof. vm_compute. by split_and!. Qed.

(** ** Seeds *)

(** The client starts from the built-in bootnodes of the chain, in order, and then the given ones. It does
    not start when there are none, which is the case for the chains of Base without extra ones. *)
Theorem crawl_seeds args priv pub base : bootstrap_enrs base = [] ->
  match crawl_config args priv pub base with
  | Some config => (exists s, for_chain (chain args) = Some s /\ bootstrap_enrs config = fetch s ++ extra_enrs args)
                   \/ (for_chain (chain args) = None /\ bootstrap_enrs config = extra_enrs args)
  | None => extra_enrs args = [] /\ (chain args = kBaseMainnet \/ chain args = kBaseSepolia \/ for_chain (chain args) = None)
  end.
Proof.
  intros Hb. unfold crawl_config. rewrite Hb. cbn [app].
  destruct (for_chain (chain args)) as [s|] eqn:Es; cbn zeta iota.
  - destruct (fetch s ++ extra_enrs args) as [|x l] eqn:E; cbn [empty].
    + apply app_eq_nil in E as [Ef ->]. split; [done |].
      destruct (chain args); cbn in Es; try (injection Es as <-; vm_compute in Ef; discriminate Ef); auto.
    + left. by exists s.
  - cbn [app]. destruct (extra_enrs args) as [|x l] eqn:E; cbn [empty]; [by auto |].
    by right.
Qed.

(** ** What is said of a run *)

(** The sentence that is printed is that of the status; packets that were received are of two kinds, with
    a challenge among them or without. A challenge is one of the packets that were received. *)
Theorem interpretation_of_status discoveries errors received whoareyou failures stats : whoareyou <= received ->
  let status := classify_run discoveries errors received failures stats in
  let sentence := interpret_run discoveries errors received whoareyou failures stats in
  (status = kPartialLiveTraffic -> sentence = if 0 <? whoareyou
     then "remote WHOAREYOU challenges were parsed, but outbound handshake and NODES decode are not implemented yet"%string
     else "live packets arrived, but receive-side WHOAREYOU/HANDSHAKE/NODES decode is still missing"%string)
  /\ (status <> kPartialLiveTraffic -> sentence = interpret_run discoveries errors received 0 failures stats)
  /\ (status = kNoLiveResponse <->
      discoveries <= 0 /\ discovered stats <= 0 /\ failures <= 0 /\ received <= 0 /\ measured stats <= 0 /\ errors <= 0).
Proof.
  intros Hw. cbn zeta. unfold classify_run, interpret_run.
  destruct (Z.ltb_spec 0 discoveries), (Z.ltb_spec 0 (discovered stats)), (Z.ltb_spec 0 failures), (Z.ltb_spec 0 received),
    (Z.ltb_spec 0 whoareyou), (Z.ltb_spec 0 (measured stats)), (Z.ltb_spec 0 errors); cbn [orb];
    try lia; (split; [done | split; [done | split; [done || (intros _; lia) | lia || done]]]).
Qed.

(** ** The fork hash file *)

(** A candidate that cannot be used: it has no string for the chain, one of another length, or other
    characters than digits. *)
Definition unusable (candidate : option bytes) : Prop :=
  match candidate with Some hex => len hex <> 8 \/ fork_hash_octets 4 hex = None | None => True end.

Lemma lower_digit n : 0 <= n < 16 -> lower (digit_char n) = digit_char n.
Proof. unfold lower, digit_char. intros Hn. destruct (Z.ltb_spec n 10), (Z.leb_spec 65 (48 + n)), (Z.leb_spec 65 (87 + n)),
  (Z.leb_spec (48 + n) 70), (Z.leb_spec (87 + n) 70); cbn [andb]; lia. Qed.

Lemma fork_hash_octets_hex h : forall n, length h = n -> bytes_ok h -> fork_hash_octets n (to_hex h) = Some h.
Proof.
  induction h as [|b h IH]; intros n Hn Hok; subst n; [done |]. apply bytes_ok_cons in Hok as [Hb Hok].
  assert (0 <= b / 16 < 16 /\ 0 <= b mod 16 < 16) as [H1 H2] by (unfold uint8 in Hb; split; Z.div_mod_to_equations; lia).
  destruct (octet_nibbles _ _ b Hb (lower_digit _ H1) (lower_digit _ H2)) as (Hhi & Hlo & Hv).
  change (to_hex (b :: h)) with (digit_char (b / 16) :: digit_char (b mod 16) :: to_hex h).
  cbn [length fork_hash_octets]. rewrite Hhi. cbn [mbind option_bind]. rewrite Hlo. cbn [mbind option_bind].
  rewrite (IH _ eq_refl Hok). cbn [mbind option_bind]. by rewrite Hv.
Qed.

(** The fork hash of a chain is the one of the first candidate that can be used, and there is none when no
    candidate can. *)
Theorem fork_hash_loaded pre h post : Forall unusable pre -> is_array 4 h ->
  load_fork_hash (pre ++ Some (to_hex h) :: post) = Some h /\ load_fork_hash pre = None.
Proof.
  intros Hp [Hl Hok]. induction Hp as [|x pre Hx Hp [IH1 IH2]]; cbn [app load_fork_hash].
  - split; [| done]. assert (len (to_hex h) = 8) as ->.
    { clear Hok. unfold to_hex, len. destruct h as [|? [|? [|? [|? [|]]]]]; done. }
    cbn [negb Z.eqb Pos.eqb]. by rewrite fork_hash_octets_hex.
  - destruct x as [hex|]; [| done]. cbn [unusable] in Hx. destruct (Z.eqb_spec (len hex) 8); cbn [negb]; [| done].
    destruct Hx as [Hx | Hx]; [done |]. by rewrite Hx.
Qed.
