(* ===== verification/Discv5Packet.v ===== *)
(** * Discv5Packet: packets, messages and keys of the discv5 client

    The functions of the unnamed namespace of [src/discv5/discv5_client.cpp]. Randomness is an
    argument, [None] where [RAND_bytes] fails. *)
From S2P Require Export Discv5Enr OpenSsl.
Open Scope Z_scope.

(** ** Data *)

Record PacketView := mkPacket {
  flag : Z;
  nonce : bytes;
  auth_size : Z;
  header_data : bytes;
  auth_data : bytes;
  msg_data : bytes
}.

Record HandshakeAuthView := mkHandshakeAuth {
  src_id : bytes;
  signature : bytes;
  pubkey : bytes;
  record : bytes
}.

(** ** Octets *)

(** [read_u16_be] and [read_u64_be] at an offset of [data]. *)
Definition read_u16_be (data : bytes) (off : Z) : Z :=
  u16 (Z.lor (Z.shiftl (byte_at data off) 8) (byte_at data (off + 1))).
Definition read_u64_be (data : bytes) : Z :=
  fold_left (fun value b => usize (Z.lor (Z.shiftl value 8) b)) (take 8 data) 0.
Definition append_u16_be (value : Z) : bytes := [u8 (Z.land (Z.shiftr value 8) 0xFF); u8 (Z.land value 0xFF)].
Definition append_u64_be (value : Z) : bytes :=
  map (fun shift => u8 (Z.land (Z.shiftr value shift) 0xFF)) [56; 48; 40; 32; 24; 16; 8; 0].

(** The two overloads of [endpoint_key]: both are the text of the address, a colon and the port. *)
Definition endpoint_key (ip : bytes) (port : Z) : bytes := ip ++ [58] ++ decimal 5 port.

Section packets.
Context `{AddressText} (keccak256 : bytes -> bytes) `{Secp256k1} `{OpenSsl}.

(** ** Keys and signatures *)

Definition derive_node_address (public_key : bytes) : bytes := keccak256 public_key.

Definition hkdf_expand_32 (salt ikm info : bytes) : Discv5Result bytes :=
  let prk := hmac_sha256 salt ikm in
  Ok (hmac_sha256 prk (info ++ [kHkdfFirstBlockCounter])).

(** The key of a node identifier. *)
Definition parse_node_id (id : bytes) : option Pubkey := ec_pubkey_parse (kUncompressedPubKeyPrefix :: id).

Definition compress_public_key (public_key : bytes) : Discv5Result bytes :=
  if negb context_create then Err (Error kContextCreationFailed)
  else match parse_node_id public_key with
  | None => Err (Error kEnrInvalidSecp256k1Key)
  | Some pk => Ok (ec_pubkey_serialize true pk)
  end.

(** The common end of the two shared secrets. *)
Definition shared_secret (pk : option Pubkey) (private_key : bytes) : Discv5Result bytes :=
  if negb context_create then Err (Error kContextCreationFailed)
  else match pk with
  | None => Err (Error kEnrInvalidSecp256k1Key)
  | Some pk =>
      match ec_pubkey_tweak_mul pk private_key with
      | None => Err (Error kContextCreationFailed)
      | Some s => Ok (ec_pubkey_serialize true s)
      end
  end.

Definition shared_secret_from_uncompressed_pubkey (remote_node_id private_key : bytes) : Discv5Result bytes :=
  shared_secret (parse_node_id remote_node_id) private_key.

Definition shared_secret_from_compressed_pubkey (remote_pubkey private_key : bytes) : Discv5Result bytes :=
  if negb (len remote_pubkey =? kCompressedKeyBytes) then Err (Error kEnrInvalidSecp256k1Key)
  else shared_secret (ec_pubkey_parse remote_pubkey) private_key.

(** The digest that proves an identity. *)
Definition id_digest (challenge_data eph_pubkey destination_node_addr : bytes) : bytes :=
  sha256 (text "discovery v5 identity proof" ++ challenge_data ++ eph_pubkey ++ destination_node_addr).

Definition make_id_signature (private_key challenge_data eph_pubkey destination_node_addr : bytes) : Discv5Result bytes :=
  if negb context_create then Err (Error kContextCreationFailed)
  else match ecdsa_sign_recoverable (id_digest challenge_data eph_pubkey destination_node_addr) private_key with
  | None => Err (Error kContextCreationFailed)
  | Some (compact, _) => Ok compact
  end.

Definition verify_id_signature (node_id signature challenge_data eph_pubkey destination_node_addr : bytes) : bool :=
  if negb (len signature =? kEnrSigBytes) then false
  else if negb context_create then false
  else match parse_node_id node_id, ecdsa_signature_parse_compact signature with
  | Some pk, Some sig => ecdsa_verify sig (id_digest challenge_data eph_pubkey destination_node_addr) pk
  | _, _ => false
  end.

Definition derive_session_keys (shared_secret challenge_data first_id second_id : bytes) : Discv5Result (bytes * bytes) :=
  obind (hkdf_expand_32 challenge_data shared_secret
           (text "discovery v5 key agreement" ++ first_id ++ second_id)) (fun okm =>
  Ok (take (Z.to_nat kAes128KeyBytes) okm,
      take (Z.to_nat kAes128KeyBytes) (drop (Z.to_nat kAes128KeyBytes) okm))).

(** ** Encryption *)

Definition apply_aes128_ctr (key iv data : bytes) : option bytes :=
  if negb evp_context then None else Some (aes128_ctr key iv 0 data).

Definition encrypt_gcm (key nonce plaintext auth_data : bytes) : Discv5Result bytes :=
  if negb evp_context then Err (Error kContextCreationFailed)
  else Ok (gcm_seal key nonce auth_data plaintext).

Definition decrypt_gcm (key nonce ciphertext auth_data : bytes) : Discv5Result bytes :=
  if len ciphertext <? kGcmTagBytes then Err (Error kNetworkReceiveFailed)
  else if negb evp_context then Err (Error kContextCreationFailed)
  else match gcm_open key nonce auth_data ciphertext with
  | None => Err (Error kNetworkReceiveFailed)
  | Some plaintext => Ok plaintext
  end.

(** ** Packets *)

(** The two [EVP_EncryptUpdate]s share a context. *)
Definition decode_packet (data destination_node_addr : bytes) : Discv5Result PacketView :=
  if len data <? kStaticPacketBytes then Err (Error kNetworkReceiveFailed) else
  let key := take (Z.to_nat kMaskingIvBytes) destination_node_addr in
  let iv := take (Z.to_nat kMaskingIvBytes) data in
  if negb evp_context then Err (Error kContextCreationFailed) else
  let static_header := aes128_ctr key iv 0 (substr data kMaskingIvBytes kStaticHeaderBytes) in
  if negb (bool_decide (take (Z.to_nat kProtocolIdBytes) static_header = kProtocolId))
  then Err (Error kNetworkReceiveFailed) else
  let version := read_u16_be static_header kProtocolIdBytes in
  if version <? kProtocolVersion then Err (Error kNetworkReceiveFailed) else
  let auth_size := read_u16_be static_header kStaticHeaderAuthSizeOffset in
  let auth_end := kStaticPacketBytes + auth_size in
  if len data <? auth_end then Err (Error kNetworkReceiveFailed) else
  let auth_data := aes128_ctr key iv (Z.to_nat kStaticHeaderBytes) (substr data kStaticPacketBytes auth_size) in
  Ok {| flag := byte_at static_header kStaticHeaderFlagOffset;
        nonce := substr static_header kStaticHeaderNonceOffset kGcmNonceBytes;
        auth_size := auth_size;
        header_data := iv ++ static_header ++ auth_data;
        auth_data := auth_data;
        msg_data := drop (Z.to_nat auth_end) data |}.

(** The packet before masking, which [unmasked_header_out] returns. *)
Definition unmasked_header (iv : bytes) (flag : Z) (nonce auth_data : bytes) : bytes :=
  iv ++ kProtocolId ++ append_u16_be kProtocolVersion ++ [flag] ++ nonce
  ++ append_u16_be (u16 (len auth_data)) ++ auth_data.

(** The packet, and the unmasked header. *)
Definition encode_packet (iv : option bytes) (flag : Z) (nonce auth_data msg_data destination_node_addr : bytes)
    : Discv5Result (bytes * bytes) :=
  match iv with
  | None => Err (Error kNetworkSendFailed)
  | Some iv =>
      let packet := unmasked_header iv flag nonce auth_data in
      let key := take (Z.to_nat kAes128KeyBytes) destination_node_addr in
      match apply_aes128_ctr key iv (drop (Z.to_nat kMaskingIvBytes) packet) with
      | None => Err (Error kNetworkSendFailed)
      | Some masked => Ok (take (Z.to_nat kMaskingIvBytes) packet ++ masked ++ msg_data, packet)
      end
  end.

Definition make_message_auth_data (local_node_addr : bytes) : bytes := local_node_addr.

(** ** The local record *)

(** The calls that add the sequence number, the keys and the values. *)
Definition put_local_fields (ip_bytes compressed : bytes) (tcp_port udp_port : Z) : EncM unit :=
  add_integral 8 kInitialEnrSeq ;;
  add_bytes kEnrKeyId ;; add_bytes kIdentitySchemeV4 ;;
  add_bytes kEnrKeyIp ;; add_bytes ip_bytes ;;
  add_bytes kEnrKeySecp256k1 ;; add_bytes compressed ;;
  add_bytes kEnrKeyTcp ;; add_integral 2 tcp_port ;;
  add_bytes kEnrKeyUdp ;; add_integral 2 udp_port.

(** An encoding whose failure is answered with [e]. *)
Definition encoded (m : EncM unit) (e : discv5Error) : Discv5Result bytes :=
  map_err (Error e) (run_encoder (m ;; MoveBytes)).

Definition make_local_enr_record (config : discv5Config) (udp_port : Z) : Discv5Result bytes :=
  obind (compress_public_key (public_key config)) (fun compressed =>
  match make_address (bind_ip config) with
  | None => Err (Error kEnrInvalidIp)
  | Some bind_addr =>
      let ip_bytes := match bind_addr with V4 octets => octets | V6 _ => repeat 0 (Z.to_nat kIPv4Bytes) end in
      let tcp_port := if negb (config_tcp_port config =? 0) then config_tcp_port config else udp_port in
      let fields := put_local_fields ip_bytes compressed tcp_port udp_port in
      obind (encoded (BeginList ;; fields ;; EndList) kEnrRlpDecodeFailed) (fun content_bytes =>
      if negb context_create then Err (Error kContextCreationFailed)
      else match ecdsa_sign_recoverable (keccak256 content_bytes) (private_key config) with
      | None => Err (Error kContextCreationFailed)
      | Some (compact_sig, _) =>
          encoded (BeginList ;; (add_bytes compact_sig ;; fields) ;; EndList) kEnrRlpDecodeFailed
      end)
  end).

(** ** Messages *)

Definition make_findnode_plaintext (req_id : bytes) : Discv5Result bytes :=
  obind (encoded (BeginList ;; (add_bytes req_id ;; (BeginList ;; add_integral 4 kFindNodeDistanceAll ;; EndList)) ;; EndList)
           kNetworkSendFailed) (fun bs => Ok (kMsgFindNode :: bs)).

Definition make_nodes_plaintext (req_id enr_record : bytes) : Discv5Result bytes :=
  obind (encoded (BeginList ;;
           (add_bytes req_id ;; add_integral 1 kNodesResponseCountSingle ;;
            (BeginList ;; AddRaw enr_record ;; EndList)) ;; EndList)
           kNetworkSendFailed) (fun bs => Ok (kMsgNodes :: bs)).

Definition parse_findnode_req_id (body : bytes) : Discv5Result bytes :=
  fst ((_ ← try ReadListHeaderBytes kNetworkReceiveFailed; try read_bytes kNetworkReceiveFailed) body).

(** The loop over the records. Every record that is not accepted is skipped. [Lost] ends it. *)
Fixpoint read_nodes (fuel : nat) (now nodes_len nodes_start_size : Z) : M bytes fault (list ValidatedPeer) := fun v =>
  match fuel with
  | O => (Diverged, v)
  | S fuel =>
      if empty v then (Ok [], v)
      else if nodes_len <=? nodes_start_size - len v then (Ok [], v)
      else match PeekHeader v with
      | (Ok header, _) =>
          let raw_record := substr v 0 (header_size_bytes header + payload_size_bytes header) in
          match SkipItem v with
          | (Ok _, v) =>
              match obind (obind (decode_rlp raw_record) (verified keccak256)) (to_validated_peer now) with
              | Ok p => (peers ← read_nodes fuel now nodes_len nodes_start_size; mret (p :: peers)) v
              | Err (Error _) => read_nodes fuel now nodes_len nodes_start_size v
              | Err Lost => (Err Lost, v)
              | Diverged => (Diverged, v)
              end
          | (Err _, v) => (Ok [], v)
          | (Diverged, v) => (Diverged, v)
          end
      | (Err _, v) => (Ok [], v)
      | (Diverged, v) => (Diverged, v)
      end
  end.

Definition parse_nodes_from_decoder (now : Z) : M bytes fault (bytes * list ValidatedPeer) :=
  _ ← try ReadListHeaderBytes kNetworkReceiveFailed;
  req_id ← try read_bytes kNetworkReceiveFailed;
  _ ← try (read_integral 1) kNetworkReceiveFailed;
  nodes_len ← try ReadListHeaderBytes kNetworkReceiveFailed;
  nodes_start ← get_state;
  peers ← read_nodes (S (length nodes_start)) now nodes_len (len nodes_start);
  mret (req_id, peers).

Definition parse_nodes_message (now : Z) (body : bytes) : Discv5Result (bytes * list ValidatedPeer) :=
  fst (parse_nodes_from_decoder now body).

Definition parse_handshake_auth (auth_data : bytes) : Discv5Result HandshakeAuthView :=
  if len auth_data <? kHandshakeAuthFixedBytes then Err (Error kNetworkReceiveFailed) else
  let sig_size := byte_at auth_data kHandshakeAuthSigSizeOffset in
  let pubkey_size := byte_at auth_data kHandshakeAuthPubkeySizeOffset in
  let key_offset := kHandshakeAuthFixedBytes in
  let pubkey_offset := key_offset + sig_size in
  let record_offset := pubkey_offset + pubkey_size in
  if len auth_data <? record_offset then Err (Error kNetworkReceiveFailed)
  else Ok {| src_id := take (Z.to_nat kKeccak256Bytes) auth_data;
             signature := substr auth_data key_offset sig_size;
             pubkey := substr auth_data pubkey_offset pubkey_size;
             record := drop (Z.to_nat record_offset) auth_data |}.
End packets.

(** ** What one side writes the other reads *)

Lemma read_u16_append hi rest n : 0 <= n < 2 ^ 16 ->
  read_u16_be (hi ++ append_u16_be n ++ rest) (len hi) = n.
Proof.
  intros Hn. unfold read_u16_be, append_u16_be, byte_at, len.
  rewrite Nat2Z.id, app_nth2, Nat.sub_diag by lia. replace (Z.to_nat (Z.of_nat (length hi) + 1)) with (S (length hi)) by lia.
  rewrite (app_nth2 hi) by lia. replace (S (length hi) - length hi)%nat with 1%nat by lia. cbn [app nth].
  assert (forall x, u8 (Z.land x 0xFF) = x mod 256) as Hu.
  { intros x. change 0xFF with (Z.ones 8). rewrite Z.land_ones by lia. unfold u8. apply Z.mod_mod. lia. }
  rewrite !Hu, Z.shiftr_div_pow2, Z.shiftl_mul_pow2 by lia. change (2 ^ 8) with 256.
  rewrite (lor_add _ _ 8) by first [lia | apply Z.mod_mul; lia | apply Z.mod_pos_bound; lia].
  unfold u16. change (2 ^ 16) with 65536 in *. Z.div_mod_to_equations. lia.
Qed.

Lemma append_u16_ok n : bytes_ok (append_u16_be n).
Proof. repeat constructor; unfold uint8, u8; apply Z.mod_pos_bound; lia. Qed.

Section laws.
Context `{AddressText} (keccak256 : bytes -> bytes).
Context `{CL : OpenSslLaws}.

(** The static header, and what is read back of it. *)
Lemma static_header_fields fl nc n : uint8 fl -> is_array 12 nc -> 0 <= n < 2 ^ 16 ->
  let static := kProtocolId ++ append_u16_be kProtocolVersion ++ [fl] ++ nc ++ append_u16_be (u16 n) in
  is_array 23 static /\ take (Z.to_nat kProtocolIdBytes) static = kProtocolId
  /\ read_u16_be static kProtocolIdBytes = kProtocolVersion /\ read_u16_be static kStaticHeaderAuthSizeOffset = n
  /\ substr static kStaticHeaderNonceOffset kGcmNonceBytes = nc /\ byte_at static kStaticHeaderFlagOffset = fl.
Proof.
  intros Hfl [Hnc Hnco] Hn static. split_and!; try done.
  - split; [unfold static; rewrite !length_app, Hnc; done |]. unfold static. rewrite !bytes_ok_app.
    split_and!; [octets | apply append_u16_ok | apply bytes_ok_cons; by split | done | apply append_u16_ok].
  - replace static with ((kProtocolId ++ append_u16_be kProtocolVersion ++ [fl] ++ nc) ++ append_u16_be (u16 n) ++ [])
      by (unfold static; by rewrite <- !app_assoc, app_nil_r).
    replace kStaticHeaderAuthSizeOffset with (len (kProtocolId ++ append_u16_be kProtocolVersion ++ [fl] ++ nc))
      by (rewrite !len_app; unfold len at 4; rewrite Hnc; done).
    rewrite read_u16_append; unfold u16; rewrite Z.mod_small; lia.
  - replace static with ((kProtocolId ++ append_u16_be kProtocolVersion ++ [fl]) ++ nc ++ append_u16_be (u16 n))
      by (unfold static; by rewrite <- !app_assoc).
    by apply substr_app; [| unfold len; rewrite Hnc].
Qed.

(** The masked header of a packet, before any message. *)
Lemma encoded_packet iv fl nc auth dest :
  is_array 16 iv -> uint8 fl -> is_array 12 nc -> bytes_ok auth -> len auth < 2 ^ 16 ->
  16 <= len dest -> evp_context = true ->
  exists front, len front = 39 + len auth /\ forall msg,
    encode_packet (Some iv) fl nc auth msg dest = Ok (front ++ msg, unmasked_header iv fl nc auth)
    /\ decode_packet (front ++ msg) dest
       = Ok {| flag := fl; nonce := nc; auth_size := len auth; header_data := unmasked_header iv fl nc auth;
               auth_data := auth; msg_data := msg |}.
Proof using CL.
  intros [Hiv Hivo] Hfl Hna Hao Hal Hd Hevp. pose proof (len_nonneg auth).
  destruct (static_header_fields fl nc (len auth) Hfl Hna ltac:(lia)) as ([Hsl Hso] & Hid & Hversion & Hsize & Hnonce & Hflag).
  set (static :=  kProtocolId ++ append_u16_be kProtocolVersion ++ [fl] ++ nc ++ append_u16_be (u16 (len auth))) in *.
  assert (unmasked_header iv fl nc auth = iv ++ static ++ auth) as Eh
    by (unfold unmasked_header, static; by rewrite <- !app_assoc).
  unfold encode_packet, apply_aes128_ctr. rewrite Hevp, Eh. cbn [negb].
  change (Z.to_nat kMaskingIvBytes) with 16%nat. rewrite take_app_length', drop_app_length' by done.
  set (key := take (Z.to_nat kAes128KeyBytes) dest).
  rewrite ctr_app, Hsl. cbn [Nat.add].
  set (c1 := aes128_ctr key iv 0 static). set (c2 := aes128_ctr key iv 23 auth).
  assert (length c1 = 23%nat) as Hc1 by (unfold c1; by rewrite ctr_length).
  assert (length c2 = length auth) as Hc2 by (unfold c2; by rewrite ctr_length).
  exists (iv ++ c1 ++ c2). split; [rewrite !len_app; unfold len; rewrite Hiv, Hc1, Hc2; lia |].
  intros msg. split; [by rewrite <- !app_assoc |]. rewrite <- !app_assoc.
  unfold decode_packet. pose proof (len_nonneg msg).
  assert (len (iv ++ c1 ++ c2 ++ msg) = 39 + len auth + len msg) as Hlen
    by (rewrite !len_app; unfold len; rewrite Hiv, Hc1, Hc2; lia).
  rewrite Hlen. assert ((39 + len auth + len msg <? kStaticPacketBytes) = false) as -> by (apply Z.ltb_ge; change kStaticPacketBytes with 39; lia).
  rewrite Hevp. cbn [negb]. change (Z.to_nat kMaskingIvBytes) with 16%nat. rewrite take_app_length' by done.
  change (take 16 dest) with key.
  rewrite (substr_app iv c1) by (unfold len; rewrite ?Hiv, ?Hc1; done).
  assert (aes128_ctr key iv 0 c1 = static) as -> by (unfold c1; by rewrite ctr_inverse).
  rewrite Hid, bool_decide_true, Hversion by done. cbn [negb Z.ltb].
  change (kProtocolVersion <? kProtocolVersion) with false. cbv iota.
  rewrite Hsize.
  assert ((39 + len auth + len msg <? kStaticPacketBytes + len auth) = false) as ->
    by (apply Z.ltb_ge; change kStaticPacketBytes with 39; lia).
  assert (substr (iv ++ c1 ++ c2 ++ msg) kStaticPacketBytes (len auth) = c2) as ->.
  { rewrite app_assoc. apply substr_app; [rewrite len_app; unfold len; rewrite Hiv, Hc1; done | unfold len; by rewrite Hc2]. }
  change (Z.to_nat kStaticHeaderBytes) with 23%nat.
  assert (aes128_ctr key iv 23 c2 = auth) as -> by (unfold c2; by rewrite ctr_inverse).
  assert (drop (Z.to_nat (kStaticPacketBytes + len auth)) (iv ++ c1 ++ c2 ++ msg) = msg) as ->.
  { rewrite !app_assoc. apply drop_app_length'. rewrite !length_app, Hiv, Hc1, Hc2. change kStaticPacketBytes with 39. unfold len. lia. }
  by rewrite Hnonce, Hflag.
Qed.

(** C29: packets survive the wire. What [encode_packet] builds for a destination, the destination
    decodes: the flag, the nonce, the auth data, the message octets, and the same unmasked
    header, which both sides authenticate. Only the length of the auth data is limited. *)
Theorem packet_roundtrip iv fl nc auth msg dest :
  is_array 16 iv -> uint8 fl -> is_array 12 nc -> bytes_ok auth -> len auth < 2 ^ 16 ->
  16 <= len dest -> evp_context = true ->
  exists pkt, encode_packet (Some iv) fl nc auth msg dest = Ok (pkt, unmasked_header iv fl nc auth)
  /\ decode_packet pkt dest
     = Ok {| flag := fl; nonce := nc; auth_size := len auth; header_data := unmasked_header iv fl nc auth;
             auth_data := auth; msg_data := msg |}.
Proof using CL.
  intros Hiv Hfl Hnc Ho Hl Hd He.
  destruct (encoded_packet iv fl nc auth dest Hiv Hfl Hnc Ho Hl Hd He) as (front & _ & H'). by exists (front ++ msg).
Qed.
End laws.

Section records.
Context `{AddressText} (keccak256 : bytes -> bytes).
Context `{SL : Secp256k1Laws}.

Lemma compress_key_id pk : context_create = true -> compress_public_key (key_id pk) = Ok (ec_pubkey_serialize true pk).
Proof using SL. intros Hc. unfold compress_public_key, parse_node_id.
  change kUncompressedPubKeyPrefix with 0x04. by rewrite Hc, (proj1 (parse_key_id pk)). Qed.

(** The keys and values of the local record. *)
Definition local_fields (ip_bytes compressed : bytes) (tcp_port udp_port : Z) : list (bytes * bytes) :=
  [(kEnrKeyId, kIdentitySchemeV4); (kEnrKeyIp, ip_bytes); (kEnrKeySecp256k1, compressed);
   (kEnrKeyTcp, digits tcp_port); (kEnrKeyUdp, digits udp_port)].

Lemma appends_local_fields ipb c tcp udp : fits 2 tcp -> fits 2 udp ->
  appends (put_local_fields ipb c tcp udp) (rlps (uint_item 1 :: field_items (local_fields ipb c tcp udp))).
Proof.
  intros Ht Hu. unfold put_local_fields, local_fields, field_items. cbn [map concat fst snd app].
  rewrite !rlps_cons. change (rlps []) with (@nil Z). rewrite app_nil_r.
  assert (fits 8 kInitialEnrSeq) by by split.
  repeat (apply appends_bind; [first [apply appends_add_bytes | apply appends_add_integral; eauto with appends] |]).
  apply appends_add_integral; eauto with appends.
Qed.

Section local.
Context (sig ipb c : bytes) (tcp udp : Z).
Context (Hsig : is_array 64 sig) (Hip : is_array 4 ipb) (Hc : is_array 33 c) (Ht : fits 2 tcp) (Hu : fits 2 udp).
Let kvs := local_fields ipb c tcp udp.

Lemma local_record_ok : record_ok sig 1 kvs.
Proof using Hsig Hip Hc.
  split; [done |]. split; [by split |]. destruct Hip, Hc. unfold kvs, local_fields.
  repeat (apply List.Forall_cons; [split; try octets; try done; apply digits_ok |]). constructor.
Qed.

Lemma local_plain : plain_keys kvs.
Proof. split; unfold kvs, local_fields; repeat (apply List.Forall_cons; [vm_compute; congruence |]); constructor. Qed.

Lemma local_record_len : len (rlp (content_item 1 (field_items kvs))) < 2 ^ 64
  /\ len (record_octets sig 1 kvs []) <= kEnrMaxBytes.
Proof using Hsig Hip Hc Ht Hu.
  destruct Hsig as [Hs _], Hip as [Hi _], Hc as [Hcl _].
  pose proof (digits_len 2 tcp ltac:(lia) Ht). pose proof (digits_len 2 udp ltac:(lia) Hu).
  assert (len (rlps (uint_item 1 :: field_items kvs)) <= 160) as Hb.
  { unfold kvs, local_fields, field_items. cbn [map concat fst snd app]. rewrite !rlps_cons, !len_app.
    change (len (rlps [])) with 0. change (len (rlp (uint_item 1))) with 1.
    change (len (rlp (Str kEnrKeyId))) with 3. change (len (rlp (Str kIdentitySchemeV4))) with 3.
    change (len (rlp (Str kEnrKeyIp))) with 3. change (len (rlp (Str kEnrKeySecp256k1))) with 10.
    change (len (rlp (Str kEnrKeyTcp))) with 4. change (len (rlp (Str kEnrKeyUdp))) with 4.
    assert (len ipb = 4) as E1 by (unfold len; lia). assert (len c = 33) as E2 by (unfold len; lia).
    pose proof (rlp_str_len ipb ltac:(lia)). pose proof (rlp_str_len c ltac:(lia)).
    pose proof (rlp_str_len (digits tcp) ltac:(lia)). pose proof (rlp_str_len (digits udp) ltac:(lia)). lia. }
  split.
  - pose proof (rlp_list_len (uint_item 1 :: field_items kvs) ltac:(lia)). unfold content_item. lia.
  - unfold record_octets. change (rlps (field_items [])) with (@nil Z). rewrite app_nil_r. unfold enr_item.
    assert (len (rlps (Str sig :: uint_item 1 :: field_items kvs)) <= 233) as Hb2.
    { rewrite rlps_cons, len_app. assert (len sig = 64) by (unfold len; lia). pose proof (rlp_str_len sig ltac:(lia)). lia. }
    pose proof (rlp_list_len (Str sig :: uint_item 1 :: field_items kvs) ltac:(lia)). unfold kEnrMaxBytes. lia.
Qed.
End local.
(** The address and the TCP port the local record advertises. *)
Definition local_ip (a : ip_address) : bytes := match a with V4 o => o | V6 _ => repeat 0 4 end.
Definition local_tcp (config : discv5Config) (udp : Z) : Z :=
  if negb (config_tcp_port config =? 0) then config_tcp_port config else udp.

(** A usable configuration: the identifier is that of the private key, which can sign, and the
    address to bind is one. *)
Record config_ok (config : discv5Config) (pk : Pubkey) (a : ip_address) : Prop := {
  cfg_key : ec_pubkey_create (private_key config) = Some pk;
  cfg_id : public_key config = key_id pk;
  cfg_sign h : is_Some (ecdsa_sign_recoverable h (private_key config));
  cfg_ip : make_address (bind_ip config) = Some a;
  cfg_octets : is_array 4 (local_ip a);
  cfg_tcp : 0 <= config_tcp_port config < 65536
}.

(** What the local record is: a record with the local fields and a signature that verifies. *)
Lemma make_local_enr_ok config pk a udp :
  context_create = true -> config_ok config pk a -> 0 < udp < 65536 ->
  let c := ec_pubkey_serialize true pk in
  let kvs := local_fields (local_ip a) c (local_tcp config udp) udp in
  exists sig sg, make_local_enr_record keccak256 config udp = Ok (record_octets sig 1 kvs [])
  /\ record_ok sig 1 kvs /\ len (record_octets sig 1 kvs []) <= kEnrMaxBytes
  /\ ecdsa_signature_parse_compact sig = Some sg
  /\ ecdsa_verify sg (keccak256 (rlp (content_item 1 (field_items kvs)))) pk = true.
Proof using SL.
  intros Hctx [Hk Hid Hsign Hip Hio Htcp] Hudp c kvs.
  assert (fits 2 (local_tcp config udp)) as Ht
    by (unfold local_tcp, fits; change (2 ^ (8 * 2)) with 65536; destruct (negb _); lia).
  assert (fits 2 udp) as Hu by (unfold fits; change (2 ^ (8 * 2)) with 65536; lia).
  assert (is_array 33 c) as Hc by (split; [apply (serialize_length true) | apply serialize_octets]).
  destruct (Hsign (keccak256 (rlp (content_item 1 (field_items kvs))))) as [[sig rid] Hs].
  destruct (sign_length _ _ _ _ Hs) as [Hsl Hso]. assert (is_array 64 sig) as Hsig by by split.
  destruct (sign_verify _ _ _ _ pk Hs Hk) as (sg & Hsg & Hv).
  destruct (local_record_len sig _ c _ _ Hsig Hio Hc Ht Hu) as [Hl1 Hl2]. fold kvs in Hl1, Hl2.
  exists sig, sg. split_and!; [| by apply local_record_ok | done ..].
  unfold make_local_enr_record. rewrite Hid, compress_key_id by done. cbn [obind]. fold c. rewrite Hip.
  change (match a with V4 octets => octets | V6 _ => repeat 0 (Z.to_nat kIPv4Bytes) end) with (local_ip a).
  fold (local_tcp config udp). unfold encoded.
  rewrite (run_encoder_moves _ (rlp (content_item 1 (field_items kvs))));
    [| by apply appends_list, appends_local_fields | done].
  cbn [map_err obind]. rewrite Hctx. cbn [negb]. rewrite Hs.
  unfold record_octets in Hl2 |- *. change (rlps (field_items [])) with (@nil Z) in *. rewrite app_nil_r in *.
  rewrite (run_encoder_moves _ (rlp (enr_item sig 1 (field_items kvs)))); [done | | unfold kEnrMaxBytes in Hl2; lia].
  apply (appends_list _ (rlps (Str sig :: uint_item 1 :: field_items kvs))). rewrite rlps_cons.
  apply appends_bind; [apply appends_add_bytes | by apply appends_local_fields].
Qed.

(** The fields of the local record, as the parser sets them. *)
Lemma local_record_fields raw sig its ipb c tcp udp :
  length ipb = 4%nat -> length c = 33%nat -> 0 < tcp < 65536 -> 0 < udp < 65536 ->
  let r := record_of raw sig 1 its (local_fields ipb c tcp udp) in
  r = with_udp udp (with_tcp tcp (with_pubkey c (with_ip (address_v4_to_string ipb)
        (with_identity_scheme kIdentitySchemeV4 (initial_record raw sig (rlp (content_item 1 its)) 1))))).
Proof.
  intros Hi Hc Ht Hu r. unfold r, record_of, local_fields, set_fields. cbn [fold_left fst snd].
  rewrite set_id, set_ip, set_secp256k1 by done.
  by rewrite (set_tcp _ tcp), (set_udp _ udp) by by apply decode_port_digits.
Qed.

(** The local record, as an item and as the parser reads it. *)
Lemma local_enr_ok config pk a udp :
  context_create = true -> config_ok config pk a -> 0 < udp < 65536 ->
  exists it r, make_local_enr_record keccak256 config udp = Ok (rlp it)
  /\ item_ok it /\ len (rlp it) <= kEnrMaxBytes
  /\ parse keccak256 (kEnrPrefix ++ base64url_encode (rlp it)) = Ok r
  /\ obind (decode_rlp (rlp it)) (verified keccak256) = Ok r
  /\ node_id r = public_key config /\ compressed_pubkey r = ec_pubkey_serialize true pk /\ enr_seq r = 1
  /\ ip r = address_v4_to_string (local_ip a) /\ tcp_port r = local_tcp config udp /\ udp_port r = udp
  /\ eth_fork_id r = None.
Proof using SL.
  intros Hctx Hcfg Hudp. destruct (make_local_enr_ok config pk a udp Hctx Hcfg Hudp) as (sig & sg & Hm & Hr & Hl & Hsg & Hv).
  set (c := ec_pubkey_serialize true pk) in *.
  set (kvs := local_fields (local_ip a) c (local_tcp config udp) udp) in *.
  set (raw := record_octets sig 1 kvs []) in *. set (r := record_of raw sig 1 (field_items kvs) kvs).
  destruct Hcfg as [_ Hid _ _ [Hil _] Htcp].
  assert (0 < local_tcp config udp < 65536) as Ht
    by (unfold local_tcp; destruct (Z.eqb_spec (config_tcp_port config) 0); cbn [negb]; lia).
  pose proof (local_record_fields raw sig (field_items kvs) _ c _ udp Hil (serialize_length true pk) Ht Hudp) as Er.
  cbn zeta in Er. fold kvs r in Er.
  assert (compressed_pubkey r = c) as Ec by by rewrite Er.
  assert (raw = rlp (enr_item sig 1 (field_items kvs))) as Eraw by apply app_nil_r.
  exists (enr_item sig 1 (field_items kvs)), (accepted pk r). rewrite <- Eraw. split; [done |]. split.
  { destruct Hr as ([_ Hso] & _ & Hko). apply item_ok_Lst.
    do 2 (apply List.Forall_cons; [auto with octets |]). by apply field_items_ok. }
  split; [done |]. pose proof (app_nil_r (base64url_encode raw)) as E1. rewrite <- E1. clear E1.
  assert (parse keccak256 (kEnrPrefix ++ base64url_encode raw ++ repeat 61 0) = Ok (accepted pk r)) as Hp.
  { pose proof (parse_record keccak256 sig 1 kvs [] 0 pk sg) as H'. cbn zeta in H'. rewrite !(app_nil_r kvs) in H'.
    fold raw r in H'. rewrite Hv in H'. apply H'; try done; [constructor | apply local_plain | | ]; rewrite Ec.
    - apply serialize_nonzero.
    - apply parse_serialize. }
  split; [exact Hp |]. split.
  { unfold parse, decode_uri in Hp. rewrite take_app_length', drop_app_length' in Hp by done.
    rewrite bool_decide_true in Hp by done. rewrite len_app in Hp.
    destruct (len kEnrPrefix + _ <? kEnrPrefixLen); [done |]. cbn [negb orb] in Hp.
    rewrite base64url_inverse in Hp; [| by apply record_octets_ok; [| constructor | unfold kEnrMaxBytes in Hl; fold raw; lia]].
    cbn [obind] in Hp. by destruct (kEnrMaxBytes <? len raw). }
  rewrite Er, Hid. done.
Qed.

(** the local record is a good one. What the client advertises about itself, any parser of this
    library accepts, from its text as from its octets; it carries the client's identifier, its ports and, for an
    IPv4 socket, the address it is bound to (for an IPv6 socket, the address 0.0.0.0). *)
Theorem local_enr_accepted config pk a udp :
  context_create = true -> config_ok config pk a -> 0 < udp < 65536 ->
  exists raw r, make_local_enr_record keccak256 config udp = Ok raw
  /\ parse keccak256 (kEnrPrefix ++ base64url_encode raw) = Ok r
  /\ obind (decode_rlp raw) (verified keccak256) = Ok r
  /\ node_id r = public_key config /\ compressed_pubkey r = ec_pubkey_serialize true pk /\ enr_seq r = 1
  /\ ip r = address_v4_to_string (local_ip a) /\ tcp_port r = local_tcp config udp /\ udp_port r = udp.
Proof using SL.
  intros Hctx Hcfg Hudp.
  destruct (local_enr_ok config pk a udp Hctx Hcfg Hudp) as (it & r & H1 & _ & _ & H2 & H3 & H4 & H5 & H6 & H7 & H8 & H9 & _).
  by exists (rlp it), r.
Qed.
End records.

(** ** Messages *)

Section messages.
Context `{AddressText} (keccak256 : bytes -> bytes) `{Secp256k1}.

(** What becomes of one record of a NODES message. *)
Definition node_of (now : Z) (raw : bytes) : Discv5Result ValidatedPeer :=
  obind (obind (decode_rlp raw) (verified keccak256)) (to_validated_peer now).

Definition node_peer (r : Discv5Result ValidatedPeer) : option ValidatedPeer :=
  match r with Ok p => Some p | _ => None end.

(** The answer to a record is a peer or an error. *)
Definition answers (r : Discv5Result ValidatedPeer) : Prop := r <> Diverged /\ r <> Err Lost.

Lemma read_nodes_items now nodes_len start its rest : forall fuel,
  bytes_ok (rlps its ++ rest) -> len (rlps its) < 2 ^ 64 ->
  nodes_len - (start - len (rlps its ++ rest)) = len (rlps its) ->
  Forall (fun it => answers (node_of now (rlp it))) its -> (length its < fuel)%nat ->
  read_nodes keccak256 fuel now nodes_len start (rlps its ++ rest)
  = (Ok (omap node_peer (map (fun it => node_of now (rlp it)) its)), rest).
Proof.
  induction its as [|it its IH]; intros fuel Hok Hl Hn Ha Hf; (destruct fuel as [|fuel]; [lia |]); cbn [read_nodes].
  - change (rlps []) with (@nil Z) in *. cbn [app] in *. rewrite len_nil in Hn.
    destruct (empty rest); [done |]. by rewrite (proj2 (Z.leb_le _ _)) by lia.
  - rewrite rlps_cons, <- app_assoc in *. pose proof (rlp_nonempty it) as Hne.
    apply Forall_cons_iff in Ha as [[Ha1 Ha2] Ha].
    pose proof (len_nonneg (rlps its)) as Hp. rewrite !len_app in Hl. rewrite !len_app in Hn.
    assert (empty (rlp it ++ rlps its ++ rest) = false) as He
      by (destruct (rlp it); [rewrite len_nil in Hne; lia | done]).
    rewrite He. clear He.
    rewrite (proj2 (Z.leb_gt _ _)) by (rewrite !len_app; lia).
    rewrite (PeekHeader_ok _ _ _ (decode_header_rlp it _ ltac:(lia))). header_simpl.
    replace (len (rlp it) - len (item_payload it) + len (item_payload it)) with (len (rlp it)) by lia.
    unfold substr. change (Z.to_nat 0) with 0%nat. rewrite drop_0, take_len_app.
    rewrite (reads_SkipItem it) by (done || lia). fold (node_of now (rlp it)).
    assert (bytes_ok (rlps its ++ rest)) as Hok' by (by apply bytes_ok_app in Hok as [_ ?]).
    assert (nodes_len - (start - len (rlps its ++ rest)) = len (rlps its)) as Hn'
      by (rewrite len_app; lia).
    specialize (IH fuel Hok' ltac:(lia) Hn' Ha ltac:(cbn in Hf; lia)). cbn [map omap list_omap].
    change (obind _ _) with (node_of now (rlp it)).
    destruct (node_of now (rlp it)) as [p|[e|]|]; [| exact IH | done | done].
    cbn [node_peer]. by erewrite bind_ok by exact IH.
Qed.

Lemma length_items its : Z.of_nat (length its) <= len (rlps its).
Proof.
  induction its as [|it its IH]; [done |]. rewrite rlps_cons, len_app. pose proof (rlp_nonempty it). cbn [length]. lia.
Qed.

(** A FINDNODE, made and read. *)
Lemma findnode_ok req : bytes_ok req -> len req < 2 ^ 32 ->
  exists body, make_findnode_plaintext req = Ok (kMsgFindNode :: body) /\ bytes_ok body /\ parse_findnode_req_id body = Ok req.
Proof.
  intros Hreq Hl. pose proof (len_nonneg req). pose proof (rlp_str_len req ltac:(lia)) as Hls.
  set (its := [Str req; Lst [uint_item 256]]).
  assert (len (rlps its) < 2 ^ 40) as Hb
    by (unfold its; rewrite rlps_two, len_app; change (len (rlp (Lst [uint_item 256]))) with 4; lia).
  pose proof (rlp_list_len its ltac:(lia)) as Hb2.
  assert (bytes_ok (rlp (Lst its))) as Hok by (apply rlp_ok; [unfold its; auto with octets | lia]).
  exists (rlp (Lst its)). split_and!; [| done |].
  - unfold make_findnode_plaintext, encoded. rewrite (run_encoder_moves _ (rlp (Lst its))); [done | | lia].
    apply appends_begin_end. unfold its. rewrite rlps_two. apply appends_bind; [apply appends_add_bytes |].
    apply appends_begin_end. rewrite <- rlps_one. apply appends_add_integral; [eauto with appends | by split].
  - unfold parse_findnode_req_id, try, with_error. unfold_m. change (rlp (Lst its)) with (rlp_list (rlps its)) in *.
    rewrite <- (app_nil_r (rlp_list _)) in Hok |- *. rewrite ReadListHeaderBytes_list by lia. cbn [map_err].
    unfold rlp_list in Hok. rewrite app_nil_r in *. apply bytes_ok_app in Hok as [_ Hok].
    unfold its in *. rewrite rlps_two in *. by rewrite (reads_read_bytes req) by (done || lia).
Qed.

(** The octets of a NODES message. *)
Lemma nodes_item_ok req count its : bytes_ok req -> Forall item_ok its -> len req + len (rlps its) < 2 ^ 32 -> fits 1 count ->
  bytes_ok (rlp (Lst [Str req; uint_item count; Lst its])) /\ len (rlp (Lst [Str req; uint_item count; Lst its])) < 2 ^ 40
  /\ len (rlp (uint_item count)) <= 33 /\ len (rlp (Lst its)) <= 9 + len (rlps its).
Proof.
  intros Hreq Hits Hl Hc. pose proof (len_nonneg req). pose proof (len_nonneg (rlps its)).
  pose proof (rlp_str_len req ltac:(lia)). pose proof (rlp_list_len its ltac:(lia)).
  pose proof (rlp_uint_len count (int_width_fits 1 count width1 Hc)).
  assert (len (rlps [Str req; uint_item count; Lst its]) < 2 ^ 36) as Hb
    by (rewrite !rlps_cons, !len_app; change (len (rlps [])) with 0; lia).
  pose proof (rlp_list_len [Str req; uint_item count; Lst its] ltac:(lia)). split_and!; try lia.
  apply rlp_ok; [| lia]. apply item_ok_Lst. repeat (apply List.Forall_cons; [auto with octets; by apply item_ok_Lst |]). constructor.
Qed.

Lemma nodes_parsed now req its count :
  bytes_ok req -> Forall item_ok its -> len req + len (rlps its) < 2 ^ 32 -> fits 1 count ->
  Forall (fun it => answers (node_of now (rlp it))) its ->
  parse_nodes_message keccak256 now (rlp (Lst [Str req; uint_item count; Lst its]))
  = Ok (req, omap node_peer (map (fun it => node_of now (rlp it)) its)).
Proof.
  intros Hreq Hits Hl Hc Ha. pose proof (len_nonneg req). pose proof (len_nonneg (rlps its)).
  destruct (nodes_item_ok req count its Hreq Hits Hl Hc) as (Hok & Hb & Hlu & Hll).
  pose proof (rlp_str_len req ltac:(lia)) as Hls. set (body := [Str req; uint_item count; Lst its]) in *.
  assert (rlps body = rlp (Str req) ++ rlp (uint_item count) ++ rlp (Lst its) ++ []) as Eb by done.
  unfold parse_nodes_message, parse_nodes_from_decoder, try, with_error. unfold_m.
  change (rlp (Lst body)) with (rlp_list (rlps body)) in *. rewrite <- (app_nil_r (rlp_list (rlps body))) in Hok |- *.
  rewrite ReadListHeaderBytes_list by lia. cbn [map_err]. unfold rlp_list in Hok. rewrite app_nil_r in *.
  apply bytes_ok_app in Hok as [_ Hok]. rewrite Eb in Hok |- *.
  rewrite (reads_read_bytes req) by (done || lia). cbn [map_err]. apply bytes_ok_app in Hok as [_ Hok].
  rewrite (reads_read_integral 1) by (done || lia). cbn [map_err]. apply bytes_ok_app in Hok as [_ Hok].
  change (rlp (Lst its)) with (rlp_list (rlps its)) in *. rewrite <- (app_nil_r (rlp_list (rlps its))) in Hok |- *.
  rewrite ReadListHeaderBytes_list by lia. cbn [map_err].
  unfold rlp_list in Hok. rewrite <- app_assoc in Hok. apply bytes_ok_app in Hok as [_ Hok].
  rewrite read_nodes_items; [done | done | lia | lia | done |].
  pose proof (length_items its) as Hi. rewrite app_nil_r. unfold len in Hi. lia.
Qed.

Lemma nodes_made req it : len req < 2 ^ 32 -> len (rlp it) < 2 ^ 32 ->
  make_nodes_plaintext req (rlp it) = Ok (kMsgNodes :: rlp (Lst [Str req; uint_item 1; Lst [it]])).
Proof.
  intros Hl Hit. pose proof (len_nonneg req). pose proof (rlp_str_len req ltac:(lia)) as Hls.
  assert (len (rlps [Str req; uint_item 1; Lst [it]]) < 2 ^ 40) as Hb.
  { rewrite !rlps_cons, !len_app. change (len (rlps [])) with 0. change (len (rlp (uint_item 1))) with 1.
    pose proof (rlp_list_len [it]) as Hx. rewrite <- rlps_one in Hx. lia. }
  pose proof (rlp_list_len [Str req; uint_item 1; Lst [it]] ltac:(lia)).
  unfold make_nodes_plaintext, encoded. rewrite (run_encoder_moves _ (rlp (Lst [Str req; uint_item 1; Lst [it]]))); [done | | lia].
  apply appends_begin_end. rewrite rlps_cons. apply appends_bind; [apply appends_add_bytes |].
  rewrite rlps_two. apply appends_bind; [apply appends_add_integral; [eauto with appends | by split] |].
  apply appends_begin_end. rewrite <- rlps_one. apply appends_AddRaw. pose proof (rlp_nonempty it). intros E.
  rewrite E, len_nil in *. lia.
Qed.

(** the messages of discv5. A FINDNODE carries its request id. A NODES message with any records
    gives its request id and, in order, exactly the peers of those records that decode, verify
    and have an address; the others are skipped. *)
Theorem messages_parsed now req its :
  bytes_ok req -> Forall item_ok its -> len req + len (rlps its) < 2 ^ 32 ->
  Forall (fun it => answers (node_of now (rlp it))) its ->
  (exists body, make_findnode_plaintext req = Ok (kMsgFindNode :: body) /\ parse_findnode_req_id body = Ok req)
  /\ (forall count, fits 1 count ->
       parse_nodes_message keccak256 now (rlp (Lst [Str req; uint_item count; Lst its]))
       = Ok (req, omap node_peer (map (fun it => node_of now (rlp it)) its)))
  /\ (forall it, len (rlp it) < 2 ^ 32 ->
       make_nodes_plaintext req (rlp it) = Ok (kMsgNodes :: rlp (Lst [Str req; uint_item 1; Lst [it]]))).
Proof.
  intros Hreq Hits Hl Ha. pose proof (len_nonneg (rlps its)). split_and!.
  - destruct (findnode_ok req Hreq ltac:(lia)) as (body & ? & _ & ?). by exists body.
  - intros count Hc. by apply nodes_parsed.
  - intros it Hit. apply nodes_made; lia.
Qed.
End messages.

(** ** Witnesses *)

#[local] Existing Instance ToySecp.toy.
#[local] Existing Instance EnrSample.address_text.
#[local] Existing Instances ToySecp.toy_laws ToySsl.toy ToySsl.toy_laws.

Lemma packet_roundtrip_witness :
  exists pkt, encode_packet (Some (repeat 9 16)) kFlagMessage (repeat 5 12) (repeat 3 32) [1; 2; 3] (repeat 7 32)
              = Ok (pkt, unmasked_header (repeat 9 16) kFlagMessage (repeat 5 12) (repeat 3 32))
  /\ decode_packet pkt (repeat 7 32)
     = Ok {| flag := kFlagMessage; nonce := repeat 5 12; auth_size := 32;
             header_data := unmasked_header (repeat 9 16) kFlagMessage (repeat 5 12) (repeat 3 32);
             auth_data := repeat 3 32; msg_data := [1; 2; 3] |}.
Proof. apply (packet_roundtrip (repeat 9 16) kFlagMessage (repeat 5 12) (repeat 3 32) [1; 2; 3] (repeat 7 32)); octets || reflexivity. Defined.

Module ConfigSample.
Definition config : discv5Config :=
  mkConfig [127; 0; 0; 1] 9000 30303 (repeat 1 32) (key_id EnrSample.node) [] 8 30 None.
End ConfigSample.

Lemma local_enr_accepted_witness :
  exists raw r, make_local_enr_record EnrSample.keccak256 ConfigSample.config 9000 = Ok raw
  /\ parse EnrSample.keccak256 (kEnrPrefix ++ base64url_encode raw) = Ok r
  /\ obind (decode_rlp raw) (verified EnrSample.keccak256) = Ok r
  /\ node_id r = public_key ConfigSample.config /\ compressed_pubkey r = ec_pubkey_serialize true EnrSample.node /\ enr_seq r = 1
  /\ ip r = address_v4_to_string [127; 0; 0; 1] /\ tcp_port r = local_tcp ConfigSample.config 9000 /\ udp_port r = 9000.
Proof.
  apply (local_enr_accepted EnrSample.keccak256 ConfigSample.config EnrSample.node (V4 [127; 0; 0; 1]) 9000).
  - reflexivity.
  - split; [reflexivity.. | intros; by eexists | reflexivity | octets | by split].
  - by split.
Defined.

(** A request with a NODES answer of two records: the sample and one that is not a record. *)
Lemma messages_parsed_witness :
  let its := [enr_item EnrSample.sig 1 (field_items EnrSample.kvs); Str [1; 2; 3]] in
  (exists body, make_findnode_plaintext [1; 2] = Ok (kMsgFindNode :: body) /\ parse_findnode_req_id body = Ok [1; 2])
  /\ parse_nodes_message EnrSample.keccak256 7 (rlp (Lst [Str [1; 2]; uint_item 1; Lst its]))
     = Ok ([1; 2], [mkPeer (key_id EnrSample.node) [127; 0; 0; 1] 0x765f 0x765f 7 None]).
Proof.
  cbv zeta.
  destruct (messages_parsed EnrSample.keccak256 7 [1; 2]
    [enr_item EnrSample.sig 1 (field_items EnrSample.kvs); Str [1; 2; 3]]) as (H1 & H2 & _).
  - octets.
  - repeat constructor; octets.
  - reflexivity.
  - repeat constructor; vm_compute; congruence.
  - split; [exact H1 |]. rewrite (H2 1) by by split. vm_compute. reflexivity.
Defined.
