(* ===== verification/Discv5Client.v ===== *)
(** * Discv5Client: the discv5 client

    [include/discv5/discv5_client.hpp], and class [discv5_client] of
    [src/discv5/discv5_client.cpp]. One thread runs the client: a handler runs up to its next
    wait, and the only waits are sends, receives and the timer of the crawler loop. So a coroutine
    that [asio::spawn] makes is a task: it runs in one step up to its datagram, then waits until the
    send is done ([Waiting]), and a last step finishes it. [client_step] is what can happen next;
    any ready task can run and any send can end. A number identifies a call of a callback's log.
    The address of a sender is its text and its octets ([Endpoint]); [fuel] bounds the draws of a
    secret key. A ready coroutine is a [Task]; [handle_packet] ends in [Lost] where the process
    ends.

    Theorems: a handshake of two clients ends with the same keys on both sides, swapped, and the
    answer of the one is read by the other ([handshake_completes]); every event of a client changes
    sessions in four ways only: a verified record and a signature over a challenge that is used up,
    the same with a message that cannot be read, which leaves no session, the answer to the challenge
    of an own request, and the next request of a session ([sessions_authenticated]);
    two datagrams end the process ([unauthenticated_crash]); a lost session is not recovered
    ([lost_session_ignored]); a bootnode added to the client is never used
    ([added_bootnode_unused]). *)
From S2P Require Import RlpxCrypto.
From S2P Require Export Discv5Crawler Discv5Packet.
Open Scope Z_scope.

(** ** Data *)

Definition kMessageAuthDataBytes : Z := kKeccak256Bytes.

Record SessionState := mkSession {
  write_key : bytes;
  read_key : bytes;
  remote_node_addr : bytes;
  remote_node_id : bytes;
  last_req_id : bytes
}.

Record PendingRequest := mkPending {
  pending_peer : ValidatedPeer;
  req_id : bytes;
  request_nonce : bytes;
  challenge_data : bytes;
  id_nonce : bytes;
  record_seq : Z;
  have_challenge : bool
}.

Record ChallengeState := mkChallenge {
  challenge_node_addr : bytes;
  sent_challenge_data : bytes;
  challenge_nonce : bytes;
  challenge_id_nonce : bytes;
  challenge_record_seq : Z
}.

(** [udp::endpoint]: the address, its text, the port. *)
Record Endpoint := mkEndpoint { address : ip_address; address_text : bytes; port : Z }.

(** A coroutine before its first wait: the lambdas of [crawler_loop] and [handle_packet]. *)
Inductive Task :=
| QueryPeer (peer : ValidatedPeer)
| AnswerChallenge (peer : ValidatedPeer)
| SendWhoareyou (sender : Endpoint) (remote_node_addr nonce : bytes)
| AnswerFindNode (req_id : bytes) (sender : Endpoint).

(** A datagram to an address and a port; [handshake] marks the one whose failure counts as a failed
    handshake. *)
Record Datagram := mkDatagram { packet : bytes; destination : ip_address * Z; handshake : bool }.

(** A coroutine that waits for its send. *)
Record Waiting := mkWaiting { waiting_task : Task; sent : Datagram }.

(** The atomic counters. *)
Inductive Counter :=
| received_packets_ | dropped_undersized_packets_ | send_findnode_failures_ | whoareyou_packets_
| handshake_packets_ | outbound_handshake_attempts_ | outbound_handshake_failures_
| inbound_handshake_reject_auth_ | inbound_handshake_reject_challenge_
| inbound_handshake_reject_record_ | inbound_handshake_reject_crypto_
| inbound_handshake_reject_decrypt_ | inbound_handshake_seen_ | inbound_message_seen_
| inbound_message_decrypt_fail_ | nodes_packets_.

#[export] Instance Counter_eq_dec : EqDecision Counter.
Proof. solve_decision. Defined.

(** [class discv5_client], with the coroutines of its [io_context], the calls its crawler has made
    and the random draws. The socket is bound when the client is built. *)
Record discv5_client := mkClient {
  client_config : discv5Config;
  crawler_ : discv5_crawler;
  sessions_ : gmap bytes SessionState;
  pending_requests_ : gmap bytes PendingRequest;
  sent_challenges_ : gmap bytes ChallengeState;
  client_running : bool;
  socket_open : bool;
  client_counters : Counter -> Z;
  receive_loops : nat;
  crawler_loops : nat;
  ready : list Task;
  waiting : list Waiting;
  calls : list crawler_call;
  draws : nat
}.

Definition new_client (config : discv5Config) : discv5_client :=
  {| client_config := config; crawler_ := new_crawler config; sessions_ := ∅; pending_requests_ := ∅;
     sent_challenges_ := ∅; client_running := false; socket_open := true; client_counters := fun _ => 0;
     receive_loops := 0; crawler_loops := 0; ready := []; waiting := []; calls := []; draws := 0 |}.

(** Assignments to one part of the client. *)
Definition with_sessions (m : gmap bytes SessionState) (c : discv5_client) : discv5_client :=
  mkClient (client_config c) (crawler_ c) m (pending_requests_ c) (sent_challenges_ c) (client_running c)
    (socket_open c) (client_counters c) (receive_loops c) (crawler_loops c) (ready c) (waiting c) (calls c) (draws c).
Definition with_pending (m : gmap bytes PendingRequest) (c : discv5_client) : discv5_client :=
  mkClient (client_config c) (crawler_ c) (sessions_ c) m (sent_challenges_ c) (client_running c)
    (socket_open c) (client_counters c) (receive_loops c) (crawler_loops c) (ready c) (waiting c) (calls c) (draws c).
Definition with_challenges (m : gmap bytes ChallengeState) (c : discv5_client) : discv5_client :=
  mkClient (client_config c) (crawler_ c) (sessions_ c) (pending_requests_ c) m (client_running c)
    (socket_open c) (client_counters c) (receive_loops c) (crawler_loops c) (ready c) (waiting c) (calls c) (draws c).
Definition with_crawler (r : discv5_crawler) (es : list crawler_call) (c : discv5_client) : discv5_client :=
  mkClient (client_config c) r (sessions_ c) (pending_requests_ c) (sent_challenges_ c) (client_running c)
    (socket_open c) (client_counters c) (receive_loops c) (crawler_loops c) (ready c) (waiting c) (calls c ++ es) (draws c).
Definition with_ready (ts : list Task) (c : discv5_client) : discv5_client :=
  mkClient (client_config c) (crawler_ c) (sessions_ c) (pending_requests_ c) (sent_challenges_ c) (client_running c)
    (socket_open c) (client_counters c) (receive_loops c) (crawler_loops c) ts (waiting c) (calls c) (draws c).
Definition with_waiting (ws : list Waiting) (c : discv5_client) : discv5_client :=
  mkClient (client_config c) (crawler_ c) (sessions_ c) (pending_requests_ c) (sent_challenges_ c) (client_running c)
    (socket_open c) (client_counters c) (receive_loops c) (crawler_loops c) (ready c) ws (calls c) (draws c).
Definition with_loops (r : nat) (k : nat) (c : discv5_client) : discv5_client :=
  mkClient (client_config c) (crawler_ c) (sessions_ c) (pending_requests_ c) (sent_challenges_ c) (client_running c)
    (socket_open c) (client_counters c) r k (ready c) (waiting c) (calls c) (draws c).
Definition with_life (run open : bool) (c : discv5_client) : discv5_client :=
  mkClient (client_config c) (crawler_ c) (sessions_ c) (pending_requests_ c) (sent_challenges_ c) run
    open (client_counters c) (receive_loops c) (crawler_loops c) (ready c) (waiting c) (calls c) (draws c).
Definition with_config (f : discv5Config) (c : discv5_client) : discv5_client :=
  mkClient f (crawler_ c) (sessions_ c) (pending_requests_ c) (sent_challenges_ c) (client_running c)
    (socket_open c) (client_counters c) (receive_loops c) (crawler_loops c) (ready c) (waiting c) (calls c) (draws c).
Definition with_draws (n : nat) (c : discv5_client) : discv5_client :=
  mkClient (client_config c) (crawler_ c) (sessions_ c) (pending_requests_ c) (sent_challenges_ c) (client_running c)
    (socket_open c) (client_counters c) (receive_loops c) (crawler_loops c) (ready c) (waiting c) (calls c) n.

(** [++counter] on a [size_t], and [asio::spawn]. *)
Definition bump (k : Counter) (c : discv5_client) : discv5_client :=
  mkClient (client_config c) (crawler_ c) (sessions_ c) (pending_requests_ c) (sent_challenges_ c) (client_running c)
    (socket_open c)
    (fun k' => if decide (k' = k) then usize (client_counters c k + 1) else client_counters c k')
    (receive_loops c) (crawler_loops c) (ready c) (waiting c) (calls c) (draws c).
Definition spawn (t : Task) (c : discv5_client) : discv5_client := with_ready (ready c ++ [t]) c.

Abbreviation ClientM A := (M discv5_client fault A).

Definition modify (f : discv5_client -> discv5_client) : ClientM unit := fun c => (Ok tt, f c).
Definition asks {A} (f : discv5_client -> A) : ClientM A := fun c => (Ok (f c), c).

(** [if (!result) { on_error; return; }] *)
Definition or_return {A} (r : Discv5Result A) (on_error : ClientM unit) (k : A -> ClientM unit) : ClientM unit :=
  match r with
  | Ok a => k a
  | Err (Error _) => on_error
  | Err Lost => throw Lost
  | Diverged => lift Diverged
  end.

Section client.
Context `{AddressText} (keccak256 : bytes -> bytes) `{Secp256k1} `{OpenSsl} (fuel : nat) (local_port : Z).

Definition node_address (id : bytes) : bytes := derive_node_address keccak256 id.
Definition local_node_addr (c : discv5_client) : bytes := node_address (public_key (client_config c)).
Definition sender_key (sender : Endpoint) : bytes := endpoint_key (address_text sender) (port sender).
Definition peer_key (p : ValidatedPeer) : bytes := endpoint_key (peer_ip p) (peer_udp_port p).

(** ** Draws *)

Definition random_bytes (n : Z) : ClientM (option bytes) := fun c =>
  (Ok (rand_bytes (draws c) n), with_draws (S (draws c)) c).

Definition random_or_fail (n : Z) : ClientM bytes :=
  r ← random_bytes n; match r with Some b => mret b | None => throw (Error kNetworkSendFailed) end.

Definition ephemeral_keypair : ClientM Ecdh.KeyPair := fun c =>
  let '(r, i) := Ecdh.generate_ephemeral_keypair fuel (draws c) in
  (map_err (Error kContextCreationFailed) r, with_draws i c).

(** [encode_packet], which draws the masking IV. *)
Definition encode (flag : Z) (nonce auth_data msg_data destination_node_addr : bytes) : ClientM (bytes * bytes) :=
  iv ← random_bytes kMaskingIvBytes;
  lift (encode_packet iv flag nonce auth_data msg_data destination_node_addr).

(** ** Sending *)

Definition send_packet (packet : bytes) (peer : ValidatedPeer) (handshake : bool) : ClientM Datagram :=
  match make_address (peer_ip peer) with
  | None => throw (Error kNetworkSendFailed)
  | Some a => mret {| packet := packet; destination := (a, peer_udp_port peer); handshake := handshake |}
  end.

Definition build_local_enr : ClientM bytes := fun c =>
  (if negb (socket_open c) then Err (Error kNetworkSendFailed)
   else make_local_enr_record keccak256 (client_config c) local_port, c).

(** The request id [send_findnode] makes of the ports. *)
Definition request_id (peer : ValidatedPeer) : bytes :=
  [u8 (Z.land (Z.shiftr (peer_udp_port peer) 8) 0xFF); u8 (Z.land (peer_udp_port peer) 0xFF);
   u8 (Z.land (Z.shiftr (peer_tcp_port peer) 8) 0xFF); u8 (Z.land (peer_tcp_port peer) 0xFF)].

Definition with_last_req_id (r : bytes) (s : SessionState) : SessionState :=
  mkSession (write_key s) (read_key s) (remote_node_addr s) (remote_node_id s) r.

(** A header without message, then the message sealed under it. *)
Definition seal_message (flag : Z) (key nonce auth_data plaintext destination_node_addr : bytes) : ClientM bytes :=
  packet ← encode flag nonce auth_data [] destination_node_addr;
  encrypted ← lift (encrypt_gcm key nonce plaintext (snd packet));
  mret (fst packet ++ encrypted).

(** [if (!result) { f; return result.error(); }] *)
Definition on_error {A} (f : discv5_client -> discv5_client) (m : ClientM A) : ClientM A := fun c =>
  match m c with
  | (Err (Error e), c') => (Err (Error e), f c')
  | r => r
  end.

(** [send_findnode] with a session. *)
Definition send_in_session (key : bytes) (session : SessionState) (peer : ValidatedPeer) : ClientM Datagram :=
  c ← get_state;
  plaintext ← lift (make_findnode_plaintext (request_id peer));
  nonce ← random_or_fail kGcmNonceBytes;
  packet ← seal_message kFlagMessage (write_key session) nonce (make_message_auth_data (local_node_addr c)) plaintext
             (node_address (peer_node_id peer));
  modify (fun c => with_sessions (<[key := with_last_req_id (request_id peer) session]> (sessions_ c)) c) ;;
  send_packet packet peer false.

(** [send_findnode] without a session or a challenge: random octets, which the peer cannot read. *)
Definition send_first (key : bytes) (peer : ValidatedPeer) : ClientM Datagram :=
  c ← get_state;
  request_nonce ← random_or_fail kGcmNonceBytes;
  modify (fun c => with_pending (<[key := mkPending peer (request_id peer) request_nonce []
    (repeat 0 (Z.to_nat kWhoareyouIdNonceBytes)) 0 false]> (pending_requests_ c)) c) ;;
  random_msg ← random_or_fail kRandomMessageCiphertextBytes;
  packet ← on_error (fun c => with_pending (delete key (pending_requests_ c)) c)
    (encode kFlagMessage request_nonce (make_message_auth_data (local_node_addr c)) random_msg
       (node_address (peer_node_id peer)));
  send_packet (fst packet) peer false.

(** The handshake that answers a challenge, up to the new session. *)
Definition build_handshake (key : bytes) (pending : PendingRequest) (peer : ValidatedPeer) : ClientM bytes :=
  c ← get_state;
  let local_addr := local_node_addr c in
  let remote_addr := node_address (peer_node_id peer) in
  eph ← ephemeral_keypair;
  eph_compressed ← lift (compress_public_key (Ecdh.public_key eph));
  signature ← lift (make_id_signature (private_key (client_config c)) (challenge_data pending) eph_compressed remote_addr);
  local_enr_record ← (if record_seq pending <? kInitialEnrSeq then build_local_enr else mret []);
  shared ← lift (shared_secret_from_uncompressed_pubkey (peer_node_id (pending_peer pending)) (Ecdh.private_key eph));
  keys ← lift (derive_session_keys shared (challenge_data pending) local_addr remote_addr);
  let auth_data := local_addr ++ [u8 (len signature); u8 (len eph_compressed)]
                   ++ signature ++ eph_compressed ++ local_enr_record in
  plaintext ← lift (make_findnode_plaintext (req_id pending));
  nonce ← random_or_fail kGcmNonceBytes;
  packet ← seal_message kFlagHandshake (fst keys) nonce auth_data plaintext remote_addr;
  modify (fun c => with_pending (delete key (pending_requests_ c))
    (with_sessions (<[key := mkSession (fst keys) (snd keys) remote_addr (peer_node_id (pending_peer pending)) (req_id pending)]>
       (sessions_ c)) c)) ;;
  mret packet.

Definition send_handshake (key : bytes) (pending : PendingRequest) (peer : ValidatedPeer) : ClientM Datagram :=
  modify (bump outbound_handshake_attempts_) ;;
  on_error (bump outbound_handshake_failures_) (packet ← build_handshake key pending peer; send_packet packet peer true).

Definition send_findnode (peer : ValidatedPeer) : ClientM Datagram :=
  let key := peer_key peer in
  c ← get_state;
  match sessions_ c !! key with
  | Some session => send_in_session key session peer
  | None =>
      match pending_requests_ c !! key with
      | Some pending =>
          if have_challenge pending then send_handshake key pending peer
          else modify (fun c => with_pending (delete key (pending_requests_ c)) c) ;; send_first key peer
      | None => send_first key peer
      end
  end.

Definition send_whoareyou (sender : Endpoint) (remote_node_addr request_nonce : bytes) : ClientM Datagram :=
  id_nonce ← random_or_fail kWhoareyouIdNonceBytes;
  let auth_data := id_nonce ++ append_u64_be 0 in
  packet ← encode kFlagWhoareyou request_nonce auth_data [] remote_node_addr;
  modify (fun c => with_challenges (<[sender_key sender := mkChallenge remote_node_addr (snd packet) request_nonce id_nonce 0]>
    (sent_challenges_ c)) c) ;;
  mret {| packet := fst packet; destination := (address sender, port sender); handshake := false |}.

Definition handle_findnode_request (req_id : bytes) (sender : Endpoint) : ClientM Datagram :=
  c ← get_state;
  match sessions_ c !! sender_key sender with
  | None => throw (Error kNetworkSendFailed)
  | Some session =>
      enr ← build_local_enr;
      plaintext ← lift (make_nodes_plaintext req_id enr);
      nonce ← random_or_fail kGcmNonceBytes;
      packet ← seal_message kFlagMessage (write_key session) nonce (make_message_auth_data (local_node_addr c)) plaintext
                 (remote_node_addr session);
      send_packet packet {| peer_node_id := remote_node_id session; peer_ip := address_text sender;
                            peer_udp_port := port sender; peer_tcp_port := port sender; peer_last_seen := 0;
                            peer_eth_fork_id := None |} false
  end.

(** ** Receiving *)

(** The reaction to a WHOAREYOU packet. *)
Definition handle_whoareyou (key : bytes) (packet : PacketView) : ClientM unit :=
  if negb (auth_size packet =? kWhoareyouAuthDataBytes) then mret tt else
  c ← get_state;
  match pending_requests_ c !! key with
  | None => mret tt
  | Some pending =>
      if negb (bool_decide (request_nonce pending = nonce packet)) then mret tt else
      modify (fun c => with_pending (<[key := mkPending (pending_peer pending) (req_id pending) (request_nonce pending)
        (header_data packet) (take (Z.to_nat kWhoareyouIdNonceBytes) (auth_data packet))
        (read_u64_be (drop (Z.to_nat kWhoareyouIdNonceBytes) (auth_data packet))) true]> (pending_requests_ c)) c) ;;
      modify (bump whoareyou_packets_) ;;
      modify (spawn (AnswerChallenge (pending_peer pending)))
  end.

(** The reaction to a decrypted message, by its type. *)
Definition handle_nodes (now : Z) (session : SessionState) (body : bytes) : ClientM unit :=
  or_return (parse_nodes_message keccak256 now body) (mret tt) (fun nodes =>
  if negb (empty (last_req_id session)) && negb (bool_decide (fst nodes = last_req_id session)) then mret tt else
  modify (bump nodes_packets_) ;;
  modify (fun c =>
    let '(es, r) := ingest_discovered_peers (snd nodes) (mark_measured (remote_node_id session) (crawler_ c)) in
    with_crawler r es c)).

Definition handle_findnode (sender : Endpoint) (body : bytes) : ClientM unit :=
  or_return (parse_findnode_req_id body) (mret tt) (fun req_id => modify (spawn (AnswerFindNode req_id sender))).

Definition handle_message (now : Z) (sender : Endpoint) (packet : PacketView) : ClientM unit :=
  modify (bump inbound_message_seen_) ;;
  if negb (auth_size packet =? kMessageAuthDataBytes) then mret tt else
  let remote_addr := take (Z.to_nat kKeccak256Bytes) (auth_data packet) in
  c ← get_state;
  match sessions_ c !! sender_key sender with
  | None => modify (spawn (SendWhoareyou sender remote_addr (nonce packet)))
  | Some session =>
      if negb (bool_decide (remote_node_addr session = remote_addr))
      then modify (spawn (SendWhoareyou sender remote_addr (nonce packet)))
      else or_return (decrypt_gcm (read_key session) (nonce packet) (msg_data packet) (header_data packet))
             (modify (bump inbound_message_decrypt_fail_) ;;
              modify (spawn (SendWhoareyou sender remote_addr (nonce packet)))) (fun plaintext =>
           match plaintext with
           | [] => mret tt
           | msg_type :: body =>
               if msg_type =? kMsgNodes then handle_nodes now session body
               else if msg_type =? kMsgFindNode then handle_findnode sender body
               else mret tt
           end)
  end.

(** The checks of a handshake packet, up to the new session. *)
Definition check_handshake (local_id : bytes) (config : discv5Config) (challenge : ChallengeState) (auth : HandshakeAuthView)
    (reject : Counter -> ClientM unit) (k : SessionState -> ClientM unit) : ClientM unit :=
  let rejected := reject inbound_handshake_reject_record_ in
  let crypto_failed := reject inbound_handshake_reject_crypto_ in
  if empty (record auth) then rejected else
  or_return (decode_rlp (record auth)) rejected (fun decoded =>
  or_return (verified keccak256 decoded) rejected (fun rec =>
  if negb (bool_decide (node_address (node_id rec) = src_id auth)) then rejected else
  if negb (verify_id_signature (node_id rec) (signature auth) (sent_challenge_data challenge) (pubkey auth) local_id)
  then rejected else
  or_return (shared_secret_from_compressed_pubkey (pubkey auth) (private_key config)) crypto_failed (fun shared =>
  or_return (derive_session_keys shared (sent_challenge_data challenge) (src_id auth) local_id) crypto_failed (fun keys =>
  k (mkSession (snd keys) (fst keys) (src_id auth) (node_id rec) []))))).

Definition handle_handshake (sender : Endpoint) (packet : PacketView) : ClientM unit :=
  let key := sender_key sender in
  let reject k := modify (bump k) in
  modify (bump inbound_handshake_seen_) ;;
  or_return (parse_handshake_auth (auth_data packet)) (reject inbound_handshake_reject_auth_) (fun auth =>
  c ← get_state;
  match sent_challenges_ c !! key with
  | None => reject inbound_handshake_reject_challenge_
  | Some challenge =>
      if negb (bool_decide (src_id auth = challenge_node_addr challenge)) then reject inbound_handshake_reject_challenge_
      else check_handshake (local_node_addr c) (client_config c) challenge auth reject (fun session =>
        modify (fun c => with_sessions (<[key := session]> (sessions_ c)) c) ;;
        or_return (decrypt_gcm (read_key session) (nonce packet) (msg_data packet) (header_data packet))
          (modify (fun c => with_sessions (delete key (sessions_ c)) c) ;; reject inbound_handshake_reject_decrypt_)
          (fun plaintext =>
        modify (bump handshake_packets_) ;;
        modify (fun c => with_challenges (delete key (sent_challenges_ c)) c) ;;
        match plaintext with
        | [] => mret tt
        | msg_type :: body =>
            if msg_type =? kMsgFindNode then
              or_return (parse_findnode_req_id body) (mret tt) (fun req_id =>
              modify (fun c => with_sessions (<[key := with_last_req_id req_id session]> (sessions_ c)) c) ;;
              modify (spawn (AnswerFindNode req_id sender)))
            else mret tt
        end))
  end).

Definition handle_packet (now : Z) (data : bytes) (sender : Endpoint) : ClientM unit :=
  c ← get_state;
  or_return (decode_packet data (local_node_addr c)) (mret tt) (fun packet =>
  if flag packet =? kFlagWhoareyou then handle_whoareyou (sender_key sender) packet
  else if flag packet =? kFlagMessage then handle_message now sender packet
  else if flag packet =? kFlagHandshake then handle_handshake sender packet
  else mret tt).

(** ** The coroutines *)

(** A task up to its send. *)
Definition run_task (t : Task) : ClientM Datagram :=
  match t with
  | QueryPeer peer | AnswerChallenge peer => send_findnode peer
  | SendWhoareyou sender remote_addr nonce => send_whoareyou sender remote_addr nonce
  | AnswerFindNode req_id sender => handle_findnode_request req_id sender
  end.

(** What the coroutine does with its result. *)
Definition failed_task (t : Task) (c : discv5_client) : discv5_client :=
  match t with
  | QueryPeer peer | AnswerChallenge peer =>
      let c := bump send_findnode_failures_ c in with_crawler (mark_failed (peer_node_id peer) (crawler_ c)) [] c
  | _ => c
  end.
Definition finished_task (t : Task) (c : discv5_client) : discv5_client :=
  match t with
  | QueryPeer peer => with_crawler (mark_measured (peer_node_id peer) (crawler_ c)) [] c
  | _ => c
  end.

Definition start_task (t : Task) (c : discv5_client) : Discv5Result discv5_client :=
  match run_task t c with
  | (Ok d, c) => Ok (with_waiting (waiting c ++ [mkWaiting t d]) c)
  | (Err (Error _), c) => Ok (failed_task t c)
  | (Err Lost, _) => Err Lost
  | (Diverged, _) => Diverged
  end.

Definition finish_task (w : Waiting) (ok : bool) (c : discv5_client) : discv5_client :=
  if ok then finished_task (waiting_task w) c
  else failed_task (waiting_task w) (if handshake (sent w) then bump outbound_handshake_failures_ c else c).

(** A round of [crawler_loop] up to its sleep. *)
Fixpoint issue_queries (n : nat) (c : discv5_client) : discv5_client :=
  match n with
  | O => c
  | S n =>
      match dequeue_next (crawler_ c) with
      | (None, _) => c
      | (Some peer, r) => issue_queries n (spawn (QueryPeer peer) (with_crawler r [] c))
      end
  end.
Definition crawler_round (c : discv5_client) : discv5_client :=
  issue_queries (Z.to_nat (max_concurrent_queries (client_config c))) c.

(** A datagram that [async_receive_from] has written to the buffer. *)
Definition receive (now : Z) (data : bytes) (sender : Endpoint) : ClientM unit :=
  let data := take (Z.to_nat kMaxPacketBytes) data in
  if len data <? kMinPacketBytes then modify (bump dropped_undersized_packets_)
  else modify (bump received_packets_) ;; handle_packet now data sender.

(** ** Lifecycle *)

Definition client_start (now : Z) (c : discv5_client) : Discv5Result discv5_client :=
  if client_running c then Ok c else
  let c := with_loops (S (receive_loops c)) (S (crawler_loops c)) (with_life true (socket_open c) c) in
  match Discv5Crawler.start keccak256 now (crawler_ c) with
  | Some (_, es, r) => Ok (with_crawler r es c)
  | None => Err Lost
  end.

Definition client_stop (c : discv5_client) : discv5_client :=
  if negb (client_running c) then c else
  let c := with_life false false c in
  with_crawler (snd (Discv5Crawler.stop (crawler_ c))) [] c.

Definition add_bootnode (uri : bytes) (c : discv5_client) : discv5_client :=
  let f := client_config c in
  with_config (mkConfig (bind_ip f) (bind_port f) (config_tcp_port f) (private_key f) (public_key f)
    (bootstrap_enrs f ++ [uri]) (max_concurrent_queries f) (query_interval_sec f) (required_fork_id f)) c.

Definition client_set_peer_callback (cb : option Z) (c : discv5_client) : discv5_client :=
  with_crawler (set_peer_discovered_callback cb (crawler_ c)) [] c.
Definition client_set_error_callback (cb : option Z) (c : discv5_client) : discv5_client :=
  with_crawler (set_error_callback cb (crawler_ c)) [] c.

Definition client_stats (c : discv5_client) : CrawlerStats := stats (crawler_ c).
Definition local_node_id (c : discv5_client) : bytes := public_key (client_config c).
Definition is_running (c : discv5_client) : bool := client_running c.
Definition bound_port (c : discv5_client) : Z := if socket_open c then local_port else 0.
(** The accessors of the counters, one for each. *)
Definition counter (k : Counter) (c : discv5_client) : Z := client_counters c k.

(** ** What can happen *)

Inductive client_event :=
| Started (now : Z) | Stopped | BootnodeAdded (uri : bytes)
| PeerCallback (cb : option Z) | ErrorCallback (cb : option Z)
| ReceivedDatagram (now : Z) (data : bytes) (sender : Endpoint)
| ReceiveFailed
| RoundDue
| TaskRuns (i : nat)
| SendDone (i : nat) (ok : bool).

(** A receive loop that has handled its datagram goes on while the client runs; so does the
    crawler loop after its sleep. [None]: the event cannot happen. *)
Definition client_step (e : client_event) (c : discv5_client) : option (Discv5Result discv5_client) :=
  match e with
  | Started now => Some (client_start now c)
  | Stopped => Some (Ok (client_stop c))
  | BootnodeAdded uri => Some (Ok (add_bootnode uri c))
  | PeerCallback cb => Some (Ok (client_set_peer_callback cb c))
  | ErrorCallback cb => Some (Ok (client_set_error_callback cb c))
  | ReceivedDatagram now data sender =>
      match receive_loops c with
      | O => None
      | S n => Some (obind (let '(r, c') := receive now data sender c in obind r (fun _ => Ok c')) (fun c' =>
                 Ok (if client_running c' then c' else with_loops n (crawler_loops c') c')))
      end
  | ReceiveFailed =>
      match receive_loops c with
      | O => None
      | S n => Some (Ok (if client_running c then c else with_loops n (crawler_loops c) c))
      end
  | RoundDue =>
      match crawler_loops c with
      | O => None
      | S n => Some (Ok (if client_running c then crawler_round c else with_loops (receive_loops c) n c))
      end
  | TaskRuns i =>
      match ready c !! i with
      | None => None
      | Some t => Some (start_task t (with_ready (delete i (ready c)) c))
      end
  | SendDone i ok =>
      match waiting c !! i with
      | None => None
      | Some w => Some (Ok (finish_task w ok (with_waiting (delete i (waiting c)) c)))
      end
  end.
End client.

(** ** Runs *)

Section runs.
Context `{AddressText} (keccak256 : bytes -> bytes) `{Secp256k1} `{OpenSsl} (fuel : nat) (local_port : Z).

(** The events in turn; [None] when one cannot happen. A fault ends the process. *)
Fixpoint client_run (es : list client_event) (c : discv5_client) : option (Discv5Result discv5_client) :=
  match es with
  | [] => Some (Ok c)
  | e :: es =>
      match client_step keccak256 fuel local_port e c with
      | Some (Ok c') => client_run es c'
      | r => r
      end
  end.

(** ** Bootnodes *)

(** The client with other bootnodes in its configuration. *)
Definition set_bootnodes (us : list bytes) (f : discv5Config) : discv5Config :=
  mkConfig (bind_ip f) (bind_port f) (config_tcp_port f) (private_key f) (public_key f)
    us (max_concurrent_queries f) (query_interval_sec f) (required_fork_id f).
Definition rebase (us : list bytes) (c : discv5_client) : discv5_client :=
  with_config (set_bootnodes us (client_config c)) c.

(** A computation that does not look at the bootnodes of the client's configuration. *)
Definition ignores {A} (m : ClientM A) : Prop := forall us c,
  m (rebase us c) = (fst (m c), rebase us (snd (m c))).

Lemma ignores_bind {A B} (m : ClientM A) (f : A -> ClientM B) :
  ignores m -> (forall a, ignores (f a)) -> ignores (m ≫= f).
Proof.
  intros Hm Hf us c. unfold mbind, M_bind. rewrite Hm. destruct (m c) as [[a|e|] c']; cbn; [apply Hf | done | done].
Qed.

(** A program that reads the client and does not depend on its bootnodes. *)
Lemma ignores_read {A} (f : discv5_client -> ClientM A) :
  (forall c, ignores (f c)) -> (forall us c, f (rebase us c) = f c) -> ignores (get_state ≫= f).
Proof. intros Hf He us c. unfold mbind, M_bind, get_state. rewrite He. apply Hf. Qed.

Lemma ignores_modify f : (forall us c, f (rebase us c) = rebase us (f c)) -> ignores (modify f).
Proof. intros H' us c. unfold modify. cbv beta. cbn [fst snd]. by rewrite (H' us c). Qed.
Lemma ignores_lift {A} (r : Discv5Result A) : ignores (lift r).
Proof. done. Qed.
Lemma ignores_ret {A} (a : A) : ignores (mret a).
Proof. done. Qed.
Lemma ignores_throw {A} e : ignores (throw (A := A) e).
Proof. done. Qed.
Lemma ignores_random n : ignores (random_bytes n).
Proof. done. Qed.
Lemma ignores_keypair : ignores (ephemeral_keypair fuel).
Proof. intros us c. unfold ephemeral_keypair. cbn. by destruct (Ecdh.generate_ephemeral_keypair _ _). Qed.
Lemma ignores_enr : ignores (build_local_enr keccak256 local_port).
Proof. done. Qed.
Lemma ignores_on_error {A} f (m : ClientM A) :
  (forall us c, f (rebase us c) = rebase us (f c)) -> ignores m -> ignores (on_error f m).
Proof.
  intros Hf Hm us c. unfold on_error. rewrite Hm. destruct (m c) as [[a|[e|]|] c']; cbn [fst snd]; [done | by rewrite Hf | done | done].
Qed.
Lemma ignores_or_return {A} (r : Discv5Result A) m (k : A -> ClientM unit) :
  ignores m -> (forall a, ignores (k a)) -> ignores (or_return r m k).
Proof. intros Hm Hk. destruct r as [a|[e|]|]; [apply Hk | done ..]. Qed.
End runs.

Create HintDb ignores.
#[export] Hint Resolve ignores_lift ignores_ret ignores_throw ignores_random ignores_keypair ignores_enr : ignores.
Ltac ignores :=
  repeat first
    [ apply ignores_bind; [| intros ?]
    | apply ignores_or_return; [| intros ?]
    | apply ignores_on_error; [done |]
    | apply ignores_modify; done
    | solve [auto with ignores]
    | case_match ].

Section bootnodes.
Context `{AddressText} (keccak256 : bytes -> bytes) `{Secp256k1} `{OpenSsl} (fuel : nat) (local_port : Z).

Lemma ignores_random_or_fail n : ignores (random_or_fail n).
Proof. unfold random_or_fail. ignores. Qed.
Lemma ignores_send_packet p peer h : ignores (send_packet p peer h).
Proof. unfold send_packet. ignores. Qed.
Hint Resolve ignores_random_or_fail ignores_send_packet : ignores.

Lemma ignores_seal fl k n a p d : ignores (seal_message fl k n a p d).
Proof. unfold seal_message, encode. ignores. Qed.
Hint Resolve ignores_seal : ignores.

Lemma ignores_send_findnode peer : ignores (send_findnode keccak256 fuel local_port peer).
Proof.
  unfold send_findnode. apply ignores_read; [| done]. intros c. repeat case_match.
  - unfold send_in_session. apply ignores_read; [intros; ignores | done].
  - unfold send_handshake, build_handshake. apply ignores_bind; [by apply ignores_modify | intros _].
    apply ignores_on_error; [done |]. apply ignores_bind; [| intros; ignores].
    apply ignores_read; [intros; ignores | done].
  - apply ignores_bind; [by apply ignores_modify | intros _]. unfold send_first, encode.
    apply ignores_read; [intros; ignores | done].
  - unfold send_first, encode. apply ignores_read; [intros; ignores | done].
Qed.

Lemma ignores_run_task t : ignores (run_task keccak256 fuel local_port t).
Proof.
  destruct t; try apply ignores_send_findnode.
  - unfold run_task, send_whoareyou, encode. ignores.
  - unfold run_task, handle_findnode_request. apply ignores_read; [| done]. intros c. ignores.
Qed.

Lemma ignores_handle_message now sender p : ignores (handle_message keccak256 now sender p).
Proof.
  unfold handle_message. apply ignores_bind; [by apply ignores_modify | intros _]. case_match; [apply ignores_ret |].
  apply ignores_read; [| done]. intros c. unfold handle_nodes, handle_findnode. ignores.
  apply ignores_modify. intros us c'. cbn. by destruct (ingest_discovered_peers _ _).
Qed.

Lemma ignores_handle_handshake sender p : ignores (handle_handshake keccak256 sender p).
Proof.
  unfold handle_handshake. apply ignores_bind; [by apply ignores_modify | intros _].
  apply ignores_or_return; [by apply ignores_modify | intros auth]. apply ignores_read; [| done].
  intros c. unfold check_handshake. ignores.
Qed.

Lemma ignores_handle_packet now data sender : ignores (handle_packet keccak256 now data sender).
Proof.
  unfold handle_packet. apply ignores_read; [| done]. intros c. apply ignores_or_return; [apply ignores_ret | intros p].
  repeat case_match; [| apply ignores_handle_message | apply ignores_handle_handshake | apply ignores_ret].
  unfold handle_whoareyou. case_match; [apply ignores_ret |]. apply ignores_read; [intros c'; ignores | done].
Qed.

Definition map_ok {E A B} (f : A -> B) (r : outcome E A) : outcome E B := obind r (fun a => Ok (f a)).

Lemma rebase_round us n : forall c, issue_queries n (rebase us c) = rebase us (issue_queries n c).
Proof.
  induction n as [|n IH]; intros c; [done |]. cbn [issue_queries]. cbn [rebase with_config crawler_].
  destruct (dequeue_next (crawler_ c)) as [[p|] r]; [| done]. exact (IH (spawn (QueryPeer p) (with_crawler r [] c))).
Qed.

(** An event other than the addition of a bootnode. *)
Definition not_bootnode (e : client_event) : bool := match e with BootnodeAdded _ => false | _ => true end.

Lemma rebase_step us e c : not_bootnode e = true ->
  client_step keccak256 fuel local_port e (rebase us c)
  = fmap (map_ok (rebase us)) (client_step keccak256 fuel local_port e c).
Proof.
  intros He. destruct e; try done; cbn [client_step].
  - cbn. unfold client_start. cbn. case_match; [done |]. by destruct (Discv5Crawler.start _ _ _) as [[[? ?] ?]|].
  - cbn. unfold client_stop. cbn. by case_match.
  - cbn [rebase with_config receive_loops]. destruct (receive_loops c) as [|n]; [done |].
    assert (ignores (receive keccak256 now data sender)) as Hi.
    { unfold receive. case_match; [by apply ignores_modify |].
      apply ignores_bind; [by apply ignores_modify | intros _; apply ignores_handle_packet]. }
    fold (rebase us c). rewrite Hi. destruct (receive keccak256 now data sender c) as [[[]|e|] c']; cbn; [| done ..].
    by destruct (client_running c').
  - cbn. destruct (receive_loops c); [done |]. cbn. by destruct (client_running c).
  - cbn [rebase with_config crawler_loops client_running]. destruct (crawler_loops c); [done |]. cbn [fmap option_fmap option_map map_ok obind].
    destruct (client_running c); [| done]. unfold crawler_round. fold (rebase us c).
    by rewrite rebase_round.
  - cbn [rebase with_config ready]. destruct (ready c !! i) as [t|]; [| done]. cbn [fmap option_fmap option_map map_ok obind].
    set (c1 := with_ready (delete i (ready c)) c).
    change (Some (start_task keccak256 fuel local_port t (rebase us c1))
            = Some (map_ok (rebase us) (start_task keccak256 fuel local_port t c1))).
    unfold start_task. rewrite ignores_run_task.
    destruct (run_task _ _ _ _ _) as [[d|[e|]|] c']; cbn; [done | | done | done]. by destruct t.
  - cbn [rebase with_config waiting]. destruct (waiting c !! i) as [w|]; [| done].
    destruct w as [t [p d h]]. destruct ok, t, h; reflexivity.
Qed.
(** a bootnode added to the client is never used. The client adds it to its own copy of the
    configuration, but it is the crawler that seeds itself, from the copy it was built with: in
    every run, whatever is received, sent and drawn, dropping all the [add_bootnode] calls changes
    nothing but that list. *)
Theorem added_bootnode_unused us es : forall c,
  fmap (map_ok (rebase us)) (client_run keccak256 fuel local_port es c)
  = fmap (map_ok (rebase us)) (client_run keccak256 fuel local_port (List.filter not_bootnode es) c).
Proof.
  assert (forall us1 c, fmap (map_ok (rebase us)) (client_run keccak256 fuel local_port es (rebase us1 c))
    = fmap (map_ok (rebase us)) (client_run keccak256 fuel local_port (List.filter not_bootnode es) c)) as Hrun.
  { induction es as [|e es IH]; intros us1 c; [done |]. cbn [List.filter]. destruct (not_bootnode e) eqn:He.
    - cbn [client_run]. rewrite rebase_step by done.
      destruct (client_step _ _ _ e c) as [[c'|f|]|]; cbn [fmap option_fmap option_map map_ok obind]; [apply IH | done ..].
    - destruct e; try done. cbn [client_run client_step]. apply (IH (us1 ++ [uri]) c). }
  intros c. rewrite <- (Hrun (bootstrap_enrs (client_config c)) c). f_equal. f_equal. by destruct c as [[] ? ? ? ? ? ? ? ? ? ? ? ? ?].
Qed.
End bootnodes.

(** ** Sessions begin with authentication *)

(** A computation that, however it ends, relates the clients before and after by [R]. *)
Section keeps.
Context (R : discv5_client -> discv5_client -> Prop) `{!PreOrder R}.

Definition keeps {A} (m : ClientM A) : Prop := forall c, R c (snd (m c)).

Lemma keeps_bind {A B} (m : ClientM A) (f : A -> ClientM B) : keeps m -> (forall a, keeps (f a)) -> keeps (m ≫= f).
Proof using PreOrder0.
  intros Hm Hf c. specialize (Hm c). unfold mbind, M_bind. destruct (m c) as [[a|e|] c']; cbn in *; [| done | done].
  etransitivity; [exact Hm | apply Hf].
Qed.
Lemma keeps_modify f : (forall c, R c (f c)) -> keeps (modify f).
Proof. intros Hf c. apply Hf. Qed.
Lemma keeps_same {A} (r : Discv5Result A) : keeps (fun c => (r, c)).
Proof using PreOrder0. intros c. reflexivity. Qed.
Lemma keeps_lift {A B} (r : Discv5Result A) (f : A -> ClientM B) :
  (forall a, r = Ok a -> keeps (f a)) -> keeps (lift r ≫= f).
Proof using PreOrder0. intros Hf c. unfold mbind, M_bind, lift. destruct r; [by apply Hf | reflexivity ..]. Qed.
Lemma keeps_on_error {A} f (m : ClientM A) : keeps m -> (forall c, R c (f c)) -> keeps (on_error f m).
Proof using PreOrder0.
  intros Hm Hf c. specialize (Hm c). unfold on_error. destruct (m c) as [[a|[e|]|] c']; cbn in *; [done | | done ..].
  etransitivity; [exact Hm | apply Hf].
Qed.
Lemma keeps_or_return {A} (r : Discv5Result A) m (k : A -> ClientM unit) :
  keeps m -> (forall a, keeps (k a)) -> keeps (or_return r m k).
Proof using PreOrder0. intros Hm Hk. destruct r as [a|[e|]|]; [apply Hk | done | apply keeps_same ..]. Qed.
End keeps.

Ltac keeps :=
  repeat lazymatch goal with
  | |- keeps _ (lift _ ≫= _) => apply keeps_lift; [typeclasses eauto | intros ? ?]
  | |- keeps _ (_ ≫= _) => apply keeps_bind; [typeclasses eauto | | intros ?]
  | |- keeps _ (on_error _ _) => apply keeps_on_error; [typeclasses eauto | | intros ?; try reflexivity]
  | |- keeps _ (or_return _ _ _) => apply keeps_or_return; [typeclasses eauto | | intros ?]
  | |- keeps _ (modify _) => apply keeps_modify; intros ?; try reflexivity
  | |- keeps _ (mret _) => apply keeps_same; typeclasses eauto
  | |- keeps _ (throw _) => apply keeps_same; typeclasses eauto
  | |- keeps _ (lift _) => apply keeps_same; typeclasses eauto
  | |- keeps _ get_state => by intros ?; cbn
  | |- keeps _ (match ?x with _ => _ end) => destruct x
  end.

(** No pending request gets a challenge. *)
Definition unchallenged (c c' : discv5_client) : Prop := forall key p,
  pending_requests_ c' !! key = Some p -> have_challenge p = true -> pending_requests_ c !! key = Some p.

(** The sessions stay, but for [key] in a session of [P]; and no pending request gets a challenge. *)
Definition sets_session (key : bytes) (P : SessionState -> Prop) (c c' : discv5_client) : Prop :=
  (sessions_ c' = sessions_ c \/ exists s, P s /\ sessions_ c' = <[key := s]> (sessions_ c))
  /\ unchallenged c c'.
#[export] Instance sets_session_preorder key P : PreOrder (sets_session key P).
Proof.
  split; [split; [by left | by intros ???] |]. intros c1 c2 c3 [S1 U1] [S2 U2]. split; [| by intros ???; eauto].
  destruct S2 as [-> | (s & Hs & ->)]; [done | right]. exists s. split; [done |].
  destruct S1 as [-> | (s' & _ & ->)]; [done | by rewrite insert_insert_eq].
Qed.

(** The sessions stay, and no pending request gets a challenge. *)
Abbreviation quiet := (sets_session [] (fun _ => False)).

(** A session is only made where the pending request of [key] is closed. *)
Definition closes (key : bytes) (c c' : discv5_client) : Prop :=
  (sessions_ c' = sessions_ c \/ pending_requests_ c' !! key = None)
  /\ (pending_requests_ c !! key = None -> pending_requests_ c' !! key = None).
#[export] Instance closes_preorder key : PreOrder (closes key).
Proof.
  split; [split; [by left | done] |]. intros c1 c2 c3 [[S1|S1] K1] [[S2|S2] K2]; split; eauto. left. congruence.
Qed.

Create HintDb keeps.

Lemma or_return_inv {A} (r : Discv5Result A) m (k : A -> ClientM unit) c x c' : or_return r m k c = (Ok x, c') ->
  (exists a, r = Ok a /\ k a c = (Ok x, c')) \/ (exists e, r = Err (Error e) /\ m c = (Ok x, c')).
Proof. destruct r as [a|[e|]|]; cbn; intros E; [left | right | done | done]; eauto. Qed.

Section authenticated.
Context `{AddressText} (keccak256 : bytes -> bytes) `{Secp256k1} `{OpenSsl} (fuel : nat) (local_port : Z).

(** What is checked of a handshake packet for a challenge sent to [key], and the session [s] it leads to. *)
Record verified_handshake (c : discv5_client) (data key : bytes) (s : SessionState)
    (packet : PacketView) (auth : HandshakeAuthView) (ch : ChallengeState) (rec : EnrRecord) : Prop := {
  vh_packet : decode_packet data (local_node_addr keccak256 c) = Ok packet /\ flag packet = kFlagHandshake;
  vh_auth : parse_handshake_auth (auth_data packet) = Ok auth;
  vh_challenge : sent_challenges_ c !! key = Some ch /\ challenge_node_addr ch = src_id auth;
  vh_record : obind (decode_rlp (record auth)) (verified keccak256) = Ok rec;
  vh_identity : node_address keccak256 (node_id rec) = src_id auth;
  vh_signature : verify_id_signature (node_id rec) (signature auth) (sent_challenge_data ch) (pubkey auth)
                   (local_node_addr keccak256 c) = true;
  vh_session : exists shared keys,
    shared_secret_from_compressed_pubkey (pubkey auth) (private_key (client_config c)) = Ok shared
    /\ derive_session_keys shared (sent_challenge_data ch) (src_id auth) (local_node_addr keccak256 c) = Ok keys
    /\ s = mkSession (snd keys) (fst keys) (src_id auth) (node_id rec) (last_req_id s)
}.

(** The message of a handshake packet, read with the key of the session. *)
Definition handshake_message (s : SessionState) (packet : PacketView) : Discv5Result bytes :=
  decrypt_gcm (read_key s) (nonce packet) (msg_data packet) (header_data packet).

(** The session that answering the challenge of [pending] makes: the keys are those of a secret shared
    with the key of the peer the request was for, and of the challenge. *)
Definition answered_session (c : discv5_client) (pending : PendingRequest) (peer : ValidatedPeer) (s : SessionState) : Prop :=
  exists eph shared keys,
    fst (Ecdh.generate_ephemeral_keypair fuel (draws c)) = Ok eph
    /\ shared_secret_from_uncompressed_pubkey (peer_node_id (pending_peer pending)) (Ecdh.private_key eph) = Ok shared
    /\ derive_session_keys shared (challenge_data pending) (local_node_addr keccak256 c) (node_address keccak256 (peer_node_id peer)) = Ok keys
    /\ s = mkSession (fst keys) (snd keys) (node_address keccak256 (peer_node_id peer)) (peer_node_id (pending_peer pending)) (req_id pending).

(** How an event changes the session of [key]. *)
Inductive session_change (c c' : discv5_client) (key : bytes) : client_event -> Prop :=
| PeerHandshake now data sender s packet auth ch rec :
    key = sender_key sender ->
    verified_handshake c (take (Z.to_nat kMaxPacketBytes) data) key s packet auth ch rec ->
    (exists plaintext, handshake_message s packet = Ok plaintext) ->
    sessions_ c' !! key = Some s -> sent_challenges_ c' !! key = None ->
    session_change c c' key (ReceivedDatagram now data sender)
| UnreadableHandshake now data sender s packet auth ch rec :
    key = sender_key sender ->
    verified_handshake c (take (Z.to_nat kMaxPacketBytes) data) key s packet auth ch rec ->
    (exists e, handshake_message s packet = Err (Error e)) ->
    sessions_ c' !! key = None -> sent_challenges_ c' = sent_challenges_ c ->
    session_change c c' key (ReceivedDatagram now data sender)
| OwnHandshake i t peer pending s :
    ready c !! i = Some t -> t = QueryPeer peer \/ t = AnswerChallenge peer ->
    key = peer_key peer -> sessions_ c !! key = None ->
    pending_requests_ c !! key = Some pending -> have_challenge pending = true ->
    answered_session c pending peer s ->
    sessions_ c' !! key = Some s -> pending_requests_ c' !! key = None ->
    session_change c c' key (TaskRuns i)
| NextRequest i t peer s :
    ready c !! i = Some t -> t = QueryPeer peer \/ t = AnswerChallenge peer ->
    key = peer_key peer -> sessions_ c !! key = Some s ->
    sessions_ c' !! key = Some (with_last_req_id (request_id peer) s) ->
    session_change c c' key (TaskRuns i).

(** How a pending request gets its challenge. *)
Definition challenged (c : discv5_client) (key : bytes) (p : PendingRequest) (e : client_event) : Prop :=
  exists now data sender packet p0,
    e = ReceivedDatagram now data sender /\ key = sender_key sender
    /\ decode_packet (take (Z.to_nat kMaxPacketBytes) data) (local_node_addr keccak256 c) = Ok packet
    /\ flag packet = kFlagWhoareyou /\ pending_requests_ c !! key = Some p0 /\ request_nonce p0 = nonce packet
    /\ challenge_data p = header_data packet /\ pending_peer p = pending_peer p0 /\ req_id p = req_id p0.

(** What an event may do to the tables of sessions and pending requests. *)
Definition explained (e : client_event) (c c' : discv5_client) : Prop := forall key,
  (sessions_ c' !! key <> sessions_ c !! key -> session_change c c' key e)
  /\ (forall p, pending_requests_ c' !! key = Some p -> have_challenge p = true ->
      pending_requests_ c !! key <> Some p -> challenged c key p e).

Lemma sets_kept key P c c' : sessions_ c' = sessions_ c -> pending_requests_ c' = pending_requests_ c -> sets_session key P c c'.
Proof. intros Es Ep. split; [by left |]. intros k p. by rewrite Ep. Qed.
Lemma unchallenged_delete k c c' : pending_requests_ c' = delete k (pending_requests_ c) -> unchallenged c c'.
Proof. intros E k' p Hp _. rewrite E in Hp. by apply lookup_delete_Some in Hp as []. Qed.
Lemma sets_drops key P k c : sets_session key P c (with_pending (delete k (pending_requests_ c)) c).
Proof. split; [by left | by apply (unchallenged_delete k)]. Qed.
Lemma quiet_sets key P c c' : quiet c c' -> sets_session key P c c'.
Proof. intros [[E | (? & [] & _)] U]. split; [by left | done]. Qed.

Lemma keeps_message now sender p : keeps quiet (handle_message keccak256 now sender p).
Proof.
  unfold handle_message, handle_nodes, handle_findnode. keeps; try by apply sets_kept. case_match. by apply sets_kept.
Qed.

Lemma keeps_random key P n : keeps (sets_session key P) (random_bytes n).
Proof. intros c. by apply sets_kept. Qed.
Lemma keeps_random_or_fail key P n : keeps (sets_session key P) (random_or_fail n).
Proof. unfold random_or_fail. keeps. apply keeps_random. Qed.
Lemma keeps_seal key P fl k nonce auth text addr : keeps (sets_session key P) (seal_message fl k nonce auth text addr).
Proof. unfold seal_message, encode. keeps. apply keeps_random. Qed.
Lemma keeps_enr key P : keeps (sets_session key P) (build_local_enr keccak256 local_port).
Proof. intros c. by apply sets_kept. Qed.
Lemma keeps_send_packet key P d peer h : keeps (sets_session key P) (send_packet d peer h).
Proof. unfold send_packet. keeps. Qed.
Hint Resolve keeps_random keeps_random_or_fail keeps_seal keeps_enr keeps_send_packet : keeps.

Lemma keeps_send_first key peer : keeps quiet (send_first keccak256 key peer).
Proof.
  unfold send_first, encode. keeps; try (by eauto with keeps); try apply sets_drops.
  split; [by left |]. intros k p Hp Hc. cbn in Hp. by apply lookup_insert_Some in Hp as [[_ <-] | [_ Hp]].
Qed.

Lemma keeps_send_in_session key s peer :
  keeps (sets_session key (fun s' => s' = with_last_req_id (request_id peer) s)) (send_in_session keccak256 key s peer).
Proof.
  unfold send_in_session. keeps; try (by eauto with keeps). split; [right; by eexists | by intros ???].
Qed.

Lemma keeps_whoareyou_sent sender addr n : keeps quiet (send_whoareyou sender addr n).
Proof. unfold send_whoareyou, encode. keeps; try (by eauto with keeps). by apply sets_kept. Qed.
Lemma keeps_answer req_id sender : keeps quiet (handle_findnode_request keccak256 local_port req_id sender).
Proof. unfold handle_findnode_request. keeps; by eauto with keeps. Qed.

(** The answer to a challenge: what is drawn and derived goes into the session. *)
Lemma build_sends key pending peer c R `{!PreOrder R} :
  (forall s, answered_session c pending peer s -> forall c', R c' (with_pending (delete key (pending_requests_ c'))
     (with_sessions (<[key := s]> (sessions_ c')) c'))) ->
  (forall i c', R c' (with_draws i c')) ->
  R c (snd (build_handshake keccak256 fuel local_port key pending peer c)).
Proof.
  intros Hs Hd. unfold build_handshake. rewrite (bind_ok _ _ _ c c) by done. unfold mbind at 1, M_bind at 1, ephemeral_keypair.
  destruct (Ecdh.generate_ephemeral_keypair fuel (draws c)) as [[eph|e|] i] eqn:Ee; cbn [map_err]; [| apply Hd ..].
  transitivity (with_draws i c); [apply Hd |].
  unfold build_local_enr, seal_message, random_or_fail, encode, random_bytes. 
  match goal with |- R ?x (snd (?m ?x)) => generalize x; change (keeps R m) end.
  keeps; try (intros ?; (reflexivity || apply Hd)). apply Hs. exists eph. rewrite Ee. by do 2 eexists.
Qed.

Lemma handshake_sends key pending peer c R `{!PreOrder R} :
  (forall s, answered_session c pending peer s -> forall c', R c' (with_pending (delete key (pending_requests_ c'))
     (with_sessions (<[key := s]> (sessions_ c')) c'))) ->
  (forall i c', R c' (with_draws i c')) -> (forall k c', R c' (bump k c')) ->
  R c (snd (send_handshake keccak256 fuel local_port key pending peer c)).
Proof.
  intros Hs Hd Hb. unfold send_handshake. rewrite (bind_ok _ _ _ tt (bump outbound_handshake_attempts_ c)) by done.
  transitivity (bump outbound_handshake_attempts_ c); [apply Hb |].
  pose proof (build_sends key pending peer (bump outbound_handshake_attempts_ c) R Hs Hd) as Hr.
  unfold on_error, mbind, M_bind. destruct (build_handshake _ _ _ _ _ _ _) as [[d|[e|]|] c1]; cbn in *; try done.
  - assert (snd (send_packet d peer true c1) = c1) as E by (unfold send_packet; by case_match).
    destruct (send_packet d peer true c1) as [[x|[e|]|] c2]; cbn in *; subst; [done | etransitivity; [exact Hr | apply Hb] | done ..].
  - etransitivity; [exact Hr | apply Hb].
Qed.

(** What a task that asks a peer makes of its session. *)
Definition asked (c c' : discv5_client) (peer : ValidatedPeer) : Prop :=
  (exists s, sessions_ c !! peer_key peer = Some s /\ sessions_ c' !! peer_key peer = Some (with_last_req_id (request_id peer) s))
  \/ (sessions_ c !! peer_key peer = None /\ exists pending s, pending_requests_ c !! peer_key peer = Some pending
      /\ have_challenge pending = true /\ answered_session c pending peer s
      /\ sessions_ c' !! peer_key peer = Some s /\ pending_requests_ c' !! peer_key peer = None).

Lemma findnode_asks peer c : let c' := snd (send_findnode keccak256 fuel local_port peer c) in
  unchallenged c c' /\ forall key, sessions_ c' !! key <> sessions_ c !! key -> key = peer_key peer /\ asked c c' peer.
Proof.
  assert (forall P c', sets_session (peer_key peer) P c c' ->
    (forall s, P s -> sessions_ c' !! peer_key peer = Some s -> sessions_ c' <> sessions_ c -> asked c c' peer) ->
    unchallenged c c' /\ forall key, sessions_ c' !! key <> sessions_ c !! key -> key = peer_key peer /\ asked c c' peer) as Hsets.
  { intros P c' [[E | (s & Hs & E)] U] HP; (split; [done |]; intros key Hk).
    - by rewrite E in Hk.
    - destruct (decide (key = peer_key peer)) as [-> | Hne]; [| by rewrite E, lookup_insert_ne in Hk].
      split; [done |]. apply (HP s Hs); [by rewrite E, lookup_insert_eq | congruence]. }
  cbv zeta. unfold send_findnode. cbv zeta. rewrite (bind_ok _ _ _ c c) by done.
  assert (forall c1, quiet c1 (snd (send_first keccak256 (peer_key peer) peer c1))) as Hfirst by (intros; apply keeps_send_first).
  destruct (sessions_ c !! peer_key peer) as [s|] eqn:Es.
  { apply (Hsets _ _ (keeps_send_in_session (peer_key peer) s peer c)). intros s' -> Hs' _. left. by exists s. }
  destruct (pending_requests_ c !! peer_key peer) as [pending|] eqn:Ep; [destruct (have_challenge pending) eqn:Ec |].
  - apply (Hsets (answered_session c pending peer)).
    + apply (handshake_sends _ _ _ _ (sets_session (peer_key peer) (answered_session c pending peer))); [| by intros; apply sets_kept ..].
      intros s Hs c'. split; [right; by exists s |]. by apply (unchallenged_delete (peer_key peer)).
    + intros s Hs E Hn. right. split; [done |]. exists pending, s. split_and!; try done.
      assert (closes (peer_key peer) c (snd (send_handshake keccak256 fuel local_port (peer_key peer) pending peer c))) as [[?|?] _]; [| done ..].
      apply (handshake_sends _ _ _ _ (closes (peer_key peer))); [| by intros; (split; [by left |]) ..].
      intros s' _ c'. split; [right | intros _]; apply lookup_delete_eq.
  - rewrite (bind_ok _ _ _ tt (with_pending (delete (peer_key peer) (pending_requests_ c)) c)) by done.
    apply (Hsets (fun _ => False)); [| done]. apply quiet_sets. etransitivity; [apply sets_drops | apply Hfirst].
  - apply (Hsets (fun _ => False)); [| done]. apply quiet_sets, Hfirst.
Qed.

Lemma quiet_explained e c c' : quiet c c' -> explained e c c'.
Proof. intros [[E | (? & [] & _)] U] key. split; [by rewrite E | intros p Hp Hc Hn]. destruct Hn. by apply U. Qed.

(** The end of [handle_handshake], after the checks. *)
Lemma handshake_end sender key packet session c c' :
  (modify (fun c => with_sessions (<[key := session]> (sessions_ c)) c) ;;
   or_return (handshake_message session packet)
     (modify (fun c => with_sessions (delete key (sessions_ c)) c) ;; modify (bump inbound_handshake_reject_decrypt_))
     (fun plaintext =>
      modify (bump handshake_packets_) ;;
      modify (fun c => with_challenges (delete key (sent_challenges_ c)) c) ;;
      match plaintext with
      | [] => mret tt
      | msg_type :: body =>
          if msg_type =? kMsgFindNode then
            or_return (parse_findnode_req_id body) (mret tt) (fun req_id =>
            modify (fun c => with_sessions (<[key := with_last_req_id req_id session]> (sessions_ c)) c) ;;
            modify (spawn (AnswerFindNode req_id sender)))
          else mret tt
      end)) c = (Ok tt, c') ->
  pending_requests_ c' = pending_requests_ c
  /\ (((exists plaintext, handshake_message session packet = Ok plaintext) /\ sent_challenges_ c' !! key = None
       /\ exists r, sessions_ c' = <[key := with_last_req_id r session]> (sessions_ c))
      \/ ((exists e, handshake_message session packet = Err (Error e)) /\ sent_challenges_ c' = sent_challenges_ c
          /\ sessions_ c' = delete key (sessions_ c))).
Proof.
  unfold modify at 1. rewrite (bind_ok _ _ _ tt (with_sessions (<[key := session]> (sessions_ c)) c)) by done. intros Hm.
  apply or_return_inv in Hm as [(plaintext & Hp & Hm)|(e & Hp & Hm)].
  - assert (session = with_last_req_id (last_req_id session) session) as Hsame by (by destruct session).
    unfold modify in Hm. do 2 (erewrite bind_ok in Hm by reflexivity).
    destruct plaintext as [|t body]; [| destruct (t =? kMsgFindNode);
      [apply or_return_inv in Hm as [(r & _ & Hm)|(e & _ & Hm)] |]];
      try (injection Hm as <-; (split; [done |]); left; (split_and!; [by eexists | apply lookup_delete_eq |]);
           exists (last_req_id session); by rewrite <- Hsame).
    erewrite bind_ok in Hm by reflexivity. injection Hm as <-. split; [done |]. left.
    split_and!; [by eexists | apply lookup_delete_eq |]. exists r. cbn. by rewrite insert_insert_eq.
  - unfold modify in Hm. erewrite bind_ok in Hm by reflexivity. injection Hm as <-. split; [done |]. right.
    split_and!; [by exists e | done |]. cbn. by rewrite delete_insert_eq.
Qed.

Lemma handshake_explained now data sender packet c c' :
  let received := bump received_packets_ c in
  decode_packet (take (Z.to_nat kMaxPacketBytes) data) (local_node_addr keccak256 c) = Ok packet -> flag packet = kFlagHandshake ->
  handle_handshake keccak256 sender packet received = (Ok tt, c') -> explained (ReceivedDatagram now data sender) c c'.
Proof.
  intros received Hp Hf Hm. set (seen := bump inbound_handshake_seen_ received).
  assert (forall k, explained (ReceivedDatagram now data sender) c (bump k seen)) as Hsame
    by (intros; apply quiet_explained; by apply sets_kept).
  unfold handle_handshake, modify at 1 in Hm. rewrite (bind_ok _ _ _ tt seen) in Hm by done.
  apply or_return_inv in Hm as [(auth & Ha & Hm)|(e & _ & Hm)]; [| by injection Hm as <-].
  rewrite (bind_ok _ _ _ seen seen) in Hm by done.
  destruct (sent_challenges_ seen !! sender_key sender) as [ch|] eqn:Ech; [| by injection Hm as <-].
  destruct (bool_decide_reflect (src_id auth = challenge_node_addr ch)) as [Hsrc|_]; cbn [negb] in Hm; [| by injection Hm as <-].
  unfold check_handshake in Hm. destruct (empty (record auth)); [by injection Hm as <- |].
  apply or_return_inv in Hm as [(raw & Hraw & Hm)|(e & _ & Hm)]; [| by injection Hm as <-].
  apply or_return_inv in Hm as [(rec & Hrec & Hm)|(e & _ & Hm)]; [| by injection Hm as <-].
  destruct (bool_decide_reflect (node_address keccak256 (node_id rec) = src_id auth)) as [Hid|_]; cbn [negb] in Hm; [| by injection Hm as <-].
  destruct (verify_id_signature _ _ _ _ _) eqn:Hsig; cbn [negb] in Hm; [| by injection Hm as <-].
  apply or_return_inv in Hm as [(shared & Hsh & Hm)|(e & _ & Hm)]; [| by injection Hm as <-].
  apply or_return_inv in Hm as [(keys & Hk & Hm)|(e & _ & Hm)]; [| by injection Hm as <-].
  assert (forall r, verified_handshake c (take (Z.to_nat kMaxPacketBytes) data) (sender_key sender)
    (with_last_req_id r (mkSession (snd keys) (fst keys) (src_id auth) (node_id rec) [])) packet auth ch rec) as Hv.
  { intros r. split; try done; [by rewrite Hraw |]. by exists shared, keys. }
  destruct (handshake_end _ _ _ _ _ _ Hm) as [Ep [(Hmsg & Hc & r & Es)|(Hmsg & Hc & Es)]];
    (intros key; split; [| by intros p; rewrite Ep]);
    (destruct (decide (key = sender_key sender)) as [-> | Hne];
      [| by rewrite Es, ?lookup_insert_ne, ?lookup_delete_ne by done]); intros _.
  - eapply PeerHandshake; [done | exact (Hv r) | exact Hmsg | by rewrite Es, lookup_insert_eq | done].
  - eapply UnreadableHandshake; [done | exact (Hv []) | exact Hmsg | by rewrite Es, lookup_delete_eq | done].
Qed.

Lemma whoareyou_explained now data sender packet c c' :
  decode_packet (take (Z.to_nat kMaxPacketBytes) data) (local_node_addr keccak256 c) = Ok packet -> flag packet = kFlagWhoareyou ->
  handle_whoareyou (sender_key sender) packet (bump received_packets_ c) = (Ok tt, c') ->
  explained (ReceivedDatagram now data sender) c c'.
Proof.
  intros Hp Hf Hm. assert (explained (ReceivedDatagram now data sender) c (bump received_packets_ c)) as Hsame
    by (apply quiet_explained; by apply sets_kept).
  unfold handle_whoareyou in Hm. case_match; [by injection Hm as <- |].
  rewrite (bind_ok _ _ _ (bump received_packets_ c) (bump received_packets_ c)) in Hm by done.
  destruct (pending_requests_ (bump received_packets_ c) !! sender_key sender) as [p0|] eqn:Epend; [| by injection Hm as <-].
  destruct (bool_decide_reflect (request_nonce p0 = nonce packet)); cbn [negb] in Hm; [| by injection Hm as <-].
  unfold modify in Hm. do 2 (erewrite bind_ok in Hm by reflexivity). injection Hm as <-. intros key. split; [done |].
  intros p Hin _ Hn. cbn in Hin. destruct (decide (key = sender_key sender)) as [-> | Hne]; [| by rewrite lookup_insert_ne in Hin].
  rewrite lookup_insert_eq in Hin. injection Hin as <-. by exists now, data, sender, packet, p0.
Qed.

Lemma receive_explained now data sender c c' : receive keccak256 now data sender c = (Ok tt, c') ->
  explained (ReceivedDatagram now data sender) c c'.
Proof.
  intros Hm. unfold receive in Hm. case_match; [injection Hm as <-; apply quiet_explained; by apply sets_kept |].
  rewrite (bind_ok _ _ _ tt (bump received_packets_ c)) in Hm by done. unfold handle_packet in Hm.
  rewrite (bind_ok _ _ _ (bump received_packets_ c) (bump received_packets_ c)) in Hm by done.
  apply or_return_inv in Hm as [(packet & Hp & Hm)|(e & _ & Hm)]; [| injection Hm as <-; apply quiet_explained; by apply sets_kept].
  destruct (Z.eqb_spec (flag packet) kFlagWhoareyou); [by eapply whoareyou_explained |].
  destruct (Z.eqb_spec (flag packet) kFlagMessage).
  { apply quiet_explained. transitivity (bump received_packets_ c); [by apply sets_kept |].
    pose proof (keeps_message now sender packet (bump received_packets_ c)) as K. by rewrite Hm in K. }
  destruct (Z.eqb_spec (flag packet) kFlagHandshake); [by eapply handshake_explained |].
  injection Hm as <-. apply quiet_explained. by apply sets_kept.
Qed.

Lemma task_explained i t c c' : ready c !! i = Some t ->
  start_task keccak256 fuel local_port t (with_ready (delete i (ready c)) c) = Ok c' -> explained (TaskRuns i) c c'.
Proof.
  intros Hi Hm. set (c0 := with_ready (delete i (ready c)) c) in *.
  assert (forall c1, snd (run_task keccak256 fuel local_port t c0) = c1 -> sessions_ c' = sessions_ c1 /\ pending_requests_ c' = pending_requests_ c1) as Hend.
  { intros c1 <-. unfold start_task in Hm.
    destruct (run_task _ _ _ _ _) as [[d|[e|]|] c1]; [injection Hm as <- | injection Hm as <- | done ..]; [done |]. by destruct t. }
  assert (forall peer, t = QueryPeer peer \/ t = AnswerChallenge peer -> explained (TaskRuns i) c c') as Hask.
  { intros peer Ht. pose proof (findnode_asks peer c0) as [U K].
    destruct (Hend (snd (send_findnode keccak256 fuel local_port peer c0))) as [Es Ep]; [by destruct Ht as [-> | ->] |].
    intros key. rewrite Es, Ep. split; [| by intros p Hp Hc []; apply U]. intros Hk.
    destruct (K key Hk) as [-> [(s & K1 & K2)|(K1 & pending & s & K2 & K3 & K4 & K5 & K6)]].
    - eapply NextRequest; eauto. by rewrite Es.
    - eapply OwnHandshake; eauto; [by rewrite Es | by rewrite Ep]. }
  destruct t as [peer|peer|sender addr n|req_id sender]; [by eapply Hask; eauto .. | |]; apply quiet_explained;
    (destruct (Hend _ eq_refl) as [Es Ep]; etransitivity; [| by apply sets_kept]).
  - apply (keeps_whoareyou_sent sender addr n c0).
  - apply (keeps_answer req_id sender c0).
Qed.

Lemma explained_loops n k e c c' : explained e c c' -> explained e c (with_loops n k c').
Proof. intros E key. destruct (E key) as [A B]. split; [| exact B]. intros Hn. destruct (A Hn); econstructor; eassumption. Qed.

Lemma round_quiet n : forall c, quiet c (issue_queries n c).
Proof.
  induction n as [|n IH]; intros c; [done |]. cbn [issue_queries].
  destruct (dequeue_next (crawler_ c)) as [[p|] r]; [| done]. etransitivity; [| apply IH]. by apply sets_kept.
Qed.

End authenticated.

(** ** A lost session *)

Section lost.
Context `{AddressText} (keccak256 : bytes -> bytes) `{Secp256k1} `{OpenSsl} (fuel : nat) (local_port : Z).

(** The endpoint [key] has a session with the keys of [s]. *)
Definition has_keys (key : bytes) (s : SessionState) (c : discv5_client) : Prop :=
  exists s', sessions_ c !! key = Some s' /\ write_key s' = write_key s /\ read_key s' = read_key s.

(** The pending requests stay, and so does such a session. *)
Definition same_keys (key : bytes) (s : SessionState) (c c' : discv5_client) : Prop :=
  pending_requests_ c' = pending_requests_ c /\ (has_keys key s c -> has_keys key s c').
#[local] Instance same_keys_preorder key s : PreOrder (same_keys key s).
Proof. split; [by split |]. intros c1 c2 c3 [E1 K1] [E2 K2]. split; [congruence | auto]. Qed.

(** a lost session is not recovered. When a peer has forgotten the session it answers every
    message with a challenge; the client, which has the session and therefore no pending request,
    does not react to the challenge at all. And as long as it has the session, every FINDNODE to
    the peer goes out under the same keys and makes no pending request either, so no challenge
    will ever be answered. *)
Theorem lost_session_ignored now data sender packet c session peer :
  decode_packet data (local_node_addr keccak256 c) = Ok packet -> flag packet = kFlagWhoareyou ->
  pending_requests_ c !! sender_key sender = None -> sessions_ c !! sender_key sender = Some session ->
  peer_key peer = sender_key sender ->
  handle_packet keccak256 now data sender c = (Ok tt, c)
  /\ let c' := snd (send_findnode keccak256 fuel local_port peer c) in
     pending_requests_ c' !! sender_key sender = None
     /\ has_keys (sender_key sender) session c'.
Proof.
  intros Hd Hf Hp Hs Hk. split.
  - unfold handle_packet. rewrite (bind_ok _ _ _ c c) by done. rewrite Hd. cbn [or_return]. rewrite Hf, Z.eqb_refl.
    unfold handle_whoareyou. case_match; [done |]. rewrite (bind_ok _ _ _ c c) by done. by rewrite Hp.
  - assert (same_keys (sender_key sender) session c (snd (send_findnode keccak256 fuel local_port peer c))) as [E K].
    { unfold send_findnode. cbv zeta. rewrite Hk, (bind_ok _ _ _ c c), Hs by done.
      assert (keeps (same_keys (sender_key sender) session)
        (send_in_session keccak256 (sender_key sender) session peer)) as Hkeep; [| apply Hkeep].
      unfold send_in_session, seal_message, encode, random_or_fail, random_bytes, send_packet.
      keeps; try by split. split; [done | intros _]. eexists. cbn. by rewrite lookup_insert_eq. }
    cbn zeta. rewrite E. split; [done |]. apply K. by exists session.
Qed.
End lost.

(** ** Witnesses

    Two clients with the toy functions, and their exchange up to the handshake. *)
#[local] Existing Instances ToySecp.toy ToySecp.toy_laws ToySsl.toy ToySsl.toy_laws EnrSample.address_text.

Module ClientSample.
Definition config_a : discv5Config :=
  mkConfig [127; 0; 0; 1] 9000 30303 (repeat 1 32) (key_id ToySecp.odd_key) [] 8 30 None.
Definition config_b : discv5Config :=
  mkConfig [127; 0; 0; 2] 9001 30304 (repeat 2 32) (key_id ToySecp.even_key) [] 8 30 None.
Definition at_a : Endpoint := mkEndpoint (V4 [127; 0; 0; 1]) [127; 0; 0; 1] 9000.
Definition at_b : Endpoint := mkEndpoint (V4 [127; 0; 0; 2]) [127; 0; 0; 2] 9001.
Definition peer_b : ValidatedPeer := mkPeer (key_id ToySecp.even_key) [127; 0; 0; 2] 9001 30304 0 None.
Definition handle (data : bytes) (e : Endpoint) (c : discv5_client) : discv5_client :=
  snd (handle_packet ToySsl.digest 5 data e c).
(** The last spawned task runs. *)
Definition run_last (udp : Z) (c : discv5_client) : bytes * discv5_client :=
  match ready c !! pred (length (ready c)) with
  | Some t => match run_task ToySsl.digest 3 udp t c with (Ok d, c') => (packet d, c') | (_, c') => ([], c') end
  | None => ([], c)
  end.
Definition s1 := run_last 9000 (spawn (QueryPeer peer_b) (new_client config_a)).
Definition b1 := handle (fst s1) at_a (new_client config_b).
Definition s2 := run_last 9001 b1.
Definition a2 := handle (fst s2) at_b (snd s1).
Definition s3 := run_last 9000 a2.
Definition b3 := handle (fst s3) at_a (snd s2).
Definition session_at (e : Endpoint) (c : discv5_client) : SessionState :=
  default (mkSession [] [] [] [] []) (sessions_ c !! sender_key e).
(** One event of a client that has started. *)
Definition running (c : discv5_client) : discv5_client := with_life true true (with_loops 1 1 c).
Definition next (e : client_event) (c : discv5_client) : discv5_client :=
  match client_step ToySsl.digest 3 9001 e c with Some (Ok c') => c' | _ => c end.
(** The first client starts anew and asks again; the challenge of the other and its answer, whose last
    octet is changed on the way. *)
Definition s5 := run_last 9000 (spawn (QueryPeer peer_b) (with_draws 50 (new_client config_a))).
Definition s6 := run_last 9001 (handle (fst s5) at_a b3).
Definition s7 := run_last 9000 (handle (fst s6) at_b (snd s5)).
Definition damaged : bytes := removelast (fst s7) ++ [Z.lxor 1 (List.last (fst s7) 0)].
(** The peer, without a session again, challenges a message. *)
Definition s4 := run_last 9001 (spawn (SendWhoareyou at_a (ToySsl.digest (key_id ToySecp.odd_key)) (repeat 9 12)) (new_client config_b)).
Definition challenge : PacketView :=
  match decode_packet (fst s4) (ToySsl.digest (key_id ToySecp.odd_key)) with
  | Ok v => v | _ => mkPacket 0 [] 0 [] [] [] end.
End ClientSample.


(** A handshake packet whose message cannot be read takes away the session the endpoint had. *)
Example unreadable_handshake_erases :
  is_Some (sessions_ (snd ClientSample.s6) !! sender_key ClientSample.at_a)
  /\ sessions_ (ClientSample.next (ReceivedDatagram 6 ClientSample.damaged ClientSample.at_a) (ClientSample.running (snd ClientSample.s6)))
       !! sender_key ClientSample.at_a = None
  /\ is_Some (sessions_ (ClientSample.next (ReceivedDatagram 6 (fst ClientSample.s7) ClientSample.at_a) (ClientSample.running (snd ClientSample.s6)))
       !! sender_key ClientSample.at_a).
Proof. split_and!; [eexists | | eexists]; vm_compute; reflexivity. Qed.

(** The other side of a handshake: the client answers the challenge of its request. *)
Example own_handshake_begins :
  sessions_ ClientSample.a2 !! sender_key ClientSample.at_b = None
  /\ is_Some (sessions_ (snd ClientSample.s3) !! sender_key ClientSample.at_b).
Proof. split; [| eexists]; vm_compute; reflexivity. Qed.

Lemma lost_session_ignored_witness :
  handle_packet ToySsl.digest 6 (fst ClientSample.s4) ClientSample.at_b (snd ClientSample.s3) = (Ok tt, snd ClientSample.s3).
Proof.
  apply (lost_session_ignored ToySsl.digest 3 9000 6 (fst ClientSample.s4) ClientSample.at_b ClientSample.challenge
    (snd ClientSample.s3) (ClientSample.session_at ClientSample.at_b (snd ClientSample.s3)) ClientSample.peer_b);
    vm_compute; reflexivity.
Defined.
