(* ===== verification/Discv5Exchange.v ===== *)
(** * Discv5Exchange: what two discv5 clients do to each other

    Theorems on [Discv5Client]: the whole exchange of a first query, a challenge, a handshake and an
    answer ([handshake_completes]); two datagrams of a stranger that end the process
    ([unauthenticated_crash]). *)
From S2P Require Import RlpxCrypto.
From S2P Require Export Discv5Client.
Open Scope Z_scope.

Section exchange.
Context `{AddressText} (keccak256 : bytes -> bytes) `{SL : Secp256k1Laws} `{CL : OpenSslLaws} (fuel : nat).
(** OpenSSL and libsecp256k1 have memory, and digests have 32 octets. *)
Context (Hctx : context_create = true) (Hevp : evp_context = true) (Hkeccak : forall d, is_array 32 (keccak256 d)).

(** ** Packets *)

Lemma random_or_fail_ok n c r : rand_bytes (draws c) n = Some r ->
  random_or_fail n c = (Ok r, with_draws (S (draws c)) c).
Proof. intros E. unfold random_or_fail, random_bytes. erewrite bind_ok by reflexivity. by rewrite E. Qed.

Lemma encode_ok c iv fl nc auth dest :
  rand_bytes (draws c) 16 = Some iv -> uint8 fl -> is_array 12 nc -> bytes_ok auth -> len auth < 2 ^ 16 -> 16 <= len dest ->
  exists front, len front = 39 + len auth /\ forall msg,
    encode fl nc auth msg dest c = (Ok (front ++ msg, unmasked_header iv fl nc auth), with_draws (S (draws c)) c)
    /\ decode_packet (front ++ msg) dest
       = Ok {| flag := fl; nonce := nc; auth_size := len auth; header_data := unmasked_header iv fl nc auth;
               auth_data := auth; msg_data := msg |}.
Proof using CL Hevp.
  intros Hr Hfl Hnc Ha Hl Hd. pose proof (rand_array _ _ _ Hr) as Hiv.
  destruct (encoded_packet iv fl nc auth dest Hiv Hfl Hnc Ha Hl Hd Hevp) as (front & Hf & He).
  exists front. split; [done |]. intros msg. destruct (He msg) as [E D]. split; [| done].
  unfold encode, random_bytes. erewrite bind_ok by reflexivity. change kMaskingIvBytes with 16. rewrite Hr.
  unfold lift. by rewrite E.
Qed.

(** A sealed message opens under the key that sealed it. *)
Lemma seal_ok c iv fl key nc auth text dest :
  rand_bytes (draws c) 16 = Some iv -> uint8 fl -> is_array 12 nc -> bytes_ok auth -> len auth < 2 ^ 16 -> 16 <= len dest ->
  bytes_ok text ->
  exists pkt sealed, seal_message fl key nc auth text dest c = (Ok pkt, with_draws (S (draws c)) c)
  /\ decode_packet pkt dest
     = Ok {| flag := fl; nonce := nc; auth_size := len auth; header_data := unmasked_header iv fl nc auth;
             auth_data := auth; msg_data := sealed |}
  /\ decrypt_gcm key nc sealed (unmasked_header iv fl nc auth) = Ok text.
Proof using CL Hevp.
  intros Hr Hfl Hnc Ha Hl Hd Ht. destruct (encode_ok c iv fl nc auth dest Hr Hfl Hnc Ha Hl Hd) as (front & _ & E).
  set (sealed := gcm_seal key nc (unmasked_header iv fl nc auth) text).
  exists (front ++ sealed), sealed. split_and!.
  - unfold seal_message. erewrite bind_ok by exact (proj1 (E [])). cbn [fst snd].
    unfold lift, encrypt_gcm. rewrite Hevp. cbn [negb]. erewrite bind_ok by reflexivity. by rewrite app_nil_r.
  - apply E.
  - unfold decrypt_gcm. unfold len. pose proof (gcm_length key nc (unmasked_header iv fl nc auth) text) as Hg.
    unfold sealed. rewrite Hg, (proj2 (Z.ltb_ge _ _)) by (change kGcmTagBytes with 16; lia).
    by rewrite Hevp, gcm_roundtrip.
Qed.

Lemma node_address_array id : is_array 32 (node_address keccak256 id).
Proof using Hkeccak. apply Hkeccak. Qed.
Lemma node_address_len id : len (node_address keccak256 id) = 32.
Proof using Hkeccak. unfold len. by rewrite (proj1 (node_address_array id)). Qed.
Lemma node_address_octets id : bytes_ok (node_address keccak256 id).
Proof using Hkeccak. apply node_address_array. Qed.
Hint Resolve node_address_octets : octets.

(** A handler that starts with the decoding of its packet. *)
Lemma handle_packet_decoded now data sender c p :
  decode_packet data (local_node_addr keccak256 c) = Ok p ->
  handle_packet keccak256 now data sender c
  = (if flag p =? kFlagWhoareyou then handle_whoareyou (sender_key sender) p
     else if flag p =? kFlagMessage then handle_message keccak256 now sender p
     else if flag p =? kFlagHandshake then handle_handshake keccak256 sender p
     else mret tt) c.
Proof. intros Hp. unfold handle_packet. rewrite (bind_ok _ _ _ c c) by done. by rewrite Hp. Qed.

(** One lemma for each kind of packet. *)
#[local] Ltac dispatch H := rewrite (handle_packet_decoded _ _ _ _ _ H); match goal with E : flag _ = _ |- _ => by rewrite E end.

Lemma handle_packet_message now data sender c p :
  decode_packet data (local_node_addr keccak256 c) = Ok p -> flag p = kFlagMessage ->
  handle_packet keccak256 now data sender c = handle_message keccak256 now sender p c.
Proof. intros Hp Hf. dispatch Hp. Qed.
Lemma handle_packet_whoareyou now data sender c p :
  decode_packet data (local_node_addr keccak256 c) = Ok p -> flag p = kFlagWhoareyou ->
  handle_packet keccak256 now data sender c = handle_whoareyou (sender_key sender) p c.
Proof. intros Hp Hf. dispatch Hp. Qed.
Lemma handle_packet_handshake now data sender c p :
  decode_packet data (local_node_addr keccak256 c) = Ok p -> flag p = kFlagHandshake ->
  handle_packet keccak256 now data sender c = handle_handshake keccak256 sender p c.
Proof. intros Hp Hf. dispatch Hp. Qed.

(** ** Challenges *)

(** A message from an endpoint without a session is challenged. *)
Lemma message_unknown now sender p c :
  len (auth_data p) = 32 -> auth_size p = 32 -> sessions_ c !! sender_key sender = None ->
  handle_message keccak256 now sender p c
  = (Ok tt, spawn (SendWhoareyou sender (auth_data p) (nonce p)) (bump inbound_message_seen_ c)).
Proof.
  intros Ha Hs Hn. unfold handle_message, modify at 1. erewrite bind_ok by reflexivity. rewrite Hs.
  change (negb (32 =? kMessageAuthDataBytes)) with false. cbv iota. erewrite bind_ok by reflexivity.
  change (sessions_ (bump inbound_message_seen_ c)) with (sessions_ c). rewrite Hn.
  change kKeccak256Bytes with 32. rewrite <- Ha, take_len. done.
Qed.

Lemma append_u64_ok : append_u64_be 0 = repeat 0 8.
Proof. reflexivity. Qed.

(** The challenge is remembered with the header of its packet. *)
Lemma send_whoareyou_ok sender addr nc c idn iv :
  rand_bytes (draws c) 16 = Some idn -> rand_bytes (S (draws c)) 16 = Some iv -> is_array 12 nc -> is_array 32 addr ->
  let header := unmasked_header iv kFlagWhoareyou nc (idn ++ repeat 0 8) in
  exists pkt, send_whoareyou sender addr nc c
    = (Ok (mkDatagram pkt (address sender, port sender) false),
       with_challenges (<[sender_key sender := mkChallenge addr header nc idn 0]> (sent_challenges_ c))
         (with_draws (S (S (draws c))) c))
  /\ decode_packet pkt addr = Ok {| flag := kFlagWhoareyou; nonce := nc; auth_size := 24; header_data := header;
                                    auth_data := idn ++ repeat 0 8; msg_data := [] |}.
Proof using CL Hevp.
  intros Hi Hr Hnc [Ha _] header. pose proof (rand_array _ _ _ Hi) as [Hil Hio]. change (Z.to_nat 16) with 16%nat in Hil.
  assert (len (idn ++ repeat 0 8) = 24) as Hal by (rewrite len_app; unfold len; rewrite Hil; done).
  destruct (encode_ok (with_draws (S (draws c)) c) iv kFlagWhoareyou nc (idn ++ repeat 0 8) addr Hr) as (front & Hf & E);
    [octets | done | apply bytes_ok_app; split; [done | octets] | lia | unfold len; lia |].
  exists front. destruct (E []) as [E1 E2]. rewrite app_nil_r, Hal in *. split; [| done].
  unfold send_whoareyou. rewrite (bind_ok _ _ _ _ _ (random_or_fail_ok _ _ _ Hi)). cbv zeta. rewrite append_u64_ok.
  erewrite bind_ok by exact E1. unfold modify. by erewrite bind_ok by reflexivity.
Qed.
Lemma byte_at_app u v i n : len u = n -> 0 <= i -> byte_at (u ++ v) (n + i) = byte_at v i.
Proof. intros <- Hi. unfold byte_at, len. rewrite app_nth2 by lia. f_equal. lia. Qed.

(** The auth data of a handshake, read back. *)
Lemma parse_handshake_auth_ok src sig pub rec :
  len src = 32 -> len sig < 256 -> len pub < 256 ->
  parse_handshake_auth (src ++ [len sig; len pub] ++ sig ++ pub ++ rec)
  = Ok {| src_id := src; signature := sig; pubkey := pub; record := rec |}.
Proof.
  intros Hs Hg Hp. pose proof (len_nonneg sig). pose proof (len_nonneg pub). pose proof (len_nonneg rec).
  unfold parse_handshake_auth.
  assert (byte_at (src ++ [len sig; len pub] ++ sig ++ pub ++ rec) kHandshakeAuthSigSizeOffset = len sig) as ->
    by exact (byte_at_app src _ 0 32 Hs ltac:(lia)).
  assert (byte_at (src ++ [len sig; len pub] ++ sig ++ pub ++ rec) kHandshakeAuthPubkeySizeOffset = len pub) as ->
    by exact (byte_at_app src _ 1 32 Hs ltac:(lia)).
  assert (len (src ++ [len sig; len pub] ++ sig ++ pub ++ rec) = 34 + len sig + len pub + len rec) as ->
    by (rewrite !len_app, Hs; change (len [len sig; len pub]) with 2; lia).
  change kHandshakeAuthFixedBytes with 34. rewrite !(proj2 (Z.ltb_ge _ _)) by lia.
  change kKeccak256Bytes with 32. rewrite <- Hs at 1. rewrite take_len_app. f_equal. f_equal.
  - rewrite app_assoc. apply substr_app; [rewrite len_app, Hs; done | done].
  - rewrite 2 app_assoc. apply substr_app; [rewrite !len_app, Hs; change (len [len sig; len pub]) with 2; lia | done].
  - rewrite 3 app_assoc.
    replace (34 + len sig + len pub) with (len (((src ++ [len sig; len pub]) ++ sig) ++ pub)); [apply drop_len_app |].
    rewrite !len_app, Hs. change (len [len sig; len pub]) with 2. lia.
Qed.

(** ** A stranger *)

(** A record without items, and 66 octets after it. *)
Definition overrun : bytes := [0xc0; 0xb8; 0x40] ++ repeat 1 64.

Lemma handshake_overrun sender p c ch :
  parse_handshake_auth (auth_data p) = Ok (mkHandshakeAuth (challenge_node_addr ch) [] [] overrun) ->
  sent_challenges_ c !! sender_key sender = Some ch ->
  fst (handle_handshake keccak256 sender p c) = Err Lost.
Proof.
  intros Hp Hc. unfold handle_handshake, modify at 1. erewrite bind_ok by reflexivity. rewrite Hp. cbn [or_return].
  erewrite bind_ok by reflexivity. change (sent_challenges_ (bump inbound_handshake_seen_ c)) with (sent_challenges_ c).
  rewrite Hc. cbn [src_id]. rewrite bool_decide_true by done. cbn [negb]. unfold check_handshake. cbn [record].
  assert (decode_rlp overrun = Err Lost) as -> by (vm_compute; reflexivity). reflexivity.
Qed.

(** C31: two datagrams of a stranger end the process. Whatever the state of a running client, an endpoint
    without a session sends a message packet, which the client answers with a challenge, and then a
    handshake packet for that challenge, whose record makes the decoder read outside its buffer.
    The stranger needs no key: the record is decoded before any signature is checked. *)
Theorem unauthenticated_crash local_port now sender c idn iv n :
  receive_loops c = S n -> client_running c = true -> sessions_ c !! sender_key sender = None ->
  rand_bytes (draws c) 16 = Some idn -> rand_bytes (S (draws c)) 16 = Some iv ->
  exists d1 d2, client_run keccak256 fuel local_port
    [ReceivedDatagram now d1 sender; TaskRuns (length (ready c)); ReceivedDatagram now d2 sender] c = Some (Err Lost).
Proof using CL Hevp Hkeccak.
  intros Hn Hrun Hs Hi Hr. set (x := repeat 7 32). set (nc := repeat 0 12).
  set (auth := x ++ [0; 0] ++ [] ++ [] ++ overrun). set (local := local_node_addr keccak256 c).
  assert (16 <= len local) as Hl by (unfold local, local_node_addr; rewrite node_address_len; lia).
  destruct (encoded_packet (repeat 0 16) kFlagMessage nc x local) as (f1 & Hf1 & E1); [octets | done | octets | octets | done | done | done |].
  destruct (encoded_packet (repeat 0 16) kFlagHandshake nc auth local) as (f2 & Hf2 & E2); [octets | done | octets | octets | done | done | done |].
  destruct (E1 []) as [_ D1]. destruct (E2 []) as [_ D2]. rewrite app_nil_r in *.
  change (39 + len x) with 71 in Hf1. change (39 + len auth) with 140 in Hf2.
  exists f1, f2.
  assert (forall f : bytes, 63 <= len f <= 1280 -> take (Z.to_nat kMaxPacketBytes) f = f /\ (len f <? kMinPacketBytes) = false) as Hsize.
  { intros f Hf. split; [apply take_ge; unfold len in Hf; change (Z.to_nat kMaxPacketBytes) with 1280%nat; lia | apply Z.ltb_ge; apply Hf]. }
  set (c1 := spawn (SendWhoareyou sender x nc) (bump inbound_message_seen_ (bump received_packets_ c))).
  assert (receive keccak256 now f1 sender c = (Ok tt, c1)) as R1.
  { unfold receive. destruct (Hsize f1 ltac:(lia)) as [-> ->]. unfold modify at 1. erewrite bind_ok by reflexivity.
    rewrite (handle_packet_message now f1 sender (bump received_packets_ c) _ D1) by done. by rewrite message_unknown. }
  destruct (send_whoareyou_ok sender x nc (with_ready (ready c) c1) idn iv Hi Hr ltac:(octets) ltac:(octets)) as (pkt & W & _).
  cbn [client_run client_step]. rewrite Hn, R1. cbn [obind]. change (client_running c1) with (client_running c). rewrite Hrun.
  cbn [client_run client_step]. change (ready c1) with (ready c ++ [SendWhoareyou sender x nc]).
  rewrite list_lookup_middle by done. unfold start_task. cbn [run_task].
  assert (delete (length (ready c)) (ready c ++ [SendWhoareyou sender x nc]) = ready c) as ->
    by (rewrite delete_middle; apply app_nil_r).
  rewrite W. cbn [client_run client_step]. match goal with |- context [receive keccak256 now f2 sender ?c2] => set (c3 := c2) end.
  assert (fst (receive keccak256 now f2 sender c3) = Err Lost) as R2.
  { unfold receive. destruct (Hsize f2 ltac:(lia)) as [-> ->]. unfold modify at 1. erewrite bind_ok by reflexivity.
    rewrite (handle_packet_handshake now f2 sender (bump received_packets_ c3) _ D2) by done.
    apply (handshake_overrun _ _ _ (mkChallenge x (unmasked_header iv kFlagWhoareyou nc (idn ++ repeat 0 8)) nc idn 0)).
    - cbn [auth_data challenge_node_addr]. by apply (parse_handshake_auth_ok x [] [] overrun).
    - cbn. by rewrite lookup_insert_eq. }
  change (receive_loops c3) with (receive_loops c). rewrite Hn.
  destruct (receive keccak256 now f2 sender c3) as [r c4]. cbn in R2. subst r. reflexivity.
Qed.
(** ** A handshake, packet by packet *)

Context (Hrand : forall i n, is_Some (rand_bytes i n)).

(** The client's state after some draws, in the order of the draws. *)
Lemma rand_some i n : 0 <= n -> exists r, rand_bytes i n = Some r /\ is_array (Z.to_nat n) r.
Proof using CL Hrand. intros Hn. destruct (Hrand i n) as [r Hr]. exists r. split; [done | by apply rand_array in Hr]. Qed.

(** The first query: octets nobody can read, under a nonce that is remembered. *)
Lemma first_query local_port a p x :
  sessions_ a !! peer_key p = None -> pending_requests_ a !! peer_key p = None -> make_address (peer_ip p) = Some x ->
  exists nc pkt h msg, is_array 12 nc
  /\ send_findnode keccak256 fuel local_port p a
     = (Ok (mkDatagram pkt (x, peer_udp_port p) false),
        with_draws (3 + draws a) (with_pending (<[peer_key p := mkPending p (request_id p) nc [] (repeat 0 16) 0 false]>
          (pending_requests_ a)) a))
  /\ decode_packet pkt (node_address keccak256 (peer_node_id p))
     = Ok {| flag := kFlagMessage; nonce := nc; auth_size := 32; header_data := h;
             auth_data := local_node_addr keccak256 a; msg_data := msg |}.
Proof using CL Hevp Hkeccak Hrand.
  intros Hs Hp Hx. destruct (rand_some (draws a) 12 ltac:(lia)) as (nc & Hnc & Hna).
  destruct (rand_some (S (draws a)) 20 ltac:(lia)) as (msg & Hmsg & _).
  destruct (rand_some (S (S (draws a))) 16 ltac:(lia)) as (iv & Hiv & _).
  set (pend := with_pending (<[peer_key p := mkPending p (request_id p) nc [] (repeat 0 16) 0 false]> (pending_requests_ a))
                 (with_draws (S (draws a)) a)).
  destruct (encode_ok (with_draws (S (draws pend)) pend) iv kFlagMessage nc (local_node_addr keccak256 a)
    (node_address keccak256 (peer_node_id p)) Hiv) as (front & _ & E);
    [octets | done | apply node_address_octets | unfold local_node_addr; rewrite node_address_len; done
    | rewrite node_address_len; done |].
  destruct (E msg) as [E1 E2]. assert (len (local_node_addr keccak256 a) = 32) as Hl by apply node_address_len. rewrite Hl in E2.
  exists nc, (front ++ msg), (unmasked_header iv kFlagMessage nc (local_node_addr keccak256 a)), msg.
  split_and!; [done | | exact E2].
  unfold send_findnode. cbv zeta. rewrite (bind_ok _ _ _ a a), Hs, Hp by done.
  unfold send_first. rewrite (bind_ok _ _ _ a a) by done.
  rewrite (bind_ok _ _ _ _ _ (random_or_fail_ok 12 a nc Hnc)). unfold modify at 1. erewrite bind_ok by reflexivity.
  change (with_pending _ (with_draws (S (draws a)) a)) with pend.
  rewrite (bind_ok _ _ _ _ _ (random_or_fail_ok 20 pend msg Hmsg)). unfold on_error, make_message_auth_data.
  erewrite bind_ok by (rewrite E1; reflexivity). cbn [fst]. unfold send_packet. by rewrite Hx.
Qed.

(** The client takes the challenge to its own nonce. *)
Lemma whoareyou_taken key p pend c :
  pending_requests_ c !! key = Some pend -> request_nonce pend = nonce p -> auth_size p = 24 ->
  handle_whoareyou key p c
  = (Ok tt, spawn (AnswerChallenge (pending_peer pend)) (bump whoareyou_packets_
       (with_pending (<[key := mkPending (pending_peer pend) (req_id pend) (request_nonce pend) (header_data p)
          (take 16 (auth_data p)) (read_u64_be (drop 16 (auth_data p))) true]> (pending_requests_ c)) c))).
Proof.
  intros Hp Hn Ha. unfold handle_whoareyou. rewrite Ha. change (negb (24 =? kWhoareyouAuthDataBytes)) with false. cbv iota.
  rewrite (bind_ok _ _ _ c c), Hp by done. rewrite bool_decide_true by done. cbn [negb]. unfold modify.
  by do 2 (erewrite bind_ok by reflexivity).
Qed.

(** A client whose configuration is usable. *)
Record party (c : discv5_client) (udp : Z) (pk : Pubkey) (a : ip_address) : Prop := {
  party_config : config_ok (client_config c) pk a;
  party_port : 0 < udp < 65536;
  party_open : socket_open c = true
}.

Lemma build_local_enr_ok c udp pk a : party c udp pk a ->
  exists it r, (forall c', client_config c' = client_config c -> socket_open c' = socket_open c ->
      build_local_enr keccak256 udp c' = (Ok (rlp it), c')) /\ item_ok it /\ len (rlp it) <= 300
  /\ obind (decode_rlp (rlp it)) (verified keccak256) = Ok r /\ node_id r = public_key (client_config c)
  /\ ip r = address_v4_to_string (local_ip a) /\ tcp_port r = local_tcp (client_config c) udp /\ udp_port r = udp
  /\ eth_fork_id r = None.
Proof using SL Hctx.
  intros [Hc Hu Ho]. destruct (local_enr_ok keccak256 (client_config c) pk a udp Hctx Hc Hu)
    as (it & r & H1 & H2 & H3 & _ & H4 & H5 & _ & _ & H6 & H7 & H8 & H9).
  exists it, r. split_and!; try done. intros c' E1 E2. unfold build_local_enr. by rewrite E1, E2, Ho, H1.
Qed.

Lemma request_id_ok p : bytes_ok (request_id p) /\ len (request_id p) = 4.
Proof.
  split; [| done]. assert (forall x, uint8 (u8 x)) as Hu by (intros; apply Z.mod_pos_bound; lia).
  repeat constructor; apply Hu.
Qed.

Lemma ephemeral_ok c j ek epk : (j < fuel)%nat -> finds_key (draws c) j ek -> ec_pubkey_create ek = Some epk ->
  ephemeral_keypair fuel c = (Ok (Ecdh.mkKeyPair (key_id epk) ek), with_draws (S (draws c + j)) c).
Proof using SL CL Hctx.
  intros Hj Hek Hepk. unfold ephemeral_keypair, Ecdh.generate_ephemeral_keypair. rewrite Hctx. cbn [negb]. unfold_m.
  rewrite (draw_private_key_ok j ek) by done. by rewrite Hepk.
Qed.

(** What a handshake packet proves to the peer with the key [kB], who sent the challenge [cd]. *)
Record proves (idA cd addrB eph sig rec kB : bytes) (k1 k2 : bytes) : Prop := {
  pv_sizes : len sig = 64 /\ len eph = 33;
  pv_record : exists raw, decode_rlp rec = Ok raw /\ exists r, verified keccak256 raw = Ok r /\ node_id r = idA;
  pv_some : empty rec = false;
  pv_signature : verify_id_signature idA sig cd eph addrB = true;
  pv_keys : exists shared, shared_secret_from_compressed_pubkey eph kB = Ok shared
            /\ derive_session_keys shared cd (node_address keccak256 idA) addrB = Ok (k1, k2)
}.

Lemma handshake_proves cfg pkA ipA it r epk s kB cd addrB sig rid k1 k2 :
  config_ok cfg pkA ipA -> obind (decode_rlp (rlp it)) (verified keccak256) = Ok r -> node_id r = public_key cfg ->
  ec_pubkey_tweak_mul epk kB = Some s -> is_array 64 sig ->
  let eph := ec_pubkey_serialize true epk in
  ecdsa_sign_recoverable (id_digest cd eph addrB) (private_key cfg) = Some (sig, rid) ->
  derive_session_keys (ec_pubkey_serialize true s) cd (node_address keccak256 (public_key cfg)) addrB = Ok (k1, k2) ->
  proves (public_key cfg) cd addrB eph sig (rlp it) kB k1 k2.
Proof using SL Hctx.
  intros Hcfg Hdec Hid Hs [Hsl _] eph Hsig Hkeys.
  destruct (sign_verify _ _ _ _ pkA Hsig (cfg_key _ _ _ Hcfg)) as (sg & Hsg & Hver).
  assert (len sig = 64) as Hsl' by (unfold len; by rewrite Hsl).
  assert (len eph = 33) as Hel by (unfold len, eph; by rewrite (serialize_length true)).
  split.
  - done.
  - destruct (decode_rlp (rlp it)) as [raw| |]; [| done ..]. exists raw. split; [done |]. by exists r.
  - destruct (rlp it) eqn:E; [| done]. pose proof (rlp_nonempty it) as Hne. by rewrite E, len_nil in Hne.
  - unfold verify_id_signature. rewrite Hsl'. change (negb (64 =? kEnrSigBytes)) with false. cbv iota.
    rewrite Hctx, (cfg_id _ _ _ Hcfg). cbn [negb]. unfold parse_node_id. change kUncompressedPubKeyPrefix with 0x04.
    by rewrite (proj1 (parse_key_id pkA)), Hsg.
  - exists (ec_pubkey_serialize true s). split; [| done]. unfold shared_secret_from_compressed_pubkey, shared_secret.
    rewrite Hel. change (negb (33 =? kCompressedKeyBytes)) with false. cbv iota. rewrite Hctx. cbn [negb].
    unfold eph. by rewrite parse_serialize, Hs.
Qed.

(** The answer to a challenge: the session, and a packet that proves it. *)
Lemma handshake_sent c udp pkA ipA key p pend kB pkB j ek x :
  party c udp pkA ipA -> peer_node_id (pending_peer pend) = peer_node_id p -> peer_node_id p = key_id pkB ->
  ec_pubkey_create kB = Some pkB -> record_seq pend = 0 -> bytes_ok (req_id pend) -> len (req_id pend) < 256 ->
  (j < fuel)%nat -> finds_key (draws c) j ek -> make_address (peer_ip p) = Some x ->
  let addrA := local_node_addr keccak256 c in
  let addrB := node_address keccak256 (peer_node_id p) in
  exists k1 k2 eph sig rec pkt nc h sealed body n,
  proves (public_key (client_config c)) (challenge_data pend) addrB eph sig rec kB k1 k2
  /\ send_handshake keccak256 fuel udp key pend p c
     = (Ok (mkDatagram pkt (x, peer_udp_port p) true),
        with_pending (delete key (pending_requests_ c))
          (with_sessions (<[key := mkSession k1 k2 addrB (peer_node_id p) (req_id pend)]> (sessions_ c))
            (with_draws n (bump outbound_handshake_attempts_ c))))
  /\ decode_packet pkt addrB
     = Ok {| flag := kFlagHandshake; nonce := nc; auth_size := len (addrA ++ [len sig; len eph] ++ sig ++ eph ++ rec);
             header_data := h; auth_data := addrA ++ [len sig; len eph] ++ sig ++ eph ++ rec; msg_data := sealed |}
  /\ decrypt_gcm k1 nc sealed h = Ok (kMsgFindNode :: body) /\ parse_findnode_req_id body = Ok (req_id pend).
Proof using SL CL Hctx Hevp Hkeccak Hrand.
  intros Hp Epend EB HkB Hseq Hro Hrl Hj Hek Hx addrA addrB.
  pose proof Hek as (_ & _ & Hvek). destruct (seckey_pair ek Hvek) as [epk Hepk].
  destruct (tweak_commutes _ _ _ _ Hepk HkB) as (s & Hs1 & Hs2).
  destruct (build_local_enr_ok _ _ _ _ Hp) as (it & r & Henr & Hio & Hil & Hdec & Hid & _).
  pose proof (party_config _ _ _ _ Hp) as Hcfg.
  set (eph := ec_pubkey_serialize true epk). set (cd := challenge_data pend).
  assert (is_array 33 eph) as [Hel Heo] by (split; [apply (serialize_length true) | apply serialize_octets]).
  destruct (cfg_sign _ _ _ Hcfg (id_digest cd eph addrB)) as [[sig rid] Hsig].
  destruct (sign_length _ _ _ _ Hsig) as [Hsl Hso].
  destruct (findnode_ok (req_id pend) Hro ltac:(lia)) as (body & Hmake & Hbo & Hparse).
  destruct (derive_session_keys (ec_pubkey_serialize true s) cd addrA addrB) as [[k1 k2]| |] eqn:Hkeys; [| done ..].
  set (c1 := with_draws (S (draws c + j)) (bump outbound_handshake_attempts_ c)).
  destruct (rand_some (draws c1) 12 ltac:(lia)) as (nc & Hnc & Hna).
  destruct (rand_some (S (draws c1)) 16 ltac:(lia)) as (iv & Hiv & _).
  set (auth := addrA ++ [len sig; len eph] ++ sig ++ eph ++ rlp it).
  assert (len sig = 64 /\ len eph = 33) as [Hsl' Hel'] by (split; unfold len; [rewrite Hsl | rewrite Hel]; done).
  assert (len auth = 131 + len (rlp it)) as Hal.
  { unfold auth. rewrite !len_app, Hsl', Hel'. unfold addrA, local_node_addr. rewrite node_address_len.
    change (len [64; 33]) with 2. lia. }
  pose proof (len_nonneg (rlp it)). assert (bytes_ok auth) as Hao.
  { unfold auth. rewrite !bytes_ok_app. split_and!; [apply node_address_octets | rewrite Hsl', Hel'; octets | done | done |].
    apply rlp_ok; [done | lia]. }
  destruct (seal_ok (with_draws (S (draws c1)) c1) iv kFlagHandshake k1 nc auth (kMsgFindNode :: body) addrB Hiv)
    as (pkt & sealed & Hseal & Hdp & Hopen);
    [octets | done | done | lia | unfold addrB; rewrite node_address_len; done | by constructor |].
  exists k1, k2, eph, sig, (rlp it), pkt, nc, (unmasked_header iv kFlagHandshake nc auth), sealed, body, (S (S (draws c1))).
  split_and!; [| | exact Hdp | exact Hopen | exact Hparse].
  - by apply (handshake_proves _ pkA ipA it r epk s kB cd addrB sig rid).
  - unfold send_handshake, modify at 1. erewrite bind_ok by reflexivity. unfold on_error.
    assert (build_handshake keccak256 fuel udp key pend p (bump outbound_handshake_attempts_ c)
      = (Ok pkt, with_pending (delete key (pending_requests_ c))
          (with_sessions (<[key := mkSession k1 k2 addrB (peer_node_id p) (req_id pend)]> (sessions_ c))
            (with_draws (S (S (draws c1))) (bump outbound_handshake_attempts_ c))))) as Hbuild;
      [| by rewrite (bind_ok _ _ _ _ _ Hbuild); unfold send_packet; rewrite Hx].
    unfold build_handshake. erewrite bind_ok by reflexivity. cbv zeta.
    rewrite (bind_ok _ _ _ _ _ (ephemeral_ok (bump outbound_handshake_attempts_ c) j ek epk Hj Hek Hepk)).
    change (with_draws _ _) with c1 at 1. cbn [Ecdh.public_key Ecdh.private_key].
    erewrite bind_ok by (unfold lift; rewrite compress_key_id by done; reflexivity). fold eph.
    erewrite bind_ok by (unfold lift, make_id_signature; rewrite Hctx; cbn [negb];
      change (private_key (client_config (bump outbound_handshake_attempts_ c))) with (private_key (client_config c));
      fold cd addrB; rewrite Hsig; reflexivity).
    rewrite Hseq. change (0 <? kInitialEnrSeq) with true. cbv iota.
    erewrite bind_ok by (apply Henr; reflexivity).
    erewrite bind_ok by (unfold lift, shared_secret_from_uncompressed_pubkey, shared_secret; rewrite Hctx, Epend, EB; cbn [negb];
      unfold parse_node_id; change kUncompressedPubKeyPrefix with 0x04; rewrite (proj1 (parse_key_id pkB)), Hs2; reflexivity).
    change (local_node_addr keccak256 (bump outbound_handshake_attempts_ c)) with addrA. fold cd addrB.
    erewrite bind_ok by (unfold lift; rewrite Hkeys; reflexivity).
    erewrite bind_ok by (unfold lift; rewrite Hmake; reflexivity). cbn [fst snd].
    rewrite (bind_ok _ _ _ _ _ (random_or_fail_ok 12 c1 nc Hnc)).
    assert (u8 (len sig) = len sig /\ u8 (len eph) = len eph) as [-> ->] by (rewrite Hsl', Hel'; done). fold auth.
    rewrite (bind_ok _ _ _ _ _ Hseal). unfold modify. erewrite bind_ok by reflexivity. rewrite Epend. reflexivity.
Qed.
(** What stays of a client while it handles a packet. *)
Record same_party (c c' : discv5_client) : Prop := {
  sp_config : client_config c' = client_config c;
  sp_open : socket_open c' = socket_open c;
  sp_draws : draws c' = draws c;
  sp_crawler : crawler_ c' = crawler_ c
}.

(** The peer accepts what is proved to it, and has the same keys the other way round. *)
Lemma handshake_received sender p c ch idA eph sig rec k1 k2 body rid :
  sent_challenges_ c !! sender_key sender = Some ch -> challenge_node_addr ch = node_address keccak256 idA ->
  auth_data p = node_address keccak256 idA ++ [len sig; len eph] ++ sig ++ eph ++ rec ->
  proves idA (sent_challenge_data ch) (local_node_addr keccak256 c) eph sig rec (private_key (client_config c)) k1 k2 ->
  decrypt_gcm k1 (nonce p) (msg_data p) (header_data p) = Ok (kMsgFindNode :: body) -> parse_findnode_req_id body = Ok rid ->
  exists c', handle_handshake keccak256 sender p c = (Ok tt, spawn (AnswerFindNode rid sender) c') /\ same_party c c'
  /\ sessions_ c' !! sender_key sender = Some (mkSession k2 k1 (node_address keccak256 idA) idA rid).
Proof using SL CL Hctx Hevp Hkeccak Hrand.
  intros Hch Haddr Hauth [[Hsl Hel] (raw & Hraw & r & Hr & Hid) Hne Hsig (shared & Hsh & Hkeys)] Hopen Hparse.
  eexists. split; [| split].
  - unfold handle_handshake, modify at 1. erewrite bind_ok by reflexivity. rewrite Hauth.
    rewrite parse_handshake_auth_ok by (rewrite ?node_address_len, ?Hsl, ?Hel; done). cbn [or_return].
    erewrite bind_ok by reflexivity. change (sent_challenges_ (bump inbound_handshake_seen_ c)) with (sent_challenges_ c).
    rewrite Hch. cbn [src_id]. rewrite bool_decide_true by done. cbn [negb]. unfold check_handshake.
    cbn [record signature pubkey src_id]. rewrite Hne, Hraw. cbn [or_return]. rewrite Hr. cbn [or_return].
    rewrite Hid, bool_decide_true by done. cbn [negb].
    change (local_node_addr keccak256 (bump inbound_handshake_seen_ c)) with (local_node_addr keccak256 c).
    change (client_config (bump inbound_handshake_seen_ c)) with (client_config c).
    rewrite Hsig. cbn [negb]. rewrite Hsh. cbn [or_return]. rewrite Hkeys. cbn [or_return fst snd].
    unfold modify at 1. erewrite bind_ok by reflexivity. cbn [read_key]. rewrite Hopen. cbn [or_return].
    unfold modify. do 2 (erewrite bind_ok by reflexivity). rewrite Z.eqb_refl, Hparse. cbn [or_return].
    erewrite bind_ok by reflexivity. reflexivity.
  - done.
  - cbn. by rewrite lookup_insert_eq.
Qed.

(** The answer to a request: the responder's own record. *)
Lemma findnode_answered c udp pk ip sender rid s x now :
  party c udp pk ip -> sessions_ c !! sender_key sender = Some s -> len (remote_node_addr s) = 32 ->
  bytes_ok rid -> len rid < 256 -> make_address (address_text sender) = Some x ->
  empty (address_v4_to_string (local_ip ip)) = false ->
  exists pkt c' nc h sealed body,
  handle_findnode_request keccak256 udp rid sender c = (Ok (mkDatagram pkt (x, port sender) false), c')
  /\ sessions_ c' = sessions_ c
  /\ decode_packet pkt (remote_node_addr s)
     = Ok {| flag := kFlagMessage; nonce := nc; auth_size := 32; header_data := h;
             auth_data := local_node_addr keccak256 c; msg_data := sealed |}
  /\ decrypt_gcm (write_key s) nc sealed h = Ok (kMsgNodes :: body)
  /\ parse_nodes_message keccak256 now body
     = Ok (rid, [mkPeer (public_key (client_config c)) (address_v4_to_string (local_ip ip)) udp
                   (local_tcp (client_config c) udp) now None]).
Proof using SL CL Hctx Hevp Hkeccak Hrand.
  intros Hp Hs Hrl Hro Hl Hx Hip. destruct (build_local_enr_ok _ _ _ _ Hp) as (it & r & Henr & Hio & Hil & Hdec & Hid & Hrip & Htcp & Hudp & Hfork).
  pose proof (len_nonneg rid). pose proof (len_nonneg (rlp it)).
  destruct (nodes_item_ok rid 1 [it] Hro ltac:(by repeat constructor) ltac:(rewrite <- rlps_one; lia) ltac:(by split)) as (Hbo & _).
  destruct (rand_some (draws c) 12 ltac:(lia)) as (nc & Hnc & Hna).
  destruct (rand_some (S (draws c)) 16 ltac:(lia)) as (iv & Hiv & _).
  assert (len (local_node_addr keccak256 c) = 32) as Hla by apply node_address_len.
  destruct (seal_ok (with_draws (S (draws c)) c) iv kFlagMessage (write_key s) nc (local_node_addr keccak256 c)
    (kMsgNodes :: rlp (Lst [Str rid; uint_item 1; Lst [it]])) (remote_node_addr s) Hiv) as (pkt & sealed & Hseal & Hdp & Hopen);
    [octets | done | apply node_address_octets | lia | lia | by constructor |]. rewrite Hla in Hdp.
  eexists pkt, _, nc, _, sealed, _. split_and!; [| | exact Hdp | exact Hopen |].
  - unfold handle_findnode_request. erewrite bind_ok by reflexivity. rewrite Hs.
    erewrite bind_ok by (apply Henr; reflexivity).
    erewrite bind_ok by (unfold lift; rewrite nodes_made by lia; reflexivity).
    rewrite (bind_ok _ _ _ _ _ (random_or_fail_ok 12 c nc Hnc)). unfold make_message_auth_data.
    rewrite (bind_ok _ _ _ _ _ Hseal). unfold send_packet. cbn [peer_ip peer_udp_port]. rewrite Hx. reflexivity.
  - done.
  - assert (node_of keccak256 now (rlp it) = Ok (mkPeer (public_key (client_config c)) (address_v4_to_string (local_ip ip)) udp
                   (local_tcp (client_config c) udp) now None)) as Hn.
    { unfold node_of. rewrite Hdec. cbn [obind]. unfold to_validated_peer. rewrite Hrip, Hip. cbn [negb andb].
      rewrite Hid, Htcp, Hudp, Hfork. destruct Hp as [Hc Hu _]. destruct Hc as [_ _ _ _ _ Ht].
      assert (0 < local_tcp (client_config c) udp) as Htp
        by (unfold local_tcp; destruct (Z.eqb_spec (config_tcp_port (client_config c)) 0); cbn [negb]; lia).
      rewrite !(proj2 (Z.eqb_neq _ 0)) by lia. done. }
    rewrite nodes_parsed; [| done | by repeat constructor | rewrite <- rlps_one; lia | by split |].
    + cbn [map omap list_omap]. by rewrite Hn.
    + constructor; [by rewrite Hn | constructor].
Qed.

(** The answer is read in the session it was asked in. *)
Lemma nodes_received now sender p c s body nodes :
  sessions_ c !! sender_key sender = Some s -> auth_data p = remote_node_addr s -> len (remote_node_addr s) = 32 -> auth_size p = 32 ->
  decrypt_gcm (read_key s) (nonce p) (msg_data p) (header_data p) = Ok (kMsgNodes :: body) ->
  parse_nodes_message keccak256 now body = Ok (last_req_id s, nodes) ->
  exists c', handle_message keccak256 now sender p c = (Ok tt, c') /\ sessions_ c' = sessions_ c
  /\ crawler_ c' = snd (ingest_discovered_peers nodes (mark_measured (remote_node_id s) (crawler_ c))).
Proof.
  intros Hs Ha Hl Hz Hopen Hparse. eexists. split.
  - unfold handle_message, modify at 1. erewrite bind_ok by reflexivity. rewrite Hz.
    change (negb (32 =? kMessageAuthDataBytes)) with false. cbv iota. erewrite bind_ok by reflexivity.
    change (sessions_ (bump inbound_message_seen_ c)) with (sessions_ c). rewrite Hs, Ha.
    change kKeccak256Bytes with 32. rewrite <- Hl, take_len, bool_decide_true by done. cbn [negb]. rewrite Hopen. cbn [or_return].
    rewrite Z.eqb_refl. unfold handle_nodes. rewrite Hparse. cbn [or_return fst snd]. rewrite bool_decide_true by done.
    cbn [negb]. rewrite andb_false_r. unfold modify at 1. erewrite bind_ok by reflexivity. unfold modify. reflexivity.
  - cbn. by destruct (ingest_discovered_peers _ _).
Qed.
Lemma party_same c c' udp pk ip : party c udp pk ip -> client_config c' = client_config c -> socket_open c' = socket_open c ->
  party c' udp pk ip.
Proof. intros [Hc Hu Ho] E1 E2. split; [by rewrite E1 | done | by rewrite E2]. Qed.

(** The endpoints: [a] reaches the peer at [eB], which is how it sees the peer's packets; the peer
    sees those of [a] come from [eA], and can answer there. Neither has a session or a request. *)
Record strangers (a b : discv5_client) (p : ValidatedPeer) (eA eB : Endpoint) : Prop := {
  st_peer : peer_node_id p = public_key (client_config b);
  st_key : sender_key eB = peer_key p;
  st_reach : is_Some (make_address (peer_ip p));
  st_back : is_Some (make_address (address_text eA));
  st_no_session : sessions_ a !! peer_key p = None /\ sessions_ b !! sender_key eA = None;
  st_no_request : pending_requests_ a !! peer_key p = None
}.

(** The first half: a query, and the challenge it meets. *)
Lemma query_challenged now udpA udpB a b p eA eB : strangers a b p eA eB ->
  let addrA := local_node_addr keccak256 a in
  exists d1 d2 a1 a2 b1 b2 nc cd idn,
  run_task keccak256 fuel udpA (QueryPeer p) a = (Ok d1, a1)
  /\ handle_packet keccak256 now (packet d1) eA b = (Ok tt, spawn (SendWhoareyou eA addrA nc) b1)
  /\ run_task keccak256 fuel udpB (SendWhoareyou eA addrA nc) b1 = (Ok d2, b2)
  /\ handle_packet keccak256 now (packet d2) eB a1 = (Ok tt, spawn (AnswerChallenge p) a2)
  /\ (client_config a2 = client_config a /\ socket_open a2 = socket_open a /\ draws a2 = (3 + draws a)%nat
      /\ crawler_ a2 = crawler_ a /\ sessions_ a2 = sessions_ a
      /\ pending_requests_ a2 !! peer_key p = Some (mkPending p (request_id p) nc cd idn 0 true))
  /\ client_config b2 = client_config b /\ socket_open b2 = socket_open b
  /\ sent_challenges_ b2 !! sender_key eA = Some (mkChallenge addrA cd nc idn 0).
Proof using SL CL Hctx Hevp Hkeccak Hrand.
  intros [Hpeer Hkey [xB HxB] _ [Hsa Hsb] Hpend] addrA.
  destruct (first_query udpA a p xB Hsa Hpend HxB) as (nc & pkt1 & h1 & msg & Hnc & Q1 & D1). rewrite Hpeer in D1.
  set (a1 := with_draws _ _) in Q1. set (b1 := bump inbound_message_seen_ b).
  destruct (rand_some (draws b1) 16 ltac:(lia)) as (idn & Hidn & Hia). destruct (rand_some (S (draws b1)) 16 ltac:(lia)) as (iv & Hiv & _).
  destruct (send_whoareyou_ok eA addrA nc b1 idn iv Hidn Hiv Hnc (node_address_array _)) as (pkt2 & Q2 & D2).
  set (header := unmasked_header iv kFlagWhoareyou nc (idn ++ repeat 0 8)) in *. set (b2 := with_challenges _ _) in Q2.
  assert (take 16 (idn ++ repeat 0 8) = idn /\ drop 16 (idn ++ repeat 0 8) = repeat 0 8) as [Ht Hd]
    by (destruct Hia as [Hil _]; split; [by apply take_app_length' | by apply drop_app_length']).
  set (pend := mkPending p (request_id p) nc header idn 0 true).
  exists (mkDatagram pkt1 (xB, peer_udp_port p) false), (mkDatagram pkt2 (address eA, port eA) false), a1,
    (bump whoareyou_packets_ (with_pending (<[peer_key p := pend]> (pending_requests_ a1)) a1)), b1, b2, nc, header, idn.
  cbn [packet run_task]. split_and!; try done.
  - rewrite (handle_packet_message now pkt1 eA b _ D1) by done. apply message_unknown; [apply node_address_len | done | done].
  - rewrite (handle_packet_whoareyou now pkt2 eB a1 _ D2) by done.
    rewrite (whoareyou_taken _ _ (mkPending p (request_id p) nc [] (repeat 0 16) 0 false)); [| | done | done].
    + cbn [pending_peer req_id request_nonce header_data auth_data]. by rewrite Ht, Hd, Hkey.
    + rewrite Hkey. cbn. by rewrite lookup_insert_eq.
  - cbn. by rewrite lookup_insert_eq.
  - cbn. by rewrite lookup_insert_eq.
Qed.

(** C3: the handshake. From two clients that do not know each other, with usable configurations,
    the first query of the one leads, through the other's challenge, to a handshake that the
    other accepts: each has a session with the other, under the other's identity, with the same
    two keys, and what the one writes with the other reads with. The request of the handshake is
    answered, and the answer gives the first client's crawler the record of the other. *)
Theorem handshake_completes now udpA udpB a b pkA pkB ipA ipB eA eB p j ek :
  party a udpA pkA ipA -> party b udpB pkB ipB -> strangers a b p eA eB ->
  (j < fuel)%nat -> finds_key (3 + draws a) j ek -> empty (address_v4_to_string (local_ip ipB)) = false ->
  let idA := public_key (client_config a) in let idB := public_key (client_config b) in
  let addrA := node_address keccak256 idA in let addrB := node_address keccak256 idB in
  exists d1 d2 d3 d4 a1 a2 a3 a4 b1 b2 b3 b4 nc k1 k2,
  run_task keccak256 fuel udpA (QueryPeer p) a = (Ok d1, a1)
  /\ handle_packet keccak256 now (packet d1) eA b = (Ok tt, spawn (SendWhoareyou eA addrA nc) b1)
  /\ run_task keccak256 fuel udpB (SendWhoareyou eA addrA nc) b1 = (Ok d2, b2)
  /\ handle_packet keccak256 now (packet d2) eB a1 = (Ok tt, spawn (AnswerChallenge p) a2)
  /\ run_task keccak256 fuel udpA (AnswerChallenge p) a2 = (Ok d3, a3)
  /\ handle_packet keccak256 now (packet d3) eA b2 = (Ok tt, spawn (AnswerFindNode (request_id p) eA) b3)
  /\ run_task keccak256 fuel udpB (AnswerFindNode (request_id p) eA) b3 = (Ok d4, b4)
  /\ handle_packet keccak256 now (packet d4) eB a3 = (Ok tt, a4)
  /\ sessions_ a4 !! sender_key eB = Some (mkSession k1 k2 addrB idB (request_id p))
  /\ sessions_ b4 !! sender_key eA = Some (mkSession k2 k1 addrA idA (request_id p))
  /\ crawler_ a4 = snd (ingest_discovered_peers
       [mkPeer idB (address_v4_to_string (local_ip ipB)) udpB (local_tcp (client_config b) udpB) now None]
       (mark_measured idB (crawler_ a))).
Proof using SL CL Hctx Hevp Hkeccak Hrand.
  intros Ha Hb Hst Hj Hek Hip idA idB addrA addrB. pose proof Hst as [Hpeer Hkey [xB HxB] [xA HxA] [Hsa _] _].
  destruct (query_challenged now udpA udpB a b p eA eB Hst)
    as (d1 & d2 & a1 & a2 & b1 & b2 & nc & cd & idn & Q1 & H1 & Q2 & H2 & (A1 & A2 & A3 & A4 & A5 & A6) & B1 & B2 & B3).
  pose proof (party_config _ _ _ _ Hb) as Hcb. destruct (request_id_ok p) as [Hro Hrl].
  destruct (handshake_sent a2 udpA pkA ipA (peer_key p) p (mkPending p (request_id p) nc cd idn 0 true) (private_key (client_config b)) pkB j ek xB
    (party_same a a2 _ _ _ Ha A1 A2) eq_refl ltac:(rewrite Hpeer; apply (cfg_id _ _ _ Hcb)) (cfg_key _ _ _ Hcb) eq_refl
    Hro ltac:(cbn [req_id]; lia) Hj ltac:(by rewrite A3) HxB)
    as (k1 & k2 & eph & sig & rec & pkt3 & nc3 & h3 & sealed3 & body3 & n3 & Hprove & Q3 & D3 & O3 & P3).
  cbn [challenge_data req_id] in *. rewrite Hpeer in Hprove, D3. rewrite A1 in Hprove. set (a3 := with_pending _ _) in Q3.
  match type of D3 with _ = Ok ?v => set (p3 := v) in D3 end.
  assert (local_node_addr keccak256 b2 = addrB) as Eb by (unfold local_node_addr; by rewrite B1).
  destruct (handshake_received eA p3 b2 (mkChallenge addrA cd nc idn 0) idA eph sig rec k1 k2 body3 (request_id p) B3 eq_refl)
    as (b3 & Q4 & [E1 E2 _ _] & Hsb3); [cbn [auth_data p3]; unfold local_node_addr; by rewrite A1 | by rewrite Eb, B1 | done | done |].
  rewrite B1 in E1. rewrite B2 in E2.
  destruct (findnode_answered b3 udpB pkB ipB eA (request_id p) _ xA now (party_same b b3 _ _ _ Hb E1 E2) Hsb3 (node_address_len idA) Hro ltac:(lia) HxA Hip)
    as (pkt4 & b4 & nc4 & h4 & sealed4 & body4 & Q5 & Esb4 & D4 & O4 & P4). rewrite E1 in P4.
  match type of D4 with _ = Ok ?v => set (p4 := v) in D4 end. set (sA := mkSession k1 k2 addrB idB (request_id p)).
  assert (sessions_ a3 !! sender_key eB = Some sA) as Hsa3 by (rewrite Hkey; cbn; rewrite Hpeer; apply lookup_insert_eq).
  destruct (nodes_received now eB p4 a3 sA body4 _ Hsa3 ltac:(cbn; unfold local_node_addr; by rewrite E1) (node_address_len idB) eq_refl O4 P4)
    as (a4 & Q6 & Esa4 & Ecr).
  exists d1, d2, (mkDatagram pkt3 (xB, peer_udp_port p) true), (mkDatagram pkt4 (xA, port eA) false), a1, a2, a3, a4, b1, b2, b3, b4, nc, k1, k2.
  cbn [packet run_task]. split_and!; try done.
  - rewrite <- Q3. unfold send_findnode. cbv zeta. by rewrite (bind_ok _ _ _ a2 a2), A5, Hsa, A6.
  - rewrite (handle_packet_handshake now pkt3 eA b2 p3); [exact Q4 | by rewrite Eb | done].
  - rewrite (handle_packet_message now pkt4 eB a3 p4); [exact Q6 | | done].
    rewrite <- D4. cbn. unfold local_node_addr. cbn. by rewrite A1.
  - by rewrite Esa4, Hsa3.
  - by rewrite Esb4, Hsb3.
  - rewrite Ecr. cbn [remote_node_id sA]. cbn. by rewrite A4.
Qed.
End exchange.

(** ** Witnesses *)

#[local] Existing Instances ToySecp.toy ToySecp.toy_laws ToySsl.toy ToySsl.toy_laws EnrSample.address_text.

Definition running_client : discv5_client := with_loops 1 1 (with_life true true (new_client ClientSample.config_b)).

Lemma unauthenticated_crash_witness :
  exists d1 d2, client_run ToySsl.digest 3 9001
    [ReceivedDatagram 5 d1 ClientSample.at_a; TaskRuns 0; ReceivedDatagram 5 d2 ClientSample.at_a] running_client
    = Some (Err Lost).
Proof.
  destruct (unauthenticated_crash (CL := ToySsl.toy_laws) ToySsl.digest 3 eq_refl ToySsl.digest_array 9001 5 ClientSample.at_a running_client
    (repeat 1 16) (repeat 2 16) 0 eq_refl eq_refl eq_refl eq_refl eq_refl) as (d1 & d2 & H').
  exists d1, d2. exact H'.
Defined.

Lemma handshake_completes_witness :
  exists d4 a3 a4 b4 k1 k2,
  handle_packet ToySsl.digest 5 d4 ClientSample.at_b a3 = (Ok tt, a4)
  /\ sessions_ a4 !! sender_key ClientSample.at_b
     = Some (mkSession k1 k2 (ToySsl.digest (key_id ToySecp.even_key)) (key_id ToySecp.even_key) (request_id ClientSample.peer_b))
  /\ sessions_ b4 !! sender_key ClientSample.at_a
     = Some (mkSession k2 k1 (ToySsl.digest (key_id ToySecp.odd_key)) (key_id ToySecp.odd_key) (request_id ClientSample.peer_b)).
Proof.
  destruct (handshake_completes (SL := ToySecp.toy_laws) (CL := ToySsl.toy_laws) ToySsl.digest 3 eq_refl eq_refl ToySsl.digest_array
    ltac:(intros i n; by eexists) 5 9000 9001 (new_client ClientSample.config_a) (new_client ClientSample.config_b)
    ToySecp.odd_key ToySecp.even_key (V4 [127; 0; 0; 1]) (V4 [127; 0; 0; 2]) ClientSample.at_a ClientSample.at_b
    ClientSample.peer_b 0 (repeat 4 32)) as (d1 & d2 & d3 & d4 & a1 & a2 & a3 & a4 & b1 & b2 & b3 & b4 & nc & k1 & k2 & H').
  - split; [| lia | reflexivity]. split; [reflexivity.. | intros; by eexists | reflexivity | octets | by split].
  - split; [| lia | reflexivity]. split; [reflexivity.. | intros; by eexists | reflexivity | octets | by split].
  - split; try reflexivity; try by eexists.
  - lia.
  - by split; [lia |].
  - reflexivity.
  - destruct H' as (_ & _ & _ & _ & _ & _ & _ & H1 & H2 & H3 & _). by exists (packet d4), a3, a4, b4, k1, k2.
Defined.
