(* ===== verification/Discv5CrawlMain.v ===== *)
(** * Discv5CrawlMain: the crawler program at work

    The rest of [main] of [examples/discv5_crawl/discv5_crawl.cpp]: the client with the seeds and the fresh key, its
    two callbacks, which count, the end of the run by the timeout or a signal, and the report. What happens in between are the
    events of [client_step] of [Discv5Client.v] that need no call of a method ([crawl_happens]).

    Theorems: what the report says of the packets and handshakes adds up, and the two
    discovery counts in it are the same ([crawl_counters_consistent]); so two of its four notes on inconsistent
    counters are never printed, and its sentence belongs to its status ([crawl_report_consistent]). A run that nobody
    answers is reported as one with measured peers ([silent_run_measured]). Not modelled: the log lines. *)
From S2P Require Import EthCli RlpxCrypto.
From S2P Require Export Discv5Crawl Discv5Client.
Open Scope Z_scope.

(** ** Data *)

(** The two callbacks, by their number. *)
Definition kPeerCallback : Z := 0.
Definition kErrorCallback : Z := 1.

Record Crawl := mkCrawl {
  crawled : discv5_client;
  actual_bound_port : Z;
  total_discovered : Z;
  total_errors : Z;
  stop_reason : StopReason;
  io_stopped : bool
}.

(** The ways in which the program ends before it runs. *)
Inductive crawl_failure := BadArguments (e : args_error) | NoKeypair | NoSeeds | Terminates.

Inductive crawl_event := CrawlClient (e : client_event) | CrawlSignal | CrawlTimeout.

Definition crawl_happens (e : client_event) : bool :=
  match e with ReceivedDatagram _ _ _ | ReceiveFailed | RoundDue | TaskRuns _ | SendDone _ _ => true | _ => false end.

(** [discv5Config] with its initialisers. *)
Definition initial_config : discv5Config :=
  mkConfig (text "0.0.0.0") kDefaultUdpPort kDefaultTcpPort (repeat 0 32) (repeat 0 64) [] kDefaultMaxConcurrent 30 None.

(** The callbacks count. *)
Definition count_call (n : Z * Z) (call : crawler_call) : Z * Z :=
  match call with
  | PeerDiscovered _ _ => (usize (fst n + 1), snd n)
  | ErrorReported _ _ => (fst n, usize (snd n + 1))
  end.

(** The client is now [c], and has made the calls that [s] does not have. *)
Definition told (c : discv5_client) (s : Crawl) : Crawl :=
  let n := fold_left count_call (drop (length (calls (crawled s))) (calls c)) (total_discovered s, total_errors s) in
  mkCrawl c (actual_bound_port s) (fst n) (snd n) (stop_reason s) (io_stopped s).

(** The handlers of the timer and of the signals. *)
Definition crawl_ends (reason : StopReason) (s : Crawl) : Crawl :=
  mkCrawl (client_stop (crawled s)) (actual_bound_port s) (total_discovered s) (total_errors s) reason true.

(** ** The report *)

Inductive shown := ShownText (t : string) | ShownNumber (n : Z).

Definition chain_seeds (args : CliArgs) : list bytes :=
  match for_chain (chain args) with Some chain_source => fetch chain_source | None => [] end.

Definition run_status (s : Crawl) : RunStatus :=
  classify_run (total_discovered s) (total_errors s) (counter received_packets_ (crawled s))
    (counter send_findnode_failures_ (crawled s)) (client_stats (crawled s)).
Definition interpretation (s : Crawl) : string :=
  interpret_run (total_discovered s) (total_errors s) (counter received_packets_ (crawled s))
    (counter whoareyou_packets_ (crawled s)) (counter send_findnode_failures_ (crawled s)) (client_stats (crawled s)).
Definition counter_note (s : Crawl) : string :=
  consistency_note (total_discovered s) (counter received_packets_ (crawled s))
    (counter send_findnode_failures_ (crawled s)) (client_stats (crawled s)).

(** The lines of the report; the last ten only at the log level [trace]. *)
Definition crawl_report (args : CliArgs) (s : Crawl) : list (string * shown) :=
  let c := crawled s in
  let stats := client_stats c in
  let count k := ShownNumber (counter k c) in
  [("chain", ShownText (chain_name (chain args)));
   ("udp port", ShownNumber (actual_bound_port s));
   ("stop reason", ShownText (stop_reason_to_string (stop_reason s)));
   ("run status", ShownText (run_status_to_string (run_status s)));
   ("chain seeds", ShownNumber (len (chain_seeds args)));
   ("extra seeds", ShownNumber (len (extra_enrs args)));
   ("bootstrap seeds", ShownNumber (len (bootstrap_enrs (client_config c))));
   ("callback discoveries", ShownNumber (total_discovered s));
   ("callback errors", ShownNumber (total_errors s));
   ("packets received", count received_packets_);
   ("whoareyou packets", count whoareyou_packets_);
   ("handshake packets", count handshake_packets_);
   ("nodes packets", count nodes_packets_);
   ("undersized dropped", count dropped_undersized_packets_);
   ("findnode send failures", count send_findnode_failures_);
   ("discovered", ShownNumber (discovered stats));
   ("queued", ShownNumber (queued stats));
   ("measured", ShownNumber (measured stats));
   ("failed", ShownNumber (failed stats));
   ("duplicates", ShownNumber (duplicates stats));
   ("wrong_chain", ShownNumber (wrong_chain stats));
   ("no_eth_entry", ShownNumber (no_eth_entry stats));
   ("invalid_enr", ShownNumber (invalid_enr stats));
   ("interpretation", ShownText (interpretation s));
   ("counter consistency", ShownText (counter_note s))]%string ++
  if bool_decide (log_level args = text "trace") then
    [("handshake attempts", count outbound_handshake_attempts_);
     ("handshake failures", count outbound_handshake_failures_);
     ("hs reject auth", count inbound_handshake_reject_auth_);
     ("hs reject challenge", count inbound_handshake_reject_challenge_);
     ("hs reject record", count inbound_handshake_reject_record_);
     ("hs reject crypto", count inbound_handshake_reject_crypto_);
     ("hs reject decrypt", count inbound_handshake_reject_decrypt_);
     ("hs inbound seen", count inbound_handshake_seen_);
     ("msg inbound seen", count inbound_message_seen_);
     ("msg decrypt fail", count inbound_message_decrypt_fail_)]%string
  else [].

Section program.
Context `{AddressText} (keccak256 : bytes -> bytes) `{Secp256k1} `{OpenSsl} (fuel : nat) (local_port : Z).

(** ** Runs *)

(** [main] up to the run. [binds]: the port of the socket is free. A record among the seeds can end the process. *)
Definition crawl_start (argv : list bytes) (binds : bool) (now : Z) (draw : nat) : outcome crawl_failure (CliArgs * Crawl) :=
  match parse_args argv default_args with
  | Ok args =>
      match Ecdh.generate_ephemeral_keypair fuel draw with
      | (Ok keypair, draw) =>
          match crawl_config args (Ecdh.private_key keypair) (Ecdh.public_key keypair) initial_config with
          | None => Err NoSeeds
          | Some config =>
              if negb binds then Err Terminates else
              let c := client_set_error_callback (Some kErrorCallback)
                         (client_set_peer_callback (Some kPeerCallback) (with_draws draw (new_client config))) in
              match client_start keccak256 now c with
              | Ok c' => Ok (args, told c' (mkCrawl c (bound_port local_port c') 0 0 kIoStopped false))
              | _ => Err Terminates
              end
          end
      | _ => Err NoKeypair
      end
  | Err e => Err (BadArguments e)
  | Diverged => Diverged
  end.

(** An event; one that cannot happen changes nothing. [None]: the process ends without a report. *)
Definition crawl_step (e : crawl_event) (s : Crawl) : option Crawl :=
  if io_stopped s then Some s else
  match e with
  | CrawlClient e =>
      if crawl_happens e then
        match client_step keccak256 fuel local_port e (crawled s) with
        | Some (Ok c) => Some (told c s)
        | Some _ => None
        | None => Some s
        end
      else Some s
  | CrawlSignal => Some (crawl_ends kSignal s)
  | CrawlTimeout => Some (crawl_ends kTimeout s)
  end.

Fixpoint crawl_runs (es : list crawl_event) (s : Crawl) : option Crawl :=
  match es with
  | [] => Some s
  | e :: es => s ← crawl_step e s; crawl_runs es s
  end.
End program.

(** ** What a step of the crawler tells *)

Definition in_size (n : Z) : Prop := 0 <= n < 2 ^ 64.

Lemma usize_range n : in_size (usize n).
Proof. apply Z.mod_pos_bound. lia. Qed.
Lemma usize_same n : in_size n -> usize n = n.
Proof. unfold in_size, usize. intros. by apply Z.mod_small. Qed.
Lemma usize_add m n : usize (usize m + n) = usize (m + n).
Proof. unfold usize. by rewrite Zplus_mod_idemp_l. Qed.

(** The calls [es] that lead from [c] to [c']: the counter of discoveries counts those of the peer callback, if there
    is one, and without a required fork no peer counts as one of another chain. Only where something [fails] a peer does. *)
Record tells (fails : bool) (c : discv5_crawler) (es : list crawler_call) (c' : discv5_crawler) : Prop := {
  t_evolves : evolves c es c';
  t_callback : peer_callback_ c' = peer_callback_ c;
  t_failed : failed_ids_ c' = failed_ids_ c \/ fails = true;
  t_stat : is_Some (peer_callback_ c) -> in_size (stat_discovered_ (counters_ c)) ->
    stat_discovered_ (counters_ c') = usize (stat_discovered_ (counters_ c) + len (emitted es));
  t_chain : required_fork_id (config_ c) = None ->
    stat_wrong_chain_ (counters_ c') = stat_wrong_chain_ (counters_ c)
    /\ stat_no_eth_entry_ (counters_ c') = stat_no_eth_entry_ (counters_ c)
}.

Lemma tells_quiet c es c' : evolves c es c' -> emitted es = [] -> peer_callback_ c' = peer_callback_ c ->
  failed_ids_ c' = failed_ids_ c -> stat_discovered_ (counters_ c') = stat_discovered_ (counters_ c) ->
  stat_wrong_chain_ (counters_ c') = stat_wrong_chain_ (counters_ c) ->
  stat_no_eth_entry_ (counters_ c') = stat_no_eth_entry_ (counters_ c) -> tells false c es c'.
Proof. intros He Hn ? ? E ? ?. split; try done; [by left |]. intros _ Hr. rewrite E, Hn, len_nil, Z.add_0_r. symmetry. by apply usize_same. Qed.

Lemma tells_refl c : tells false c [] c.
Proof. apply tells_quiet; try done. apply evolves_refl. Qed.

Lemma tells_trans f1 f2 c e1 c1 e2 c2 : tells f1 c e1 c1 -> tells f2 c1 e2 c2 -> tells (f1 || f2) c (e1 ++ e2) c2.
Proof.
  intros [A1 A2 A3 A4 A5] [B1 B2 B3 B4 B5]. pose proof (ev_config _ _ _ A1) as Hcfg. split.
  - by apply evolves_trans with c1.
  - congruence.
  - rewrite orb_true_iff. destruct A3 as [A3|]; [|by auto]. destruct B3 as [B3|]; [left; congruence | by auto].
  - intros Hcb Hr. specialize (A4 Hcb Hr). rewrite B4.
    + by rewrite A4, usize_add, emitted_app, len_app, Z.add_assoc.
    + by rewrite A2.
    + rewrite A4. apply usize_range.
  - intros Hf. rewrite Hcfg in B5. destruct (A5 Hf) as [<- <-]. by apply B5.
Qed.

Lemma tells_process peers : forall c, tells false c [] (process_found_peers peers c).
Proof.
  induction peers as [|p peers IH]; intros c; [apply tells_refl |].
  apply (tells_trans false false _ [] (process_found_peer c p) []); [| apply IH].
  pose proof (evolves_process [p] c) as He. unfold process_found_peers in He. cbn [fold_left] in He.
  apply tells_quiet; try done; unfold process_found_peer; by repeat case_match.
Qed.

Lemma tells_emit p c : tells false c (fst (emit_peer p c)) (snd (emit_peer p c)).
Proof.
  assert (tells false c (fst (if is_discovered (peer_node_id p) c then ([], count_duplicate c)
      else let c := count_discovered (with_discovered ({[ peer_node_id p ]} ∪ discovered_ids_ c) c) in
        (match peer_callback_ c with Some cb => [PeerDiscovered cb p] | None => [] end, c)))
    (snd (if is_discovered (peer_node_id p) c then ([], count_duplicate c)
      else let c := count_discovered (with_discovered ({[ peer_node_id p ]} ∪ discovered_ids_ c) c) in
        (match peer_callback_ c with Some cb => [PeerDiscovered cb p] | None => [] end, c)))
    \/ ~ on_chain (config_ c) p) as Hemit.
  { pose proof (evolves_emit p c) as He. unfold emit_peer in He. unfold on_chain.
    destruct (required_fork_id (config_ c)) as [f|] eqn:Ef; [destruct (decide (peer_eth_fork_id p = Some f)) as [Ep|]; [| by right] | ];
      left; [rewrite Ep in He; rewrite bool_decide_true, Z.eqb_refl in He by done; cbn [negb orb] in He |].
    all: destruct (is_discovered (peer_node_id p) c); cbn [fst snd] in *; [by apply tells_quiet |].
    all: cbn zeta in *; split; try done; [by left |]; cbn [fst snd peer_callback_ count_discovered count with_discovered counters_ stat_discovered_];
      intros [cb ->] Hr; done. }
  pose proof (evolves_emit p c) as He. unfold emit_peer in *. unfold on_chain in Hemit.
  destruct (required_fork_id (config_ c)) as [f|] eqn:Ef; [| by destruct Hemit as [|[]]].
  assert (forall c', evolves c [] c' -> config_ c' = config_ c -> peer_callback_ c' = peer_callback_ c -> failed_ids_ c' = failed_ids_ c ->
    stat_discovered_ (counters_ c') = stat_discovered_ (counters_ c) -> tells false c [] c') as Hq.
  { intros c' H1 H2 H3 H4 H5. split; try done; [by left | | by rewrite Ef].
    intros _ Hr. cbn. rewrite H5, Z.add_0_r. symmetry. by apply usize_same. }
  destruct (peer_eth_fork_id p) as [g|] eqn:Eg; [| by apply Hq].
  destruct (bool_decide_reflect (hash f = hash g)) as [E1|]; cbn [negb orb] in *; [| by apply Hq].
  destruct (Z.eqb_spec (next f) (next g)) as [E2|]; cbn [negb] in *; [| by apply Hq].
  destruct Hemit as [|Hn]; [done |]. exfalso. apply Hn. destruct f, g. cbn in *. congruence.
Qed.

Lemma tells_ingest peers : forall c, tells false c (fst (ingest_discovered_peers peers c)) (snd (ingest_discovered_peers peers c)).
Proof.
  induction peers as [|p peers IH]; intros c; [apply tells_refl |]. cbn [ingest_discovered_peers].
  assert (tells false c (fst (ingest_peer p c)) (snd (ingest_peer p c))) as H1.
  { unfold ingest_peer. destruct (is_discovered (peer_node_id p) c); cbn [negb andb fst snd]; [by apply tells_quiet; [apply evolves_quiet | ..] |].
    apply (tells_trans false false _ [] (if negb (is_queued (peer_node_id p) c) then with_queue (queued_peers_ c ++ [p]) c else c)); [| apply tells_emit].
    pose proof (evolves_push p c). by destruct (is_queued _ c); [apply tells_refl | apply tells_quiet]. }
  destruct (ingest_peer p c) as [e1 c1]. specialize (IH c1).
  destruct (ingest_discovered_peers peers c1) as [e2 c2]. by apply (tells_trans false false _ _ c1).
Qed.

(** ** What a step of the client counts *)

Definition occ (k : Counter) (ks : list Counter) : Z := len (List.filter (fun k' => bool_decide (k' = k)) ks).

Lemma occ_app k u v : occ k (u ++ v) = occ k u + occ k v.
Proof. unfold occ. by rewrite List.filter_app, len_app. Qed.
Lemma occ_nonneg k ks : 0 <= occ k ks.
Proof. apply len_nonneg. Qed.

Definition fails (ks : list Counter) : bool := 0 <? occ send_findnode_failures_ ks.

Lemma fails_app u v : fails (u ++ v) = fails u || fails v.
Proof. unfold fails. rewrite occ_app. pose proof (occ_nonneg send_findnode_failures_ u). pose proof (occ_nonneg send_findnode_failures_ v). lia. Qed.

(** The step from [c] to [c'] has incremented the counters [ks] and has made the calls [es]. *)
Record progress (ks : list Counter) (es : list crawler_call) (c c' : discv5_client) : Prop := {
  g_counters k : in_size (client_counters c k) -> client_counters c' k = usize (client_counters c k + occ k ks);
  g_calls : calls c' = calls c ++ es;
  g_tells : tells (fails ks) (crawler_ c) es (crawler_ c')
}.

Lemma progress_trans k1 k2 e1 e2 c c1 c2 : progress k1 e1 c c1 -> progress k2 e2 c1 c2 -> progress (k1 ++ k2) (e1 ++ e2) c c2.
Proof.
  intros [A1 A2 A3] [B1 B2 B3]. split.
  - intros k Hr. rewrite B1 by (rewrite A1 by done; apply usize_range). by rewrite A1, usize_add, occ_app, Z.add_assoc.
  - by rewrite B2, A2, app_assoc.
  - rewrite fails_app. by apply tells_trans with (crawler_ c1).
Qed.

(** A step that only changes the crawler, one that changes neither, and an increment. *)
Lemma progress_crawler c r es : tells false (crawler_ c) es r -> progress [] es c (with_crawler r es c).
Proof. intros Ht. split; [| done | exact Ht]. intros k Hr. cbn. change (occ k []) with 0. rewrite Z.add_0_r. symmetry. by apply usize_same. Qed.

Lemma progress_same c c' : client_counters c' = client_counters c -> calls c' = calls c -> crawler_ c' = crawler_ c -> progress [] [] c c'.
Proof.
  intros E1 E2 E3. split; rewrite ?E1, ?E2, ?E3, ?app_nil_r; [| done | apply tells_refl].
  intros k Hr. change (occ k []) with 0. rewrite Z.add_0_r. symmetry. by apply usize_same.
Qed.

Lemma progress_bump k c : fails [k] = false -> progress [k] [] c (bump k c).
Proof.
  intros Hf. split; [| cbn; by rewrite app_nil_r | rewrite Hf; apply tells_refl].
  intros k' Hr. cbn. unfold occ. cbn [List.filter]. destruct (decide (k' = k)) as [->|Hk].
  - by rewrite bool_decide_true.
  - rewrite bool_decide_false by congruence. cbn. rewrite Z.add_0_r. symmetry. by apply usize_same.
Qed.

Lemma progress_failed c p : progress [send_findnode_failures_] [] c
  (with_crawler (mark_failed p (crawler_ (bump send_findnode_failures_ c))) [] (bump send_findnode_failures_ c)).
Proof.
  split.
  - intros k' Hr. cbn. unfold occ. cbn [List.filter]. destruct (decide (k' = send_findnode_failures_)) as [->|Hk].
    + by rewrite bool_decide_true.
    + rewrite bool_decide_false by congruence. cbn. rewrite Z.add_0_r. symmetry. by apply usize_same.
  - done.
  - split; try done; [by apply evolves_quiet | by right | cbn; intros _ Hr; rewrite Z.add_0_r; symmetry; by apply usize_same].
Qed.

(** The computation [m], when the process goes on, has incremented one of the lists of counters [alts]. *)
Section does.
Definition ends {A} (r : Discv5Result A) : bool := match r with Ok _ | Err (Error _) => false | _ => true end.

Definition does {A} (alts : list (list Counter)) (m : ClientM A) : Prop := forall c,
  ends (fst (m c)) = false -> exists ks es, ks ∈ alts /\ progress ks es c (snd (m c)).

Lemma does_weaken {A} alts alts' (m : ClientM A) : alts ⊆ alts' -> does alts m -> does alts' m.
Proof. intros Hs Hm c He. destruct (Hm c He) as (ks & es & Hk & Hp). exists ks, es. split; [by apply Hs | done]. Qed.

Lemma does_unchanged {A} alts (r : Discv5Result A) : [] ∈ alts -> does alts (fun c => (r, c)).
Proof. intros Hn c _. exists [], []. split; [done | by apply progress_same]. Qed.

(** What is quiet before makes no difference. *)
Lemma does_bind {A B} alts (m : ClientM A) (f : A -> ClientM B) : [] ∈ alts -> does [[]] m -> (forall a, does alts (f a)) -> does alts (m ≫= f).
Proof.
  intros Hn Hm Hf c He. specialize (Hm c). unfold mbind, M_bind in *. destruct (m c) as [[a|e|] c1]; cbn [fst snd] in *.
  - destruct Hm as (k1 & e1 & Hk1 & P1); [done |]. apply list_elem_of_singleton in Hk1 as ->. destruct (Hf a c1 He) as (k2 & e2 & Hk2 & P2).
    exists k2, (e1 ++ e2). split; [done |]. by apply (progress_trans [] k2 _ _ _ c1).
  - destruct Hm as (k1 & e1 & Hk1 & P1); [done |]. apply list_elem_of_singleton in Hk1 as ->. by exists [], e1.
  - done.
Qed.

(** An increment, or a change of something else, comes before. *)
Lemma does_modify {B} ks es alts f (m : ClientM B) : (forall c, progress ks es c (f c)) -> does alts m ->
  does (map (app ks) alts) (modify f ;; m).
Proof.
  intros Hf Hm c He. destruct (Hm (f c) He) as (k2 & e2 & Hk2 & P2). exists (ks ++ k2), (es ++ e2).
  split; [by apply list_elem_of_fmap_2 |]. apply (progress_trans _ _ _ _ _ (f c)); [apply Hf | exact P2].
Qed.
Lemma does_quietly {B} alts f (m : ClientM B) : (forall c, progress [] [] c (f c)) -> does alts m -> does alts (modify f ;; m).
Proof. intros Hf Hm. rewrite <- (map_id alts) at 1. exact (does_modify [] [] alts f m Hf Hm). Qed.
Lemma does_bump {B} k alts (m : ClientM B) : fails [k] = false -> does alts m -> does (map (cons k) alts) (modify (bump k) ;; m).
Proof. intros Hk Hm. apply (does_modify [k] []); [| done]. intros c. by apply progress_bump. Qed.

Lemma does_bump_last {B} k alts (m : ClientM B) : [k] ∈ alts -> fails [k] = false -> does [[]] m -> does alts (modify (bump k) ;; m).
Proof.
  intros Hin Hk Hm. apply (does_weaken (map (cons k) [[]])); [| by apply does_bump].
  intros ks Hks. by apply list_elem_of_singleton in Hks as ->.
Qed.

Lemma does_once ks es alts f : ks ∈ alts -> (forall c, progress ks es c (f c)) -> does alts (modify f).
Proof. intros Hk Hf c _. exists ks, es. split; [done | apply Hf]. Qed.

Lemma does_state {B} alts (f : discv5_client -> ClientM B) : (forall c, does alts (f c)) -> does alts (get_state ≫= f).
Proof. intros Hf c. apply Hf. Qed.

Lemma does_or_return {A} alts (r : Discv5Result A) m (k : A -> ClientM unit) : does alts m -> (forall a, does alts (k a)) -> does alts (or_return r m k).
Proof. intros Hm Hk. destruct r as [a|[e|]|]; [apply Hk | done | by intros c | by intros c]. Qed.

Lemma does_on_error {A} alts k f (m : ClientM A) : (forall c, progress k [] c (f c)) -> does alts m -> does (alts ++ map (fun ks => ks ++ k) alts) (on_error f m).
Proof.
  intros Hf Hm c He. specialize (Hm c). unfold on_error in *. destruct (m c) as [[a|[e|]|] c1]; cbn [fst snd] in *; try done.
  - destruct Hm as (ks & es & Hk & P); [done |]. exists ks, es. split; [| done]. apply elem_of_app. by left.
  - destruct Hm as (ks & es & Hk & P); [done |]. exists (ks ++ k), (es ++ []). split.
    + apply elem_of_app. right. by apply (list_elem_of_fmap_2 (fun ks => ks ++ k)).
    + apply (progress_trans _ _ _ _ _ c1); [done | apply Hf].
Qed.
End does.

(** ** The events of the client *)

(** What can be counted for a datagram: it is too small, unknown, a challenge, a message or a handshake. *)
Definition message_alts : list (list Counter) :=
  map (cons inbound_message_seen_) [[]; [inbound_message_decrypt_fail_]; [nodes_packets_]].
Definition handshake_alts : list (list Counter) :=
  map (cons inbound_handshake_seen_)
    [[handshake_packets_]; [inbound_handshake_reject_auth_]; [inbound_handshake_reject_challenge_];
     [inbound_handshake_reject_record_]; [inbound_handshake_reject_crypto_]; [inbound_handshake_reject_decrypt_]].
Definition receive_alts : list (list Counter) :=
  [dropped_undersized_packets_] :: map (cons received_packets_) ([] :: [whoareyou_packets_] :: message_alts ++ handshake_alts).

(** For a task: an attempt at a handshake, which can fail, as can the query. *)
Definition task_alts : list (list Counter) :=
  [[]; [outbound_handshake_attempts_]; [outbound_handshake_attempts_; outbound_handshake_failures_]].
Definition sending_alts : list (list Counter) :=
  [outbound_handshake_failures_] :: task_alts ++ map (fun ks => ks ++ [send_findnode_failures_]) ([outbound_handshake_failures_] :: task_alts).

Definition event_alts : list (list Counter) := receive_alts ++ sending_alts.

Ltac within := apply (bool_decide_unpack _); vm_compute; exact I.

Lemma does_included {A} alts alts' (m : ClientM A) : Forall (fun ks => ks ∈ alts') alts -> does alts m -> does alts' m.
Proof. intros Hs. apply does_weaken. intros ks Hk. exact (proj1 (list.Forall_forall _ _) Hs ks Hk). Qed.

Ltac quietly := intros ?; first [by apply progress_same | by apply progress_crawler, tells_refl].

Ltac does :=
  repeat lazymatch goal with
  | |- does _ (or_return _ _ _) => apply does_or_return; [| intros ?]
  | |- does _ (get_state ≫= _) => apply does_state; intros ?
  | |- does _ (mret _) => apply does_unchanged; within
  | |- does _ (throw _) => apply does_unchanged; within
  | |- does _ (lift _) => apply does_unchanged; within
  | |- does _ (match ?x with _ => _ end) => destruct x
  end.

Section events.
Context `{AddressText} (keccak256 : bytes -> bytes) `{Secp256k1} `{OpenSsl} (fuel : nat) (local_port : Z).

Lemma does_whoareyou key p : does [[]; [whoareyou_packets_]] (handle_whoareyou key p).
Proof.
  unfold handle_whoareyou. does. apply does_quietly; [quietly |].
  apply does_bump_last; [within | done |]. apply (does_once [] []); [within | quietly].
Qed.

Lemma does_nodes now session body : does [[]; [nodes_packets_]] (handle_nodes keccak256 now session body).
Proof.
  unfold handle_nodes. does. apply does_bump_last; [within | done |].
  intros c _. cbn [modify fst snd]. set (r0 := mark_measured (remote_node_id session) (crawler_ c)).
  pose proof (tells_ingest (snd a) r0) as Ht. destruct (ingest_discovered_peers (snd a) r0) as [es r]. cbn [fst snd] in *.
  exists [], es. split; [within |]. apply progress_crawler. apply (tells_trans false false _ [] r0); [| done].
  apply tells_quiet; try done. by apply evolves_quiet.
Qed.

Lemma does_message now sender p : does message_alts (handle_message keccak256 now sender p).
Proof.
  unfold handle_message, message_alts. apply does_bump; [done |]. does.
  all: try solve [apply (does_once [] []); [within | quietly]].
  - apply does_bump_last; [within | done |]. apply (does_once [] []); [within | quietly].
  - apply (does_included [[]; [nodes_packets_]]); [within | apply does_nodes].
  - unfold handle_findnode. does. apply (does_once [] []); [within | quietly].
Qed.

Lemma does_handshake sender p : does handshake_alts (handle_handshake keccak256 sender p).
Proof.
  unfold handle_handshake, handshake_alts. apply does_bump; [done |].
  assert (forall k, [k] ∈ [[handshake_packets_]; [inbound_handshake_reject_auth_]; [inbound_handshake_reject_challenge_];
     [inbound_handshake_reject_record_]; [inbound_handshake_reject_crypto_]; [inbound_handshake_reject_decrypt_]] ->
     fails [k] = false -> does [[handshake_packets_]; [inbound_handshake_reject_auth_]; [inbound_handshake_reject_challenge_];
     [inbound_handshake_reject_record_]; [inbound_handshake_reject_crypto_]; [inbound_handshake_reject_decrypt_]] (modify (bump k))) as Hk.
  { intros k Hin Hf. apply (does_once [k] []); [done | intros c; by apply progress_bump]. }
  unfold check_handshake. does; try (by apply Hk; [within |]).
  apply does_quietly; [quietly |]. does.
  - apply does_quietly; [quietly |]. by apply Hk; [within |].
  - apply does_bump_last; [within | done |]. apply does_quietly; [quietly |].
    does. apply does_quietly; [quietly |]. apply (does_once [] []); [within | quietly].
Qed.

Lemma does_receive now data sender : does receive_alts (receive keccak256 now data sender).
Proof.
  unfold receive. case_match.
  - apply (does_once [dropped_undersized_packets_] []); [within | intros c; by apply progress_bump].
  - apply (does_weaken (map (cons received_packets_) ([] :: [whoareyou_packets_] :: message_alts ++ handshake_alts))); [within |].
    apply does_bump; [done |]. unfold handle_packet. does.
    + apply (does_included [[]; [whoareyou_packets_]]); [within | apply does_whoareyou].
    + apply (does_included message_alts); [within | apply does_message].
    + apply (does_included handshake_alts); [within | apply does_handshake].
Qed.

(** Tasks. *)
Lemma does_random n : does [[]] (random_bytes n).
Proof. intros c _. exists [], []. split; [within | by apply progress_same]. Qed.
Lemma does_random_or_fail n : does [[]] (random_or_fail n).
Proof. unfold random_or_fail. apply does_bind; [within | apply does_random | intros a; does]. Qed.
Lemma does_keypair : does [[]] (ephemeral_keypair fuel).
Proof.
  intros c _. unfold ephemeral_keypair. destruct (Ecdh.generate_ephemeral_keypair fuel (draws c)) as [r i]. exists [], [].
  split; [within | by apply progress_same].
Qed.
Lemma does_encode fl n a m d : does [[]] (encode fl n a m d).
Proof. unfold encode. apply does_bind; [within | apply does_random | intros x; does]. Qed.
Lemma does_enr : does [[]] (build_local_enr keccak256 local_port).
Proof. intros c _. exists [], []. split; [within | by apply progress_same]. Qed.
Lemma does_send p peer h : does [[]] (send_packet p peer h).
Proof. unfold send_packet. does. Qed.

Ltac sends :=
  repeat first
    [ match goal with |- does _ (match ?x with _ => _ end) => destruct x end
    | apply does_random | apply does_random_or_fail | apply does_keypair | apply does_encode | apply does_enr | apply does_send
    | solve [apply (does_once [] []); [within | quietly]]
    | solve [apply does_unchanged; within]
    | apply does_quietly; [quietly |]
    | apply does_state; intros ?
    | apply does_bind; [within | | intros ?]
    | progress does ].

Lemma does_seal fl k n a p d : does [[]] (seal_message fl k n a p d).
Proof. unfold seal_message. sends. Qed.

Lemma does_on_error_quiet {A} f (m : ClientM A) : (forall c, progress [] [] c (f c)) -> does [[]] m -> does [[]] (on_error f m).
Proof. intros Hf Hm. apply (does_included ([[]] ++ map (fun ks => ks ++ []) [[]])); [within | by apply does_on_error]. Qed.

Lemma does_send_first key peer : does [[]] (send_first keccak256 key peer).
Proof. unfold send_first. sends. apply does_on_error_quiet; [quietly | apply does_encode]. Qed.

Lemma does_handshake_sent key pending peer :
  does (tl task_alts) (send_handshake keccak256 fuel local_port key pending peer).
Proof.
  unfold send_handshake. apply (does_included (map (cons outbound_handshake_attempts_) ([[]] ++ map (fun ks => ks ++ [outbound_handshake_failures_]) [[]]))); [within |].
  apply does_bump; [done |]. apply does_on_error; [intros c; by apply progress_bump |].
  apply does_bind; [within | | intros a; apply does_send]. unfold build_handshake. sends; try apply does_seal.
Qed.

Lemma does_run_task t : does task_alts (run_task keccak256 fuel local_port t).
Proof.
  assert (forall {A} (m : ClientM A), does [[]] m -> does task_alts m) as Hq by (intros A m; apply does_included; within).
  assert (forall peer, does task_alts (send_findnode keccak256 fuel local_port peer)) as Hf.
  { intros peer. unfold send_findnode. does.
    - apply Hq. unfold send_in_session. sends; apply does_seal.
    - apply (does_included (tl task_alts)); [within | apply does_handshake_sent].
    - apply Hq, does_quietly; [quietly | apply does_send_first].
    - apply Hq, does_send_first. }
  destruct t; try apply Hf; apply Hq.
  - unfold run_task, send_whoareyou. sends.
  - unfold run_task, handle_findnode_request. sends; apply does_seal.
Qed.

(** Events. *)
Lemma progress_task t c : progress [send_findnode_failures_] [] c (failed_task t c) \/ failed_task t c = c.
Proof. destruct t; [left; apply progress_failed .. | by right | by right]. Qed.

Lemma progress_round n : forall c, progress [] [] c (issue_queries n c).
Proof.
  induction n as [|n IH]; intros c; [by apply progress_same |]. cbn [issue_queries]. unfold dequeue_next.
  destruct (queued_peers_ (crawler_ c)) as [|p q] eqn:Eq; [by apply progress_same |].
  apply (progress_trans [] [] [] [] _ (with_crawler (with_queue q (crawler_ c)) [] c)).
  - apply progress_crawler, tells_quiet; try done. pose proof (step_evolves keccak256 _ _ _ (step_dequeue keccak256 (crawler_ c))) as Hd.
    unfold dequeue_next in Hd. by rewrite Eq in Hd.
  - apply (progress_trans [] [] [] [] _ (spawn (QueryPeer p) (with_crawler (with_queue q (crawler_ c)) [] c))); [by apply progress_same | apply IH].
Qed.

Lemma progress_event e c c' : crawl_happens e = true -> client_step keccak256 fuel local_port e c = Some (Ok c') ->
  exists ks es, ks ∈ event_alts /\ progress ks es c c'.
Proof.
  assert (forall c', progress [] [] c c' -> exists ks es, ks ∈ event_alts /\ progress ks es c c') as Hq
    by (intros c1 P; exists [], []; split; [within | done]).
  assert (forall alts : list (list Counter), Forall (fun ks => ks ∈ event_alts) alts -> forall ks, ks ∈ alts -> ks ∈ event_alts) as Hin
    by (intros alts Ha ks Hk; exact (proj1 (list.Forall_forall _ _) Ha ks Hk)).
  intros He Hs. destruct e; try done; cbn [client_step] in Hs.
  - destruct (receive_loops c) as [|n]; [done |]. destruct (receive keccak256 now data sender c) as [r c1] eqn:Er.
    destruct r as [[]|e|]; cbn [obind] in Hs; try discriminate Hs. injection Hs as <-.
    destruct (does_receive now data sender c) as (ks & es & Hk & P); [by rewrite Er |]. rewrite Er in P. cbn [snd] in P.
    exists ks, es. split; [by apply (Hin receive_alts); [within |] |]. destruct (client_running c1); [done |].
    rewrite <- (app_nil_r ks), <- (app_nil_r es). apply (progress_trans _ _ _ _ _ c1); [done | by apply progress_same].
  - destruct (receive_loops c) as [|n]; [done |]. injection Hs as <-. apply Hq. destruct (client_running c); by apply progress_same.
  - destruct (crawler_loops c) as [|n]; [done |]. injection Hs as <-. apply Hq. destruct (client_running c); [apply progress_round | by apply progress_same].
  - destruct (ready c !! i) as [t|]; [| done]. injection Hs as Hs. set (c0 := with_ready (delete i (ready c)) c) in *.
    assert (progress [] [] c c0) as P0 by by apply progress_same. unfold start_task in Hs.
    pose proof (does_run_task t c0) as Hd. destruct (run_task keccak256 fuel local_port t c0) as [[d|[e|]|] c1]; try discriminate Hs;
      injection Hs as <-; destruct Hd as (ks & es & Hk & P); try reflexivity; cbn [snd] in P.
    + exists ks, es. split; [by apply (Hin task_alts); [within |] |]. apply (progress_trans [] ks [] es _ c0); [done |].
      rewrite <- (app_nil_r ks), <- (app_nil_r es). apply (progress_trans _ _ _ _ _ c1); [done | by apply progress_same].
    + destruct (progress_task t c1) as [P1 | ->].
      * exists (ks ++ [send_findnode_failures_]), es. split.
        -- apply (Hin sending_alts); [within |]. right.
           apply elem_of_app. right. apply (list_elem_of_fmap_2 (fun ks => ks ++ [send_findnode_failures_])). by right.
        -- rewrite <- (app_nil_r es). apply (progress_trans [] _ [] _ _ c0); [done |]. by apply (progress_trans _ _ _ _ _ c1).
      * exists ks, es. split; [by apply (Hin task_alts); [within |] |]. by apply (progress_trans [] ks [] es _ c0).
  - destruct (waiting c !! i) as [w|]; [| done]. injection Hs as <-. set (c0 := with_waiting (delete i (waiting c)) c) in *.
    assert (progress [] [] c c0) as P0 by by apply progress_same. unfold finish_task. destruct ok.
    + apply Hq. apply (progress_trans [] [] [] [] _ c0); [done |]. destruct (waiting_task w); [| by apply progress_same ..].
      apply progress_crawler, tells_quiet; try done. by apply evolves_quiet.
    + destruct (handshake (sent w)).
      * destruct (progress_task (waiting_task w) (bump outbound_handshake_failures_ c0)) as [P1 | E].
        -- exists [outbound_handshake_failures_; send_findnode_failures_], []. split; [within |].
           apply (progress_trans [] _ [] [] _ c0); [done |]. apply (progress_trans [_] [_] [] [] _ (bump outbound_handshake_failures_ c0)); [by apply progress_bump | done].
        -- rewrite E. exists [outbound_handshake_failures_], []. split; [within |].
           apply (progress_trans [] _ [] [] _ c0); [done | by apply progress_bump].
      * destruct (progress_task (waiting_task w) c0) as [P1 | ->]; [| by apply Hq].
        exists [send_findnode_failures_], []. split; [within |]. by apply (progress_trans [] _ [] [] _ c0).
Qed.
End events.

(** ** Counters that add up *)

Definition rejected (n : Counter -> Z) : Z :=
  n inbound_handshake_reject_auth_ + n inbound_handshake_reject_challenge_ + n inbound_handshake_reject_record_
  + n inbound_handshake_reject_crypto_ + n inbound_handshake_reject_decrypt_.

(** Each packet received is at most one of the three kinds, a handshake is accepted or rejected, and a message is at most one of
    NODES or unreadable. *)
Record balanced (n : Counter -> Z) : Prop := {
  bal_received : n whoareyou_packets_ + n inbound_message_seen_ + n inbound_handshake_seen_ <= n received_packets_;
  bal_handshakes : n inbound_handshake_seen_ = n handshake_packets_ + rejected n;
  bal_messages : n nodes_packets_ + n inbound_message_decrypt_fail_ <= n inbound_message_seen_
}.

Definition balances (ks : list Counter) : bool :=
  let n k := occ k ks in
  (n whoareyou_packets_ + n inbound_message_seen_ + n inbound_handshake_seen_ <=? n received_packets_)
  && (n inbound_handshake_seen_ =? n handshake_packets_ + rejected n)
  && (n nodes_packets_ + n inbound_message_decrypt_fail_ <=? n inbound_message_seen_).

Definition all_counters : list Counter :=
  [received_packets_; dropped_undersized_packets_; send_findnode_failures_; whoareyou_packets_;
   handshake_packets_; outbound_handshake_attempts_; outbound_handshake_failures_;
   inbound_handshake_reject_auth_; inbound_handshake_reject_challenge_; inbound_handshake_reject_record_;
   inbound_handshake_reject_crypto_; inbound_handshake_reject_decrypt_; inbound_handshake_seen_; inbound_message_seen_;
   inbound_message_decrypt_fail_; nodes_packets_].

Lemma occ_concat_cons k ks kss : occ k (concat (ks :: kss)) = occ k ks + occ k (concat kss).
Proof. apply occ_app. Qed.

Lemma events_balance kss : Forall (fun ks => ks ∈ event_alts) kss ->
  balanced (fun k => occ k (concat kss)) /\ forall k, occ k (concat kss) <= len kss.
Proof.
  assert (Forall (fun ks => balances ks = true /\ Forall (fun k => occ k ks <= 1) all_counters) event_alts) as Hb by within.
  assert (forall k, k ∈ all_counters) as Hall by (intros []; within).
  intros Hk. induction Hk as [|ks kss Hin _ [[B1 B2 B3] IH]]; [split; [by split | intros k; done] |].
  pose proof (proj1 (list.Forall_forall _ _) Hb ks Hin) as [Hbal Hone]. unfold balances in Hbal. cbv zeta in Hbal.
  apply andb_true_iff in Hbal as [Hbal H3]. apply andb_true_iff in Hbal as [H1 H2]. unfold rejected in *.
  split; [split; unfold rejected; rewrite !occ_concat_cons; lia |].
  intros k. pose proof (proj1 (list.Forall_forall _ _) Hone k (Hall k)) as Hk. cbn beta in Hk. rewrite occ_concat_cons, len_cons. specialize (IH k). lia.
Qed.

(** ** Runs of the program *)

Section runs.
Context `{AddressText} (keccak256 : bytes -> bytes) `{Secp256k1} `{OpenSsl} (fuel : nat) (local_port : Z).

Lemma tells_seed now uris : forall c es c', seed keccak256 now uris c = Some (es, c') -> tells false c es c' /\ emitted es = [].
Proof.
  induction uris as [|uri uris IH]; intros c es c' Hs; cbn [seed] in Hs; [injection Hs as <- <-; split; [apply tells_refl | done] |].
  apply bind_Some in Hs as ([e1 c1] & H1' & Hs). apply bind_Some in Hs as ([e2 c2] & H2 & Hs). injection Hs as <- <-.
  destruct (IH _ _ _ H2) as [T2 N2]. rewrite emitted_app, N2, app_nil_r.
  assert (tells false c e1 c1 /\ emitted e1 = []) as [T1 N1]; [| split; [by apply (tells_trans false false _ _ c1) | done]].
  case_bool_decide; [| case_bool_decide].
  - unfold enqueue_enr_uri in H1'. destruct (parse keccak256 uri) as [r|[e|]|]; try done.
    + destruct (to_validated_peer now r) as [p| |]; injection H1' as <- <-;
        (split; [first [apply (tells_process [p]) | by apply tells_quiet; [apply evolves_quiet | ..]] | done]).
    + injection H1' as <- <-. split; [| by destruct (error_callback_ c)].
      apply tells_quiet; try done; [apply evolves_quiet; try done |]; by destruct (error_callback_ c).
  - injection H1' as <- <-. unfold enqueue_enode_uri. split; [| done].
    destruct (parse_enode_uri now uri) as [p|]; [apply (tells_process [p]) | by apply tells_quiet; [apply evolves_quiet | ..]].
  - injection H1' as <- <-. split; [apply tells_refl | done].
Qed.

Lemma count_calls es : forall d e, in_size d ->
  fst (fold_left count_call es (d, e)) = usize (d + len (emitted es)).
Proof.
  induction es as [|x es IH]; intros d e Hd; [cbn; rewrite Z.add_0_r; symmetry; by apply usize_same |].
  destruct x as [cb p|cb m]; cbn [fold_left count_call fst snd].
  - rewrite IH by apply usize_range. rewrite usize_add. f_equal. cbn [emitted omap list_omap]. rewrite len_cons. unfold emitted. lia.
  - by rewrite IH.
Qed.

Lemma told_discovered c es s : in_size (total_discovered s) -> calls c = calls (crawled s) ++ es ->
  total_discovered (told c s) = usize (total_discovered s + len (emitted es)).
Proof. intros Hd E. unfold told. cbn [total_discovered]. rewrite E, drop_app_length. by apply count_calls. Qed.

(** The client as it is started. *)
Definition configured (config : discv5Config) (draw : nat) : discv5_client :=
  client_set_error_callback (Some kErrorCallback)
    (client_set_peer_callback (Some kPeerCallback) (with_draws draw (new_client config))).

(** After at most [n] events: the counters count what the events did, and the callbacks count the calls. *)
Definition crawling (n : Z) (s : Crawl) : Prop := exists config draw kss es,
  required_fork_id config = None /\ Forall (fun ks => ks ∈ event_alts) kss /\ len kss <= n
  /\ progress (concat kss) es (configured config draw) (crawled s) /\ total_discovered s = usize (len (emitted es)).

Lemma progress_stop c : progress [] [] c (client_stop c).
Proof.
  unfold client_stop. destruct (negb (client_running c)); [by apply progress_same |].
  apply (progress_trans [] [] [] [] _ (with_life false false c)); [by apply progress_same |]. apply progress_crawler.
  unfold Discv5Crawler.stop. cbn [crawler_ with_life]. destruct (running_ (crawler_ c)); (apply tells_quiet; try done; by apply evolves_quiet).
Qed.

Lemma crawling_progress n s s' ks es : crawling n s -> (ks = [] \/ ks ∈ event_alts) -> progress ks es (crawled s) (crawled s') ->
  total_discovered s' = usize (total_discovered s + len (emitted es)) -> crawling (n + 1) s'.
Proof.
  intros (config & draw & kss & es0 & Hf & Hk & Hl & P & Hd) Hks P' Hd'.
  exists config, draw, (kss ++ [ks]), (es0 ++ es). split_and!.
  - done.
  - apply Forall_app. split; [done |]. constructor; [| constructor]. destruct Hks as [->|]; [within | done].
  - rewrite len_app. change (len [ks]) with 1. lia.
  - rewrite concat_app. cbn [concat]. rewrite app_nil_r. by apply progress_trans with (crawled s).
  - rewrite Hd', Hd, usize_add, emitted_app, len_app. done.
Qed.

Lemma crawling_step e n s s' : crawling n s -> crawl_step keccak256 fuel local_port e s = Some s' -> crawling (n + 1) s'.
Proof.
  intros Hc Hs. assert (in_size (total_discovered s)) as Hr by (destruct Hc as (? & ? & ? & ? & _ & _ & _ & _ & ->); apply usize_range).
  assert (crawling (n + 1) s) as Hsame.
  { apply (crawling_progress n s s [] []); [done | by left | by apply progress_same |].
    cbn. rewrite Z.add_0_r. symmetry. by apply usize_same. }
  assert (forall reason, crawling (n + 1) (crawl_ends reason s)) as Hends.
  { intros reason. apply (crawling_progress n s _ [] []); [done | by left | apply progress_stop |].
    cbn. rewrite Z.add_0_r. symmetry. by apply usize_same. }
  unfold crawl_step in Hs. destruct (io_stopped s); [by injection Hs as <- |].
  destruct e as [e| |]; [| injection Hs as <-; apply Hends ..].
  destruct (crawl_happens e) eqn:He; [| by injection Hs as <-].
  destruct (client_step keccak256 fuel local_port e (crawled s)) as [[c|f|]|] eqn:Ec; try done; injection Hs as <-; [| done].
  destruct (progress_event keccak256 fuel local_port e (crawled s) c He Ec) as (ks & es & Hk & P).
  apply (crawling_progress n s _ ks es); [done | by right | done |]. apply told_discovered; [done | apply P].
Qed.

Lemma crawling_runs es : forall n s s', crawling n s -> crawl_runs keccak256 fuel local_port es s = Some s' -> crawling (n + len es) s'.
Proof.
  induction es as [|e es IH]; intros n s s' Hc Hs; [injection Hs as <-; by rewrite Z.add_0_r |].
  cbn [crawl_runs] in Hs. apply bind_Some in Hs as (s1 & H1' & Hs). rewrite len_cons, Z.add_assoc.
  apply (IH _ s1); [by apply crawling_step with e s | done].
Qed.

Lemma crawling_start argv binds now draw args s : crawl_start keccak256 fuel local_port argv binds now draw = Ok (args, s) -> crawling 0 s.
Proof.
  unfold crawl_start. destruct (parse_args argv default_args) as [a|e|]; [| done | done].
  destruct (Ecdh.generate_ephemeral_keypair fuel draw) as [[kp| |] i]; [| done | done].
  destruct (crawl_config a (Ecdh.private_key kp) (Ecdh.public_key kp) initial_config) as [config|] eqn:Ec; [| done].
  destruct binds; [| done]. cbn [negb]. cbv zeta. fold (configured config i). unfold client_start.
  assert (required_fork_id config = None) as Hf by (unfold crawl_config in Ec; destruct (empty _); [done | by injection Ec as <-]).
  change (client_running (configured config i)) with false. cbv iota. intros Hs. unfold Discv5Crawler.start in Hs.
  change (running_ (crawler_ (with_loops _ _ (with_life _ _ (configured config i))))) with false in Hs. cbv iota in Hs.
  cbn [crawler_ with_loops with_life] in Hs.
  destruct (seed keccak256 now (bootstrap_enrs (config_ (crawler_ (configured config i)))) (with_running true (crawler_ (configured config i))))
    as [[es c]|] eqn:Es; cbn [mbind option_bind] in Hs; [| done].
  injection Hs as <- <-.
  apply tells_seed in Es as [T N]. exists config, i, [], es. rewrite N. split_and!; try done.
  - split; [| done |].
    + intros k Hr. done.
    + cbn. apply (tells_trans false false _ [] (with_running true (crawler_ (configured config i)))); [| exact T].
      apply tells_quiet; try done. by apply evolves_quiet.
  - unfold told. cbn [total_discovered crawled calls with_crawler with_loops with_life]. change (length (calls (configured config i))) with 0%nat.
    rewrite drop_0. change (calls (configured config i)) with (@nil crawler_call). cbn [app]. by rewrite count_calls, N.
Qed.

(** What the counters of a run are. *)
Lemma crawling_counts n s : crawling n s -> n < 2 ^ 64 -> exists kss, Forall (fun ks => ks ∈ event_alts) kss
  /\ (forall k, counter k (crawled s) = occ k (concat kss))
  /\ (failed (client_stats (crawled s)) = 0 \/ 0 < occ send_findnode_failures_ (concat kss)).
Proof.
  intros (config & draw & kss & es & Hf & Hk & Hl & [P1 P2 P3] & Hd) Hn. exists kss. destruct (events_balance kss Hk) as [_ Ho].
  split_and!; [done | |].
  - intros k. unfold counter. rewrite P1 by done. cbn. apply usize_same. specialize (Ho k). pose proof (occ_nonneg k (concat kss)).
    unfold in_size. lia.
  - destruct P3 as [_ _ [Hfail | Hfail] _ _]; [left | right; unfold fails in Hfail; lia].
    unfold client_stats, stats. cbn [failed]. by rewrite Hfail.
Qed.

(** C33: the counters of the report are consistent. In every run of the program of fewer than 2^64 events, whatever the peers send: what the
    callback has counted is the crawler's count of discoveries, which is the number of nodes it knows; each datagram
    that was received counts at most once as a challenge, a message or a handshake, each handshake was accepted or
    rejected for one reason, each message was at most one of a NODES message and an unreadable one; peers fail
    only with a failure to send; and no peer is of another chain, since the program asks for none. *)
Theorem crawl_counters_consistent argv binds now draw args s0 events s :
  crawl_start keccak256 fuel local_port argv binds now draw = Ok (args, s0) ->
  crawl_runs keccak256 fuel local_port events s0 = Some s -> len events < 2 ^ 64 ->
  let n k := counter k (crawled s) in let stats := client_stats (crawled s) in
  total_discovered s = discovered stats
  /\ discovered stats = usize (Z.of_nat (size (discovered_ids_ (crawler_ (crawled s)))))
  /\ balanced n /\ (0 < failed stats -> 0 < n send_findnode_failures_)
  /\ wrong_chain stats = 0 /\ no_eth_entry stats = 0.
Proof.
  intros Hs Hr Hl. apply crawling_start in Hs. apply (crawling_runs _ _ _ _ Hs) in Hr. cbn zeta. rewrite Z.add_0_l in Hr.
  destruct (crawling_counts _ _ Hr Hl) as (kss & Hk & Hn & Hf). destruct (events_balance kss Hk) as [[B1 B2 B3] _].
  destruct Hr as (config & draw' & kss' & es & Hreq & _ & _ & [_ _ T] & Hd). destruct T as [T1 _ _ T4 T5]. destruct (T5 Hreq) as [T5a T5b].
  split_and!; [| | split; unfold rejected in *; by rewrite !Hn | rewrite Hn; lia | exact T5a | exact T5b].
  - rewrite Hd. symmetry. by apply T4.
  - by apply (ev_count _ _ _ T1).
Qed.

(** what the report says of its counters. The notes that the two counts of discoveries differ, or that peers failed without a failure to
    send, are never printed; and the sentence belongs to the status. *)
Theorem crawl_report_consistent argv binds now draw args s0 events s :
  crawl_start keccak256 fuel local_port argv binds now draw = Ok (args, s0) ->
  crawl_runs keccak256 fuel local_port events s0 = Some s -> len events < 2 ^ 64 ->
  let received := counter received_packets_ (crawled s) in let stats := client_stats (crawled s) in
  counter_note s =
    (if (0 <? measured stats) && (received =? 0) then "measured peers were recorded without any receive-loop packet classification"%string
     else if (0 <? received) && (discovered stats =? 0) then "packets were received, but no peers reached the discovered callback path"%string
     else "counters are internally consistent for the current partial discv5 harness"%string)
  /\ (run_status s = kPartialLiveTraffic -> interpretation s = if 0 <? counter whoareyou_packets_ (crawled s)
       then "remote WHOAREYOU challenges were parsed, but outbound handshake and NODES decode are not implemented yet"%string
       else "live packets arrived, but receive-side WHOAREYOU/HANDSHAKE/NODES decode is still missing"%string)
  /\ (run_status s = kNoLiveResponse -> received = 0 /\ measured stats = 0 /\ discovered stats = 0 /\ failed stats = 0).
Proof.
  intros Hs Hr Hl. apply crawling_start in Hs. apply (crawling_runs _ _ _ _ Hs) in Hr. cbn zeta. rewrite Z.add_0_l in Hr.
  destruct (crawling_counts _ _ Hr Hl) as (kss & Hk & Hn & Hf). destruct (events_balance kss Hk) as [[B1 B2 B3] _].
  assert (total_discovered s = discovered (client_stats (crawled s))) as Hd.
  { destruct Hr as (config & draw' & kss' & es & _ & _ & _ & [_ _ [_ _ _ T4 _]] & ->). symmetry. by apply T4. }
  assert (forall k, 0 <= counter k (crawled s)) as Hpos by (intros k; rewrite Hn; apply occ_nonneg).
  assert (0 <= measured (client_stats (crawled s)) /\ 0 <= failed (client_stats (crawled s))) as [Hm Hfl] by (cbn; lia).
  assert (0 <= discovered (client_stats (crawled s))) as Hdp.
  { rewrite <- Hd. destruct Hr as (? & ? & ? & ? & _ & _ & _ & _ & ->). apply usize_range. }
  assert (counter whoareyou_packets_ (crawled s) <= counter received_packets_ (crawled s)) as Hw.
  { rewrite !Hn. pose proof (occ_nonneg inbound_message_seen_ (concat kss)). pose proof (occ_nonneg inbound_handshake_seen_ (concat kss)). lia. }
  destruct (interpretation_of_status (total_discovered s) (total_errors s) (counter received_packets_ (crawled s))
    (counter whoareyou_packets_ (crawled s)) (counter send_findnode_failures_ (crawled s)) (client_stats (crawled s)) Hw) as (I1 & _ & I3).
  split_and!.
  - unfold counter_note, consistency_note. rewrite Hd, Z.eqb_refl. cbn [negb].
    destruct ((0 <? measured (client_stats (crawled s))) && (counter received_packets_ (crawled s) =? 0)); [done |].
    assert ((0 <? failed (client_stats (crawled s))) && (counter send_findnode_failures_ (crawled s) =? 0) = false) as ->; [| done].
    rewrite Hn. destruct Hf as [-> | Hf]; [done |]. apply andb_false_iff. right. lia.
  - exact I1.
  - intros Hst. apply I3 in Hst as (? & ? & Hsf & ? & ? & ?). specialize (Hpos received_packets_). split_and!; try lia.
    rewrite Hn in Hsf. lia.
Qed.
End runs.

(** ** Witnesses *)
#[local] Existing Instances ToySecp.toy ToySsl.toy DottedText.text.

Module CrawlSample.
Definition argv : list bytes := map text ["--chain"; "sepolia"; "--timeout"; "5"]%string.
Definition crawl : outcome crawl_failure (CliArgs * Crawl) := crawl_start ToySsl.digest 3 9000 argv true 7 0.
Definition started : Crawl :=
  match crawl with Ok (_, s) => s | _ => mkCrawl (new_client initial_config) 0 0 0 kIoStopped false end.
(** The first round asks the bootnodes, one datagram leaves, and nobody answers. *)
Definition silent : list crawl_event := [CrawlClient RoundDue; CrawlClient (TaskRuns 0); CrawlClient (SendDone 0 true); CrawlTimeout].
Definition noise : list crawl_event :=
  [CrawlClient RoundDue; CrawlClient (ReceivedDatagram 8 (repeat 0 70) (mkEndpoint (V4 [10; 0; 0; 9]) (dotted [10; 0; 0; 9]) 30303));
   CrawlSignal].
Definition after (es : list crawl_event) : option Crawl := crawl_runs ToySsl.digest 3 9000 es started.
End CrawlSample.

(** A run that nobody answers is reported as one with measured peers, and not as one without a response. *)
Example silent_run_measured :
  option_map (fun s => (run_status s, counter received_packets_ (crawled s), measured (client_stats (crawled s)))) (CrawlSample.after CrawlSample.silent)
  = Some (kMeasuredWithoutReceive, 0, 1).
Proof. vm_compute. reflexivity. Qed.

Lemma sample_crawl_started : exists args, crawl_start ToySsl.digest 3 9000 CrawlSample.argv true 7 0 = Ok (args, CrawlSample.started).
Proof.
  unfold CrawlSample.started, CrawlSample.crawl.
  destruct (crawl_start ToySsl.digest 3 9000 CrawlSample.argv true 7 0) as [[args s]|e|] eqn:E; [| exfalso; vm_compute in E; discriminate E ..].
  exists args. reflexivity.
Defined.

(** One datagram of 70 octets that is no packet. *)
Lemma crawl_counters_consistent_witness : exists s, CrawlSample.after CrawlSample.noise = Some s
  /\ counter received_packets_ (crawled s) = 1 /\ total_discovered s = discovered (client_stats (crawled s))
  /\ balanced (fun k => counter k (crawled s)).
Proof.
  destruct (CrawlSample.after CrawlSample.noise) as [s|] eqn:E; [| exfalso; vm_compute in E; discriminate E]. exists s.
  destruct sample_crawl_started as [args Hs].
  destruct (crawl_counters_consistent ToySsl.digest 3 9000 CrawlSample.argv true 7 0 args CrawlSample.started CrawlSample.noise s Hs E eq_refl)
    as (Hd & _ & Hb & _).
  split; [reflexivity |]. split; [| split; [exact Hd | exact Hb]]. vm_compute in E. injection E as <-. vm_compute. reflexivity.
Defined.

Lemma crawl_report_consistent_witness : exists s, CrawlSample.after CrawlSample.noise = Some s
  /\ run_status s = kPartialLiveTraffic
  /\ interpretation s = "live packets arrived, but receive-side WHOAREYOU/HANDSHAKE/NODES decode is still missing"%string.
Proof.
  destruct (CrawlSample.after CrawlSample.noise) as [s|] eqn:E; [| exfalso; vm_compute in E; discriminate E]. exists s.
  destruct sample_crawl_started as [args Hs].
  destruct (crawl_report_consistent ToySsl.digest 3 9000 CrawlSample.argv true 7 0 args CrawlSample.started CrawlSample.noise s Hs E eq_refl)
    as (_ & Hi & _).
  assert (run_status s = kPartialLiveTraffic) as Hst by (vm_compute in E; injection E as <-; vm_compute; reflexivity).
  split; [reflexivity |]. split; [exact Hst |]. rewrite (Hi Hst). vm_compute in E. injection E as <-. vm_compute. reflexivity.
Defined.
