(* ===== verification/Discv4Types.v ===== *)
(** * Discv4Types: constants, errors and peers of discovery version 4

    [include/discv4/discv4_constants.hpp], [discv4_error.hpp/.cpp], and the structures that the
    client hands to its user: [ForkId] of [discv4_enr_response.hpp] and [DiscoveredPeer] of
    [discv4_client.hpp]. *)
From stdpp Require Export strings.
From S2P Require Export Prelude.
Open Scope Z_scope.

(** ** Constants *)

Definition kWireHashSize : Z := 32.
Definition kWireSigSize : Z := 65.
Definition kWirePacketTypeSize : Z := 1.
Definition kWireRecoveryIdSize : Z := 1.
Definition kWireCompactSigSize : Z := kWireSigSize - kWireRecoveryIdSize.
Definition kWireHeaderSize : Z := kWireHashSize + kWireSigSize + kWirePacketTypeSize.
Definition kWirePacketTypeOffset : Z := kWireHashSize + kWireSigSize.
Definition kNodeIdSize : Z := 64.
Definition kNodeIdHexSize : Z := kNodeIdSize * 2.
Definition kUncompressedPubKeySize : Z := kNodeIdSize + kWirePacketTypeSize.
Definition kIPv4Size : Z := 4.
Definition kUdpBufferSize : Z := 2048.
Definition kPacketTypePing : Z := 0x01.
Definition kPacketTypePong : Z := 0x02.
Definition kPacketTypeFindNode : Z := 0x03.
Definition kPacketTypeNeighbours : Z := 0x04.
Definition kPacketTypeEnrRequest : Z := 0x05.
Definition kPacketTypeEnrResponse : Z := 0x06.
Definition kProtocolVersion : Z := 0x04.
Definition kPacketExpirySeconds : Z := 60.
(** In milliseconds. *)
Definition kDefaultPingTimeout : Z := 5000.
Definition kDefaultPeerExpiry : Z := 300000.
Definition kDefaultDialHistoryExpiry : Z := 35000.

(** ** Errors *)

Inductive discv4Error :=
| kNetworkSendFailed | kNetworkReceiveFailed | kPacketTooSmall | kInvalidPacketType | kHashMismatch
| kSignatureParseFailed | kSignatureRecoveryFailed | kSigningFailed | kContextCreationFailed
| kInvalidPublicKey | kRlpPayloadEmpty | kPongTimeout | kPongParseFailed.

#[export] Instance discv4Error_eq_dec : EqDecision discv4Error.
Proof. solve_decision. Defined.

Definition to_string (error : discv4Error) : string :=
  match error with
  | kNetworkSendFailed => "Failed to send UDP packet"
  | kNetworkReceiveFailed => "Failed to receive UDP packet"
  | kPacketTooSmall => "Packet size below minimum (98 bytes)"
  | kInvalidPacketType => "Unknown or invalid packet type"
  | kHashMismatch => "Packet hash verification failed"
  | kSignatureParseFailed => "Failed to parse ECDSA signature"
  | kSignatureRecoveryFailed => "Failed to recover public key from signature"
  | kSigningFailed => "Failed to sign packet with private key"
  | kContextCreationFailed => "Failed to create secp256k1 context"
  | kInvalidPublicKey => "Invalid or malformed public key"
  | kRlpPayloadEmpty => "RLP payload generation returned empty"
  | kPongTimeout => "PONG response timeout"
  | kPongParseFailed => "Failed to parse PONG packet"
  end%string.

(** ** Peers *)

Record ForkId := mkForkId { fork_hash : bytes; fork_next : Z }.

Record DiscoveredPeer := mkPeer {
  node_id : bytes;
  peer_ip : bytes;
  udp_port : Z;
  tcp_port : Z;
  last_seen : Z;
  eth_fork_id : option ForkId
}.
