(* ===== verification/DialScheduler.v ===== *)
(** * DialScheduler: which discovered peers are dialed, and when

    [include/discv4/dial_history.hpp], [include/discv4/dial_scheduler.hpp]. Several schedulers, one for each chain, share a pool of
    connections. Their methods run on one thread, and a dial is a coroutine that runs between
    them (it is taken to start after the method that spawned it has returned): it is in flight
    from [spawn_dial] until it calls [on_done], once, and may call [on_connected] once before, as
    the contract of [DialFn] asks. The steady clock is the sequence [clock] of its readings; each
    call of [Clock::now()] takes the next one. Theorems: a wrong peer is never dialed
    ([dialed_peers_accepted]), the caps on connections hold ([dial_caps_hold]), a node is not
    redialed before its cooldown is over ([dial_cooldown]), and a queue is not served when
    another chain frees the slot it waits for ([queue_not_served_by_others]). [Dialing.v] has the dials
    themselves. *)
From stdpp Require Export gmap.
From S2P Require Export Discv4Types.
Open Scope Z_scope.

(** ** Data *)

(** [discv4::ValidatedPeer]. *)
Record ValidatedPeer := mkValidatedPeer { peer : DiscoveredPeer; pubkey : bytes }.

(** [class DialHistory]; [key] keeps the octets of the node id. *)
Record DialHistory := mkHistory { expiry_ : Z; entries_ : gmap (list Z) Z }.

Definition history_add (now : Z) (id : bytes) (h : DialHistory) : DialHistory :=
  {| expiry_ := expiry_ h; entries_ := <[ id := now + expiry_ h ]> (entries_ h) |}.

Definition history_contains (now : Z) (id : bytes) (h : DialHistory) : bool :=
  match entries_ h !! id with
  | None => false
  | Some until => now <? until
  end.

Definition history_expire (now : Z) (h : DialHistory) : DialHistory :=
  {| expiry_ := expiry_ h; entries_ := filter (fun e => now < snd e) (entries_ h) |}.

Definition history_size (h : DialHistory) : Z := Z.of_nat (size (entries_ h)).

(** [struct WatcherPool]. *)
Record WatcherPool := mkPool { max_total : Z; max_per_chain : Z; active_total : Z }.

(** [struct DialScheduler]; a session is its number. *)
Record DialScheduler := mkScheduler {
  filter_fn : option (DiscoveredPeer -> bool);
  dial_history : DialHistory;
  active : Z;
  validated_count : Z;
  total_validated : Z;
  stopping : bool;
  queue : list ValidatedPeer;
  active_sessions : list Z
}.

(** The constructor, and the filter set afterwards. Its history has the cooldown
    [kDefaultDialHistoryExpiry], 35 seconds; [dial_history] is public, so [expiry] is any here. *)
Definition new_scheduler (filter : option (DiscoveredPeer -> bool)) (expiry : Z) : DialScheduler :=
  {| filter_fn := filter; dial_history := {| expiry_ := expiry; entries_ := ∅ |}; active := 0;
     validated_count := 0; total_validated := 0; stopping := false; queue := [];
     active_sessions := [] |}.

(** [make_fork_id_filter]. *)
Definition make_fork_id_filter (expected_hash : bytes) (p : DiscoveredPeer) : bool :=
  match eth_fork_id p with
  | None => false
  | Some f => bool_decide (fork_hash f = expected_hash)
  end.

(** ** Fields that change together *)

Definition with_history (h : DialHistory) (s : DialScheduler) : DialScheduler :=
  {| filter_fn := filter_fn s; dial_history := h; active := active s;
     validated_count := validated_count s; total_validated := total_validated s;
     stopping := stopping s; queue := queue s; active_sessions := active_sessions s |}.

Definition with_queue (q : list ValidatedPeer) (s : DialScheduler) : DialScheduler :=
  {| filter_fn := filter_fn s; dial_history := dial_history s; active := active s;
     validated_count := validated_count s; total_validated := total_validated s;
     stopping := stopping s; queue := q; active_sessions := active_sessions s |}.

Definition with_active (n : Z) (s : DialScheduler) : DialScheduler :=
  {| filter_fn := filter_fn s; dial_history := dial_history s; active := n;
     validated_count := validated_count s; total_validated := total_validated s;
     stopping := stopping s; queue := queue s; active_sessions := active_sessions s |}.

Definition with_validated (count total : Z) (sessions : list Z) (s : DialScheduler) : DialScheduler :=
  {| filter_fn := filter_fn s; dial_history := dial_history s; active := active s;
     validated_count := count; total_validated := total;
     stopping := stopping s; queue := queue s; active_sessions := sessions |}.

Definition pool_add (n : Z) (p : WatcherPool) : WatcherPool :=
  {| max_total := max_total p; max_per_chain := max_per_chain p; active_total := active_total p + n |}.

(** [active < pool->max_per_chain && pool->active_total.load() < pool->max_total]. *)
Definition slot_free (s : DialScheduler) (p : WatcherPool) : bool :=
  (active s <? max_per_chain p) && (active_total p <? max_total p).

Section clock.
Context (clock : nat -> Z).

(** A scheduler with the pool and the number of clock readings so far. *)
Record Local := mkLocal { sched : DialScheduler; pool : WatcherPool; reads : nat }.

(** A dial that was started: the peer, and the reading its history entry was made with. *)
Abbreviation Started := (ValidatedPeer * nat)%type.

(** [++active; ++pool->active_total; dial_history->add(...); spawn_dial(...)]. *)
Definition start_dial (vp : ValidatedPeer) (l : Local) : Started * Local :=
  let s := sched l in
  ((vp, reads l),
   {| sched := with_history (history_add (clock (reads l)) (node_id (peer vp)) (dial_history s))
                 (with_active (active s + 1) s);
      pool := pool_add 1 (pool l); reads := S (reads l) |}).

Definition expire (l : Local) : Local :=
  {| sched := with_history (history_expire (clock (reads l)) (dial_history (sched l))) (sched l);
     pool := pool l; reads := S (reads l) |}.

(** [dial_history->contains]: the clock is read when there is an entry. *)
Definition contains (vp : ValidatedPeer) (l : Local) : bool * Local :=
  match entries_ (dial_history (sched l)) !! node_id (peer vp) with
  | None => (false, l)
  | Some _ => (history_contains (clock (reads l)) (node_id (peer vp)) (dial_history (sched l)),
               {| sched := sched l; pool := pool l; reads := S (reads l) |})
  end.

Definition enqueue (vp : ValidatedPeer) (l : Local) : list Started * Local :=
  if stopping (sched l) then ([], l)
  else if match filter_fn (sched l) with Some f => negb (f (peer vp)) | None => false end then ([], l)
  else
    let '(dialed, l) := contains vp (expire l) in
    if dialed then ([], l)
    else if slot_free (sched l) (pool l)
    then let '(d, l) := start_dial vp l in ([d], l)
    else ([], {| sched := with_queue (queue (sched l) ++ [vp]) (sched l); pool := pool l; reads := reads l |}).

(** The loop of [release], on the queue [q]. *)
Fixpoint drain (q : list ValidatedPeer) (l : Local) : list Started * Local :=
  match q with
  | [] => ([], {| sched := with_queue [] (sched l); pool := pool l; reads := reads l |})
  | vp :: q' =>
      if slot_free (sched l) (pool l) then
        let '(dialed, l) := contains vp l in
        if dialed then drain q' l
        else let '(d, l) := start_dial vp l in
             let '(ds, l) := drain q' l in (d :: ds, l)
      else ([], {| sched := with_queue q (sched l); pool := pool l; reads := reads l |})
  end.

Definition release (l : Local) : list Started * Local :=
  let l := {| sched := with_active (active (sched l) - 1) (sched l); pool := pool_add (-1) (pool l);
              reads := reads l |} in
  if stopping (sched l) then ([], l)
  else let l := expire l in drain (queue (sched l)) l.

(** [stop]; the sessions it disconnects are those still there, by [alive]. *)
Definition stop (alive : Z -> bool) (s : DialScheduler) : list Z * DialScheduler :=
  (List.filter alive (active_sessions s),
   {| filter_fn := filter_fn s; dial_history := dial_history s; active := active s;
      validated_count := validated_count s; total_validated := total_validated s;
      stopping := true; queue := []; active_sessions := [] |}).

(** The callbacks [spawn_dial] gives to the dial, with its [was_validated]. *)
Definition on_done (was_validated : bool) (l : Local) : list Started * Local :=
  release {| sched := if was_validated
                      then with_validated (validated_count (sched l) - 1) (total_validated (sched l))
                             (active_sessions (sched l)) (sched l)
                      else sched l;
             pool := pool l; reads := reads l |}.

Definition on_connected (session : Z) (s : DialScheduler) : DialScheduler :=
  with_validated (validated_count s + 1) (total_validated s + 1) (active_sessions s ++ [session]) s.

(** ** Chains that share a pool *)

(** A dial in flight. *)
Record Dial := mkDial { d_chain : Z; d_peer : ValidatedPeer; d_validated : bool }.

(** The schedulers by chain, the dials in flight, and the dials ever started: chain, node and
    reading, the latest first. *)
Record World := mkWorld {
  w_pool : WatcherPool;
  w_chains : gmap Z DialScheduler;
  w_dials : list Dial;
  w_reads : nat;
  w_log : list (Z * bytes * nat)
}.

Inductive dial_event :=
| Enqueue (c : Z) (vp : ValidatedPeer)
| Connected (i : nat) (session : Z)
| Done (i : nat)
| Stop (c : Z) (alive : Z -> bool).

(** The world after a method of chain [c] that started [ds] and left [dials] of the others. *)
Definition after (c : Z) (dials : list Dial) (w : World) (r : list Started * Local) : World :=
  {| w_pool := pool (snd r); w_chains := <[ c := sched (snd r) ]> (w_chains w);
     w_dials := dials ++ map (fun d => mkDial c (fst d) false) (fst r);
     w_reads := reads (snd r);
     w_log := rev (map (fun d => (c, node_id (peer (fst d)), snd d)) (fst r)) ++ w_log w |}.

Definition local (s : DialScheduler) (w : World) : Local :=
  {| sched := s; pool := w_pool w; reads := w_reads w |}.

(** What can happen: a call from outside, or a callback of a dial in flight. *)
Definition dial_step (e : dial_event) (w : World) : option World :=
  match e with
  | Enqueue c vp =>
      s ← w_chains w !! c; Some (after c (w_dials w) w (enqueue vp (local s w)))
  | Connected i session =>
      d ← w_dials w !! i; s ← w_chains w !! d_chain d;
      if d_validated d then None
      else Some {| w_pool := w_pool w;
                   w_chains := <[ d_chain d := on_connected session s ]> (w_chains w);
                   w_dials := <[ i := mkDial (d_chain d) (d_peer d) true ]> (w_dials w);
                   w_reads := w_reads w; w_log := w_log w |}
  | Done i =>
      d ← w_dials w !! i; s ← w_chains w !! d_chain d;
      Some (after (d_chain d) (delete i (w_dials w)) w (on_done (d_validated d) (local s w)))
  | Stop c alive =>
      s ← w_chains w !! c;
      Some {| w_pool := w_pool w; w_chains := <[ c := snd (stop alive s) ]> (w_chains w);
              w_dials := w_dials w; w_reads := w_reads w; w_log := w_log w |}
  end.

(** The start: an empty pool and new schedulers. *)
Definition initial (total per_chain : Z) (chains : gmap Z (option (DiscoveredPeer -> bool) * Z)) : World :=
  {| w_pool := mkPool total per_chain 0;
     w_chains := (fun '(f, expiry) => new_scheduler f expiry) <$> chains;
     w_dials := []; w_reads := 0; w_log := [] |}.

Fixpoint run_dials (es : list dial_event) (w : World) : option World :=
  match es with
  | [] => Some w
  | e :: es => w' ← dial_step e w; run_dials es w'
  end.
(** ** One method of one scheduler *)

(** What no method but [stop] and the connection counters changes. *)
Definition same_frame (s s' : DialScheduler) : Prop :=
  filter_fn s' = filter_fn s /\ stopping s' = stopping s
  /\ validated_count s' = validated_count s /\ total_validated s' = total_validated s
  /\ expiry_ (dial_history s') = expiry_ (dial_history s).

(** The dials [fst r] were started: each takes a slot of the chain and of the pool, and a method
    that starts one stays within both caps. *)
Definition takes_slots (l : Local) (r : list Started * Local) : Prop :=
  active (sched (snd r)) = active (sched l) + len (fst r)
  /\ active_total (pool (snd r)) = active_total (pool l) + len (fst r)
  /\ max_total (pool (snd r)) = max_total (pool l)
  /\ max_per_chain (pool (snd r)) = max_per_chain (pool l)
  /\ (fst r = [] \/ active (sched (snd r)) <= max_per_chain (pool l)
                    /\ active_total (pool (snd r)) <= max_total (pool l))
  /\ (reads l <= reads (snd r))%nat
  /\ same_frame (sched l) (sched (snd r))
  /\ (stopping (sched l) = true -> fst r = [] /\ queue (sched (snd r)) = queue (sched l)).

Ltac frame := unfold takes_slots, same_frame, len; cbn; rewrite ?length_app; cbn;
  repeat match goal with |- _ /\ _ => split end; auto; try lia.

Lemma contains_frame vp l : exists n, (reads l <= n)%nat /\
  snd (contains vp l) = {| sched := sched l; pool := pool l; reads := n |}.
Proof.
  destruct l as [s p n]. unfold contains. cbn. case_match; eexists; (split; [| reflexivity]); cbn; lia.
Qed.

Lemma slot_free_spec s p :
  slot_free s p = true <-> active s < max_per_chain p /\ active_total p < max_total p.
Proof. unfold slot_free. rewrite andb_true_iff, !Z.ltb_lt. done. Qed.

Lemma drain_takes_slots q l : stopping (sched l) = false -> takes_slots l (drain q l).
Proof.
  revert l. induction q as [|vp q IH]; intros l Hs; [cbn; frame; congruence |].
  cbn [drain]. destruct (slot_free (sched l) (pool l)) eqn:Hf; [| frame; congruence].
  apply slot_free_spec in Hf. destruct Hf as [Hf1 Hf2].
  destruct (contains_frame vp l) as (n & Hn & Hc).
  destruct (contains vp l) as [[] l1]; cbn in Hc; subst l1.
  - destruct (IH {| sched := sched l; pool := pool l; reads := n |} Hs)
      as (?&?&?&?&?&?&?&?); unfold takes_slots; cbn in *.
    repeat match goal with |- _ /\ _ => split end; try tauto; lia.
  - unfold start_dial. cbn [sched pool reads].
    match goal with |- context [drain q ?l2] => specialize (IH l2 Hs);
      destruct (drain q l2) as [ds l'] end.
    unfold takes_slots, same_frame in *; cbn in *; unfold len in *; cbn in *.
    destruct IH as (?&?&?&?&Hcap&?&?&?).
    repeat match goal with |- _ /\ _ => split end; try tauto; try lia; try congruence.
    right. destruct Hcap as [->|]; cbn in *; lia.
Qed.

Lemma enqueue_takes_slots vp l : takes_slots l (enqueue vp l).
Proof.
  unfold enqueue. destruct (stopping (sched l)) eqn:Hs; [frame |].
  case_match; [frame |].
  destruct (contains_frame vp (expire l)) as (n & Hn & Hc).
  destruct (contains vp (expire l)) as [[] l1]; cbn in Hc, Hn; subst l1;
    [frame; congruence |].
  cbn [sched pool reads].
  destruct (slot_free _ _) eqn:Hf; [| frame; congruence].
  apply slot_free_spec in Hf. cbn in Hf. frame; try congruence.
Qed.

(** [on_done] gives one slot back and then takes slots, none of them when stopping. *)
Lemma on_done_takes_slots v l :
  takes_slots {| sched := with_validated (validated_count (sched l) - Z.b2z v)
                            (total_validated (sched l)) (active_sessions (sched l))
                            (with_active (active (sched l) - 1) (sched l));
                 pool := pool_add (-1) (pool l); reads := reads l |} (on_done v l).
Proof.
  unfold on_done, release.
  match goal with |- context [if stopping ?s then _ else _] => destruct (stopping s) eqn:Hs end.
  - destruct v, l as [[] [] n]; cbn in *; frame.
  - match goal with |- context [drain ?q ?l1] =>
      pose proof (drain_takes_slots q l1 ltac:(destruct v; exact Hs)) as H;
      destruct (drain q l1) as [ds l'] end.
    unfold takes_slots, same_frame in *.
    destruct v, l as [[] [] n]; cbn in *; rewrite ?Z.sub_0_r; intuition (try congruence; lia).
Qed.

(** *** Which peers *)

(** Dials and queue hold peers that satisfy [P]. *)
Definition keeps (P : DiscoveredPeer -> Prop) (r : list Started * Local) : Prop :=
  Forall (fun d => P (peer (fst d))) (fst r) /\ Forall (fun vp => P (peer vp)) (queue (sched (snd r))).

Lemma drain_keeps P q l : Forall (fun vp => P (peer vp)) q -> keeps P (drain q l).
Proof.
  intros Hq. revert l. induction Hq as [|vp q Hvp Hq IH]; intros l; [by split; cbn |].
  cbn [drain]. destruct (slot_free (sched l) (pool l)); [| split; cbn; auto].
  destruct (contains vp l) as [[] l1]; [apply IH |].
  unfold start_dial. cbn [sched pool reads].
  match goal with |- context [drain q ?l2] => destruct (IH l2) as [IHd IHq];
    destruct (drain q l2) as [ds l'] end.
  split; cbn in *; auto.
Qed.

(** The filter accepts the peer. *)
Definition accepts (f : option (DiscoveredPeer -> bool)) (p : DiscoveredPeer) : Prop :=
  match f with Some f => f p = true | None => True end.

Lemma enqueue_keeps vp l :
  let P := accepts (filter_fn (sched l)) in
  Forall (fun vp => P (peer vp)) (queue (sched l)) -> keeps P (enqueue vp l).
Proof.
  intros P Hq. unfold enqueue. destruct (stopping (sched l)); [by split; cbn |].
  destruct (match filter_fn (sched l) with Some f => negb (f (peer vp)) | None => false end) eqn:Hf;
    [by split; cbn |].
  assert (P (peer vp)) as Hvp
    by (unfold P, accepts; destruct (filter_fn _); [by apply negb_false_iff in Hf | done]).
  destruct (contains_frame vp (expire l)) as (n & Hn & Hc).
  destruct (contains vp (expire l)) as [[] l1]; cbn in Hc; subst l1; [by split; cbn |].
  cbn [sched pool reads]. destruct (slot_free _ _); split; cbn; auto.
  apply Forall_app. auto.
Qed.

Lemma on_done_keeps P v l :
  Forall (fun vp => P (peer vp)) (queue (sched l)) -> keeps P (on_done v l).
Proof.
  intros Hq. unfold on_done, release.
  match goal with |- context [if stopping ?s then _ else _] => destruct (stopping s) end.
  - split; [constructor |]. by destruct v.
  - apply drain_keeps. by destruct v.
Qed.

(** Peers leave the queue to be dialed or to be dropped; nothing is dialed or queued twice. *)
Definition holds (r : list Started * Local) : list ValidatedPeer := map fst (fst r) ++ queue (sched (snd r)).

Lemma drain_holds q : forall l, holds (drain q l) ⊆+ q.
Proof.
  induction q as [|vp q IH]; intros l; [done |]. cbn [drain].
  destruct (slot_free (sched l) (pool l)); [| done].
  destruct (contains vp l) as [[] l1]; [by apply submseteq_cons |].
  unfold start_dial. match goal with |- context [drain q ?l2] => specialize (IH l2); destruct (drain q l2) as [ds l'] end.
  by apply submseteq_skip.
Qed.

Lemma enqueue_holds vp l : holds (enqueue vp l) ⊆+ queue (sched l) ++ [vp].
Proof.
  assert (queue (sched l) ⊆+ queue (sched l) ++ [vp]) as Hq by by apply submseteq_inserts_r.
  unfold enqueue. destruct (stopping (sched l)); [done |].
  destruct (match filter_fn (sched l) with Some f => negb (f (peer vp)) | None => false end); [done |].
  destruct (contains_frame vp (expire l)) as (n & Hn & Hc).
  destruct (contains vp (expire l)) as [[] l1]; cbn in Hc; subst l1; [done |].
  cbn [sched pool reads]. destruct (slot_free _ _); [| done]. unfold holds. cbn. by rewrite Permutation_cons_append.
Qed.

Lemma on_done_holds v l : holds (on_done v l) ⊆+ queue (sched l).
Proof.
  unfold on_done, release.
  match goal with |- context [if stopping ?s then _ else _] => destruct (stopping s) end; [by destruct v |].
  match goal with |- context [drain ?q ?l1] => pose proof (drain_holds q l1) as H; destruct (drain q l1) end. by destruct v.
Qed.

(** *** When: the history of dials *)

(** A start in the log: the chain and the node, and the reading it was made with. *)
Abbreviation Start := (Z * bytes * nat)%type.

Definition monotone : Prop := forall i j, (i <= j)%nat -> clock i <= clock j.

(** Two starts of one node by chain [c] lie [d] apart. *)
Definition apart (c d : Z) (new old : Start) : Prop :=
  fst new = fst old -> fst (fst new) = c -> clock (snd old) + d <= clock (snd new).

(** After [n] readings the history still holds each start of [c] in [log] whose time has not
    come, and the starts lie [expiry_] apart. *)
Definition remembers (c : Z) (h : DialHistory) (n : nat) (log : list Start) : Prop :=
  (forall id t, (c, id, t) ∈ log ->
     clock t + expiry_ h <= clock n
     \/ exists until, entries_ h !! (id : bytes) = Some until /\ clock t + expiry_ h <= until)
  /\ ForallOrdPairs (apart c (expiry_ h)) log.

Lemma remembers_later c h n n' log :
  monotone -> (n <= n')%nat -> remembers c h n log -> remembers c h n' log.
Proof.
  intros Hm Hn [H1 H2]. split; [| done]. intros id t Ht.
  specialize (Hm n n' Hn). destruct (H1 id t Ht); [left; lia | by right].
Qed.

Lemma remembers_expire c h n log :
  monotone -> remembers c h n log -> remembers c (history_expire (clock n) h) (S n) log.
Proof.
  intros Hm [H1 H2]. split; [| done]. cbn. intros id t Ht.
  pose proof (Hm n (S n) ltac:(lia)) as Hn.
  destruct (H1 id t Ht) as [|(u & Hu & Hle)]; [left; lia |].
  destruct (decide (clock n < u)).
  - right. exists u. split; [| done]. by apply map_lookup_filter_Some_2.
  - left. lia.
Qed.

(** What the answer [false] of [contains] says of the log. *)
Lemma contains_false c vp l log l' :
  monotone -> remembers c (dial_history (sched l)) (reads l) log -> contains vp l = (false, l') ->
  sched l' = sched l /\ pool l' = pool l /\ (reads l <= reads l')%nat
  /\ forall t, (c, node_id (peer vp), t) ∈ log ->
       clock t + expiry_ (dial_history (sched l)) <= clock (reads l').
Proof.
  intros Hm [H1 _] Hc. unfold contains, history_contains in Hc.
  destruct (entries_ (dial_history (sched l)) !! node_id (peer vp)) as [u|] eqn:Hu;
    rewrite ?Hu in Hc.
  - injection Hc as Hlt <-. cbn. repeat split; [lia |]. intros t Ht. apply Z.ltb_ge in Hlt.
    pose proof (Hm (reads l) (S (reads l)) ltac:(lia)).
    destruct (H1 _ t Ht) as [|(u' & Hu' & ?)]; [lia |]. rewrite Hu in Hu'. injection Hu' as <-. lia.
  - injection Hc as <-. repeat split; [lia |]. intros t Ht.
    destruct (H1 _ t Ht) as [|(u' & Hu' & ?)]; [lia |]. by rewrite Hu in Hu'.
Qed.

Lemma remembers_start c h n log id :
  monotone -> remembers c h n log ->
  (forall t, (c, id, t) ∈ log -> clock t + expiry_ h <= clock n) ->
  remembers c (history_add (clock n) id h) (S n) ((c, id, n) :: log).
Proof.
  intros Hm [H1 H2] Hn. pose proof (Hm n (S n) ltac:(lia)). split; cbn.
  - intros id' t Ht. destruct (decide (id' = id)) as [->|Hne].
    + apply elem_of_cons in Ht as [[= ->]|Ht].
      * right. eexists. split; [apply lookup_insert_eq | lia].
      * left. specialize (Hn t Ht). lia.
    + apply elem_of_cons in Ht as [[= ? ?]|Ht]; [congruence |].
      rewrite lookup_insert_ne by congruence.
      destruct (H1 id' t Ht) as [|?]; [left; lia | by right].
  - constructor; [| done]. apply Forall_forall. intros [[c' id'] t] Ht Heq _. cbn in *.
    injection Heq as <- <-. by apply Hn, list_elem_of_In.
Qed.

Lemma remembers_other c c' h n n' log new :
  monotone -> (n <= n')%nat -> c <> c' -> Forall (fun s => fst (fst s) = c') new ->
  remembers c h n log -> remembers c h n' (new ++ log).
Proof.
  intros Hm Hn Hc Hnew H. apply (remembers_later _ _ _ n') in H as [H1 H2]; [| done..].
  induction Hnew as [|[[c1 id] t] new Hs Hnew IH]; [done |]. cbn in *. subst c1.
  destruct IH as [IH1 IH2]. split.
  - intros id' t' Ht. apply elem_of_cons in Ht as [[= ? ? ?]|Ht]; [congruence | by apply IH1].
  - constructor; [| done]. apply Forall_forall. intros s _ _ ?. cbn in *. congruence.
Qed.

(** The log entries of the dials [ds] of chain [c], the latest first. *)
Definition starts_of (c : Z) (ds : list Started) : list Start :=
  rev (map (fun d => (c, node_id (peer (fst d)), snd d)) ds).

Lemma drain_remembers c q l log :
  monotone -> remembers c (dial_history (sched l)) (reads l) log ->
  let r := drain q l in
  remembers c (dial_history (sched (snd r))) (reads (snd r)) (starts_of c (fst r) ++ log).
Proof.
  intros Hm. revert l log. induction q as [|vp q IH]; intros l log H; [done |].
  cbn [drain]. destruct (slot_free (sched l) (pool l)); [| done].
  destruct (contains_frame vp l) as (n & Hn & Hc).
  destruct (contains vp l) as [[] l1] eqn:E; cbn in Hc; subst l1.
  - apply IH. cbn. by apply (remembers_later _ _ (reads l)).
  - destruct (contains_false _ _ _ _ _ Hm H E) as (_ & _ & _ & Hid). cbn in Hid.
    unfold start_dial. cbn [sched pool reads].
    match goal with |- context [drain q ?l2] =>
      specialize (IH l2 ((c, node_id (peer vp), n) :: log)); destruct (drain q l2) as [ds l'] end.
    unfold starts_of in *. cbn in *. rewrite <- app_assoc. apply IH.
    apply remembers_start; [done | by apply (remembers_later _ _ (reads l)) | done].
Qed.

Lemma enqueue_remembers c vp l log :
  monotone -> remembers c (dial_history (sched l)) (reads l) log ->
  let r := enqueue vp l in
  remembers c (dial_history (sched (snd r))) (reads (snd r)) (starts_of c (fst r) ++ log).
Proof.
  intros Hm H. unfold enqueue. destruct (stopping (sched l)); [done |]. case_match; [done |].
  assert (remembers c (dial_history (sched (expire l))) (reads (expire l)) log) as He
    by (cbn; by apply remembers_expire).
  destruct (contains_frame vp (expire l)) as (n & Hn & Hc).
  destruct (contains vp (expire l)) as [[] l1] eqn:E; cbn [snd] in Hc; subst l1.
  - cbn. by apply (remembers_later _ _ (S (reads l))).
  - destruct (contains_false _ _ _ _ _ Hm He E) as (_ & _ & _ & Hid).
    apply (remembers_later _ _ _ n) in He; [| done..].
    cbn [sched pool reads]. destruct (slot_free _ _); cbn; [| done]. by apply remembers_start.
Qed.

Lemma on_done_remembers c v l log :
  monotone -> remembers c (dial_history (sched l)) (reads l) log ->
  let r := on_done v l in
  remembers c (dial_history (sched (snd r))) (reads (snd r)) (starts_of c (fst r) ++ log).
Proof.
  intros Hm H. unfold on_done, release.
  match goal with |- context [if stopping ?s then _ else _] => destruct (stopping s) end.
  - by destruct v.
  - apply drain_remembers; [done |]. destruct v; cbn; by apply remembers_expire.
Qed.

(** ** Chains together *)

(** The scheduler of one chain is replaced. *)
Definition with_chain (c : Z) (s : DialScheduler) (dials : list Dial) (w : World) : World :=
  {| w_pool := w_pool w; w_chains := <[ c := s ]> (w_chains w); w_dials := dials;
     w_reads := w_reads w; w_log := w_log w |}.

(** The steps by cases. *)
Inductive stepped (w : World) : dial_event -> World -> Prop :=
| stepped_enqueue c vp s :
    w_chains w !! c = Some s ->
    stepped w (Enqueue c vp) (after c (w_dials w) w (enqueue vp (local s w)))
| stepped_connected i d s session :
    w_dials w !! i = Some d -> w_chains w !! d_chain d = Some s -> d_validated d = false ->
    stepped w (Connected i session) (with_chain (d_chain d) (on_connected session s)
                 (<[ i := mkDial (d_chain d) (d_peer d) true ]> (w_dials w)) w)
| stepped_done i d s :
    w_dials w !! i = Some d -> w_chains w !! d_chain d = Some s ->
    stepped w (Done i)
      (after (d_chain d) (delete i (w_dials w)) w (on_done (d_validated d) (local s w)))
| stepped_stop c alive s :
    w_chains w !! c = Some s ->
    stepped w (Stop c alive) (with_chain c (snd (stop alive s)) (w_dials w) w).

Lemma dial_step_stepped e w w' : dial_step e w = Some w' -> stepped w e w'.
Proof.
  intros H. destruct e; unfold dial_step in H; simplify_option_eq.
  - by constructor.
  - case_match; simplify_eq. by constructor.
  - by constructor.
  - by apply (stepped_stop w c alive).
Qed.

Ltac step_cases H := apply dial_step_stepped in H;
  destruct H as [c vp s Hs | i d s session Hd Hs Hv | i d s Hd Hs | c alive s Hs].

Lemma run_dials_inv (I : World -> Prop) es w w' :
  (forall e w w', I w -> dial_step e w = Some w' -> I w') ->
  I w -> run_dials es w = Some w' -> I w'.
Proof.
  intros Hstep. revert w. induction es as [|e es IH]; intros w Hw Hr; cbn in Hr; [by simplify_eq |].
  destruct (dial_step e w) as [w1|] eqn:E; [| done]. exact (IH w1 (Hstep e w w1 Hw E) Hr).
Qed.

(** A property of every scheduler holds after a step that changes chain [c]. *)
Lemma chains_insert (P : Z -> DialScheduler -> Prop) c s (m : gmap Z DialScheduler) :
  P c s -> (forall c' s', c' <> c -> m !! c' = Some s' -> P c' s') ->
  forall c' s', <[ c := s ]> m !! c' = Some s' -> P c' s'.
Proof.
  intros Hs H c' s' Hl. apply lookup_insert_Some in Hl as [[<- <-]|[Hne Hl]]; auto.
Qed.

(** *** Filters and cooldowns are never changed *)

Definition config (c : Z) (w : World) : option (option (DiscoveredPeer -> bool) * Z) :=
  (fun s => (filter_fn s, expiry_ (dial_history s))) <$> w_chains w !! c.

Lemma config_insert c s s' m c' :
  m !! c = Some s -> filter_fn s' = filter_fn s ->
  expiry_ (dial_history s') = expiry_ (dial_history s) ->
  (fun s => (filter_fn s, expiry_ (dial_history s))) <$> (<[ c := s' ]> m : gmap Z DialScheduler) !! c'
  = (fun s => (filter_fn s, expiry_ (dial_history s))) <$> m !! c'.
Proof.
  intros Hs Hf He. destruct (decide (c' = c)) as [->|Hne].
  - rewrite lookup_insert_eq, Hs. cbn. by rewrite Hf, He.
  - by rewrite lookup_insert_ne.
Qed.

Lemma config_step k x e w w' : config k w = x -> dial_step e w = Some w' -> config k w' = x.
Proof.
  intros <- H. step_cases H; cbn.
  - pose proof (enqueue_takes_slots vp (local s w)) as (_&_&_&_&_&_&(?&?&?&?&?)&_).
    by apply (config_insert _ s).
  - by apply (config_insert _ s).
  - pose proof (on_done_takes_slots (d_validated d) (local s w)) as (_&_&_&_&_&_&(?&?&?&?&?)&_).
    by apply (config_insert _ s).
  - by apply (config_insert _ s).
Qed.

Lemma config_run c es w w' : run_dials es w = Some w' -> config c w' = config c w.
Proof.
  apply (run_dials_inv (fun w' => config c w' = config c w)); [| done].
  intros e w1 w2 H1 H2. by apply (config_step _ _ _ _ _ H1 H2).
Qed.

Lemma config_initial c total per_chain chains :
  config c (initial total per_chain chains) = chains !! c.
Proof. unfold config. cbn. rewrite lookup_fmap. by destruct (chains !! c) as [[f e]|]. Qed.

(** *** Counting dials *)

Definition count {A} (P : A -> bool) (l : list A) : Z := len (List.filter P l).

Lemma count_app {A} (P : A -> bool) l k : count P (l ++ k) = count P l + count P k.
Proof. unfold count. by rewrite List.filter_app, len_app. Qed.

Lemma count_cons {A} (P : A -> bool) x l : count P (x :: l) = Z.b2z (P x) + count P l.
Proof. unfold count. cbn. destruct (P x); [apply len_cons | done]. Qed.

Lemma count_delete {A} (P : A -> bool) l i x :
  l !! i = Some x -> count P (delete i l) = count P l - Z.b2z (P x).
Proof.
  intros H. rewrite <- (take_drop_middle l i x H) at 2.
  rewrite delete_take_drop, !count_app, count_cons. lia.
Qed.

Lemma count_insert {A} (P : A -> bool) l i x y :
  l !! i = Some x -> count P (<[ i := y ]> l) = count P l - Z.b2z (P x) + Z.b2z (P y).
Proof.
  intros H. rewrite <- (take_drop_middle l i x H) at 2.
  rewrite insert_take_drop by by apply lookup_lt_Some in H. rewrite !count_app, !count_cons. lia.
Qed.

#[export] Instance count_proper {A} (P : A -> bool) : Proper ((≡ₚ) ==> eq) (count P).
Proof. intros l l' Hp. unfold count, len. f_equal. induction Hp; cbn; repeat case_match; cbn; congruence. Qed.

Lemma count_submseteq {A} (P : A -> bool) l l' : l ⊆+ l' -> count P l <= count P l'.
Proof. intros (rest & ->)%submseteq_Permutation. rewrite count_app. unfold count at 3. pose proof (len_nonneg (List.filter P rest)). lia. Qed.

Lemma count_all {A} (P : A -> bool) l : Forall (fun x => P x = true) l -> count P l = len l.
Proof. induction 1 as [|x l Hx _ IH]; [done |]. by rewrite count_cons, len_cons, Hx, IH. Qed.

Lemma count_alter {A} (P : A -> bool) f l i x :
  l !! i = Some x -> count P (alter f i l) = count P l - Z.b2z (P x) + Z.b2z (P (f x)).
Proof.
  intros Hi. rewrite <- (count_insert P l i x (f x) Hi). f_equal. apply list_eq. intros j.
  destruct (decide (i = j)) as [<-|Hne].
  - rewrite list_lookup_alter_eq, list_lookup_insert_eq by by apply lookup_lt_Some in Hi. by rewrite Hi.
  - by rewrite list_lookup_alter_ne, list_lookup_insert_ne.
Qed.

Lemma count_mono {A} (P Q : A -> bool) l : (forall x, P x = true -> Q x = true) -> count P l <= count Q l.
Proof.
  intros Hpq. induction l as [|x l IH]; [done |]. rewrite !count_cons. specialize (Hpq x). destruct (P x), (Q x); cbn; lia.
Qed.
Lemma count_same {A} (P Q : A -> bool) l x : (forall x, P x = true -> Q x = true) -> count Q l <= count P l -> x ∈ l -> Q x = true -> P x = true.
Proof.
  intros Hpq. induction l as [|y l IH]; [intros _ Hx; by apply elem_of_nil in Hx |]. rewrite !count_cons. intros Hle Hx Hq.
  pose proof (count_mono P Q l Hpq) as Hm. pose proof (Hpq y) as Hy. apply elem_of_cons in Hx as [<-|Hx].
  - destruct (P x); [done |]. rewrite Hq in Hle. cbn in Hle. lia.
  - apply IH; [| done..]. destruct (P y), (Q y); cbn in *; lia.
Qed.

Definition of_chain (c : Z) (d : Dial) : bool := d_chain d =? c.
Definition validated_in (c : Z) (d : Dial) : bool := (d_chain d =? c) && d_validated d.
Definition any (d : Dial) : bool := true.

Lemma count_any l : count any l = len l.
Proof. induction l as [|d l IH]; [done |]. rewrite count_cons, len_cons, IH. done. Qed.

(** The dials a method of [c] started. *)
Definition started (c : Z) (ds : list Started) : list Dial := map (fun d => mkDial c (fst d) false) ds.

Lemma count_started c ds c' :
  count any (started c ds) = len ds
  /\ count (of_chain c') (started c ds) = (if c =? c' then len ds else 0)
  /\ count (validated_in c') (started c ds) = 0.
Proof.
  induction ds as [|d ds (IH1 & IH2 & IH3)]; [by destruct (c =? c') |].
  cbn [started map]. rewrite !count_cons, len_cons. fold (started c ds).
  rewrite IH1, IH2, IH3. unfold of_chain, validated_in. cbn. destruct (c =? c'); cbn; lia.
Qed.

(** *** Connections are counted and capped *)

Definition pool_counts (p : WatcherPool) (dials : list Dial) : Prop :=
  active_total p = count any dials /\ count any dials <= max_total p.

Definition chain_counts (p : WatcherPool) (dials : list Dial) (c : Z) (s : DialScheduler) : Prop :=
  active s = count (of_chain c) dials /\ count (of_chain c) dials <= max_per_chain p
  /\ validated_count s = count (validated_in c) dials /\ validated_count s <= total_validated s
  /\ (stopping s = true -> queue s = []).

Definition counts (w : World) : Prop :=
  pool_counts (w_pool w) (w_dials w)
  /\ forall c s, w_chains w !! c = Some s -> chain_counts (w_pool w) (w_dials w) c s.

(** A method that takes slots keeps the counts, its new dials included. *)
Lemma counts_after c dials w l r :
  takes_slots l r -> pool_counts (pool l) dials -> chain_counts (pool l) dials c (sched l) ->
  (forall c' s, c' <> c -> w_chains w !! c' = Some s -> chain_counts (pool l) dials c' s) ->
  counts (after c dials w r).
Proof.
  intros (Ha & Ht & Hmt & Hmc & Hcap & _ & (Hf & Hst & Hv & Htv & _) & Hq) [Hp1 Hp2]
    (H1 & H2 & H3 & H4 & H5) Hother.
  destruct (count_started c (fst r) c) as (Hn1 & Hn2 & Hn3). rewrite Z.eqb_refl in Hn2.
  split; cbn; fold (started c (fst r)).
  - unfold pool_counts. rewrite count_app, Hn1, Hmt, Ht.
    destruct Hcap as [Hnil|[_ ?]]; [apply (f_equal len) in Hnil; rewrite len_nil in Hnil|]; lia.
  - apply chains_insert.
    + unfold chain_counts. rewrite !count_app, Hn2, Hn3, Hmc, Ha, Hv, Htv, Hst.
      split_and!; try lia.
      * destruct Hcap as [Hnil|[? _]]; [apply (f_equal len) in Hnil; rewrite len_nil in Hnil|]; lia.
      * intros Hs. destruct (Hq Hs) as [_ ->]. auto.
    + intros c' s' Hne Hs'. destruct (Hother c' s' Hne Hs') as (?&?&?&?&?).
      destruct (count_started c (fst r) c') as (_ & Hm2 & Hm3).
      destruct (Z.eqb_spec c c'); [congruence |].
      unfold chain_counts. rewrite !count_app, Hm2, Hm3, Hmc. split_and!; auto; lia.
Qed.

Lemma of_chain_other c d : c <> d_chain d -> of_chain c d = false /\ validated_in c d = false.
Proof.
  intros Hne. unfold validated_in, of_chain. destruct (Z.eqb_spec (d_chain d) c); [congruence | done].
Qed.

Lemma of_chain_self d : of_chain (d_chain d) d = true /\ validated_in (d_chain d) d = d_validated d.
Proof. unfold validated_in, of_chain. by rewrite Z.eqb_refl. Qed.

Lemma counts_step e w w' : counts w -> dial_step e w = Some w' -> counts w'.
Proof.
  intros [Hp Hc] H. step_cases H.
  - apply (counts_after _ _ _ (local s w)); [apply enqueue_takes_slots | done | by apply Hc |].
    intros c' s' _. apply Hc.
  - split; cbn.
    + unfold pool_counts. erewrite !count_insert by done. destruct Hp. cbn. lia.
    + apply chains_insert.
      * destruct (Hc _ _ Hs) as (?&?&?&?&?). unfold chain_counts. erewrite !count_insert by done.
        destruct (of_chain_self d) as [E1 E2].
        destruct (of_chain_self (mkDial (d_chain d) (d_peer d) true)) as [E3 E4].
        cbn [d_chain] in E3, E4. rewrite E1, E2, E3, E4, Hv. cbn. split_and!; auto; lia.
      * intros c' s' Hne Hs'. destruct (Hc _ _ Hs') as (?&?&?&?&?).
        destruct (of_chain_other c' d Hne) as [E1 E2].
        destruct (of_chain_other c' (mkDial (d_chain d) (d_peer d) true) Hne) as [E3 E4].
        unfold chain_counts. erewrite !count_insert by done. rewrite E1, E2, E3, E4. cbn.
        split_and!; auto; lia.
  - eapply counts_after; [apply on_done_takes_slots | ..]; cbn.
    + destruct Hp. unfold pool_counts. erewrite !count_delete by done. cbn. lia.
    + destruct (Hc _ _ Hs) as (?&?&?&?&?). unfold chain_counts. erewrite !count_delete by done.
      destruct (of_chain_self d) as [E1 E2]. rewrite E1, E2. cbn.
      split_and!; auto; destruct (d_validated d); cbn; lia.
    + intros c' s' Hne Hs'. destruct (Hc _ _ Hs') as (?&?&?&?&?).
      destruct (of_chain_other c' d Hne) as [E1 E2].
      unfold chain_counts. erewrite !count_delete by done. rewrite E1, E2. cbn. split_and!; auto; lia.
  - split; [done |]. apply chains_insert; [| intros c' s' _; apply Hc].
    destruct (Hc _ _ Hs) as (?&?&?&?&?). by split_and!.
Qed.

Lemma counts_initial total per_chain chains :
  0 <= total -> 0 <= per_chain -> counts (initial total per_chain chains).
Proof.
  split; [done |]. intros c s Hs. cbn in Hs. rewrite lookup_fmap in Hs.
  destruct (chains !! c) as [[f e]|]; cbn in Hs; [| done]. injection Hs as <-. by split_and!.
Qed.

(** C22: in every reachable state the counters count the dials in flight, and the dials respect
    both caps: the pool's counter is the number of dials, which is at most [max_total]; each
    chain's is the number of its dials, at most [max_per_chain]; [validated_count] is the number
    of its dials that connected; and a stopped chain has no queue. *)
Theorem dial_caps_hold total per_chain chains es w :
  0 <= total -> 0 <= per_chain ->
  run_dials es (initial total per_chain chains) = Some w ->
  active_total (w_pool w) = len (w_dials w) /\ len (w_dials w) <= max_total (w_pool w)
  /\ forall c s, w_chains w !! c = Some s ->
       active s = count (of_chain c) (w_dials w) /\ active s <= max_per_chain (w_pool w)
       /\ validated_count s = count (validated_in c) (w_dials w)
       /\ validated_count s <= total_validated s
       /\ (stopping s = true -> queue s = []).
Proof.
  intros Ht Hpc Hr. apply (run_dials_inv counts) in Hr as [[H1 H2] H]; [| apply counts_step |].
  - rewrite <- count_any. split_and!; [done.. |]. intros c s Hs.
    destruct (H c s Hs) as (?&?&?&?&?). split_and!; auto; lia.
  - by apply counts_initial.
Qed.

(** *** Accepted peers *)

Definition accepted (w : World) : Prop :=
  forall c s, w_chains w !! c = Some s ->
    Forall (fun vp => accepts (filter_fn s) (peer vp)) (queue s)
    /\ Forall (fun d => d_chain d = c -> accepts (filter_fn s) (peer (d_peer d))) (w_dials w).

Lemma accepted_after c s dials w r :
  w_chains w !! c = Some s -> filter_fn (sched (snd r)) = filter_fn s ->
  keeps (accepts (filter_fn s)) r -> (forall P, Forall P (w_dials w) -> Forall P dials) -> accepted w ->
  accepted (after c dials w r).
Proof.
  intros Hs Hf [Hd Hq] Hsub H c' s' Hs'. cbn in Hs'. revert c' s' Hs'. apply chains_insert.
  - rewrite Hf. split; [done |]. cbn. apply Forall_app. split.
    + apply Hsub. by apply H.
    + apply Forall_map. eapply Forall_impl; [| exact Hd]. by intros d Hd' _.
  - intros c' s' Hne Hs'. destruct (H c' s' Hs') as [H1 H2]. split; [done |]. cbn.
    apply Forall_app. split; [by apply Hsub |].
    apply Forall_map, Forall_forall. intros d _ ?. cbn in *. congruence.
Qed.

Lemma accepted_step e w w' : accepted w -> dial_step e w = Some w' -> accepted w'.
Proof.
  intros H E. step_cases E.
  - destruct (H c s Hs) as [Hq _].
    pose proof (enqueue_takes_slots vp (local s w)) as (_&_&_&_&_&_&(?&_)&_).
    apply (accepted_after _ s); auto. by apply (enqueue_keeps vp (local s w)).
  - intros c' s' Hs'. cbn in Hs'. revert c' s' Hs'. apply chains_insert.
    + destruct (H _ s Hs) as [H1 H2]. split; [done |]. cbn. apply Forall_insert; [done |].
      rewrite Forall_lookup in H2. by apply (H2 i d Hd).
    + intros c' s' Hne Hs'. destruct (H c' s' Hs') as [H1 H2]. split; [done |]. cbn.
      apply Forall_insert; [done |]. cbn. congruence.
  - destruct (H _ s Hs) as [Hq _].
    pose proof (on_done_takes_slots (d_validated d) (local s w)) as (_&_&_&_&_&_&(?&_)&_).
    apply (accepted_after _ s); auto using Forall_delete. by apply on_done_keeps.
  - intros c' s' Hs'. cbn in Hs'. revert c' s' Hs'. apply chains_insert.
    + split; [apply List.Forall_nil | cbn; by apply (H c s)].
    + intros c' s' _ Hs'. by apply H.
Qed.

(** only peers the filter of their chain accepts are ever dialed. *)
Theorem dialed_peers_accepted total per_chain chains es w i d f expiry :
  run_dials es (initial total per_chain chains) = Some w ->
  w_dials w !! i = Some d -> chains !! d_chain d = Some (Some f, expiry) ->
  f (peer (d_peer d)) = true.
Proof.
  intros Hr Hd Hf. pose proof (config_run (d_chain d) _ _ _ Hr) as Hc.
  rewrite config_initial, Hf in Hc. unfold config in Hc.
  destruct (w_chains w !! d_chain d) as [s|] eqn:Hs; cbn in Hc; [| done]. injection Hc as Hc _.
  apply (run_dials_inv accepted) in Hr as H; [| apply accepted_step |].
  - destruct (H _ _ Hs) as [_ H1]. rewrite Hc, Forall_lookup in H1. by apply (H1 i d Hd).
  - intros c s0 Hs0. cbn in *. rewrite lookup_fmap in Hs0.
    destruct (chains !! c) as [[]|]; cbn in Hs0; [| done]. injection Hs0 as <-. by split.
Qed.

(** *** Cooldowns *)

Definition remembered (w : World) : Prop :=
  forall c s, w_chains w !! c = Some s -> remembers c (dial_history s) (w_reads w) (w_log w).

Lemma remembered_after c dials w r :
  monotone -> (w_reads w <= reads (snd r))%nat ->
  remembers c (dial_history (sched (snd r))) (reads (snd r)) (starts_of c (fst r) ++ w_log w) ->
  remembered w -> remembered (after c dials w r).
Proof.
  intros Hm Hn Hr H c' s' Hs'. cbn in Hs'. revert c' s' Hs'. apply chains_insert; [done |].
  intros c' s' Hne Hs'. apply (remembers_other c' c _ (w_reads w)); auto.
  apply Forall_rev, Forall_map. by apply Forall_true.
Qed.

Lemma remembered_step e w w' :
  monotone -> remembered w -> dial_step e w = Some w' -> remembered w'.
Proof.
  intros Hm H E. step_cases E.
  - pose proof (enqueue_takes_slots vp (local s w)) as (_&_&_&_&_&Hn&_).
    apply remembered_after; auto. by apply enqueue_remembers; [| apply H].
  - intros c' s' Hs'. cbn in Hs'. revert c' s' Hs'.
    apply chains_insert; [by apply (H _ s) | intros; by apply H].
  - pose proof (on_done_takes_slots (d_validated d) (local s w)) as (_&_&_&_&_&Hn&_).
    apply remembered_after; auto. by apply on_done_remembers; [| apply H].
  - intros c' s' Hs'. cbn in Hs'. revert c' s' Hs'.
    apply chains_insert; [by apply (H _ s) | intros; by apply H].
Qed.

Lemma ForallOrdPairs_lookup {A} (R : A -> A -> Prop) l i j x y :
  ForallOrdPairs R l -> (i < j)%nat -> l !! i = Some x -> l !! j = Some y -> R x y.
Proof.
  intros H. revert i j. induction H as [|a l Ha Hl IH]; intros i j Hij Hi Hj; [done |].
  destruct j as [|j]; [lia |]. destruct i as [|i]; cbn in *.
  - injection Hi as ->. rewrite List.Forall_forall in Ha.
    by apply Ha, list_elem_of_In, (list_elem_of_lookup_2 _ j).
  - apply (IH i j); [lia | done..].
Qed.

(** C35: with a clock that never goes back, two dials of the same node by the same chain start
    at least the chain's cooldown apart, whatever happens in between: expiry of entries, other
    dials, queueing, other chains. *)
Theorem dial_cooldown total per_chain chains es w c id i j t1 t2 f expiry :
  (forall a b, (a <= b)%nat -> clock a <= clock b) ->
  run_dials es (initial total per_chain chains) = Some w ->
  chains !! c = Some (f, expiry) ->
  w_log w !! j = Some (c, id, t1) -> w_log w !! i = Some (c, id, t2) -> (i < j)%nat ->
  clock t1 + expiry <= clock t2.
Proof.
  intros Hm Hr Hf Hj Hi Hij. pose proof (config_run c _ _ _ Hr) as Hc.
  rewrite config_initial, Hf in Hc. unfold config in Hc.
  destruct (w_chains w !! c) as [s|] eqn:Hs; cbn in Hc; [| done]. injection Hc as _ <-.
  apply (run_dials_inv remembered) in Hr as H; [| intros ???; by apply remembered_step |].
  - destruct (H _ _ Hs) as [_ H1]. exact (ForallOrdPairs_lookup _ _ _ _ _ _ H1 Hij Hi Hj eq_refl eq_refl).
  - intros c' s0 _. split; [| constructor]. intros id' t Ht. cbn in Ht. by apply elem_of_nil in Ht.
Qed.

(** *** Queues and other chains *)

(** The event is a call of [enqueue] or [stop] on chain [c]. *)
Definition calls_chain (c : Z) (e : dial_event) : bool :=
  match e with Enqueue c' _ | Stop c' _ => c' =? c | Connected _ _ | Done _ => false end.

Lemma drain_serves q l :
  let l' := snd (drain q l) in queue (sched l') = [] \/ slot_free (sched l') (pool l') = false.
Proof.
  revert l. induction q as [|vp q IH]; intros l; [by left |].
  cbn [drain]. destruct (slot_free (sched l) (pool l)) eqn:Hf; [| by right].
  destruct (contains vp l) as [[] l1]; [apply IH |].
  unfold start_dial. match goal with |- context [drain q ?l2] =>
    specialize (IH l2); destruct (drain q l2) as [ds l'] end. exact IH.
Qed.

Lemma on_done_serves v l : let l' := snd (on_done v l) in
  stopping (sched l) = false -> queue (sched l') = [] \/ slot_free (sched l') (pool l') = false.
Proof.
  cbn zeta. intros Hs. unfold on_done, release.
  match goal with |- context [if stopping ?s then _ else _] =>
    replace (stopping s) with false by by destruct v end.
  apply drain_serves.
Qed.

Lemma count_after c dials w r k :
  k <> c -> count (of_chain k) (w_dials (after c dials w r)) = count (of_chain k) dials.
Proof.
  intros Hne. cbn. fold (started c (fst r)). destruct (count_started c (fst r) k) as (_ & H & _).
  destruct (Z.eqb_spec c k); [congruence |]. rewrite count_app, H. lia.
Qed.

Lemma chain_of_dial k d l i : l !! i = Some d -> count (of_chain k) l = 0 -> d_chain d <> k.
Proof.
  intros Hd H0 <-. pose proof (count_delete (of_chain (d_chain d)) l i d Hd) as H.
  destruct (of_chain_self d) as [E _]. rewrite E, H0 in H. unfold count in H.
  pose proof (len_nonneg (List.filter (of_chain (d_chain d)) (delete i l))). cbn in H. lia.
Qed.

Lemma idle_chain_step k x e w w' :
  w_chains w !! k = x -> count (of_chain k) (w_dials w) = 0 ->
  dial_step e w = Some w' -> calls_chain k e = false ->
  w_chains w' !! k = x /\ count (of_chain k) (w_dials w') = 0.
Proof.
  intros <- H0 H. step_cases H; cbn [calls_chain]; intros He; try apply Z.eqb_neq in He.
  - rewrite count_after by done. split; [by apply lookup_insert_ne | done].
  - pose proof (chain_of_dial k d _ i Hd H0) as Hne. split; [by apply lookup_insert_ne |]. cbn.
    destruct (of_chain_other k d ltac:(done)) as [E _].
    destruct (of_chain_other k (mkDial (d_chain d) (d_peer d) true) ltac:(done)) as [E' _].
    erewrite count_insert by done. rewrite E, E'. cbn. lia.
  - pose proof (chain_of_dial k d _ i Hd H0) as Hne. rewrite count_after by done.
    split; [by apply lookup_insert_ne |]. erewrite count_delete by done.
    destruct (of_chain_other k d ltac:(done)) as [E _]. rewrite E. cbn. lia.
  - split; [by apply lookup_insert_ne | done].
Qed.

(** who serves a queue. When a dial of a chain that is not stopped ends, its queue is served
    until it is empty or no slot is free. But a chain that waits with no dial of its own in
    flight is served by nobody: whatever the other chains do, the slots they free included, its
    scheduler and its queue stay as they are until its own [enqueue] or [stop] is called. *)
Theorem queue_not_served_by_others total per_chain chains es w :
  0 <= total -> 0 <= per_chain ->
  run_dials es (initial total per_chain chains) = Some w ->
  (forall i d s w' s', w_dials w !! i = Some d -> w_chains w !! d_chain d = Some s ->
     stopping s = false -> dial_step (Done i) w = Some w' -> w_chains w' !! d_chain d = Some s' ->
     queue s' = [] \/ slot_free s' (w_pool w') = false)
  /\ (forall c s es' w', w_chains w !! c = Some s -> active s = 0 ->
       forallb (fun e => negb (calls_chain c e)) es' = true -> run_dials es' w = Some w' ->
       w_chains w' !! c = Some s).
Proof.
  intros Ht Hpc Hr. split.
  - intros i d s w' s' Hd Hs Hst Hstep Hs'. unfold dial_step in Hstep. rewrite Hd in Hstep.
    cbn [mbind option_bind] in Hstep. rewrite Hs in Hstep. cbn [mbind option_bind] in Hstep.
    injection Hstep as <-. cbn in Hs'. rewrite lookup_insert_eq in Hs'. injection Hs' as <-.
    by apply (on_done_serves (d_validated d) (local s w)).
  - intros c s es' w' Hs Ha Hes Hr'.
    apply (run_dials_inv counts) in Hr as [_ H]; [| apply counts_step | by apply counts_initial].
    destruct (H c s Hs) as (Hc & _). rewrite Ha in Hc. clear H Ha. symmetry in Hc.
    revert w Hs Hc Hr'. induction es' as [|e es' IH]; intros w Hs Hc Hr'; cbn in *;
      [by simplify_eq |].
    apply andb_prop in Hes as [He Hes]. apply negb_true_iff in He.
    destruct (dial_step e w) as [w1|] eqn:E; [| done].
    destruct (idle_chain_step c (Some s) e w w1) as [H1 H2]; [done.. |].
    by apply (IH Hes w1).
Qed.
End clock.

(** ** Witnesses *)

(** Two chains, the first with a filter, share one connection. *)
Definition example_peer (h : bytes) : ValidatedPeer :=
  mkValidatedPeer (mkPeer h [49] 30303 30303 0 (Some (mkForkId h 0))) h.

Definition example_chains : gmap Z (option (DiscoveredPeer -> bool) * Z) :=
  {[ 1 := (Some (make_fork_id_filter [7; 7; 7; 7]), 35); 2 := (None, 35) ]}.

(** Every reading of the clock is ten seconds after the one before. *)
Definition example_clock (n : nat) : Z := 10 * Z.of_nat n.

Definition example_run (es : list dial_event) : option World :=
  run_dials example_clock es (initial 1 1 example_chains).

Definition example_world (es : list dial_event) : World :=
  default (initial 1 1 example_chains) (example_run es).

(** A peer that the filter rejects, one that is dialed, one that has to wait. *)
Definition example_events : list dial_event :=
  [Enqueue 1 (example_peer [1; 2; 3; 4]); Enqueue 1 (example_peer [7; 7; 7; 7]);
   Enqueue 2 (example_peer [9]); Connected 0 5].

Lemma dial_caps_hold_witness :
  active_total (w_pool (example_world example_events)) = 1
  /\ len (w_dials (example_world example_events)) <= 1.
Proof.
  destruct (dial_caps_hold example_clock 1 1 example_chains example_events
              (example_world example_events)) as (H1 & H2 & _);
    [lia | lia | vm_compute; reflexivity |].
  split; [rewrite H1; vm_compute; reflexivity |]. exact H2.
Defined.

Lemma dialed_peers_accepted_witness :
  exists d, w_dials (example_world example_events) !! 0%nat = Some d
  /\ make_fork_id_filter [7; 7; 7; 7] (peer (d_peer d)) = true.
Proof.
  eexists. split; [vm_compute; reflexivity |].
  apply (dialed_peers_accepted example_clock 1 1 example_chains example_events
           (example_world example_events) 0 _ _ 35); vm_compute; reflexivity.
Defined.

(** The second attempt comes too early and is dropped, the third is made. *)
Definition example_redial : list dial_event :=
  let vp := example_peer [7; 7; 7; 7] in [Enqueue 1 vp; Done 0; Enqueue 1 vp; Enqueue 1 vp].

Lemma dial_cooldown_witness :
  w_log (example_world example_redial) = [(1, [7; 7; 7; 7], 6%nat); (1, [7; 7; 7; 7], 1%nat)]
  /\ example_clock 1 + 35 <= example_clock 6.
Proof.
  split; [vm_compute; reflexivity |].
  apply (dial_cooldown example_clock 1 1 example_chains example_redial
           (example_world example_redial) 1 [7; 7; 7; 7] 0 1 1 6
           (Some (make_fork_id_filter [7; 7; 7; 7])) 35);
    try (vm_compute; reflexivity). intros a b H. unfold example_clock. lia.
Defined.

(** The peer of chain 2 stays in the queue when chain 1 has freed the only slot. *)
Lemma queue_not_served_by_others_witness :
  exists w s, example_run (example_events ++ [Done 0]) = Some w
  /\ active_total (w_pool w) = 0 /\ max_total (w_pool w) = 1
  /\ w_chains w !! 2 = Some s /\ queue s = [example_peer [9]].
Proof.
  set (w0 := example_world example_events).
  destruct (queue_not_served_by_others example_clock 1 1 example_chains example_events w0)
    as [_ H]; [lia | lia | vm_compute; reflexivity |].
  destruct (w_chains w0 !! 2) as [s|] eqn:Hs; [| vm_compute in Hs; discriminate].
  exists (example_world (example_events ++ [Done 0])), s.
  repeat split; try (vm_compute; reflexivity).
  - apply (H 2 s [Done 0]); [exact Hs | | reflexivity | vm_compute; reflexivity].
    vm_compute in Hs. injection Hs as <-. reflexivity.
  - vm_compute in Hs. injection Hs as <-. reflexivity.
Defined.
