(* ===== verification/Dialing.v ===== *)
(** * Dialing: a scheduler with the dials it has spawned

    [spawn_dial] of [include/discv4/dial_scheduler.hpp], and the dials themselves, for any dial function:
    [DialFn] is what a program says of the one it gives to the scheduler. [DialScheduler.v] models the
    scheduler's methods and takes dials for marks that are there or not; here a dial is a coroutine with a
    place of its own, which calls back the scheduler. A dial has the number of its spawning.

    Lemmas, for the programs that dial ([EthWatchMain.v], [DiscoveryHarness.v]): the counters of the scheduler
    are the dials that have not called [on_done] ([slots]); dials that hold all the slots keep new ones
    out ([full_offer]); nobody is dialed that was not offered, nor twice for one offer ([offered]); with dial
    functions that call back as they should, scheduler and dials are a world of
    [DialScheduler.v] ([simulates]); and what the counters of validated connections count ([tallies]). *)
From S2P Require Export DialScheduler.
Open Scope Z_scope.

(** ** Data *)

(** The two callbacks of a dial. *)
Inductive callback := ConnectedCall | DoneCall.

(** A dial function: where a dial can be ([P]) and what it shows ([O]). It starts at [at_start], it holds its
    slot while [flight] is 1, and some of what it shows is a call of a callback. *)
Class DialFn (P O : Type) := {
  at_start : P;
  flight : P -> nat;
  calls : O -> option callback;
  at_start_flight : flight at_start = 1%nat;
  flight_bound x : (flight x <= 1)%nat
}.

(** A dial: its peer, the [was_validated] that its callbacks share, and its coroutine. *)
Record Dialed (P : Type) := mkDialed { dialed : ValidatedPeer; was_validated : bool; progress : P }.
Arguments mkDialed {P} _ _ _.
Arguments dialed {P} _.
Arguments was_validated {P} _.
Arguments progress {P} _.

Definition set_progress {P} (x : P) (a : Dialed P) : Dialed P := mkDialed (dialed a) (was_validated a) x.
Definition set_validated {P} (a : Dialed P) : Dialed P := mkDialed (dialed a) true (progress a).

(** The scheduler with its pool, and the dials in the order they were spawned. *)
Record Dialer (P : Type) := mkDialer { scheduling : Local; dials : list (Dialed P) }.
Arguments mkDialer {P} _ _.
Arguments scheduling {P} _.
Arguments dials {P} _.

Definition with_scheduling {P} (l : Local) (d : Dialer P) : Dialer P := mkDialer l (dials d).
Definition with_dials {P} (ds : list (Dialed P)) (d : Dialer P) : Dialer P := mkDialer (scheduling d) ds.

(** What was shown, by the number of the dial. *)
Abbreviation Trace O := (list (nat * O)).

Section dialing.
Context {P O : Type} `{DialFn P O} (clock : nat -> Z).

Definition is_call (b : callback) (o : O) : bool :=
  match calls o, b with Some ConnectedCall, ConnectedCall | Some DoneCall, DoneCall => true | _, _ => false end.
Definition dones (out : list O) : nat := length (List.filter (is_call DoneCall) out).

(** The dials that a method of the scheduler has started are spawned. *)
Definition spawn_dials (r : list (ValidatedPeer * nat) * Local) (d : Dialer P) : Dialer P :=
  mkDialer (snd r) (dials d ++ map (fun vp => mkDialed vp false at_start) (map fst (fst r))).

Definition offer (vp : ValidatedPeer) (d : Dialer P) : Dialer P := spawn_dials (enqueue clock vp (scheduling d)) d.

(** The callbacks that dial [k] has; its session has its number. *)
Definition call_back (k : nat) (o : O) (d : Dialer P) : Dialer P :=
  match calls o with
  | Some ConnectedCall =>
      let l := scheduling d in
      with_scheduling (mkLocal (on_connected (Z.of_nat k) (sched l)) (pool l) (reads l))
        (with_dials (alter set_validated k (dials d)) d)
  | Some DoneCall =>
      match dials d !! k with
      | Some a => spawn_dials (on_done clock (was_validated a) (scheduling d)) d
      | None => d
      end
  | None => d
  end.
Definition call_backs (k : nat) (out : list O) (d : Dialer P) : Dialer P := fold_left (fun d o => call_back k o d) out d.

(** Dial [k] is now at [x] and has shown [out]. *)
Definition advance (k : nat) (x : P) (out : list O) (d : Dialer P) : Trace O * Dialer P :=
  (map (pair k) out, call_backs k out (with_dials (alter (set_progress x) k (dials d)) d)).

(** [stop]. *)
Definition halt (alive : Z -> bool) (d : Dialer P) : Dialer P :=
  let l := scheduling d in with_scheduling (mkLocal (snd (stop alive (sched l))) (pool l) (reads l)) d.

(** A step of the dial function: it calls [on_done] just when it leaves its slot. *)
Definition proper_step (a : Dialed P) (x : P) (out : list O) : Prop := (dones out + flight x = flight (progress a))%nat.

(** ** Slots *)

Definition in_flight (a : Dialed P) : bool := (0 <? flight (progress a))%nat.
Definition live (d : Dialer P) : Z := count in_flight (dials d).

Lemma flight_b2z a : Z.b2z (in_flight a) = Z.of_nat (flight (progress a)).
Proof. unfold in_flight. pose proof (flight_bound (progress a)). destruct (flight (progress a)) as [|[|n]]; [done | done | lia]. Qed.

(** The counters hold the dials in flight, and [n] whose [on_done] is still to be called. *)
Record slots (total per_chain : Z) (n : nat) (d : Dialer P) : Prop := {
  slots_active : active (sched (scheduling d)) = live d + Z.of_nat n;
  slots_total : active_total (pool (scheduling d)) = live d + Z.of_nat n;
  slots_pool : max_total (pool (scheduling d)) = total /\ max_per_chain (pool (scheduling d)) = per_chain;
  slots_cap : active (sched (scheduling d)) <= per_chain /\ active (sched (scheduling d)) <= total
}.

(** A method that takes slots spawns as many dials. *)
Lemma spawns_slots total per_chain n l r d : takes_slots l r -> live d + Z.of_nat n = active (sched l) -> active_total (pool l) = active (sched l) ->
  max_total (pool l) = total /\ max_per_chain (pool l) = per_chain -> active (sched l) <= per_chain /\ active (sched l) <= total ->
  slots total per_chain n (spawn_dials r d).
Proof.
  intros (Ha & Ht & Hmt & Hmc & Hcap & _) Hn Heq [H1 H2] [Hle1 Hle2].
  assert (live (spawn_dials r d) = live d + len (fst r)) as Hl.
  { unfold live, spawn_dials. cbn [dials]. rewrite count_app. f_equal. rewrite count_all.
    - unfold len. by rewrite !length_map.
    - apply Forall_map, Forall_true. intros vp. unfold in_flight. cbn [progress]. by rewrite at_start_flight. }
  split; cbn [scheduling spawn_dials]; try lia.
  destruct Hcap as [Hnil | [? ?]]; [| lia]. apply (f_equal len) in Hnil. rewrite len_nil in Hnil. lia.
Qed.

Context {total per_chain : Z}.
Abbreviation slots' := (slots total per_chain).

Lemma slots_offer n vp d : slots' n d -> slots' n (offer vp d).
Proof. intros [Ha Ht Hp Hc]. eapply spawns_slots; [apply enqueue_takes_slots | ..]; lia || done. Qed.

Lemma slots_halt n alive d : slots' n d -> slots' n (halt alive d).
Proof. intros [Ha Ht Hp Hc]. by split. Qed.

Lemma slots_call_back n k o d : slots' ((if is_call DoneCall o then 1 else 0) + n) d -> is_Some (dials d !! k) ->
  slots' n (call_back k o d).
Proof.
  intros [Ha Ht Hp Hc] [a Hk]. unfold is_call, call_back in *. destruct (calls o) as [[]|]; [| | by split].
  - assert (live (with_dials (alter set_validated k (dials d)) d) = live d) as Hl.
    { unfold live. cbn [dials with_dials]. erewrite count_alter by done.
      change (in_flight (set_validated a)) with (in_flight a). lia. }
    split; cbn [scheduling with_scheduling sched pool active with_validated on_connected] in *; try done; unfold live in *; cbn in *; lia.
  - rewrite Hk. eapply spawns_slots; [apply on_done_takes_slots | ..]; cbn in *; try done; lia.
Qed.

(** A callback keeps the dials there are, but for the flag of its own, and appends those it starts. *)
Lemma call_back_keeps k o d : exists new,
  dials (call_back k o d) = alter (if is_call ConnectedCall o then set_validated else id) k (dials d) ++ map (fun vp => mkDialed vp false at_start) new.
Proof.
  assert (forall l : list (Dialed P), alter id k l = l) as Hid.
  { intros l. apply list_eq. intros j. destruct (decide (k = j)) as [<-|Hne]; [rewrite list_lookup_alter_eq; by destruct (l !! k) | by rewrite list_lookup_alter_ne]. }
  unfold call_back, is_call. destruct (calls o) as [[]|]; try (exists []; by rewrite ?Hid, app_nil_r).
  destruct (dials d !! k) as [a|]; [| exists []; by rewrite Hid, app_nil_r]. rewrite Hid. by eexists.
Qed.

Lemma call_back_lookup k o d j a : dials d !! j = Some a ->
  exists a', dials (call_back k o d) !! j = Some a' /\ dialed a' = dialed a /\ progress a' = progress a.
Proof.
  intros Hj. destruct (call_back_keeps k o d) as [new ->]. rewrite lookup_app_l by (rewrite length_alter; by apply lookup_lt_Some in Hj).
  destruct (decide (k = j)) as [<-|Hne].
  - rewrite list_lookup_alter_eq, Hj. eexists. split; [done |]. by destruct (is_call _ _).
  - rewrite list_lookup_alter_ne by done. by exists a.
Qed.

Lemma call_backs_lookup k out : forall d j a, dials d !! j = Some a ->
  exists a', dials (call_backs k out d) !! j = Some a' /\ dialed a' = dialed a /\ progress a' = progress a.
Proof.
  induction out as [|o out IH]; intros d j a Hj; [by exists a |]. unfold call_backs. cbn [fold_left].
  destruct (call_back_lookup k o d j a Hj) as (a1 & Ha1 & Hd1 & Hp1). destruct (IH _ _ _ Ha1) as (a2 & Ha2 & Hd2 & Hp2).
  exists a2. split; [exact Ha2 | split; congruence].
Qed.

Lemma advance_lookup k x out d a : dials d !! k = Some a ->
  exists v, dials (snd (advance k x out d)) !! k = Some (mkDialed (dialed a) v x).
Proof.
  intros Hk. cbn [snd advance]. destruct (call_backs_lookup k out (with_dials (alter (set_progress x) k (dials d)) d) k (set_progress x a)) as ([vp v y] & Hv & E1 & E2).
  - cbn [dials with_dials]. by rewrite list_lookup_alter_eq, Hk.
  - cbn in E1, E2. subst vp y. by exists v.
Qed.

Lemma slots_call_backs n k out : forall d, slots' (dones out + n) d -> is_Some (dials d !! k) -> slots' n (call_backs k out d).
Proof.
  induction out as [|o out IH]; intros d Hs [a Hk]; [done |]. unfold call_backs. cbn [fold_left]. apply IH.
  - apply slots_call_back; [| by exists a]. unfold dones in *. cbn in Hs. by destruct (is_call DoneCall o).
  - destruct (call_back_lookup k o d k a Hk) as (a' & -> & _). by exists a'.
Qed.

Lemma slots_advance k a x out d : dials d !! k = Some a -> proper_step a x out -> slots' 0 d -> slots' 0 (snd (advance k x out d)).
Proof.
  intros Hk Hd [Ha Ht Hp Hc]. unfold proper_step in Hd. cbn [snd advance]. apply slots_call_backs.
  - assert (live (with_dials (alter (set_progress x) k (dials d)) d) = live d - Z.of_nat (dones out)) as Hl.
    { unfold live. cbn [dials with_dials]. rewrite (count_alter _ _ _ _ _ Hk), !flight_b2z. cbn [progress set_progress]. lia. }
    split; rewrite ?Hl; cbn [scheduling with_dials]; try done; lia.
  - cbn [dials with_dials]. rewrite list_lookup_alter_eq, Hk. by eexists.
Qed.

(** The filter stays. *)
Abbreviation filter_of d := (filter_fn (sched (scheduling d))).

Lemma filter_offer vp d : filter_of (offer vp d) = filter_of d.
Proof. pose proof (enqueue_takes_slots clock vp (scheduling d)) as (_&_&_&_&_&_&(Hf&_)&_). exact Hf. Qed.

Lemma filter_call_back k o d : filter_of (call_back k o d) = filter_of d.
Proof.
  unfold call_back. destruct (calls o) as [[]|]; [done | | done]. destruct (dials d !! k) as [a|]; [| done].
  pose proof (on_done_takes_slots clock (was_validated a) (scheduling d)) as (_&_&_&_&_&_&(Hf&_)&_). exact Hf.
Qed.

Lemma filter_advance k x out d : filter_of (snd (advance k x out d)) = filter_of d.
Proof.
  cbn [snd advance]. change (filter_of d) with (filter_of (with_dials (alter (set_progress x) k (dials d)) d)).
  generalize (with_dials (alter (set_progress x) k (dials d)) d). clear d. induction out as [|o out IH]; intros d; [done |].
  unfold call_backs. cbn [fold_left]. etransitivity; [apply IH | apply filter_call_back].
Qed.

(** Until [halt] the scheduler is not stopping; its filter stays. *)
Definition unstopped (filter : option (DiscoveredPeer -> bool)) (d : Dialer P) : Prop :=
  stopping (sched (scheduling d)) = false /\ filter_fn (sched (scheduling d)) = filter.

Lemma unstopped_offer filter vp d : unstopped filter d -> unstopped filter (offer vp d).
Proof.
  intros [E1 E2]. pose proof (enqueue_takes_slots clock vp (scheduling d)) as (_&_&_&_&_&_&(_&Hs&_)&_). split; [cbn; congruence | by rewrite filter_offer].
Qed.

Lemma unstopped_advance filter k x out d : unstopped filter d -> unstopped filter (snd (advance k x out d)).
Proof.
  intros [E1 E2]. split; [| by rewrite filter_advance]. cbn [snd advance].
  assert (stopping (sched (scheduling (with_dials (alter (set_progress x) k (dials d)) d))) = false) as Hd by exact E1. clear E1 E2. revert Hd.
  generalize (with_dials (alter (set_progress x) k (dials d)) d). clear d. induction out as [|o out IH]; intros d Hd; [done |].
  unfold call_backs. cbn [fold_left]. apply IH. unfold call_back. destruct (calls o) as [[]|]; [done | | done]. destruct (dials d !! k) as [a|]; [| done].
  pose proof (on_done_takes_slots clock (was_validated a) (scheduling d)) as (_&_&_&_&_&_&(_&Hs&_)&_). cbn in Hs. cbn. congruence.
Qed.
End dialing.

(** ** Dials that keep their slots *)

Section parked.
Context {P O : Type} `{DialFn P O} (clock : nat -> Z) {total per_chain : Z}.
Context (parked : P -> bool) (parked_flight : forall x, parked x = true -> flight x = 1%nat).
Abbreviation slots' := (slots total per_chain).

Definition is_parked (a : Dialed P) : bool := parked (progress a).

Lemma parked_in_flight a : is_parked a = true -> in_flight a = true.
Proof using parked_flight. intros Ha%parked_flight. unfold in_flight. by rewrite Ha. Qed.

(** The same dials, at the same place. *)
Definition same_dial (a a' : Dialed P) : Prop := dialed a' = dialed a /\ progress a' = progress a.

#[export] Instance same_dial_preorder : PreOrder same_dial.
Proof. split; [by intros a | intros a1 a2 a3 [E1 E2] [E3 E4]; split; congruence]. Qed.

Lemma same_dials_call_backs k out : forall d, dones out = 0%nat -> Forall2 same_dial (dials d) (dials (call_backs clock k out d)).
Proof.
  induction out as [|o out IH]; intros d Hd; [reflexivity | unfold call_backs; cbn [fold_left]].
  assert (is_call DoneCall o = false /\ dones out = 0%nat) as [Ho Hout] by (unfold dones in *; cbn in Hd; by destruct (is_call DoneCall o)).
  transitivity (dials (call_back clock k o d)); [| by apply IH]. unfold call_back, is_call in *. destruct (calls o) as [[]|]; try done.
  cbn [dials with_dials with_scheduling]. apply Forall2_alter_r; [reflexivity |]. intros a a' _ _ [E1 E2]. by split.
Qed.

Lemma same_dials_map l l' : Forall2 same_dial l l' -> map dialed l' = map dialed l /\ count is_parked l' = count is_parked l.
Proof.
  induction 1 as [|a a' l l' [E1 E2] _ [IH1 IH2]]; [done |]. cbn [map]. rewrite !count_cons. unfold is_parked in *. rewrite E2. by split; [f_equal | lia].
Qed.

(** A chain without a free slot dials nobody. *)
Lemma full_offer vp d : slots' 0 d -> live d = per_chain -> dials (offer clock vp d) = dials d.
Proof.
  intros Hs Hl. pose proof (enqueue_takes_slots clock vp (scheduling d)) as (Ha & _ & _ & _ & Hcap & _).
  destruct Hs as [Hact _ [_ Hp] _]. unfold offer. cbn [dials spawn_dials].
  assert (fst (enqueue clock vp (scheduling d)) = []) as ->; [| by rewrite app_nil_r].
  destruct Hcap as [?|[Hcap _]]; [done |]. apply len_zero. pose proof (len_nonneg (fst (enqueue clock vp (scheduling d)))). lia.
Qed.

Lemma dialed_progress x k (ds : list (Dialed P)) : map dialed (alter (set_progress x) k ds) = map dialed ds.
Proof.
  apply list_eq. intros j. rewrite !list_lookup_fmap. destruct (decide (k = j)) as [<-|Hkj];
    [rewrite list_lookup_alter_eq; by destruct (ds !! k) | by rewrite list_lookup_alter_ne].
Qed.

(** The dials are those to [vps], and parked ones have all the slots. *)
Record stuck (vps : list ValidatedPeer) (d : Dialer P) : Prop := {
  stuck_slots : slots' 0 d;
  stuck_full : per_chain <= count is_parked (dials d);
  stuck_dials : map dialed (dials d) = vps
}.

Lemma stuck_live vps d : stuck vps d -> live d = per_chain /\ forall a, a ∈ dials d -> in_flight a = true -> is_parked a = true.
Proof using parked_flight.
  intros [[Ha _ _ [Hc _]] Hl _]. pose proof (count_mono is_parked in_flight (dials d) parked_in_flight) as Hm. fold (live d) in Hm.
  split; [lia |]. intros a Hin Hf. apply (count_same is_parked in_flight (dials d) a); try done; [apply parked_in_flight |]. fold (live d). lia.
Qed.

Lemma stuck_offer vps vp d : stuck vps d -> stuck vps (offer clock vp d).
Proof using parked_flight.
  intros Hst. destruct (stuck_live _ _ Hst) as [Hlive _]. destruct Hst as [Hs Hl Hv].
  split; [by apply slots_offer | by rewrite full_offer | by rewrite full_offer].
Qed.

(** Another dial may go on, and so may a parked one that stays parked. *)
Lemma stuck_advance vps k a x out d : dials d !! k = Some a -> proper_step a x out ->
  (is_parked a = true -> parked x = true) -> stuck vps d -> stuck vps (snd (advance clock k x out d)).
Proof using parked_flight.
  intros Hk Hd Hx Hst. destruct (stuck_live _ _ Hst) as [_ Hall]. destruct Hst as [Hs Hl Hv].
  split; [by apply (slots_advance clock k a) | |]; cbn [snd advance].
  all: assert (dones out = 0%nat /\ Z.b2z (parked x) = Z.b2z (is_parked a)) as [Hdone Hpx].
  1, 3: unfold proper_step in Hd; pose proof (Hall a ltac:(by eapply list_elem_of_lookup_2)) as Hin; destruct (is_parked a) eqn:Hpa;
    [specialize (Hx eq_refl); rewrite Hx, (parked_flight _ Hpa), (parked_flight _ Hx) in *; lia |];
    assert (flight (progress a) = 0%nat) as Hz
      by (unfold in_flight in Hin; destruct (flight (progress a)) as [|n]; [done | by specialize (Hin eq_refl)]);
    assert (parked x = false) as -> by (apply not_true_is_false; intros Hpx%parked_flight; lia); lia.
  all: pose proof (same_dials_call_backs k out (with_dials (alter (set_progress x) k (dials d)) d) Hdone) as Hf; destruct (same_dials_map _ _ Hf) as [E1 E2].
  - rewrite E2. cbn [dials with_dials]. rewrite (count_alter _ _ _ _ _ Hk). unfold is_parked at 3. cbn [progress set_progress]. lia.
  - rewrite E1. cbn [dials with_dials]. by rewrite dialed_progress.
Qed.
End parked.

(** ** Who is dialed *)

Section offered.
Context {P O : Type} `{DialFn P O} (clock : nat -> Z).

(** Dialed and queued are only peers of [vps], and none more often than there. *)
Definition offered (vps : list ValidatedPeer) (d : Dialer P) : Prop := map dialed (dials d) ++ queue (sched (scheduling d)) ⊆+ vps.

#[export] Instance offered_proper : Proper ((≡ₚ) ==> eq ==> iff) offered.
Proof. intros vps vps' Hv d d' <-. unfold offered. by rewrite Hv. Qed.

Lemma offered_spawn q r vps d : holds r ⊆+ q -> map dialed (dials d) ++ q ⊆+ vps -> offered vps (spawn_dials r d).
Proof.
  intros Hr Hq. unfold offered, spawn_dials. cbn [dials scheduling]. rewrite map_app, map_map, map_id, <- app_assoc. etransitivity; [| exact Hq].
  by apply submseteq_app.
Qed.

Lemma offered_offer vp vps d : offered vps d -> offered (vp :: vps) (offer clock vp d).
Proof.
  intros Hp. eapply offered_spawn; [apply enqueue_holds |]. rewrite app_assoc, <- Permutation_cons_append. by apply submseteq_skip.
Qed.

Lemma offered_all (fs : list ValidatedPeer) : forall vps d, offered vps d ->
  offered (fs ++ vps) (fold_left (fun d vp => offer clock vp d) fs d).
Proof.
  induction fs as [|vp fs IH]; intros vps d Hd; [done |]. cbn [fold_left app]. rewrite Permutation_middle. by apply IH, offered_offer.
Qed.

(** A peer that the filter refuses is not offered. *)
Lemma offered_filtered F vp vps d : filter_fn (sched (scheduling d)) = Some F -> offered vps d ->
  offered (if F (peer vp) then vp :: vps else vps) (offer clock vp d).
Proof.
  intros HF Hd. destruct (F (peer vp)) eqn:Ef; [by apply offered_offer |]. unfold offer, enqueue. rewrite HF, Ef. cbn [negb].
  assert (offered vps (spawn_dials ([], scheduling d) d)) as Hs by (unfold offered, spawn_dials; cbn [fst map dials scheduling snd]; by rewrite app_nil_r).
  by destruct (stopping (sched (scheduling d))).
Qed.

Lemma offered_halt alive vps d : offered vps d -> offered vps (halt alive d).
Proof.
  intros Hd. unfold offered in *. cbn. rewrite app_nil_r. etransitivity; [| exact Hd]. by apply submseteq_inserts_r.
Qed.

Lemma offered_call_backs k out vps : forall d, offered vps d -> offered vps (call_backs clock k out d).
Proof.
  induction out as [|o out IH]; intros d Hd; [done |]. unfold call_backs. cbn [fold_left]. apply IH. unfold call_back.
  destruct (calls o) as [[]|]; [| | done].
  - unfold offered in *. cbn [dials scheduling with_dials with_scheduling sched queue on_connected with_validated].
    assert (map dialed (alter set_validated k (dials d)) = map dialed (dials d)) as ->; [| done].
    apply (same_dials_map (fun _ => false) (dials d)), Forall2_alter_r; [reflexivity |]. intros a a' _ _ [E1 E2]. by split.
  - destruct (dials d !! k); [| done]. eapply offered_spawn; [apply on_done_holds | done].
Qed.

Lemma offered_advance k x out vps d : offered vps d -> offered vps (snd (advance clock k x out d)).
Proof. intros Hd. apply offered_call_backs. unfold offered in *. cbn [dials with_dials scheduling]. by rewrite dialed_progress. Qed.
End offered.

(** ** The scheduler of [DialScheduler.v] *)

(** Which dials have called [on_connected], and which [on_done]. *)
Abbreviation Noted := (list nat * list nat)%type.

Section simulation.
Context {P O : Type} `{DialFn P O} (clock : nat -> Z).

Definition note (s : Noted) (o : nat * O) : Noted :=
  match calls (snd o) with
  | Some ConnectedCall => (fst o :: fst s, snd s)
  | Some DoneCall => (fst s, fst o :: snd s)
  | None => s
  end.

(** What the scheduler asks of a dial: it calls [on_connected] at most once, and not after [on_done]. *)
Fixpoint honoured (s : Noted) (tr : Trace O) : bool :=
  match tr with
  | [] => true
  | o :: tr =>
      match calls (snd o) with Some ConnectedCall => bool_decide (fst o ∉ fst s ++ snd s) | _ => true end && honoured (note s o) tr
  end.

(** The dials in flight, from number [n] on. *)
Fixpoint open_from (n : nat) (finished : list nat) (ws : list (Dialed P)) : list Dial :=
  match ws with
  | [] => []
  | a :: ws =>
      (if bool_decide (n ∈ finished) then [] else [mkDial 0 (dialed a) (was_validated a)]) ++ open_from (S n) finished ws
  end.

Lemma open_from_app n fin ws ws' : open_from n fin (ws ++ ws') = open_from n fin ws ++ open_from (n + length ws) fin ws'.
Proof.
  revert n. induction ws as [|a ws IH]; intros n; cbn [open_from app length]; [by rewrite Nat.add_0_r |].
  rewrite IH, app_assoc. do 2 f_equal. lia.
Qed.

Lemma open_from_ext n fin fin' ws : (forall j, (n <= j < n + length ws)%nat -> (j ∈ fin) <-> (j ∈ fin')) -> open_from n fin ws = open_from n fin' ws.
Proof.
  revert n. induction ws as [|a ws IH]; intros n Hj; [done |]. cbn [open_from length] in *. rewrite (IH (S n)) by (intros j Hlt; apply Hj; lia).
  assert ((n ∈ fin) <-> (n ∈ fin')) as Hn by (apply Hj; lia). by rewrite (bool_decide_ext _ _ Hn).
Qed.

Lemma alter_middle {A} (f : A -> A) l x l' : alter f (length l) (l ++ x :: l') = l ++ f x :: l'.
Proof. induction l as [|y l IH]; [done |]. cbn. f_equal. exact IH. Qed.

(** A dial in flight has a place among them. *)
Lemma open_from_split fin ws k a : ws !! k = Some a -> k ∉ fin -> exists pre post,
  open_from 0 fin ws = pre ++ mkDial 0 (dialed a) (was_validated a) :: post
  /\ open_from 0 (k :: fin) ws = pre ++ post
  /\ forall f, open_from 0 fin (alter f k ws) = pre ++ mkDial 0 (dialed (f a)) (was_validated (f a)) :: post.
Proof.
  intros Hk Hfin. pose proof (lookup_lt_Some _ _ _ Hk) as Hlt. assert (length (take k ws) = k) as Hlen by (rewrite length_take; lia).
  exists (open_from 0 fin (take k ws)), (open_from (S k) fin (drop (S k) ws)).
  assert (forall f, alter f k ws = take k ws ++ f a :: drop (S k) ws) as Halt.
  { intros f. rewrite <- (take_drop_middle ws k a Hk) at 1. rewrite <- Hlen at 1. apply alter_middle. }
  split_and!; [| | intros f; rewrite Halt]; [rewrite <- (take_drop_middle ws k a Hk) at 1 .. |]; rewrite open_from_app, Hlen; cbn [open_from Nat.add].
  - by rewrite bool_decide_false.
  - rewrite bool_decide_true by by left. cbn [app]. f_equal; apply open_from_ext; intros j Hj; rewrite elem_of_cons; (split; [intros [->|?]; [lia | done] | by right]).
  - by rewrite bool_decide_false.
Qed.

Lemma open_from_new n fin vps : Forall (fun j => j < n)%nat fin ->
  open_from n fin (map (fun vp => mkDialed vp false at_start) vps) = map (fun vp => mkDial 0 vp false) vps.
Proof.
  revert n. induction vps as [|vp vps IH]; intros n Hn; [done |]. cbn [map open_from].
  rewrite bool_decide_false, IH; [done | |]; [refine (list.Forall_impl _ _ _ Hn _); cbn; lia |].
  intros Hin. rewrite list.Forall_forall in Hn. specialize (Hn n Hin). lia.
Qed.

(** The state of the scheduler's chain, number 0, in a world of [DialScheduler.v]. *)
Definition world_of (s : Noted) (p : Dialer P) (started : list (Z * bytes * nat)) : World :=
  {| w_pool := pool (scheduling p); w_chains := {[0 := sched (scheduling p)]}; w_dials := open_from 0 (snd s) (dials p);
     w_reads := reads (scheduling p); w_log := started |}.

(** The calls that were noted are of dials, and the flags agree with them. *)
Record agrees (s : Noted) (p : Dialer P) : Prop := {
  ag_connected : Forall (fun j => j < length (dials p))%nat (fst s);
  ag_finished : Forall (fun j => j < length (dials p))%nat (snd s);
  ag_flags k a : dials p !! k = Some a -> was_validated a = bool_decide (k ∈ fst s)
}.

Lemma agrees_spawn s r p : agrees s p -> agrees s (spawn_dials r p).
Proof.
  intros [Hc Hf Hv]. assert (forall l, Forall (fun j => j < length (dials p))%nat l ->
    Forall (fun j => j < length (dials (spawn_dials r p)))%nat l) as Hm.
  { intros l Hl. refine (list.Forall_impl _ _ _ Hl _). intros j Hj. cbn. rewrite length_app. lia. }
  split; [by apply Hm .. |]. intros k a Hk. cbn [dials spawn_dials] in Hk. apply lookup_app_Some in Hk as [Hk|[Hle Hk]]; [by apply Hv |].
  apply list_lookup_fmap_Some in Hk as (d & -> & _). cbn. symmetry. apply bool_decide_eq_false. intros Hin.
  rewrite list.Forall_forall in Hc. specialize (Hc _ Hin). lia.
Qed.

Lemma agrees_progress s x k p : agrees s p -> agrees s (with_dials (alter (set_progress x) k (dials p)) p).
Proof.
  intros [Hc Hf Hv]. split; cbn [dials with_dials]; rewrite ?length_alter; [done .. |]. intros j a Hj. destruct (decide (k = j)) as [<-|Hne].
  - rewrite list_lookup_alter_eq in Hj. destruct (dials p !! k) as [b|] eqn:Hk; [| done]. injection Hj as <-. exact (Hv k b Hk).
  - rewrite list_lookup_alter_ne in Hj by done. by apply Hv.
Qed.

Lemma agrees_call_back s k o p : is_Some (dials p !! k) -> agrees s p -> agrees (note s (k, o)) (call_back clock k o p).
Proof.
  intros [a Hk] Ha. pose proof (lookup_lt_Some _ _ _ Hk) as Hlt. unfold note, call_back. cbn [fst snd]. destruct (calls o) as [[]|]; [| | done].
  - destruct Ha as [Hc Hf Hv]. split; cbn [fst snd dials with_dials with_scheduling]; rewrite ?length_alter; [by constructor | done |].
    intros j b Hj. destruct (decide (k = j)) as [<-|Hne].
    + rewrite list_lookup_alter_eq, Hk in Hj. injection Hj as <-. symmetry. apply bool_decide_eq_true. by left.
    + rewrite list_lookup_alter_ne in Hj by done. rewrite (Hv j b Hj). apply bool_decide_ext. rewrite elem_of_cons. split; [by right | by intros [->|?]].
  - rewrite Hk. apply agrees_spawn. destruct Ha as [Hc Hf Hv]. split; cbn [fst snd]; [done | by constructor | done].
Qed.

(** A method of the scheduler is a step of the world. *)
Lemma world_spawn s p fin started r : Forall (fun j => j < length (dials p))%nat fin ->
  exists log', after 0 (open_from 0 fin (dials p)) (world_of s p started) r = world_of (fst s, fin) (spawn_dials r p) log'.
Proof.
  intros Hfin. eexists. unfold after, world_of. cbn [snd w_chains spawn_dials scheduling dials w_log]. rewrite insert_singleton_eq. f_equal.
  rewrite open_from_app. f_equal. rewrite Nat.add_0_l, open_from_new by done.
  by rewrite map_map.
Qed.

(** The program is where some events take the scheduler's world. *)
Definition simulates (w0 : World) (s : Noted) (p : Dialer P) : Prop :=
  agrees s p /\ exists des started, run_dials clock des w0 = Some (world_of s p started).

Lemma run_dials_snoc des e w w1 : run_dials clock des w = Some w1 -> run_dials clock (des ++ [e]) w = dial_step clock e w1.
Proof.
  revert w. induction des as [|d des IH]; intros w; cbn [run_dials app].
  - intros [= <-]. cbn. by destruct (dial_step clock e w).
  - destruct (dial_step clock d w) as [w'|]; [apply IH | done].
Qed.

Lemma local_scheduling s p started : local (sched (scheduling p)) (world_of s p started) = scheduling p.
Proof. unfold local, world_of. by destruct (scheduling p). Qed.

Lemma simulates_offer w0 s vp p : simulates w0 s p -> simulates w0 s (offer clock vp p).
Proof.
  intros [Ha (des & started & Hr)]. split; [by apply agrees_spawn |].
  destruct (world_spawn s p (snd s) started (enqueue clock vp (scheduling p)) (ag_finished _ _ Ha)) as [log' Hlog].
  exists (des ++ [Enqueue 0 vp]), log'. rewrite (run_dials_snoc _ _ _ _ Hr). unfold dial_step. cbn [world_of w_chains].
  rewrite lookup_singleton_eq. cbn [mbind option_bind]. fold (world_of s p started). rewrite local_scheduling. f_equal. etransitivity; [exact Hlog |]. by destruct s.
Qed.

Lemma simulates_halt w0 s alive p : simulates w0 s p -> simulates w0 s (halt alive p).
Proof.
  intros [[Hc Hf Hv] (des & started & Hr)]. split; [by split |]. exists (des ++ [Stop 0 alive]), started.
  rewrite (run_dials_snoc _ _ _ _ Hr). unfold dial_step. cbn [world_of w_chains w_pool w_dials w_reads w_log]. rewrite lookup_singleton_eq.
  cbn [mbind option_bind]. rewrite insert_singleton_eq. reflexivity.
Qed.

Lemma simulates_connected w0 s k o a p : calls o = Some ConnectedCall -> dials p !! k = Some a -> k ∉ fst s ++ snd s -> simulates w0 s p ->
  simulates w0 (note s (k, o)) (call_back clock k o p).
Proof.
  intros Ho Hk Hno [Ha (des & started & Hr)]. rewrite elem_of_app in Hno. split; [apply agrees_call_back; [by exists a | done] |].
  destruct (open_from_split (snd s) (dials p) k a Hk) as (pre & post & E1 & _ & E3); [tauto |].
  exists (des ++ [Connected (length pre) (Z.of_nat k)]), started. rewrite (run_dials_snoc _ _ _ _ Hr). unfold dial_step. cbn [world_of w_dials w_chains w_reads w_log w_pool].
  rewrite E1, list_lookup_middle by done. cbn [mbind option_bind d_chain d_validated d_peer]. rewrite lookup_singleton_eq. cbn [mbind option_bind].
  assert (was_validated a = false) as Hv. { rewrite (ag_flags _ _ Ha k a Hk). apply bool_decide_eq_false. tauto. }
  rewrite Hv. unfold world_of, note, call_back. cbn [fst snd]. rewrite Ho. cbn [fst snd dials with_dials with_scheduling scheduling sched pool reads].
  rewrite E3, insert_singleton_eq, insert_app_r_alt, Nat.sub_diag by done. reflexivity.
Qed.

Lemma simulates_done w0 s k o a p : calls o = Some DoneCall -> dials p !! k = Some a -> k ∉ snd s -> simulates w0 s p ->
  simulates w0 (note s (k, o)) (call_back clock k o p).
Proof.
  intros Ho Hk Hno [Ha (des & started & Hr)]. split; [apply agrees_call_back; [by exists a | done] |]. unfold note, call_back. cbn [fst snd]. rewrite Ho, Hk.
  assert (Forall (fun j => j < length (dials p))%nat (k :: snd s)) as Hfin
    by (constructor; [by apply lookup_lt_Some in Hk | apply (ag_finished _ _ Ha)]).
  destruct (open_from_split (snd s) (dials p) k a Hk Hno) as (pre & post & E1 & E2 & _).
  destruct (world_spawn s p (k :: snd s) started (on_done clock (was_validated a) (scheduling p)) Hfin) as [log' Hlog].
  exists (des ++ [Done (length pre)]), log'. rewrite (run_dials_snoc _ _ _ _ Hr). unfold dial_step.
  assert (w_dials (world_of s p started) !! length pre = Some (mkDial 0 (dialed a) (was_validated a))) as -> by (cbn [world_of w_dials]; rewrite E1; by apply list_lookup_middle).
  cbn [mbind option_bind d_chain d_validated]. cbn [world_of w_chains]. rewrite lookup_singleton_eq. cbn [mbind option_bind].
  fold (world_of s p started). rewrite local_scheduling. f_equal. rewrite <- Hlog, E2. f_equal.
  cbn [world_of w_dials]. by rewrite E1, delete_middle.
Qed.

Lemma simulates_call_backs w0 k out : forall s p, simulates w0 s p -> is_Some (dials p !! k) -> honoured s (map (pair k) out) = true ->
  (dones out + (if bool_decide (k ∈ snd s) then 1 else 0) <= 1)%nat ->
  simulates w0 (fold_left note (map (pair k) out) s) (call_backs clock k out p).
Proof.
  induction out as [|o out IH]; intros s p Hs [a Hk] Hh Hd; [done |]. unfold call_backs. cbn [map fold_left honoured] in *.
  apply andb_true_iff in Hh as [Ho Hh]. unfold dones in Hd. cbn [List.filter] in Hd. fold (dones out) in Hd.
  assert (is_Some (dials (call_back clock k o p) !! k)) as Hk' by (destruct (call_back_lookup clock k o p k a Hk) as (a' & -> & _); by exists a').
  cbn [snd fst] in Ho. unfold is_call at 1 in Hd. destruct (calls o) as [[]|] eqn:Eo.
  - assert (snd (note s (k, o)) = snd s) as Es by (unfold note; cbn [snd]; by rewrite Eo).
    apply IH; [| done | done | by rewrite Es]. apply bool_decide_eq_true in Ho. by apply simulates_connected with a.
  - case_bool_decide as Hin; cbn [length] in Hd; [unfold dones in Hd; lia |].
    apply IH; [by apply simulates_done with a | done | done |]. unfold note. cbn [snd fst]. rewrite Eo. cbn [snd].
    rewrite bool_decide_true by by left. unfold dones in *. lia.
  - assert (note s (k, o) = s /\ call_back clock k o p = p) as [Es Ep] by (unfold note, call_back; cbn [snd]; by rewrite Eo).
    rewrite Es, Ep in *. by apply IH.
Qed.

Lemma noted_finished k out j : forall s, (j ∈ snd (fold_left note (map (pair k) out) s)) <-> (j ∈ snd s) \/ (j = k /\ (0 < dones out)%nat).
Proof.
  induction out as [|o out IH]; intros s; [cbn; intuition lia |]. cbn [map fold_left]. rewrite IH. unfold dones. cbn [List.filter].
  unfold note, is_call. cbn [fst snd]. destruct (calls o) as [[]|]; cbn [fst snd length]; try tauto. rewrite elem_of_cons. intuition lia.
Qed.

(** What the world sees of a dial. *)
Definition view (a : Dialed P) : Dial := mkDial 0 (dialed a) (was_validated a).

Lemma open_from_view n fin ws ws' : map view ws = map view ws' -> open_from n fin ws = open_from n fin ws'.
Proof.
  revert n ws'. induction ws as [|a ws IH]; intros n [|a' ws'] E; try done. injection E as E1 E2 E3. cbn [open_from]. by rewrite E1, E2, (IH (S n) ws' E3).
Qed.

Lemma view_progress x k ws : map view (alter (set_progress x) k ws) = map view ws.
Proof.
  apply list_eq. intros j. rewrite !list_lookup_fmap. destruct (decide (k = j)) as [<-|Hne];
    [rewrite list_lookup_alter_eq; by destruct (ws !! k) | by rewrite list_lookup_alter_ne].
Qed.

Lemma simulates_progress w0 s x k p : simulates w0 s p -> simulates w0 s (with_dials (alter (set_progress x) k (dials p)) p).
Proof.
  intros [Ha (des & started & Hr)]. split; [by apply agrees_progress |].
  exists des, started. rewrite Hr. unfold world_of. cbn [scheduling dials with_dials]. do 2 f_equal. apply open_from_view. by rewrite view_progress.
Qed.

(** Those have finished that hold no slot. *)
Definition finished_free (s : Noted) (p : Dialer P) : Prop :=
  forall k a, dials p !! k = Some a -> (k ∈ snd s) <-> (flight (progress a) = 0%nat).

Lemma open_in_flight fin ws : forall n, (forall j a, ws !! j = Some a -> ((n + j)%nat ∈ fin) <-> (flight (progress a) = 0%nat)) ->
  open_from n fin ws = map view (List.filter in_flight ws).
Proof.
  induction ws as [|a ws IH]; intros n Hf; [done |]. cbn [open_from List.filter]. rewrite (IH (S n)).
  - pose proof (Hf 0%nat a eq_refl) as H0a. rewrite Nat.add_0_r in H0a. case_bool_decide as Hin; unfold in_flight at 2.
    + apply H0a in Hin. by rewrite Hin.
    + assert ((0 <? flight (progress a))%nat = true) as ->; [| done]. apply Nat.ltb_lt. apply Nat.neq_0_lt_0. by intros Hz%H0a.
  - intros j b Hj. rewrite Nat.add_succ_comm. by apply (Hf (S j)).
Qed.

Lemma call_backs_new k out : forall p j a, dials (call_backs clock k out p) !! j = Some a ->
  (exists b, dials p !! j = Some b /\ progress b = progress a) \/ (progress a = at_start /\ (length (dials p) <= j)%nat).
Proof.
  induction out as [|o out IH]; intros p j a Hj; [left; by exists a |]. unfold call_backs in Hj. cbn [fold_left] in Hj.
  destruct (call_back_keeps clock k o p) as [new Hnew]. destruct (IH _ _ _ Hj) as [(b & Hb & Hp)|[Hp Hle]]; rewrite Hnew in *.
  - apply lookup_app_Some in Hb as [Hb|[Hle Hb]].
    + left. destruct (decide (k = j)) as [<-|Hne]; [rewrite list_lookup_alter_eq in Hb | rewrite list_lookup_alter_ne in Hb by done; by exists b].
      destruct (dials p !! k) as [b'|]; [| done]. injection Hb as <-. exists b'. split; [done |]. rewrite <- Hp. by destruct (is_call _ _).
    + right. apply list_lookup_fmap_Some in Hb as (d & -> & _). rewrite length_alter in Hle. split; [by rewrite <- Hp | done].
  - right. rewrite length_app, length_alter in Hle. split; [done | lia].
Qed.

(** Both kept together. *)
Definition simulated (w0 : World) (s : Noted) (p : Dialer P) : Prop := simulates w0 s p /\ finished_free s p.

Lemma simulated_offer w0 s vp p : simulated w0 s p -> simulated w0 s (offer clock vp p).
Proof.
  intros [Hs Hf]. split; [by apply simulates_offer |]. intros k a Hk. unfold offer in Hk. cbn [dials spawn_dials] in Hk.
  apply lookup_app_Some in Hk as [Hk|[Hle Hk]]; [by apply Hf |]. apply list_lookup_fmap_Some in Hk as (d & -> & _). cbn [progress].
  rewrite at_start_flight. split; [| done]. intros Hin. pose proof (ag_finished _ _ (proj1 Hs)) as Hlt. rewrite list.Forall_forall in Hlt.
  specialize (Hlt _ Hin). cbn in Hlt. lia.
Qed.

Lemma simulated_halt w0 s alive p : simulated w0 s p -> simulated w0 s (halt alive p).
Proof. intros [Hs Hf]. split; [by apply simulates_halt | exact Hf]. Qed.

Lemma simulated_advance w0 s k a x out p : dials p !! k = Some a -> proper_step a x out -> simulated w0 s p ->
  let '(tr, p') := advance clock k x out p in honoured s tr = true -> simulated w0 (fold_left note tr s) p'.
Proof.
  intros Hk Hd [Hs Hf] Hh. unfold proper_step in Hd. set (p1 := with_dials (alter (set_progress x) k (dials p)) p) in *.
  pose proof (flight_bound (progress a)) as Hfl. split.
  - apply simulates_call_backs; [by apply simulates_progress | | done |].
    + unfold p1. cbn [dials with_dials]. rewrite list_lookup_alter_eq, Hk. by eexists.
    + pose proof (Hf k a Hk) as Hka. case_bool_decide as Hin; [apply Hka in Hin; lia | lia].
  - intros j b Hj. rewrite noted_finished. destruct (call_backs_new _ _ _ _ _ Hj) as [(b' & Hb & Hp)|[-> Hle]].
    + rewrite <- Hp. unfold p1 in Hb. cbn [dials with_dials] in Hb. destruct (decide (k = j)) as [<-|Hne].
      * rewrite list_lookup_alter_eq, Hk in Hb. injection Hb as <-. cbn [progress set_progress]. rewrite (Hf k a Hk). intuition lia.
      * rewrite list_lookup_alter_ne in Hb by done. rewrite (Hf j b' Hb). intuition congruence.
    + unfold p1 in Hle. cbn [dials with_dials] in Hle. rewrite length_alter in Hle. rewrite at_start_flight. split; [| done].
      intros [Hin|[-> _]]; [| by apply lookup_lt_Some in Hk; lia].
      pose proof (ag_finished _ _ (proj1 Hs)) as Hlt. rewrite list.Forall_forall in Hlt. specialize (Hlt _ Hin). lia.
Qed.

(** At the start there is nothing to simulate. *)
Lemma simulated_start total per_chain filter expiry :
  let p := mkDialer (mkLocal (new_scheduler filter expiry) (mkPool total per_chain 0) 0) [] in
  simulated (initial total per_chain {[0 := (filter, expiry)]}) ([], []) p.
Proof.
  intros p. assert (forall k a, dials p !! k = Some a -> False) as Hno by (intros k a Hk; unfold p in Hk; cbn in Hk; by rewrite lookup_nil in Hk).
  split; [split; [split; [constructor | constructor | intros k a Hk; destruct (Hno k a Hk)] |] | intros k a Hk; destruct (Hno k a Hk)].
  exists [], []. reflexivity.
Qed.

(** What it means for the scheduler. *)
Lemma simulated_world w0 s p : simulated w0 s p -> exists des w, run_dials clock des w0 = Some w
  /\ w_pool w = pool (scheduling p) /\ w_chains w = {[0 := sched (scheduling p)]} /\ w_dials w = map view (List.filter in_flight (dials p)).
Proof.
  intros [[Ha (des & started & Hrun)] Hf]. exists des, (world_of s p started). split; [exact Hrun |]. split; [done |]. split; [done |].
  cbn [world_of w_dials]. apply open_in_flight. intros j a Hj. by apply Hf.
Qed.

Lemma honoured_app s tr tr' : honoured s (tr ++ tr') = honoured s tr && honoured (fold_left note tr s) tr'.
Proof. revert s. induction tr as [|o tr IH]; intros s; [done |]. cbn [app honoured fold_left]. by rewrite IH, andb_assoc. Qed.
End simulation.

(** ** The count of validated connections *)

Section tallies.
Context {P O : Type} `{DialFn P O} (clock : nat -> Z).

Definition is_connected (o : nat * O) : bool := is_call ConnectedCall (snd o).

(** The calls of [on_done] of dials that had called [on_connected]. *)
Fixpoint validated_ends (s : Noted) (tr : Trace O) : Z :=
  match tr with
  | [] => 0
  | o :: tr =>
      (match calls (snd o) with Some DoneCall => Z.b2z (bool_decide (fst o ∈ fst s)) | _ => 0 end) + validated_ends (note s o) tr
  end.

Lemma validated_ends_app s tr tr' : validated_ends s (tr ++ tr') = validated_ends s tr + validated_ends (fold_left note tr s) tr'.
Proof. revert s. induction tr as [|o tr IH]; intros s; [done |]. cbn [app validated_ends fold_left]. rewrite IH. lia. Qed.

Abbreviation total_of d := (total_validated (sched (scheduling d))).
Abbreviation count_of d := (validated_count (sched (scheduling d))).

(** The counters after the calls [tr]. *)
Record tallies (s : Noted) (d : Dialer P) (tr : Trace O) (d' : Dialer P) : Prop := {
  ta_agrees : agrees (fold_left note tr s) d';
  ta_total : total_of d' = total_of d + count is_connected tr;
  ta_count : count_of d' = count_of d + count is_connected tr - validated_ends s tr
}.

Lemma tallies_trans s d1 d2 d3 tr tr' : tallies s d1 tr d2 -> tallies (fold_left note tr s) d2 tr' d3 -> tallies s d1 (tr ++ tr') d3.
Proof. intros [A1 T1 C1] [A2 T2 C2]. split; rewrite ?fold_left_app, ?count_app, ?validated_ends_app; [done | lia..]. Qed.

Lemma tallies_quiet s d d' : agrees s d' -> total_of d' = total_of d -> count_of d' = count_of d -> tallies s d [] d'.
Proof. intros Ha Ht Hc. split; [done | rewrite Ht | rewrite Hc]; unfold count, len; cbn; lia. Qed.

Lemma tallies_offer s vp d : agrees s d -> tallies s d [] (offer clock vp d).
Proof.
  intros Ha. pose proof (enqueue_takes_slots clock vp (scheduling d)) as (_&_&_&_&_&_&(_&_&Hv&Ht&_)&_).
  apply tallies_quiet; [by apply agrees_spawn | done..].
Qed.

Lemma tallies_halt s alive d : agrees s d -> tallies s d [] (halt alive d).
Proof. intros [Hc Hf Hv]. by apply tallies_quiet. Qed.

Lemma tallies_call_back s k o d : is_Some (dials d !! k) -> agrees s d -> tallies s d [(k, o)] (call_back clock k o d).
Proof.
  intros Hk Ha. pose proof (agrees_call_back clock s k o d Hk Ha) as Ha'. destruct Hk as [a Hk].
  pose proof (on_done_takes_slots clock (was_validated a) (scheduling d)) as (_&_&_&_&_&_&(_&_&Hv&Ht&_)&_). cbn in Hv, Ht.
  split; [exact Ha' | |]; rewrite count_cons; unfold count, len, is_connected, is_call; cbn [List.filter length snd validated_ends];
    unfold call_back; destruct (calls o) as [[]|]; rewrite ?Hk; cbn [spawn_dials scheduling with_scheduling sched on_connected with_validated total_validated validated_count Z.b2z fst]; try lia.
  rewrite Hv, (ag_flags _ _ Ha k a Hk). lia.
Qed.

Lemma tallies_call_backs k out : forall s d, is_Some (dials d !! k) -> agrees s d -> tallies s d (map (pair k) out) (call_backs clock k out d).
Proof.
  induction out as [|o out IH]; intros s d Hk Ha; [by apply tallies_quiet |]. unfold call_backs. cbn [map fold_left].
  pose proof (tallies_call_back s k o d Hk Ha) as Ht. apply (tallies_trans s d _ _ [(k, o)] _ Ht), IH; [| apply Ht].
  destruct Hk as [a Hk]. destruct (call_back_lookup clock k o d k a Hk) as (a' & -> & _). by exists a'.
Qed.

Lemma tallies_advance s k x out d : is_Some (dials d !! k) -> agrees s d ->
  let '(tr, d') := advance clock k x out d in tallies s d tr d'.
Proof.
  intros [a Hk] Ha. apply (tallies_trans s d (with_dials (alter (set_progress x) k (dials d)) d) _ []).
  - apply tallies_quiet; [by apply agrees_progress | done..].
  - apply tallies_call_backs; [| by apply agrees_progress]. cbn [dials with_dials]. rewrite list_lookup_alter_eq, Hk. by eexists.
Qed.
End tallies.

(** ** What one dial changes *)

Section changes.
Context {P O : Type} `{DialFn P O} (clock : nat -> Z).

(** A dial after another has shown [out]: the same, but for its flag when it is that dial. *)
Definition flagged (k : nat) (out : list O) (j : nat) (a : Dialed P) : Dialed P :=
  mkDialed (dialed a) (was_validated a || (bool_decide (j = k) && existsb (is_call ConnectedCall) out)) (progress a).

Lemma call_backs_flags k out : forall d j b, dials (call_backs clock k out d) !! j = Some b ->
  (exists a, dials d !! j = Some a /\ b = flagged k out j a) \/ ((length (dials d) <= j)%nat /\ progress b = at_start /\ (j <> k -> was_validated b = false)).
Proof.
  induction out as [|o out IH]; intros d j b Hj.
  { left. exists b. split; [done |]. unfold flagged. cbn. rewrite andb_false_r, orb_false_r. by destruct b. }
  unfold call_backs in Hj. cbn [fold_left] in Hj. destruct (call_back_keeps clock k o d) as [new Hnew].
  destruct (IH _ _ _ Hj) as [(a & Ha & ->)|(Hle & Hp & Hv)]; rewrite Hnew in *.
  - apply lookup_app_Some in Ha as [Ha|[Hle Ha]].
    + left. destruct (decide (k = j)) as [<-|Hne].
      * rewrite list_lookup_alter_eq in Ha. destruct (dials d !! k) as [a'|]; [| done]. injection Ha as <-. exists a'. split; [done |].
        unfold flagged. rewrite !bool_decide_true by done. cbn [existsb andb]. destruct (is_call ConnectedCall o); cbn; [by rewrite orb_true_r | done].
      * rewrite list_lookup_alter_ne in Ha by done. exists a. split; [done |]. unfold flagged. by rewrite !bool_decide_false.
    + right. apply list_lookup_fmap_Some in Ha as (vp & -> & _). rewrite length_alter in Hle. split; [done |]. split; [done |].
      intros Hne. cbn. by rewrite bool_decide_false.
  - right. rewrite length_app, length_alter in Hle. split; [lia |]. by split.
Qed.

Lemma advance_flags k a x out d j b : dials d !! k = Some a -> dials (snd (advance clock k x out d)) !! j = Some b ->
  (j = k /\ b = mkDialed (dialed a) (was_validated a || existsb (is_call ConnectedCall) out) x)
  \/ (j <> k /\ dials d !! j = Some b) \/ (j <> k /\ progress b = at_start /\ was_validated b = false).
Proof.
  intros Hk Hj. cbn [snd advance] in Hj. pose proof (lookup_lt_Some _ _ _ Hk) as Hlt.
  destruct (call_backs_flags _ _ _ _ _ Hj) as [(b0 & Hb & ->)|(Hle & Hp & Hv)]; cbn [dials with_dials] in *.
  - destruct (decide (k = j)) as [<-|Hne].
    + left. rewrite list_lookup_alter_eq, Hk in Hb. injection Hb as <-. split; [done |]. unfold flagged. by rewrite bool_decide_true.
    + right. left. rewrite list_lookup_alter_ne in Hb by done. split; [done |]. rewrite Hb. unfold flagged. rewrite bool_decide_false by done.
      cbn. rewrite orb_false_r. by destruct b0.
  - right. right. rewrite length_alter in Hle. assert (j <> k) as Hne by lia. by split_and!; [| | apply Hv].
Qed.

(** The dials at places of a kind, which new dials are not at. *)
Lemma count_call_backs (f : P -> bool) k out : f at_start = false -> forall d,
  count (fun a => f (progress a)) (dials (call_backs clock k out d)) = count (fun a => f (progress a)) (dials d).
Proof.
  intros Hf. induction out as [|o out IH]; intros d; [done |]. unfold call_backs. cbn [fold_left]. etransitivity; [apply IH |].
  destruct (call_back_keeps clock k o d) as [new ->]. rewrite count_app.
  assert (forall vps, count (fun a => f (progress a)) (map (fun vp => mkDialed vp false at_start) vps) = 0) as ->
    by (intros vps; induction vps as [|vp vps IHv]; [done |]; cbn [map]; rewrite count_cons; cbn [progress]; by rewrite Hf, IHv).
  rewrite Z.add_0_r. destruct (dials d !! k) as [a|] eqn:Hk.
  - rewrite (count_alter _ _ _ _ _ Hk). destruct (is_call ConnectedCall o); cbn; lia.
  - f_equal. apply list_eq. intros j. destruct (decide (k = j)) as [<-|Hne]; [by rewrite list_lookup_alter_eq, Hk | by rewrite list_lookup_alter_ne].
Qed.

Lemma count_advance (f : P -> bool) k a x out d : f at_start = false -> dials d !! k = Some a ->
  count (fun a => f (progress a)) (dials (snd (advance clock k x out d)))
  = count (fun a => f (progress a)) (dials d) - Z.b2z (f (progress a)) + Z.b2z (f x).
Proof.
  intros Hf Hk. cbn [snd advance]. rewrite count_call_backs by done. cbn [dials with_dials]. by rewrite (count_alter _ _ _ _ _ Hk).
Qed.

Lemma count_offer (f : P -> bool) vp d : f at_start = false ->
  count (fun a => f (progress a)) (dials (offer clock vp d)) = count (fun a => f (progress a)) (dials d).
Proof.
  intros Hf. unfold offer. cbn [dials spawn_dials]. rewrite count_app. generalize (map fst (fst (enqueue clock vp (scheduling d)))). intros vps.
  induction vps as [|v vps IH]; [by rewrite Z.add_0_r |]. cbn [map]. rewrite count_cons. cbn [progress]. by rewrite Hf.
Qed.

(** The counts of validated connections, without a call of [on_done] and after one. *)
Abbreviation total_of d := (total_validated (sched (scheduling d))).
Abbreviation count_of d := (validated_count (sched (scheduling d))).

Lemma validated_quiet k out : forall d, dones out = 0%nat ->
  total_of (call_backs clock k out d) = total_of d + count (is_call ConnectedCall) out
  /\ count_of (call_backs clock k out d) = count_of d + count (is_call ConnectedCall) out.
Proof.
  induction out as [|o out IH]; intros d Hd; [by rewrite !Z.add_0_r |]. unfold call_backs. cbn [fold_left]. rewrite count_cons.
  unfold dones in Hd. cbn [List.filter] in Hd. fold (dones out) in Hd. unfold is_call at 1 in Hd.
  assert (total_of (call_back clock k o d) = total_of d + Z.b2z (is_call ConnectedCall o)
    /\ count_of (call_back clock k o d) = count_of d + Z.b2z (is_call ConnectedCall o) /\ dones out = 0%nat) as (E1 & E2 & E3).
  { unfold call_back, is_call. destruct (calls o) as [[]|]; [done | done | cbn in *; by rewrite !Z.add_0_r]. }
  destruct (IH (call_back clock k o d) E3) as [E4 E5]. unfold call_backs in E4, E5. rewrite E4, E5. lia.
Qed.

Lemma validated_done k o a d : calls o = Some DoneCall -> dials d !! k = Some a ->
  total_of (call_back clock k o d) = total_of d /\ count_of (call_back clock k o d) = count_of d - Z.b2z (was_validated a).
Proof.
  intros Ho Hk. unfold call_back. rewrite Ho, Hk. pose proof (on_done_takes_slots clock (was_validated a) (scheduling d)) as (_&_&_&_&_&_&(_&_&Hv&Ht&_)&_).
  cbn [spawn_dials scheduling]. rewrite Hv, Ht. by destruct (was_validated a); cbn; rewrite ?Z.sub_0_r.
Qed.

Lemma validated_offer vp d : total_of (offer clock vp d) = total_of d /\ count_of (offer clock vp d) = count_of d.
Proof. pose proof (enqueue_takes_slots clock vp (scheduling d)) as (_&_&_&_&_&_&(_&_&Hv&Ht&_)&_). by split. Qed.
End changes.
