(* ===== verification/Coroutines.v ===== *)
(** * Coroutines: stackful coroutines that share a state

    What [boost::asio::spawn] and [yield_context] mean for the coroutines of one thread: a coroutine
    runs without interruption up to a wait, and goes on, later and on a changed state, with what the
    wait reports. It is a tree of waits. Code in monadic style builds it ([Co]), and rely-guarantee
    reasoning proves what a coroutine does to the state that it shares with the others: it keeps the
    invariant [I] and only makes the changes [G], if between its steps the others only make the
    changes [R]. The file models no code. [ready w] is what the world owes to a coroutine that waits
    for [w] when it goes on; [fails] says whether a coroutine may end by an exception. *)
From S2P Require Export Prelude.

(** A coroutine waits ([Await]), has returned ([Return]), ended with an exception ([Raised]), or runs no
    further and lets nothing else run ([Terminated]): an exception left a [noexcept] function, which ends
    the process, or a loop does not end. *)
Inductive Coroutine (S W E A : Type) :=
| Return (a : A)
| Await (w : W) (resume : E -> S -> Coroutine S W E A * S)
| Raised
| Terminated.
Arguments Return {S W E A} a.
Arguments Await {S W E A} w resume.
Arguments Raised {S W E A}.
Arguments Terminated {S W E A}.

(** Running a coroutine from a state to its first wait. *)
Definition Co (S W E A : Type) : Type := S -> Coroutine S W E A * S.

Section monad.
Context {S W E : Type}.

Fixpoint then_run {A B} (f : A -> Co S W E B) (c : Coroutine S W E A) (s : S) : Coroutine S W E B * S :=
  match c with
  | Return a => f a s
  | Await w resume => (Await w (fun report s => let '(c, s) := resume report s in then_run f c s), s)
  | Raised => (Raised, s)
  | Terminated => (Terminated, s)
  end.

#[export] Instance Co_ret : MRet (Co S W E) := fun _ a s => (Return a, s).
#[export] Instance Co_bind : MBind (Co S W E) := fun _ _ f m s => let '(c, s) := m s in then_run f c s.

(** [async_op(..., redirect_error(yield, ec))], and the report of the operation. *)
Definition await (w : W) : Co S W E E := fun s => (Await w (fun report s => (Return report, s)), s).
(** An exception. *)
Definition raise {A} : Co S W E A := fun s => (Raised, s).
(** A loop that does not end. *)
Definition hang {A} : Co S W E A := fun s => (Terminated, s).
(** Code that does not wait. *)
Definition atomically {A} (f : S -> A * S) : Co S W E A := fun s => let '(a, s) := f s in (Return a, s).
Definition change (f : S -> S) : Co S W E unit := fun s => (Return tt, f s).
Definition look {A} (f : S -> A) : Co S W E A := fun s => (Return (f s), s).

(** A [noexcept] function. *)
Fixpoint contain {A} (c : Coroutine S W E A) : Coroutine S W E A :=
  match c with
  | Raised => Terminated
  | Await w resume => Await w (fun report s => let '(c, s) := resume report s in (contain c, s))
  | c => c
  end.
Definition noexcept {A} (m : Co S W E A) : Co S W E A := fun s => let '(c, s) := m s in (contain c, s).
End monad.

(** ** Rely and guarantee *)

Section rely_guarantee.
Context {S W E : Type} (fails : Prop) (ready : W -> S -> Prop) (I : S -> Prop) (R G : S -> S -> Prop).
Context `{!PreOrder R} `{!PreOrder G}.

(** [c], suspended in the state [s]: whatever the others have done when it goes on. *)
Inductive behaves {A} (Q : A -> S -> Prop) (s : S) : Coroutine S W E A -> Prop :=
| behaves_return a : Q a s -> behaves Q s (Return a)
| behaves_raised : fails -> behaves Q s Raised
| behaves_terminated : fails -> behaves Q s Terminated
| behaves_await w resume :
    (forall report s1, R s s1 -> ready w s1 -> I s1 -> I (snd (resume report s1)) /\ G s1 (snd (resume report s1))) ->
    (forall report s1, R s s1 -> ready w s1 -> I s1 -> behaves Q (snd (resume report s1)) (fst (resume report s1))) ->
    behaves Q s (Await w resume).

(** What running [m] from a state with [P] does, up to and after its waits. *)
Definition spec {A} (P : S -> Prop) (m : Co S W E A) (Q : A -> S -> Prop) : Prop := forall s,
  I s -> P s -> I (snd (m s)) /\ G s (snd (m s)) /\ behaves Q (snd (m s)) (fst (m s)).

(** A suspended coroutine does not care how often the others run. *)
Lemma behaves_later {A} (Q : A -> S -> Prop) s s' w resume :
  behaves Q s (Await w resume) -> R s s' -> behaves Q s' (Await w resume).
Proof using PreOrder0.
  intros H Hr. inversion H as [| | |w' r' Hk Hb]; subst.
  constructor; intros report s1 H1; [apply Hk | apply Hb]; by transitivity s'.
Qed.

Lemma spec_ret {A} (a : A) (Q : A -> S -> Prop) : spec (Q a) (mret a) Q.
Proof using PreOrder1. intros s Hs HQ. split; [done |]. split; [done | by constructor]. Qed.

Lemma spec_raise {A} P (Q : A -> S -> Prop) : fails -> spec P raise Q.
Proof using PreOrder1. intros Hf s Hs _. split; [done |]. split; [done | by constructor]. Qed.

(** What [m] has done, in the states before and after. *)
Definition done_by {A} (Q : A -> S -> Prop) (s : S) (r : Coroutine S W E A * S) : Prop :=
  I (snd r) /\ G s (snd r) /\ behaves Q (snd r) (fst r).

Lemma then_run_behaves {A B} (f : A -> Co S W E B) (Q : A -> S -> Prop) (Q' : B -> S -> Prop) s c :
  (forall a, spec (Q a) (f a) Q') -> behaves Q s c -> I s -> done_by Q' s (then_run f c s).
Proof using PreOrder1.
  intros Hf H. induction H as [s a Ha |s Hx |s Hx |s w resume Hk Hb IH]; intros Hs; cbn [then_run].
  - by apply Hf.
  - split; [done |]. split; [done | by constructor].
  - split; [done |]. split; [done | by constructor].
  - split; [done |]. split; [done |]. cbn [fst snd].
    assert (forall report s1, R s s1 -> ready w s1 -> I s1 ->
      done_by Q' s1 (let '(c, s) := resume report s1 in then_run f c s)) as Hn.
    { intros report s1 Hr Hw Hs1. destruct (Hk report s1 Hr Hw Hs1) as [H1 H2].
      specialize (IH report s1 Hr Hw Hs1 H1). destruct (resume report s1) as [c s2]. cbn [fst snd] in *.
      destruct IH as (H4 & H5 & H6). split; [done |]. split; [by transitivity s2 | done]. }
    constructor; intros report s1 Hr Hw Hs1; destruct (Hn report s1 Hr Hw Hs1) as (H4 & H5 & H6); done.
Qed.

Lemma spec_bind {A B} P (m : Co S W E A) (f : A -> Co S W E B) Q Q' :
  spec P m Q -> (forall a, spec (Q a) (f a) Q') -> spec P (m ≫= f) Q'.
Proof using PreOrder1.
  intros Hm Hf s Hs HP. destruct (Hm s Hs HP) as (H1 & H2 & H3). unfold mbind, Co_bind.
  destruct (m s) as [c s']. cbn [fst snd] in *.
  destruct (then_run_behaves f Q Q' s' c Hf H3 H1) as (H4 & H5 & H6).
  split; [done |]. split; [by transitivity s' | done].
Qed.

(** A wait: what holds before it and is not changed by the others holds after it, and what the world
    owes holds too. *)
Lemma spec_await (P : S -> Prop) w : (forall s s', P s -> R s s' -> P s') ->
  spec P (await w) (fun _ s => P s /\ ready w s).
Proof using PreOrder1.
  intros HP s Hs Hp. split; [done |]. split; [done |].
  constructor; intros report s1 Hr Hw Hs1; cbn [fst snd]; [done |]. constructor. split; [by apply (HP s) | done].
Qed.

Lemma spec_atomically {A} (P : S -> Prop) (f : S -> A * S) (Q : A -> S -> Prop) :
  (forall s, I s -> P s -> I (snd (f s)) /\ G s (snd (f s)) /\ Q (fst (f s)) (snd (f s))) -> spec P (atomically f) Q.
Proof.
  intros Hf s Hs HP. specialize (Hf s Hs HP). unfold atomically. destruct (f s) as [a s']. destruct Hf as (H1 & H2 & H3).
  split; [done |]. split; [done | by constructor].
Qed.

Lemma spec_change P (f : S -> S) (Q : S -> Prop) :
  (forall s, I s -> P s -> I (f s) /\ G s (f s) /\ Q (f s)) -> spec P (change f) (fun _ => Q).
Proof.
  intros Hf s Hs HP. destruct (Hf s Hs HP) as (H1 & H2 & H3). split; [done |]. split; [done | by constructor].
Qed.

Lemma spec_look {A} (P : S -> Prop) (f : S -> A) (Q : A -> S -> Prop) :
  (forall s, I s -> P s -> Q (f s) s) -> spec P (look f) Q.
Proof using PreOrder1. intros Hf s Hs HP. split; [done |]. split; [done |]. constructor. by apply Hf. Qed.

Lemma behaves_weaken {A} (Q Q' : A -> S -> Prop) s c : (forall a s, Q a s -> Q' a s) ->
  behaves Q s c -> behaves Q' s c.
Proof. intros HQ H. induction H; constructor; auto. Qed.

Lemma spec_weaken {A} (P P' : S -> Prop) (m : Co S W E A) (Q Q' : A -> S -> Prop) :
  spec P m Q -> (forall s, P' s -> P s) -> (forall a s, Q a s -> Q' a s) -> spec P' m Q'.
Proof.
  intros Hm HP HQ s Hs H. destruct (Hm s Hs (HP s H)) as (H1 & H2 & H3). split; [done |]. split; [done |].
  by apply (behaves_weaken Q).
Qed.

Lemma contain_behaves {A} (Q : A -> S -> Prop) s c : behaves Q s c -> behaves Q s (contain c).
Proof.
  induction 1 as [| | |s w resume Hk Hb IH]; cbn [contain]; constructor; try done;
    intros report s1 Hr Hw Hs; specialize (Hk report s1 Hr Hw Hs); specialize (IH report s1 Hr Hw Hs);
    by destruct (resume report s1) as [c s2].
Qed.

Lemma spec_noexcept {A} P (m : Co S W E A) (Q : A -> S -> Prop) : spec P m Q -> spec P (noexcept m) Q.
Proof.
  intros Hm s Hs HP. destruct (Hm s Hs HP) as (H1 & H2 & H3). unfold noexcept. destruct (m s) as [c s'].
  cbn [fst snd] in *. split; [done |]. split; [done | by apply contain_behaves].
Qed.
End rely_guarantee.

(** A fact that nobody changes is carried along. *)
Lemma behaves_frame {S W E A} fails (ready : W -> S -> Prop) (I F : S -> Prop) (R G : S -> S -> Prop) (Q : A -> S -> Prop) s (c : Coroutine S W E A) :
  (forall s s', F s -> R s s' -> F s') -> (forall s s', F s -> G s s' -> F s') ->
  behaves fails ready I R G Q s c -> F s -> behaves fails ready I R G (fun a s => Q a s /\ F s) s c.
Proof.
  intros HR HG. induction 1 as [| | |s w resume Hk Hb IH]; intros Hf; constructor; try done.
  intros report s1 Hr Hw Hs. destruct (Hk report s1 Hr Hw Hs) as [_ H2]. apply IH; eauto.
Qed.

Lemma spec_frame {S W E A} fails (ready : W -> S -> Prop) (I F : S -> Prop) (R G : S -> S -> Prop) P (m : Co S W E A) Q :
  (forall s s', F s -> R s s' -> F s') -> (forall s s', F s -> G s s' -> F s') ->
  spec fails ready I R G P m Q -> spec fails ready I R G (fun s => P s /\ F s) m (fun a s => Q a s /\ F s).
Proof.
  intros HR HG Hm s Hs [HP HF]. destruct (Hm s Hs HP) as (H1 & H2 & H3). split; [done |]. split; [done |].
  apply behaves_frame; eauto.
Qed.

(** The others may do less, the coroutine more. *)
Lemma behaves_mono {S W E A} fails (ready : W -> S -> Prop) (I : S -> Prop) (R R' G G' : S -> S -> Prop) (Q : A -> S -> Prop) s (c : Coroutine S W E A) :
  (forall s s', R' s s' -> R s s') -> (forall s s', G s s' -> G' s s') -> behaves fails ready I R G Q s c ->
  behaves fails ready I R' G' Q s c.
Proof.
  intros HR HG. induction 1 as [| | |s w resume Hk Hb IH]; constructor; try done.
  - intros report s1 Hr Hw Hs. destruct (Hk report s1 (HR _ _ Hr) Hw Hs). auto.
  - auto.
Qed.

Lemma spec_mono {S W E A} fails (ready : W -> S -> Prop) (I : S -> Prop) (R R' G G' : S -> S -> Prop) P (m : Co S W E A) Q :
  (forall s s', R' s s' -> R s s') -> (forall s s', G s s' -> G' s s') -> spec fails ready I R G P m Q ->
  spec fails ready I R' G' P m Q.
Proof.
  intros HR HG Hm s Hs HP. destruct (Hm s Hs HP) as (H1 & H2 & H3). split; [done |]. split; [auto |].
  by apply (behaves_mono fails ready I R R' G G').
Qed.

(** ** How long a coroutine lasts *)

Section bounded.
Context {S W E : Type}.

(** It ends after at most [n] waits. *)
Fixpoint within {A} (n : nat) (c : Coroutine S W E A) {struct c} : Prop :=
  match c with
  | Await w resume => match n with O => False | Datatypes.S n => forall report s, within n (fst (resume report s)) end
  | _ => True
  end.
Definition bounded {A} (n : nat) (m : Co S W E A) : Prop := forall s, within n (fst (m s)).

Lemma within_le {A} : forall (c : Coroutine S W E A) n m, within n c -> (n <= m)%nat -> within m c.
Proof.
  fix IH 1. intros [a|w resume| |] [|n] [|m] H Hle; cbn [within] in *; try done; [lia |].
  intros report s. specialize (H report s). destruct (resume report s) as [c s']. cbn [fst] in *. apply (IH c n m H). lia.
Qed.

Lemma within_then_run {A B} (f : A -> Co S W E B) k : (forall a, bounded k (f a)) ->
  forall c n s, within n c -> within (n + k) (fst (then_run f c s)).
Proof.
  intros Hf. fix IH 1. intros [a|w resume| |] n s H; cbn [then_run fst]; try exact Logic.I.
  - apply (within_le _ k); [apply Hf | lia].
  - destruct n as [|n]; [done |]. cbn [within Nat.add] in *. intros report s1. specialize (H report s1).
    destruct (resume report s1) as [c s2]. cbn [fst] in *. apply (IH c n s2 H).
Qed.

Lemma bounded_bind {A B} n k (m : Co S W E A) (f : A -> Co S W E B) :
  bounded n m -> (forall a, bounded k (f a)) -> bounded (n + k) (m ≫= f).
Proof.
  intros Hm Hf s. unfold mbind, Co_bind. specialize (Hm s). destruct (m s) as [c s']. by apply within_then_run.
Qed.

Lemma bounded_le {A} n k (m : Co S W E A) : bounded n m -> (n <= k)%nat -> bounded k m.
Proof. intros Hm Hle s. by apply (within_le _ n). Qed.

Lemma bounded_hang {A} n : bounded n (hang (S := S) (W := W) (E := E) (A := A)).
Proof. intros s. exact Logic.I. Qed.

Lemma bounded_await w : bounded 1 (await (S := S) (E := E) w).
Proof. intros s report s'. exact Logic.I. Qed.

Lemma within_contain {A} : forall (c : Coroutine S W E A) n, within n c -> within n (contain c).
Proof.
  fix IH 1. intros [a|w resume| |] n H; cbn [contain]; try done. destruct n as [|n]; [done |].
  cbn [within] in *. intros report s. specialize (H report s). destruct (resume report s) as [c s']. by apply IH.
Qed.

Lemma bounded_noexcept {A} n (m : Co S W E A) : bounded n m -> bounded n (noexcept m).
Proof. intros Hm s. unfold noexcept. specialize (Hm s). destruct (m s) as [c s']. by apply within_contain. Qed.
End bounded.
