(* ===== verification/Discv4Packets.v ===== *)
(** * Discv4Packets: the packets of discovery version 4

    [include/discv4/discv4_packet.hpp/.cpp], [discv4_ping.hpp/.cpp],
    [discv4_pong.hpp/.cpp], [discv4_enr_request.hpp/.cpp],
    [discv4_enr_response.hpp/.cpp], the signing of [packet_factory.cpp], and [sign_packet] and
    [verify_packet] of [discv4_client.cpp]. Keccak-256, libsecp256k1 and the text of addresses are
    parameters; the clock is an argument. A datagram is a hash, a signature, the type and an RLP
    list.

    Theorems: what is signed verifies with the signer's key, and nothing verifies under another
    hash ([signed_packet_verifies]); the payloads are the lists of the protocol, and a pong, an ENR
    request and an ENR response are read back, with unknown fields after them ([pong_parsed],
    [enr_response_parsed]); the fork id of a record is found ([eth_fork_id_found]); the parsers end
    on every input in typed values or an error ([discv4_parsers_total]). *)
From S2P Require Export Discv4Types Addresses Secp256k1 Codec.
Open Scope Z_scope.

(** ** Results *)

Abbreviation Discv4Result := (outcome discv4Error).

(** [enum class PacketError]; and a call of libsecp256k1 without a context ends the process. *)
Inductive PacketError := kNullPacket | kSignFailure | Aborted.

(** ** Payloads *)

(** [discv4_ping::Endpoint]; its view is that of its own octets. *)
Record Endpoint := mkEndpoint { ipBytes : bytes; ep_udpPort : Z; ep_tcpPort : Z }.

Record discv4_ping := mkPing { fromEp : Endpoint; toEp : Endpoint; ping_expires : Z }.

(** [discv4_pong], whose endpoint is the [Endpoint] of the same fields. *)
Record discv4_pong := mkPong { toEndpoint : Endpoint; pingHash : bytes; expiration : Z; ersErq : Z }.

Record discv4_enr_request := mkEnrRequest { request_expiration : Z }.
Record discv4_enr_response := mkEnrResponse { request_hash : bytes; record_rlp : bytes }.

(** [static_cast<uint32_t>(std::time(nullptr)) + kPacketExpirySeconds]. *)
Definition expires_at (now : Z) : Z := u32 (u32 now + kPacketExpirySeconds).

(** An encoding that fails gives no octets. *)
Definition octets_or_empty (r : EncodingResult bytes) (f : bytes -> bytes) : bytes :=
  match r with Ok b => f b | _ => [] end.

Section text.
Context `{AddressText}.

(** [Endpoint(ipStr, udp, tcp)]: a text that is not an IPv4 address leaves zeros. *)
Definition new_endpoint (ipStr : bytes) (udp tcp : Z) : Endpoint :=
  mkEndpoint (match make_address ipStr with Some (V4 a) => a | _ => [0; 0; 0; 0] end) udp tcp.

Definition new_ping (now : Z) (fromIp : bytes) (fUdp fTcp : Z) (toIp : bytes) (tUdp tTcp : Z) : discv4_ping :=
  {| fromEp := new_endpoint fromIp fUdp fTcp; toEp := new_endpoint toIp tUdp tTcp; ping_expires := expires_at now |}.
End text.

Definition encode_endpoint (ep : Endpoint) : EncodingResult bytes :=
  run_encoder (
    (BeginList ;;
     (add_bytes (ipBytes ep) ;; add_integral 2 (ep_udpPort ep) ;; add_integral 2 (ep_tcpPort ep)) ;;
     EndList) ;;
    MoveBytes).

(** [discv4_ping::RlpPayload], which reads the clock again. *)
Definition ping_payload (now : Z) (ping : discv4_ping) : bytes :=
  octets_or_empty (run_encoder (
    (BeginList ;;
     (add_integral 1 kProtocolVersion ;;
      (from_encoded ← lift (encode_endpoint (fromEp ping)); AddRaw from_encoded) ;;
      (to_encoded ← lift (encode_endpoint (toEp ping)); AddRaw to_encoded) ;;
      add_integral 4 (expires_at now)) ;;
     EndList) ;;
    MoveBytes)) (cons kPacketTypePing).

Definition enr_request_payload (req : discv4_enr_request) : bytes :=
  octets_or_empty (run_encoder (
    (BeginList ;; add_integral 8 (request_expiration req) ;; EndList) ;; MoveBytes))
    (cons kPacketTypeEnrRequest).

(** ** Parsing *)

Definition fail_unless (b : bool) (e : DecodingError.t) : DecM unit := fail_if (negb b) e.

Definition ParseEndpoint : DecM Endpoint :=
  is_list ← IsList;
  fail_unless is_list DecodingError.kUnexpectedString ;;
  _ ← ReadListHeaderBytes;
  ip ← read_fixed 4;
  udpPort ← read_integral 2;
  tcpPort ← read_integral 2;
  mret (mkEndpoint ip udpPort tcpPort).

(** [while (!decoder.IsFinished()) SkipItem]. *)
Fixpoint skip_rest (fuel : nat) : DecM unit := fun v =>
  match fuel with
  | O => (Diverged, v)
  | S fuel => if empty v then (Ok tt, v) else (SkipItem ;; skip_rest fuel) v
  end.

Definition skip_all : DecM unit := fun v => skip_rest (S (length v)) v.

Definition parse_pong_fields : DecM discv4_pong :=
  is_list ← IsList;
  fail_unless is_list DecodingError.kUnexpectedString ;;
  _ ← ReadListHeaderBytes;
  toEndpoint ← ParseEndpoint;
  pingHash ← read_fixed 32;
  expiration ← read_integral 8;
  finished ← IsFinished;
  ersErq ← (if negb finished then read_integral 8 else mret 0);
  skip_all ;;
  mret (mkPong toEndpoint pingHash (u32 expiration) ersErq).

(** [discv4_pong::Parse]. *)
Definition parse_pong (raw : bytes) : Result discv4_pong :=
  if len raw <=? kWireHeaderSize - kWirePacketTypeSize then Err DecodingError.kUnexpectedString
  else if negb (byte_at raw kWirePacketTypeOffset =? kPacketTypePong) then Err DecodingError.kUnexpectedString
  else fst (parse_pong_fields (drop (Z.to_nat kWireHeaderSize) raw)).

Definition parse_enr_fields : DecM discv4_enr_response :=
  is_list ← IsList;
  fail_unless is_list DecodingError.kUnexpectedString ;;
  _ ← ReadListHeaderBytes;
  request_hash ← read_fixed 32;
  record_header ← PeekHeader;
  let record_total := header_size_bytes record_header + payload_size_bytes record_header in
  remaining ← Remaining;
  fail_if (len remaining <? record_total) DecodingError.kInputTooShort ;;
  SkipItem ;;
  mret (mkEnrResponse request_hash (take (Z.to_nat record_total) remaining)).

(** [discv4_enr_response::Parse]. *)
Definition parse_enr_response (raw : bytes) : Result discv4_enr_response :=
  if len raw <=? kWireHeaderSize then Err DecodingError.kInputTooShort
  else if negb (byte_at raw kWirePacketTypeOffset =? kPacketTypeEnrResponse) then Err DecodingError.kUnexpectedString
  else fst (parse_enr_fields (drop (Z.to_nat kWireHeaderSize) raw)).

Definition kEthKey : bytes := text "eth".

(** The value of the eth key. *)
Definition read_fork_id : DecM ForkId :=
  val_is_list ← IsList;
  fail_unless val_is_list DecodingError.kUnexpectedString ;;
  _ ← ReadListHeaderBytes;
  fork_is_list ← IsList;
  fail_unless fork_is_list DecodingError.kUnexpectedString ;;
  _ ← ReadListHeaderBytes;
  hash ← read_fixed 4;
  next ← read_integral 8;
  mret (mkForkId hash next).

(** The loop over keys and values. *)
Fixpoint find_eth (fuel : nat) : DecM ForkId := fun v =>
  match fuel with
  | O => (Diverged, v)
  | S fuel =>
      if empty v then (Err DecodingError.kUnexpectedString, v)
      else (key_bytes ← read_bytes;
            if bool_decide (key_bytes = kEthKey) then read_fork_id
            else SkipItem ;; find_eth fuel) v
  end.

Definition find_eth_entry : DecM ForkId := fun v => find_eth (S (length v)) v.

Definition parse_record : DecM ForkId :=
  is_list ← IsList;
  fail_unless is_list DecodingError.kUnexpectedString ;;
  _ ← ReadListHeaderBytes;
  SkipItem ;;
  SkipItem ;;
  find_eth_entry.

Definition ParseEthForkId (response : discv4_enr_response) : Result ForkId :=
  if empty (record_rlp response) then Err DecodingError.kInputTooShort
  else fst (parse_record (record_rlp response)).

(** ** Signatures *)

Section signing.
Context (keccak256 : bytes -> bytes) `{Secp256k1}.

(** [discv4_packet::ValidateHash]. *)
Definition ValidateHash (payload hash : bytes) : bool :=
  bool_decide (keccak256 payload = take (Z.to_nat kWireHashSize) hash).

(** [PacketFactory::SignAndBuildPacket], of the packet's payload. The context is not tested. *)
Definition SignAndBuildPacket (packet : option bytes) (privKey : bytes) : outcome PacketError bytes :=
  match packet with
  | None => Err kNullPacket
  | Some payload =>
      if negb context_create then Err Aborted else
      match ecdsa_sign_recoverable (keccak256 payload) privKey with
      | None => Err kSignFailure
      | Some (serialized, recid) =>
          let out := repeat 0 (Z.to_nat kWireHashSize) ++ serialized ++ [u8 recid] ++ payload in
          Ok (keccak256 (drop (Z.to_nat kWireHashSize) out) ++ drop (Z.to_nat kWireHashSize) out)
      end
  end.

(** [PacketFactory::SendPingAndWait] without its socket: whether the send succeeds ([send_to] throws) and
    what is received are arguments. [None] is an exception; otherwise the datagram and the call of
    [callback]. *)
Definition SendPingAndWait `{AddressText} (now : Z) (fromIp : bytes) (fUdp fTcp : Z) (toIp : bytes) (tUdp tTcp : Z)
    (privKey : bytes) (sends : bool) (received : option (bytes * (bytes * Z))) :
    option (outcome PacketError (bytes * option (bytes * (bytes * Z)))) :=
  match SignAndBuildPacket (Some (ping_payload now (new_ping now fromIp fUdp fTcp toIp tUdp tTcp))) privKey with
  | Ok msg =>
      match make_address toIp with
      | Some (V4 _) =>
          if negb sends then None
          else Some (Ok (msg, option_map (fun '(data, sender) => (take (Z.to_nat kUdpBufferSize) data, sender)) received))
      | _ => None
      end
  | Err e => Some (Err e)
  | Diverged => Some Diverged
  end.

(** [discv4_client::sign_packet]. *)
Definition sign_packet (private_key payload : bytes) : Discv4Result bytes :=
  if negb context_create then Err kContextCreationFailed else
  match ecdsa_sign_recoverable (keccak256 payload) private_key with
  | None => Err kSigningFailed
  | Some (sig, recid) =>
      let sig_bytes := sig ++ [u8 recid] in
      Ok (keccak256 (sig_bytes ++ payload) ++ sig_bytes ++ payload)
  end.

(** [discv4_client::verify_packet]. *)
Definition verify_packet (data : bytes) : Discv4Result bytes :=
  if len data <? kWireHeaderSize then Err kPacketTooSmall else
  let hash_data := take (Z.to_nat kWireHashSize) data in
  let sig_data := substr data kWireHashSize kWireSigSize in
  let payload := drop (Z.to_nat (kWireHashSize + kWireSigSize)) data in
  if negb (bool_decide (hash_data = keccak256 (sig_data ++ payload))) then Err kHashMismatch else
  if negb context_create then Err kContextCreationFailed else
  let recid := byte_at sig_data (kWireSigSize - 1) in
  let sig := take (Z.to_nat kWireCompactSigSize) sig_data in
  if negb (recoverable_parse_compact sig recid) then Err kSignatureParseFailed else
  match ecdsa_recover sig recid (keccak256 payload) with
  | None => Err kSignatureRecoveryFailed
  | Some pubkey => Ok (drop (Z.to_nat kWirePacketTypeSize) (ec_pubkey_serialize false pubkey))
  end.
End signing.

(** ** Signed packets *)

Section signed.
Context (keccak256 : bytes -> bytes) `{Secp256k1Laws}.

(** A packet put together from a hash, a signature that was made, and the payload. *)
Lemma verify_assembled k pk payload s r h :
  context_create = true -> ecdsa_sign_recoverable (keccak256 payload) k = Some (s, r) ->
  ec_pubkey_create k = Some pk -> payload <> [] -> length h = 32%nat ->
  let body := (s ++ [r]) ++ payload in
  len (h ++ body) = kWireHashSize + kWireSigSize + len payload
  /\ drop (Z.to_nat (kWireHashSize + kWireSigSize)) (h ++ body) = payload
  /\ verify_packet keccak256 (h ++ body)
     = if bool_decide (h = keccak256 body) then Ok (key_id pk) else Err kHashMismatch.
Proof.
  intros Hc Hs Hpk Hne Hh body. destruct (sign_length _ _ _ _ Hs) as [Hls _].
  destruct (sign_recover _ _ _ _ _ Hs Hpk) as [Hp Hrec].
  assert (length (s ++ [r]) = 65%nat) as Hls' by (rewrite length_app, Hls; done).
  assert (0 < len payload) as Hpos by (destruct payload; [done | len_lia]).
  assert (len (h ++ body) = kWireHashSize + kWireSigSize + len payload) as Hlen.
  { unfold body, kWireHashSize, kWireSigSize, len. rewrite !length_app, Hh, Hls. cbn [length]. lia. }
  assert (drop (Z.to_nat (kWireHashSize + kWireSigSize)) (h ++ body) = payload) as Hdrop
    by (unfold body; rewrite app_assoc, drop_app_length'; [done | rewrite length_app, Hh, Hls'; done]).
  split_and!; [done | done |]. unfold verify_packet. rewrite Hlen, Hdrop.
  rewrite (proj2 (Z.ltb_ge _ _)) by (unfold kWireHeaderSize, kWirePacketTypeSize; lia).
  assert (substr (h ++ body) kWireHashSize kWireSigSize = s ++ [r]) as ->
    by (unfold body; rewrite substr_app; unfold len; rewrite ?Hh, ?Hls'; done).
  change (Z.to_nat kWireHashSize) with 32%nat. rewrite take_app_length' by done.
  fold body. destruct (bool_decide (h = keccak256 body)); cbn [negb]; [| done]. rewrite Hc. cbn [negb].
  change (Z.to_nat kWireCompactSigSize) with 64%nat. rewrite take_app_length' by done.
  assert (byte_at (s ++ [r]) (kWireSigSize - 1) = r) as ->
    by (unfold byte_at; change (Z.to_nat (kWireSigSize - 1)) with 64%nat; rewrite app_nth2 by lia; by rewrite Hls).
  rewrite Hp, Hrec. cbn [negb]. unfold key_id.
  by rewrite (take_ge (drop 1 _) 64) by (by rewrite length_drop, serialize_length).
Qed.

(** the two signers agree, and what they sign verifies with the key of the signer. A packet under
    any other hash is refused. *)
Theorem signed_packet_verifies k pk payload :
  (forall d, length (keccak256 d) = 32%nat) -> context_create = true ->
  ec_pubkey_create k = Some pk -> payload <> [] ->
  exists packet, sign_packet keccak256 k payload = Ok packet
  /\ SignAndBuildPacket keccak256 (Some payload) k = Ok packet
  /\ verify_packet keccak256 packet = Ok (key_id pk)
  /\ len packet = kWireHashSize + kWireSigSize + len payload
  /\ drop (Z.to_nat (kWireHashSize + kWireSigSize)) packet = payload
  /\ forall h, length h = 32%nat -> h <> take 32 packet -> verify_packet keccak256 (h ++ drop 32 packet) = Err kHashMismatch.
Proof.
  intros Hk Hc Hpk Hne.
  destruct (seckey_signs (keccak256 payload) k) as [[s r] Hs]; [apply seckey_pubkey; eauto |].
  pose proof (sign_recid _ _ _ _ Hs) as Hr. assert (u8 r = r) as Hu by (unfold u8; apply Z.mod_small; lia).
  set (body := (s ++ [r]) ++ payload).
  pose proof (fun h Hh => verify_assembled k pk payload s r h Hc Hs Hpk Hne Hh) as Hv. cbn zeta in Hv. fold body in Hv.
  destruct (Hv (keccak256 body) (Hk _)) as (Hlen & Hdrop & Hver). rewrite bool_decide_true in Hver by done.
  exists (keccak256 body ++ body). unfold sign_packet, SignAndBuildPacket. rewrite Hc, Hs, Hu. cbn [negb]. split_and!; try done.
  - change (Z.to_nat kWireHashSize) with 32%nat. rewrite drop_app_length' by (by rewrite repeat_length).
    unfold body. by rewrite <- !app_assoc.
  - intros h Hh Hne'. rewrite take_app_length' in Hne' by done. rewrite drop_app_length' by done.
    destruct (Hv h Hh) as (_ & _ & ->). by rewrite bool_decide_false.
Qed.

(** What is signed is a datagram of that type. *)
Lemma sign_packet_shape k type body : (forall d, is_array 32 (keccak256 d)) -> context_create = true ->
  is_Some (ec_pubkey_create k) -> exists header, length header = 97%nat
  /\ sign_packet keccak256 k (type :: body) = Ok (header ++ type :: body) /\ is_array 32 (take 32 header).
Proof.
  intros Hk Hc Hpk. destruct (seckey_signs (keccak256 (type :: body)) k) as [[s r] Hs]; [by apply seckey_pubkey |].
  destruct (sign_length _ _ _ _ Hs) as [Hls _]. unfold sign_packet. rewrite Hc, Hs. cbn [negb].
  set (h := keccak256 _). pose proof (Hk ((s ++ [u8 r]) ++ type :: body)) as Hh. fold h in Hh. exists (h ++ s ++ [u8 r]).
  destruct Hh as [Hl Ho]. split_and!.
  - by rewrite !length_app, Hl, Hls.
  - by rewrite <- !app_assoc.
  - rewrite take_app_length' by done. by split.
Qed.
End signed.

(** ** Payloads *)

Definition endpoint_ok (ep : Endpoint) : Prop :=
  is_array 4 (ipBytes ep) /\ fits 2 (ep_udpPort ep) /\ fits 2 (ep_tcpPort ep).
Definition endpoint_item (ep : Endpoint) : item :=
  Lst [Str (ipBytes ep); uint_item (ep_udpPort ep); uint_item (ep_tcpPort ep)].

Lemma fits_port w n : fits 2 n -> 2 <= w -> fits w n.
Proof. unfold fits. intros Hn Hw. pose proof (Z.pow_le_mono_r 2 (8 * 2) (8 * w)). lia. Qed.

Lemma uint_len w n : int_width w -> fits w n -> len (rlp (uint_item n)) <= 33.
Proof. intros Hw Hn. apply rlp_uint_len. by apply (int_width_fits w). Qed.

Lemma endpoint_len ep : endpoint_ok ep -> len (rlp (endpoint_item ep)) < 200.
Proof.
  intros (Hip & Hu & Ht). pose proof (uint_len 2 _ width2 Hu). pose proof (uint_len 2 _ width2 Ht).
  apply is_array_len in Hip. pose proof (rlp_str_len (ipBytes ep) ltac:(lia)).
  pose proof (rlp_list_len [Str (ipBytes ep); uint_item (ep_udpPort ep); uint_item (ep_tcpPort ep)]) as Hl.
  rewrite !rlps_cons in Hl. change (rlps []) with (@nil Z) in Hl. unfold endpoint_item.
  autorewrite with sizes in Hl. change (Z.of_nat 4) with 4 in *. lia.
Qed.

Lemma encode_endpoint_ok ep : endpoint_ok ep -> encode_endpoint ep = Ok (rlp (endpoint_item ep)).
Proof.
  intros Hep. pose proof (endpoint_len ep Hep). destruct Hep as (Hip & Hu & Ht).
  apply run_encoder_moves; [| lia]. apply appends_begin_end. rewrite rlps_cons, rlps_two.
  repeat (apply appends_bind; [eauto with appends |]). eauto with appends.
Qed.

Lemma expires_at_fits now : fits 4 (expires_at now).
Proof. unfold expires_at, u32, fits. apply Z.mod_pos_bound. lia. Qed.

(** The payload of a ping. *)
Definition ping_item (now : Z) (ping : discv4_ping) : item :=
  Lst [uint_item kProtocolVersion; endpoint_item (fromEp ping); endpoint_item (toEp ping); uint_item (expires_at now)].

Lemma ping_payload_ok now ping : endpoint_ok (fromEp ping) -> endpoint_ok (toEp ping) ->
  ping_payload now ping = kPacketTypePing :: rlp (ping_item now ping).
Proof.
  intros Hf Ht. unfold ping_payload. rewrite (run_encoder_moves _ (rlp (ping_item now ping))); [done | |].
  - apply appends_begin_end. rewrite !rlps_cons. change (rlps []) with (@nil Z).
    assert (forall ep, endpoint_ok ep -> appends (raw ← lift (encode_endpoint ep); AddRaw raw) (rlp (endpoint_item ep))) as He.
    { intros ep Hep. rewrite encode_endpoint_ok by done. intros Hl st. erewrite bind_ok by done.
      apply appends_AddRaw; [| done]. intros E. pose proof (rlp_nonempty (endpoint_item ep)) as Hn. by rewrite E in Hn. }
    apply appends_bind; [apply appends_add_integral; [apply width1 | done] |].
    apply appends_bind; [by apply He |]. apply appends_bind; [by apply He |].
    apply appends_last, appends_add_integral; [apply width4 | apply expires_at_fits].
  - pose proof (endpoint_len _ Hf). pose proof (endpoint_len _ Ht).
    pose proof (uint_len 4 _ width4 (expires_at_fits now)). pose proof (uint_len 1 kProtocolVersion width1 ltac:(done)).
    pose proof (rlp_list_len [uint_item kProtocolVersion; endpoint_item (fromEp ping); endpoint_item (toEp ping);
      uint_item (expires_at now)]) as Hl. unfold ping_item. rewrite !rlps_cons in Hl. change (rlps []) with (@nil Z) in Hl.
    autorewrite with sizes in Hl. lia.
Qed.

Lemma enr_request_payload_ok req : fits 8 (request_expiration req) ->
  enr_request_payload req = kPacketTypeEnrRequest :: rlp (Lst [uint_item (request_expiration req)]).
Proof.
  intros Hf. unfold enr_request_payload. rewrite (run_encoder_moves _ (rlp (Lst [uint_item (request_expiration req)]))); [done | |].
  - apply appends_begin_end. rewrite rlps_cons. apply appends_last. eauto with appends.
  - pose proof (uint_len 8 _ width8 Hf). pose proof (rlp_list_len [uint_item (request_expiration req)]) as Hl.
    rewrite rlps_cons in Hl. change (rlps []) with (@nil Z) in Hl. autorewrite with sizes in Hl. lia.
Qed.

(** ** Parsing what a peer sends *)

(** The three calls at the start of a list. *)
Lemma enter_list {A} l rest (k : Z -> DecM A) : len (rlp (Lst l)) < 2 ^ 64 -> bytes_ok (rlp (Lst l) ++ rest) ->
  (is_list ← IsList; fail_unless is_list DecodingError.kUnexpectedString ;; n ← ReadListHeaderBytes; k n) (rlp (Lst l) ++ rest)
  = k (len (rlps l)) (rlps l ++ rest).
Proof.
  intros Hl Hok. erewrite bind_ok by (by apply IsList_rlp). cbn [item_is_list].
  erewrite bind_ok by done. by erewrite bind_ok by (by apply ReadListHeaderBytes_list).
Qed.

Lemma reads_endpoint ep : endpoint_ok ep -> reads ParseEndpoint (rlp (endpoint_item ep)) ep.
Proof.
  intros Hep Hl rest Hok. unfold ParseEndpoint. unfold endpoint_item in *. rewrite enter_list by done.
  destruct Hep as (Hip & Hu & Ht). change (rlp (Lst ?l)) with (rlp_list (rlps l)) in *. unfold rlp_list in *.
  rewrite <- app_assoc in Hok. apply bytes_ok_app in Hok as [_ Hok].
  assert (reads (ip ← read_fixed 4; udpPort ← read_integral 2; tcpPort ← read_integral 2; mret (mkEndpoint ip udpPort tcpPort))
    (rlps [Str (ipBytes ep); uint_item (ep_udpPort ep); uint_item (ep_tcpPort ep)]) ep) as H.
  { rewrite !rlps_cons. apply (reads_bind _ _ _ _ (ipBytes ep)); [apply reads_read_fixed, (is_array_len 4 _ Hip) |].
    apply (reads_bind _ _ _ _ (ep_udpPort ep)); [by apply reads_read_integral |].
    apply (reads_bind _ _ _ _ (ep_tcpPort ep)); [by apply reads_read_integral |]. by destruct ep. }
  apply H; [len_lia | done].
Qed.

(** The rest of a list of items is skipped. *)
Lemma skip_rest_items l fuel : len (rlps l) < 2 ^ 64 -> bytes_ok (rlps l) -> (length (rlps l) < fuel)%nat ->
  skip_rest fuel (rlps l) = (Ok tt, []).
Proof.
  revert fuel. induction l as [|it l IH]; intros fuel Hl Hok Hf; (destruct fuel as [|fuel]; [lia |]); [done |].
  rewrite rlps_cons in *. cbn [skip_rest]. pose proof (rlp_nonempty it) as Hn.
  destruct (rlp it ++ rlps l) as [|b t] eqn:E; [apply (f_equal len) in E; len_lia |]. cbn [empty]. rewrite <- E in *.
  erewrite bind_ok by (apply reads_SkipItem; [len_lia | done]). apply bytes_ok_app in Hok as [_ Hok].
  apply IH; [len_lia | done |]. rewrite length_app in Hf. unfold len in Hn. lia.
Qed.

Lemma skip_all_items l : len (rlps l) < 2 ^ 64 -> bytes_ok (rlps l) -> skip_all (rlps l) = (Ok tt, []).
Proof. intros Hl Hok. apply skip_rest_items; [done | done | lia]. Qed.

(** The list of a pong: the endpoint, the hash, the expiration, and what follows. *)
Definition pong_item (ep : Endpoint) (hash : bytes) (expires : Z) (more : list item) : item :=
  Lst (endpoint_item ep :: Str hash :: uint_item expires :: more).

Lemma reads_pong_head {A} ep hash expires (k : Endpoint -> bytes -> Z -> DecM A) v :
  endpoint_ok ep -> is_array 32 hash -> fits 8 expires ->
  len (rlps [endpoint_item ep; Str hash; uint_item expires]) < 2 ^ 64 ->
  bytes_ok (rlps [endpoint_item ep; Str hash; uint_item expires] ++ v) ->
  (toEndpoint ← ParseEndpoint; pingHash ← read_fixed 32; expiration ← read_integral 8; k toEndpoint pingHash expiration)
    (rlps [endpoint_item ep; Str hash; uint_item expires] ++ v) = k ep hash expires v.
Proof.
  intros Hep Hh He Hl Hok. rewrite !rlps_cons in *. change (rlps []) with (@nil Z) in *. rewrite app_nil_r, <- !app_assoc in *.
  erewrite bind_ok by (apply reads_endpoint; [done | len_lia | done]). apply bytes_ok_app in Hok as [_ Hok].
  erewrite bind_ok by (apply reads_read_fixed; [apply (is_array_len 32 _ Hh) | len_lia | done]). apply bytes_ok_app in Hok as [_ Hok].
  by erewrite bind_ok by (apply reads_read_integral; [lia | done | len_lia | done]).
Qed.

(** A pong is parsed, with the optional sequence number of the sender's record, and whatever fields
    come after it. *)
Lemma parse_pong_fields_ok ep hash expires more seq : endpoint_ok ep -> is_array 32 hash -> fits 8 expires ->
  (more = [] /\ seq = 0 \/ fits 8 seq /\ exists more', more = uint_item seq :: more') ->
  len (rlp (pong_item ep hash expires more)) < 2 ^ 64 -> bytes_ok (rlp (pong_item ep hash expires more)) ->
  parse_pong_fields (rlp (pong_item ep hash expires more)) = (Ok (mkPong ep hash (u32 expires) seq), []).
Proof.
  intros Hep Hh He Hseq Hl Hok. unfold parse_pong_fields. rewrite <- (app_nil_r (rlp _)). unfold pong_item in *.
  rewrite enter_list by (by rewrite ?app_nil_r). rewrite app_nil_r.
  change (rlp (Lst ?l)) with (rlp_list (rlps l)) in *. unfold rlp_list in *. apply bytes_ok_app in Hok as [_ Hok].
  change (endpoint_item ep :: Str hash :: uint_item expires :: more)
    with ([endpoint_item ep; Str hash; uint_item expires] ++ more) in *.
  rewrite rlps_app in *. rewrite (reads_pong_head ep hash expires) by (done || len_lia).
  apply bytes_ok_app in Hok as [_ Hok]. assert (len (rlps more) < 2 ^ 64) as Hlm by len_lia. clear Hl.
  erewrite bind_ok by reflexivity. destruct Hseq as [[-> ->] | [Hs [more' ->]]]; [done |]. rewrite rlps_cons in *.
  pose proof (rlp_nonempty (uint_item seq)) as Hn.
  destruct (rlp (uint_item seq) ++ rlps more') as [|b t] eqn:E; [apply (f_equal len) in E; len_lia |].
  cbn [empty negb]. rewrite <- E in *. erewrite bind_ok by (apply reads_read_integral; [lia | done | len_lia | done]).
  apply bytes_ok_app in Hok as [_ Hok]. by erewrite bind_ok by (apply skip_all_items; [len_lia | done]).
Qed.

(** A datagram: the hash and the signature, the type, and the list. *)
Lemma datagram_parts header type body : length header = 97%nat ->
  let raw := header ++ type :: body in
  len raw = 98 + len body /\ byte_at raw kWirePacketTypeOffset = type /\ drop (Z.to_nat kWireHeaderSize) raw = body.
Proof.
  intros Hh raw. unfold raw. split_and!.
  - unfold len. rewrite length_app, Hh. cbn [length]. lia.
  - unfold byte_at. change (Z.to_nat kWirePacketTypeOffset) with 97%nat. rewrite app_nth2 by lia. by rewrite Hh.
  - change (Z.to_nat kWireHeaderSize) with 98%nat. change (type :: body) with ([type] ++ body).
    rewrite app_assoc. rewrite drop_app_length'; [done |]. rewrite length_app, Hh. done.
Qed.

Theorem pong_parsed header ep hash expires more seq :
  length header = 97%nat -> endpoint_ok ep -> is_array 32 hash -> fits 8 expires ->
  (more = [] /\ seq = 0 \/ fits 8 seq /\ exists more', more = uint_item seq :: more') ->
  let body := rlp (pong_item ep hash expires more) in
  len body < 2 ^ 64 -> bytes_ok body ->
  parse_pong (header ++ kPacketTypePong :: body) = Ok (mkPong ep hash (u32 expires) seq).
Proof.
  intros Hh Hep Hha He Hseq body Hl Hok. destruct (datagram_parts header kPacketTypePong body Hh) as (H1 & H2 & H3).
  unfold parse_pong. rewrite H1, H2, H3. pose proof (len_nonneg body).
  rewrite (proj2 (Z.leb_gt _ _)) by (unfold kWireHeaderSize, kWireHashSize, kWireSigSize, kWirePacketTypeSize; lia).
  cbn [Z.eqb negb]. change (kPacketTypePong =? kPacketTypePong) with true. cbn [negb].
  unfold body. by rewrite (parse_pong_fields_ok ep hash expires more seq).
Qed.

(** An ENR response: the hash of the request and the record, whatever follows. *)
Lemma parse_enr_fields_ok hash it more : is_array 32 hash ->
  let l := Str hash :: it :: more in
  len (rlp (Lst l)) < 2 ^ 64 -> bytes_ok (rlp (Lst l)) ->
  fst (parse_enr_fields (rlp (Lst l))) = Ok (mkEnrResponse hash (rlp it)).
Proof.
  intros Hh l Hl Hok. unfold parse_enr_fields. rewrite <- (app_nil_r (rlp _)).
  rewrite enter_list by (by rewrite ?app_nil_r). rewrite app_nil_r.
  change (rlp (Lst l)) with (rlp_list (rlps l)) in *. unfold rlp_list in *. apply bytes_ok_app in Hok as [_ Hok].
  unfold l in *. rewrite !rlps_cons in *.
  erewrite bind_ok by (apply reads_read_fixed; [apply (is_array_len 32 _ Hh) | len_lia | done]).
  apply bytes_ok_app in Hok as [_ Hok]. assert (len (rlp it) < 2 ^ 64) as Hli by len_lia.
  pose proof (decode_header_rlp it (rlps more) Hli) as Hd. erewrite bind_ok by (apply (PeekHeader_ok _ _ _ Hd)).
  erewrite bind_ok by reflexivity. cbn zeta. cbn [header_size_bytes payload_size_bytes].
  replace (len (rlp it) - len (item_payload it) + len (item_payload it)) with (len (rlp it)) by lia.
  rewrite (proj2 (Z.ltb_ge _ _)) by len_lia. erewrite bind_ok by reflexivity.
  erewrite bind_ok by (apply reads_SkipItem; [done | done]). by rewrite take_len_app.
Qed.

Theorem enr_response_parsed header hash it more :
  length header = 97%nat -> is_array 32 hash ->
  let body := rlp (Lst (Str hash :: it :: more)) in
  len body < 2 ^ 64 -> bytes_ok body ->
  parse_enr_response (header ++ kPacketTypeEnrResponse :: body) = Ok (mkEnrResponse hash (rlp it)).
Proof.
  intros Hh Hha body Hl Hok. destruct (datagram_parts header kPacketTypeEnrResponse body Hh) as (H1 & H2 & H3).
  unfold parse_enr_response. rewrite H1, H2, H3. pose proof (rlp_nonempty (Lst (Str hash :: it :: more))) as Hn. fold body in Hn.
  rewrite (proj2 (Z.leb_gt _ _)) by (unfold kWireHeaderSize, kWireHashSize, kWireSigSize, kWirePacketTypeSize; lia).
  change (kPacketTypeEnrResponse =? kPacketTypeEnrResponse) with true. cbn [negb]. by apply parse_enr_fields_ok.
Qed.

(** The pairs of a record: keys are strings, values are any items. *)
Definition pair_items (kvs : list (bytes * item)) : list item :=
  flat_map (fun kv => [Str (fst kv); snd kv]) kvs.

(** The value that EIP-2124 puts under the eth key: a list that starts with the fork id. *)
Definition eth_value (f : ForkId) (more more' : list item) : item :=
  Lst (Lst (Str (fork_hash f) :: uint_item (fork_next f) :: more) :: more').

Lemma read_fork_id_ok f more more' rest :
  is_array 4 (fork_hash f) -> fits 8 (fork_next f) ->
  let it := eth_value f more more' in
  len (rlp it) < 2 ^ 64 -> bytes_ok (rlp it ++ rest) -> fst (read_fork_id (rlp it ++ rest)) = Ok f.
Proof.
  intros Hh Hn it Hl Hok. unfold read_fork_id, it, eth_value in *. rewrite enter_list by done.
  set (inner := Lst (Str (fork_hash f) :: uint_item (fork_next f) :: more)) in *.
  change (rlp (Lst (inner :: more'))) with (rlp_list (rlps (inner :: more'))) in *. unfold rlp_list in *.
  rewrite <- app_assoc in Hok. apply bytes_ok_app in Hok as [_ Hok]. rewrite rlps_cons, <- app_assoc in *.
  assert (len (rlp inner) < 2 ^ 64) as Hli by len_lia. clear Hl. unfold inner in *. rewrite enter_list by done.
  change (rlp (Lst ?l)) with (rlp_list (rlps l)) in *. unfold rlp_list in *.
  rewrite <- app_assoc in Hok. apply bytes_ok_app in Hok as [_ Hok]. rewrite !rlps_cons, <- !app_assoc in *.
  erewrite bind_ok by (apply reads_read_fixed; [apply (is_array_len 4 _ Hh) | len_lia | done]).
  apply bytes_ok_app in Hok as [_ Hok]. erewrite bind_ok by (apply reads_read_integral; [lia | done | len_lia | done]).
  by destruct f.
Qed.

(** The first eth key decides; the pairs before it are skipped. *)
Lemma find_eth_ok kvs f more more' post fuel :
  Forall (fun kv => fst kv <> kEthKey) kvs -> is_array 4 (fork_hash f) -> fits 8 (fork_next f) ->
  let l := pair_items kvs ++ Str kEthKey :: eth_value f more more' :: post in
  len (rlps l) < 2 ^ 64 -> bytes_ok (rlps l) -> (length kvs < fuel)%nat -> fst (find_eth fuel (rlps l)) = Ok f.
Proof.
  intros Hkvs Hh Hn. revert fuel. induction Hkvs as [|[k it] kvs Hk Hkvs IH]; cbn zeta; intros fuel Hl Hok Hf;
    (destruct fuel as [|fuel]; [cbn in Hf; lia |]).
  - cbn [pair_items flat_map app] in *. rewrite !rlps_cons in *.
    pose proof (rlp_nonempty (Str kEthKey)). cbn [find_eth].
    destruct (rlp (Str kEthKey) ++ rlp (eth_value f more more') ++ rlps post) as [|b t] eqn:E;
      [apply (f_equal len) in E; len_lia |]. cbn [empty]. rewrite <- E in *.
    erewrite bind_ok by (apply reads_read_bytes; [len_lia | done]). rewrite bool_decide_true by done.
    apply bytes_ok_app in Hok as [_ Hok]. apply read_fork_id_ok; [done | done | len_lia | done].
  - change (pair_items ((k, it) :: kvs)) with (Str k :: it :: pair_items kvs) in *. cbn [app] in *.
    rewrite (rlps_cons (Str k)), (rlps_cons it) in *. cbn [find_eth]. pose proof (rlp_nonempty (Str k)).
    set (tail := rlps (pair_items kvs ++ _)) in *.
    destruct (rlp (Str k) ++ rlp it ++ tail) as [|b t] eqn:E; [apply (f_equal len) in E; len_lia |].
    cbn [empty]. rewrite <- E in *. erewrite bind_ok by (apply reads_read_bytes; [len_lia | done]).
    rewrite bool_decide_false by done. apply bytes_ok_app in Hok as [_ Hok].
    erewrite bind_ok by (apply reads_SkipItem; [len_lia | done]). apply bytes_ok_app in Hok as [_ Hok].
    apply IH; [unfold tail in *; len_lia | done | cbn in Hf; lia].
Qed.

Lemma length_pair_items kvs l : (length kvs <= length (rlps (pair_items kvs ++ l)))%nat.
Proof.
  induction kvs as [|[k it] kvs IH]; [cbn; lia |]. change (pair_items ((k, it) :: kvs)) with (Str k :: it :: pair_items kvs).
  cbn [app]. rewrite !rlps_cons, !length_app. pose proof (rlp_nonempty (Str k)). unfold len in *. cbn [length]. lia.
Qed.

(** The fork id of a record is found: it is the value of the first eth key, whatever the keys and
    values around it. *)
Theorem eth_fork_id_found sig seq kvs f more more' post request :
  Forall (fun kv => fst kv <> kEthKey) kvs -> is_array 4 (fork_hash f) -> fits 8 (fork_next f) ->
  let record := rlp (Lst (sig :: seq :: pair_items kvs ++ Str kEthKey :: eth_value f more more' :: post)) in
  len record < 2 ^ 64 -> bytes_ok record ->
  ParseEthForkId (mkEnrResponse request record) = Ok f.
Proof.
  intros Hkvs Hh Hn record Hl Hok. unfold ParseEthForkId. cbn [record_rlp].
  set (pairs := pair_items kvs ++ Str kEthKey :: eth_value f more more' :: post) in *.
  pose proof (rlp_nonempty (Lst (sig :: seq :: pairs))) as Hne. fold record in Hne.
  destruct record as [|b t] eqn:E; [rewrite len_nil in Hne; lia |]. cbn [empty]. rewrite <- E in *. unfold record in *.
  unfold parse_record. rewrite <- (app_nil_r (rlp _)). rewrite enter_list by (by rewrite ?app_nil_r). rewrite app_nil_r.
  change (rlp (Lst ?l)) with (rlp_list (rlps l)) in *. unfold rlp_list in *. apply bytes_ok_app in Hok as [_ Hok].
  rewrite !rlps_cons in *. erewrite bind_ok by (apply reads_SkipItem; [len_lia | done]). apply bytes_ok_app in Hok as [_ Hok].
  erewrite bind_ok by (apply reads_SkipItem; [len_lia | done]). apply bytes_ok_app in Hok as [_ Hok].
  unfold find_eth_entry. apply find_eth_ok; [done | done | done | unfold pairs in *; len_lia | done |].
  pose proof (length_pair_items kvs (Str kEthKey :: eth_value f more more' :: post)). unfold pairs. lia.
Qed.

(** ** Parsing whatever a peer sends *)

Lemma total_fail_unless b e : total (fail_unless b e).
Proof. apply total_fail_if. Qed.

Lemma total_skip_rest fuel : forall v, bytes_ok v -> (length v < fuel)%nat ->
  fst (skip_rest fuel v) <> Diverged /\ exists p, v = p ++ snd (skip_rest fuel v).
Proof.
  induction fuel as [|fuel IH]; intros v Hv Hf; [lia |]. cbn [skip_rest].
  destruct (empty v); [by split; [| exists []] |]. destruct (total_SkipItem v Hv) as (Hd & p & Hp).
  pose proof (proj2 consuming_SkipItem v) as Hc. unfold mbind, M_bind.
  destruct (SkipItem v) as [[[]|e|] w]; cbn in Hd, Hp; [| by split; [| exists p] | done].
  specialize (Hc tt w Hv eq_refl). rewrite Hp in Hv. apply bytes_ok_app in Hv as [_ Hw].
  destruct (IH w Hw) as (Hd' & q & Hq); [unfold len in Hc; lia |]. split; [done |]. exists (p ++ q).
  by rewrite Hp, Hq at 1; rewrite app_assoc.
Qed.

Lemma total_skip_all : total skip_all.
Proof. intros v Hv. apply total_skip_rest; [done | lia]. Qed.

#[local] Hint Extern 1 (total (fail_unless _ _)) => simple apply total_fail_unless : total.
#[local] Hint Extern 1 (total skip_all) => simple apply total_skip_all : total.

Lemma total_parse_pong_fields : total parse_pong_fields.
Proof. unfold parse_pong_fields, ParseEndpoint. total_tac. Qed.

Lemma total_parse_enr_fields : total parse_enr_fields.
Proof. unfold parse_enr_fields, Remaining. total_tac. Qed.

Lemma total_read_fork_id : total read_fork_id.
Proof. unfold read_fork_id. total_tac. Qed.

Lemma total_find_eth fuel : forall v, bytes_ok v -> (length v < fuel)%nat ->
  fst (find_eth fuel v) <> Diverged /\ exists p, v = p ++ snd (find_eth fuel v).
Proof.
  induction fuel as [|fuel IH]; intros v Hv Hf; [lia |]. cbn [find_eth].
  destruct (empty v); [by split; [| exists []] |]. unfold mbind, M_bind.
  destruct (total_read_bytes v Hv) as (Hd & p & Hp). pose proof (proj2 consuming_read_bytes v) as Hc.
  destruct (read_bytes v) as [[key|e|] w]; cbn in Hd, Hp; [| by split; [| exists p] | done].
  specialize (Hc key w Hv eq_refl). rewrite Hp in Hv. apply bytes_ok_app in Hv as [_ Hw]. unfold len in Hc.
  destruct (bool_decide (key = kEthKey)).
  - destruct (total_read_fork_id w Hw) as (Hd' & q & Hq). split; [done |]. exists (p ++ q).
    rewrite Hp, Hq at 1. by rewrite app_assoc.
  - destruct (total_SkipItem w Hw) as (Hd' & q & Hq).
    destruct (SkipItem w) as [[[]|e|] x]; cbn in Hd', Hq; [| by split; [| exists (p ++ q); rewrite Hp, Hq, app_assoc] | done].
    assert (length x <= length w)%nat as Hx by (rewrite Hq, length_app; lia).
    rewrite Hq in Hw. apply bytes_ok_app in Hw as [_ Hx']. destruct (IH x Hx' ltac:(lia)) as (Hd2 & r & Hr).
    split; [done |]. exists (p ++ q ++ r). rewrite Hp, Hq, Hr at 1. by rewrite <- !app_assoc.
Qed.

Lemma total_find_eth_entry : total find_eth_entry.
Proof. intros v Hv. apply total_find_eth; [done | lia]. Qed.

#[local] Hint Extern 1 (total find_eth_entry) => simple apply total_find_eth_entry : total.

Lemma total_parse_record : total parse_record.
Proof. unfold parse_record. total_tac. Qed.

(** the parsers end, with a value or an error, whatever octets arrive. *)
Theorem discv4_parsers_total raw response :
  bytes_ok raw -> bytes_ok (record_rlp response) ->
  parse_pong raw <> Diverged /\ parse_enr_response raw <> Diverged /\ ParseEthForkId response <> Diverged.
Proof.
  intros Hr Hp. pose proof (bytes_ok_drop (Z.to_nat kWireHeaderSize) raw Hr) as Hd. unfold parse_pong, parse_enr_response, ParseEthForkId.
  split_and!; repeat (case_match; [done |]).
  - by apply total_parse_pong_fields.
  - by apply total_parse_enr_fields.
  - by apply total_parse_record.
Qed.

(** ** Witnesses *)

Module Toy.
#[export] Existing Instance ToySecp.toy.
#[export] Existing Instance ToySecp.toy_laws.
Definition digest (d : bytes) : bytes := take 32 (d ++ repeat 0 32).
Lemma digest_length d : length (digest d) = 32%nat.
Proof. unfold digest. rewrite length_take, length_app, repeat_length. lia. Qed.
(** A record with a key before the eth key. *)
Definition pairs : list (bytes * item) := [(text "c", Str [7])].
Definition fork : ForkId := mkForkId [1; 2; 3; 4] 1000.
Definition record : bytes :=
  rlp (Lst (Str [] :: uint_item 1 :: pair_items pairs ++ Str kEthKey :: eth_value fork [] [] :: [Str (text "id"); Str [1]])).
End Toy.
Import Toy.

Lemma signed_packet_verifies_witness : exists packet,
  sign_packet digest (repeat 1 32) [1; 2; 3] = Ok packet
  /\ verify_packet digest packet = Ok (key_id ToySecp.odd_key)
  /\ verify_packet digest (repeat 9 32 ++ drop 32 packet) = Err kHashMismatch.
Proof.
  destruct (signed_packet_verifies digest (repeat 1 32) ToySecp.odd_key [1; 2; 3]) as (packet & H1 & _ & H3 & _ & _ & H6).
  - exact digest_length.
  - reflexivity.
  - reflexivity.
  - discriminate.
  - exists packet. split; [exact H1 |]. split; [exact H3 |]. apply H6; [reflexivity |]. vm_compute in H1. injection H1 as <-.
    vm_compute. discriminate.
Defined.

Lemma eth_fork_id_found_witness : ParseEthForkId (mkEnrResponse [] record) = Ok fork.
Proof.
  apply (eth_fork_id_found (Str []) (uint_item 1) pairs fork [] [] [Str (text "id"); Str [1]] []).
  - constructor; [discriminate | constructor].
  - split; [reflexivity | by repeat constructor].
  - vm_compute. by split.
  - vm_compute. reflexivity.
  - apply (bool_decide_unpack _). vm_compute. exact I.
Defined.
