(* ===== verification/Discv4Prototype.v ===== *)
(** * Discv4Prototype: the early discovery client

    [include/discv4/discovery.hpp], which a test of the library includes: the hash and the distance of
    node ids, the reading of an id in hexadecimal, the ping that is encoded, signed and sent, and the class
    that would run the discovery, which sends nothing and prints what it receives. Nothing calls its [Run].

    Theorems: an id is read back from its hexadecimal form ([node_id_parsed]); the encoded ping is
    that of [discv4_ping] ([prototype_ping_same]); but the distance is no distance
    ([xor_distance_collapses]), and the packet has an octet too many, which leaves the
    wrong type where a receiver looks for it ([test_packet_misplaced]); and the loop does not end when its
    time is over ([silence_never_ends]). *)
From S2P Require Import EthCli.
From S2P Require Export Discv4Packets.
Open Scope Z_scope.

(** ** Node ids *)

(** [NodeIDHash]: FNV-1a in 64 bits. *)
Definition NodeIDHash (id : bytes) : Z :=
  fold_left (fun hash byte => u64 (Z.lxor hash byte * 0x100000001b3)) id 0xcbf29ce484222325.

(** [Peer::xor_distance], over the octets that both have. *)
Fixpoint xor_distance_loop (dist : Z) (node_id other : bytes) : Z :=
  match node_id, other with
  | a :: node_id, b :: other => xor_distance_loop (Z.lxor dist (Z.lxor a b)) node_id other
  | _, _ => dist
  end.
Definition xor_distance (node_id other : bytes) : Z := xor_distance_loop 0 node_id other.

(** [std::strtol] in base 16: blanks, a sign, a prefix that digits follow, and digits. The numbers
    here have at most two characters. *)
Definition is_blank (c : Z) : bool := (c =? 32) || ((9 <=? c) && (c <=? 13)).
Fixpoint skip_blanks (s : bytes) : bytes :=
  match s with c :: s' => if is_blank c then skip_blanks s' else s | [] => [] end.
Fixpoint leading_hex (n : Z) (s : bytes) : Z :=
  match s with
  | c :: s => match hex_nibble c with Some d => leading_hex (n * 16 + d) s | None => n end
  | [] => n
  end.
Definition skip_prefix (s : bytes) : bytes :=
  match s with
  | 48 :: x :: d :: _ =>
      if ((x =? 120) || (x =? 88)) && match hex_nibble d with Some _ => true | None => false end then drop 2 s else s
  | _ => s
  end.
Definition strtol16 (s : bytes) : Z :=
  match skip_blanks s with
  | 45 :: s => - leading_hex 0 (skip_prefix s)
  | 43 :: s => leading_hex 0 (skip_prefix s)
  | s => leading_hex 0 (skip_prefix s)
  end.

(** [ParseNodeID]: an octet for every two characters, the last of which may be alone. *)
Fixpoint ParseNodeID (hex : bytes) : bytes :=
  match hex with
  | a :: b :: hex => u8 (strtol16 [a; b]) :: ParseNodeID hex
  | [a] => [u8 (strtol16 [a])]
  | [] => []
  end.

(** ** The class *)

(** [BootstrapNode], and the nodes of the constructor. *)
Record BootstrapNode := mkBootstrap { boot_ip : bytes; boot_port : Z; node_id_hex : bytes }.
Definition bootstrap_nodes_ : list BootstrapNode :=
  [mkBootstrap (text "45.76.138.208") 30303 (text "a571c194e8b2f0369d4bc105a87726e7c98b7f9d3412925ff3a0e4c668d4f7b0149d50239a8e7da6fd7f6c310b4d3325dc8a901b7f61e8c34dabbc2359dc79d0");
   mkBootstrap (text "5.179.48.203") 30303 (text "5e9d7c8a2fb164aa361b3a0f580e58972c1d4e96e353a90f850e6b72f124d2c9bc6aef23be8e0b7bb51b4d0c9f0a67d39e28efee31b5ecde4029f3b7c1a6d8dc");
   mkBootstrap (text "157.90.35.166") 30303 (text "4aeb4ab6c14b23e2c4cfdce879c04b0748a20d8e9b59e25ded2a08143e265c6c25936e74cbc8e641e3312ca288673d91f2f93f8e277de3cfa444ecdaaf982052")].

(** [GetNodeID], a placeholder. *)
Definition GetNodeID : bytes := repeat 0x12 64.

(** [SendPing] has an empty body: what it sends. *)
Definition SendPing (target_id ip : bytes) (port : Z) : list bytes := [].

(** [HandlePacket]: the lines it prints. *)
Definition HandlePacket (data : bytes) : list string :=
  (if (3 <? len data) && (byte_at data 0 =? 0xc2) then ["Received PONG (simulated)"%string] else [])
  ++ ["Received NEIGHBOURS (simulated)"%string].

(** How an iteration of [Run] ends its wait: a datagram is received, the receive fails with a message, or
    15 seconds pass. Leaving the iteration destroys the future, which waits until the receive is over. *)
Inductive prototype_wait := Arrived (data : bytes) | Failed (message : string) | Elapsed.

(** The buffer of 1024 octets, all of which are handled. *)
Definition receive_buffer (data : bytes) : bytes := take 1024 (data ++ repeat 0 1024).

Definition bind_error (message : string) : string := String.append "bind error: " message.
Definition elapsed_line : string := "15 seconds elapsed. Stopping discovery.".

(** The loop on what happens, and what it prints; [None] while it still runs. [over]: the time has passed. *)
Fixpoint prototype_loop (over : bool) (waits : list prototype_wait) : option (list string) :=
  match waits with
  | [] => None
  | Arrived data :: waits =>
      if over then Some [] else lines ← prototype_loop false waits; Some (HandlePacket (receive_buffer data) ++ lines)
  | Failed message :: waits =>
      if over then Some [bind_error message]
      else lines ← prototype_loop false waits; Some (bind_error message :: HandlePacket (receive_buffer []) ++ lines)
  | Elapsed :: waits => lines ← prototype_loop true waits; Some (if over then lines else elapsed_line :: lines)
  end.

(** [Run]: what it sends to the bootstrap nodes, and what it prints. *)
Definition Run (waits : list prototype_wait) : list bytes * option (list string) :=
  (flat_map (fun node => SendPing (ParseNodeID (node_id_hex node)) (boot_ip node) (boot_port node)) bootstrap_nodes_,
   lines ← prototype_loop false waits;
   Some ("Starting discv4 Discovery..."%string :: lines ++ ["Discovery finished."%string])).

(** ** The ping *)

Definition EncodeEndpoint (ip : bytes) (udpPort tcpPort : Z) : EncodingResult bytes :=
  run_encoder (
    (BeginList ;; (add_bytes ip ;; add_integral 2 udpPort ;; add_integral 2 tcpPort) ;; EndList) ;;
    MoveBytes).

Section ping.
Context `{AddressText}.

(** The octets of an IPv4 address; zeros for another text. *)
Definition ipv4_octets (s : bytes) : bytes := match make_address s with Some (V4 a) => a | _ => [0; 0; 0; 0] end.

Definition EncodePing (now : Z) : EncodingResult bytes :=
  obind (EncodeEndpoint (ipv4_octets (text "10.0.2.15")) 30303 30303) (fun endpoint_from =>
  obind (EncodeEndpoint (ipv4_octets (text "146.190.13.128")) 30303 30303) (fun endpoint_to =>
  let expire_in_1_minute := u32 (u32 now + kPacketExpirySeconds) in
  obind (run_encoder (
    (BeginList ;;
     (add_integral 1 0x04 ;; AddRaw endpoint_from ;; AddRaw endpoint_to ;; add_integral 4 expire_in_1_minute) ;;
     EndList) ;;
    MoveBytes)) (fun ping_msg => Ok (0x01 :: ping_msg)))).

Section test.
Context (keccak256 : bytes -> bytes) `{Secp256k1}.

Definition seckey : bytes :=
  [0xe6; 0xb1; 0x81; 0x2f; 0x04; 0xe3; 0x45; 0x19; 0x00; 0x43; 0x4f; 0x5a; 0xbd; 0x33; 0x03; 0xb5;
   0x3d; 0x28; 0x4b; 0xd4; 0x2f; 0x42; 0x5c; 0x07; 0x61; 0x0a; 0x82; 0xc4; 0x2b; 0x8d; 0x29; 0x77].

(** The datagram of [test_ping]. The signature is copied from an array of 64 octets with a length of 65:
    [beyond] is the octet after the array. [None] is a failure. *)
Definition test_packet (beyond : Z) (packet : bytes) : option bytes :=
  if negb context_create then None
  else if negb (ec_seckey_verify seckey) then None
  else match ecdsa_sign_recoverable (keccak256 packet) seckey with
  | None => None
  | Some (sig64, recid) =>
      if (recid <? 0) || (3 <? recid) then None else
      let sigvec := take (Z.to_nat kWireSigSize) (sig64 ++ [beyond]) in
      let msg_cpp := repeat 0 (Z.to_nat kWireHashSize) ++ sigvec ++ [u8 recid] ++ packet in
      let payload_hash := keccak256 (drop (Z.to_nat kWireHashSize) msg_cpp) in
      Some (take (Z.to_nat kWireHashSize) payload_hash ++ drop (Z.to_nat kWireHashSize) msg_cpp)
  end.

Definition test_ping (now beyond : Z) : option bytes :=
  match EncodePing now with Ok packet => test_packet beyond packet | _ => None end.
End test.
End ping.

(** ** Node ids *)

Lemma strtol16_octet b : uint8 b -> strtol16 [digit_char (b / 16); digit_char (b mod 16)] = b.
Proof.
  intros Hb. assert (forallb (fun b => strtol16 [digit_char (b / 16); digit_char (b mod 16)] =? b) (map Z.of_nat (seq 0 256)) = true)
    as H by (vm_compute; reflexivity).
  rewrite forallb_forall in H. apply Z.eqb_eq, H. unfold uint8 in Hb. apply in_map_iff. exists (Z.to_nat b).
  split; [lia |]. apply in_seq. lia.
Qed.

(** A node id is read from its hexadecimal form. *)
Theorem node_id_parsed id : bytes_ok id -> ParseNodeID (to_hex id) = id.
Proof.
  induction id as [|b id IH]; intros Hok; [done |]. apply bytes_ok_cons in Hok as [Hb Hok].
  change (to_hex (b :: id)) with (digit_char (b / 16) :: digit_char (b mod 16) :: to_hex id). cbn [ParseNodeID].
  rewrite strtol16_octet by done. rewrite IH by done. f_equal. unfold u8. by apply Z.mod_small.
Qed.

(** The bootstrap nodes have ids of the right size. *)
Theorem bootstrap_ids : Forall (fun node => is_array 64 (ParseNodeID (node_id_hex node))) bootstrap_nodes_.
Proof. apply (bool_decide_unpack _). vm_compute. exact I. Qed.

(** Whatever is received counts as NEIGHBOURS, also what counts as a PONG. *)
Theorem neighbours_always data : exists lines, HandlePacket data = lines ++ ["Received NEIGHBOURS (simulated)"%string].
Proof. by eexists. Qed.

(** The run ends only when a receive does: with any number of datagrams and then silence it is not over
    after the 15 seconds, since the loop waits for its future. *)
Theorem silence_never_ends datagrams n : snd (Run (map Arrived datagrams ++ repeat Elapsed n)) = None.
Proof.
  assert (forall over, prototype_loop over (repeat Elapsed n) = None) as Hn.
  { induction n as [|n IH]; intros over; [done |]. cbn [repeat prototype_loop]. by rewrite IH. }
  unfold Run. cbn [snd]. assert (prototype_loop false (map Arrived datagrams ++ repeat Elapsed n) = None) as ->; [| done].
  induction datagrams as [|d ds IH]; [apply Hn | cbn [map app prototype_loop]; by rewrite IH].
Qed.

(** The octets of the difference are combined into one, so that the distance of two ids is one of 256, it
    does not depend on the order of the octets, and different ids are at distance 0. *)
Theorem xor_distance_collapses a b : bytes_ok a -> bytes_ok b ->
  0 <= xor_distance a b < 256 /\ xor_distance a b = xor_distance b a
  /\ (forall x y, uint8 x -> uint8 y -> xor_distance (x :: y :: a) (y :: x :: a) = 0).
Proof.
  intros Ha Hb.
  assert (forall a b d, bytes_ok a -> bytes_ok b -> 0 <= d < 256 -> 0 <= xor_distance_loop d a b < 256) as Hr.
  { clear. induction a as [|x a IH]; intros [|y b] d Ha Hb Hd; try done. cbn [xor_distance_loop].
    apply bytes_ok_cons in Ha as [Hx Ha]. apply bytes_ok_cons in Hb as [Hy Hb]. apply IH; [done | done |].
    assert (forall x y, 0 <= x < 256 -> 0 <= y < 256 -> 0 <= Z.lxor x y < 256) as Hl.
    { clear. intros x y Hx Hy. split; [apply Z.lxor_nonneg; lia |].
      destruct (Z.eq_dec (Z.lxor x y) 0) as [->|]; [lia |].
      assert (0 <= Z.lxor x y) by (apply Z.lxor_nonneg; lia).
      apply (Z.log2_lt_pow2 _ 8); [lia |]. eapply Z.le_lt_trans; [apply Z.log2_lxor; lia |].
      assert (forall z, 0 <= z < 256 -> Z.log2 z < 8) as Hz.
      { intros z Hz. destruct (Z.eq_dec z 0) as [->|]; [done |]. apply Z.log2_lt_pow2; lia. }
      apply Z.max_lub_lt; by apply Hz. }
    apply Hl; [done |]. by apply Hl. }
  assert (forall a b d, xor_distance_loop d a b = xor_distance_loop d b a) as Hs.
  { clear. induction a as [|x a IH]; intros [|y b] d; try done. cbn [xor_distance_loop]. by rewrite IH, (Z.lxor_comm x y). }
  assert (forall a d, xor_distance_loop d a a = d) as Hsame.
  { clear. induction a as [|x a IH]; intros d; [done |]. cbn [xor_distance_loop]. by rewrite IH, Z.lxor_nilpotent, Z.lxor_0_r. }
  split_and!; [by apply Hr | by apply Hr | apply Hs |]. intros x y Hx Hy. unfold xor_distance. cbn [xor_distance_loop].
  rewrite Hsame, Z.lxor_0_l, (Z.lxor_comm y x). apply Z.lxor_nilpotent.
Qed.

(** ** The ping *)

Section facts.
Context `{AddressLaws}.

(** The encoded ping is the one that [discv4_ping] gives for the same endpoints. *)
Theorem prototype_ping_same now : endpoint_ok (new_endpoint (text "10.0.2.15") 30303 30303) ->
  endpoint_ok (new_endpoint (text "146.190.13.128") 30303 30303) ->
  EncodePing now = Ok (ping_payload now (new_ping now (text "10.0.2.15") 30303 30303 (text "146.190.13.128") 30303 30303)).
Proof.
  intros Hf Ht. pose proof (encode_endpoint_ok _ Hf) as Ef. pose proof (encode_endpoint_ok _ Ht) as Et.
  assert (forall s, EncodeEndpoint (ipv4_octets s) 30303 30303 = encode_endpoint (new_endpoint s 30303 30303)) as E by done.
  unfold EncodePing. rewrite !E, Ef, Et. cbn [obind].
  pose proof (ping_payload_ok now (new_ping now (text "10.0.2.15") 30303 30303 (text "146.190.13.128") 30303 30303) Hf Ht) as Hp.
  unfold ping_payload in *. cbn [fromEp toEp new_ping] in *. rewrite Ef, Et in *. cbn [lift mbind] in *.
  match goal with |- obind ?x _ = Ok (octets_or_empty ?y _) => change x with y; destruct y as [b|e|] end; [done | discriminate Hp..].
Qed.

End facts.

Section misplaced.
Context (keccak256 : bytes -> bytes) `{Secp256k1Laws}.

(** The datagram is one octet longer than a packet, because the signature takes 65 octets from its array and
    the recovery id follows it: where the type is looked for is the recovery id, and a receiver that checks
    the signature takes the octet after the array for the recovery id. *)
Theorem test_packet_misplaced beyond packet msg : (forall d, length (keccak256 d) = 32%nat) ->
  test_packet keccak256 beyond packet = Some msg ->
  len msg = kWireHeaderSize + len packet
  /\ (exists sig64 recid, ecdsa_sign_recoverable (keccak256 packet) seckey = Some (sig64, recid)
      /\ byte_at msg kWirePacketTypeOffset = recid /\ byte_at msg (kWirePacketTypeOffset - 1) = beyond
      /\ 0 <= recid <= 3)
  /\ drop (Z.to_nat kWireHeaderSize) msg = packet.
Proof.
  intros Hk Ht. unfold test_packet in Ht. destruct context_create; [| done]. destruct (ec_seckey_verify seckey); [| done].
  cbn [negb] in Ht. destruct (ecdsa_sign_recoverable (keccak256 packet) seckey) as [[s r]|] eqn:Hs; [| done].
  destruct ((r <? 0) || (3 <? r)) eqn:Hr; [done |]. apply orb_false_iff in Hr as [Hr1%Z.ltb_ge Hr2%Z.ltb_ge].
  destruct (sign_length _ _ _ _ Hs) as [Hl _]. assert (u8 r = r) as Hu by (unfold u8; apply Z.mod_small; lia).
  assert (length (s ++ [beyond]) = 65%nat) as Hl' by (rewrite length_app, Hl; done).
  rewrite Hu in Ht. change (Z.to_nat kWireSigSize) with 65%nat in Ht. rewrite (take_ge (s ++ [beyond])) in Ht by lia.
  change (Z.to_nat kWireHashSize) with 32%nat in Ht. rewrite drop_app_length' in Ht by (by rewrite repeat_length).
  set (h := take 32 _) in Ht. assert (length h = 32%nat) as Hh by (unfold h; rewrite length_take, Hk; lia).
  clearbody h. injection Ht as <-. split_and!.
  - unfold len. rewrite !length_app, Hh, Hl. cbn [length]. unfold kWireHeaderSize, kWireHashSize, kWireSigSize, kWirePacketTypeSize. lia.
  - exists s, r. split; [done |]. unfold byte_at. change (Z.to_nat kWirePacketTypeOffset) with 97%nat.
    change (Z.to_nat (kWirePacketTypeOffset - 1)) with 96%nat. split_and!; [| | lia | lia].
    + rewrite app_nth2 by lia. rewrite app_nth2 by lia. by rewrite Hh, Hl'.
    + rewrite app_nth2 by lia. rewrite app_nth1 by lia. rewrite app_nth2 by lia. by rewrite Hh, Hl.
  - change (Z.to_nat kWireHeaderSize) with 98%nat.
    rewrite (app_assoc h), cons_middle, (app_assoc _ [r]). rewrite drop_app_length'; [done |]. by rewrite !length_app, Hh, Hl.
Qed.
End misplaced.

(** ** Instances *)

#[local] Existing Instances DottedText.text DottedText.laws.

Lemma prototype_ping_same_witness : exists ping, EncodePing 1000 = Ok (0x01 :: ping).
Proof.
  rewrite (prototype_ping_same 1000); [eexists; vm_compute; reflexivity | |];
    (unfold endpoint_ok, fits; apply (bool_decide_unpack _); vm_compute; exact I).
Defined.
