(* ===== verification/Discv4Client.v ===== *)
(** * Discv4Client: the client of discovery version 4

    [include/discv4/discv4_client.hpp] and class [discv4_client] of [src/discv4/discv4_client.cpp]. All
    of it runs on one thread. A function with a [yield_context] is a coroutine of [Coroutines], which
    waits for sends and timers; a handler runs without a wait. A reply slot and a timer that a call
    shares with the handlers have a number. What was spawned but has not run is a [Task]. [step] is what
    can happen next: a call of the user, a datagram, the first step of a task, the end of a wait; any
    suspended coroutine can go on next, and a send can succeed or fail. When a timer ends is not
    modelled: it can at any time, and reports an error only if it was cancelled. The log records what the
    user sees and what goes to the socket; its last three entries are for the theorems only. The
    callbacks are calls in the log: what the user does in one is a later event. A loop that did not end
    would end the model like an exception out of a [noexcept] function ([crashed]); the encoder and the
    signing have no loop of that kind.

    Theorems: the loops over a NEIGHBOURS packet end, and take up only nodes whose octets are in the
    packet ([read_neighbours_ends]); every coroutine ends after at most eight waits ([tasks_end]). *)
From stdpp Require Export gmap.
From S2P Require Export Coroutines Discv4Packets.
Open Scope Z_scope.

(** ** Data *)

Abbreviation NodeId := bytes.

Record discv4Config := mkConfig {
  bind_ip : bytes;
  bind_port : Z;
  config_tcp_port : Z;
  private_key : bytes;
  public_key : NodeId;
  (** Milliseconds; [peer_expiry] is not read. *)
  ping_timeout : Z;
  peer_expiry : Z
}.

(** [udp::endpoint] of the IPv4 socket: the octets of the address, and the port. *)
Record udp_endpoint := mkAddr { addr_octets : bytes; addr_port : Z }.

(** The parts of a [PendingReply]: its timer, and its slots, which the waiting call shares. Timers and
    slots are numbered. *)
Record PendingReply := mkPending {
  timer : nat;
  pong : option nat;
  enr_response : option nat;
  expected_hash : bytes
}.

(** A coroutine before its first step: the lambdas of [start], [handle_ping] and [handle_neighbours],
    and the calls of the public functions, whose callers bring a coroutine of their own. *)
Inductive Task :=
| ReceiveLoop
| AnswerPing (ip : bytes) (port : Z) (pkt : bytes)
| VisitPeer (peer : DiscoveredPeer)
| CallPing (ip : bytes) (port : Z)
| CallFindNode (ip : bytes) (port : Z) (target : NodeId)
| CallRequestEnr (ip : bytes) (port : Z).

(** What the user sees: calls of [error_callback_] and [peer_callback_], the results of calls, and an
    exception that leaves a coroutine. *)
Inductive Output :=
| SendError (message : bytes)
| ReceiveError (message : bytes)
| UnknownPacketType (packet_type : Z)
| PeerFound (peer : DiscoveredPeer)
| PingReturned (ip : bytes) (port : Z) (result : Discv4Result discv4_pong)
| FindNodeReturned (ip : bytes) (port : Z)
| RequestEnrReturned (ip : bytes) (port : Z) (result : Discv4Result discv4_enr_response)
| Uncaught
(** The socket is given a datagram to send. *)
| Sending (packet : bytes) (destination : ip_address * Z)
(** For the theorems: a reply is awaited, a datagram was handled, a task was spawned. *)
| Awaiting (key : bytes) (entry : PendingReply)
| Handled (data : bytes) (sender : udp_endpoint)
| Spawned (task : Task).

(** The members of [discv4_client]; the slots, in which a default value is [None]; the timers that
    are waited for and those whose wait was cancelled; the clocks; what was spawned, and the log. *)
Record discv4_client := mkClient {
  running_ : bool;
  socket_open : bool;
  peers_ : gmap bytes DiscoveredPeer;
  peer_callback_ : bool;
  error_callback_ : bool;
  pending_replies_ : gmap bytes PendingReply;
  bonded_set_ : gset bytes;
  discovered_set_ : gset bytes;
  pong_slots : gmap nat discv4_pong;
  enr_slots : gmap nat discv4_enr_response;
  next_slot : nat;
  armed : gset nat;
  cancelled : gset nat;
  receiving : nat;
  time_now : Z;
  steady_now : Z;
  spawned : list Task;
  log : list Output
}.

(** Assignments to members. *)
Definition set_running (b : bool) (c : discv4_client) : discv4_client :=
  mkClient b (socket_open c) (peers_ c) (peer_callback_ c) (error_callback_ c) (pending_replies_ c)
    (bonded_set_ c) (discovered_set_ c) (pong_slots c) (enr_slots c) (next_slot c) (armed c) (cancelled c)
    (receiving c) (time_now c) (steady_now c) (spawned c) (log c).
Definition set_socket (b : bool) (c : discv4_client) : discv4_client :=
  mkClient (running_ c) b (peers_ c) (peer_callback_ c) (error_callback_ c) (pending_replies_ c)
    (bonded_set_ c) (discovered_set_ c) (pong_slots c) (enr_slots c) (next_slot c) (armed c) (cancelled c)
    (receiving c) (time_now c) (steady_now c) (spawned c) (log c).
Definition set_peers (m : gmap bytes DiscoveredPeer) (c : discv4_client) : discv4_client :=
  mkClient (running_ c) (socket_open c) m (peer_callback_ c) (error_callback_ c) (pending_replies_ c)
    (bonded_set_ c) (discovered_set_ c) (pong_slots c) (enr_slots c) (next_slot c) (armed c) (cancelled c)
    (receiving c) (time_now c) (steady_now c) (spawned c) (log c).
Definition set_peer_discovered_callback (b : bool) (c : discv4_client) : discv4_client :=
  mkClient (running_ c) (socket_open c) (peers_ c) b (error_callback_ c) (pending_replies_ c)
    (bonded_set_ c) (discovered_set_ c) (pong_slots c) (enr_slots c) (next_slot c) (armed c) (cancelled c)
    (receiving c) (time_now c) (steady_now c) (spawned c) (log c).
Definition set_error_callback (b : bool) (c : discv4_client) : discv4_client :=
  mkClient (running_ c) (socket_open c) (peers_ c) (peer_callback_ c) b (pending_replies_ c) (bonded_set_ c)
    (discovered_set_ c) (pong_slots c) (enr_slots c) (next_slot c) (armed c) (cancelled c) (receiving c)
    (time_now c) (steady_now c) (spawned c) (log c).
Definition set_pending (m : gmap bytes PendingReply) (c : discv4_client) : discv4_client :=
  mkClient (running_ c) (socket_open c) (peers_ c) (peer_callback_ c) (error_callback_ c) m (bonded_set_ c)
    (discovered_set_ c) (pong_slots c) (enr_slots c) (next_slot c) (armed c) (cancelled c) (receiving c)
    (time_now c) (steady_now c) (spawned c) (log c).
Definition set_bonded (key : bytes) (c : discv4_client) : discv4_client :=
  mkClient (running_ c) (socket_open c) (peers_ c) (peer_callback_ c) (error_callback_ c)
    (pending_replies_ c) ({[key]} ∪ bonded_set_ c) (discovered_set_ c) (pong_slots c) (enr_slots c)
    (next_slot c) (armed c) (cancelled c) (receiving c) (time_now c) (steady_now c) (spawned c) (log c).
Definition set_discovered (key : bytes) (c : discv4_client) : discv4_client :=
  mkClient (running_ c) (socket_open c) (peers_ c) (peer_callback_ c) (error_callback_ c)
    (pending_replies_ c) (bonded_set_ c) ({[key]} ∪ discovered_set_ c) (pong_slots c) (enr_slots c)
    (next_slot c) (armed c) (cancelled c) (receiving c) (time_now c) (steady_now c) (spawned c) (log c).
Definition set_pong_slot (slot : nat) (v : discv4_pong) (c : discv4_client) : discv4_client :=
  mkClient (running_ c) (socket_open c) (peers_ c) (peer_callback_ c) (error_callback_ c)
    (pending_replies_ c) (bonded_set_ c) (discovered_set_ c) (<[slot := v]> (pong_slots c)) (enr_slots c)
    (next_slot c) (armed c) (cancelled c) (receiving c) (time_now c) (steady_now c) (spawned c) (log c).
Definition set_enr_slot (slot : nat) (v : discv4_enr_response) (c : discv4_client) : discv4_client :=
  mkClient (running_ c) (socket_open c) (peers_ c) (peer_callback_ c) (error_callback_ c)
    (pending_replies_ c) (bonded_set_ c) (discovered_set_ c) (pong_slots c) (<[slot := v]> (enr_slots c))
    (next_slot c) (armed c) (cancelled c) (receiving c) (time_now c) (steady_now c) (spawned c) (log c).
Definition next (c : discv4_client) : discv4_client :=
  mkClient (running_ c) (socket_open c) (peers_ c) (peer_callback_ c) (error_callback_ c)
    (pending_replies_ c) (bonded_set_ c) (discovered_set_ c) (pong_slots c) (enr_slots c) (S (next_slot c))
    (armed c) (cancelled c) (receiving c) (time_now c) (steady_now c) (spawned c) (log c).
Definition set_timers (a b : gset nat) (c : discv4_client) : discv4_client :=
  mkClient (running_ c) (socket_open c) (peers_ c) (peer_callback_ c) (error_callback_ c)
    (pending_replies_ c) (bonded_set_ c) (discovered_set_ c) (pong_slots c) (enr_slots c) (next_slot c) a b
    (receiving c) (time_now c) (steady_now c) (spawned c) (log c).
Definition set_receiving (n : nat) (c : discv4_client) : discv4_client :=
  mkClient (running_ c) (socket_open c) (peers_ c) (peer_callback_ c) (error_callback_ c)
    (pending_replies_ c) (bonded_set_ c) (discovered_set_ c) (pong_slots c) (enr_slots c) (next_slot c)
    (armed c) (cancelled c) n (time_now c) (steady_now c) (spawned c) (log c).
Definition set_clocks (now steady : Z) (c : discv4_client) : discv4_client :=
  mkClient (running_ c) (socket_open c) (peers_ c) (peer_callback_ c) (error_callback_ c)
    (pending_replies_ c) (bonded_set_ c) (discovered_set_ c) (pong_slots c) (enr_slots c) (next_slot c)
    (armed c) (cancelled c) (receiving c) now steady (spawned c) (log c).
Definition set_spawned (ts : list Task) (c : discv4_client) : discv4_client :=
  mkClient (running_ c) (socket_open c) (peers_ c) (peer_callback_ c) (error_callback_ c)
    (pending_replies_ c) (bonded_set_ c) (discovered_set_ c) (pong_slots c) (enr_slots c) (next_slot c)
    (armed c) (cancelled c) (receiving c) (time_now c) (steady_now c) ts (log c).
Definition tell (o : Output) (c : discv4_client) : discv4_client :=
  mkClient (running_ c) (socket_open c) (peers_ c) (peer_callback_ c) (error_callback_ c)
    (pending_replies_ c) (bonded_set_ c) (discovered_set_ c) (pong_slots c) (enr_slots c) (next_slot c)
    (armed c) (cancelled c) (receiving c) (time_now c) (steady_now c) (spawned c) (o :: log c).

(** [asio::spawn], and a call of [error_callback_] if there is one. *)
Definition spawn (t : Task) (c : discv4_client) : discv4_client := tell (Spawned t) (set_spawned (spawned c ++ [t]) c).
Definition report_error (o : Output) (c : discv4_client) : discv4_client := if error_callback_ c then tell o c else c.

(** [timer->async_wait] starts, and has ended; [timer->cancel()] ends the wait there is, if there is one. *)
Definition arm (t : nat) (c : discv4_client) : discv4_client := set_timers ({[t]} ∪ armed c) (cancelled c) c.
Definition disarm (t : nat) (c : discv4_client) : discv4_client :=
  set_timers (armed c ∖ {[t]}) (cancelled c ∖ {[t]}) c.
Definition cancel (t : nat) (c : discv4_client) : discv4_client :=
  if decide (t ∈ armed c) then set_timers (armed c ∖ {[t]}) ({[t]} ∪ cancelled c) c else c.

(** [ip + ":" + std::to_string(port)], and [reply_key]. *)
Definition endpoint_key (ip : bytes) (port : Z) : bytes := ip ++ [58] ++ decimal 5 port.
Definition reply_key (ip : bytes) (port ptype : Z) : bytes := endpoint_key ip port ++ [58] ++ decimal 3 ptype.

(** The hexadecimal text of a node id. *)
Definition hex_chars : bytes := text "0123456789abcdef".
Definition node_key (id : NodeId) : bytes :=
  flat_map (fun b => [byte_at hex_chars (Z.shiftr b 4); byte_at hex_chars (Z.land b 0x0f)]) id.

(** ** Coroutines *)

(** What a coroutine waits for, and what the operation reports: an error has a message. *)
Inductive Wait :=
| SendWait (packet : bytes) (destination : ip_address * Z)
| TimerWait (timer : nat).
Abbreviation Report := (option bytes).
Abbreviation Running := (Co discv4_client Wait Report).

Section client.
Context (keccak256 : bytes -> bytes) `{Secp256k1} `{AddressText} (config : discv4Config).

Definition send_packet (packet : bytes) (destination : ip_address * Z) : Running (Discv4Result unit) :=
  report ← await (SendWait packet destination);
  match report with
  | None => mret (Ok tt)
  | Some message => change (report_error (SendError message)) ;; mret (Err kNetworkSendFailed)
  end.

(** [pending_replies_[key] = PendingReply{...}], with a new timer and a new slot; and [erase]. *)
Definition expect_reply (key : bytes) (has_pong has_enr : bool) (hash : bytes) : Running nat :=
  atomically (fun c =>
    let n := next_slot c in
    let entry := mkPending n (if has_pong then Some n else None) (if has_enr then Some n else None) hash in
    (n, tell (Awaiting key entry) (set_pending (<[key := entry]> (pending_replies_ c)) (next c)))).
Definition forget_reply (key : bytes) : Running unit :=
  change (fun c => set_pending (delete key (pending_replies_ c)) c).

(** [timer->async_wait(...)]: it ends when the timer expires or is cancelled, and the error is not
    looked at. *)
Definition wait_reply (t : nat) : Running unit := change (arm t) ;; await (TimerWait t) ;; change (disarm t).

(** [udp::endpoint(asio::ip::make_address(ip), port)], which throws. *)
Definition make_endpoint (ip : bytes) (port : Z) : Running (ip_address * Z) :=
  match make_address ip with Some a => mret (a, port) | None => raise end.

(** The end of [ping], [request_enr] and [find_node]: the reply is expected, the packet is sent, and
    the reply is waited for. Gives the number of the slot if the packet was sent. *)
Definition exchange (key : bytes) (has_pong has_enr : bool) (hash packet ip : bytes) (port : Z) : Running (Discv4Result nat) :=
  n ← expect_reply key has_pong has_enr hash;
  destination ← make_endpoint ip port;
  send_result ← send_packet packet destination;
  match send_result with
  | Ok _ => wait_reply n ;; forget_reply key ;; mret (Ok n)
  | _ => forget_reply key ;; mret (Err kNetworkSendFailed)
  end.

Definition ping (ip : bytes) (port : Z) : Running (Discv4Result discv4_pong) :=
  running ← look running_;
  if negb running then mret (Err kNetworkSendFailed) else
  now ← look time_now;
  let payload :=
    ping_payload now (new_ping now (bind_ip config) (bind_port config) (config_tcp_port config) ip port port) in
  if empty payload then mret (Err kRlpPayloadEmpty) else
  match sign_packet keccak256 (private_key config) payload with
  | Ok signed =>
      sent ← exchange (reply_key ip port kPacketTypePong) true false (take (Z.to_nat kWireHashSize) signed) signed ip port;
      match sent with
      | Ok n =>
          pong_slot ← look (fun c => pong_slots c !! n);
          match pong_slot with
          | Some p =>
              if negb (expiration p =? 0) then change (set_bonded (endpoint_key ip port)) ;; mret (Ok p)
              else mret (Err kPongTimeout)
          | None => mret (Err kPongTimeout)
          end
      | _ => mret (Err kNetworkSendFailed)
      end
  | _ => mret (Err kSigningFailed)
  end.

Definition ensure_bond (ip : bytes) (port : Z) : Running unit :=
  noexcept (
    bonded ← look (fun c => bool_decide (endpoint_key ip port ∈ bonded_set_ c));
    if (bonded : bool) then mret tt else
    result ← ping ip port;
    match result with Ok _ => change (set_bonded (endpoint_key ip port)) | _ => mret tt end).

(** The payload of FIND_NODE. *)
Definition find_node_payload (now : Z) (target_id : NodeId) : EncodingResult bytes :=
  obind (run_encoder (
    (BeginList ;; (add_bytes target_id ;; add_integral 4 (expires_at now)) ;; EndList) ;; MoveBytes))
    (fun encoded => Ok (kPacketTypeFindNode :: encoded)).

Definition find_node (ip : bytes) (port : Z) (target_id : NodeId) : Running unit :=
  running ← look running_;
  if negb running then mret tt else
  ensure_bond ip port ;;
  now ← look time_now;
  match find_node_payload now target_id with
  | Ok payload =>
      match sign_packet keccak256 (private_key config) payload with
      | Ok signed =>
          exchange (reply_key ip port kPacketTypeNeighbours) false false (repeat 0 32) signed ip port ;; mret tt
      | _ => mret tt
      end
  | _ => mret tt
  end.

Definition request_enr (ip : bytes) (port : Z) : Running (Discv4Result discv4_enr_response) :=
  running ← look running_;
  if negb running then mret (Err kNetworkSendFailed) else
  now ← look time_now;
  let payload := enr_request_payload (mkEnrRequest (u64 (u64 now + kPacketExpirySeconds))) in
  if empty payload then mret (Err kRlpPayloadEmpty) else
  match sign_packet keccak256 (private_key config) payload with
  | Ok signed =>
      sent ← exchange (reply_key ip port kPacketTypeEnrResponse) false true (take (Z.to_nat kWireHashSize) signed) signed ip port;
      match sent with
      | Ok n =>
          enr_slot ← look (fun c => enr_slots c !! n);
          match enr_slot with
          | Some r => if empty (record_rlp r) then mret (Err kPongTimeout) else mret (Ok r)
          | None => mret (Err kPongTimeout)
          end
      | _ => mret (Err kNetworkSendFailed)
      end
  | _ => mret (Err kSigningFailed)
  end.

(** The lambda of [handle_ping], and that of [handle_neighbours]. *)
Definition answer_ping (ip : bytes) (port : Z) (pkt : bytes) : Running unit :=
  dest ← make_endpoint ip port;
  send_result ← send_packet pkt dest;
  match send_result with Ok _ => find_node ip port (public_key config) | _ => mret tt end.

Definition with_fork_id (f : option ForkId) (p : DiscoveredPeer) : DiscoveredPeer :=
  mkPeer (node_id p) (peer_ip p) (udp_port p) (tcp_port p) (last_seen p) f.

Definition visit_peer (peer : DiscoveredPeer) : Running unit :=
  ensure_bond (peer_ip peer) (udp_port peer) ;;
  enr_result ← request_enr (peer_ip peer) (udp_port peer);
  enriched_peer ←
    match enr_result with
    | Ok response =>
        match ParseEthForkId response with
        | Ok f => mret (with_fork_id (Some f) peer)
        | Err _ => mret peer
        | Diverged => hang
        end
    | _ => mret peer
    end;
  has_callback ← look peer_callback_;
  (if (has_callback : bool) then change (tell (PeerFound enriched_peer)) else mret tt) ;;
  find_node (peer_ip peer) (udp_port peer) (node_id peer).

Definition run_task (t : Task) : Running unit :=
  match t with
  | ReceiveLoop => change (fun c => if running_ c then set_receiving (S (receiving c)) c else c)
  | AnswerPing ip port pkt => answer_ping ip port pkt
  | VisitPeer peer => visit_peer peer
  | CallPing ip port => result ← ping ip port; change (tell (PingReturned ip port result))
  | CallFindNode ip port target => find_node ip port target ;; change (tell (FindNodeReturned ip port))
  | CallRequestEnr ip port => result ← request_enr ip port; change (tell (RequestEnrReturned ip port result))
  end.

(** ** Handlers

    A handler is called with the datagram and its sender. [None]: a null pointer is dereferenced, or a
    loop does not end. *)

Definition sender_text (sender : udp_endpoint) : bytes := address_v4_to_string (addr_octets sender).

Definition pong_payload (now : Z) (sender : udp_endpoint) (ping_hash : bytes) : EncodingResult bytes :=
  obind (run_encoder (
    (BeginList ;;
     ((BeginList ;;
       (add_bytes (addr_octets sender) ;; add_integral 2 (addr_port sender) ;; add_integral 2 (config_tcp_port config)) ;;
       EndList) ;;
      add_bytes ping_hash ;;
      add_integral 4 (expires_at now)) ;;
     EndList) ;;
    MoveBytes)) (fun encoded => Ok (kPacketTypePong :: encoded)).

Definition handle_ping (data : bytes) (sender : udp_endpoint) (c : discv4_client) : discv4_client :=
  if len data <? kWireHeaderSize then c else
  match pong_payload (time_now c) sender (take (Z.to_nat kWireHashSize) data) with
  | Ok payload =>
      match sign_packet keccak256 (private_key config) payload with
      | Ok signed =>
          let ip := sender_text sender in
          spawn (AnswerPing ip (addr_port sender) signed) (set_bonded (endpoint_key ip (addr_port sender)) c)
      | _ => c
      end
  | _ => c
  end.

(** [*slot = value; timer->cancel()]. *)
Definition fill {V} (set : nat -> V -> discv4_client -> discv4_client) (slot : option nat) (v : V) (t : nat)
    (c : discv4_client) : option discv4_client :=
  match slot with Some n => Some (cancel t (set n v c)) | None => None end.

Definition handle_pong (data : bytes) (sender : udp_endpoint) (c : discv4_client) : option discv4_client :=
  if len data <? kWireHeaderSize then Some c else
  match parse_pong data with
  | Ok p =>
      match pending_replies_ c !! reply_key (sender_text sender) (addr_port sender) kPacketTypePong with
      | Some entry =>
          if negb (bool_decide (pingHash p = expected_hash entry)) then Some c
          else fill set_pong_slot (pong entry) p (timer entry) c
      | None => Some c
      end
  | Err _ => Some c
  | Diverged => None
  end.

Definition handle_enr_response (data : bytes) (sender : udp_endpoint) (c : discv4_client) : option discv4_client :=
  if len data <? kWireHeaderSize then Some c else
  match parse_enr_response data with
  | Ok r =>
      match pending_replies_ c !! reply_key (sender_text sender) (addr_port sender) kPacketTypeEnrResponse with
      | Some entry =>
          if negb (bool_decide (request_hash r = expected_hash entry)) then Some c
          else fill set_enr_slot (enr_response entry) r (timer entry) c
      | None => Some c
      end
  | Err _ => Some c
  | Diverged => None
  end.

(** [handle_find_node] and [handle_enr_request] drop the datagram. *)
Definition handle_find_node (data : bytes) (sender : udp_endpoint) (c : discv4_client) : discv4_client := c.
Definition handle_enr_request (data : bytes) (sender : udp_endpoint) (c : discv4_client) : discv4_client := c.

(** *** Neighbours *)

(** [while (!skip_decoder.IsFinished()) { if (!skip_decoder.SkipItem()) break; }]. *)
Fixpoint skip_some (fuel : nat) : DecM unit := fun v =>
  match fuel with
  | O => (Diverged, v)
  | S fuel =>
      if empty v then (Ok tt, v) else
      match SkipItem v with
      | (Ok _, v) => skip_some fuel v
      | (Err _, v) => (Ok tt, v)
      | (Diverged, v) => (Diverged, v)
      end
  end.

(** A node of the list; an error ends the loop. The time is set when the peer is recorded. *)
Definition skip_node_rest (node_start node_len : Z) : DecM unit := fun v =>
  let node_consumed := node_start - len v in
  if node_consumed <? node_len then
    let skip_view := take (Z.to_nat (node_len - node_consumed)) v in
    let '(r, rest) := skip_some (S (length skip_view)) skip_view in
    (r, drop (length skip_view - length rest) v)
  else (Ok tt, v).

Definition read_sized (n : Z) : DecM bytes :=
  bs ← read_bytes;
  fail_if (negb (len bs =? n)) DecodingError.kUnexpectedLength ;;
  mret bs.

Definition read_node : DecM DiscoveredPeer :=
  node_len ← ReadListHeaderBytes;
  node_start ← Remaining;
  ip_bytes ← read_sized kIPv4Size;
  udp ← read_integral 2;
  tcp ← read_integral 2;
  pubkey_bytes ← read_sized kNodeIdSize;
  skip_node_rest (len node_start) node_len ;;
  mret (mkPeer pubkey_bytes (dotted ip_bytes) udp tcp 0 None).

(** The body of the loop for a node that was read. *)
Definition add_neighbour (node : DiscoveredPeer) (c : discv4_client) : discv4_client :=
  if tcp_port node =? 0 then c else
  let peer := mkPeer (node_id node) (peer_ip node) (udp_port node) (tcp_port node) (steady_now c) None in
  let c := set_peers (<[node_key (node_id peer) := peer]> (peers_ c)) c in
  let ep_key := endpoint_key (peer_ip peer) (udp_port peer) in
  if running_ c && bool_decide (ep_key ∉ discovered_set_ c)
  then spawn (VisitPeer peer) (set_discovered ep_key c)
  else c.

(** The loop over the nodes. *)
Fixpoint neighbours_loop (fuel : nat) (after_nodes_start nodes_byte_len : Z) (v : ByteView) (c : discv4_client) : option discv4_client :=
  match fuel with
  | O => None
  | S fuel =>
      if empty v then Some c else
      if nodes_byte_len <=? after_nodes_start - len v then Some c else
      match read_node v with
      | (Ok node, v) => neighbours_loop fuel after_nodes_start nodes_byte_len v (add_neighbour node c)
      | (Err _, _) => Some c
      | (Diverged, _) => None
      end
  end.

Definition read_neighbours (raw : ByteView) (c : discv4_client) : option discv4_client :=
  match ReadListHeaderBytes raw with
  | (Ok _, v) =>
      match ReadListHeaderBytes v with
      | (Ok nodes_byte_len, v) => neighbours_loop (S (length v)) (len v) nodes_byte_len v c
      | (Err _, _) => Some c
      | (Diverged, _) => None
      end
  | (Err _, _) => Some c
  | (Diverged, _) => None
  end.

Definition handle_neighbours (data : bytes) (sender : udp_endpoint) (c : discv4_client) : option discv4_client :=
  if len data <? kWireHeaderSize then Some c else
  match pending_replies_ c !! reply_key (sender_text sender) (addr_port sender) kPacketTypeNeighbours with
  | Some entry => read_neighbours (drop (Z.to_nat kWireHeaderSize) data) (cancel (timer entry) c)
  | None => Some c
  end.

Definition handle_packet (data : bytes) (sender : udp_endpoint) (c : discv4_client) : option discv4_client :=
  if len data <? kWireHeaderSize then Some c else
  let packet_type := byte_at data kWirePacketTypeOffset in
  if packet_type =? kPacketTypePing then Some (handle_ping data sender c)
  else if packet_type =? kPacketTypePong then handle_pong data sender c
  else if packet_type =? kPacketTypeFindNode then Some (handle_find_node data sender c)
  else if packet_type =? kPacketTypeNeighbours then handle_neighbours data sender c
  else if packet_type =? kPacketTypeEnrRequest then Some (handle_enr_request data sender c)
  else if packet_type =? kPacketTypeEnrResponse then handle_enr_response data sender c
  else Some (report_error (UnknownPacketType packet_type) c).
End client.

(** ** The client and its coroutines *)

Inductive ClientError := InvalidBindIp | BindIpNotV4 | OpenFailed | BindFailed.

Definition fresh_client : discv4_client :=
  {| running_ := false; socket_open := true; peers_ := ∅; peer_callback_ := false; error_callback_ := false;
     pending_replies_ := ∅; bonded_set_ := ∅; discovered_set_ := ∅; pong_slots := ∅; enr_slots := ∅; next_slot := 0;
     armed := ∅; cancelled := ∅; receiving := 0; time_now := 0; steady_now := 0; spawned := []; log := [] |}.

(** The constructor; the socket may refuse to open or to bind. *)
Definition new_client `{AddressText} (config : discv4Config) (opens binds : bool) : outcome ClientError discv4_client :=
  match make_address (bind_ip config) with
  | None => Err InvalidBindIp
  | Some (V6 _) => Err BindIpNotV4
  | Some (V4 _) => if negb opens then Err OpenFailed else if negb binds then Err BindFailed else Ok fresh_client
  end.

Definition start (c : discv4_client) : discv4_client :=
  if running_ c then c else spawn ReceiveLoop (set_running true c).

Definition stop (c : discv4_client) : discv4_client :=
  let c := set_running false c in
  let c := map_fold (fun _ entry c => cancel (timer entry) c) c (pending_replies_ c) in
  set_socket false (set_pending ∅ c).

Definition get_peers (c : discv4_client) : list DiscoveredPeer := (map_to_list (peers_ c)).*2.
Definition compute_node_id (public_key : NodeId) : NodeId := public_key.
Definition local_node_id (config : discv4Config) : NodeId := public_key config.

(** What a receive reports. *)
Inductive Received :=
| Datagram (data : bytes) (sender : udp_endpoint)
| Aborted
| Failed (message : bytes).

(** What can happen next: a call of the user, the passing of time, the first step of what was spawned,
    the end of a wait, the end of a receive. *)
Inductive Event :=
| Start
| Stop
| SetCallbacks (peer error : bool)
| Tick (now steady : Z)
| Call (task : Task)
| Begin (i : nat)
| Resume (i : nat) (report : Report)
| Receive (r : Received).

Record world := mkWorld {
  client : discv4_client;
  coroutines : list (Coroutine discv4_client Wait Report unit);
  crashed : bool
}.

Definition start_world (c : discv4_client) : world := mkWorld c [] false.

(** The calls of the public coroutine functions. *)
Definition is_call (t : Task) : bool :=
  match t with CallPing _ _ | CallFindNode _ _ _ | CallRequestEnr _ _ => true | _ => false end.

(** A timer reports an error only if its wait was cancelled. *)
Definition can_report (w : Wait) (report : Report) (c : discv4_client) : bool :=
  match w, report with TimerWait t, Some _ => bool_decide (t ∈ cancelled c) | _, _ => true end.

Section world.
Context (keccak256 : bytes -> bytes) `{Secp256k1} `{AddressText} (config : discv4Config).

(** [receive_loop], from the end of one receive to the next. A buffer of [kUdpBufferSize] octets
    cuts the datagram. *)
Definition loop_on (c : discv4_client) : discv4_client :=
  if running_ c then c else set_receiving (pred (receiving c)) c.
Definition receive_loop (r : Received) (c : discv4_client) : option discv4_client :=
  match r with
  | Aborted => Some (set_receiving (pred (receiving c)) c)
  | Failed message => Some (loop_on (report_error (ReceiveError message) c))
  | Datagram data sender =>
      let data := take (Z.to_nat kUdpBufferSize) data in
      loop_on <$> (if empty data then Some c else handle_packet keccak256 config data sender (tell (Handled data sender) c))
  end.

(** What a wait begins with: a datagram is given to the socket. *)
Definition begin_wait (w : Wait) (c : discv4_client) : discv4_client :=
  match w with SendWait packet destination => tell (Sending packet destination) c | TimerWait _ => c end.

(** A coroutine has run up to its next wait or to its end. An exception ends it, and [terminate] the
    process. *)
Definition settle (r : Coroutine discv4_client Wait Report unit * discv4_client)
    (others : list (Coroutine discv4_client Wait Report unit)) : world :=
  match r with
  | (Await w resume, c) => mkWorld (begin_wait w c) (others ++ [Await w resume]) false
  | (Return _, c) => mkWorld c others false
  | (Raised, c) => mkWorld (tell Uncaught c) others false
  | (Terminated, c) => mkWorld c others true
  end.

Definition on_client (f : discv4_client -> discv4_client) (w : world) : world :=
  mkWorld (f (client w)) (coroutines w) (crashed w).

(** One event; one that cannot happen changes nothing. *)
Definition step (w : world) (e : Event) : world :=
  if crashed w then w else
  match e with
  | Start => on_client start w
  | Stop => on_client stop w
  | SetCallbacks peer error => on_client (fun c => set_error_callback error (set_peer_discovered_callback peer c)) w
  | Tick now steady => on_client (set_clocks now steady) w
  | Call t => if is_call t then on_client (spawn t) w else w
  | Begin i =>
      match spawned (client w) !! i with
      | Some t => settle (run_task keccak256 config t (set_spawned (delete i (spawned (client w))) (client w))) (coroutines w)
      | None => w
      end
  | Resume i report =>
      match coroutines w !! i with
      | Some (Await wait resume) =>
          if can_report wait report (client w) then settle (resume report (client w)) (delete i (coroutines w)) else w
      | _ => w
      end
  | Receive r =>
      if (receiving (client w) =? 0)%nat then w else
      match receive_loop r (client w) with
      | Some c => mkWorld c (coroutines w) false
      | None => mkWorld (client w) (coroutines w) true
      end
  end.

Definition run_events (w : world) (es : list Event) : world := fold_left step es w.
End world.

(** ** Every loop and every coroutine ends *)

Lemma total_skip_some fuel : forall v, bytes_ok v -> (length v < fuel)%nat ->
  fst (skip_some fuel v) <> Diverged /\ exists p, v = p ++ snd (skip_some fuel v).
Proof.
  induction fuel as [|fuel IH]; intros v Hv Hf; [lia |]. cbn [skip_some].
  destruct (empty v); [by split; [| exists []] |]. destruct (total_SkipItem v Hv) as (Hd & p & Hp).
  pose proof (proj2 consuming_SkipItem v) as Hc.
  destruct (SkipItem v) as [[[]|e|] w]; cbn [fst snd] in Hd, Hp; [| by split; [| exists p] | done].
  specialize (Hc tt w Hv eq_refl). rewrite Hp in Hv. apply bytes_ok_app in Hv as [_ Hw].
  destruct (IH w Hw) as (Hd' & q & Hq); [unfold len in Hc; lia |]. split; [done |]. exists (p ++ q).
  by rewrite Hp, Hq at 1; rewrite app_assoc.
Qed.

Lemma total_skip_node_rest node_start node_len : total (skip_node_rest node_start node_len).
Proof.
  intros v Hv. unfold skip_node_rest. destruct (_ <? _); [| by split; [| exists []]].
  set (u := take _ v). assert (bytes_ok u) as Hu by by apply bytes_ok_take.
  destruct (total_skip_some (S (length u)) u Hu ltac:(lia)) as [Hd _].
  destruct (skip_some _ u) as [r rest]. cbn [fst snd] in *. split; [done |].
  eexists. symmetry. apply take_drop.
Qed.

Lemma consuming_read_node : consuming read_node.
Proof.
  assert (forall n, total (read_sized n)) as Hs by (intros n; unfold read_sized; total_tac).
  unfold read_node. apply consuming_bind; [auto with total |]. intros node_len.
  repeat (apply total_bind; [first [apply Hs | apply total_skip_node_rest | unfold Remaining; total_tac] | intros ?]).
  total_tac.
Qed.

Lemma suffix_ok {A} (m : DecM A) v : total m -> bytes_ok v -> bytes_ok (snd (m v)).
Proof. intros Hm Hv. destruct (Hm v Hv) as (_ & p & Hp). rewrite Hp in Hv. by apply bytes_ok_app in Hv as [_ ?]. Qed.

Lemma parse_enr_octets data r : bytes_ok data -> parse_enr_response data = Ok r -> bytes_ok (record_rlp r).
Proof.
  intros Hd H. unfold parse_enr_response in H. do 2 (case_match; [done |]).
  pose proof (bytes_ok_drop (Z.to_nat kWireHeaderSize) data Hd) as Hv. set (v := drop _ data) in *.
  destruct (parse_enr_fields v) as [x w] eqn:E. cbn [fst] in H. subst x. unfold parse_enr_fields in E.
  apply bind_inv in E as (b & v1 & E1 & E). pose proof (suffix_ok _ v total_IsList Hv) as K1. rewrite E1 in K1. cbn [snd] in K1. unfold fail_unless in E. inv_guard E.
  apply bind_inv in E as (n & v2 & E2 & E). pose proof (suffix_ok _ v1 total_ReadListHeaderBytes K1) as K2. rewrite E2 in K2. cbn [snd] in K2.
  apply bind_inv in E as (h & v3 & E3 & E). pose proof (suffix_ok _ v2 (total_read_fixed 32) K2) as K3. rewrite E3 in K3. cbn [snd] in K3.
  apply bind_inv in E as (hd & v4 & E4 & E). pose proof (suffix_ok _ v3 total_PeekHeader K3) as K4. rewrite E4 in K4. cbn [snd] in K4.
  apply bind_inv in E as (u & v5 & [= <- <-] & E). inv_guard E. apply bind_inv in E as ([] & v6 & E6 & E). injection E as <- _.
  by apply bytes_ok_take.
Qed.

(** *** The nodes that a packet lists *)

(** The octets of a port: its encoding, or the literal octet 0 for zero. *)
Definition port_octets (n : Z) (octets : bytes) : Prop :=
  fits 2 n /\ (octets = rlp (uint_item n) \/ n = 0 /\ octets = [0]).

(** The fields of the node follow each other in these octets: its four address octets, its ports and
    its id. *)
Definition lists_node (octets : bytes) (node : DiscoveredPeer) : Prop := exists before ip udp tcp after,
  octets = before ++ rlp (Str ip) ++ udp ++ tcp ++ rlp (Str (node_id node)) ++ after
  /\ is_array 4 ip /\ peer_ip node = dotted ip /\ port_octets (udp_port node) udp /\ port_octets (tcp_port node) tcp
  /\ is_array 64 (node_id node).

Lemma lists_node_app p v node : lists_node v node -> lists_node (p ++ v) node.
Proof. intros (before & ip & udp & tcp & after & -> & H). exists (p ++ before), ip, udp, tcp, after. by rewrite <- app_assoc. Qed.

Lemma lists_node_suffix {A} (m : DecM A) v node : total m -> bytes_ok v -> lists_node (snd (m v)) node -> lists_node v node.
Proof. intros Hm Hv Hn. destruct (Hm v Hv) as (_ & p & ->). by apply lists_node_app. Qed.

Lemma read_sized_inv n v bs w : bytes_ok v -> read_sized n v = (Ok bs, w) ->
  v = rlp (Str bs) ++ w /\ len bs = n /\ bytes_ok bs /\ bytes_ok w.
Proof.
  intros Hv H. unfold read_sized in H. apply bind_inv in H as (s & u & Hs & H). pose proof (read_bytes_only _ _ _ Hv Hs) as E.
  apply read_bytes_octets in Hs as [H1 H2]; [| done]. inv_guard H. injection H as <- <-. split; [done |]. split; [lia | done].
Qed.

Lemma read_port_inv v n w : bytes_ok v -> read_integral 2 v = (Ok n, w) -> exists octets, v = octets ++ w /\ port_octets n octets.
Proof.
  intros Hv H. apply read_integral_octets in H as [[Hf ->]|[-> ->]]; [| | lia | done].
  - exists (rlp (uint_item n)). split; [done |]. split; [done | by left].
  - exists [0]. split; [done |]. split; [done | by right].
Qed.

Lemma read_node_listed v node w : bytes_ok v -> read_node v = (Ok node, w) -> lists_node v node.
Proof.
  intros Hv H. unfold read_node in H. apply bind_inv in H as (n & v1 & H1 & H).
  apply (lists_node_suffix ReadListHeaderBytes v node total_ReadListHeaderBytes Hv).
  pose proof (suffix_ok _ v total_ReadListHeaderBytes Hv) as Hv1. rewrite H1 in Hv1 |- *. cbn [snd] in *.
  apply bind_inv in H as (u & v2 & [= <- <-] & H). apply bind_inv in H as (ip & v3 & H3 & H).
  destruct (read_sized_inv _ _ _ _ Hv1 H3) as (-> & Hl & Hip & Hv3).
  apply bind_inv in H as (udp & v4 & H4 & H). pose proof (suffix_ok _ v3 (total_read_integral 2) Hv3) as Hv4. rewrite H4 in Hv4. cbn [snd] in Hv4.
  destruct (read_port_inv _ _ _ Hv3 H4) as (o1 & -> & Hu).
  apply bind_inv in H as (tcp & v5 & H5 & H). pose proof (suffix_ok _ v4 (total_read_integral 2) Hv4) as Hv5. rewrite H5 in Hv5. cbn [snd] in Hv5.
  destruct (read_port_inv _ _ _ Hv4 H5) as (o2 & -> & Ht).
  apply bind_inv in H as (id & v6 & H6 & H). destruct (read_sized_inv _ _ _ _ Hv5 H6) as (-> & Hli & Hid & Hv6).
  apply bind_inv in H as ([] & v7 & H7 & H). injection H as <- <-. unfold len, kIPv4Size, kNodeIdSize in *.
  exists [], ip, o1, o2, v6. split; [done |]. split; [split; [lia | done] |]. do 3 (split; [done |]). split; [cbn; lia | done].
Qed.

(** The loop over the nodes ends, and does what the steps of its body do, for nodes that are listed. *)
Lemma neighbours_loop_ends (R : discv4_client -> discv4_client -> Prop) raw after_nodes_start nodes_byte_len :
  PreOrder R -> (forall node c, lists_node raw node -> R c (add_neighbour node c)) ->
  forall fuel p v c, raw = p ++ v -> bytes_ok v -> (length v < fuel)%nat ->
  exists c', neighbours_loop fuel after_nodes_start nodes_byte_len v c = Some c' /\ R c c'.
Proof.
  intros HR Hn. induction fuel as [|fuel IH]; intros p v c Hraw Hv Hf; [lia |]. cbn [neighbours_loop].
  destruct (empty v); [by exists c |]. destruct (_ <=? _); [by exists c |].
  destruct consuming_read_node as [Ht Hc]. specialize (Hc v). destruct (Ht v Hv) as (Hd & q & Hp).
  pose proof (read_node_listed v) as Hok. destruct (read_node v) as [[node|e|] w]; [| by exists c | done].
  specialize (Hc node w Hv eq_refl). specialize (Hok node w Hv eq_refl). cbn [snd] in Hp. rewrite Hp in Hv. apply bytes_ok_app in Hv as [_ Hw].
  destruct (IH (p ++ q) w (add_neighbour node c)) as (c' & -> & Hr); [by rewrite Hraw, Hp, app_assoc | done | unfold len in Hc; lia |].
  exists c'. split; [done |]. transitivity (add_neighbour node c); [| done]. apply Hn. rewrite Hraw. by apply lists_node_app.
Qed.

Lemma read_neighbours_ends (R : discv4_client -> discv4_client -> Prop) raw c :
  PreOrder R -> (forall node c, lists_node raw node -> R c (add_neighbour node c)) -> bytes_ok raw ->
  exists c', read_neighbours raw c = Some c' /\ R c c'.
Proof.
  intros HR Hn Hraw. unfold read_neighbours. destruct (total_ReadListHeaderBytes raw Hraw) as (Hd & p & Hp).
  destruct (ReadListHeaderBytes raw) as [[n|e|] v]; [| by exists c | done]. cbn [snd] in Hp. subst.
  apply bytes_ok_app in Hraw as [_ Hv]. destruct (total_ReadListHeaderBytes v Hv) as (Hd' & q & Hq).
  destruct (ReadListHeaderBytes v) as [[m|e|] u]; [| by exists c | done]. cbn [snd] in Hq. subst.
  apply bytes_ok_app in Hv as [_ Hu]. apply (neighbours_loop_ends R (p ++ q ++ u) _ _ HR Hn _ (p ++ q)); [by rewrite app_assoc | done | lia].
Qed.

Section coroutines_end.
Context (keccak256 : bytes -> bytes) `{Secp256k1} `{AddressText} (config : discv4Config).

Lemma bounded_exchange key hp he hash packet ip port : bounded 2 (exchange key hp he hash packet ip port).
Proof.
  unfold exchange. apply (bounded_bind 0 2); [intros c; exact I |]. intros n.
  apply (bounded_bind 0 2); [intros c; unfold make_endpoint; case_match; exact I |]. intros destination.
  apply (bounded_bind 1 1).
  - unfold send_packet. apply (bounded_bind 1 0); [apply bounded_await |]. intros [m|] c; exact I.
  - intros [r|e|]; [| intros c; exact I ..]. apply (bounded_bind 1 0); [| intros ? c; exact I].
    unfold wait_reply. apply (bounded_bind 0 1); [intros c; exact I |]. intros _.
    apply (bounded_bind 1 0); [apply bounded_await | intros ? c; exact I].
Qed.

Lemma bounded_read {A B} n (f : discv4_client -> A) (g : A -> Running B) :
  (forall a, bounded n (g a)) -> bounded n (look f ≫= g).
Proof. apply (bounded_bind 0 n). intros c. exact I. Qed.

Lemma bounded_ret {A} n (a : A) : bounded n (mret a : Running A).
Proof. intros c. exact I. Qed.

(** A call that signs a packet, exchanges it, and looks at what came. *)
Ltac bounded_call :=
  repeat first [ apply bounded_ret | apply bounded_read; intros ? | case_match
               | apply (bounded_bind 2 0); [apply bounded_exchange |]; intros ?
               | solve [intros ?; exact I] ].

Lemma bounded_ping ip port : bounded 2 (ping keccak256 config ip port).
Proof. unfold ping. bounded_call. Qed.

Lemma bounded_request_enr ip port : bounded 2 (request_enr keccak256 config ip port).
Proof. unfold request_enr. bounded_call. Qed.

Lemma bounded_ensure_bond ip port : bounded 2 (ensure_bond keccak256 config ip port).
Proof.
  apply bounded_noexcept, bounded_read. intros []; [apply bounded_ret |].
  apply (bounded_bind 2 0); [apply bounded_ping |]. intros [p|e|] c; exact I.
Qed.

Lemma bounded_find_node ip port target : bounded 4 (find_node keccak256 config ip port target).
Proof.
  unfold find_node. apply bounded_read. intros []; [| apply bounded_ret]. cbn [negb].
  apply (bounded_bind 2 2); [apply bounded_ensure_bond |]. intros _. bounded_call.
Qed.

Lemma bounded_visit_peer peer : bounded 8 (visit_peer keccak256 config peer).
Proof.
  unfold visit_peer. apply (bounded_bind 2 6); [apply bounded_ensure_bond |]. intros _.
  apply (bounded_bind 2 4); [apply bounded_request_enr |]. intros result.
  apply (bounded_bind 0 4); [intros c; repeat case_match; exact I |]. intros enriched. apply bounded_read. intros has.
  apply (bounded_bind 0 4); [intros c; by destruct has | intros _; apply bounded_find_node].
Qed.

(** a coroutine ends: whatever is reported to it and whatever the others do to the client, it
    waits at most eight times. *)
Theorem tasks_end t : bounded 8 (run_task keccak256 config t).
Proof.
  destruct t as [|ip port pkt|peer|ip port|ip port target|ip port]; cbn [run_task].
  - intros c. exact I.
  - apply (bounded_le 5); [| lia]. unfold answer_ping.
    apply (bounded_bind 0 5); [intros c; unfold make_endpoint; case_match; exact I |]. intros dest.
    apply (bounded_bind 1 4).
    + unfold send_packet. apply (bounded_bind 1 0); [apply bounded_await |]. intros [m|] c; exact I.
    + intros [r|e|]; [apply bounded_find_node | apply bounded_ret ..].
  - apply bounded_visit_peer.
  - apply (bounded_le 2); [| lia]. apply (bounded_bind 2 0); [apply bounded_ping | intros r c; exact I].
  - apply (bounded_le 4); [| lia]. apply (bounded_bind 4 0); [apply bounded_find_node | intros r c; exact I].
  - apply (bounded_le 2); [| lia]. apply (bounded_bind 2 0); [apply bounded_request_enr | intros r c; exact I].
Qed.

(** What is suspended, after whatever events, waits at most eight more times. *)
Lemma settled_within n r others : within n (fst r) -> Forall (within n) others -> Forall (within n) (coroutines (settle r others)).
Proof. destruct r as [[] c]; intros Hc Ho; cbn; [done | | done | done]. apply Forall_app. split; [done |]. by constructor. Qed.

Lemma coroutines_within w e : Forall (within 8) (coroutines w) -> Forall (within 8) (coroutines (step keccak256 config w e)).
Proof.
  intros Hw. unfold step. destruct (crashed w); [done |]. destruct e as [| | | |t|i|i report|r]; try done.
  - by destruct (is_call t).
  - destruct (spawned _ !! i) as [t|]; [| done]. apply settled_within; [apply tasks_end | done].
  - destruct (coroutines w !! i) as [[a|wait resume| |]|] eqn:Ei; try done. destruct (can_report _ _ _); [| done].
    apply settled_within; [| by apply Forall_delete]. pose proof (Forall_lookup_1 _ _ _ _ Hw Ei) as Hi.
    cbn [within] in Hi. eapply within_le; [apply Hi | lia].
  - destruct (_ =? 0)%nat; [done |]. by destruct (receive_loop _ _ _ _).
Qed.
End coroutines_end.
