(* ===== verification/Discv4Bonding.v ===== *)
(** * Discv4Bonding: what the client of discovery version 4 may rely on

    Every coroutine keeps the invariant [client_inv] if the others only add to the log, and adds to
    the log only what it may ([does]); so does every handler ([handles]). [client_inv] says that each entry
    of the log had its reason when it was written ([explained]), and what the tables of the client
    owe to the log. [world_inv] adds which coroutine visits which endpoint, and that what a coroutine
    waits to have sent was given to the socket; it holds after every list of events ([world_runs]).
    [fails] tells two readings apart: exceptions and hangs may happen ([True]), or the tasks name
    addresses and nothing of the kind may happen ([False]).

    Theorems: an endpoint is bonded for a reason ([bonds_have_reasons]); a peer is reported once, and
    is a node of a packet from an endpoint whose neighbours were awaited ([peers_reported_once]); a call
    returns a reply to its own request, which repeats the hash of the datagram that was sent
    ([calls_return_replies]); no datagram ends or hangs the process ([no_datagram_terminates]); the
    signature of a datagram makes no difference ([signature_never_checked]). *)
From S2P Require Export Discv4Client.
Open Scope Z_scope.

Definition peer_key (p : DiscoveredPeer) : bytes := endpoint_key (peer_ip p) (udp_port p).

Lemma suffix_subseteq {A} (l l' : list A) : l `suffix_of` l' -> l ⊆ l'.
Proof. intros [k ->] x Hx. by apply elem_of_app; right. Qed.

(** [make_address] reads dotted text. *)
Class DottedLaw (T : AddressText) : Prop := make_address_dotted a : is_array 4 a -> is_Some (make_address (dotted a)).

(** The task names an address. *)
Definition addressed `{AddressText} (t : Task) : Prop :=
  match t with
  | ReceiveLoop => True
  | VisitPeer peer => is_Some (make_address (peer_ip peer))
  | AnswerPing ip _ _ | CallPing ip _ | CallFindNode ip _ _ | CallRequestEnr ip _ => is_Some (make_address ip)
  end.

(** ** What coroutines and handlers do *)

(** No peer with this endpoint was reported. *)
Definition unfound (key : bytes) (l : list Output) : Prop := forall q, PeerFound q ∈ l -> peer_key q <> key.

(** The coroutine that visits [key] relies on nobody else reporting it, and reports nothing else. No
    coroutine spawns another. *)
Definition relies (key : option bytes) (c c' : discv4_client) : Prop :=
  exists l, log c' = l ++ log c /\ forall k, key = Some k -> unfound k l.
Definition does (key : option bytes) (c c' : discv4_client) : Prop :=
  (exists l, log c' = l ++ log c /\ forall q, PeerFound q ∈ l -> key = Some (peer_key q))
  /\ spawned c' = spawned c /\ discovered_set_ c' = discovered_set_ c.

#[export] Instance relies_preorder key : PreOrder (relies key).
Proof.
  split.
  - intros c. exists []. split; [done |]. intros k _ q Hq. by apply not_elem_of_nil in Hq.
  - intros c1 c2 c3 (l & E & Hl) (l' & E' & Hl'). exists (l' ++ l). split; [by rewrite E', E, app_assoc |].
    intros k Hk q [Hq|Hq]%elem_of_app; [by apply (Hl' k) | by apply (Hl k)].
Qed.

#[export] Instance does_preorder key : PreOrder (does key).
Proof.
  split.
  - intros c. split; [| done]. exists []. split; [done |]. intros q Hq. by apply not_elem_of_nil in Hq.
  - intros c1 c2 c3 [(l & E & Hl) [Hs Hd]] [(l' & E' & Hl') [Hs' Hd']]. split; [| by rewrite Hs', Hs, Hd', Hd].
    exists (l' ++ l). split; [by rewrite E', E, app_assoc |]. intros q [Hq|Hq]%elem_of_app; auto.
Qed.

Lemma does_relies k key c c' : does k c c' -> (k = None \/ k <> key) -> relies key c c'.
Proof.
  intros [(l & E & Hl) _] Hk. exists l. split; [done |]. intros k' -> q Hq E'. specialize (Hl q Hq). subst.
  by destruct Hk.
Qed.

Lemma relies_log key c c' : relies key c c' -> log c `suffix_of` log c'.
Proof. intros (l & E & _). by exists l. Qed.
Lemma relies_none k c c' : relies k c c' -> relies None c c'.
Proof. intros (l & E & _). by exists l. Qed.
Lemma does_any k c c' : does None c c' -> does k c c'.
Proof. intros [(l & E & Hl) Hs]. split; [| done]. exists l. split; [done |]. intros q Hq. by specialize (Hl q Hq). Qed.
Lemma unfound_app k l l' : unfound k l -> unfound k l' -> unfound k (l ++ l').
Proof. intros H1 H2 q [Hq|Hq]%elem_of_app; auto. Qed.
Lemma unfound_does k c c' : unfound k (log c) -> relies (Some k) c c' -> unfound k (log c').
Proof. intros Hu (l & -> & Hl). apply unfound_app; [by apply Hl | done]. Qed.

(** What the invariant does not depend on. *)
Definition same_claims (c c' : discv4_client) : Prop :=
  log c' = log c /\ pending_replies_ c' = pending_replies_ c /\ next_slot c' = next_slot c /\ pong_slots c' = pong_slots c
  /\ enr_slots c' = enr_slots c /\ bonded_set_ c' = bonded_set_ c /\ discovered_set_ c' = discovered_set_ c
  /\ spawned c' = spawned c.
Lemma same_cancel t c : same_claims c (cancel t c).
Proof. unfold cancel. by case_decide. Qed.
Lemma same_claims_trans c1 c2 c3 : same_claims c1 c2 -> same_claims c2 c3 -> same_claims c1 c3.
Proof. unfold same_claims. intuition congruence. Qed.

(** A change that writes at most [o] to the log. *)
Lemma does_same key c c' : same_claims c c' -> does key c c'.
Proof.
  intros (E1 & _ & _ & _ & _ & _ & E2 & E3). split; [| done]. exists []. split; [done |].
  intros q Hq. by apply not_elem_of_nil in Hq.
Qed.
Lemma does_quiet key c c' : log c' = log c -> spawned c' = spawned c -> discovered_set_ c' = discovered_set_ c -> does key c c'.
Proof. intros E1 E2 E3. split; [| done]. exists []. split; [done |]. intros q Hq. by apply not_elem_of_nil in Hq. Qed.
Lemma does_tell key o c c' : log c' = o :: log c -> spawned c' = spawned c -> discovered_set_ c' = discovered_set_ c ->
  (forall q, o = PeerFound q -> key = Some (peer_key q)) -> does key c c'.
Proof. intros E1 E2 E3 Ho. split; [| done]. exists [o]. split; [done |]. intros q Hq%list_elem_of_singleton. by apply Ho. Qed.

Definition task_key (t : Task) : option bytes := match t with VisitPeer p => Some (peer_key p) | _ => None end.
Definition visit_keys (ts : list Task) : list bytes := omap task_key ts.
#[export] Instance visit_keys_permutation : Proper ((≡ₚ) ==> (≡ₚ)) visit_keys.
Proof. intros ts ts' E. unfold visit_keys. by rewrite E. Qed.

(** A handler reports no peer, and spawns visits of endpoints that were not discovered before. *)
Definition handles (c c' : discv4_client) : Prop := exists l ts,
  log c' = l ++ log c /\ (forall q, (PeerFound q ∉ l)) /\ spawned c' = spawned c ++ ts /\ NoDup (visit_keys ts)
  /\ (forall key, key ∈ visit_keys ts -> (key ∉ discovered_set_ c) /\ key ∈ discovered_set_ c')
  /\ discovered_set_ c ⊆ discovered_set_ c'.

#[export] Instance handles_preorder : PreOrder handles.
Proof.
  split.
  - intros c. exists [], []. rewrite app_nil_r. split_and!; try done; [| constructor |]; intros ? Hq; by apply not_elem_of_nil in Hq.
  - intros c1 c2 c3 (l & ts & E & Hq & Es & Hn & Hk & Hd) (l' & ts' & E' & Hq' & Es' & Hn' & Hk' & Hd').
    exists (l' ++ l), (ts ++ ts'). rewrite E', E, Es', Es, !app_assoc. unfold visit_keys in *. rewrite omap_app. split_and!; try done.
    + intros q [Hx|Hx]%elem_of_app; [by apply (Hq' q) | by apply (Hq q)].
    + apply list.NoDup_app. split_and!; [done | | done]. intros k H1 H2. by destruct (Hk k H1), (Hk' k H2).
    + intros k [H1|H2]%elem_of_app; [destruct (Hk k H1) | destruct (Hk' k H2)]; split; auto.
    + by transitivity (discovered_set_ c2).
Qed.

Lemma handles_quiet c c' : log c' = log c -> spawned c' = spawned c -> discovered_set_ c' = discovered_set_ c -> handles c c'.
Proof.
  intros E1 E2 E3. exists [], []. rewrite E1, E2, E3, app_nil_r.
  split_and!; try done; [| constructor |]; intros ? Hq; by apply not_elem_of_nil in Hq.
Qed.
Lemma handles_tell o c : (forall q, o <> PeerFound q) -> handles c (tell o c).
Proof.
  intros Ho. exists [o], []. cbn. rewrite app_nil_r. split_and!; try done; [| constructor |].
  - intros q Hq%list_elem_of_singleton. by destruct (Ho q).
  - intros k Hk. by apply not_elem_of_nil in Hk.
Qed.
Lemma handles_spawn t c : task_key t = None -> handles c (spawn t c).
Proof.
  intros Ht. exists [Spawned t], [t]. unfold visit_keys. cbn. rewrite Ht. split_and!; try done; [| constructor |].
  - by intros q Hq%list_elem_of_singleton.
  - intros k Hk. by apply not_elem_of_nil in Hk.
Qed.
Lemma handles_visit p c : peer_key p ∉ discovered_set_ c -> handles c (spawn (VisitPeer p) (set_discovered (peer_key p) c)).
Proof.
  intros Hp. exists [Spawned (VisitPeer p)], [VisitPeer p]. cbn. split_and!; try done.
  - by intros q Hq%list_elem_of_singleton.
  - by apply NoDup_singleton.
  - intros k ->%list_elem_of_singleton. split; [done |]. by apply elem_of_union_l, elem_of_singleton.
  - by apply union_subseteq_r.
Qed.

Section bonding.
Context (keccak256 : bytes -> bytes) `{Secp256k1} `{AddressText} (config : discv4Config) (fails : Prop).

(** ** The log explains itself *)

(** The datagrams of a request to an endpoint, of whatever time. *)
Definition is_ping (ip : bytes) (port : Z) (packet : bytes) : Prop := exists now,
  sign_packet keccak256 (private_key config)
    (ping_payload now (new_ping now (bind_ip config) (bind_port config) (config_tcp_port config) ip port port)) = Ok packet.
Definition is_find_node (packet : bytes) : Prop := exists now target payload,
  find_node_payload now target = Ok payload /\ sign_packet keccak256 (private_key config) payload = Ok packet.
Definition is_enr_request (packet : bytes) : Prop := exists now,
  sign_packet keccak256 (private_key config) (enr_request_payload (mkEnrRequest (u64 (u64 now + kPacketExpirySeconds)))) = Ok packet.

(** The request that a reply of type [ptype] answers, and the hash that the reply has to repeat: the
    first 32 octets of the datagram; NEIGHBOURS repeats none. *)
Definition request (ip : bytes) (port ptype : Z) (packet hash : bytes) : Prop :=
  ptype = kPacketTypePong /\ is_ping ip port packet /\ hash = take 32 packet
  \/ ptype = kPacketTypeNeighbours /\ is_find_node packet /\ hash = repeat 0 32
  \/ ptype = kPacketTypeEnrResponse /\ is_enr_request packet /\ hash = take 32 packet.

(** What is awaited: a pong with a slot for it, an ENR response with a slot for it, or neighbours. *)
Definition request_shape (key : bytes) (e : PendingReply) : Prop := exists ip port ptype t packet hash,
  key = reply_key ip port ptype
  /\ e = mkPending t (if ptype =? kPacketTypePong then Some t else None)
                     (if ptype =? kPacketTypeEnrResponse then Some t else None) hash
  /\ request ip port ptype packet hash.

(** The datagram was handled after the reply was awaited. *)
Definition arrived (key : bytes) (e : PendingReply) (data : bytes) (sender : udp_endpoint) (l : list Output) : Prop :=
  exists l1 l2, l = l1 ++ Handled data sender :: l2 /\ Awaiting key e ∈ l2.

(** The datagram was given to the socket for this endpoint. *)
Definition sent_to (ip : bytes) (port : Z) (packet : bytes) (l : list Output) : Prop :=
  exists a, make_address ip = Some a /\ Sending packet (a, port) ∈ l.

(** [p] fills the slot of the request [e] for [key]: it came from the endpoint asked, and repeats the hash. *)
Definition pong_reply (key : bytes) (e : PendingReply) (p : discv4_pong) (l : list Output) : Prop :=
  exists data sender, arrived key e data sender l
  /\ key = reply_key (sender_text sender) (addr_port sender) kPacketTypePong
  /\ parse_pong data = Ok p /\ pingHash p = expected_hash e.
Definition enr_reply (key : bytes) (e : PendingReply) (r : discv4_enr_response) (l : list Output) : Prop :=
  exists data sender, arrived key e data sender l
  /\ key = reply_key (sender_text sender) (addr_port sender) kPacketTypeEnrResponse
  /\ parse_enr_response data = Ok r /\ request_hash r = expected_hash e.

(** A pong that answers a ping: the ping was sent to this endpoint, the pong came from it after the
    ping was made, and repeats the hash of the datagram that was sent. The same of an ENR response. *)
Definition pong_received (ip : bytes) (port : Z) (p : discv4_pong) (l : list Output) : Prop :=
  exists packet e data sender,
    is_ping ip port packet /\ sent_to ip port packet l
    /\ arrived (reply_key ip port kPacketTypePong) e data sender l
    /\ endpoint_key (sender_text sender) (addr_port sender) = endpoint_key ip port
    /\ parse_pong data = Ok p /\ pingHash p = take 32 packet.
Definition enr_received (ip : bytes) (port : Z) (r : discv4_enr_response) (l : list Output) : Prop :=
  exists packet e data sender,
    is_enr_request packet /\ sent_to ip port packet l
    /\ arrived (reply_key ip port kPacketTypeEnrResponse) e data sender l
    /\ endpoint_key (sender_text sender) (addr_port sender) = endpoint_key ip port
    /\ parse_enr_response data = Ok r /\ request_hash r = take 32 packet.

(** The peer is a node of a NEIGHBOURS packet, which came from an endpoint after its neighbours were
    first awaited: its address, ports and id follow each other in the octets of the packet, and it has a TCP
    port. *)
Definition neighbour_of (p : DiscoveredPeer) (l : list Output) : Prop := exists data sender e,
  arrived (reply_key (sender_text sender) (addr_port sender) kPacketTypeNeighbours) e data sender l
  /\ byte_at data kWirePacketTypeOffset = kPacketTypeNeighbours
  /\ lists_node (drop (Z.to_nat kWireHeaderSize) data) p /\ tcp_port p <> 0.

(** Why an endpoint counts as bonded: a ping came from it, or a pong that answers a ping to it. *)
Definition bond_reason (key : bytes) (l : list Output) : Prop :=
  (exists data sender, Handled data sender ∈ l /\ key = endpoint_key (sender_text sender) (addr_port sender)
     /\ kWireHeaderSize <= len data /\ byte_at data kWirePacketTypeOffset = kPacketTypePing)
  \/ exists ip port p, key = endpoint_key ip port /\ pong_received ip port p l.

(** What was true when an entry was written, by the entries before it. *)
Definition reason (o : Output) (l : list Output) : Prop :=
  match o with
  | Awaiting key e => request_shape key e /\ forall key' e', Awaiting key' e' ∈ l -> (timer e' < timer e)%nat
  | Handled data _ => bytes_ok data
  | Spawned t =>
      (fails \/ addressed t)
      /\ match t with
         | VisitPeer p => neighbour_of p l /\ forall q, Spawned (VisitPeer q) ∈ l -> peer_key q <> peer_key p
         | _ => True
         end
  | PeerFound p =>
      (exists q f, Spawned (VisitPeer q) ∈ l /\ p = with_fork_id f q)
      /\ forall q, PeerFound q ∈ l -> peer_key q <> peer_key p
  | PingReturned ip port (Ok p) => pong_received ip port p l
  | RequestEnrReturned ip port (Ok r) => enr_received ip port r l
  | Uncaught => fails
  | _ => True
  end.

Fixpoint explained (l : list Output) : Prop :=
  match l with [] => True | o :: l => reason o l /\ explained l end.

(** What is in the log had its reason in the entries before it. *)
Lemma explained_reason l o : explained l -> o ∈ l -> exists l', l' `suffix_of` l /\ reason o l' /\ explained l'.
Proof.
  induction l as [|x l IH]; intros Hl Ho; [by apply not_elem_of_nil in Ho |]. destruct Hl as [Hr Hl].
  apply elem_of_cons in Ho as [<-|Ho]; [exists l; split; [by exists [o] | done] |].
  destruct (IH Hl Ho) as (l' & [k ->] & H1). exists l'. split; [by exists (x :: k) | done].
Qed.

Lemma reply_key_suffix ip port ptype : 0 <= ptype < 10 -> reply_key ip port ptype = (endpoint_key ip port ++ [58]) ++ [48 + ptype].
Proof.
  intros Hp. unfold reply_key. rewrite <- app_assoc. do 2 f_equal. cbn [decimal].
  rewrite (proj2 (Z.ltb_lt ptype 10)) by lia. by rewrite Z.mod_small by lia.
Qed.

Lemma reply_key_inj ip port ptype ip' port' ptype' : 0 <= ptype < 10 -> 0 <= ptype' < 10 ->
  reply_key ip port ptype = reply_key ip' port' ptype' -> endpoint_key ip port = endpoint_key ip' port' /\ ptype = ptype'.
Proof.
  intros Hp Hp'. rewrite !reply_key_suffix by done. intros [He Hs]%app_inj_tail. apply app_inj_tail in He as [He _].
  split; [done | lia].
Qed.

(** Requests have timers of their own. *)
Lemma awaiting_unique l : explained l -> forall key e key' e',
  Awaiting key e ∈ l -> Awaiting key' e' ∈ l -> timer e = timer e' -> key = key' /\ e = e'.
Proof.
  induction l as [|o l IH]; intros Hl key e key' e' H1 H2 Ht; [by apply not_elem_of_nil in H1 |].
  destruct Hl as [Hr Hl]. apply elem_of_cons in H1 as [H1|H1], H2 as [H2|H2]; subst.
  - by simplify_eq.
  - destruct Hr as [_ Hr]. specialize (Hr _ _ H2). lia.
  - destruct Hr as [_ Hr]. specialize (Hr _ _ H1). lia.
  - by apply (IH Hl).
Qed.

Lemma awaiting_shape l key e : explained l -> Awaiting key e ∈ l -> request_shape key e.
Proof. intros Hl (l' & _ & [Hr _] & _)%explained_reason; done. Qed.

(** *** What was true stays true *)

Lemma arrived_mono key e data sender l l' : l `suffix_of` l' -> arrived key e data sender l -> arrived key e data sender l'.
Proof. intros [k ->] (l1 & l2 & -> & H1). exists (k ++ l1), l2. by rewrite <- app_assoc. Qed.
Lemma arrived_awaited key e data sender l : arrived key e data sender l -> Awaiting key e ∈ l /\ Handled data sender ∈ l.
Proof. intros (l1 & l2 & -> & H1). split; apply elem_of_app; right; [by right | by left]. Qed.
Lemma sent_to_mono ip port packet l l' : l `suffix_of` l' -> sent_to ip port packet l -> sent_to ip port packet l'.
Proof. intros Hl (a & H1 & H2). exists a. split; [done | by apply (suffix_subseteq l)]. Qed.
Lemma pong_reply_mono key e p l l' : l `suffix_of` l' -> pong_reply key e p l -> pong_reply key e p l'.
Proof. intros Hl (data & sender & H1 & H2). exists data, sender. split; [by eapply arrived_mono | done]. Qed.
Lemma enr_reply_mono key e r l l' : l `suffix_of` l' -> enr_reply key e r l -> enr_reply key e r l'.
Proof. intros Hl (data & sender & H1 & H2). exists data, sender. split; [by eapply arrived_mono | done]. Qed.
Lemma pong_received_mono ip port p l l' : l `suffix_of` l' -> pong_received ip port p l -> pong_received ip port p l'.
Proof.
  intros Hl (packet & e & data & sender & H1 & H2 & H3 & H4). exists packet, e, data, sender. split; [done |].
  split; [by eapply sent_to_mono |]. split; [by eapply arrived_mono | done].
Qed.
Lemma enr_received_mono ip port r l l' : l `suffix_of` l' -> enr_received ip port r l -> enr_received ip port r l'.
Proof.
  intros Hl (packet & e & data & sender & H1 & H2 & H3 & H4). exists packet, e, data, sender. split; [done |].
  split; [by eapply sent_to_mono |]. split; [by eapply arrived_mono | done].
Qed.
Lemma neighbour_of_mono p l l' : l `suffix_of` l' -> neighbour_of p l -> neighbour_of p l'.
Proof. intros Hl (data & sender & e & H1 & H2). exists data, sender, e. split; [by eapply arrived_mono | done]. Qed.
Lemma bond_reason_mono key l l' : l `suffix_of` l' -> bond_reason key l -> bond_reason key l'.
Proof.
  intros Hl [(data & sender & H1 & H2)|(ip & port & p & H1 & H2)]; [left; exists data, sender; split; [by apply (suffix_subseteq l) | done] |].
  right. exists ip, port, p. split; [done | by apply (pong_received_mono _ _ _ l)].
Qed.

(** ** The invariant *)

Record client_inv (c : discv4_client) : Prop := {
  inv_log : explained (log c);
  inv_pending key e : pending_replies_ c !! key = Some e -> Awaiting key e ∈ log c;
  inv_next key e : Awaiting key e ∈ log c -> (timer e < next_slot c)%nat;
  inv_pong n p : pong_slots c !! n = Some p -> exists key e, timer e = n /\ pong_reply key e p (log c);
  inv_enr n r : enr_slots c !! n = Some r -> exists key e, timer e = n /\ enr_reply key e r (log c);
  inv_bonded key : key ∈ bonded_set_ c -> bond_reason key (log c);
  inv_discovered p : Spawned (VisitPeer p) ∈ log c -> peer_key p ∈ discovered_set_ c;
  inv_spawned t : t ∈ spawned c -> Spawned t ∈ log c
}.

(** What an entry asks of the state it is written in. *)
Definition entry_ok (o : Output) (c : discv4_client) : Prop :=
  reason o (log c)
  /\ match o with
     | Awaiting key e => (timer e < next_slot c)%nat
     | Spawned (VisitPeer p) => peer_key p ∈ discovered_set_ c
     | _ => True
     end.

Lemma inv_tell o c : client_inv c -> entry_ok o c -> client_inv (tell o c).
Proof.
  intros [] [Hr Ho]. assert (log c `suffix_of` o :: log c) as Hl by by exists [o]. split; cbn.
  - done.
  - intros key e Hk. right. eauto.
  - intros key e [<-|He]%elem_of_cons; [done | eauto].
  - intros n p (key & e & H1 & H2)%inv_pong0. exists key, e. split; [done | by apply (pong_reply_mono _ _ _ (log c))].
  - intros n p (key & e & H1 & H2)%inv_enr0. exists key, e. split; [done | by apply (enr_reply_mono _ _ _ (log c))].
  - intros key Hk%inv_bonded0. by apply (bond_reason_mono _ (log c)).
  - intros p [<-|Hp]%elem_of_cons; [done | eauto].
  - intros t Ht. right. eauto.
Qed.

Lemma inv_report_error o c : client_inv c -> entry_ok o c -> client_inv (report_error o c).
Proof. intros Hc Ho. unfold report_error. destruct (error_callback_ c); [by apply inv_tell | done]. Qed.

Lemma inv_same c c' : same_claims c c' -> client_inv c -> client_inv c'.
Proof. intros (E1 & E2 & E3 & E4 & E5 & E6 & E7 & E8) []. split; rewrite ?E1, ?E2, ?E3, ?E4, ?E5, ?E6, ?E7, ?E8; done. Qed.

Lemma inv_pending_subset m c : m ⊆ pending_replies_ c -> client_inv c -> client_inv (set_pending m c).
Proof. intros Hm []. split; cbn; try done. intros key e Hk. apply inv_pending0. by eapply lookup_weaken. Qed.
Lemma inv_set_bonded key c : bond_reason key (log c) -> client_inv c -> client_inv (set_bonded key c).
Proof. intros Hk []. split; cbn; try done. intros key' [->%elem_of_singleton|Hk']%elem_of_union; eauto. Qed.
Lemma inv_set_discovered key c : client_inv c -> client_inv (set_discovered key c).
Proof. intros []. split; cbn; try done. intros p Hp. apply elem_of_union_r. eauto. Qed.
Lemma inv_pong_slot n p c : (exists key e, timer e = n /\ pong_reply key e p (log c)) -> client_inv c -> client_inv (set_pong_slot n p c).
Proof. intros Hk []. split; cbn; try done. intros n' p' [[<- <-]|[_ Hn]]%lookup_insert_Some; eauto. Qed.
Lemma inv_enr_slot n r c : (exists key e, timer e = n /\ enr_reply key e r (log c)) -> client_inv c -> client_inv (set_enr_slot n r c).
Proof. intros Hk []. split; cbn; try done. intros n' p' [[<- <-]|[_ Hn]]%lookup_insert_Some; eauto. Qed.

Lemma inv_spawn t c : client_inv c -> entry_ok (Spawned t) c -> client_inv (spawn t c).
Proof.
  intros Hc Ho. unfold spawn. destruct (inv_tell _ _ Hc Ho). split; cbn in *; try done.
  intros t' [Ht| ->%list_elem_of_singleton]%elem_of_app; [by apply inv_spawned0 | by left].
Qed.
Lemma inv_unspawn ts c : ts ⊆ spawned c -> client_inv c -> client_inv (set_spawned ts c).
Proof. intros Ht []. split; cbn; try done. eauto. Qed.

(** ** Coroutines *)

(** What a wait has begun with. *)
Definition ready (w : Wait) (c : discv4_client) : Prop :=
  match w with SendWait packet destination => Sending packet destination ∈ log c | TimerWait _ => True end.

Abbreviation quiet := (spec (W := Wait) (E := Report) fails ready client_inv (relies None) (does None)).
Definition always (c : discv4_client) : Prop := True.

(** Facts about the log stay true. *)
Definition stable (P : discv4_client -> Prop) : Prop := forall c c', P c -> log c `suffix_of` log c' -> P c'.
Lemma stable_ready w : stable (ready w).
Proof. intros c c' Hp Hl. destruct w; [by apply (suffix_subseteq (log c)) | done]. Qed.
Lemma stable_and P Q : stable P -> stable Q -> stable (fun c => P c /\ Q c).
Proof. intros HP HQ c c' [H1 H2] Hl. split; [by apply (HP c) | by apply (HQ c)]. Qed.

Lemma quiet_change P (f : discv4_client -> discv4_client) : stable P -> (forall c, same_claims c (f c)) ->
  quiet P (change f) (fun _ => P).
Proof.
  intros HP Hf. apply spec_change. intros c Hc Hp. split; [by apply (inv_same c) |].
  split; [by apply does_same |]. apply (HP c); [done |]. by destruct (Hf c) as (-> & _).
Qed.

Lemma quiet_await P w : stable P -> quiet P (await w) (fun _ c => P c /\ ready w c).
Proof. intros HP. apply spec_await; [apply _ |]. intros c c' Hp Hr. apply (HP c); [done | by eapply relies_log]. Qed.

Lemma quiet_ret {A} (P : discv4_client -> Prop) (a : A) (Q : A -> discv4_client -> Prop) :
  (forall c, P c -> Q a c) -> quiet P (mret a) Q.
Proof. intros HQ. eapply spec_weaken; [apply spec_ret; apply _ | exact HQ | done]. Qed.

Lemma quiet_send P packet destination : stable P ->
  quiet P (send_packet packet destination) (fun _ c => P c /\ Sending packet destination ∈ log c).
Proof.
  intros HP. pose proof (stable_and _ _ HP (stable_ready (SendWait packet destination))) as HQ.
  unfold send_packet. eapply spec_bind; [apply _ .. | by apply quiet_await |].
  intros [m|]; [| by apply quiet_ret]. eapply (spec_bind _ _ _ _ _ _ _ _ (fun _ c => P c /\ Sending packet destination ∈ log c)); [| intros ?; by apply quiet_ret].
  apply spec_change. intros c Hc Hp. unfold report_error.
  destruct (error_callback_ c); [| done]. split; [by apply inv_tell |]. split; [by apply (does_tell _ (SendError m)) |].
  apply (HQ c); [done |]. by exists [SendError m].
Qed.

(** The request for [key], with this hash, was registered under the number [n]. *)
Definition requested (key hash : bytes) (n : nat) (c : discv4_client) : Prop :=
  exists e, Awaiting key e ∈ log c /\ timer e = n /\ expected_hash e = hash.
Lemma requested_stable key hash n : stable (requested key hash n).
Proof. intros c c' (e & He & Hn) Hl. exists e. split; [by apply (suffix_subseteq (log c)) | done]. Qed.

Lemma quiet_expect ip port ptype packet hash : request ip port ptype packet hash ->
  quiet always (expect_reply (reply_key ip port ptype) (ptype =? kPacketTypePong) (ptype =? kPacketTypeEnrResponse) hash)
    (requested (reply_key ip port ptype) hash).
Proof.
  intros Hp. apply spec_atomically. intros c Hc _. cbn [fst snd].
  set (e := mkPending _ _ _ _). set (key := reply_key ip port ptype).
  assert (client_inv (tell (Awaiting key e) (next c))) as Hn.
  { apply inv_tell; [by destruct Hc; split; cbn; eauto using Nat.lt_trans |].
    split; [| cbn; lia]. split; [by exists ip, port, ptype, (next_slot c), packet, hash |]. intros k' e' He'. by eapply (inv_next c). }
  split; [| split].
  - destruct Hn. split; cbn in *; try done. intros k' e' [[<- <-]|[_ Hk]]%lookup_insert_Some; [by left |].
    right. by apply (inv_pending c).
  - by apply (does_tell _ (Awaiting key e)).
  - exists e. split; [by left | done].
Qed.

Lemma quiet_forget P key : stable P -> quiet P (forget_reply key) (fun _ => P).
Proof.
  intros HP. apply spec_change. intros c Hc Hp. split; [apply inv_pending_subset; [apply delete_subseteq | done] |].
  split; [by apply does_quiet | by apply (HP c)].
Qed.

Lemma quiet_wait P n : stable P -> quiet P (wait_reply n) (fun _ => P).
Proof.
  intros HP. unfold wait_reply. eapply spec_bind; [apply _ .. | by apply quiet_change |]. intros ?.
  eapply spec_bind; [apply _ .. | by apply quiet_await |]. intros ?.
  eapply spec_weaken; [by apply (quiet_change P) | by intros c [] | done].
Qed.

(** The text is an address, or else the coroutine may end by an exception. *)
Definition named (ip : bytes) : Prop := fails \/ is_Some (make_address ip).

(** What is asked of an endpoint, and of the state after it: the address is that of the text. *)
Lemma quiet_endpoint P ip port Q : named ip -> (forall a c, make_address ip = Some a -> P c -> Q (a, port) c) ->
  quiet P (make_endpoint ip port) Q.
Proof.
  intros Hip HQ. unfold make_endpoint. destruct (make_address ip) as [a|] eqn:Ea; [apply quiet_ret; eauto |].
  apply spec_raise; [apply _ |]. destruct Hip as [|Hip]; [done |]. rewrite Ea in Hip. by destruct Hip.
Qed.

Lemma quiet_exchange ip port ptype hash packet : named ip -> request ip port ptype packet hash ->
  quiet always
    (exchange (reply_key ip port ptype) (ptype =? kPacketTypePong) (ptype =? kPacketTypeEnrResponse) hash packet ip port)
    (fun r c => forall n, r = Ok n -> requested (reply_key ip port ptype) hash n c /\ sent_to ip port packet (log c)).
Proof.
  intros Hip Hp. set (key := reply_key ip port ptype). unfold exchange.
  eapply spec_bind; [apply _ .. | by eapply quiet_expect |]. intros n. pose proof (requested_stable key hash n) as Hs.
  eapply (spec_bind _ _ _ _ _ _ _ _ (fun d c => requested key hash n c /\ exists a, make_address ip = Some a /\ d = (a, port)));
    [apply quiet_endpoint; [done |]; intros a c Ea Hc; split; [done | by exists a] |]. intros destination.
  assert (stable (fun c => requested key hash n c /\ exists a, make_address ip = Some a /\ destination = (a, port))) as Hs1
    by (apply stable_and; [done | by intros ??]).
  pose proof (stable_and _ _ Hs1 (stable_ready (SendWait packet destination))) as Hs2.
  eapply spec_bind; [apply _ .. | by apply quiet_send |]. intros [r|e|].
  - eapply spec_bind; [apply _ .. | exact (quiet_wait _ n Hs2) |]. intros ?.
    eapply spec_bind; [apply _ .. | exact (quiet_forget _ key Hs2) |]. intros ?. apply quiet_ret.
    intros c [[Hc (addr & Ha & ->)] Hsend] k [= <-]. split; [done |]. by exists addr.
  - eapply spec_bind; [apply _ .. | exact (quiet_forget _ key Hs2) |]. intros ?. by apply quiet_ret.
  - eapply spec_bind; [apply _ .. | exact (quiet_forget _ key Hs2) |]. intros ?. by apply quiet_ret.
Qed.

Lemma quiet_look {A} (P : discv4_client -> Prop) (f : discv4_client -> A) (Q : A -> discv4_client -> Prop) :
  (forall c, client_inv c -> P c -> Q (f c) c) -> quiet P (look f) Q.
Proof. intros HQ. apply spec_look; [apply _ | exact HQ]. Qed.

(** A step whose result only chooses what comes next. *)
Lemma quiet_read {A B} (P : discv4_client -> Prop) (f : discv4_client -> A) (g : A -> Running B) Q :
  (forall a, quiet P (g a) Q) -> quiet P (look f ≫= g) Q.
Proof. intros Hg. eapply spec_bind; [apply _ .. | by apply (quiet_look P f (fun _ => P)) | exact Hg]. Qed.

(** What is in the slot of a call answers its request. *)
Lemma pong_of_slot c ip port packet n p : client_inv c -> is_ping ip port packet ->
  requested (reply_key ip port kPacketTypePong) (take 32 packet) n c -> sent_to ip port packet (log c) ->
  pong_slots c !! n = Some p -> pong_received ip port p (log c).
Proof.
  intros Hc Hping (e & He & Hn & Hh) Hsent (key' & e' & Hn' & data & sender & Har & Hk & Hparse & Hhash)%(inv_pong c Hc).
  destruct (awaiting_unique _ (inv_log c Hc) _ _ _ _ He (proj1 (arrived_awaited _ _ _ _ _ Har))) as [<- <-]; [by rewrite Hn, Hn' |].
  exists packet, e, data, sender. apply reply_key_inj in Hk as [Hk _]; [| done ..]. split_and!; try done. by rewrite Hhash, Hh.
Qed.
Lemma enr_of_slot c ip port packet n r : client_inv c -> is_enr_request packet ->
  requested (reply_key ip port kPacketTypeEnrResponse) (take 32 packet) n c -> sent_to ip port packet (log c) ->
  enr_slots c !! n = Some r -> enr_received ip port r (log c).
Proof.
  intros Hc Hping (e & He & Hn & Hh) Hsent (key' & e' & Hn' & data & sender & Har & Hk & Hparse & Hhash)%(inv_enr c Hc).
  destruct (awaiting_unique _ (inv_log c Hc) _ _ _ _ He (proj1 (arrived_awaited _ _ _ _ _ Har))) as [<- <-]; [by rewrite Hn, Hn' |].
  exists packet, e, data, sender. apply reply_key_inj in Hk as [Hk _]; [| done ..]. split_and!; try done. by rewrite Hhash, Hh.
Qed.

Lemma quiet_bond ip port p : quiet (fun c => pong_received ip port p (log c)) (change (set_bonded (endpoint_key ip port)))
  (fun _ c => pong_received ip port p (log c)).
Proof.
  apply spec_change. intros c Hc Hp. split; [apply inv_set_bonded; [right; by exists ip, port, p | done] |].
  split; [by apply does_quiet | done].
Qed.

Lemma quiet_ping ip port : named ip -> quiet always (ping keccak256 config ip port)
  (fun r c => forall p, r = Ok p -> pong_received ip port p (log c)).
Proof.
  intros Hip. unfold ping. apply quiet_read. intros running. destruct (negb running); [by apply quiet_ret |].
  apply quiet_read. intros now. case_match; [by apply quiet_ret |].
  destruct (sign_packet _ _ _) as [packet|e|] eqn:Es; [| by apply quiet_ret | by apply quiet_ret].
  assert (is_ping ip port packet) as Hping by by exists now.
  eapply spec_bind; [apply _ .. | by eapply (quiet_exchange ip port kPacketTypePong); [| left] |].
  intros [n|e|]; [| by apply quiet_ret | by apply quiet_ret].
  eapply spec_bind; [apply _ .. | |].
  - apply (quiet_look _ _ (fun slot c => forall p, slot = Some p -> pong_received ip port p (log c))).
    intros c Hc Hn p Hp. destruct (Hn n eq_refl). by eapply pong_of_slot.
  - intros [p|]; [| by apply quiet_ret]. destruct (negb (expiration p =? 0)); [| by apply quiet_ret].
    eapply spec_bind; [apply _ .. | |].
    + eapply spec_weaken; [apply (quiet_bond ip port p) | | done]. intros c Hc. by apply Hc.
    + intros ?. apply quiet_ret. by intros c Hc q [= <-].
Qed.

Lemma quiet_request_enr ip port : named ip -> quiet always (request_enr keccak256 config ip port)
  (fun r c => forall x, r = Ok x -> enr_received ip port x (log c)).
Proof.
  intros Hip. unfold request_enr. apply quiet_read. intros running. destruct (negb running); [by apply quiet_ret |].
  apply quiet_read. intros now. case_match; [by apply quiet_ret |].
  destruct (sign_packet _ _ _) as [packet|e|] eqn:Es; [| by apply quiet_ret | by apply quiet_ret].
  assert (is_enr_request packet) as Hreq by by exists now.
  eapply spec_bind; [apply _ .. | by eapply (quiet_exchange ip port kPacketTypeEnrResponse); [| right; right] |].
  intros [n|e|]; [| by apply quiet_ret | by apply quiet_ret].
  eapply spec_bind; [apply _ .. | |].
  - apply (quiet_look _ _ (fun slot c => forall r, slot = Some r -> enr_received ip port r (log c))).
    intros c Hc Hn r Hr. destruct (Hn n eq_refl). by eapply enr_of_slot.
  - intros [r|]; [| by apply quiet_ret]. destruct (empty (record_rlp r)); [by apply quiet_ret |].
    apply quiet_ret. intros c Hc q [= <-]. by apply Hc.
Qed.

Lemma quiet_ensure_bond ip port : named ip -> quiet always (ensure_bond keccak256 config ip port) (fun _ => always).
Proof.
  intros Hip. unfold ensure_bond. apply spec_noexcept, quiet_read. intros []; [by apply quiet_ret |].
  eapply spec_bind; [apply _ .. | by apply quiet_ping |]. intros [p|e|]; [| by apply quiet_ret | by apply quiet_ret].
  eapply spec_weaken; [apply (quiet_bond ip port p) | | done]. intros c Hc. by apply Hc.
Qed.

Lemma quiet_find_node ip port target : named ip -> quiet always (find_node keccak256 config ip port target) (fun _ => always).
Proof.
  intros Hip. unfold find_node. apply quiet_read. intros running. destruct (negb running); [by apply quiet_ret |].
  eapply spec_bind; [apply _ .. | by apply quiet_ensure_bond |]. intros ?. apply quiet_read. intros now.
  destruct (find_node_payload now target) as [payload|e|] eqn:Ep; [| by apply quiet_ret | by apply quiet_ret].
  destruct (sign_packet _ _ _) as [packet|e|] eqn:Es; [| by apply quiet_ret | by apply quiet_ret].
  assert (is_find_node packet) as Hreq by by exists now, target, payload.
  eapply spec_bind; [apply _ .. | by eapply (quiet_exchange ip port kPacketTypeNeighbours); [| right; left] |].
  intros ?. by apply quiet_ret.
Qed.

Lemma quiet_answer_ping ip port pkt : named ip -> quiet always (answer_ping keccak256 config ip port pkt) (fun _ => always).
Proof.
  intros Hip. unfold answer_ping. eapply spec_bind; [apply _ .. | by apply (quiet_endpoint always _ _ (fun _ => always)) |].
  intros dest. eapply spec_bind; [apply _ .. | by apply quiet_send |].
  intros [u|e|]; [| by apply quiet_ret | by apply quiet_ret]. eapply spec_weaken; [by apply quiet_find_node | done | done].
Qed.

(** The end of a call writes its result. *)
Lemma quiet_tell (P : discv4_client -> Prop) o : (forall q, o <> PeerFound q) -> (forall c, P c -> entry_ok o c) ->
  quiet P (change (tell o)) (fun _ => always).
Proof.
  intros Hq Ho. apply spec_change. intros c Hc Hp. split; [apply inv_tell; auto |]. split; [| done].
  apply (does_tell _ o); [done .. |]. intros q E. by destruct (Hq q).
Qed.

(** ** A visit reports its peer once *)

(** The peer was found by the crawl, and is not reported yet. *)
Definition to_report (peer : DiscoveredPeer) (c : discv4_client) : Prop :=
  Spawned (VisitPeer peer) ∈ log c /\ unfound (peer_key peer) (log c).

Abbreviation visiting k := (spec (W := Wait) (E := Report) fails ready client_inv (relies (Some k)) (does (Some k))).

Lemma to_report_kept peer c c' : to_report peer c -> relies (Some (peer_key peer)) c c' -> to_report peer c'.
Proof.
  intros [H1 H2] (l & E & Hl). unfold to_report. rewrite E. split; [by apply elem_of_app; right |].
  apply unfound_app; [by apply Hl | done].
Qed.

Lemma visiting_quiet {A} peer (m : Running A) Q : quiet always m Q ->
  visiting (peer_key peer) (to_report peer) m (fun a c => Q a c /\ to_report peer c).
Proof.
  intros Hm. apply (spec_mono _ _ _ _ _ (does None) _ _ _ _ (fun s s' H => H) (does_any _)).
  apply (spec_mono _ _ _ _ (relies (Some (peer_key peer))) _ (does None) _ _ _ (relies_none _) (fun s s' H => H)) in Hm.
  eapply (spec_frame _ _ _ (to_report peer)) in Hm.
  - eapply spec_weaken; [exact Hm | by split | by intros a c []].
  - apply to_report_kept.
  - intros c c' Hc Hd. apply (to_report_kept peer c); [done |]. apply (does_relies None); auto.
Qed.

Lemma report_peer peer f :
  visiting (peer_key peer) (to_report peer) (change (tell (PeerFound (with_fork_id f peer)))) (fun _ => always).
Proof.
  apply spec_change. intros c Hc [Hs Hu]. split.
  - apply inv_tell; [done |]. split; [| done]. split; [by exists peer, f |]. intros q Hq. by apply Hu.
  - split; [| done]. apply (does_tell _ (PeerFound (with_fork_id f peer))); [done .. |]. by intros q [= <-].
Qed.

Lemma visiting_any {A} k (m : Running A) : quiet always m (fun _ => always) -> visiting k always m (fun _ => always).
Proof. apply spec_mono; [apply relies_none | apply does_any]. Qed.

(** The record of an ENR response that came is read to its end. *)
Lemma enr_received_parses c ip port r : client_inv c -> enr_received ip port r (log c) -> ParseEthForkId r <> Diverged.
Proof.
  intros Hc (packet & e & data & sender & _ & _ & [_ Hd]%arrived_awaited & _ & Hp & _).
  destruct (explained_reason _ _ (inv_log c Hc) Hd) as (l & _ & Hok & _). apply (discv4_parsers_total data); [done |].
  by apply (parse_enr_octets data).
Qed.

Lemma visit_enriched peer (r : Discv4Result discv4_enr_response) :
  visiting (peer_key peer) (fun c => (forall x, r = Ok x -> enr_received (peer_ip peer) (udp_port peer) x (log c)) /\ to_report peer c)
    (match r with
     | Ok response =>
         match ParseEthForkId response with
         | Ok f => mret (with_fork_id (Some f) peer)
         | Err _ => mret peer
         | Diverged => hang
         end
     | _ => mret peer
     end : Running DiscoveredPeer)
    (fun p c => (exists f, p = with_fork_id f peer) /\ to_report peer c).
Proof.
  intros c Hc [Hr Ht]. assert (peer = with_fork_id (eth_fork_id peer) peer) as Hp by (by destruct peer).
  assert (forall p, (exists f, p = with_fork_id f peer) -> visiting (peer_key peer) (to_report peer) (mret p : Running _)
    (fun p c => (exists f, p = with_fork_id f peer) /\ to_report peer c)) as Hret.
  { intros p Hf s Hs Hp'. split; [done |]. split; [done |]. by constructor. }
  destruct r as [x|e|]; [| apply Hret; eauto ..].
  pose proof (enr_received_parses c _ _ x Hc (Hr x eq_refl)) as Hd. destruct (ParseEthForkId x); [apply Hret; eauto .. | done].
Qed.

Lemma visit_visit_peer peer : named (peer_ip peer) ->
  visiting (peer_key peer) (to_report peer) (visit_peer keccak256 config peer) (fun _ => always).
Proof.
  intros Hip. unfold visit_peer. eapply spec_bind; [apply _ .. | by eapply visiting_quiet, quiet_ensure_bond |]. intros ?.
  eapply spec_bind; [apply _ .. | |].
  { eapply spec_weaken; [by eapply visiting_quiet, quiet_request_enr | by intros c [] | done]. }
  intros result. eapply spec_bind; [apply _ .. | apply visit_enriched |]. intros enriched.
  eapply (spec_bind _ _ _ _ _ _ _ _ (fun _ c => (exists f, enriched = with_fork_id f peer) /\ to_report peer c));
    [by apply spec_look; [apply _ |]; intros |]. intros has_callback.
  eapply (spec_bind _ _ _ _ _ _ _ _ (fun _ => always)); [| intros ?; by apply visiting_any, quiet_find_node].
  destruct has_callback.
  - intros c Hc [[f ->] Ht]. by apply report_peer.
  - eapply (spec_weaken _ _ _ _ _ always _ _ (fun _ => always)); [apply (spec_ret _ _ _ _ _ tt (fun _ => always)) | done | done].
Qed.

(** ** Tasks *)

(** A visit starts while its peer is to be reported. *)
Definition task_ready (t : Task) (c : discv4_client) : Prop := match t with VisitPeer p => to_report p c | _ => True end.

Lemma quiet_run_task t : fails \/ addressed t ->
  spec (W := Wait) (E := Report) fails ready client_inv (relies (task_key t)) (does (task_key t))
    (task_ready t) (run_task keccak256 config t) (fun _ => always).
Proof.
  intros Ht. destruct t as [|ip port pkt|peer|ip port|ip port target|ip port]; cbn [task_key run_task].
  - apply quiet_change; [done |]. intros c. by destruct (running_ c).
  - by apply quiet_answer_ping.
  - by apply visit_visit_peer.
  - eapply spec_bind; [apply _ .. | by apply quiet_ping |]. intros r. apply quiet_tell; [done |].
    intros c Hc. split; [| done]. destruct r as [p|e|]; [by apply Hc | done | done].
  - eapply spec_bind; [apply _ .. | by apply quiet_find_node |]. intros ?. by apply quiet_tell.
  - eapply spec_bind; [apply _ .. | by apply quiet_request_enr |]. intros r. apply quiet_tell; [done |].
    intros c Hc. split; [| done]. destruct r as [p|e|]; [by apply Hc | done | done].
Qed.

(** What every handler keeps. *)
Definition keeps (c c' : discv4_client) : Prop := client_inv c -> client_inv c' /\ handles c c'.

(** What the handlers spawn names an address. *)
Context (texts : fails \/ forall a, is_array 4 a -> is_Some (make_address (dotted a)) /\ is_Some (make_address (address_v4_to_string a))).

Lemma keeps_trans c1 c2 c3 : keeps c1 c2 -> keeps c2 c3 -> keeps c1 c3.
Proof. intros H1 H2 Hc. destruct (H1 Hc) as [Hc2 Hh]. destruct (H2 Hc2) as [Hc3 Hh']. split; [done |]. by transitivity c2. Qed.

Lemma keeps_claims c c' : same_claims c c' -> keeps c c'.
Proof. intros Hs Hc. split; [by apply (inv_same c) |]. destruct Hs as (? & ? & ? & ? & ? & ? & ? & ?). by apply handles_quiet. Qed.

Lemma keeps_tell o c : reason o (log c) -> (forall q, o <> PeerFound q) -> (forall p, o <> Spawned (VisitPeer p)) ->
  (forall key e, o <> Awaiting key e) -> keeps c (tell o c).
Proof.
  intros Hr H1 H2 H3 Hc. split; [| by apply handles_tell]. apply inv_tell; [done |]. split; [done |].
  destruct o as [| | | | | | | | |key e| |[]]; try done; [by destruct (H3 key e) | by edestruct H2].
Qed.

Lemma keeps_report_error o c : reason o (log c) -> (forall q, o <> PeerFound q) -> (forall p, o <> Spawned (VisitPeer p)) ->
  (forall key e, o <> Awaiting key e) -> keeps c (report_error o c).
Proof. intros. unfold report_error. destruct (error_callback_ c); [by apply keeps_tell | by apply keeps_claims]. Qed.

Lemma keeps_spawn t c : task_key t = None -> fails \/ addressed t -> keeps c (spawn t c).
Proof. intros Ht Ha Hc. split; [| by apply handles_spawn]. apply inv_spawn; [done |]. by destruct t. Qed.

(** The handlers are called right after the datagram came, with a sender that has four octets. *)
Definition came (data : bytes) (sender : udp_endpoint) (c : discv4_client) : Prop :=
  (exists l, log c = Handled data sender :: l) /\ (fails \/ is_array 4 (addr_octets sender)).
Lemma came_handled data sender c : came data sender c -> Handled data sender ∈ log c.
Proof. intros [[l ->] _]. by left. Qed.
Lemma came_arrived data sender key e c : came data sender c -> Awaiting key e ∈ log c -> arrived key e data sender (log c).
Proof. intros [[l ->] _] [|He]%elem_of_cons; [done |]. by exists [], l. Qed.

Lemma keeps_handle_ping data sender c : came data sender c ->
  byte_at data kWirePacketTypeOffset = kPacketTypePing -> keeps c (handle_ping keccak256 config data sender c).
Proof.
  intros Hh Hb. unfold handle_ping. destruct (Z.ltb_spec (len data) kWireHeaderSize); [by apply keeps_claims |].
  repeat (case_match; [| by apply keeps_claims ..]). eapply keeps_trans; [| apply keeps_spawn; [done |]].
  - intros Hc. split; [| by apply handles_quiet]. apply inv_set_bonded; [| done]. left.
    exists data, sender. split; [by apply came_handled | done].
  - destruct Hh as [_ [Hf|Hs]]; [by left |]. destruct texts as [Hf|Ht]; [by left | right]. by apply Ht.
Qed.

(** The entry under a key was registered, and its slot is the one of its kind. *)
Lemma pending_shape c ip port ptype e : client_inv c -> 0 <= ptype < 10 ->
  pending_replies_ c !! reply_key ip port ptype = Some e ->
  Awaiting (reply_key ip port ptype) e ∈ log c
  /\ pong e = (if ptype =? kPacketTypePong then Some (timer e) else None)
  /\ enr_response e = (if ptype =? kPacketTypeEnrResponse then Some (timer e) else None).
Proof.
  intros Hc Hp Hk%(inv_pending c Hc). split; [done |].
  destruct (awaiting_shape _ _ _ (inv_log c Hc) Hk) as (ip' & port' & ptype' & t & packet & h & Ek & -> & Ht).
  apply reply_key_inj in Ek as [_ ->]; [done | done |]. destruct Ht as [[-> _]|[[-> _]|[-> _]]]; done.
Qed.

Lemma keeps_handle_pong data sender c : client_inv c -> bytes_ok data -> came data sender c ->
  exists c', handle_pong data sender c = Some c' /\ keeps c c'.
Proof.
  intros Hc Hok Hh. pose proof (discv4_parsers_total data (mkEnrResponse [] []) Hok ltac:(constructor)) as [Hd _]. unfold handle_pong. case_match; [by eexists; split; [| by apply keeps_claims] |].
  destruct (parse_pong data) as [p|e|] eqn:Ep; [| by eexists; split; [| by apply keeps_claims] | done].
  destruct (pending_replies_ c !! _) as [e|] eqn:Ek; [| by eexists; split; [| by apply keeps_claims]].
  destruct (pending_shape _ _ _ kPacketTypePong _ Hc ltac:(done) Ek) as (Ha & Hs & _). case_bool_decide as Eh; cbn [negb];
    [| by eexists; split; [| by apply keeps_claims]].
  rewrite Hs. eexists. split; [done |]. eapply keeps_trans; [| apply keeps_claims, same_cancel].
  intros _. split; [| by apply handles_quiet]. apply inv_pong_slot; [| done]. eexists _, e. split; [done |].
  exists data, sender. split; [by apply came_arrived | done].
Qed.

Lemma keeps_handle_enr_response data sender c : client_inv c -> bytes_ok data -> came data sender c ->
  exists c', handle_enr_response data sender c = Some c' /\ keeps c c'.
Proof.
  intros Hc Hok Hh. pose proof (discv4_parsers_total data (mkEnrResponse [] []) Hok ltac:(constructor)) as (_ & Hd & _).
  unfold handle_enr_response. case_match; [by eexists; split; [| by apply keeps_claims] |].
  destruct (parse_enr_response data) as [p|e|] eqn:Ep; [| by eexists; split; [| by apply keeps_claims] | done].
  destruct (pending_replies_ c !! _) as [e|] eqn:Ek; [| by eexists; split; [| by apply keeps_claims]].
  destruct (pending_shape _ _ _ kPacketTypeEnrResponse _ Hc ltac:(done) Ek) as (Ha & _ & Hs). case_bool_decide as Eh; cbn [negb];
    [| by eexists; split; [| by apply keeps_claims]].
  rewrite Hs. eexists. split; [done |]. eapply keeps_trans; [| apply keeps_claims, same_cancel].
  intros _. split; [| by apply handles_quiet]. apply inv_enr_slot; [| done]. eexists _, e. split; [done |].
  exists data, sender. split; [by apply came_arrived | done].
Qed.

(** The same, of a handler that was called with a reply that was asked for. *)
Definition neighbours_came (data : bytes) (sender : udp_endpoint) (c : discv4_client) : Prop :=
  exists e, arrived (reply_key (sender_text sender) (addr_port sender) kPacketTypeNeighbours) e data sender (log c).
Definition keeps_reply (data : bytes) (sender : udp_endpoint) (c c' : discv4_client) : Prop :=
  client_inv c -> neighbours_came data sender c -> client_inv c' /\ neighbours_came data sender c' /\ handles c c'.

#[local] Instance keeps_reply_preorder data sender : PreOrder (keeps_reply data sender).
Proof.
  split; [by intros c Hc Hr |]. intros c1 c2 c3 H1 H2 Hc Hr. destruct (H1 Hc Hr) as (Hc2 & Hr2 & Hh).
  destruct (H2 Hc2 Hr2) as (Hc3 & Hr3 & Hh'). split; [done |]. split; [done |]. by transitivity c2.
Qed.

Lemma keeps_add_neighbour data sender node c : byte_at data kWirePacketTypeOffset = kPacketTypeNeighbours ->
  lists_node (drop (Z.to_nat kWireHeaderSize) data) node -> keeps_reply data sender c (add_neighbour node c).
Proof.
  intros Hb Hnode Hc Hr. unfold add_neighbour. destruct (Z.eqb_spec (tcp_port node) 0) as [|Htcp]; [done |].
  set (peer := mkPeer _ _ _ _ _ _). cbv zeta. set (c1 := set_peers _ c).
  assert (client_inv c1) as Hc1 by by apply (inv_same c).
  destruct (running_ c1 && _) eqn:Ed; [| by split_and!; [| | apply handles_quiet]].
  apply andb_true_iff in Ed as [_ Hd%bool_decide_eq_true].
  change (peer_key peer ∉ discovered_set_ c1) in Hd. split_and!.
  - apply inv_spawn; [by apply inv_set_discovered |]. split; [| by apply elem_of_union_l, elem_of_singleton]. split_and!.
    + destruct texts as [Hf|Ht]; [by left | right]. destruct Hnode as (? & ip & ? & ? & ? & _ & Hip & E & _).
      cbn. rewrite E. by apply Ht.
    + destruct Hr as [e He]. by exists data, sender, e.
    + intros q Hq E. apply Hd. rewrite <- E. by apply inv_discovered.
  - destruct Hr as [e He]. exists e. apply (arrived_mono _ _ _ _ (log c)); [| done]. by exists [Spawned (VisitPeer peer)].
  - transitivity c1; [by apply handles_quiet |]. by apply handles_visit.
Qed.

Lemma keeps_handle_neighbours data sender c : client_inv c -> bytes_ok data -> came data sender c ->
  byte_at data kWirePacketTypeOffset = kPacketTypeNeighbours ->
  exists c', handle_neighbours data sender c = Some c' /\ keeps c c'.
Proof.
  intros Hc Hok Hh Hb. unfold handle_neighbours. case_match; [by eexists; split; [| by apply keeps_claims] |].
  destruct (pending_replies_ c !! _) as [e|] eqn:Ek; [| by eexists; split; [| by apply keeps_claims]].
  destruct (read_neighbours_ends (keeps_reply data sender) (drop (Z.to_nat kWireHeaderSize) data) (cancel (timer e) c)) as (c' & -> & Hr);
    [apply _ | intros; by apply keeps_add_neighbour | by apply bytes_ok_drop |].
  exists c'. split; [done |]. pose proof (same_cancel (timer e) c) as Hs.
  eapply keeps_trans; [by apply keeps_claims |]. intros Hc1. destruct (Hr Hc1) as (Hc2 & _ & Hh2); [| done].
  exists e. destruct Hs as (-> & _). apply came_arrived; [done | by apply (inv_pending c)].
Qed.

(** A handler never dereferences a null pointer, ends, and keeps the invariant. *)
Lemma keeps_handle_packet data sender c : client_inv c -> bytes_ok data -> came data sender c ->
  exists c', handle_packet keccak256 config data sender c = Some c' /\ keeps c c'.
Proof.
  intros Hc Hok Hh. unfold handle_packet. cbv zeta.
  case_match; [by eexists; split; [| by apply keeps_claims] |].
  destruct (Z.eqb_spec (byte_at data kWirePacketTypeOffset) kPacketTypePing); [by eexists; split; [| by apply keeps_handle_ping] |].
  case_match; [by apply keeps_handle_pong |]. case_match; [by eexists; split; [| by apply keeps_claims] |].
  destruct (Z.eqb_spec (byte_at data kWirePacketTypeOffset) kPacketTypeNeighbours); [by apply keeps_handle_neighbours |].
  case_match; [by eexists; split; [| by apply keeps_claims] |]. case_match; [by apply keeps_handle_enr_response |].
  eexists. split; [done |]. by apply keeps_report_error.
Qed.

Lemma keeps_loop_on c : keeps c (loop_on c).
Proof. apply keeps_claims. unfold loop_on. by destruct (running_ c). Qed.

(** The octets of datagrams are octets; senders are IPv4 endpoints. *)
Definition received_ok (r : Received) : Prop :=
  match r with Datagram data sender => bytes_ok data /\ (fails \/ is_array 4 (addr_octets sender)) | _ => True end.

Lemma keeps_receive_loop r c : client_inv c -> received_ok r ->
  exists c', receive_loop keccak256 config r c = Some c' /\ keeps c c'.
Proof.
  intros Hc Hr. destruct r as [data sender| |message]; cbn [receive_loop].
  - set (data' := take _ data). assert (bytes_ok data') as Hok by by apply bytes_ok_take, Hr.
    destruct (empty data'); [by eexists; split; [| apply keeps_loop_on] |].
    assert (keeps c (tell (Handled data' sender) c)) as Hh by by apply keeps_tell. destruct (Hh Hc) as [Hc1 _].
    destruct (keeps_handle_packet data' sender _ Hc1 Hok) as (c' & -> & Hk); [split; [by eexists | apply Hr] |]. eexists. split; [done |].
    eapply keeps_trans; [exact Hh |]. by eapply keeps_trans; [| apply keeps_loop_on].
  - eexists. split; [done |]. by apply keeps_claims.
  - eexists. split; [done |]. eapply keeps_trans; [| apply keeps_loop_on]. by apply keeps_report_error.
Qed.

Lemma keeps_start c : keeps c (start c).
Proof.
  unfold start. destruct (running_ c); [by apply keeps_claims |]. eapply keeps_trans; [| by apply keeps_spawn; [| right]].
  by apply keeps_claims.
Qed.

Lemma keeps_stop c : keeps c (stop c).
Proof.
  unfold stop. set (c1 := map_fold _ _ _).
  assert (same_claims (set_running false c) c1) as Hs.
  { unfold c1. apply (map_fold_weak_ind (fun c' _ => same_claims (set_running false c) c')); [done |].
    intros key e m c' _ Hm. by eapply same_claims_trans; [| apply same_cancel]. }
  intros Hc. split.
  - apply (inv_same (set_pending ∅ c1)); [done |]. apply inv_pending_subset; [apply map_empty_subseteq |].
    apply (inv_same (set_running false c)); [done |]. by apply (inv_same c).
  - transitivity c1; [| by apply handles_quiet]. destruct Hs as (? & ? & ? & ? & ? & ? & ? & ?). by apply handles_quiet.
Qed.
(** ** Every order of events *)

(** The octets of datagrams are octets. *)
Definition event_ok (e : Event) : Prop := match e with Receive (Datagram data _) => bytes_ok data | _ => True end.
(** The calls of the user name addresses too, and senders are IPv4 endpoints. *)
Definition calm_event (e : Event) : Prop :=
  match e with
  | Call t => addressed t
  | Receive (Datagram data sender) => bytes_ok data /\ is_array 4 (addr_octets sender)
  | _ => True
  end.
Definition fine (e : Event) : Prop := event_ok e /\ (fails \/ calm_event e).

Lemma fine_received r : fine (Receive r) -> received_ok r.
Proof. destruct r as [data sender| |]; intros [Hok He]; try done. split; [done |]. by destruct He as [|[_ ?]]; [left | right]. Qed.

(** The coroutines and what each may report; no two visit the same endpoint. *)
Record owned (owners : list (option bytes)) (w : world) : Prop := {
  owned_client : client_inv (client w);
  owned_behave : Forall2 (fun k co => behaves fails ready client_inv (relies k) (does k) (fun _ => always) (client w) co)
                   owners (coroutines w);
  owned_once : NoDup (omap id owners ++ visit_keys (spawned (client w)));
  owned_discovered k : k ∈ omap id owners -> k ∈ discovered_set_ (client w);
  owned_unfound k : k ∈ visit_keys (spawned (client w)) -> unfound k (log (client w));
  owned_begun i wait resume : coroutines w !! i = Some (Await wait resume) -> ready wait (client w);
  owned_alive : crashed w = true -> fails
}.
Definition world_inv (w : world) : Prop := exists owners, owned owners w.

Lemma behaves_still {A} k c c' (co : Coroutine discv4_client Wait Report A) : relies k c c' ->
  behaves fails ready client_inv (relies k) (does k) (fun _ => always) c co ->
  behaves fails ready client_inv (relies k) (does k) (fun _ => always) c' co.
Proof.
  intros Hr Hb. destruct co as [a|w resume| |]; [by constructor | | by inversion Hb; constructor ..].
  eapply behaves_later; [apply _ | exact Hb | exact Hr].
Qed.

Lemma handles_relies k c c' : handles c c' -> relies k c c'.
Proof. intros (l & ts & E & Hl & _). exists l. split; [done |]. intros key _ q Hq. by destruct (Hl q). Qed.

(** A peer that was reported was found by the crawl, so its endpoint is a discovered one. *)
Lemma found_discovered c q : client_inv c -> PeerFound q ∈ log c -> peer_key q ∈ discovered_set_ c.
Proof.
  intros Hc (l & Hl & [(p & f & Hp & ->) _] & _)%(explained_reason _ _ (inv_log c Hc)).
  apply (inv_discovered c Hc p). by apply (suffix_subseteq l).
Qed.

Lemma visit_keys_discovered c k : client_inv c -> k ∈ visit_keys (spawned c) -> k ∈ discovered_set_ c.
Proof.
  intros Hc (t & Ht & E)%list_elem_of_omap. destruct t as [| |p| | |]; try done. injection E as <-.
  by apply (inv_discovered c Hc), (inv_spawned c Hc).
Qed.

Lemma world_handles w c' b : world_inv w -> keeps (client w) c' -> (b = true -> fails) -> world_inv (mkWorld c' (coroutines w) b).
Proof.
  intros [owners [Hc Hb Hn Hd Hu Hbeg Hal]] Hk Hb'. destruct (Hk Hc) as [Hc' Hh]. exists owners. split; cbn [client coroutines].
  - done.
  - refine (Forall2_impl _ _ Hb). intros k co. by apply behaves_still, handles_relies.
  - destruct Hh as (l & ts & _ & _ & -> & Hts & Hnew & _). unfold visit_keys in *. rewrite omap_app, app_assoc.
    apply list.NoDup_app. split_and!; [done | | done]. intros k [Hk1|Hk1]%elem_of_app Hk2; destruct (Hnew k Hk2) as [Hno _].
    + by apply Hno, Hd.
    + by apply Hno, visit_keys_discovered.
  - intros k Hk1. destruct Hh as (l & ts & _ & _ & _ & _ & _ & Hsub). auto.
  - intros k Hk1. pose proof (handles_relies (Some k) _ _ Hh) as Hr. destruct Hh as (l & ts & E & Hl & Es & _ & Hnew & _).
    rewrite Es in Hk1. unfold visit_keys in *. rewrite omap_app in Hk1. apply elem_of_app in Hk1 as [Hk1|Hk1].
    + eapply unfound_does; [by apply Hu | done].
    + destruct (Hnew k Hk1) as [Hno _]. intros q Hq <-. rewrite E in Hq. apply elem_of_app in Hq as [Hq|Hq]; [by destruct (Hl q) |].
      by apply Hno, found_discovered.
  - intros i wait resume Hi. apply (stable_ready wait (client w)); [by eapply Hbeg |].
    by eapply (relies_log None), handles_relies.
  - done.
Qed.

(** What a wait begins with changes nothing else. *)
Lemma begin_wait_keeps wait c : client_inv c -> client_inv (begin_wait wait c).
Proof. intros Hc. destruct wait; [by apply inv_tell | done]. Qed.
Lemma begin_wait_does k wait c : does k c (begin_wait wait c).
Proof. destruct wait as [packet destination|]; [| done]. by apply (does_tell _ (Sending packet destination)). Qed.
Lemma begin_wait_ready wait c : ready wait (begin_wait wait c).
Proof. destruct wait; [by left | done]. Qed.

(** The state in which a coroutine has run to its next wait or to its end. *)
Lemma settled_client (r : Coroutine discv4_client Wait Report unit * discv4_client) others k :
  done_by fails ready client_inv (relies k) (does k) (fun _ => always) (snd r) (fst r, snd r) ->
  client_inv (client (settle r others)) /\ does k (snd r) (client (settle r others)).
Proof.
  destruct r as [co c]. cbn [fst snd]. intros (Hc & _ & Hb). destruct co as [a|w resume| |]; cbn [settle client]; try done.
  - split; [by apply begin_wait_keeps | apply begin_wait_does].
  - split; [| by apply (does_tell _ Uncaught)]. apply inv_tell; [done |]. split; [| done]. by inversion Hb.
Qed.

(** A coroutine has run from [c]: [k] is what it may report, [owners] the others. *)
Lemma world_settles k owners c others r :
  client_inv c -> Forall2 (fun k co => behaves fails ready client_inv (relies k) (does k) (fun _ => always) c co) owners others ->
  NoDup (omap id (owners ++ [k]) ++ visit_keys (spawned c)) ->
  (forall k', k' ∈ omap id (owners ++ [k]) -> k' ∈ discovered_set_ c) ->
  (forall k', k' ∈ visit_keys (spawned c) -> unfound k' (log c)) ->
  (forall i wait resume, others !! i = Some (Await wait resume) -> ready wait c) ->
  done_by fails ready client_inv (relies k) (does k) (fun _ => always) c r ->
  world_inv (settle r others).
Proof.
  intros Hc Hb Hn Hd Hu Hbeg (Hc1 & Hdo0 & Hb1).
  destruct (settled_client r others k) as [Hc2 Hdo1]; [done |]. assert (does k c (client (settle r others))) as Hdo by by transitivity (snd r).
  set (c2 := client (settle r others)) in *.
  assert (spawned c2 = spawned c /\ discovered_set_ c2 = discovered_set_ c) as [Es Ed] by by destruct Hdo as [_ ?].
  assert (forall k', k' ∈ omap id owners ++ visit_keys (spawned c) -> k <> Some k') as Hne.
  { intros k' Hk' ->. rewrite omap_app, <- app_assoc in Hn. cbn [omap list_omap id] in Hn.
    apply (NoDup_cons_1_1 k' (omap id owners ++ visit_keys (spawned c))); [| done].
    by rewrite Permutation_middle. }
  assert (Forall2 (fun k co => behaves fails ready client_inv (relies k) (does k) (fun _ => always) c2 co) owners others) as Hb'.
  { rewrite Forall2_lookup in *. intros i. specialize (Hb i). inversion Hb as [k' co' Hco E1 E2|]; constructor.
    eapply behaves_still; [| exact Hco]. apply (does_relies k); [done |]. destruct k as [key|]; [right | by left]. intros <-.
    apply (Hne key); [| done]. apply elem_of_app; left. apply list_elem_of_omap. exists (Some key).
    split; [by apply list_elem_of_lookup_2 with i | done]. }
  assert (forall k', k' ∈ visit_keys (spawned c2) -> unfound k' (log c2)) as Hu'.
  { intros k' Hk'. rewrite Es in Hk'. eapply unfound_does; [by apply Hu |]. apply (does_relies k); [done |].
    right. apply Hne. by apply elem_of_app; right. }
  assert (forall i wait resume, others !! i = Some (Await wait resume) -> ready wait c2) as Hbeg'.
  { intros i wait resume Hi. apply (stable_ready wait c); [by eapply Hbeg |]. destruct Hdo as [(l & E & _) _]. by exists l. }
  assert (omap id owners ⊆ omap id (owners ++ [k])) as Hsub by (intros x Hx; rewrite omap_app; by apply elem_of_app; left).
  assert (forall b, (b = true -> fails) -> owned owners (mkWorld c2 others b)) as Hdone.
  { intros b Hf. split; cbn [client coroutines]; [done | done | | | done | done | done].
    - rewrite Es. eapply sublist_NoDup; [exact Hn |]. apply sublist_app; [| done]. rewrite omap_app. by apply sublist_inserts_r.
    - intros k' Hk'. rewrite Ed. auto. }
  destruct r as [co c1]. cbn [fst snd] in *. destruct co as [a|w resume| |]; cbn [settle] in *; try by eexists; apply Hdone.
  - exists (owners ++ [k]). split; cbn [client coroutines]; try change (begin_wait w c1) with c2;
      [done | | by rewrite Es | by rewrite Ed | done | | done].
    + apply Forall2_app; [done |]. constructor; [| constructor]. eapply behaves_later; [apply _ | exact Hb1 |].
      subst c2. cbn [client]. destruct w as [packet destination|]; [| done]. exists [Sending packet destination]. split; [done |].
      by intros ? _ q Hq%list_elem_of_singleton.
    + intros i wait resume' [Hi|[Hi Hx]]%lookup_app_Some; [by eapply Hbeg' |].
      apply list_lookup_singleton_Some in Hx as [_ [= -> ->]]. apply begin_wait_ready.
  - exists owners. apply Hdone. intros _. by inversion Hb1.
Qed.

(** What is started is taken off the list. *)
Lemma taken owners c i t : spawned c !! i = Some t ->
  omap id owners ++ visit_keys (spawned c) ≡ₚ omap id (owners ++ [task_key t]) ++ visit_keys (delete i (spawned c)).
Proof.
  intros Ht. rewrite (delete_Permutation _ _ _ Ht) at 1. unfold visit_keys. rewrite omap_app, <- app_assoc.
  f_equiv. cbn. by destruct (task_key t).
Qed.

(** A task that was spawned may start. *)
Lemma owned_ready owners w i t : owned owners w -> spawned (client w) !! i = Some t ->
  task_ready t (set_spawned (delete i (spawned (client w))) (client w)).
Proof.
  intros [Hc Hb Hn Hd Hu Hbeg Hal] Ht. apply list_elem_of_lookup_2 in Ht. destruct t as [| |p| | |]; try done.
  split; [by apply (inv_spawned (client w)) |]. apply Hu. apply list_elem_of_omap. by exists (VisitPeer p).
Qed.

Lemma owned_named owners w i t : owned owners w -> spawned (client w) !! i = Some t -> fails \/ addressed t.
Proof.
  intros [Hc _ _ _ _ _ _] Ht%list_elem_of_lookup_2. apply (inv_spawned _ Hc) in Ht.
  by destruct (explained_reason _ _ (inv_log _ Hc) Ht) as (l & _ & [? _] & _).
Qed.

Lemma world_begins w i t : world_inv w -> spawned (client w) !! i = Some t ->
  let c := set_spawned (delete i (spawned (client w))) (client w) in
  world_inv (settle (run_task keccak256 config t c) (coroutines w)).
Proof.
  intros [owners Ho] Ht c. pose proof (owned_named _ _ _ _ Ho Ht) as Hnamed. pose proof (owned_ready _ _ _ _ Ho Ht) as Hready.
  destruct Ho as [Hc Hb Hn Hd Hu Hbeg Hal]. pose proof (taken owners _ _ _ Ht) as Hp.
  assert (client_inv c) as Hc0.
  { apply inv_unspawn; [| done]. intros x Hx. by rewrite (delete_Permutation _ _ _ Ht); right. }
  assert (forall k, k ∈ omap id owners ++ visit_keys (spawned (client w)) -> k ∈ discovered_set_ (client w)) as Hall.
  { intros k [Hk|Hk]%elem_of_app; [by apply Hd | by apply visit_keys_discovered]. }
  apply (world_settles (task_key t) owners c).
  - done.
  - refine (Forall2_impl _ _ Hb). intros k co. apply behaves_still. exists []. split; [done |]. intros ? _ q Hq. by apply not_elem_of_nil in Hq.
  - change (spawned c) with (delete i (spawned (client w))). by rewrite <- Hp.
  - intros k' Hk'. change (discovered_set_ c) with (discovered_set_ (client w)). apply Hall. rewrite Hp. by apply elem_of_app; left.
  - intros k' Hk'. change (log c) with (log (client w)). apply Hu. unfold visit_keys. rewrite (delete_Permutation _ _ _ Ht).
    apply list_elem_of_omap in Hk' as (t' & Ht' & E). apply list_elem_of_omap. exists t'. split; [by right | done].
  - intros j wait resume Hj. exact (Hbeg j wait resume Hj).
  - by apply quiet_run_task.
Qed.

Lemma world_resumes w i wait resume report : world_inv w -> coroutines w !! i = Some (Await wait resume) ->
  world_inv (settle (resume report (client w)) (delete i (coroutines w))).
Proof.
  intros [owners [Hc Hb Hn Hd Hu Hbeg Hal]] Hi. destruct (Forall2_lookup_r _ _ _ _ _ Hb Hi) as (k & Hk & Hbi).
  assert (omap id owners ≡ₚ omap id (delete i owners ++ [k])) as Hp.
  { rewrite (delete_Permutation _ _ _ Hk) at 1. rewrite omap_app, Permutation_app_comm. cbn. by destruct k. }
  apply (world_settles k (delete i owners) (client w)); [done | by apply Forall2_delete | by rewrite <- Hp | | done | |].
  - intros k' Hk'. apply Hd. by rewrite Hp.
  - intros j wait' resume' Hj. destruct (decide (j < i)%nat).
    + rewrite list_lookup_delete_lt in Hj by done. by eapply Hbeg.
    + rewrite list_lookup_delete_ge in Hj by lia. by eapply Hbeg.
  - inversion Hbi as [| | |w' r' Hi1 Hi2]; subst. pose proof (Hbeg _ _ _ Hi) as Hrd.
    destruct (Hi1 report (client w)) as [Hi3 Hi4]; [done .. |]. split; [done |]. split; [done |]. by apply Hi2.
Qed.

(** No event breaks the invariant. *)
Lemma world_steps w e : world_inv w -> fine e -> world_inv (step keccak256 config w e).
Proof using texts.
  intros Hw He. unfold step. destruct (crashed w) eqn:Ecr; [done |].
  destruct e as [| |peer error|now steady|t|i|i report|r]; try (apply (world_handles w); [done | | by rewrite Ecr]).
  - apply keeps_start.
  - apply keeps_stop.
  - by apply keeps_claims.
  - by apply keeps_claims.
  - destruct (is_call t) eqn:Et; [| done]. apply (world_handles w); [done | | by rewrite Ecr].
    apply keeps_spawn; [by destruct t | by destruct He].
  - destruct (spawned (client w) !! i) as [t|] eqn:Et; [| done]. by apply world_begins.
  - destruct (coroutines w !! i) as [[a|wait resume| |]|] eqn:Ei; try done.
    destruct (can_report _ _ _); [| done]. by eapply world_resumes.
  - destruct (_ =? 0)%nat; [done |]. assert (client_inv (client w)) as Hc by by destruct Hw as [owners []].
    destruct (keeps_receive_loop r (client w) Hc (fine_received _ He)) as (c' & -> & Hk). by apply world_handles.
Qed.

(** Nothing that was shown is taken back. *)
Lemma keeps_grows c c' : client_inv c -> keeps c c' -> exists l, log c' = l ++ log c.
Proof. intros Hc Hk. destruct (Hk Hc) as [_ (l & ts & E & _)]. by exists l. Qed.

Lemma settled_grows k c r others : done_by fails ready client_inv (relies k) (does k) (fun _ => always) c r ->
  exists l, log (client (settle r others)) = l ++ log c.
Proof.
  intros (H1 & H2 & H3). destruct (settled_client r others k) as [_ Hd]; [done |].
  assert (does k c (client (settle r others))) as [(l & E & _) _] by by transitivity (snd r). by exists l.
Qed.

Lemma world_grows w e : world_inv w -> fine e -> exists l, log (client (step keccak256 config w e)) = l ++ log (client w).
Proof using texts.
  intros [owners Ho] He. pose proof (owned_client _ _ Ho) as Hc. unfold step. destruct (crashed w); [by exists [] |].
  destruct e as [| |peer error|now steady|t|i|i report|r].
  - by apply keeps_grows, keeps_start.
  - by apply keeps_grows, keeps_stop.
  - by apply keeps_grows, keeps_claims.
  - by apply keeps_grows, keeps_claims.
  - destruct (is_call t) eqn:Et; [| by exists []]. apply keeps_grows; [done |]. apply keeps_spawn; [by destruct t | by destruct He].
  - destruct (spawned (client w) !! i) as [t|] eqn:Et; [| by exists []].
    apply (settled_grows (task_key t) (set_spawned (delete i (spawned (client w))) (client w))).
    apply quiet_run_task; [by eapply owned_named | | by eapply owned_ready].
    apply inv_unspawn; [| done]. intros x Hx. by rewrite (delete_Permutation _ _ _ Et); right.
  - destruct (coroutines w !! i) as [[a|wait resume| |]|] eqn:Ei; try by exists [].
    destruct (can_report _ _ _); [| by exists []].
    destruct (Forall2_lookup_r _ _ _ _ _ (owned_behave _ _ Ho) Ei) as (k & _ & Hbi). apply (settled_grows k).
    pose proof (owned_begun _ _ Ho _ _ _ Ei) as Hrd. inversion Hbi as [| | |w' r' Hg Hr]; subst.
    destruct (Hg report (client w)) as [H1 H2]; [done .. |]. split; [done |]. split; [done |]. by apply Hr.
  - destruct (_ =? 0)%nat; [by exists [] |].
    destruct (keeps_receive_loop r (client w) Hc (fine_received _ He)) as (c' & -> & Hk). by apply keeps_grows.
Qed.

Lemma world_starts : world_inv (start_world fresh_client).
Proof.
  exists []. split; cbn; [| constructor .. | | | |]; try by intros k Hk%not_elem_of_nil.
  - split; cbn; try done; try (intros; by apply not_elem_of_nil in H1).
  - done.
  - done.
Qed.

Lemma world_runs es : Forall fine es -> world_inv (run_events keccak256 config (start_world fresh_client) es).
Proof using texts.
  intros He. unfold run_events. pose proof world_starts as Hw. revert Hw. generalize (start_world fresh_client).
  induction He as [|e es He _ IH]; intros w Hw; [done |]. cbn [fold_left]. by apply IH, world_steps.
Qed.

(** No exception leaves a coroutine, and nothing ends the process, unless they may. *)
Lemma world_alive w : world_inv w -> (crashed w = true -> fails) /\ (Uncaught ∈ log (client w) -> fails).
Proof.
  intros [owners Ho]. split; [apply (owned_alive _ _ Ho) |].
  intros Hu. by destruct (explained_reason _ _ (inv_log _ (owned_client _ _ Ho)) Hu) as (l & _ & ? & _).
Qed.

(** A spawned task names an address. *)
Lemma world_named w : world_inv w -> Forall (fun t => fails \/ addressed t) (spawned (client w)).
Proof. intros [owners Ho]. apply Forall_lookup. intros i t. by apply (owned_named owners). Qed.
End bonding.


(** ** Theorems *)

(** The peers that were reported. *)
Definition found (l : list Output) : list DiscoveredPeer :=
  omap (fun o => match o with PeerFound p => Some p | _ => None end) l.

Lemma elem_of_found l p : p ∈ found l <-> PeerFound p ∈ l.
Proof.
  unfold found. rewrite list_elem_of_omap. split; [| by intros Hp; exists (PeerFound p)].
  intros (o & Ho & E). destruct o; try done. by injection E as ->.
Qed.

Lemma calm_event_ok `{AddressText} e : calm_event e -> event_ok e.
Proof. destruct e as [| | | | | | |[]]; try done. by intros []. Qed.

Section theorems.
Context (keccak256 : bytes -> bytes) `{Secp256k1} `{AddressText} (config : discv4Config).

(** Without a condition on addresses, exceptions are allowed for. *)
Abbreviation inv := (client_inv keccak256 config True).
Lemma fine_any e : event_ok e -> fine True e.
Proof. intros He. split; [done | by left]. Qed.

Lemma explained_found l : explained keccak256 config True l ->
  NoDup (map peer_key (found l))
  /\ forall p, PeerFound p ∈ l -> neighbour_of p l /\ exists q f, Spawned (VisitPeer q) ∈ l /\ p = with_fork_id f q.
Proof.
  intros Hl. split.
  - induction l as [|o l IH]; [constructor |]. destruct Hl as [Hr Hl]. destruct o; try by apply IH. cbn. apply list.NoDup_cons.
    split; [| by apply IH]. destruct Hr as [_ Hr]. intros (q & E & Hq%elem_of_found)%list_elem_of_fmap. symmetry in E. by destruct (Hr q Hq).
  - intros p Hp. destruct (explained_reason _ _ _ _ _ Hl Hp) as (l1 & Hs1 & [(q & f & Hq & ->) _] & Hl1).
    destruct (explained_reason _ _ _ _ _ Hl1 Hq) as (l2 & Hs2 & [_ [Hn _]] & _). split.
    + by apply (neighbour_of_mono _ l2 l); [transitivity l1 |].
    + exists q, f. split; [by apply (suffix_subseteq l1) | done].
Qed.

Abbreviation history es := (client (run_events keccak256 config (start_world fresh_client) es)).

Lemma any_runs es : Forall event_ok es -> world_inv keccak256 config True (run_events keccak256 config (start_world fresh_client) es).
Proof. intros He. apply world_runs; [by left |]. revert He. apply Forall_impl, fine_any. Qed.

Lemma any_steps w e : world_inv keccak256 config True w -> event_ok e -> world_inv keccak256 config True (step keccak256 config w e).
Proof. intros Hw He. apply world_steps; [by left | done | by apply fine_any]. Qed.

Lemma any_grows w e : world_inv keccak256 config True w -> event_ok e ->
  exists l, log (client (step keccak256 config w e)) = l ++ log (client w).
Proof. intros Hw He. apply (world_grows _ _ True); [by left | done | by apply fine_any]. Qed.

Lemma history_inv es : Forall event_ok es -> inv (history es).
Proof. intros He. by destruct (any_runs es He) as [owners []]. Qed.

(** C12: in every order of events, an endpoint counts as bonded only if a ping packet came from it, or
    a pong answers a ping: a ping to that endpoint, signed with the client's key, was given to the socket
    for that endpoint's address, and after it was made a pong came from that endpoint that repeats the first
    32 octets of that very datagram, its hash; nothing else bonds. *)
Theorem bonds_have_reasons es key : Forall event_ok es ->
  key ∈ bonded_set_ (history es) -> bond_reason keccak256 config key (log (history es)).
Proof. intros He. apply (inv_bonded _ _ _ _ (history_inv es He)). Qed.

(** C28: in every order of events, the peer callback gets each endpoint at most once, and only peers that
    are nodes of a NEIGHBOURS packet: the packet came from an endpoint after the client had begun to await
    neighbours from it, the address, the two ports and the id of the peer are the fields of one node in the octets of that
    packet, and the TCP port is not 0. What is reported is what the visit was spawned with, changed at most
    in its fork id. *)
Theorem peers_reported_once es : Forall event_ok es -> let l := log (history es) in
  NoDup (map peer_key (found l))
  /\ forall p, PeerFound p ∈ l -> neighbour_of p l /\ exists q f, Spawned (VisitPeer q) ∈ l /\ p = with_fork_id f q.
Proof. intros He. apply explained_found, (inv_log _ _ _ _ (history_inv es He)). Qed.

(** C27: in every order of events, and with any number of calls at a time, a call of [ping] or
    [request_enr] that succeeds returns a reply to its own kind of request: a ping or an ENR request, signed
    with the client's key, was given to the socket for the address that was asked, and after it was made the
    reply came from that endpoint and repeats the first 32 octets of that datagram, its hash. *)
Theorem calls_return_replies es : Forall event_ok es -> let l := log (history es) in
  (forall ip port p, PingReturned ip port (Ok p) ∈ l -> pong_received keccak256 config ip port p l)
  /\ (forall ip port r, RequestEnrReturned ip port (Ok r) ∈ l -> enr_received keccak256 config ip port r l).
Proof.
  intros He l. pose proof (inv_log _ _ _ _ (history_inv es He)) as Hl. split; intros ip port x Hx;
    destruct (explained_reason _ _ _ _ _ Hl Hx) as (l' & Hs & Hr & _).
  - by apply (pong_received_mono _ _ _ _ _ l').
  - by apply (enr_received_mono _ _ _ _ _ l').
Qed.


(** the signature of a datagram is never looked at: with any 65 octets in its place the client does
    the same. [verify_packet] has no caller, so whoever knows the hash of a ping can answer it. *)
Theorem signature_never_checked hash sig sig' rest sender c :
  length hash = 32%nat -> length sig = 65%nat -> length sig' = 65%nat ->
  handle_packet keccak256 config (hash ++ sig ++ rest) sender c = handle_packet keccak256 config (hash ++ sig' ++ rest) sender c.
Proof.
  intros Hh Hs Hs'. assert (forall s, length s = 65%nat -> let data := hash ++ s ++ rest in
    len data = 97 + len rest /\ byte_at data kWirePacketTypeOffset = byte_at rest 0
    /\ drop (Z.to_nat kWireHeaderSize) data = drop 1 rest /\ take (Z.to_nat kWireHashSize) data = hash) as Hparts.
  { intros s Hl data. unfold data. rewrite (app_assoc hash). assert (length (hash ++ s) = 97%nat) as H97 by (rewrite length_app; lia).
    split_and!.
    - unfold len. rewrite length_app, H97. lia.
    - unfold byte_at. change (Z.to_nat kWirePacketTypeOffset) with 97%nat. rewrite app_nth2 by lia. by rewrite H97.
    - change (Z.to_nat kWireHeaderSize) with (97 + 1)%nat. rewrite <- drop_drop. by rewrite drop_app_length'.
    - rewrite <- app_assoc. change (Z.to_nat kWireHashSize) with 32%nat. by rewrite take_app_length'. }
  destruct (Hparts sig Hs) as (L1 & T1 & D1 & H1'). destruct (Hparts sig' Hs') as (L2 & T2 & D2 & H2').
  unfold handle_packet, handle_ping, handle_pong, handle_neighbours, handle_enr_response, parse_pong, parse_enr_response.
  by rewrite L1, L2, T1, T2, D1, D2, H1', H2'.
Qed.
End theorems.
