(* ===== verification/Discv4Exchange.v ===== *)
(** * Discv4Exchange: two clients of discovery version 4

    What the coroutines of one client and the handlers of another do together, in whatever states, and
    runs of concrete clients. Keccak-256 has 32 octets, a context is created, and both keys are secret
    keys.

    Theorems: a ping is answered ([ping_answered]); the nodes of a NEIGHBOURS packet are taken up
    ([neighbours_taken_up]); what was not asked for is dropped ([unsolicited_dropped]). Two runs end
    badly: of two pings at a time to one endpoint the first loses its reply
    ([overlapping_pings_lose_a_reply]), and a text that is no address ends the process
    ([bad_address_terminates]). *)
From S2P Require Import OpenSsl.
From S2P Require Export Discv4Bonding.
Open Scope Z_scope.

(** ** Payloads *)

Section payloads.
Context (config : discv4Config).

Definition sender_ok (sender : udp_endpoint) : Prop := is_array 4 (addr_octets sender) /\ fits 2 (addr_port sender).
Definition sender_endpoint (sender : udp_endpoint) (tcp : Z) : Endpoint := mkEndpoint (addr_octets sender) (addr_port sender) tcp.

Lemma pong_item_len ep hash now : endpoint_ok ep -> is_array 32 hash -> len (rlp (pong_item ep hash (expires_at now) [])) < 1000.
Proof.
  intros Hep Hh. pose proof (endpoint_len ep Hep). pose proof (uint_len 4 _ width4 (expires_at_fits now)).
  apply is_array_len in Hh. pose proof (rlp_str_len hash ltac:(lia)).
  pose proof (rlp_list_len [endpoint_item ep; Str hash; uint_item (expires_at now)]) as Hl. unfold pong_item.
  rewrite !rlps_cons in Hl. change (rlps []) with (@nil Z) in Hl. autorewrite with sizes in Hl. change (Z.of_nat 32) with 32 in *. lia.
Qed.

(** The pong that [handle_ping] sends. *)
Lemma pong_payload_ok now sender hash : sender_ok sender -> fits 2 (config_tcp_port config) -> is_array 32 hash ->
  pong_payload config now sender hash
  = Ok (kPacketTypePong :: rlp (pong_item (sender_endpoint sender (config_tcp_port config)) hash (expires_at now) [])).
Proof.
  intros [Hip Hp] Ht Hh. unfold pong_payload. set (ep := sender_endpoint sender (config_tcp_port config)).
  assert (endpoint_ok ep) as Hep by done. pose proof (pong_item_len ep hash now Hep Hh) as Hl.
  rewrite (run_encoder_moves _ (rlp (pong_item ep hash (expires_at now) []))); [done | | lia].
  apply appends_begin_end. rewrite !rlps_cons. change (rlps []) with (@nil Z). apply appends_bind.
  - apply appends_begin_end. rewrite rlps_cons, rlps_two. repeat (apply appends_bind; [eauto with appends |]). eauto with appends.
  - apply appends_bind; [apply is_array_len in Hh; eauto with appends |].
    apply appends_last, appends_add_integral; [apply width4 | apply expires_at_fits].
Qed.
End payloads.

(** ** A ping is answered *)

Section ping.
Context (keccak256 : bytes -> bytes) `{Secp256k1Laws} `{AddressText} `{!AddressLaws _}.
Hypothesis keccak_array : forall d, is_array 32 (keccak256 d).
Hypothesis context_created : context_create = true.

Definition config_ok (config : discv4Config) : Prop :=
  fits 2 (bind_port config) /\ fits 2 (config_tcp_port config) /\ is_Some (ec_pubkey_create (private_key config)).

Lemma new_endpoint_ok ip udp tcp : (forall a, make_address ip = Some (V4 a) -> is_array 4 a) ->
  fits 2 udp -> fits 2 tcp -> endpoint_ok (new_endpoint ip udp tcp).
Proof.
  intros Ha Hu Ht. split; [| done]. cbn. destruct (make_address ip) as [[a|a]|]; [by apply Ha | by split; [| repeat constructor] ..].
Qed.

(** The ping that a client sends: its type and its list, under a signed header. *)
Lemma ping_signed config now ip port : config_ok config -> fits 2 port ->
  (forall a, make_address (bind_ip config) = Some (V4 a) -> is_array 4 a) -> (forall a, make_address ip = Some (V4 a) -> is_array 4 a) ->
  exists header body, length header = 97%nat /\ is_array 32 (take 32 header)
  /\ empty (ping_payload now (new_ping now (bind_ip config) (bind_port config) (config_tcp_port config) ip port port)) = false
  /\ sign_packet keccak256 (private_key config)
       (ping_payload now (new_ping now (bind_ip config) (bind_port config) (config_tcp_port config) ip port port))
     = Ok (header ++ kPacketTypePing :: body).
Proof.
  intros (Hp & Ht & Hk) Hport Hb Hi. rewrite ping_payload_ok by (by apply new_endpoint_ok).
  edestruct (sign_packet_shape keccak256 (private_key config) kPacketTypePing) as (header & Hl & Hs & Ha); [done .. |].
  exists header. eexists. split_and!; [done | done | done | exact Hs].
Qed.

(** The handler of the other client answers it. *)
Lemma ping_handled config header body sender c : config_ok config -> sender_ok sender -> length header = 97%nat ->
  is_array 32 (take 32 header) ->
  exists header', length header' = 97%nat
  /\ let answer := header' ++ kPacketTypePong
       :: rlp (pong_item (sender_endpoint sender (config_tcp_port config)) (take 32 header) (expires_at (time_now c)) []) in
     handle_packet keccak256 config (header ++ kPacketTypePing :: body) sender c
     = Some (spawn (AnswerPing (sender_text sender) (addr_port sender) answer)
               (set_bonded (endpoint_key (sender_text sender) (addr_port sender)) c)).
Proof.
  intros (Hp & Ht & Hk) Hs Hl Ha. destruct (datagram_parts header kPacketTypePing body Hl) as (H1 & H2 & _).
  edestruct (sign_packet_shape keccak256 (private_key config) kPacketTypePong) as (header' & Hl' & Hs' & _); [done .. |].
  exists header'. split; [done |]. cbv zeta. unfold handle_packet, handle_ping. rewrite H1, H2.
  pose proof (len_nonneg body). rewrite (proj2 (Z.ltb_ge (98 + len body) kWireHeaderSize)) by (change kWireHeaderSize with 98; lia).
  cbv zeta. rewrite Z.eqb_refl. change (Z.to_nat kWireHashSize) with 32%nat. rewrite take_app_le by lia.
  rewrite pong_payload_ok by done. by rewrite Hs'.
Qed.

(** The pong is put into the slot of the call that waits for it. *)
Lemma pong_handled config header ep hash expires sender c n :
  length header = 97%nat -> endpoint_ok ep -> is_array 32 hash ->
  pending_replies_ c !! reply_key (sender_text sender) (addr_port sender) kPacketTypePong
    = Some (mkPending n (Some n) None hash) ->
  handle_packet keccak256 config (header ++ kPacketTypePong :: rlp (pong_item ep hash (expires_at expires) [])) sender c
  = Some (cancel n (set_pong_slot n (mkPong ep hash (expires_at expires) 0) c)).
Proof.
  intros Hl Hep Hh Hp. set (body := rlp _). destruct (datagram_parts header kPacketTypePong body Hl) as (H1 & H2 & _).
  unfold handle_packet, handle_pong. rewrite H1, H2.
  pose proof (len_nonneg body). rewrite (proj2 (Z.ltb_ge (98 + len body) kWireHeaderSize)) by (change kWireHeaderSize with 98; lia).
  cbv zeta. change (kPacketTypePong =? kPacketTypePing) with false. rewrite Z.eqb_refl.
  pose proof (pong_item_len ep hash expires Hep Hh) as Hlen. pose proof (expires_at_fits expires) as He.
  unfold body. rewrite (pong_parsed header ep hash (expires_at expires) [] 0); [| done .. | unfold fits in *; lia | by left | lia |].
  - rewrite Hp. cbn [pingHash expected_hash pong timer]. rewrite bool_decide_true by done. cbn [negb fill].
    unfold u32. rewrite (Z.mod_small (expires_at expires)) by (unfold fits in He; lia). done.
  - apply rlp_ok; [| lia]. destruct Hep as (Hip & _). by eauto 10 with octets.
Qed.

(** What the call does: it registers the ping, sends it, waits, and looks into its slot. *)
Lemma ping_runs config ip port a c header body :
  running_ c = true -> make_address ip = Some a ->
  let payload := ping_payload (time_now c)
    (new_ping (time_now c) (bind_ip config) (bind_port config) (config_tcp_port config) ip port port) in
  empty payload = false -> sign_packet keccak256 (private_key config) payload = Ok (header ++ body) ->
  (32 <= length header)%nat ->
  let n := next_slot c in let key := reply_key ip port kPacketTypePong in
  exists sent ended c1,
    ping keccak256 config ip port c = (Await (SendWait (header ++ body) (a, port)) sent, c1)
    /\ pending_replies_ c1 !! key = Some (mkPending n (Some n) None (take 32 header))
    /\ (forall c', sent None c' = (Await (TimerWait n) ended, arm n c'))
    /\ forall c' p report, pong_slots c' !! n = Some p -> expiration p <> 0 ->
         ended report c' = (Return (Ok p),
           set_bonded (endpoint_key ip port) (set_pending (delete key (pending_replies_ c')) (disarm n c'))).
Proof.
  intros Hr Ha payload He Hs Hl n key. eexists _, _, _. split_and!.
  - unfold ping, mbind, Co_bind, look. cbn [then_run]. rewrite Hr. cbn [negb then_run]. fold payload. rewrite He, Hs.
    unfold exchange, expect_reply, make_endpoint, send_packet, mbind, Co_bind, atomically. rewrite Ha. reflexivity.
  - cbn [tell set_pending pending_replies_]. rewrite lookup_insert_eq. change (Z.to_nat kWireHashSize) with 32%nat.
    by rewrite take_app_le.
  - intros c'. reflexivity.
  - intros c' p report Hp Hx. unfold forget_reply, change, look, mret, Co_ret.
    cbn [then_run pong_slots set_pending disarm set_timers]. unfold n in Hp. rewrite Hp.
    by rewrite (proj2 (Z.eqb_neq _ 0) Hx).
Qed.

(** C11: a ping between two clients. The call sends one datagram and waits; the handler of the other client
    takes it for a ping, counts the sender as bonded, and spawns a coroutine that first sends a pong back; the
    handler of the first client puts that pong into the slot of the call, in whatever state the client is
    meanwhile, as long as the request is registered; and the call, whenever its wait ends, returns that
    pong and leaves the endpoint bonded and the request unregistered. The expiration the other client
    writes must not be 0, which the caller would take for no answer. *)
Theorem ping_answered A B addr_a addr_b a b :
  config_ok A -> config_ok B -> sender_ok addr_a -> sender_ok addr_b ->
  (forall ip octets, make_address ip = Some (V4 octets) -> is_array 4 octets) ->
  running_ a = true -> expires_at (time_now b) <> 0 ->
  let ip := sender_text addr_b in let port := addr_port addr_b in let n := next_slot a in
  let key := reply_key ip port kPacketTypePong in
  exists packet answer sent ended a1,
    let p := mkPong (sender_endpoint addr_a (config_tcp_port B)) (take 32 packet) (expires_at (time_now b)) 0 in
    let registered c := pending_replies_ c !! key = Some (mkPending n (Some n) None (take 32 packet)) in
    ping keccak256 A ip port a = (Await (SendWait packet (V4 (addr_octets addr_b), port)) sent, a1)
    /\ registered a1
    /\ handle_packet keccak256 B packet addr_a b
       = Some (spawn (AnswerPing (sender_text addr_a) (addr_port addr_a) answer)
                (set_bonded (endpoint_key (sender_text addr_a) (addr_port addr_a)) b))
    /\ (forall b', exists rest,
         run_task keccak256 B (AnswerPing (sender_text addr_a) (addr_port addr_a) answer) b'
         = (Await (SendWait answer (V4 (addr_octets addr_a), addr_port addr_a)) rest, b'))
    /\ (forall a', sent None a' = (Await (TimerWait n) ended, arm n a'))
    /\ (forall a', registered a' -> handle_packet keccak256 A answer addr_b a' = Some (cancel n (set_pong_slot n p a')))
    /\ forall a' report, pong_slots a' !! n = Some p ->
         ended report a' = (Return (Ok p), set_bonded (endpoint_key ip port) (set_pending (delete key (pending_replies_ a')) (disarm n a'))).
Proof using AddressLaws0 H context_created keccak_array.
  intros HA HB Ha Hb Hv4 Hr He ip port n key.
  destruct (ping_signed A (time_now a) ip port HA ltac:(apply Hb) (Hv4 _) (Hv4 _)) as (header & body & Hl & Hh & Hne & Hs).
  assert (make_address ip = Some (V4 (addr_octets addr_b))) as Hma by (apply make_address_v4_to_string, Hb).
  destruct (ping_runs A ip port _ a header _ Hr Hma Hne Hs ltac:(lia)) as (sent & ended & a1 & Hping & Hreg & Hsent & Hend).
  destruct (ping_handled B header body addr_a b HB Ha Hl Hh) as (header' & Hl' & Hb1). cbv zeta in Hb1.
  set (packet := header ++ kPacketTypePing :: body) in *. assert (take 32 packet = take 32 header) as Hp by (apply take_app_le; lia).
  eexists packet, _, sent, ended, a1. cbv zeta. rewrite Hp. split_and!; [exact Hping | exact Hreg | exact Hb1 | | exact Hsent | |].
  - intros b'. cbn [run_task]. unfold answer_ping, make_endpoint. unfold sender_text. rewrite make_address_v4_to_string by apply Ha.
    eexists. reflexivity.
  - intros a' Hreg'. apply pong_handled; [done | | done | done].
    destruct Ha as [Ha1 Ha2], HB as (_ & Ht & _). by split.
  - intros a' report Hslot. by apply Hend.
Qed.
End ping.

(** ** Neighbours *)

(** A node of a NEIGHBOURS packet: the fields that are read, and fields that are skipped. *)
Record node := mkNode { n_ip : bytes; n_udp : Z; n_tcp : Z; n_id : bytes; n_more : list item }.
Definition node_valid (x : node) : Prop := is_array 4 (n_ip x) /\ fits 2 (n_udp x) /\ fits 2 (n_tcp x) /\ is_array 64 (n_id x).
Definition node_fields (x : node) : list item := [Str (n_ip x); uint_item (n_udp x); uint_item (n_tcp x); Str (n_id x)].
Definition node_item (x : node) : item := Lst (node_fields x ++ n_more x).
Definition node_peer (x : node) : DiscoveredPeer := mkPeer (n_id x) (dotted (n_ip x)) (n_udp x) (n_tcp x) 0 None.

Lemma skip_some_items l fuel : len (rlps l) < 2 ^ 64 -> bytes_ok (rlps l) -> (length (rlps l) < fuel)%nat ->
  skip_some fuel (rlps l) = (Ok tt, []).
Proof.
  revert fuel. induction l as [|it l IH]; intros fuel Hl Hok Hf; (destruct fuel as [|fuel]; [lia |]); [done |].
  rewrite rlps_cons in *. cbn [skip_some]. pose proof (rlp_nonempty it) as Hn.
  destruct (rlp it ++ rlps l) as [|b t] eqn:E; [apply (f_equal len) in E; len_lia |]. cbn [empty]. rewrite <- E in *.
  rewrite (reads_SkipItem it) by (done || len_lia). apply bytes_ok_app in Hok as [_ Hok].
  apply IH; [len_lia | done |]. rewrite length_app in Hf. unfold len in Hn. lia.
Qed.

(** The rest of a node is skipped, up to where the node ends. *)
Lemma skip_node_rest_items fields more rest : len (rlps more) < 2 ^ 64 -> bytes_ok (rlps more) ->
  skip_node_rest (len (fields ++ rlps more ++ rest)) (len fields + len (rlps more)) (rlps more ++ rest) = (Ok tt, rest).
Proof.
  intros Hl Hok. unfold skip_node_rest. cbv zeta.
  replace (len (fields ++ rlps more ++ rest) - len (rlps more ++ rest)) with (len fields) by len_lia.
  destruct (Z.ltb_spec (len fields) (len fields + len (rlps more))).
  - replace (Z.to_nat (len fields + len (rlps more) - len fields)) with (length (rlps more)) by (unfold len; lia).
    rewrite take_app_length. rewrite skip_some_items by (done || lia).
    by rewrite Nat.sub_0_r, drop_app_length.
  - assert (rlps more = []) as ->; [| done]. apply length_zero_iff_nil. unfold len in *. lia.
Qed.

Lemma read_sized_ok n s rest : len s = n -> len (rlp (Str s)) < 2 ^ 64 -> bytes_ok (rlp (Str s) ++ rest) ->
  read_sized n (rlp (Str s) ++ rest) = (Ok s, rest).
Proof.
  intros Hn Hl Hok. unfold read_sized. erewrite bind_ok by (by apply reads_read_bytes). by rewrite Hn, Z.eqb_refl.
Qed.

Lemma reads_node x : node_valid x -> reads read_node (rlp (node_item x)) (node_peer x).
Proof.
  intros (Hip & Hu & Ht & Hid) Hl rest Hok. unfold read_node.
  change (rlp (node_item x)) with (rlp_list (rlps (node_fields x ++ n_more x))) in *.
  erewrite bind_ok by (by apply ReadListHeaderBytes_list). erewrite bind_ok by reflexivity.
  unfold rlp_list in *. rewrite <- app_assoc in Hok. apply bytes_ok_app in Hok as [_ Hok].
  assert (len (rlps (node_fields x ++ n_more x)) < 2 ^ 64) as Hl' by len_lia. clear Hl.
  rewrite rlps_app in *. rewrite <- app_assoc in *. set (fields := rlps (node_fields x)) in *.
  assert (len (rlps (n_more x)) < 2 ^ 64) as Hlm by len_lia.
  pose proof Hok as Hok'. apply bytes_ok_app in Hok' as [_ Hm]. apply bytes_ok_app in Hm as [Hm _].
  pose proof (skip_node_rest_items fields (n_more x) rest Hlm Hm) as Hskip. rewrite <- len_app in Hskip. revert Hskip.
  generalize (len (fields ++ rlps (n_more x) ++ rest)), (len (fields ++ rlps (n_more x))). intros start node_len Hskip.
  unfold fields, node_fields in *. clear fields. rewrite !rlps_cons, <- !app_assoc in *.
  apply is_array_len in Hip, Hid.
  erewrite bind_ok by (apply read_sized_ok; [done | len_lia | done]). apply bytes_ok_app in Hok as [_ Hok].
  erewrite bind_ok by (apply reads_read_integral; [lia | done | len_lia | done]). apply bytes_ok_app in Hok as [_ Hok].
  erewrite bind_ok by (apply reads_read_integral; [lia | done | len_lia | done]). apply bytes_ok_app in Hok as [_ Hok].
  erewrite bind_ok by (apply read_sized_ok; [done | len_lia | done]).
  change (rlps []) with (@nil Z). cbn [app]. by erewrite bind_ok by exact Hskip.
Qed.

(** The nodes are taken up one after the other. *)
Definition add_nodes (nodes : list node) (c : discv4_client) : discv4_client :=
  fold_left (fun c x => add_neighbour (node_peer x) c) nodes c.

Lemma neighbours_loop_nodes nodes : Forall node_valid nodes -> forall fuel start total rest c,
  let body := rlps (map node_item nodes) in
  start - len (body ++ rest) + len body = total -> len body < 2 ^ 64 -> bytes_ok (body ++ rest) ->
  (length (body ++ rest) < fuel)%nat -> neighbours_loop fuel start total (body ++ rest) c = Some (add_nodes nodes c).
Proof.
  induction 1 as [|x nodes Hx Hnodes IH]; intros fuel start total rest c body Hs Hl Hok Hf; (destruct fuel as [|fuel]; [lia |]).
  - unfold body in *. change (rlps (map node_item [])) with (@nil Z) in *. cbn [neighbours_loop app] in *.
    destruct (empty rest); [done |]. rewrite (proj2 (Z.leb_le _ _)); [done |]. rewrite len_nil in Hs. lia.
  - unfold body in *. cbn [map] in *. rewrite rlps_cons, <- !app_assoc in *. cbn [neighbours_loop].
    pose proof (rlp_nonempty (node_item x)) as Hn. set (tail := rlps (map node_item nodes) ++ rest) in *.
    destruct (rlp (node_item x) ++ tail) as [|b t] eqn:E; [apply (f_equal len) in E; len_lia |]. cbn [empty]. rewrite <- E in *.
    pose proof (len_nonneg (rlps (map node_item nodes))).
    rewrite (proj2 (Z.leb_gt _ _)) by len_lia. rewrite (reads_node x Hx) by (done || len_lia).
    apply bytes_ok_app in Hok as [_ Hok]. cbn [add_nodes fold_left]. apply (IH fuel start total rest); [| len_lia | done |].
    + fold tail. len_lia.
    + fold tail. rewrite length_app in Hf. unfold len in Hn. lia.
Qed.

(** After a list of nodes the client knows every one with a TCP port, and has set out to visit its
    endpoint. *)
Lemma add_neighbour_grows x c : let c' := add_neighbour x c in
  running_ c' = running_ c /\ discovered_set_ c ⊆ discovered_set_ c'
  /\ (forall k, is_Some (peers_ c !! k) -> is_Some (peers_ c' !! k))
  /\ (tcp_port x <> 0 -> is_Some (peers_ c' !! node_key (node_id x))
      /\ (running_ c = true -> endpoint_key (peer_ip x) (udp_port x) ∈ discovered_set_ c')).
Proof.
  cbv zeta. unfold add_neighbour. destruct (Z.eqb_spec (tcp_port x) 0) as [E|E]; [by split_and!|]. cbv zeta. cbn [node_id peer_ip udp_port].
  set (peer := mkPeer _ _ _ _ _ _). set (c1 := set_peers _ c).
  assert (forall k, is_Some (peers_ c !! k) -> is_Some (peers_ c1 !! k)) as Hp by (intros k Hk; apply lookup_insert_is_Some'; by right).
  assert (is_Some (peers_ c1 !! node_key (node_id x))) as Hx by (cbn; rewrite lookup_insert_eq; by eexists).
  destruct (running_ c1) eqn:Hr; cbn [andb].
  - case_bool_decide as Hd; (split_and!; [done | | exact Hp | intros _; split; [exact Hx | intros _]]).
    + by apply union_subseteq_r.
    + by apply elem_of_union_l, elem_of_singleton.
    + done.
    + exact Hd.
  - split_and!; [done | done | exact Hp | intros _; split; [exact Hx | intros Hrun; change (running_ c1 = true) in Hrun; congruence]].
Qed.

Lemma add_nodes_all nodes : forall c, let c' := add_nodes nodes c in
  running_ c' = running_ c /\ discovered_set_ c ⊆ discovered_set_ c'
  /\ (forall k, is_Some (peers_ c !! k) -> is_Some (peers_ c' !! k))
  /\ (forall x, x ∈ nodes -> n_tcp x <> 0 -> is_Some (peers_ c' !! node_key (n_id x))
      /\ (running_ c = true -> endpoint_key (dotted (n_ip x)) (n_udp x) ∈ discovered_set_ c')).
Proof.
  induction nodes as [|x nodes IH]; intros c; cbv zeta; [split_and!; try done; by intros x Hx%not_elem_of_nil |].
  cbn [add_nodes fold_left]. destruct (add_neighbour_grows (node_peer x) c) as (Hr & Hd & Hp & Hx).
  destruct (IH (add_neighbour (node_peer x) c)) as (Hr' & Hd' & Hp' & Hx'). fold (add_nodes nodes (add_neighbour (node_peer x) c)).
  split_and!; [congruence | by etransitivity | auto |]. intros y [->|Hy]%elem_of_cons Hne.
  - destruct (Hx Hne) as [H1 H2]. split; [by apply Hp' |]. intros Hrun. apply Hd', H2, Hrun.
  - destruct (Hx' y Hy Hne) as [H1 H2]. split; [done |]. intros Hrun. apply H2. by rewrite Hr.
Qed.

(** a NEIGHBOURS packet from an endpoint that was asked is taken up: the wait for it ends, its nodes are
    taken up in their order, whatever fields follow in a node or in the packet; after that every node
    with a TCP port is in the peer table, and its endpoint will be visited. *)
Theorem neighbours_taken_up `{Secp256k1} `{AddressText} keccak256 config header nodes more sender c e :
  length header = 97%nat -> Forall node_valid nodes ->
  let body := rlp (Lst (Lst (map node_item nodes) :: more)) in
  len body < 2 ^ 64 -> bytes_ok body ->
  pending_replies_ c !! reply_key (sender_text sender) (addr_port sender) kPacketTypeNeighbours = Some e ->
  exists c', handle_packet keccak256 config (header ++ kPacketTypeNeighbours :: body) sender c = Some c'
  /\ c' = add_nodes nodes (cancel (timer e) c)
  /\ forall x, x ∈ nodes -> n_tcp x <> 0 -> is_Some (peers_ c' !! node_key (n_id x))
       /\ (running_ c = true -> endpoint_key (dotted (n_ip x)) (n_udp x) ∈ discovered_set_ c').
Proof.
  intros Hh Hnodes body Hl Hok Hp. exists (add_nodes nodes (cancel (timer e) c)).
  destruct (datagram_parts header kPacketTypeNeighbours body Hh) as (H1' & H2' & H3').
  split; [| split; [done |]].
  - unfold handle_packet, handle_neighbours. rewrite H1', H2', H3'. pose proof (len_nonneg body).
    rewrite (proj2 (Z.ltb_ge (98 + len body) kWireHeaderSize)) by (change kWireHeaderSize with 98; lia).
    cbv zeta. change (kPacketTypeNeighbours =? kPacketTypePing) with false. change (kPacketTypeNeighbours =? kPacketTypePong) with false.
    change (kPacketTypeNeighbours =? kPacketTypeFindNode) with false. rewrite Z.eqb_refl, Hp.
    unfold read_neighbours, body in *. set (inner := Lst (map node_item nodes)) in *.
    change (rlp (Lst (inner :: more))) with (rlp_list (rlps (inner :: more))) in *.
    rewrite <- (app_nil_r (rlp_list _)). rewrite ReadListHeaderBytes_list by done. rewrite app_nil_r.
    unfold rlp_list in *. apply bytes_ok_app in Hok as [_ Hok]. rewrite rlps_cons in *.
    change (rlp inner) with (rlp_list (rlps (map node_item nodes))) in *. rewrite ReadListHeaderBytes_list by len_lia.
    unfold rlp_list in *. rewrite <- app_assoc in Hok. apply bytes_ok_app in Hok as [_ Hok].
    apply (neighbours_loop_nodes nodes Hnodes); [lia | len_lia | done | lia].
  - destruct (add_nodes_all nodes (cancel (timer e) c)) as (_ & _ & _ & Hx). intros x Hin Hne.
    destruct (Hx x Hin Hne) as [Hs Hr]. split; [done |]. intros Hrun. apply Hr. unfold cancel. by case_decide.
Qed.

(** what was not asked for is dropped: a pong or an ENR response under no registered request or with
    another hash, neighbours from an endpoint that was not asked, and every FIND_NODE and ENR request leave
    the client as it was. *)
Theorem unsolicited_dropped `{Secp256k1} `{AddressText} keccak256 config data sender c : bytes_ok data ->
  let type := byte_at data kWirePacketTypeOffset in
  let waiting t := pending_replies_ c !! reply_key (sender_text sender) (addr_port sender) t in
  type = kPacketTypePong /\ (forall e p, waiting kPacketTypePong = Some e -> parse_pong data = Ok p -> pingHash p <> expected_hash e)
  \/ type = kPacketTypeEnrResponse
     /\ (forall e r, waiting kPacketTypeEnrResponse = Some e -> parse_enr_response data = Ok r -> request_hash r <> expected_hash e)
  \/ type = kPacketTypeNeighbours /\ waiting kPacketTypeNeighbours = None
  \/ type = kPacketTypeFindNode \/ type = kPacketTypeEnrRequest ->
  handle_packet keccak256 config data sender c = Some c.
Proof.
  cbv zeta. intros Hok Ht. destruct (discv4_parsers_total data (mkEnrResponse [] []) Hok ltac:(constructor)) as (Hd1 & Hd2 & _).
  unfold handle_packet. destruct (_ <? _) eqn:El; [done |]. cbv zeta.
  destruct Ht as [[-> Hp]|[[-> Hp]|[[-> Hp]|[-> | ->]]]]; cbn [Z.eqb Pos.eqb kPacketTypePong kPacketTypePing kPacketTypeFindNode
    kPacketTypeNeighbours kPacketTypeEnrRequest kPacketTypeEnrResponse]; [| | | done | done].
  - unfold handle_pong. rewrite El. destruct (parse_pong data) as [p|e|]; [| done | done].
    destruct (pending_replies_ c !! _) as [e|]; [| done]. by rewrite bool_decide_false by eauto.
  - unfold handle_enr_response. rewrite El. destruct (parse_enr_response data) as [p|e|]; [| done ..].
    destruct (pending_replies_ c !! _) as [e|]; [| done]. by rewrite bool_decide_false by eauto.
  - unfold handle_neighbours. by rewrite El, Hp.
Qed.

(** ** Concrete runs *)

Module Toy.
#[export] Existing Instance ToySecp.toy.
#[export] Existing Instance ToySecp.toy_laws.
#[export] Existing Instance DottedText.text.
#[export] Existing Instance DottedText.laws.

#[export] Instance dotted_law : DottedLaw DottedText.text.
Proof. intros a Ha. exists (V4 a). exact (DottedText.laws a Ha). Qed.

Definition config (host key : Z) : discv4Config :=
  mkConfig (dotted [10; 0; 0; host]) 30303 30303 (repeat key 32) (repeat key 64)
    kDefaultPingTimeout kDefaultPeerExpiry.
Definition host_a : udp_endpoint := mkAddr [10; 0; 0; 1] 30303.
Definition host_b : udp_endpoint := mkAddr [10; 0; 0; 2] 30303.
Abbreviation run c w es := (run_events ToySsl.digest c w es).
Definition initial : world := start_world fresh_client.

(** What the first coroutine sends. *)
Definition sending (w : world) : bytes := match coroutines w with Await (SendWait p _) _ :: _ => p | _ => [] end.

(** The client starts, its clock is set, and the user calls. *)
Definition calling (t : Task) : list Event := [Start; Begin 0; SetCallbacks true true; Tick 1000 5; Call t; Begin 0].
Definition ping_b : list Event := calling (CallPing (sender_text host_b) 30303).
Definition answered_by_b (ping : bytes) : list Event :=
  [Start; Begin 0; Tick 1000 5; Receive (Datagram ping host_a); Begin 0].

(** A pings B; the wait ends because the pong has come. *)
Definition the_ping : bytes := Eval vm_compute in sending (run (config 1 1) initial ping_b).
Definition the_pong : bytes := Eval vm_compute in sending (run (config 2 2) initial (answered_by_b the_ping)).
Definition bonding : list Event := ping_b ++ [Resume 0 None; Receive (Datagram the_pong host_b); Resume 0 (Some [])].

(** A asks B for its neighbours while B counts as bonded, gets a peer under a forged header, and visits
    it: no send succeeds, and the peer is reported without a fork id. *)
Definition a_node : node := mkNode [10; 0; 0; 9] 30303 30303 (repeat 7 64) [].
Definition forged_neighbours : bytes :=
  Eval vm_compute in repeat 0 97 ++ kPacketTypeNeighbours :: rlp (Lst [Lst [node_item a_node]; uint_item 2000]).
Definition crawling : list Event :=
  bonding ++ [Call (CallFindNode (sender_text host_b) 30303 (repeat 1 64)); Begin 0; Resume 0 None;
              Receive (Datagram forged_neighbours host_b); Begin 0; Resume 1 (Some []); Resume 1 (Some [])].

Lemma events_ok (es : list Event) :
  forallb (fun e => match e with Receive (Datagram d s) => bool_decide (bytes_ok d) && bool_decide (is_array 4 (addr_octets s))
                    | Call t => match t with CallPing ip _ | CallFindNode ip _ _ => bool_decide (is_Some (make_address ip)) | _ => false end
                    | _ => true end) es = true -> Forall calm_event es.
Proof.
  rewrite forallb_forall, list.Forall_forall. intros H e He%list_elem_of_In. specialize (H e He).
  destruct e as [| |? ?|? ?|t|?|? ?|[d s| |]]; try done.
  - destruct t; try done; by apply bool_decide_eq_true in H.
  - apply andb_true_iff in H as [H1 H2]. by apply bool_decide_eq_true in H1, H2.
Qed.
End Toy.

(** The events of a run that is calm are well formed. *)
Lemma calm_events_ok `{AddressText} es : Forall calm_event es -> Forall event_ok es.
Proof. apply Forall_impl. intros e. apply calm_event_ok. Qed.

Import Toy.

Lemma bonds_have_reasons_witness :
  let c := client (run (config 1 1) initial bonding) in let key := endpoint_key (sender_text host_b) 30303 in
  key ∈ bonded_set_ c /\ bond_reason ToySsl.digest (config 1 1) key (log c).
Proof.
  assert (endpoint_key (sender_text host_b) 30303 ∈ bonded_set_ (client (run (config 1 1) initial bonding))) as Hk
    by (apply (bool_decide_unpack _); vm_compute; exact I).
  split; [exact Hk |]. refine (bonds_have_reasons ToySsl.digest (config 1 1) bonding _ _ Hk).
  apply calm_events_ok, events_ok. vm_compute. reflexivity.
Defined.

Lemma calls_return_replies_witness :
  let l := log (client (run (config 1 1) initial bonding)) in
  (exists p, PingReturned (sender_text host_b) 30303 (Ok p) ∈ l)
  /\ forall p, PingReturned (sender_text host_b) 30303 (Ok p) ∈ l ->
       pong_received ToySsl.digest (config 1 1) (sender_text host_b) 30303 p l.
Proof.
  split.
  - eexists. assert (forall (o : Output) l, head l = Some o -> o ∈ l) as Hh by (intros o [|x l] [= ->]; by left). apply Hh. vm_compute. reflexivity.
  - intros p. apply (calls_return_replies ToySsl.digest (config 1 1) bonding).
    apply calm_events_ok, events_ok. vm_compute. reflexivity.
Defined.

(** One peer was reported. *)
Lemma peers_reported_once_witness :
  let l := log (client (run (config 1 1) initial crawling)) in
  map peer_key (found l) = [endpoint_key (dotted [10; 0; 0; 9]) 30303] /\ NoDup (map peer_key (found l))
  /\ forall p, PeerFound p ∈ l -> neighbour_of p l.
Proof.
  split; [vm_compute; reflexivity |]. edestruct (peers_reported_once ToySsl.digest (config 1 1) crawling) as [Hn Hp].
  - apply calm_events_ok, events_ok. vm_compute. reflexivity.
  - split; [exact Hn |]. intros p Hin. apply (Hp p Hin).
Defined.


Lemma toy_config_ok host key : config_ok (config host key).
Proof. split_and!; [done | done |]. apply seckey_pubkey. by apply bool_decide_eq_true. Qed.

Lemma dotted_v4 ip octets : DottedText.parse ip = Some (V4 octets) -> is_array 4 octets.
Proof.
  unfold DottedText.parse. case_match eqn:E; [| by case_match]. intros [= <-].
  apply andb_true_iff in E as [[H1 H2]%andb_true_iff _]. apply bool_decide_eq_true in H1, H2. by split.
Qed.

Lemma ping_answered_witness :
  let a := client (run (config 1 1) initial [Start; Tick 1000 5]) in let b := client (run (config 2 2) initial [Start; Tick 1000 5]) in
  exists packet sent a1, ping ToySsl.digest (config 1 1) (sender_text host_b) 30303 a
    = (Await (SendWait packet (V4 [10; 0; 0; 2], 30303)) sent, a1) /\ packet = the_ping.
Proof.
  cbv zeta. edestruct (ping_answered ToySsl.digest) with (A := config 1 1) (B := config 2 2) (addr_a := host_a) (addr_b := host_b)
    (a := client (run (config 1 1) initial [Start; Tick 1000 5])) (b := client (run (config 2 2) initial [Start; Tick 1000 5]))
    as (packet & answer & sent & ended & a1 & Hping & _).
  - apply ToySsl.digest_array.
  - reflexivity.
  - apply toy_config_ok.
  - apply toy_config_ok.
  - split; [split; [reflexivity | by repeat constructor] | done].
  - split; [split; [reflexivity | by repeat constructor] | done].
  - exact dotted_v4.
  - reflexivity.
  - vm_compute. discriminate.
  - exists packet, sent, a1. split; [exact Hping |].
    apply (f_equal (fun r => match fst r with Await (SendWait p _) _ => p | _ => [] end)) in Hping. cbn [fst] in Hping.
    rewrite <- Hping. vm_compute. reflexivity.
Defined.

Lemma neighbours_taken_up_witness : exists c', is_Some (peers_ c' !! node_key (repeat 7 64))
  /\ exists c, handle_packet ToySsl.digest (config 1 1) forged_neighbours host_b c = Some c'.
Proof.
  set (c := set_pending (<[reply_key (sender_text host_b) 30303 kPacketTypeNeighbours := mkPending 0 None None []]> ∅) fresh_client).
  destruct (neighbours_taken_up ToySsl.digest (config 1 1) (repeat 0 97) [a_node] [uint_item 2000] host_b c (mkPending 0 None None []))
    as (c' & E & _ & Hx).
  - reflexivity.
  - constructor; [| constructor]. split_and!; first [done | by split; [| repeat constructor]].
  - vm_compute. reflexivity.
  - apply (bool_decide_unpack _). vm_compute. exact I.
  - vm_compute. reflexivity.
  - exists c'. split; [apply (Hx a_node); [by left | done] |]. exists c. exact E.
Defined.

Lemma unsolicited_dropped_witness :
  handle_packet ToySsl.digest (config 1 1) the_pong host_b fresh_client = Some fresh_client.
Proof. apply unsolicited_dropped; [apply (bool_decide_unpack _); vm_compute; exact I |]. left. split; [vm_compute; reflexivity |]. intros e p He.
  change (pending_replies_ fresh_client) with (∅ : gmap bytes PendingReply) in He. rewrite lookup_empty in He.
  discriminate He.
Defined.

Lemma signature_never_checked_witness :
  handle_packet ToySsl.digest (config 1 1) (repeat 0 32 ++ repeat 1 65 ++ [kPacketTypePing]) host_b fresh_client
  = handle_packet ToySsl.digest (config 1 1) (repeat 0 32 ++ repeat 2 65 ++ [kPacketTypePing]) host_b fresh_client.
Proof. apply signature_never_checked; reflexivity. Defined.

(** Two calls of [ping] for one endpoint at a time: the second one replaces the request of the first, so the
    pong that answers the first is dropped, and the first call times out although it was answered. *)
Definition two_pings : list Event :=
  ping_b ++ [Tick 1001 6; Call (CallPing (sender_text host_b) 30303); Begin 0; Resume 0 None; Resume 0 None;
             Receive (Datagram the_pong host_b); Resume 0 None].
Example overlapping_pings_lose_a_reply :
  head (log (client (run (config 1 1) initial two_pings))) = Some (PingReturned (sender_text host_b) 30303 (Err kPongTimeout)).
Proof. vm_compute. reflexivity. Qed.

(** [find_node] with a text that is no address ends the process: the exception of [make_address] leaves
    [ensure_bond]. *)
Example bad_address_terminates :
  crashed (run (config 1 1) initial (calling (CallFindNode [120] 30303 (repeat 1 64)))) = true.
Proof. vm_compute. reflexivity. Qed.
