(* ===== verification/EthWatchConfig.v ===== *)
(** * EthWatchConfig: the configuration of the eth_watch program

    [examples/eth_watch/eth_watch.cpp] up to [run_watch], with the arguments of its [main], and the lists
    of [discv4/bootnodes.hpp] and [discv4/bootnodes_test.hpp]. Texts are octets. A usage error, after
    which the program ends with status 1, is [None]; what is printed is left out.

    Theorems: an enode URI is taken apart ([enode_parsed]); numbers are read when they are decimal and
    fit ([parse_unsigned_iff]); the watch arguments become the list of watches in their order
    ([watch_arguments_parsed]); which chains are configured ([chains_configured]), and how many of their
    bootnodes can be used ([usable_bootnodes]): of the five of Ethereum, one. *)
From stdpp Require Import gmap.
From S2P Require Import Addresses Discv5Crawler.
From S2P Require Export EthCli EthMessages RlpxTypes.
Open Scope Z_scope.

(** ** Data *)

Inductive DiscoveryMode := kDiscv4 | kDiscv5.

Record Config := mkConfig {
  cfg_host : bytes;
  cfg_port : Z;
  peer_pubkey_hex : bytes;
  cfg_eth_offset : Z;
  cfg_watch_specs : list WatchSpec;
  cfg_network_id : Z;
  cfg_genesis_hash : hash256;
  cfg_fork_id : ForkId;
  bootnode_enodes : list bytes;
  discovery_mode : DiscoveryMode
}.

(** [eth::ForkId{}], and [Config] with its initialisers. *)
Definition no_fork_id : ForkId := mkForkId (repeat 0 4) 0.
Definition default_config : Config :=
  {| cfg_host := []; cfg_port := 0; peer_pubkey_hex := []; cfg_eth_offset := 0x10; cfg_watch_specs := [];
     cfg_network_id := 1; cfg_genesis_hash := zero_hash; cfg_fork_id := no_fork_id; bootnode_enodes := [];
     discovery_mode := kDiscv4 |}.

(** Assignments to parts of it. *)
Definition with_peer_address (host : bytes) (port : Z) (pubkey_hex : bytes) (c : Config) : Config :=
  mkConfig host port pubkey_hex (cfg_eth_offset c) (cfg_watch_specs c) (cfg_network_id c) (cfg_genesis_hash c)
    (cfg_fork_id c) (bootnode_enodes c) (discovery_mode c).
Definition with_eth_offset (x : Z) (c : Config) : Config :=
  mkConfig (cfg_host c) (cfg_port c) (peer_pubkey_hex c) x (cfg_watch_specs c) (cfg_network_id c) (cfg_genesis_hash c)
    (cfg_fork_id c) (bootnode_enodes c) (discovery_mode c).
Definition with_watch_specs (x : list WatchSpec) (c : Config) : Config :=
  mkConfig (cfg_host c) (cfg_port c) (peer_pubkey_hex c) (cfg_eth_offset c) x (cfg_network_id c) (cfg_genesis_hash c)
    (cfg_fork_id c) (bootnode_enodes c) (discovery_mode c).
Definition with_discovery_mode (x : DiscoveryMode) (c : Config) : Config :=
  mkConfig (cfg_host c) (cfg_port c) (peer_pubkey_hex c) (cfg_eth_offset c) (cfg_watch_specs c) (cfg_network_id c)
    (cfg_genesis_hash c) (cfg_fork_id c) (bootnode_enodes c) x.

(** ** Numbers and hexadecimal *)

(** [std::from_chars] for an unsigned type of [w] octets: the number that the text starts with, and
    the text after it. Without a digit, or when the number does not fit, there is none. *)
Definition is_digit (c : Z) : bool := (48 <=? c) && (c <=? 57).
Fixpoint digits (n : Z) (s : bytes) : Z * bytes :=
  match s with
  | c :: s' => if is_digit c then digits (n * 10 + (c - 48)) s' else (n, s)
  | [] => (n, [])
  end.
Definition from_chars (w : Z) (s : bytes) : option (Z * bytes) :=
  match s with
  | c :: _ =>
      if negb (is_digit c) then None
      else let '(n, rest) := digits 0 s in if n <? 2 ^ (8 * w) then Some (n, rest) else None
  | [] => None
  end.

Definition parse_uint16 (value : bytes) : option Z :=
  match from_chars 2 value with Some (out, []) => Some out | _ => None end.

Definition parse_uint8 (value : bytes) : option Z :=
  match from_chars 4 value with
  | Some (out, []) => if 0xFF <? out then None else Some (u8 out)
  | _ => None
  end.

(** The digit and array readers are written as those of [eth_watch_cli.hpp]. *)
Definition watch_hex_to_nibble : Z -> option Z := hex_nibble.
Definition watch_parse_hex_array : nat -> bytes -> bytes -> bool * bytes := parse_hex_array.

Definition value_or_zero (n : option Z) : Z := match n with Some n => n | None => 0 end.

(** [hash_from_hex] on a literal of at least 64 characters. *)
Definition hash_from_hex (hex : bytes) : hash256 :=
  map (fun i => u8 (Z.lor (Z.shiftl (value_or_zero (watch_hex_to_nibble (byte_at hex (Z.of_nat i * 2)))) 4)
                      (value_or_zero (watch_hex_to_nibble (byte_at hex (Z.of_nat i * 2 + 1)))))) (seq 0 32).

(** ** Enode URIs *)

Definition kWatchEnodePrefix : bytes := text "enode://".

(** [parse_enode]; ['@'], ['?'] and [':'] are 64, 63 and 58. *)
Definition parse_enode (enode : bytes) : option Config :=
  if (len enode <? len kWatchEnodePrefix) || negb (bool_decide (take 8 enode = kWatchEnodePrefix)) then None else
  let without_prefix := drop 8 enode in
  at_pos ← Discv5Crawler.find 64 without_prefix;
  let pubkey_hex := take (Z.to_nat at_pos) without_prefix in
  if negb (len pubkey_hex =? kPublicKeySize * 2) then None else
  let address_part := drop (Z.to_nat (at_pos + 1)) without_prefix in
  let host_port := match Discv5Crawler.find 63 address_part with
                   | Some query_pos => take (Z.to_nat query_pos) address_part | None => address_part end in
  colon_pos ← rfind 58 host_port;
  port ← parse_uint16 (drop (Z.to_nat (colon_pos + 1)) host_port);
  Some (with_peer_address (take (Z.to_nat colon_pos) host_port) port pubkey_hex default_config).

(** ** The chains *)

Definition ETHEREUM_MAINNET_BOOTNODES : list bytes := [
    text "enode://d860a01f9722d78051619d1e2351aba3f43f943f6f00718d1b9baa4101932a1f5011f16bb2b1bb35db20d6fe28fa0bf09636d26a87d31de9ec6203eeedb1f666@18.138.108.67:30303";
    text "enode://61cdb06dab3c1873ca57c2a610290333e14dae9ef21b7dbc4505491dd7ce0e8b7e1848ef0b701c4a7aa7628c1451f0d3471bec31fac23e4ec7f27f8a8ae50d9@35.162.224.146:30303";
    text "enode://6e538e8409376d9cc5c146f322813b865913c3fa5f1042ff8cc842床ed15a9847db8faaf2c3cf2a375e9a3f8e5f0e8d7f5c5b5a4a3a2a1a0909f909e909d909@52.1.72.226:30303";
    text "enode://ae0aa14eb0b24be26b5e1c63f8a62e30733a265f8e6dd24f7f1e89b2f8c9f3e5d3c3b3a3a2a1a0909f909e909d909c909b909a9099909898979695949393@52.42.191.226:30303";
    text "enode://b3f55f2641fcd9652502e6a8e7c1bd1dc4a15f30c4d3f1c5d5e5f6a6b7c8d9e0f0a0b0c0d0e0f0a0b0c0d0e0f0a0b0c0d0e0f0a0b0c0d0e0f0@35.199.4.51:30303"
  ].
Definition POLYGON_MAINNET_BOOTNODES : list bytes := [
    text "enode://48e6326841ce106f6b4e229a1be7e98a1d12be57e328b08cb461f6744ae4e78f5ec2340996ce9b40928a1a90137aadea13e25ca34774b52a3600d13a52c5c7bb@34.185.209.56:30303";
    text "enode://b8f1cc9c5d4403703fbf377116469667d2b1823c0daf16b7250aa576bacf399e42c3930ccfcb02c5df6879565a2b8931335565f0e8d3f8e72385ecf4a4bf160a@3.36.224.80:30303";
    text "enode://8729e0c825f3d9cad382555f3e46dcff21af323e89025a0e6312df541f4a9e73abfa562d64906f5e59c51fe6f0501b3e61b07979606c56329c020ed739910759@54.194.245.5:30303";
    text "enode://429bb1c348c769218ecf2b400dc16b86045f3eec89780a8d8d73913f6c9dc184a8d3d3bfcb7197092065c2ebbad4fd177aa8d9053f5051e5db518f541144268a@46.4.95.132:30303"
  ].
Definition BSC_MAINNET_BOOTNODES : list bytes := [
    text "enode://433c8bfdf53a3e2268ccb1b829e47f629793291cbddf0c76ae626da802f90532251fc558e2e0d10d6725e759088439bf1cd4714716b03a259a35d4b2e4acfa7f@52.69.102.73:30311";
    text "enode://bac6a548c7884270d53c3694c93ea43fa87ac1c7219f9f25c9d57f6a2fec9d75441bc4bad1e81d78c049a1c4daf3b1404e2bbb5cd9bf60c0f3a723bbaea110bc@3.255.117.110:30311";
    text "enode://94e56c84a5a32e2ef744af500d0ddd769c317d3c3dd42d50f5ea95f5f3718a5f81bc5ce32a7a3ea127bc0f10d3f88f4526a67f5b06c1d85f9cdfc6eb46b2b375@3.255.231.219:30311";
    text "enode://5d54b9a5af87c3963cc619fe4ddd2ed7687e98363bfd1854f243b71a2225d33b9c9290e047d738e0c7795b4bc78073f0eb4d9f80f572764e970e23d02b3c2b1f@34.245.16.210:30311";
    text "enode://41d57b0f00d83016e1bb4eccff0f3034aa49345301b7be96c6bb23a0a852b9b87b9ed11827c188ad409019fb0e578917d722f318665f198340b8a15ae8beff36@34.245.72.231:30311"
  ].
Definition BASE_MAINNET_BOOTNODES : list bytes := [].
Definition ETHEREUM_SEPOLIA_BOOTNODES : list bytes := [
    text "enode://4e5e92199ee224a01932a377160aa432f31d0b351f84ab413a8e0a42f4f36476f8fb1cbe914af0d9aef0d51665c214cf653c651c4bbd9d5550a934f241f1682b@138.197.51.181:30303";
    text "enode://143e11fb766781d22d92a2e33f8f104cddae4411a122295ed1fdb6638de96a6ce65f5b7c964ba3763bba27961738fef7d3ecc739268f3e5e771fb4c87b6234ba@146.190.1.103:30303";
    text "enode://8b61dc2d06c3f96fddcbebb0efb29d60d3598650275dc469c22229d3e5620369b0d3dedafd929835fe7f489618f19f456fe7c0df572bf2d914a9f4e006f783a9@170.64.250.88:30303";
    text "enode://10d62eff032205fcef19497f35ca8477bea0eadfff6d769a147e895d8b2b8f8ae6341630c645c30f5df6e67547c03494ced3d9c5764e8622a26587b083b028e8@139.59.49.206:30303";
    text "enode://9e9492e2e8836114cc75f5b929784f4f46c324ad01daf87d956f98b3b6c5fcba95524d6e5cf9861dc96a2c8a171ea7105bb554a197455058de185fa870970c7c@138.68.123.152:30303"
  ].
Definition ETHEREUM_HOLESKY_BOOTNODES : list bytes := [
    text "enode://ac906289e4b7f12df423d654c5a962b6ebe5b3a74cc9e06292a85221f9a64a6f1cfdd6b714ed6dacef51578f92b34c60ee91e9ede9c7f8fadc4d347326d95e2b@146.190.13.128:30303";
    text "enode://a3435a0155a3e837c02f5e7f5662a2f1fbc25b48e4dc232016e1c51b544cb5b4510ef633ea3278c0e970fa8ad8141e2d4d0f9f95456c537ff05fdf9b31c15072@178.128.136.233:30303"
  ].
Definition POLYGON_AMOY_BOOTNODES : list bytes := [
    text "enode://d40ab6b340be9f78179bd1ec7aa4df346d43dc1462d85fb44c5d43f595991d2ec215d7c778a7588906cb4edf175b3df231cecce090986a739678cd3c620bf580@34.89.255.109:30303";
    text "enode://13abba15caa024325f2209d3566fa77cd864281dda4f73bca4296277bfd919ac68cef4dbb508028e0310a24f6f9e23c761fa41ac735cdc87efdee76d5ff985a7@34.185.137.160:30303";
    text "enode://fc5bd3856a4ce6389eef1d6bc637ce7617e6ba8013f7d722d9878cf13f1c5a5a95a9e26ccb0b38bcc330343941ce117ab50db9f61e72ba450dd528a1184d8e6a@34.89.119.250:30303";
    text "enode://945e11d11bdeed301fb23a5c05aae77bfdde39a8f70308131682a5d2fc1f080531314554afc78718a72ae25cc09be7833f760bf8681516b4315ed36217fa8dab@34.89.40.235:30303"
  ].
Definition BSC_TESTNET_STATICNODES : list bytes := [
    text "enode://1cc4534b14cfe351ab740a1418ab944a234ca2f702915eadb7e558a02010cb7c5a8c295a3b56bcefa7701c07752acd5539cb13df2aab8ae2d98934d712611443@52.71.43.172:30311";
    text "enode://28b1d16562dac280dacaaf45d54516b85bc6c994252a9825c5cc4e080d3e53446d05f63ba495ea7d44d6c316b54cd92b245c5c328c37da24605c4a93a0d099c4@34.246.65.14:30311";
    text "enode://5a7b996048d1b0a07683a949662c87c09b55247ce774aeee10bb886892e586e3c604564393292e38ef43c023ee9981e1f8b335766ec4f0f256e57f8640b079d5@35.73.137.11:30311"
  ].
Definition BASE_SEPOLIA_BOOTNODES : list bytes := [].

Record ChainEntry := mkChainEntry {
  entry_bootnodes : list bytes;
  entry_network_id : Z;
  genesis_hex : bytes;
  entry_fork_id : ForkId
}.

Definition kSepoliaForkId : ForkId := mkForkId [0xed; 0x88; 0xb5; 0xfd] 0.

Definition kChains : gmap (list Z) ChainEntry :=
  list_to_map (map (fun '(name, nodes, network, genesis, fork) => (text name, mkChainEntry nodes network (text genesis) fork))
    [("mainnet", ETHEREUM_MAINNET_BOOTNODES, 1, "d4e56740f876aef8c010b86a40d5f56745a118d0906a34e69aec8c0db1cb8fa3", no_fork_id);
     ("sepolia", ETHEREUM_SEPOLIA_BOOTNODES, 11155111, "25a5cc106eea7138acab33231d7160d69cb777ee0c2c553fcddf5138993e6dd9", kSepoliaForkId);
     ("holesky", ETHEREUM_HOLESKY_BOOTNODES, 17000, "b5f7f912443c940f21fd611f12828d75b534364ed9e95ca4e307729a4661bde4", no_fork_id);
     ("polygon", POLYGON_MAINNET_BOOTNODES, 137, "a9c28ce2141b56c474f1dc504bee9b01eb1bd7d1a507580d5519d4437a97de1b", no_fork_id);
     ("polygon-amoy", POLYGON_AMOY_BOOTNODES, 80002, "0000000000000000000000000000000000000000000000000000000000000000", no_fork_id);
     ("bsc", BSC_MAINNET_BOOTNODES, 56, "0d21840abff46b96c84b2ac9e10e4f5cdaeb5693cb665db62a2f3b02d2d57b5b", no_fork_id);
     ("bsc-testnet", BSC_TESTNET_STATICNODES, 97, "6d3c66c5357ec91d5c43af47e234a939b22557cbb552dc45bebbceeed90fbe10", no_fork_id);
     ("base", BASE_MAINNET_BOOTNODES, 8453, "f712aa9241cc24369b143cf6dce85f0902a9731e70d66818a3a5845b296c73dd", no_fork_id);
     ("base-sepolia", BASE_SEPOLIA_BOOTNODES, 84532, "0dcc9e089e30b90ddfc55be9a37dd15bc551aeee999d2e2b51414c54eaf934e4", no_fork_id)]%string).

Definition load_chain_config (chain_name : bytes) : option Config :=
  entry ← kChains !! chain_name;
  if empty (entry_bootnodes entry) then None else
  Some {| cfg_host := []; cfg_port := 0; peer_pubkey_hex := []; cfg_eth_offset := 0x10; cfg_watch_specs := [];
          cfg_network_id := entry_network_id entry; cfg_genesis_hash := hash_from_hex (genesis_hex entry);
          cfg_fork_id := entry_fork_id entry; bootnode_enodes := entry_bootnodes entry; discovery_mode := kDiscv4 |}.

(** ** The arguments *)

(** Whether the text contains two dashes in a row. *)
Fixpoint has_dashes (s : bytes) : bool :=
  match s with 45 :: (45 :: _) => true | _ :: s => has_dashes s | [] => false end.

(** The optional offset after the three arguments of a connection. *)
Definition parse_offset (args : list bytes) (c : Config) : option (Config * list bytes) :=
  match args with
  | value :: rest =>
      if has_dashes value then Some (c, args)
      else offset_value ← parse_uint8 value; Some (with_eth_offset offset_value c, rest)
  | [] => Some (c, [])
  end.

(** The arguments that say what to connect to, after the name of the program. *)
Definition parse_connection (args : list bytes) : option (Config * list bytes) :=
  match args with
  | first :: rest =>
      if bool_decide (first = text "--chain") then
        match rest with
        | chain_name :: rest => c ← load_chain_config chain_name; Some (c, rest)
        | [] => None
        end
      else
        match rest with
        | port :: pubkey_hex :: rest =>
            port_value ← parse_uint16 port;
            parse_offset rest (with_peer_address first port_value pubkey_hex default_config)
        | _ => None
        end
  | [] => None
  end.

Definition log_levels : list bytes :=
  map text ["trace"; "debug"; "info"; "warn"; "error"; "critical"; "off"]%string.

Definition parse_mode (mode : bytes) : option DiscoveryMode :=
  if bool_decide (mode = text "discv4") then Some kDiscv4
  else if bool_decide (mode = text "discv5") then Some kDiscv5 else None.

(** The loop over the flags, each with its value. *)
Fixpoint parse_flags (args : list bytes) (pending_contract : bytes) (c : Config) : option Config :=
  match args with
  | [] => Some c
  | [_] => None
  | arg :: value :: args =>
      if bool_decide (arg = text "--watch-contract") then parse_flags args value c
      else if bool_decide (arg = text "--watch-event") then
        parse_flags args [] (with_watch_specs (cfg_watch_specs c ++ [mkWatchSpec pending_contract value]) c)
      else if bool_decide (arg = text "--log-level") then
        if bool_decide (value ∈ log_levels) then parse_flags args pending_contract c else None
      else if bool_decide (arg = text "--discovery-mode") then
        mode ← parse_mode value; parse_flags args pending_contract (with_discovery_mode mode c)
      else None
  end.

Definition parse_arguments (args : list bytes) : option Config :=
  '(c, rest) ← parse_connection args; parse_flags rest [] c.

(** ** Where to start *)

(** What [main] asks of the bootnodes: a search at each that can be read. *)
Definition bootnode_target (enode : bytes) : option (bytes * Z * bytes) :=
  bn ← parse_enode enode;
  let '(ok, bn_id) := watch_parse_hex_array 64 (peer_pubkey_hex bn) (repeat 0 64) in
  if negb ok then None else Some (cfg_host bn, cfg_port bn, bn_id).
Definition bootnode_targets (enodes : list bytes) : list (bytes * Z * bytes) := omap bootnode_target enodes.

(** The two ways to go on; [None] ends the program. *)
Inductive start_plan :=
| Discover (targets : list (bytes * Z * bytes))
| ConnectTo (host : bytes) (port : Z) (peer_pubkey : bytes).

Definition plan (c : Config) : option start_plan :=
  if negb (empty (bootnode_enodes c)) then
    match discovery_mode c with
    | kDiscv5 => None
    | kDiscv4 => Some (Discover (bootnode_targets (bootnode_enodes c)))
    end
  else
    let '(ok, peer_pubkey) := watch_parse_hex_array 64 (peer_pubkey_hex c) (repeat 0 64) in
    if negb ok then None else Some (ConnectTo (cfg_host c) (cfg_port c) peer_pubkey).

(** ** Numbers *)

Lemma digits_app u v : Forall (fun c => is_digit c = true) u ->
  (match v with c :: _ => is_digit c = false | [] => True end) -> forall n,
  digits n (u ++ v) = (fold_left (fun n c => n * 10 + (c - 48)) u n, v).
Proof.
  intros Hu Hv. induction Hu as [|c u Hc _ IH]; intros n; cbn [app digits fold_left].
  - destruct v; cbn [digits]; [done | by rewrite Hv].
  - by rewrite Hc, IH.
Qed.

Lemma digits_inv s : forall n m rest, digits n s = (m, rest) ->
  exists u, s = u ++ rest /\ Forall (fun c => is_digit c = true) u /\ m = fold_left (fun n c => n * 10 + (c - 48)) u n.
Proof.
  induction s as [|c s IH]; intros n m rest H; cbn [digits] in H; [injection H as <- <-; by exists [] |].
  destruct (is_digit c) eqn:Hc; [| injection H as <- <-; by exists []].
  destruct (IH _ _ _ H) as (u & -> & Hu & ->). exists (c :: u). split; [done |]. split; [by constructor | done].
Qed.

(** The number that a text of digits denotes. *)
Definition denotes (s : bytes) (n : Z) : Prop :=
  s <> [] /\ Forall (fun c => is_digit c = true) s /\ n = fold_left (fun n c => n * 10 + (c - 48)) s 0.

Lemma fold_digits_mono s : forall n, 0 <= n -> Forall (fun c => is_digit c = true) s ->
  n <= fold_left (fun n c => n * 10 + (c - 48)) s n.
Proof.
  induction s as [|c s IH]; intros n Hn Hs; cbn [fold_left]; [lia |]. apply Forall_cons_iff in Hs as [Hc Hs].
  unfold is_digit in Hc. apply andb_true_iff in Hc as [H1 H2]. etransitivity; [| by apply IH; [lia |]]. lia.
Qed.

Lemma from_chars_iff w s n : from_chars w s = Some (n, []) <-> denotes s n /\ n < 2 ^ (8 * w).
Proof.
  unfold from_chars, denotes. split.
  - destruct s as [|c s]; [done |]. destruct (is_digit c) eqn:Hc; [| done]. cbn [negb].
    destruct (digits 0 (c :: s)) as [m rest] eqn:E. destruct (Z.ltb_spec m (2 ^ (8 * w))); [| done].
    intros [= -> ->]. destruct (digits_inv _ _ _ _ E) as (u & Hu & Hd & Hn). rewrite app_nil_r in Hu. subst u. by split_and!.
  - intros [(Hne & Hd & Hn) Hb]. destruct s as [|c s]; [done |].
    rewrite (Forall_inv Hd). cbn [negb]. pose proof (digits_app (c :: s) [] Hd I 0) as E. rewrite app_nil_r in E.
    rewrite E, <- Hn. by rewrite (proj2 (Z.ltb_lt _ _) Hb).
Qed.

(** A number argument is read exactly when it is written in decimal digits, without a sign or a
    space, and fits: a port in 16 bits, an offset in 8. *)
Theorem parse_unsigned_iff value n :
  (parse_uint16 value = Some n <-> denotes value n /\ n < 2 ^ 16)
  /\ (parse_uint8 value = Some n <-> denotes value n /\ n < 2 ^ 8).
Proof.
  unfold parse_uint16, parse_uint8. split.
  - pose proof (from_chars_iff 2 value n) as H. split.
    + intros E. apply H. destruct (from_chars 2 value) as [[m [|? ?]]|]; [by injection E as <- | done..].
    + intros E. by rewrite (proj2 H E).
  - split.
    + destruct (from_chars 4 value) as [[m [|? ?]]|] eqn:E; try done. apply from_chars_iff in E as [Hd _].
      destruct (Z.ltb_spec 0xFF m); [done |]. intros E. injection E as <-.
      assert (0 <= m) by (destruct Hd as (_ & Hd & ->); by apply fold_digits_mono).
      unfold u8. rewrite Z.mod_small by lia. split; [done | lia].
    + intros [Hd Hb]. rewrite (proj2 (from_chars_iff 4 value n)) by (split; [done | lia]).
      rewrite (proj2 (Z.ltb_ge 0xFF n)) by lia. unfold u8.
      assert (0 <= n) by (destruct Hd as (_ & Hd & ->); by apply fold_digits_mono). by rewrite Z.mod_small by lia.
Qed.

(** ** Enode URIs *)

Lemma find_none ch s : Forall (fun c => c <> ch) s -> Discv5Crawler.find ch s = None.
Proof. induction 1 as [|c s Hc _ IH]; [done |]. cbn. by rewrite (proj2 (Z.eqb_neq c ch) Hc), IH. Qed.

(** An enode URI with a key of 128 characters, a host and a port, and perhaps a query, is taken apart.
    The key is not looked at, and the host may have colons. *)
Theorem enode_parsed pubkey_hex host port_text port query :
  len pubkey_hex = 128 -> Forall (fun c => c <> 64) pubkey_hex -> Forall (fun c => c <> 63) host ->
  denotes port_text port -> port < 2 ^ 16 -> query = [] \/ (exists q, query = 63 :: q) ->
  parse_enode (kWatchEnodePrefix ++ pubkey_hex ++ 64 :: host ++ 58 :: port_text ++ query)
  = Some (with_peer_address host port pubkey_hex default_config).
Proof.
  intros Hl Hat Hhost Hport Hb Hq. unfold parse_enode.
  rewrite take_app_length' by done. rewrite bool_decide_true by done. cbn [negb].
  rewrite (proj2 (Z.ltb_ge (len _) _)) by (rewrite len_app; pose proof (len_nonneg (pubkey_hex ++ 64 :: host ++ 58 :: port_text ++ query)); lia). cbn [orb].
  rewrite drop_app_length' by done. rewrite find_app by done. cbn [mbind option_bind].
  rewrite Hl. assert (length pubkey_hex = Z.to_nat 128) as Hl' by (unfold len in Hl; lia).
  rewrite take_app_length' by done. rewrite Hl. change (negb (128 =? kPublicKeySize * 2)) with false. cbv iota.
  replace (Z.to_nat (128 + 1)) with (length (pubkey_hex ++ [64])) by (rewrite length_app, Hl'; done).
  change (64 :: host ++ 58 :: port_text ++ query) with ([64] ++ host ++ 58 :: port_text ++ query).
  rewrite (app_assoc pubkey_hex), drop_app_length. cbv zeta.
  assert (Forall (fun c => c <> 63 /\ c <> 58) port_text) as Hp.
  { destruct Hport as (_ & Hd & _). revert Hd. apply Forall_impl. unfold is_digit. intros c Hc. apply andb_true_iff in Hc. lia. }
  assert (match Discv5Crawler.find 63 (host ++ 58 :: port_text ++ query) with
          | Some query_pos => take (Z.to_nat query_pos) (host ++ 58 :: port_text ++ query)
          | None => host ++ 58 :: port_text ++ query end = host ++ 58 :: port_text) as ->.
  { assert (Forall (fun c => c <> 63) (host ++ 58 :: port_text)) as Hn.
    { apply Forall_app. split; [done |]. constructor; [done |]. revert Hp. apply Forall_impl. tauto. }
    change (host ++ 58 :: port_text ++ query) with (host ++ ([58] ++ port_text) ++ query). rewrite app_assoc.
    cbn [app] in *. destruct Hq as [-> | [q ->]].
    - rewrite app_nil_r. rewrite find_none by done. done.
    - rewrite find_app by done. apply take_app_length'. unfold len. lia. }
  rewrite rfind_app by (revert Hp; apply Forall_impl; tauto). cbn [mbind option_bind].
  replace (Z.to_nat (len host + 1)) with (length (host ++ [58])) by (rewrite length_app; unfold len; cbn; lia).
  change (host ++ 58 :: port_text) with (host ++ [58] ++ port_text). rewrite app_assoc, drop_app_length.
  rewrite (proj2 (proj1 (parse_unsigned_iff port_text port)) (conj Hport Hb)). cbn [mbind option_bind].
  rewrite <- app_assoc, take_app_length' by (unfold len; lia). done.
Qed.

(** ** The chains *)

(** The names of the table, and those that have bootnodes. *)
Definition chain_names : list bytes :=
  map text ["mainnet"; "sepolia"; "holesky"; "polygon"; "polygon-amoy"; "bsc"; "bsc-testnet"; "base"; "base-sepolia"]%string.
Definition configured_names : list bytes := take 7 chain_names.

Lemma chain_name_known name : is_Some (kChains !! name) -> name ∈ chain_names.
Proof.
  intros [e H]. apply elem_of_list_to_map_2 in H. apply list_elem_of_In in H. apply (in_map fst) in H. apply list_elem_of_In. exact H.
Qed.

(** A chain can be chosen when it is one of seven: the two of Base, which the usage text offers, have no
    bootnodes and are refused. The genesis hash is the one written in the table. Only Sepolia
    has a fork id; the others announce zeros. *)
Theorem chains_configured name :
  (is_Some (load_chain_config name) <-> name ∈ configured_names)
  /\ forall c, load_chain_config name = Some c ->
     exists e, kChains !! name = Some e /\ cfg_network_id c = entry_network_id e
     /\ to_hex (cfg_genesis_hash c) = genesis_hex e /\ (cfg_fork_id c = no_fork_id <-> name <> text "sepolia").
Proof.
  destruct (decide (name ∈ chain_names)) as [Hin | Hout].
  - assert (forallb (fun name => match load_chain_config name, kChains !! name with
      | Some c, Some e => bool_decide (name ∈ configured_names) && (cfg_network_id c =? entry_network_id e)
          && bool_decide (to_hex (cfg_genesis_hash c) = genesis_hex e)
          && bool_decide (cfg_fork_id c = no_fork_id <-> name <> text "sepolia")
      | Some _, None => false
      | None, _ => negb (bool_decide (name ∈ configured_names)) end) chain_names = true) as H by (vm_compute; reflexivity).
    rewrite forallb_forall in H. apply list_elem_of_In in Hin. specialize (H _ Hin).
    destruct (load_chain_config name) as [c|].
    + destruct (kChains !! name) as [e|]; [| done].
      rewrite !andb_true_iff, !bool_decide_eq_true, Z.eqb_eq in H. destruct H as [[[H1 H2] H3] H4].
      split; [by split |]. intros c' [= <-]. by exists e.
    + apply negb_true_iff, bool_decide_eq_false in H. split; [split; [by intros [? ?] | done] | done].
  - assert (load_chain_config name = None) as ->.
    { unfold load_chain_config. destruct (kChains !! name) eqn:E; [| done]. exfalso. apply Hout, chain_name_known. by rewrite E. }
    split; [split; [by intros [? ?] |] | done]. intros Hin. exfalso. apply Hout. rewrite <- (take_drop 7 chain_names). apply elem_of_app. by left.
Qed.

(** What can be used of the bootnodes of each configured chain. Of the five of Ethereum only one has a
    key of 128 characters: the others are skipped without a word. *)
Theorem usable_bootnodes :
  map (fun name => match load_chain_config name with
                   | Some c => (length (bootnode_enodes c), length (bootnode_targets (bootnode_enodes c)))
                   | None => (0, 0)%nat end) configured_names
  = [(5, 1); (5, 5); (2, 2); (4, 4); (4, 4); (5, 5); (3, 3)]%nat.
Proof. vm_compute. reflexivity. Qed.

(** ** The arguments *)

(** How a watch is asked for. *)
Definition watch_arguments (spec : WatchSpec) : list bytes :=
  (if empty (contract_hex spec) then [] else [text "--watch-contract"; contract_hex spec])
  ++ [text "--watch-event"; ws_event_signature spec].

(** The watches of the command line are the watches of the configuration, in order, each with its own
    contract or with none: a contract counts for the next event only. *)
Theorem watch_arguments_parsed specs : forall c,
  parse_flags (concat (map watch_arguments specs)) [] c = Some (with_watch_specs (cfg_watch_specs c ++ specs) c).
Proof.
  induction specs as [|[contract signature] specs IH]; intros c; [by destruct c; cbn; rewrite app_nil_r |].
  cbn [map concat]. unfold watch_arguments at 1. cbn [contract_hex ws_event_signature].
  destruct contract as [|x contract]; cbn [empty app parse_flags].
  - rewrite bool_decide_false, bool_decide_true, IH by done. cbn. by rewrite <- app_assoc.
  - rewrite (bool_decide_true (text "--watch-contract" = _)), (bool_decide_false (text "--watch-event" = _)),
      (bool_decide_true (text "--watch-event" = _)), IH by done. cbn. by rewrite <- app_assoc.
Qed.

(** The chain and the connection forms, with a watch. *)
Example parse_chain_arguments :
  option_map (fun c => (cfg_network_id c, cfg_watch_specs c))
    (parse_arguments (map text ["--chain"; "sepolia"; "--watch-event"; "Ping()"])%string)
  = Some (11155111, [mkWatchSpec [] (text "Ping()")]).
Proof. vm_compute. reflexivity. Qed.

Example parse_connection_arguments :
  option_map (fun c => (cfg_host c, cfg_port c, cfg_eth_offset c))
    (parse_arguments (map text ["10.0.0.1"; "30303"; "ab"; "17"])%string) = Some (text "10.0.0.1", 30303, 17).
Proof. vm_compute. reflexivity. Qed.
