(* ===== verification/EthWatch.v ===== *)
(** * EthWatch: a watcher on a session with a peer

    [run_watch] of [examples/eth_watch/eth_watch.cpp], which joins the parts of the library: a session
    ([RlpxSession.v]) whose messages go, after the exchange of Status messages, to the watch service
    ([EthWatchService.v]), whose requests go back to the session.

    [run_watch] is a coroutine that waits twice, for the Status and for the end; between, everything
    happens in the handlers it sets on the session. The events of [watch_step] are the steps of the
    session's two loops, a message with the handlers it reaches, the expiry of the timer that is
    waited for, and the continuation of the coroutine, in any order. Its own calls are outputs. What is
    logged of an event is the text of its lines.

    Theorems: nothing reaches the service, the peer does not count as connected, and nothing of eth but
    the watch's own Status is posted, before the peer has sent a Status of the right chain and version
    ([status_first]); peers with the same
    configuration accept each other's Status ([own_status_accepted]), and the messages of an accepted
    peer are given to the service in order ([peer_watched]); a peer that is silent or sends something
    else is given up ([silent_peer_given_up], [bad_message_ends_handshake]); [on_done] is called at most
    once, at the end ([done_once]). But when the connection of an accepted peer is lost without
    a Disconnect message [on_done] is not called for a year ([lost_peer_keeps_slot]). *)
From S2P Require Import Addresses.
From S2P Require Export EthWatchService EthWatchConfig RlpxSession.
Open Scope Z_scope.

(** ** What is logged of an event *)

(** The subscriber of a watch: its signature and its parameters. *)
Record Subscriber := mkSubscriber { sig_copy : bytes; abi_params : list AbiParam }.

Definition hex_text (arr : bytes) : bytes := text "0x" ++ to_hex arr.

Definition header_line (sub : Subscriber) (ev : MatchedEvent) : bytes :=
  sig_copy sub ++ text " at block " ++ decimal 20 (ev_block_number ev)
  ++ (if bool_decide (ev_tx_hash ev <> zero_hash) then text "  tx: " ++ hex_text (ev_tx_hash ev) else []).

(** Octets and strings have no text. *)
Definition value_text (v : AbiValue) : bytes :=
  match v with
  | VAddress addr => hex_text addr
  | VUint u256 => decimal 78 u256
  | VBytes32 b32 => hex_text b32
  | VBool bval => if bval then text "true" else text "false"
  | VBytes _ | VString _ => []
  end.

Definition label (params : list AbiParam) (i : nat) : bytes :=
  match params !! i with
  | Some p => if empty (ap_name p) then decimal 20 (Z.of_nat i) else ap_name p
  | None => decimal 20 (Z.of_nat i)
  end.

Definition value_line (params : list AbiParam) (i : nat) (v : AbiValue) : bytes :=
  text "  [" ++ label params i ++ text "] " ++ value_text v.

Definition event_lines (sub : Subscriber) (ev : MatchedEvent) (vals : list AbiValue) : list bytes :=
  header_line sub ev :: imap (value_line (abi_params sub)) vals.

(** ** Data *)

(** The arguments of [run_watch]. *)
Record WatchParams := mkWatchParams {
  host : bytes;
  port : Z;
  peer_pubkey : bytes;
  eth_offset : Z;
  network_id : Z;
  genesis_hash : hash256;
  fork_id : ForkId;
  watch_specs : list WatchSpec
}.

(** What a wait for a timer has reported: that it was cancelled, or that it expired. *)
Inductive timer_wait := Waiting | Reported (aborted : bool).

(** Where the coroutine is. *)
Inductive watch_place := AwaitStatus (t : timer_wait) | AwaitEnd (t : timer_wait) | WatchEnded.

Record WatchRun := mkRun {
  session : RlpxSession;
  negotiated : Z;
  watch_svc : EthWatchService Subscriber;
  status_received : bool;
  place : watch_place
}.

Definition with_session (x : RlpxSession) (r : WatchRun) : WatchRun :=
  mkRun x (negotiated r) (watch_svc r) (status_received r) (place r).
Definition with_service (x : EthWatchService Subscriber) (r : WatchRun) : WatchRun :=
  mkRun (session r) (negotiated r) x (status_received r) (place r).
Definition with_received (r : WatchRun) : WatchRun :=
  mkRun (session r) (negotiated r) (watch_svc r) true (place r).
Definition with_place (x : watch_place) (r : WatchRun) : WatchRun :=
  mkRun (session r) (negotiated r) (watch_svc r) (status_received r) x.

(** What a run shows: the handlers that are called, the messages given to the session and whether it
    took them, the callbacks, the lines logged, and a read outside of a buffer of the ABI decoder. *)
Inductive watch_output :=
| Took (call : session_call)
| PostedMessage (message : Message) (result : SessionResult unit)
| OnConnected
| OnDone
| Logged (lines : list bytes)
| OutOfBuffer.

(** ** Timers *)

(** [cancel] ends a wait that goes on, and does nothing else. *)
Definition cancel_status_timeout (r : WatchRun) : WatchRun :=
  match place r with AwaitStatus Waiting => with_place (AwaitStatus (Reported true)) r | _ => r end.
Definition cancel_lifetime (r : WatchRun) : WatchRun :=
  match place r with AwaitEnd Waiting => with_place (AwaitEnd (Reported true)) r | _ => r end.

(** ** The start *)

Definition on_disconnect : Z := 0.
Definition on_ping : Z := 1.
Definition on_generic : Z := 2.
Definition watch_handlers : Handlers :=
  mkHandlers None (Some on_disconnect) (Some on_ping) None (Some on_generic).

(** The Status that is sent, in the layout of the version. *)
Definition own_status (w : WatchParams) (negotiated_eth_version : Z) : StatusMessage :=
  if negotiated_eth_version <=? kEthProtocolVersion68 then
    Status68 {| s68_protocol_version := negotiated_eth_version; s68_network_id := network_id w; s68_td := 0;
                s68_blockhash := genesis_hash w; s68_genesis_hash := genesis_hash w; s68_fork_id := fork_id w |}
  else
    Status69 {| s69_protocol_version := negotiated_eth_version; s69_network_id := network_id w;
                s69_genesis_hash := genesis_hash w; s69_fork_id := fork_id w; s69_earliest_block := 0;
                s69_latest_block := 0; s69_latest_block_hash := genesis_hash w |}.

Definition kWatchStatusMessageId : Z := 0x00.

(** A message of eth on the session; what [post_message] returns is only logged. *)
Definition post_eth (w : WatchParams) (eth_msg_id : Z) (payload : bytes) (s : RlpxSession)
    : list watch_output * RlpxSession :=
  let m := mkMessage (u8 (eth_offset w + eth_msg_id)) payload in
  let '(result, s) := post_message m s in ([PostedMessage m result], s).

Definition post_status (w : WatchParams) (s : RlpxSession) : list watch_output * RlpxSession :=
  match encode_status (own_status w (negotiated_eth_version_ s)) with
  | Ok encoded => post_eth w kWatchStatusMessageId encoded s
  | _ => ([], s)
  end.

Definition default_specs : list WatchSpec := [mkWatchSpec [] (text "Transfer(address,address,uint256)")].

(** The contract of a watch, any for none. *)
Definition spec_contract (spec : WatchSpec) : option address :=
  if empty (contract_hex spec) then Some zero_addr else parse_address (contract_hex spec).

(** What [validate_status] accepts. *)
Lemma validate_ok st network genesis u : validate_status st network genesis = Ok u <->
  c_network_id (get_common_fields st) = network /\ c_genesis_hash (get_common_fields st) = genesis /\ ~ inverted_range st.
Proof.
  unfold validate_status, inverted_range. destruct u.
  destruct (Z.eqb_spec (c_network_id (get_common_fields st)) network); cbn [negb]; [| by split; [| intros (? & _)]].
  case_bool_decide as Hg; [by split; [| intros (_ & ? & _)] |].
  destruct st as [m|m]; [by split; [intros _; split_and!; tauto | done] |].
  destruct (Z.eqb_spec (s69_latest_block m) 0); cbn [negb andb]; [split; [intros _; split_and!; try done; lia | done] |].
  destruct (Z.ltb_spec (s69_latest_block m) (s69_earliest_block m)); (split; [intros Hx; try done | try done; intros Hx]).
  - destruct Hx as (_ & _ & Hx). exfalso. by apply Hx.
  - split_and!; try done. lia.
Qed.

Section run_watch.
Context (keccak256 : bytes -> bytes) (aes_ecb_encrypt_block : bytes -> bytes -> bytes)
  (aes_ctr : bytes -> nat -> bytes -> bytes)
  (snappy_compress : bytes -> bytes) (snappy_length : bytes -> option Z) (snappy_uncompress : bytes -> option bytes).

(** The loop over the watches; [None] at an address that cannot be read. *)
Fixpoint add_watches (specs : list WatchSpec) (svc : EthWatchService Subscriber) : option (EthWatchService Subscriber) :=
  match specs with
  | [] => Some svc
  | spec :: specs =>
      contract ← spec_contract spec;
      let params := infer_params (ws_event_signature spec) in
      add_watches specs
        (snd (watch_event keccak256 contract (ws_event_signature spec) params
                (mkSubscriber (ws_event_signature spec) params) None None svc))
  end.

(** [run_watch] from the connection to its first wait. [close_failed] as in [disconnect]. *)
Definition begin_watch (w : WatchParams) (close_failed : bool) (s : RlpxSession) : list watch_output * WatchRun :=
  let negotiated_eth_version := negotiated_eth_version_ s in
  if negotiated_eth_version =? 0 then
    ([OnDone], mkRun (disconnect close_failed s) 0 new_service false WatchEnded)
  else
    let '(out, s) := post_status w s in
    let specs := if empty (watch_specs w) then default_specs else watch_specs w in
    match add_watches specs new_service with
    | None => (out ++ [OnDone], mkRun s negotiated_eth_version new_service false WatchEnded)
    | Some svc =>
        (out, mkRun (with_handlers watch_handlers s) negotiated_eth_version (set_send_callback svc) false
                (AwaitStatus Waiting))
    end.

(** ** The handlers *)

(** The handshake has failed: the wait ends, and the session. *)
Definition fail_handshake (close_failed : bool) (r : WatchRun) : WatchRun :=
  let r := cancel_status_timeout r in with_session (disconnect close_failed (session r)) r.

(** What the service asks for is sent on the session, and the subscribers' lines are logged. *)
Fixpoint perform (w : WatchParams) (effs : list (effect Subscriber)) (s : RlpxSession)
    : list watch_output * RlpxSession :=
  match effs with
  | [] => ([], s)
  | eff :: effs =>
      let '(out, s) :=
        match eff with
        | Sent eth_msg_id payload => post_eth w eth_msg_id payload s
        | EthWatchService.Called sub ev vals => ([Logged (event_lines sub ev vals)], s)
        | Undefined => ([OutOfBuffer], s)
        end in
      let '(out', s) := perform w effs s in (out ++ out', s)
  end.

Definition handle_status (w : WatchParams) (close_failed : bool) (payload : bytes) (r : WatchRun)
    : list watch_output * WatchRun :=
  match decode_status payload with
  | Ok status =>
      if negb (c_protocol_version (get_common_fields status) =? negotiated r) then ([], fail_handshake close_failed r)
      else match validate_status status (network_id w) (genesis_hash w) with
      | Ok _ => ([OnConnected], cancel_status_timeout (with_received r))
      | _ => ([], fail_handshake close_failed r)
      end
  | _ => ([], fail_handshake close_failed r)
  end.

Definition generic_handler (w : WatchParams) (close_failed : bool) (msg : Message) (r : WatchRun)
    : list watch_output * WatchRun :=
  if msg_id msg <? eth_offset w then ([], r)
  else
    let eth_id := u8 (msg_id msg - eth_offset w) in
    if eth_id =? kWatchStatusMessageId then handle_status w close_failed (msg_payload msg) r
    else if negb (status_received r) then ([], fail_handshake close_failed r)
    else
      let '(effs, svc) := process_message keccak256 eth_id (msg_payload msg) (watch_svc r) in
      let '(out, s) := perform w effs (session r) in (out, with_session s (with_service svc r)).

Definition ping_handler (r : WatchRun) : list watch_output * WatchRun :=
  match encode_pong mkPong with
  | Ok encoded =>
      let m := mkMessage kPongMessageId encoded in
      let '(result, s) := post_message m (session r) in ([PostedMessage m result], with_session s r)
  | _ => ([], r)
  end.

Definition disconnect_handler (r : WatchRun) : WatchRun := cancel_status_timeout (cancel_lifetime r).

Definition on_call (w : WatchParams) (close_failed : bool) (call : session_call) (r : WatchRun)
    : list watch_output * WatchRun :=
  match call with
  | DisconnectCall _ _ => ([], disconnect_handler r)
  | PingCall _ _ => ping_handler r
  | GenericCall _ msg => generic_handler w close_failed msg r
  | HelloCall _ _ | PongCall _ _ => ([], r)
  end.

Fixpoint on_calls (w : WatchParams) (close_failed : bool) (calls : list session_call) (r : WatchRun)
    : list watch_output * WatchRun :=
  match calls with
  | [] => ([], r)
  | call :: calls =>
      let '(out, r) := on_call w close_failed call r in
      let '(out', r) := on_calls w close_failed calls r in (Took call :: out ++ out', r)
  end.

(** ** Runs *)

(** The steps of the session's loops, a socket that breaks, and a [disconnect] by the scheduler that
    holds the session. *)
Inductive loop_event :=
| SendLoop | PollEnds (failed : bool) | WriteEnds (ec : option SocketError) | ReceiveLoop
| SocketFails (ec : SocketError) | Stopped (close_failed : bool).

Definition session_event_of (e : loop_event) : session_event :=
  match e with
  | SendLoop => SendRuns
  | PollEnds failed => PollDone failed
  | WriteEnds ec => WriteDone ec
  | ReceiveLoop => ReceiveRuns
  | SocketFails ec => SocketBreaks ec
  | Stopped close_failed => Disconnect close_failed
  end.

Inductive run_event :=
| Loop (e : loop_event) | MessageArrives (close_failed : bool) | TimerExpires | Resumes (close_failed : bool).

Abbreviation step_session := (session_step keccak256 aes_ecb_encrypt_block aes_ctr snappy_compress snappy_length snappy_uncompress).

(** The read of the receive loop ends, and the handlers of the message run to their end. *)
Definition message_arrives (w : WatchParams) (close_failed : bool) (r : WatchRun) : list watch_output * WatchRun :=
  let '(out, s) := step_session MessageRead (session r) in
  let '(out, r) := on_calls w close_failed (called out) (with_session s r) in
  (out, with_session (snd (step_session HandlersReturn (session r))) r).

(** The timer that the coroutine waits for expires. *)
Definition timer_expires (r : WatchRun) : WatchRun :=
  match place r with
  | AwaitStatus Waiting => with_place (AwaitStatus (Reported false)) r
  | AwaitEnd Waiting => with_place (AwaitEnd (Reported false)) r
  | _ => r
  end.

(** The coroutine goes on after a wait. *)
Definition resumes (close_failed : bool) (r : WatchRun) : list watch_output * WatchRun :=
  match place r with
  | AwaitStatus (Reported aborted) =>
      if status_received r then ([], with_place (AwaitEnd Waiting) r)
      else
        let r := if aborted then r else with_session (disconnect close_failed (session r)) r in
        ([OnDone], with_place WatchEnded r)
  | AwaitEnd (Reported _) => ([OnDone], with_place WatchEnded r)
  | _ => ([], r)
  end.

Definition watch_step (w : WatchParams) (e : run_event) (r : WatchRun) : list watch_output * WatchRun :=
  match e with
  | Loop e => ([], with_session (snd (step_session (session_event_of e) (session r))) r)
  | MessageArrives close_failed => message_arrives w close_failed r
  | TimerExpires => ([], timer_expires r)
  | Resumes close_failed => resumes close_failed r
  end.

Fixpoint watch_runs (w : WatchParams) (events : list run_event) (r : WatchRun) : list watch_output * WatchRun :=
  match events with
  | [] => ([], r)
  | e :: events =>
      let '(out, r) := watch_step w e r in
      let '(out', r) := watch_runs w events r in (out ++ out', r)
  end.

Section start.
Context `{Secp256k1} `{OpenSsl} (fuel : nat) (unset : AuthKeyMaterial) (unset_secrets : bytes * bytes).

Definition connect_params (w : WatchParams) (keypair : Ecdh.KeyPair) : SessionConnectParams :=
  mkConnectParams (host w) (port w) (Ecdh.public_key keypair) (Ecdh.private_key keypair) (peer_pubkey w)
    (text "rlp-eth-watch") 0.

(** [run_watch] from its start: a fresh key, and the connection. Without one there is no run. *)
Definition run_watch (w : WatchParams) (connected : SessionResult SocketTransport) (close_failed : bool) (i : nat)
    : list watch_output * option WatchRun * nat :=
  match Ecdh.generate_ephemeral_keypair fuel i with
  | (Ok keypair, i) =>
      match connect keccak256 aes_ecb_encrypt_block aes_ctr snappy_compress snappy_length snappy_uncompress fuel unset
              unset_secrets (connect_params w keypair) connected i with
      | (Ok s, i) => let '(out, r) := begin_watch w close_failed s in (out, Some r, i)
      | (_, i) => ([OnDone], None, i)
      end
  | (_, i) => ([OnDone], None, i)
  end.
End start.

(** ** Nothing before the Status *)

(** A message that is a Status of the right version and chain. *)
Definition admits (w : WatchParams) (version : Z) (m : Message) : Prop :=
  eth_offset w <= msg_id m /\ u8 (msg_id m - eth_offset w) = kWatchStatusMessageId
  /\ exists st, decode_status (msg_payload m) = Ok st
     /\ c_protocol_version (get_common_fields st) = version /\ c_network_id (get_common_fields st) = network_id w
     /\ c_genesis_hash (get_common_fields st) = genesis_hash w /\ ~ inverted_range st.

(** The handler of a Status accepts exactly those. *)
Lemma handle_status_spec w close_failed m r :
  eth_offset w <= msg_id m -> u8 (msg_id m - eth_offset w) = kWatchStatusMessageId ->
  (admits w (negotiated r) m /\ handle_status w close_failed (msg_payload m) r = ([OnConnected], cancel_status_timeout (with_received r)))
  \/ (~ admits w (negotiated r) m /\ handle_status w close_failed (msg_payload m) r = ([], fail_handshake close_failed r)).
Proof.
  intros Ho Hi. unfold handle_status, admits.
  destruct (decode_status (msg_payload m)) as [st|e|] eqn:E;
    [| right; split; [by intros (_ & _ & st & [=] & _) | done]..].
  destruct (Z.eqb_spec (c_protocol_version (get_common_fields st)) (negotiated r)) as [Hv|Hv]; cbn [negb];
    [| right; split; [by intros (_ & _ & st' & [= <-] & ? & _) | done]].
  destruct (validate_status st (network_id w) (genesis_hash w)) as [u|e|] eqn:Ev.
  - apply validate_ok in Ev as (H1 & H2 & H3). left. split; [| done]. split_and!; try done. by exists st.
  - right. split; [| done]. intros (_ & _ & st' & [= <-] & _ & Hok). by rewrite (proj2 (validate_ok _ _ _ tt) Hok) in Ev.
  - right. split; [| done]. intros (_ & _ & st' & [= <-] & _ & Hok). by rewrite (proj2 (validate_ok _ _ _ tt) Hok) in Ev.
Qed.

(** What must wait for a Status. *)
Definition needs_status (o : watch_output) : Prop :=
  match o with
  | OnConnected | Logged _ | OutOfBuffer => True
  | PostedMessage m _ => msg_id m <> kPongMessageId
  | Took _ | OnDone => False
  end.

Definition seen (w : WatchParams) (version : Z) (out : list watch_output) : Prop :=
  exists h m, Took (GenericCall h m) ∈ out /\ admits w version m.

Definition guarded (w : WatchParams) (version : Z) (received : bool) (out : list watch_output) : Prop :=
  forall pre o post, out = pre ++ o :: post -> needs_status o -> received = true \/ seen w version pre.

Definition is_done (o : watch_output) : bool := match o with OnDone => true | _ => false end.
Definition done_count (out : list watch_output) : nat := length (List.filter is_done out).
Definition ended (r : WatchRun) : nat := match place r with WatchEnded => 1 | _ => 0 end.

(** What a part of a run keeps. *)
Record progresses (w : WatchParams) (out : list watch_output) (r r' : WatchRun) : Prop := {
  ev_negotiated : negotiated r' = negotiated r;
  ev_guarded : guarded w (negotiated r) (status_received r) out;
  ev_received : status_received r' = true -> status_received r = true \/ seen w (negotiated r) out;
  ev_mono : status_received r = true -> status_received r' = true;
  ev_service : status_received r' = false -> watch_svc r' = watch_svc r;
  ev_done : (done_count out + ended r = ended r')%nat
}.

Lemma seen_app_l w v out out' : seen w v out -> seen w v (out ++ out').
Proof. intros (h & m & H & Ha). exists h, m. split; [apply elem_of_app; by left | done]. Qed.
Lemma seen_app_r w v out out' : seen w v out' -> seen w v (out ++ out').
Proof. intros (h & m & H & Ha). exists h, m. split; [apply elem_of_app; by right | done]. Qed.

Lemma progresses_trans w o1 o2 r r1 r2 : progresses w o1 r r1 -> progresses w o2 r1 r2 -> progresses w (o1 ++ o2) r r2.
Proof.
  intros [N1 G1 R1 M1 S1 D1] [N2 G2 R2 M2 S2 D2]. rewrite N1 in *. split.
  - congruence.
  - intros pre o post E Hn. apply app_eq_inv in E as [(post' & E1 & E2) | (pre' & -> & E)].
    + destruct post' as [|o' post'].
      * rewrite app_nil_r in E1. subst pre. cbn in E2. destruct (G2 [] o post (eq_sym E2) Hn) as [H | (h & m & Hx & _)];
          [by apply R1 | by apply elem_of_nil in Hx].
      * injection E2 as <- ->. subst o1. by apply (G1 pre o post').
    + destruct (G2 pre' o post E Hn) as [H | H]; [| right; by apply seen_app_r].
      destruct (R1 H) as [? | ?]; [by left | right; by apply seen_app_l].
  - intros H. destruct (R2 H) as [H' | H']; [| right; by apply seen_app_r].
    destruct (R1 H') as [? | ?]; [by left | right; by apply seen_app_l].
  - auto.
  - intros H. rewrite S2 by done. apply S1. destruct (status_received r1); [by rewrite M2 in H | done].
  - unfold done_count in *. rewrite filter_app, length_app. lia.
Qed.

(** Nothing that needs a Status is shown, and the handshake is where it was. *)
Lemma progresses_quiet w out r r' : Forall (fun o => ~ needs_status o) out -> negotiated r' = negotiated r ->
  status_received r' = status_received r -> watch_svc r' = watch_svc r -> (done_count out + ended r = ended r')%nat ->
  progresses w out r r'.
Proof.
  intros Ho Hn Hr Hs Hd. split; try done; rewrite ?Hr; auto.
  intros pre o post -> Hnd. apply Forall_app in Ho as [_ Ho]. by apply Forall_inv in Ho.
Qed.

(** Everything is allowed after the Status. *)
Lemma progresses_received w out r r' : status_received r = true -> negotiated r' = negotiated r ->
  status_received r' = true -> (done_count out + ended r = ended r')%nat -> progresses w out r r'.
Proof. intros H Hn H' Hd. split; try done; try (intros; by left). by rewrite H'. Qed.

Lemma ended_session s r : ended (with_session s r) = ended r.
Proof. done. Qed.
Lemma ended_cancel r : ended (cancel_status_timeout r) = ended r /\ ended (cancel_lifetime r) = ended r.
Proof. unfold cancel_status_timeout, cancel_lifetime, ended. by destruct (place r) as [[|] | [|] |] eqn:E; cbn; rewrite ?E. Qed.
Lemma cancel_fields r :
  let same r' := negotiated r' = negotiated r /\ status_received r' = status_received r /\ watch_svc r' = watch_svc r /\ session r' = session r in
  same (cancel_status_timeout r) /\ same (cancel_lifetime r).
Proof. unfold cancel_status_timeout, cancel_lifetime. by destruct (place r) as [[|] | [|] |]. Qed.

Lemma progresses_fail w out close_failed r : Forall (fun o => ~ needs_status o) out -> done_count out = 0%nat ->
  progresses w out r (fail_handshake close_failed r).
Proof.
  intros Ho Hd. destruct (cancel_fields r) as [(H1 & H2 & H3 & _) _]. destruct (ended_cancel r) as [H5 _].
  apply progresses_quiet; try done. unfold fail_handshake. rewrite ended_session, Hd. by rewrite H5.
Qed.

Lemma perform_done w effs : forall s, done_count (fst (perform w effs s)) = 0%nat.
Proof.
  induction effs as [|eff effs IH]; intros s; [done |]. cbn [perform].
  destruct (match eff with Sent _ _ => _ | _ => _ end) as [out s1] eqn:E. specialize (IH s1).
  destruct (perform w effs s1) as [out' s2]. cbn [fst] in *. unfold done_count in *. rewrite filter_app, length_app, IH.
  destruct eff; try (by injection E as <- <-). unfold post_eth in E.
  destruct (post_message _ s) as [res s0]. by injection E as <- <-.
Qed.

Lemma progresses_generic w close_failed h m r :
  let '(out, r') := generic_handler w close_failed m r in progresses w (Took (GenericCall h m) :: out) r r'.
Proof.
  assert (Forall (fun o => ~ needs_status o) [Took (GenericCall h m)]) as Hq by (repeat constructor; tauto).
  unfold generic_handler. destruct (Z.ltb_spec (msg_id m) (eth_offset w)) as [Hlt|Hge]; [by apply progresses_quiet |].
  destruct (Z.eqb_spec (u8 (msg_id m - eth_offset w)) kWatchStatusMessageId) as [Hid|Hid].
  - destruct (handle_status_spec w close_failed m r Hge Hid) as [[Ha ->] | [_ ->]]; [| by apply progresses_fail].
    destruct (cancel_fields (with_received r)) as [(H1 & H2 & H3 & _) _]. destruct (ended_cancel (with_received r)) as [H5 _].
    assert (seen w (negotiated r) [Took (GenericCall h m)]) as Hseen by (exists h, m; split; [apply list_elem_of_singleton |]; done).
    split; rewrite ?H1, ?H2, ?H3; try done.
    + intros pre o post E Hn. right. destruct pre as [|x pre]; [by injection E as <- _ |]. injection E as <- E.
      apply (seen_app_l _ _ [_] pre Hseen).
    + intros _. right. apply (seen_app_l _ _ [_] [OnConnected] Hseen).
  - destruct (status_received r) eqn:Hr; cbn [negb]; [| by apply progresses_fail].
    destruct (process_message _ _ _ _) as [effs svc]. pose proof (perform_done w effs (session r)) as Hd.
    destruct (perform w effs (session r)) as [out s]. apply progresses_received; try done. cbn [fst] in Hd. unfold done_count in *. cbn. by rewrite Hd.
Qed.

Lemma progresses_ping w call r :
  let '(out, r') := ping_handler r in progresses w (Took call :: out) r r'.
Proof.
  unfold ping_handler. destruct (encode_pong mkPong) as [b|e|]; [| by apply progresses_quiet; [repeat constructor; tauto | ..]..].
  destruct (post_message _ _) as [res s]. apply progresses_quiet; try done. repeat constructor; cbn; tauto.
Qed.

Lemma progresses_call w close_failed call r :
  let '(out, r') := on_call w close_failed call r in progresses w (Took call :: out) r r'.
Proof.
  destruct call as [h m|h m|h m|h m|h m]; cbn [on_call]; try (by apply progresses_quiet; [repeat constructor; tauto | ..]).
  - unfold disconnect_handler. destruct (cancel_fields r) as [_ (H1 & H2 & H3 & _)].
    destruct (cancel_fields (cancel_lifetime r)) as [(H4 & H5 & H6 & _) _].
    apply progresses_quiet; [repeat constructor; tauto | congruence..|].
    by rewrite (proj1 (ended_cancel _)), (proj2 (ended_cancel _)).
  - by apply progresses_ping.
  - apply progresses_generic.
Qed.

Lemma progresses_calls w close_failed calls : forall r,
  progresses w (fst (on_calls w close_failed calls r)) r (snd (on_calls w close_failed calls r)).
Proof.
  induction calls as [|call calls IH]; intros r; [by apply progresses_quiet |]. cbn [on_calls].
  pose proof (progresses_call w close_failed call r) as H. destruct (on_call w close_failed call r) as [out r1].
  specialize (IH r1). destruct (on_calls w close_failed calls r1) as [out' r2]. exact (progresses_trans w _ _ _ _ _ H IH).
Qed.

Lemma progresses_step w e r : progresses w (fst (watch_step w e r)) r (snd (watch_step w e r)).
Proof.
  destruct e as [e|cf| |cf]; cbn [watch_step fst snd].
  - by apply progresses_quiet.
  - unfold message_arrives. destruct (step_session MessageRead (session r)) as [out s].
    pose proof (progresses_calls w cf (called out) (with_session s r)) as [N G R M S D].
    destruct (on_calls w cf (called out) (with_session s r)) as [out' r1]. by split.
  - apply progresses_quiet; unfold timer_expires, ended; by destruct (place r) as [[|] | [|] |] eqn:E; cbn; rewrite ?E.
  - unfold resumes. destruct (place r) as [[|aborted] | [|] |] eqn:E; try by apply progresses_quiet.
    + destruct (status_received r) eqn:Hr; [apply progresses_received; try done; unfold ended; by rewrite E |].
      apply progresses_quiet; [repeat constructor; tauto | by destruct aborted.. |]. unfold ended. by rewrite E.
    + apply progresses_quiet; [repeat constructor; tauto | done.. |]. unfold ended. by rewrite E.
Qed.

Lemma progresses_runs w events : forall r, progresses w (fst (watch_runs w events r)) r (snd (watch_runs w events r)).
Proof.
  induction events as [|e events IH]; intros r; [by apply progresses_quiet |]. cbn [watch_runs].
  pose proof (progresses_step w e r) as H. destruct (watch_step w e r) as [out r1]. specialize (IH r1).
  destruct (watch_runs w events r1) as [out' r2]. exact (progresses_trans w _ _ _ _ _ H IH).
Qed.

Lemma watch_runs_app w es es' : forall r, watch_runs w (es ++ es') r
  = let '(out, r1) := watch_runs w es r in let '(out', r2) := watch_runs w es' r1 in (out ++ out', r2).
Proof.
  induction es as [|e es IH]; intros r; cbn [app watch_runs]; [by destruct (watch_runs w es' r) |].
  destruct (watch_step w e r) as [o r1]. rewrite IH. destruct (watch_runs w es r1) as [o1 r2].
  destruct (watch_runs w es' r2). by rewrite app_assoc.
Qed.

(** The message that the start of a watch posts: a Status with the version of the session and the
    network and the genesis block of the watch. *)
Definition own_message (w : WatchParams) (version : Z) (m : Message) : Prop :=
  msg_id m = u8 (eth_offset w) /\ exists st, encode_status st = Ok (msg_payload m)
  /\ c_protocol_version (get_common_fields st) = version /\ c_network_id (get_common_fields st) = network_id w
  /\ c_genesis_hash (get_common_fields st) = genesis_hash w.

Lemma post_status_shown w s : let '(out, s') := post_status w s in
  out = [] \/ exists m result, out = [PostedMessage m result] /\ own_message w (negotiated_eth_version_ s) m.
Proof.
  unfold post_status. destruct (encode_status _) as [b|e|] eqn:E; [| by left..]. unfold post_eth.
  destruct (post_message _ s) as [result s']. right. eexists _, result. split; [done |].
  split; [cbn; unfold kWatchStatusMessageId; by rewrite Z.add_0_r |]. exists (own_status w (negotiated_eth_version_ s)). split; [exact E |].
  unfold own_status. by destruct (_ <=? _).
Qed.

(** The start shows at most its own Status, first, and its end. *)
Lemma begin_watch_shown w close_failed s : let '(out, r) := begin_watch w close_failed s in
  negotiated r = negotiated_eth_version_ s /\ status_received r = false
  /\ exists own, out = own ++ repeat OnDone (ended r)
     /\ (own = [] \/ exists m result, own = [PostedMessage m result] /\ own_message w (negotiated_eth_version_ s) m).
Proof.
  unfold begin_watch. destruct (Z.eqb_spec (negotiated_eth_version_ s) 0) as [->|_].
  - split; [done |]. split; [done |]. exists []. split; [done | by left].
  - pose proof (post_status_shown w s) as Hs. destruct (post_status w s) as [own s'].
    destruct (add_watches _ _); (split; [done |]; split; [done |]; exists own; split; [| exact Hs]); [by rewrite app_nil_r | done].
Qed.

(** C14: nothing happens before the peer's Status, except that the watch posts its own. In every run, with
    what the start of the watch does before it, the first thing shown may be the watch's own Status, of its
    chain and the version of the session, posted to the peer; apart from that, the peer counts as connected, a
    line is logged, or a message of eth is posted only after the peer has sent a Status with the version of
    the session, the network and the genesis block of the watch and a range of blocks in order; until then
    the service is as the start left it. *)
Theorem status_first w close_failed s events :
  let '(out0, r) := begin_watch w close_failed s in
  let '(out, r') := watch_runs w events r in
  (forall pre o post, out0 ++ out = pre ++ o :: post -> needs_status o ->
    (pre = [] /\ exists m result, o = PostedMessage m result /\ own_message w (negotiated_eth_version_ s) m)
    \/ exists h m, Took (GenericCall h m) ∈ pre /\ admits w (negotiated_eth_version_ s) m)
  /\ (status_received r' = false -> watch_svc r' = watch_svc r).
Proof.
  pose proof (begin_watch_shown w close_failed s) as Hb. destruct (begin_watch w close_failed s) as [out0 r].
  destruct Hb as (Hv & Hr & own & -> & Hown).
  pose proof (progresses_runs w events r) as [N G R M S D]. destruct (watch_runs w events r) as [out r'].
  cbn [fst snd] in *. rewrite Hr, Hv in G. split; [| done]. intros pre o post E Hn.
  assert (forall pre k l, repeat OnDone k ++ l = pre ++ o :: post -> exists pre', pre = repeat OnDone k ++ pre' /\ l = pre' ++ o :: post) as Hdone.
  { clear E pre. intros pre k l El. apply app_eq_inv in El as [(post' & E1 & E2) | (pre' & -> & E1)]; [| by exists pre'].
    destruct post' as [|o' post']; [exists []; rewrite E1, !app_nil_r; by cbn in E2 |].
    cbn in E2. injection E2 as <- _. assert (o ∈ repeat OnDone k) as Ho by (rewrite E1; apply elem_of_app; right; by left).
    apply list_elem_of_In, repeat_spec in Ho. by subst. }
  destruct Hown as [-> | (m & result & -> & Hm)]; cbn [app] in E.
  - destruct (Hdone _ _ _ E) as (pre' & -> & E'). right. destruct (G pre' o post E' Hn) as [|Hs]; [done | by apply seen_app_r].
  - destruct pre as [|x pre]; cbn in E; injection E as <- E; [left; split; [done | by exists m, result] | right].
    destruct (Hdone _ _ _ E) as (pre' & -> & E').
    destruct (G pre' o post E' Hn) as [|Hs]; [done |]. by apply (seen_app_r _ _ (PostedMessage m result :: repeat OnDone (ended r)) pre').
Qed.

(** The slot is given back at most once, exactly when the coroutine has ended. *)
Theorem done_once w r events :
  place r <> WatchEnded ->
  let '(out, r') := watch_runs w events r in
  (done_count out <= 1)%nat /\ (done_count out = 1%nat <-> place r' = WatchEnded).
Proof.
  intros Hp. pose proof (ev_done _ _ _ _ (progresses_runs w events r)) as D. destruct (watch_runs w events r) as [out r'].
  cbn [fst snd] in *. unfold ended in D.
  destruct (place r); try done; destruct (place r'); (split; [lia | split; intros H; try done; lia]).
Qed.

(** ** Peers of the same chain *)

Context {laws : CipherLaws keccak256 aes_ctr} {snappy : SnappyLaws snappy_compress snappy_length snappy_uncompress}.

Abbreviation seal_all := (RlpxFraming.seal_all keccak256 aes_ecb_encrypt_block aes_ctr snappy_compress).
Abbreviation sendable := (RlpxFraming.sendable snappy_compress).

(** A session in step with a peer [a] that has sent [wire], whose receive loop is at [at_]. *)
Record expecting (at_ : receive_wait) (a : FrameCipher) (compression : bool) (wire : bytes) (s : RlpxSession) : Prop := {
  ex_active : is_active s = true;
  ex_handlers : handlers s = watch_handlers;
  ex_loop : receive_loop s = at_;
  ex_synced : synced a (cipher_ (stream_ s));
  ex_compression : compression_enabled_ (stream_ s) = compression;
  ex_fault : fault (transport_ (stream_ s)) = None;
  ex_incoming : incoming (transport_ (stream_ s)) = wire
}.

Lemma post_active m s : is_active s = true -> post_message m s = (Ok tt, with_send_channel (push m (send_channel_ s)) s).
Proof. intros H. unfold post_message, update, mbind, M_bind. by rewrite check_active_spec, H. Qed.

Lemma expecting_channel at_ a c wire s q : expecting at_ a c wire s -> expecting at_ a c wire (with_send_channel q s).
Proof. by intros []. Qed.

(** What an effect of the service is on an active session. *)
Definition shown (w : WatchParams) (eff : effect Subscriber) : watch_output :=
  match eff with
  | Sent eth_msg_id payload => PostedMessage (mkMessage (u8 (eth_offset w + eth_msg_id)) payload) (Ok tt)
  | EthWatchService.Called sub ev vals => Logged (event_lines sub ev vals)
  | Undefined => OutOfBuffer
  end.

Lemma perform_shown w at_ a c wire effs : forall s, expecting at_ a c wire s ->
  exists s', perform w effs s = (map (shown w) effs, s') /\ expecting at_ a c wire s'.
Proof.
  induction effs as [|eff effs IH]; intros s Hs; [by exists s |]. cbn [perform map].
  destruct eff as [id payload|sub ev vals|]; cbn [shown].
  - unfold post_eth. rewrite post_active by apply Hs.
    destruct (IH _ (expecting_channel _ _ _ _ _ (push (mkMessage (u8 (eth_offset w + id)) payload) (send_channel_ s)) Hs))
      as (s' & -> & H'). by exists s'.
  - destruct (IH s Hs) as (s' & -> & H'). by exists s'.
  - destruct (IH s Hs) as (s' & -> & H'). by exists s'.
Qed.

(** The loop reads the next message of the peer, which is for the generic handler. *)
Lemma next_read a c m rest s : expecting ReceiveReady a c (fst (seal_all c a [m]) ++ rest) s -> sendable c m -> 4 <= msg_id m ->
  exists s1, expecting (Routing m) (snd (seal_all c a [m])) c rest s1
  /\ step_session MessageRead (snd (step_session ReceiveRuns s)) = (map RlpxSession.Called [GenericCall on_generic m], s1).
Proof using laws snappy.
  intros [Hact Hh Hl Hs Hc Hf Hi] Hm Hid. subst c.
  destruct (receive_ok keccak256 aes_ecb_encrypt_block aes_ctr snappy_compress snappy_length snappy_uncompress
    a m rest (stream_ s) Hs Hm Hf Hi) as (x & Hx & Hi' & Hs' & Hk). injection Hk as He Hg Ho Hf' Hc'.
  exists (with_receive_loop (Routing m) (with_stream x (with_receive_loop Reading s))).
  split; [split; cbn; try done; congruence |].
  cbn [session_step]. rewrite Hl. unfold receive_iteration. rewrite Hact. cbn [negb snd receive_loop with_receive_loop].
  unfold message_read, on_stream. cbn [stream_ with_receive_loop]. rewrite Hx. do 2 f_equal.
  cbn [handlers with_stream with_receive_loop]. rewrite Hh. unfold route_message, is_hello, is_disconnect, is_ping, is_pong.
  rewrite !(proj2 (Z.eqb_neq (msg_id m) _)) by (unfold kHelloMessageId, kDisconnectMessageId, kPingMessageId, kPongMessageId; lia). done.
Qed.

(** The next message of the peer reaches the generic handler. *)
Lemma next_message w close_failed a c m rest r : expecting ReceiveReady a c (fst (seal_all c a [m]) ++ rest) (session r) ->
  sendable c m -> 4 <= msg_id m ->
  exists s1, expecting (Routing m) (snd (seal_all c a [m])) c rest s1
  /\ watch_runs w [Loop ReceiveLoop; MessageArrives close_failed] r
     = let '(out, r1) := generic_handler w close_failed m (with_session s1 r) in
       (Took (GenericCall on_generic m) :: out, with_session (snd (step_session HandlersReturn (session r1))) r1).
Proof using laws snappy.
  intros Hex Hm Hid. destruct (next_read a c m rest (session r) Hex Hm Hid) as (s1 & H1 & E). exists s1. split; [exact H1 |].
  cbn [watch_runs watch_step session_event_of fst snd app]. unfold message_arrives. cbn [session with_session]. rewrite E.
  change (called (map RlpxSession.Called [GenericCall on_generic m])) with [GenericCall on_generic m]. cbn [on_calls on_call].
  change (with_session s1 (with_session _ r)) with (with_session s1 r).
  destruct (generic_handler w close_failed m _) as [out r1]. by rewrite !app_nil_r.
Qed.

Lemma handlers_return m a c rest r : expecting (Routing m) a c rest (session r) ->
  expecting ReceiveReady a c rest (snd (step_session HandlersReturn (session r))).
Proof. intros [Hact Hh Hl Hs Hc Hf Hi]. cbn [session_step snd]. rewrite Hl. by split. Qed.

(** The accepted Status of the peer. *)
Lemma status_arrives w close_failed close_failed' a c m rest r :
  place r = AwaitStatus Waiting -> expecting ReceiveReady a c (fst (seal_all c a [m]) ++ rest) (session r) ->
  sendable c m -> 4 <= msg_id m -> admits w (negotiated r) m ->
  exists r', watch_runs w [Loop ReceiveLoop; MessageArrives close_failed; Resumes close_failed'] r
    = ([Took (GenericCall on_generic m); OnConnected], r')
  /\ place r' = AwaitEnd Waiting /\ status_received r' = true /\ watch_svc r' = watch_svc r
  /\ expecting ReceiveReady (snd (seal_all c a [m])) c rest (session r').
Proof using laws snappy.
  intros Hp Hex Hm Hid Ha. destruct (next_message w close_failed a c m rest r Hex Hm Hid) as (s1 & H1 & Hrun).
  pose proof Ha as (Ho & Hi & _). unfold generic_handler in Hrun. rewrite (proj2 (Z.ltb_ge _ _) Ho), Hi in Hrun.
  change (kWatchStatusMessageId =? kWatchStatusMessageId) with true in Hrun. cbv beta zeta iota in Hrun.
  destruct (handle_status_spec w close_failed m (with_session s1 r) Ho Hi) as [[_ E] | [Hn _]]; [| done]. rewrite E in Hrun.
  change [Loop ReceiveLoop; MessageArrives close_failed; Resumes close_failed'] with
    ([Loop ReceiveLoop; MessageArrives close_failed] ++ [Resumes close_failed']).
  unfold cancel_status_timeout in Hrun. cbn [place with_received with_session] in Hrun. rewrite Hp in Hrun.
  eexists. split; [rewrite watch_runs_app, Hrun; cbn; reflexivity |]. split_and!; try done.
  exact (handlers_return m _ _ _ (with_session s1 r) H1).
Qed.

(** What the service does with the messages of a peer. *)
Fixpoint served (w : WatchParams) (ms : list Message) (svc : EthWatchService Subscriber)
    : list watch_output * EthWatchService Subscriber :=
  match ms with
  | [] => ([], svc)
  | m :: ms =>
      let '(effs, svc) := process_message keccak256 (u8 (msg_id m - eth_offset w)) (msg_payload m) svc in
      let '(out, svc) := served w ms svc in
      (Took (GenericCall on_generic m) :: map (shown w) effs ++ out, svc)
  end.

(** A message of eth that is not a Status, above the ids of the base protocol. *)
Definition eth_message (w : WatchParams) (m : Message) : Prop :=
  4 <= msg_id m /\ eth_offset w <= msg_id m /\ u8 (msg_id m - eth_offset w) <> kWatchStatusMessageId.

Definition reads_of (ms : list Message) : list run_event :=
  flat_map (fun _ => [Loop ReceiveLoop; MessageArrives false]) ms.

Lemma messages_served w c ms : forall a r,
  status_received r = true -> expecting ReceiveReady a c (fst (seal_all c a ms)) (session r) ->
  Forall (sendable c) ms -> Forall (eth_message w) ms ->
  let '(out, r') := watch_runs w (reads_of ms) r in
  out = fst (served w ms (watch_svc r)) /\ watch_svc r' = snd (served w ms (watch_svc r))
  /\ place r' = place r /\ is_active (session r') = true.
Proof using laws snappy.
  induction ms as [|m ms IH]; intros a r Hr Hex Hs Hm; [by split_and!; try apply Hex |].
  apply Forall_cons_iff in Hs as [Hs1 Hs]. apply Forall_cons_iff in Hm as [(Hid & Ho & Hne) Hm].
  assert (fst (seal_all c a (m :: ms)) = fst (seal_all c a [m]) ++ fst (seal_all c (snd (seal_all c a [m])) ms)) as Hw.
  { change (m :: ms) with ([m] ++ ms). by rewrite seal_all_app. }
  rewrite Hw in Hex. destruct (next_message w false a c m _ r Hex Hs1 Hid) as (s1 & H1 & Hrun).
  unfold generic_handler in Hrun. rewrite (proj2 (Z.ltb_ge _ _) Ho), (proj2 (Z.eqb_neq _ _) Hne) in Hrun.
  cbn [status_received with_session] in Hrun. rewrite Hr in Hrun. cbn [negb watch_svc with_session session] in Hrun.
  change (reads_of (m :: ms)) with ([Loop ReceiveLoop; MessageArrives false] ++ reads_of ms). rewrite watch_runs_app, Hrun.
  cbn [served]. destruct (process_message _ _ _ (watch_svc r)) as [effs svc].
  destruct (perform_shown w _ _ _ _ effs s1 H1) as (s2 & -> & H2). cbv beta zeta iota.
  specialize (IH (snd (seal_all c a [m]))
    (with_session (snd (step_session HandlersReturn s2)) (with_session s2 (with_service svc (with_session s1 r))))).
  specialize (IH Hr ltac:(by apply (handlers_return m _ _ _ (with_session s2 r))) Hs Hm).
  destruct (watch_runs w (reads_of ms) _) as [out r']. destruct IH as (-> & -> & -> & Hact).
  cbn [watch_svc with_session with_service place] in *. destruct (served w ms svc) as [out2 svc2]. by split_and!.
Qed.

(** What a watch begins with on a session that [connect] has made. *)
Lemma begin_expecting w close_failed a wire s svc :
  started s -> negotiated_eth_version_ s <> 0 ->
  add_watches (if empty (watch_specs w) then default_specs else watch_specs w) new_service = Some svc ->
  synced a (cipher_ (stream_ s)) -> fault (transport_ (stream_ s)) = None -> incoming (transport_ (stream_ s)) = wire ->
  let '(_, r) := begin_watch w close_failed s in
  place r = AwaitStatus Waiting /\ status_received r = false /\ negotiated r = negotiated_eth_version_ s
  /\ watch_svc r = set_send_callback svc
  /\ expecting ReceiveReady a (compression_enabled_ (stream_ s)) wire (session r).
Proof.
  intros (Hact & Hq & _ & _ & Hl) Hv Hadd Hs Hf Hi. unfold begin_watch. rewrite (proj2 (Z.eqb_neq _ _) Hv).
  assert (exists out q, post_status w s = (out, with_send_channel q s)) as (out & q & ->).
  { unfold post_status. destruct (encode_status _) as [b|e|]; [| by exists [], (send_channel_ s); destruct s..].
    unfold post_eth. rewrite post_active by (unfold is_active; by rewrite Hact). by eexists _, _. }
  rewrite Hadd. split_and!; try done. split; try done. unfold is_active. cbn. by rewrite Hact.
Qed.

(** C13: a peer of the same chain is watched. When a watch begins on a session that [connect] has made,
    and the peer sends a Status of the right version and chain and then messages of eth,
    the peer counts as connected at once, and every message after the Status is given to the service, in
    order: what the subscribers get is logged, what the service asks for is sent, and the
    session and the watch go on. The contracts of the watches must be readable, and the messages such
    as the framing can carry, the Status not under an id of the base protocol. *)
Theorem peer_watched w close_failed a s svc status ms :
  started s -> negotiated_eth_version_ s <> 0 ->
  add_watches (if empty (watch_specs w) then default_specs else watch_specs w) new_service = Some svc ->
  let compression := compression_enabled_ (stream_ s) in
  synced a (cipher_ (stream_ s)) -> fault (transport_ (stream_ s)) = None ->
  incoming (transport_ (stream_ s)) = fst (seal_all compression a (status :: ms)) ->
  Forall (sendable compression) (status :: ms) -> 4 <= msg_id status ->
  admits w (negotiated_eth_version_ s) status -> Forall (eth_message w) ms ->
  let '(_, r) := begin_watch w close_failed s in
  let '(out, r') := watch_runs w ([Loop ReceiveLoop; MessageArrives false; Resumes false] ++ reads_of ms) r in
  let '(shown_out, svc') := served w ms (set_send_callback svc) in
  out = Took (GenericCall on_generic status) :: OnConnected :: shown_out
  /\ watch_svc r' = svc' /\ place r' = AwaitEnd Waiting /\ is_active (session r') = true.
Proof using laws snappy.
  cbn zeta. intros Hst Hv Hadd Hs Hf Hi Hsend Hid Ha Hms.
  pose proof (begin_expecting w close_failed a _ s svc Hst Hv Hadd Hs Hf Hi) as H.
  destruct (begin_watch w close_failed s) as [out0 r]. destruct H as (Hp & _ & Hn & Hsvc & Hex).
  apply Forall_cons_iff in Hsend as [Hs1 Hsend]. change (status :: ms) with ([status] ++ ms) in Hex.
  rewrite seal_all_app in Hex. cbn [fst] in Hex. rewrite <- Hn in Ha.
  destruct (status_arrives w false false a _ status _ r Hp Hex Hs1 Hid Ha) as (r1 & Hr1 & Hp1 & Hrec & Hsvc1 & Hex1).
  rewrite watch_runs_app, Hr1. pose proof (messages_served w _ ms _ r1 Hrec Hex1 Hsend Hms) as H.
  destruct (watch_runs w (reads_of ms) r1) as [out r']. destruct H as (-> & -> & -> & Hact).
  rewrite Hsvc1, Hsvc. by destruct (served w ms _).
Qed.

(** The fields of a watch fit their types. *)
Definition params_ok (w : WatchParams) : Prop :=
  uint8 (eth_offset w) /\ fits 8 (network_id w) /\ hash_ok (genesis_hash w) /\ fork_ok (fork_id w).

Lemma uint_item_len k n : 0 <= k <= 32 -> fits k n -> len (rlp (uint_item n)) <= 41.
Proof. intros Hk Hn. pose proof (digits_len k n Hk Hn). unfold uint_item. etransitivity; [apply rlp_str_len; lia | lia]. Qed.

Lemma rlp_array_len n h : is_array n h -> (n <= 32)%nat -> len (rlp (Str h)) <= 41.
Proof. intros [Hl _] Hn. assert (len h <= 32) by (unfold len; lia). etransitivity; [apply rlp_str_len; lia | lia]. Qed.

(** A list of short items is short. *)
Lemma rlps_short n its : n < 2 ^ 32 -> Forall (fun it => len (rlp it) <= n) its -> len its < 2 ^ 16 ->
  len (rlp (Lst its)) <= 9 + n * len its.
Proof.
  intros Hn Hf Hl. assert (len (rlps its) <= n * len its) as Hs.
  { clear Hl. induction Hf as [|it its Hi _ IH]; [change (0 <= n * 0); lia |]. rewrite rlps_cons, len_app, len_cons. lia. }
  pose proof (len_nonneg its). etransitivity; [apply rlp_list_len; nia | lia].
Qed.

Lemma status_item_len msg : status_ok msg -> len (rlp (status_item msg)) < 2 ^ 64.
Proof.
  assert (forall f, fork_ok f -> len (rlp (fork_item f)) <= 91) as Hfork.
  { intros f [Hh Hn]. etransitivity; [apply (rlps_short 41); [lia | | done] | len_lia].
    repeat constructor; [by apply (rlp_array_len 4); [| lia] | by apply (uint_item_len 8)]. }
  assert (forall its, Forall (fun it => len (rlp it) <= 91) its -> len its < 2 ^ 16 -> len (rlp (Lst its)) < 2 ^ 64) as Hits.
  { intros its Hf Hl. eapply Z.le_lt_trans; [by apply (rlps_short 91) | pose proof (len_nonneg its); lia]. }
  assert (forall k n, 0 <= k <= 32 -> fits k n -> len (rlp (uint_item n)) <= 91) as Hu
    by (intros k n Hk Hn; pose proof (uint_item_len k n Hk Hn); lia).
  assert (forall h, hash_ok h -> len (rlp (Str h)) <= 91) as Hh by (intros h H; pose proof (rlp_array_len 32 h H); lia).
  destruct msg as [m|m]; intros H; cbn in H; decompose [and] H; (apply Hits; [| done]); repeat constructor; auto;
    first [by apply (Hu 1) | by apply (Hu 8) | by apply (Hu 32)].
Qed.

Lemma own_status_ok w v : params_ok w -> 66 <= v <= 69 ->
  status_ok (own_status w v) /\ version_ok (own_status w v) /\ ~ inverted_range (own_status w v)
  /\ get_common_fields (own_status w v) = mkCommon v (network_id w) (genesis_hash w) (fork_id w)
  /\ len (rlp (status_item (own_status w v))) < 2 ^ 64.
Proof.
  intros (_ & Hn & Hg & Hf) Hv. assert (fits 1 v /\ fits 8 0 /\ fits 32 0) as (Hv1 & H8 & H32) by (unfold fits; lia).
  assert (status_ok (own_status w v)) as Hok.
  { unfold own_status, kEthProtocolVersion68. by destruct (v <=? 68); cbn; split_and!. }
  pose proof (status_item_len _ Hok). split; [done |]. unfold own_status, kEthProtocolVersion68 in *.
  destruct (Z.leb_spec v 68); cbn -[len rlp] in *; split_and!; try done; first [lia | tauto].
Qed.

(** two watches of the same chain accept each other. The Status that one posts at its start is
    one that the other admits, when both have the same network, genesis block and offset, and
    the sessions the same version. *)
Theorem own_status_accepted w w' s :
  params_ok w -> is_active s = true -> 66 <= negotiated_eth_version_ s <= 69 ->
  network_id w' = network_id w -> genesis_hash w' = genesis_hash w -> eth_offset w' = eth_offset w ->
  exists m s', post_status w s = ([PostedMessage m (Ok tt)], s') /\ send_channel_ s' = send_channel_ s ++ [m]
  /\ admits w' (negotiated_eth_version_ s) m.
Proof.
  intros Hw Hact Hv Hn Hg Ho. destruct (own_status_ok w _ Hw Hv) as (Hok & Hver & Hr & Hc & Hl).
  destruct (status_roundtrip _ Hok Hl) as [Hrt _]. specialize (Hrt Hver). unfold send in Hrt.
  destruct (encode_status (own_status w (negotiated_eth_version_ s))) as [b|e|] eqn:He; try done. cbn [obind] in Hrt.
  injection Hrt as Hd. unfold post_status, post_eth. rewrite He, post_active by done. eexists _, _. split; [done |].
  split; [done |]. destruct Hw as [[H0 H1] _]. unfold admits. cbn [msg_id msg_payload].
  assert (u8 (eth_offset w + kWatchStatusMessageId) = eth_offset w) as ->
    by (unfold u8, kWatchStatusMessageId; rewrite Z.add_0_r, Z.mod_small; lia).
  rewrite Ho, Z.sub_diag, Hn, Hg. split_and!; [lia | done |]. exists (own_status w (negotiated_eth_version_ s)). by rewrite Hc.
Qed.

(** ** Peers of another kind *)

(** A peer that sends nothing is given up when the timer expires: the slot is given back and the
    session is closed. *)
Theorem silent_peer_given_up w close_failed r :
  place r = AwaitStatus Waiting -> status_received r = false ->
  let '(out, r') := watch_runs w [TimerExpires; Resumes close_failed] r in
  out = [OnDone] /\ place r' = WatchEnded /\ is_active (session r') = false.
Proof.
  intros Hp Hr. cbn [watch_runs watch_step]. unfold timer_expires. rewrite Hp. unfold resumes. cbn [place with_place status_received].
  rewrite Hr. cbn. split_and!; try done. apply disconnect_closes.
Qed.

(** A peer that begins with a message of eth that is not a Status, or with a Status of another chain
    or version, is given up as well. *)
Theorem bad_message_ends_handshake w close_failed close_failed' a c m rest r :
  place r = AwaitStatus Waiting -> status_received r = false ->
  expecting ReceiveReady a c (fst (seal_all c a [m]) ++ rest) (session r) ->
  sendable c m -> 4 <= msg_id m -> eth_offset w <= msg_id m -> ~ admits w (negotiated r) m ->
  let '(out, r') := watch_runs w [Loop ReceiveLoop; MessageArrives close_failed; Resumes close_failed'] r in
  out = [Took (GenericCall on_generic m); OnDone] /\ place r' = WatchEnded /\ is_active (session r') = false
  /\ watch_svc r' = watch_svc r.
Proof using laws snappy.
  intros Hp Hr Hex Hm Hid Ho Hna. destruct (next_message w close_failed a c m rest r Hex Hm Hid) as (s1 & H1 & Hrun).
  assert (generic_handler w close_failed m (with_session s1 r) = ([], fail_handshake close_failed (with_session s1 r))) as E.
  { unfold generic_handler. rewrite (proj2 (Z.ltb_ge _ _) Ho). cbv zeta.
    destruct (Z.eqb_spec (u8 (msg_id m - eth_offset w)) kWatchStatusMessageId) as [Hi|Hi].
    - by destruct (handle_status_spec w close_failed m (with_session s1 r) Ho Hi) as [[Ha _] | [_ E]].
    - cbn [status_received with_session]. by rewrite Hr. }
  rewrite E in Hrun. unfold fail_handshake, cancel_status_timeout in Hrun. cbn [place with_session] in Hrun. rewrite Hp in Hrun.
  change [Loop ReceiveLoop; MessageArrives close_failed; Resumes close_failed'] with
    ([Loop ReceiveLoop; MessageArrives close_failed] ++ [Resumes close_failed']).
  rewrite watch_runs_app, Hrun. cbn [watch_runs watch_step]. unfold resumes.
  cbn [place with_session with_place status_received session session_step snd]. rewrite Hr. cbn. split_and!; try done.
  pose proof (disconnect_closes close_failed s1) as Hd. by destruct (receive_loop _).
Qed.

(** The end of the receive loop is for good. *)
Lemma loop_stays_ended e s res : receive_loop s = ReceiveEnded res -> (forall m, e <> Post m) -> e <> Pull ->
  receive_loop (snd (step_session e s)) = ReceiveEnded res.
Proof.
  intros Hl Hp Hq. destruct e as [|failed|ec| | | |ec|m| |cf|h]; cbn [session_step snd]; rewrite ?Hl; try done.
  - destruct (send_loop s); try done. pose proof (send_iteration_receiving keccak256 aes_ecb_encrypt_block aes_ctr snappy_compress s) as E.
    unfold receiving in E. injection E as _ _ _ _ E. congruence.
  - destruct (send_loop s); try done. by destruct failed.
  - destruct (send_loop s); try done. by destruct ec.
  - by destruct (Hp m).
  - destruct (disconnect_streams cf s) as [_ E]. unfold receiving in E. injection E as _ _ _ _ E. congruence.
Qed.

(** The watch waits for its end, but its session is over and nothing will tell it. *)
Definition lost (r : WatchRun) : bool :=
  match place r, receive_loop (session r) with
  | AwaitEnd Waiting, ReceiveEnded _ => is_terminal_state (state_ (session r))
  | _, _ => false
  end.

Lemma lost_inv r : lost r = true ->
  place r = AwaitEnd Waiting /\ (exists res, receive_loop (session r) = ReceiveEnded res) /\ is_terminal_state (state_ (session r)) = true.
Proof. unfold lost. destruct (place r) as [|[|]|]; try done. destruct (receive_loop _) as [| | |res]; try done. intros Ht. eauto. Qed.

(** Only its timer ends it. *)
Lemma lost_step w e r : lost r = true -> e <> TimerExpires -> exists r', watch_step w e r = ([], r') /\ lost r' = true.
Proof.
  intros (Hp & (res & Hl) & Ht)%lost_inv Hne. assert (forall s, receive_loop s = ReceiveEnded res -> is_terminal_state (state_ s) = true ->
    lost (with_session s r) = true) as Hlost by (intros s Hs Ht'; unfold lost; cbn; by rewrite Hp, Hs).
  destruct e as [e|cf| |cf]; cbn [watch_step]; [| | done |].
  - eexists. split; [done |]. apply Hlost; [apply loop_stays_ended; [done | by destruct e..] |].
    pose proof (terminal_step keccak256 aes_ecb_encrypt_block aes_ctr snappy_compress snappy_length snappy_uncompress
      (session_event_of e) (session r) Ht) as H. destruct (step_session _ _) as [o s]. apply H.
  - exists (with_session (session r) r). split; [| by apply Hlost]. unfold message_arrives. cbn [session_step]. rewrite Hl. cbn. by rewrite Hl.
  - exists (with_session (session r) r). split; [| by apply Hlost]. unfold resumes. rewrite Hp. by destruct r.
Qed.

Lemma lost_runs w events : forall r, lost r = true -> TimerExpires ∉ events ->
  let '(out, r') := watch_runs w events r in out = [] /\ lost r' = true.
Proof.
  induction events as [|e events IH]; intros r Hl Hno; [done |]. apply not_elem_of_cons in Hno as [Hne Hno]. cbn [watch_runs].
  destruct (lost_step w e r Hl) as (r1 & -> & Hl1); [congruence |]. specialize (IH r1 Hl1 Hno). by destruct (watch_runs w events r1).
Qed.

(** the slot of a lost peer is not given back. When the connection of an accepted peer ends without
    a Disconnect message, by an error or because the peer has closed it, the session is over, but
    whatever happens then, [on_done] is not called and the coroutine waits for its second
    timer, of a year: nothing cancels it. *)
Theorem lost_peer_keeps_slot w close_failed r events :
  place r = AwaitEnd Waiting -> receive_loop (session r) = Reading ->
  fault (transport_ (stream_ (session r))) <> None \/ incoming (transport_ (stream_ (session r))) = [] ->
  TimerExpires ∉ events ->
  let '(out, r') := watch_runs w (MessageArrives close_failed :: events) r in
  done_count out = 0%nat /\ place r' = AwaitEnd Waiting /\ is_active (session r') = false.
Proof.
  intros Hp Hl Hf Hno. cbn [watch_runs watch_step]. unfold message_arrives. cbn [session_step]. rewrite Hl.
  unfold message_read, on_stream.
  destruct (receive_fails keccak256 aes_ecb_encrypt_block aes_ctr snappy_length snappy_uncompress _ Hf) as (x & -> & _).
  cbn [map called flat_map on_calls end_receive is_ok].
  pose proof (lost_runs w events) as H.
  match goal with |- context [watch_runs w events ?r1] => specialize (H r1 ltac:(unfold lost; cbn; by rewrite Hp) Hno) end.
  destruct (watch_runs w events _) as [out r']. destruct H as (-> & (Hp' & _ & Ht)%lost_inv). split_and!; try done.
  unfold is_active, is_terminal_state in *. apply bool_decide_false. intros E. by rewrite E in Ht.
Qed.
End run_watch.

(** ** Instances *)

#[local] Existing Instance sample_cipher_laws.

(** The sample session with another tail of octets on the way, and a watch of the default event. *)
Module WatchSample.
Abbreviation runs := (watch_runs ToySsl.digest Toy.aes_ecb Toy.aes_ctr Toy.compress Toy.uncompressed_length Toy.uncompress).
Abbreviation begins := (begin_watch ToySsl.digest).

Definition watched : WatchParams :=
  mkWatchParams (text "host") 30303 (key_id SessionSample.node) 0x10 11155111 (repeat 7 32) kSepoliaForkId [].
Definition other_chain : WatchParams :=
  mkWatchParams (text "host") 30303 (key_id SessionSample.node) 0x10 1 (repeat 7 32) no_fork_id [].

(** The watches that it begins with. *)
Abbreviation specs := (if empty (watch_specs watched) then default_specs else watch_specs watched).

Definition octets_of {E} (r : outcome E bytes) : bytes := match r with Ok b => b | _ => [] end.

Definition signature : bytes := text "Transfer(address,address,uint256)".
Definition transfer : LogEntry :=
  mkLogEntry (repeat 9 20) [ToySsl.digest signature; repeat 0 12 ++ repeat 1 20; repeat 0 12 ++ repeat 2 20]
    (abi_encode [VUint 1000]).
Definition receipt : Receipt :=
  {| rc_state_root := None; rc_status := Some true; rc_cumulative_gas_used := 21000;
     rc_bloom := repeat 0 256; rc_logs := [transfer] |}.

Definition status_of (w : WatchParams) : Message := mkMessage 0x10 (octets_of (encode_status (own_status w 68))).
Definition hashes : Message := mkMessage 0x11 (octets_of (encode_new_block_hashes [mkNewBlockHashEntry (repeat 5 32) 100])).
Definition receipts : Message := mkMessage 0x20 (octets_of (encode_receipts (mkWithId (Some 1) [[receipt]]))).
Definition request : Message := mkMessage 0x1f (octets_of (encode_get_receipts (mkWithId (Some 1) [repeat 5 32]))).

Definition peer : FrameCipher := snd (SessionSample.sealed_all false SessionSample.peer [hello_message SessionSample.hello]).
Definition session_with (ms : list Message) : RlpxSession :=
  let s := SessionSample.session in let t := transport_ (stream_ s) in
  with_stream (mkStream (cipher_ (stream_ s)) (mkTransport (fst (SessionSample.sealed_all true peer ms)) (outgoing t) None true)
    (compression_enabled_ (stream_ s))) s.
Definition begun (ms : list Message) : WatchRun := snd (begins watched false (session_with ms)).

Definition lines : list bytes :=
  [text "Transfer(address,address,uint256) at block 100";
   text "  [from] 0x0101010101010101010101010101010101010101";
   text "  [to] 0x0202020202020202020202020202020202020202"; text "  [value] 1000"].
End WatchSample.

(** The settings of the sample session. *)
Lemma sample_session_ok ms :
  let s := WatchSample.session_with ms in
  started s /\ negotiated_eth_version_ s = 68 /\ synced WatchSample.peer (cipher_ (stream_ s))
  /\ fault (transport_ (stream_ s)) = None /\ compression_enabled_ (stream_ s) = true
  /\ incoming (transport_ (stream_ s)) = fst (SessionSample.sealed_all true WatchSample.peer ms).
Proof.
  unfold WatchSample.session_with. generalize (fst (SessionSample.sealed_all true WatchSample.peer ms)). intros wire.
  vm_compute. by split_and!.
Defined.

Lemma sample_admitted : admits WatchSample.watched 68 (WatchSample.status_of WatchSample.watched).
Proof.
  split; [vm_compute; congruence |]. split; [reflexivity |].
  exists (own_status WatchSample.watched 68). split_and!; try (vm_compute; reflexivity). tauto.
Defined.

Lemma sendable_check compression m :
  (0 <=? msg_id m) && (msg_id m <? 256) && forallb (fun b => (0 <=? b) && (b <? 256)) (msg_payload m)
    && (len (frame_text Toy.compress compression m) <? kMaxFrameSize) = true ->
  sendable Toy.compress compression m.
Proof.
  rewrite !andb_true_iff, forallb_forall. intros [[[H1 H2] H3] H4%Z.ltb_lt]. split; [unfold uint8; lia |]. split; [| exact H4].
  apply Forall_forall. intros b Hb. apply H3, andb_true_iff in Hb as [H5 H6]. unfold uint8. lia.
Qed.

Lemma sample_messages_sendable :
  Forall (sendable Toy.compress true)
    [WatchSample.status_of WatchSample.watched; WatchSample.hashes; WatchSample.receipts].
Proof. repeat apply Forall_cons; try apply Forall_nil; try apply sendable_check; vm_compute; reflexivity. Defined.


(** A run on the sample: the peer announces a block, its receipts are asked for, and the transfer in
    them is logged with its fields. *)
Lemma peer_watched_witness :
  let '(_, r) := WatchSample.begins WatchSample.watched false
    (WatchSample.session_with [WatchSample.status_of WatchSample.watched; WatchSample.hashes; WatchSample.receipts]) in
  let '(out, r') := WatchSample.runs WatchSample.watched ([Loop ReceiveLoop; MessageArrives false; Resumes false]
    ++ reads_of [WatchSample.hashes; WatchSample.receipts]) r in
  out = [Took (GenericCall on_generic (WatchSample.status_of WatchSample.watched)); OnConnected;
         Took (GenericCall on_generic WatchSample.hashes); PostedMessage WatchSample.request (Ok tt);
         Took (GenericCall on_generic WatchSample.receipts); Logged WatchSample.lines]
  /\ place r' = AwaitEnd Waiting.
Proof.
  set (ms := [WatchSample.hashes; WatchSample.receipts]).
  destruct (sample_session_ok (WatchSample.status_of WatchSample.watched :: ms)) as (H1 & H2 & H3 & H4 & H5 & H6).
  destruct (add_watches ToySsl.digest WatchSample.specs new_service) as [svc|] eqn:Esvc; [| exfalso; vm_compute in Esvc; discriminate Esvc].
  assert (negotiated_eth_version_ (WatchSample.session_with (WatchSample.status_of WatchSample.watched :: ms)) <> 0) as Hn by (rewrite H2; lia).
  pose proof (peer_watched ToySsl.digest Toy.aes_ecb Toy.aes_ctr Toy.compress Toy.uncompressed_length Toy.uncompress
    WatchSample.watched false WatchSample.peer) as H.
  specialize (H _ svc (WatchSample.status_of WatchSample.watched) ms H1).
  specialize (H Hn).
  specialize (H Esvc).
  cbn zeta in H. rewrite H5, H2 in H.
  specialize (H H3 H4 H6).
  specialize (H sample_messages_sendable).
  specialize (H ltac:(cbn; lia)).
  specialize (H sample_admitted).
  assert (Forall (eth_message WatchSample.watched) ms) as Hms
    by (apply Forall_cons; [| apply Forall_cons; [| apply Forall_nil]];
        (split; [apply Z.leb_le; reflexivity | split; [apply Z.leb_le; reflexivity | apply Z.eqb_neq; reflexivity]])).
  specialize (H Hms). destruct (WatchSample.begins _ _ _) as [out0 r]. destruct (WatchSample.runs _ _ r) as [out r'].
  destruct (served ToySsl.digest WatchSample.watched ms (set_send_callback svc)) as [shown svc'] eqn:Es.
  destruct H as (-> & _ & Hp & _). split; [| exact Hp]. vm_compute in Esvc. injection Esvc as <-. vm_compute in Es.
  injection Es as <- _. vm_compute. reflexivity.
Defined.

Lemma status_first_witness :
  let '(out0, r) := WatchSample.begins WatchSample.watched false
    (WatchSample.session_with [WatchSample.hashes; WatchSample.status_of WatchSample.watched]) in
  let '(out, r') := WatchSample.runs WatchSample.watched
    [Loop ReceiveLoop; MessageArrives false; Resumes false; Loop ReceiveLoop; MessageArrives false] r in
  length out0 = 1%nat /\ ~ In OnConnected out /\ watch_svc r' = watch_svc r.
Proof.
  pose proof (status_first ToySsl.digest Toy.aes_ecb Toy.aes_ctr Toy.compress Toy.uncompressed_length Toy.uncompress WatchSample.watched false
    (WatchSample.session_with [WatchSample.hashes; WatchSample.status_of WatchSample.watched])
    [Loop ReceiveLoop; MessageArrives false; Resumes false; Loop ReceiveLoop; MessageArrives false]) as H.
  destruct (WatchSample.begins _ _ _) as [out0 r] eqn:Eb.
  destruct (WatchSample.runs _ _ _) as [out r'] eqn:E. destruct H as [_ H]. vm_compute in Eb. injection Eb as <- <-.
  vm_compute in E. injection E as <- <-. split; [reflexivity |].
  split; [cbn; intuition congruence |]. rewrite H by reflexivity. reflexivity.
Defined.

Lemma own_status_accepted_witness : exists m s',
  post_status WatchSample.watched (WatchSample.session_with []) = ([PostedMessage m (Ok tt)], s')
  /\ admits WatchSample.watched 68 m.
Proof.
  destruct (own_status_accepted WatchSample.watched WatchSample.watched (WatchSample.session_with [])) as (m & s' & H1 & _ & H2).
  - split; [unfold uint8; cbn; lia |]. split; [unfold fits; cbn; lia |]. split; [unfold hash_ok; octets |].
    split; [octets | unfold fits; cbn; lia].
  - vm_compute. reflexivity.
  - assert (negotiated_eth_version_ (WatchSample.session_with []) = 68) as -> by (vm_compute; reflexivity). lia.
  - reflexivity.
  - reflexivity.
  - reflexivity.
  - exists m, s'. by split.
Defined.

Lemma silent_peer_given_up_witness :
  let '(out, r') := WatchSample.runs WatchSample.watched [TimerExpires; Resumes false] (WatchSample.begun []) in
  out = [OnDone] /\ place r' = WatchEnded.
Proof.
  pose proof (silent_peer_given_up ToySsl.digest Toy.aes_ecb Toy.aes_ctr Toy.compress Toy.uncompressed_length Toy.uncompress
    WatchSample.watched false (WatchSample.begun []) eq_refl eq_refl) as H.
  destruct (WatchSample.runs _ _ _) as [out r']. destruct H as (H1 & H2 & _). exact (conj H1 H2).
Defined.

Lemma done_once_witness :
  let '(out, _) := WatchSample.runs WatchSample.watched [TimerExpires; Resumes false; Resumes false] (WatchSample.begun []) in
  (done_count out <= 1)%nat.
Proof.
  pose proof (done_once ToySsl.digest Toy.aes_ecb Toy.aes_ctr Toy.compress Toy.uncompressed_length Toy.uncompress WatchSample.watched
    (WatchSample.begun []) [TimerExpires; Resumes false; Resumes false]) as H.
  specialize (H ltac:(vm_compute; discriminate)). destruct (WatchSample.runs _ _ _). by destruct H.
Defined.

(** A peer of another chain. *)
Lemma bad_message_ends_handshake_witness :
  let '(out, r') := WatchSample.runs WatchSample.watched [Loop ReceiveLoop; MessageArrives false; Resumes false]
    (WatchSample.begun [WatchSample.status_of WatchSample.other_chain]) in
  out = [Took (GenericCall on_generic (WatchSample.status_of WatchSample.other_chain)); OnDone] /\ place r' = WatchEnded.
Proof.
  set (m := WatchSample.status_of WatchSample.other_chain).
  destruct (sample_session_ok [m]) as (H1 & H2 & H3 & H4 & H5 & H6).
  destruct (add_watches ToySsl.digest WatchSample.specs new_service) as [svc|] eqn:Esvc; [| exfalso; vm_compute in Esvc; discriminate Esvc].
  pose proof (begin_expecting ToySsl.digest WatchSample.watched false WatchSample.peer _ _ svc H1 ltac:(by rewrite H2) Esvc H3 H4 H6) as H.
  unfold WatchSample.begun. destruct (WatchSample.begins _ _ _) as [out0 r]. cbn [snd].
  destruct H as (Hp & Hr & Hn & _ & Hex). rewrite H5 in Hex. rewrite <- (app_nil_r (fst _)) in Hex.
  pose proof (bad_message_ends_handshake ToySsl.digest Toy.aes_ecb Toy.aes_ctr Toy.compress Toy.uncompressed_length Toy.uncompress
    WatchSample.watched false false WatchSample.peer true m [] r Hp Hr Hex) as H.
  specialize (H ltac:(by apply sendable_check; vm_compute)). specialize (H ltac:(vm_compute; congruence) ltac:(vm_compute; congruence)).
  assert (~ admits WatchSample.watched (negotiated r) m) as Hna.
  { intros (_ & _ & st & Hd & _ & Hnet & _). vm_compute in Hd. injection Hd as <-. by vm_compute in Hnet. }
  specialize (H Hna). destruct (WatchSample.runs _ _ r) as [out r']. destruct H as (Ho & Hpl & _). split; [exact Ho | exact Hpl].
Defined.

(** The accepted peer closes the connection, and every loop runs. *)
Lemma lost_peer_keeps_slot_witness :
  let r := snd (WatchSample.runs WatchSample.watched
    [Loop ReceiveLoop; MessageArrives false; Resumes false; Loop ReceiveLoop]
    (WatchSample.begun [WatchSample.status_of WatchSample.watched])) in
  place r = AwaitEnd Waiting
  /\ let '(out, r') := WatchSample.runs WatchSample.watched
       [MessageArrives false; Loop SendLoop; Resumes false; Loop (Stopped false); Resumes false] r in
     done_count out = 0%nat /\ place r' = AwaitEnd Waiting.
Proof.
  cbn zeta. split; [vm_compute; reflexivity |].
  pose proof (lost_peer_keeps_slot ToySsl.digest Toy.aes_ecb Toy.aes_ctr Toy.compress Toy.uncompressed_length Toy.uncompress
    WatchSample.watched false (snd (WatchSample.runs WatchSample.watched
      [Loop ReceiveLoop; MessageArrives false; Resumes false; Loop ReceiveLoop]
      (WatchSample.begun [WatchSample.status_of WatchSample.watched])))
    [Loop SendLoop; Resumes false; Loop (Stopped false); Resumes false]) as H.
  specialize (H ltac:(vm_compute; reflexivity) ltac:(vm_compute; reflexivity) ltac:(right; vm_compute; reflexivity)).
  assert (TimerExpires ∉ [Loop SendLoop; Resumes false; Loop (Stopped false); Resumes false]) as Hno
    by (intros Hin; repeat (apply elem_of_cons in Hin as [Hin | Hin]; [discriminate Hin |]); by apply elem_of_nil in Hin).
  specialize (H Hno).
  destruct (WatchSample.runs _ [_; _; _; _; _] _) as [out r']. destruct H as (H1 & H2 & _). exact (conj H1 H2).
Defined.
