(* ===== verification/EthWatchMain.v ===== *)
(** * EthWatchMain: the eth_watch program

    The rest of [main] of [examples/eth_watch/eth_watch.cpp]: the discovery client, the dial scheduler and the
    watches of [EthWatch.v], put together as the program puts them. [launch] is what [main] sets up once
    [EthWatchConfig.v] has read the arguments: with [ConnectTo] one watch with callbacks that do nothing,
    with [Discover] a client that asks each bootnode for its neighbours and reports peers to [peer_discovered],
    a pool of 200 slots, ten for each chain, and a scheduler whose dial function is [run_watch]. A run of it is a sequence of
    [program_event]s in any order: what comes to the client and its coroutines ([Discv4Client.v]), the
    end of a connection attempt, an event of a watch. The thread of the [io_context] takes one after the other, so
    no more is interleaved. A dial has the number of its spawning, and its random draws start where the
    event says. The program never calls [stop], neither of the scheduler nor of the client, so that no event here stops it.

    Theorems: in every state the counters of scheduler and pool are the watches that run
    ([slots_are_watches]); what is dialed was reported by the client, with a valid key, and no endpoint twice
    ([dialed_once]); scheduler and dials refine the scheduler's specification ([program_refines_scheduler]) and
    the counts of validated connections are what they are there ([validated_count_counts_calls]); a peer that is found is dialed and
    watched, up to the log lines of its events ([discovered_peer_watched]); ten peers whose connection is lost
    stop all dialing ([lost_peers_stop_dialing]). Not modelled: the logging, the printing of the usage and the
    signals. *)
From S2P Require Discv4Client Discv4Bonding.
From S2P Require Import Addresses.
From S2P Require Export EthWatch.
From S2P Require Import Dialing.
Open Scope Z_scope.

(** ** Data *)

(** A dial: it connects, its peer is watched, or it has ended without a session. *)
Inductive dial_place := Connecting | Watching (r : WatchRun) | Unconnected.

#[export, refine] Instance watching_dial : DialFn dial_place watch_output := {|
  at_start := Connecting;
  flight x := match x with Connecting => 1 | Watching r => 1 - ended r | Unconnected => 0 end%nat;
  calls o := match o with OnConnected => Some ConnectedCall | OnDone => Some DoneCall | _ => None end
|}.
Proof. all: [> reflexivity | intros [|r|]; cbn; lia]. Defined.

(** The client of discovery, and the scheduler with its dials. *)
Record Program := mkProgram { discovery : Discv4Client.world; dialer : Dialer dial_place }.

(** ** What is set up *)

(** [WatcherPool(200, 10)], and the scheduler that shares it. *)
Definition watcher_pool : WatcherPool := mkPool 200 10 0.
Definition new_dialer : Dialer dial_place :=
  mkDialer (mkLocal (new_scheduler None kDefaultDialHistoryExpiry) watcher_pool 0) [].

(** [discv4Config] with its initialisers, and a port that the system picks. *)
Definition discovery_config (keypair : Ecdh.KeyPair) : Discv4Client.discv4Config :=
  Discv4Client.mkConfig (text "0.0.0.0") 0 30303 (Ecdh.private_key keypair) (Ecdh.public_key keypair)
    kDefaultPingTimeout kDefaultPeerExpiry.

(** What the dial function gives to [run_watch]. *)
Definition dial_params (c : Config) (vp : ValidatedPeer) : WatchParams :=
  mkWatchParams (peer_ip (peer vp)) (tcp_port (peer vp)) (pubkey vp) (cfg_eth_offset c) (cfg_network_id c)
    (cfg_genesis_hash c) (cfg_fork_id c) (cfg_watch_specs c).

(** The calls on the client, which has both callbacks: a search at each bootnode, and the start. *)
Definition discovery_calls (targets : list (bytes * Z * bytes)) : list Discv4Client.Event :=
  Discv4Client.SetCallbacks true true
  :: map (fun '(host, port, id) => Discv4Client.Call (Discv4Client.CallFindNode host port id)) targets
  ++ [Discv4Client.Start].

(** The two ways the program goes on when it is set up: with discovery, or with one peer, whose dial
    has callbacks that do nothing. *)
Inductive launched := Discovering (keypair : Ecdh.KeyPair) (p : Program) | Dialing (w : WatchParams).

(** ** Runs *)

(** What can happen: an event of the client's coroutines, clocks and socket; the end of a connection
    attempt, with what the socket and the handshake gave and the first of its random draws; an event
    of a watch. *)
Inductive program_event :=
| Discovery (e : Discv4Client.Event)
| ConnectEnds (k : nat) (connected : SessionResult SocketTransport) (close_failed : bool) (draw : nat)
| WatchEvent (k : nat) (e : run_event).

(** After the setup nobody calls the client but its own coroutines. *)
Definition happens (e : Discv4Client.Event) : bool :=
  match e with
  | Discv4Client.Tick _ _ | Discv4Client.Begin _ | Discv4Client.Resume _ _ | Discv4Client.Receive _ => true
  | _ => false
  end.

(** The peers that the callback was called with between [w] and [w']. *)
Definition newly_found (w w' : Discv4Client.world) : list DiscoveredPeer :=
  let l := Discv4Client.log (Discv4Client.client w) in
  let l' := Discv4Client.log (Discv4Client.client w') in
  rev (Discv4Bonding.found (take (length l' - length l) l')).

Section program.
Context (keccak256 : bytes -> bytes) (aes_ecb_encrypt_block : bytes -> bytes -> bytes)
  (aes_ctr : bytes -> nat -> bytes -> bytes)
  (snappy_compress : bytes -> bytes) (snappy_length : bytes -> option Z) (snappy_uncompress : bytes -> option bytes).
Context `{Secp256k1} `{OpenSsl} `{AddressText} (fuel : nat) (unset : AuthKeyMaterial) (unset_secrets : bytes * bytes).
(** The steady clock of the scheduler. *)
Context (clock : nat -> Z).

(** [main] once the arguments are read; [None] ends it with status 1. *)
Definition launch (c : Config) (opens binds : bool) (draw : nat) : option launched :=
  match plan c with
  | None => None
  | Some (Discover targets) =>
      match Ecdh.generate_ephemeral_keypair fuel draw with
      | (Ok keypair, _) =>
          let config := discovery_config keypair in
          match Discv4Client.new_client config opens binds with
          | Ok client =>
              let w := Discv4Client.run_events keccak256 config (Discv4Client.start_world client) (discovery_calls targets) in
              Some (Discovering keypair (mkProgram w new_dialer))
          | _ => None
          end
      | _ => None
      end
  | Some (ConnectTo host port key) =>
      Some (Dialing (mkWatchParams host port key (cfg_eth_offset c) (cfg_network_id c) (cfg_genesis_hash c)
                       (cfg_fork_id c) (cfg_watch_specs c)))
  end.
Definition eth_watch_main (args : list bytes) (opens binds : bool) (draw : nat) : option launched :=
  c ← parse_arguments args; launch c opens binds draw.

(** The peer callback. *)
Definition peer_discovered (found : DiscoveredPeer) (d : Dialer dial_place) : Dialer dial_place :=
  let vp := mkValidatedPeer found (node_id found) in
  if Ecdh.verify_public_key (pubkey vp) then offer clock vp d else d.

Section config.
Context (c : Config) (keypair : Ecdh.KeyPair).

Definition discover (e : Discv4Client.Event) (p : Program) : Program :=
  let w := Discv4Client.step keccak256 (discovery_config keypair) (discovery p) e in
  mkProgram w (fold_left (fun d found => peer_discovered found d) (newly_found (discovery p) w) (dialer p)).

(** Dial [k] goes on. *)
Definition dial_on (k : nat) (x : dial_place) (out : list watch_output) (p : Program) : Trace watch_output * Program :=
  let '(tr, d) := advance clock k x out (dialer p) in (tr, mkProgram (discovery p) d).

(** One event; one that cannot happen changes nothing. *)
Definition program_step (e : program_event) (p : Program) : Trace watch_output * Program :=
  if Discv4Client.crashed (discovery p) then ([], p) else
  match e with
  | Discovery e => ([], if happens e then discover e p else p)
  | ConnectEnds k connected close_failed draw =>
      match dials (dialer p) !! k with
      | Some (mkDialed vp _ Connecting) =>
          let '(out, r, _) :=
            run_watch keccak256 aes_ecb_encrypt_block aes_ctr snappy_compress snappy_length snappy_uncompress fuel unset
              unset_secrets (dial_params c vp) connected close_failed draw in
          dial_on k (match r with Some r => Watching r | None => Unconnected end) out p
      | _ => ([], p)
      end
  | WatchEvent k e =>
      match dials (dialer p) !! k with
      | Some (mkDialed vp _ (Watching r)) =>
          let '(out, r) :=
            watch_step keccak256 aes_ecb_encrypt_block aes_ctr snappy_compress snappy_length snappy_uncompress (dial_params c vp) e r in
          dial_on k (Watching r) out p
      | _ => ([], p)
      end
  end.

Fixpoint program_runs (es : list program_event) (p : Program) : Trace watch_output * Program :=
  match es with
  | [] => ([], p)
  | e :: es =>
      let '(out, p) := program_step e p in
      let '(out', p) := program_runs es p in (out ++ out', p)
  end.
End config.
End program.

(** ** Steps *)

Lemma dones_done_count out : dones out = done_count out.
Proof. unfold dones, done_count. induction out as [|o out IH]; [done |]. cbn [List.filter]. destruct o; cbn; lia. Qed.

(** The peers with a usable key, as they are given to the scheduler. *)
Definition offers `{Secp256k1} (fs : list DiscoveredPeer) : list ValidatedPeer :=
  map (fun f => mkValidatedPeer f (node_id f)) (List.filter (fun f => Ecdh.verify_public_key (node_id f)) fs).

Lemma discovered_offers `{Secp256k1} clock fs : forall d,
  fold_left (fun d f => peer_discovered clock f d) fs d = fold_left (fun d vp => offer clock vp d) (offers fs) d.
Proof.
  induction fs as [|f fs IH]; intros d; [done |]. cbn [fold_left]. rewrite IH. unfold peer_discovered, offers. cbn [List.filter pubkey].
  by destruct (Ecdh.verify_public_key (node_id f)).
Qed.

Section invariants.
Context (keccak256 : bytes -> bytes) (aes_ecb_encrypt_block : bytes -> bytes -> bytes)
  (aes_ctr : bytes -> nat -> bytes -> bytes)
  (snappy_compress : bytes -> bytes) (snappy_length : bytes -> option Z) (snappy_uncompress : bytes -> option bytes).
Context `{Secp256k1} `{OpenSsl} `{AddressText} (fuel : nat) (unset : AuthKeyMaterial) (unset_secrets : bytes * bytes).
Context (clock : nat -> Z) (c : Config) (keypair : Ecdh.KeyPair).

Abbreviation step := (program_step keccak256 aes_ecb_encrypt_block aes_ctr snappy_compress snappy_length snappy_uncompress
  fuel unset unset_secrets clock c keypair).
Abbreviation runs := (program_runs keccak256 aes_ecb_encrypt_block aes_ctr snappy_compress snappy_length snappy_uncompress
  fuel unset unset_secrets clock c keypair).
Abbreviation launches := (launch keccak256 fuel c).
Abbreviation watch := (watch_step keccak256 aes_ecb_encrypt_block aes_ctr snappy_compress snappy_length snappy_uncompress).

(** A dial calls [on_done] just when it leaves its slot. *)
Lemma begin_watch_done w cf s : let '(out, r) := begin_watch keccak256 w cf s in (done_count out + flight (Watching r) = 1)%nat.
Proof.
  unfold begin_watch. destruct (_ =? 0); [done |]. unfold post_status, post_eth.
  assert (forall out s', done_count out = 0%nat ->
    let '(out, r) := match add_watches keccak256 (if empty (watch_specs w) then default_specs else watch_specs w) new_service with
      | Some svc => (out, mkRun (with_handlers watch_handlers s') (negotiated_eth_version_ s) (set_send_callback svc) false (AwaitStatus Waiting))
      | None => (out ++ [OnDone], mkRun s' (negotiated_eth_version_ s) new_service false WatchEnded)
      end in (done_count out + flight (Watching r) = 1)%nat) as Hspecs.
  { intros out s' Hout. destruct (add_watches _ _ _); cbn [flight watching_dial ended place]; [by rewrite Hout |].
    unfold done_count in *. by rewrite List.filter_app, length_app, Hout. }
  destruct (encode_status _) as [encoded|e|]; [| by apply Hspecs ..].
  destruct (post_message _ s) as [result s']. by apply Hspecs.
Qed.

Lemma run_watch_done w connected cf draw :
  let '(out, r, _) := run_watch keccak256 aes_ecb_encrypt_block aes_ctr snappy_compress snappy_length snappy_uncompress fuel unset
    unset_secrets w connected cf draw in
  (done_count out + flight (match r with Some r => Watching r | None => Unconnected end) = 1)%nat.
Proof.
  unfold run_watch. destruct (Ecdh.generate_ephemeral_keypair fuel draw) as [[kp|e|] i]; [| done ..].
  destruct (connect _ _ _ _ _ _ _ _ _ _ _ _) as [[s|e|] i']; [| done ..].
  pose proof (begin_watch_done w cf s) as Hb. by destruct (begin_watch _ w cf s).
Qed.

Lemma watch_step_done w e r : let '(out, r') := watch w e r in (done_count out + flight (Watching r') = flight (Watching r))%nat.
Proof.
  pose proof (ev_done _ _ _ _ (progresses_step keccak256 aes_ecb_encrypt_block aes_ctr snappy_compress snappy_length snappy_uncompress w e r)) as Hd.
  destruct (watch w e r) as [out r']. cbn [fst snd flight watching_dial] in *. unfold ended in *. destruct (place r), (place r'); lia.
Qed.

(** The steps of a program: what is found is offered to the scheduler, or one dial goes on. *)
Inductive step_case (e : program_event) (p : Program) : Trace watch_output -> Program -> Prop :=
| step_nothing : step_case e p [] p
| step_discovers d : e = Discovery d -> happens d = true ->
    let w := Discv4Client.step keccak256 (discovery_config keypair) (discovery p) d in
    step_case e p [] (mkProgram w (fold_left (fun d vp => offer clock vp d) (offers (newly_found (discovery p) w)) (dialer p)))
| step_dials k a x out : dials (dialer p) !! k = Some a -> proper_step a x out ->
    (forall r, progress a = Watching r -> exists ev r', e = WatchEvent k ev /\ x = Watching r' /\ watch (dial_params c (dialed a)) ev r = (out, r')) ->
    step_case e p (fst (advance clock k x out (dialer p))) (mkProgram (discovery p) (snd (advance clock k x out (dialer p)))).

Lemma step_cases e p : step_case e p (fst (step e p)) (snd (step e p)).
Proof.
  unfold program_step. destruct (Discv4Client.crashed (discovery p)) eqn:Hc; [apply step_nothing |].
  destruct e as [d|k connected cf draw|k ev].
  - destruct (happens d) eqn:Hd; [| apply step_nothing]. cbn [fst snd]. unfold discover. rewrite discovered_offers. exact (step_discovers _ p d eq_refl Hd).
  - destruct (dials (dialer p) !! k) as [[vp v x]|] eqn:Hk; [| apply step_nothing]. destruct x as [|r|]; try apply step_nothing.
    pose proof (run_watch_done (dial_params c vp) connected cf draw) as Hd.
    destruct (run_watch _ _ _ _ _ _ _ _ _ _ _ _ _) as [[out r] i].
    apply (step_dials _ _ k _ _ out Hk); [unfold proper_step; by rewrite dones_done_count | by intros].
  - destruct (dials (dialer p) !! k) as [[vp v x]|] eqn:Hk; [| apply step_nothing]. destruct x as [|r|]; try apply step_nothing.
    pose proof (watch_step_done (dial_params c vp) ev r) as Hd. destruct (watch (dial_params c vp) ev r) as [out r'] eqn:E.
    apply (step_dials _ _ k _ _ out Hk); [unfold proper_step; by rewrite dones_done_count |]. intros r0 [= <-]. by exists ev, r'.
Qed.

(** What offers and steps of dials keep, events keep. *)
Lemma dialer_inv (I : Dialer dial_place -> Prop) e p : (forall vp d, I d -> I (offer clock vp d)) ->
  (forall k a x out, dials (dialer p) !! k = Some a -> proper_step a x out ->
    (forall r, progress a = Watching r -> exists ev r', e = WatchEvent k ev /\ x = Watching r' /\ watch (dial_params c (dialed a)) ev r = (out, r')) ->
    I (snd (advance clock k x out (dialer p)))) ->
  I (dialer p) -> I (dialer (snd (step e p))).
Proof.
  intros Ho Ha Hp. destruct (step_cases e p) as [|d _ _ w|k a x out Hk Hd Hev]; cbn [dialer]; [done | | by apply Ha with a].
  revert Hp. generalize (dialer p). induction (offers _) as [|vp vps IH]; intros d' Hd'; [done |]. cbn [fold_left]. by apply IH, Ho.
Qed.

Lemma runs_inv (I : Program -> Prop) (Q : program_event -> Prop) : (forall e p, Q e -> I p -> I (snd (step e p))) ->
  forall es p, Forall Q es -> I p -> I (snd (runs es p)).
Proof.
  intros Hstep es. induction es as [|e es IH]; intros p He Hp; [done |]. apply Forall_cons_iff in He as [He Hes]. cbn [program_runs].
  specialize (Hstep e p He Hp). destruct (step e p) as [out p1]. specialize (IH p1 Hes Hstep). by destruct (runs es p1).
Qed.

Lemma launched_program opens binds draw kp p : launches opens binds draw = Some (Discovering kp p) ->
  dialer p = new_dialer
  /\ exists targets, discovery p = Discv4Client.run_events keccak256 (discovery_config kp)
       (Discv4Client.start_world Discv4Client.fresh_client) (discovery_calls targets).
Proof.
  unfold launch. destruct (plan c) as [[targets|]|]; try done.
  destruct (Ecdh.generate_ephemeral_keypair fuel draw) as [[kp'|e|] i]; try done.
  unfold Discv4Client.new_client. destruct (make_address _) as [[a|a]|]; try done. destruct opens, binds; try done. cbn [negb].
  intros [= <- <-]. split; [done |]. by exists targets.
Qed.

(** ** Slots *)

Abbreviation slots' := (slots 200 10 0).

Lemma slots_step e p : slots' (dialer p) -> slots' (dialer (snd (step e p))).
Proof. intros Hp. apply dialer_inv; [apply slots_offer | | done]. intros k a x out Hk Hd _. by apply slots_advance with a. Qed.

(** What every state of the program has. *)
Lemma reached_slots opens binds draw p0 es : launches opens binds draw = Some (Discovering keypair p0) ->
  slots' (dialer (snd (runs es p0))) /\ unstopped None (dialer (snd (runs es p0))).
Proof.
  intros Hl. destruct (launched_program _ _ _ _ _ Hl) as (Hs & _).
  apply (runs_inv (fun p => slots' (dialer p) /\ unstopped None (dialer p)) (fun _ => True));
    [| by apply Forall_true | rewrite Hs; split; by split].
  intros e p _ [Hp Hu]. split; [by apply slots_step |]. apply dialer_inv; [apply unstopped_offer | | done].
  intros. by apply unstopped_advance.
Qed.

(** C23: the slots of the scheduler are the watches that run. In every state of the program the counters
    of the scheduler and of the pool are the number of dials that have not called [on_done], and
    these are never more than ten. *)
Theorem slots_are_watches opens binds draw p0 es :
  launches opens binds draw = Some (Discovering keypair p0) ->
  let d := dialer (snd (runs es p0)) in
  active (sched (scheduling d)) = live d /\ active_total (pool (scheduling d)) = live d /\ live d <= 10.
Proof.
  intros Hl. destruct (reached_slots _ _ _ _ es Hl) as [[Ha Ht _ [Hc _]] _]. cbn zeta. lia.
Qed.

(** ** Peers that are lost *)

Definition lost_dial (x : dial_place) : bool := match x with Watching r => lost r | _ => false end.

Lemma lost_dial_flight x : lost_dial x = true -> flight x = 1%nat.
Proof. destruct x as [|r|]; try done. intros (Hp & _)%lost_inv. cbn. unfold ended. by rewrite Hp. Qed.

Lemma stuck_step vps e p : (forall k, e <> WatchEvent k TimerExpires) ->
  stuck (total := 200) (per_chain := 10) lost_dial vps (dialer p) -> stuck (total := 200) (per_chain := 10) lost_dial vps (dialer (snd (step e p))).
Proof.
  intros Hne Hst. apply dialer_inv; [| | done].
  - intros vp d. apply stuck_offer, lost_dial_flight.
  - intros k a x out Hk Hd Hev. apply (stuck_advance clock lost_dial lost_dial_flight vps k a); [done | done | | done].
    unfold is_parked, lost_dial. destruct (progress a) as [|r|] eqn:Hp; try done. intros Hl.
    destruct (Hev r eq_refl) as (ev & r' & -> & -> & Hw).
    destruct (lost_step keccak256 aes_ecb_encrypt_block aes_ctr snappy_compress snappy_length snappy_uncompress (dial_params c (dialed a)) ev r Hl)
      as (r1 & Hw1 & Hr1); [intros ->; by apply (Hne k) |]. rewrite Hw in Hw1. by injection Hw1 as _ ->.
Qed.

(** C15: ten lost peers end the program's work. Once the connections of ten peers that were accepted
    are lost without a Disconnect message, no peer is dialed again, whatever is discovered and
    whatever happens, until one of the timers of a year expires. *)
Theorem lost_peers_stop_dialing p es :
  slots 200 10 0 (dialer p) -> 10 <= count (is_parked lost_dial) (dials (dialer p)) ->
  Forall (fun e => forall k, e <> WatchEvent k TimerExpires) es ->
  let p' := snd (runs es p) in
  map dialed (dials (dialer p')) = map dialed (dials (dialer p)) /\ 10 <= count (is_parked lost_dial) (dials (dialer p')).
Proof.
  intros Hs Hl Hes.
  pose proof (runs_inv (fun q => stuck (total := 200) (per_chain := 10) lost_dial (map dialed (dials (dialer p))) (dialer q)) _ (stuck_step _) es p Hes) as Hr.
  destruct Hr as [_ Hr1 Hr2]; [by split |]. by split.
Qed.

(** ** Who is dialed *)

Abbreviation log_of p := (Discv4Client.log (Discv4Client.client (discovery p))).

(** The events of discovery bring octets. *)
Definition program_event_ok (e : program_event) : Prop := match e with Discovery d => Discv4Bonding.event_ok d | _ => True end.

Record dials_found (p : Program) : Prop := {
  df_world : Discv4Bonding.world_inv keccak256 (discovery_config keypair) True (discovery p);
  df_offered : offered (offers (Discv4Bonding.found (log_of p))) (dialer p)
}.

Lemma found_app l l' : Discv4Bonding.found (l ++ l') = Discv4Bonding.found l ++ Discv4Bonding.found l'.
Proof. apply omap_app. Qed.

Lemma offers_perm fs gs : fs ≡ₚ gs -> offers fs ≡ₚ offers gs.
Proof. intros Hp. unfold offers. apply Permutation_map. induction Hp; cbn; repeat (case_match; try done); econstructor; eauto. Qed.
Lemma offers_app fs gs : offers (fs ++ gs) = offers fs ++ offers gs.
Proof. unfold offers. by rewrite List.filter_app, map_app. Qed.

Lemma newly_found_app w w' l : Discv4Client.log (Discv4Client.client w') = l ++ Discv4Client.log (Discv4Client.client w) ->
  newly_found w w' = rev (Discv4Bonding.found l).
Proof. intros E. unfold newly_found. rewrite E, length_app. by rewrite Nat.add_sub, take_app_length. Qed.

Lemma dials_found_step e p : program_event_ok e -> dials_found p -> dials_found (snd (step e p)).
Proof.
  intros He [Hw Ho]. destruct (step_cases e p) as [|d -> _ w|k a x out Hk Hd Hev]; [done | |]; split; cbn [discovery dialer]; try done.
  - by apply Discv4Bonding.any_steps.
  - destruct (Discv4Bonding.any_grows keccak256 (discovery_config keypair) (discovery p) d Hw He) as [l Hl]. fold w in Hl.
    rewrite Hl, (newly_found_app _ _ _ Hl), found_app, offers_app, <- (offers_perm (rev _) _ (Permutation_sym (Permutation_rev _))).
    by apply offered_all.
  - by apply offered_advance.
Qed.


(** ** The program runs the scheduler *)

Lemma simulated_offers w0 s vps : forall d, simulated clock w0 s d -> simulated clock w0 s (fold_left (fun d vp => offer clock vp d) vps d).
Proof. induction vps as [|vp vps IH]; intros d Hd; [done |]. cbn [fold_left]. by apply IH, simulated_offer. Qed.

Lemma simulated_runs w0 es : forall s p, simulated clock w0 s (dialer p) -> honoured s (fst (runs es p)) = true ->
  simulated clock w0 (fold_left note (fst (runs es p)) s) (dialer (snd (runs es p))).
Proof.
  induction es as [|e es IH]; intros s p Hs Hh; [done |]. cbn [program_runs] in *.
  assert (honoured s (fst (step e p)) = true -> simulated clock w0 (fold_left note (fst (step e p)) s) (dialer (snd (step e p)))) as Hstep.
  { destruct (step_cases e p) as [|d -> _ w|k a x out Hk Hd Hev]; [done | intros _; by apply simulated_offers |].
    exact (simulated_advance clock w0 s k a x out (dialer p) Hk Hd Hs). }
  destruct (step e p) as [out p1]. cbn [fst snd] in Hstep. specialize (IH (fold_left note out s) p1).
  destruct (runs es p1) as [out' p2]. cbn [fst snd] in *. rewrite honoured_app in Hh. apply andb_true_iff in Hh as [Hh1 Hh2].
  rewrite fold_left_app. by apply IH; [apply Hstep |].
Qed.

(** C9: the program refines the scheduler's specification. As long as each dial calls [on_connected] at
    most once and not after [on_done], as the scheduler asks, the program's scheduler, its pool and
    its dials in flight are what some events of [DialScheduler.v] make of a chain with these caps and
    no filter, so that what is proved there of every order of events holds for the program. *)
Theorem program_refines_scheduler opens binds draw p0 es :
  launches opens binds draw = Some (Discovering keypair p0) ->
  let '(tr, p) := runs es p0 in
  honoured ([], []) tr = true ->
  exists des w, run_dials clock des (initial 200 10 {[0 := (None, kDefaultDialHistoryExpiry)]}) = Some w
    /\ w_pool w = pool (scheduling (dialer p)) /\ w_chains w = {[0 := sched (scheduling (dialer p))]}
    /\ w_dials w = map view (List.filter in_flight (dials (dialer p))).
Proof.
  intros Hl. destruct (launched_program _ _ _ _ _ Hl) as (Hsch & _).
  pose proof (simulated_runs (initial 200 10 {[0 := (None, kDefaultDialHistoryExpiry)]}) es ([], []) p0) as Hr.
  rewrite Hsch in Hr. specialize (Hr (simulated_start clock 200 10 None kDefaultDialHistoryExpiry)).
  destruct (runs es p0) as [tr p]. intros Hh. exact (simulated_world clock _ _ _ (Hr Hh)).
Qed.

(** ** The count of validated connections *)

Lemma tallies_offers s vps : forall d, agrees s d -> tallies s d [] (fold_left (fun d vp => offer clock vp d) vps d).
Proof.
  induction vps as [|vp vps IH]; intros d Ha; [by apply tallies_quiet |]. cbn [fold_left].
  pose proof (tallies_offer clock s vp d Ha) as Ho. apply (tallies_trans s d _ _ [] [] Ho), IH, Ho.
Qed.

Lemma tallies_runs es : forall s p, agrees s (dialer p) -> tallies s (dialer p) (fst (runs es p)) (dialer (snd (runs es p))).
Proof.
  induction es as [|e es IH]; intros s p Ha; [by apply tallies_quiet |]. cbn [program_runs].
  assert (tallies s (dialer p) (fst (step e p)) (dialer (snd (step e p)))) as Hs.
  { destruct (step_cases e p) as [|d -> _ w|k a x out Hk Hd Hev]; [by apply tallies_quiet | by apply tallies_offers |].
    exact (tallies_advance clock s k x out (dialer p) (mk_is_Some _ _ Hk) Ha). }
  destruct (step e p) as [out p1]. cbn [fst snd] in Hs. specialize (IH _ p1 (ta_agrees _ _ _ _ Hs)).
  destruct (runs es p1) as [out' p2]. exact (tallies_trans _ _ _ _ _ _ Hs IH).
Qed.

(** what [validated_count] counts: the calls of [on_connected], less one for each dial that ends after
    at least one. A peer that repeats its Status has it called again, so that the count is not that
    of the connections. *)
Theorem validated_count_counts_calls opens binds draw p0 es :
  launches opens binds draw = Some (Discovering keypair p0) ->
  let '(tr, p) := runs es p0 in
  total_validated (sched (scheduling (dialer p))) = count is_connected tr
  /\ validated_count (sched (scheduling (dialer p))) = count is_connected tr - validated_ends ([], []) tr.
Proof.
  intros Hl. destruct (launched_program _ _ _ _ _ Hl) as (Hsch & _).
  assert (agrees ([], []) (dialer p0)) as Ha by (rewrite Hsch; split; [apply list.Forall_nil_2 | apply list.Forall_nil_2 | by intros]).
  pose proof (tallies_runs es ([], []) p0 Ha) as [_ Ht Hc]. rewrite Hsch in Ht, Hc. destruct (runs es p0) as [tr p]. exact (conj Ht Hc).
Qed.

(** ** From discovery to the log *)

(** The events of one dial are a run of its watch. *)
Lemma watch_events_run k vp es : forall p v r, dials (dialer p) !! k = Some (mkDialed vp v (Watching r)) ->
  Discv4Client.crashed (discovery p) = false ->
  let '(out, r') := watch_runs keccak256 aes_ecb_encrypt_block aes_ctr snappy_compress snappy_length snappy_uncompress (dial_params c vp) es r in
  let '(tr, p') := runs (map (WatchEvent k) es) p in
  tr = map (pair k) out /\ exists v', dials (dialer p') !! k = Some (mkDialed vp v' (Watching r')).
Proof.
  induction es as [|e es IH]; intros p v r Hk Hc; [cbn; split; [done | by exists v] |]. cbn [map program_runs watch_runs].
  unfold program_step at 1. rewrite Hc, Hk.
  destruct (watch (dial_params c vp) e r) as [out r1] eqn:E. unfold dial_on.
  destruct (advance_lookup clock k (Watching r1) out (dialer p) _ Hk) as [v' Hk2].
  assert (fst (advance clock k (Watching r1) out (dialer p)) = map (pair k) out) as Hout by done.
  destruct (advance clock k (Watching r1) out (dialer p)) as [tr1 d1]. cbn [fst snd dialed] in *. subst tr1.
  specialize (IH (mkProgram (discovery p) d1) v' r1 Hk2 Hc).
  destruct (watch_runs _ _ _ _ _ _ (dial_params c vp) es r1) as [out' r2]. destruct (runs (map (WatchEvent k) es) _) as [tr' p2].
  destruct IH as [-> Hv]. by rewrite map_app.
Qed.

(** The states of the program that discovers. *)
Definition reached (p : Program) : Prop :=
  exists opens binds draw p0 es, launches opens binds draw = Some (Discovering keypair p0) /\ p = snd (runs es p0).

(** A new peer, with a usable key, for which there is a slot. *)
Record dialable (f : DiscoveredPeer) (d : Dialer dial_place) : Prop := {
  dl_slot : live d < 10;
  dl_key : Ecdh.verify_public_key (node_id f) = true;
  dl_new : entries_ (dial_history (sched (scheduling d))) !! node_id f = None
}.

Lemma dialable_found f d : slots' d -> unstopped None d -> dialable f d ->
  dials (peer_discovered clock f d) = dials d ++ [mkDialed (mkValidatedPeer f (node_id f)) false Connecting].
Proof.
  intros [Ha Ht [Hp1 Hp2] _] [Hs Hf] [Hl Hk Hn]. unfold peer_discovered. cbn [pubkey]. rewrite Hk. unfold offer. cbn [dials spawn_dials]. f_equal.
  unfold enqueue. rewrite Hs, Hf. unfold contains. cbn [expire sched dial_history with_history history_expire entries_ peer].
  rewrite map_lookup_filter, Hn. cbn [mbind option_bind]. unfold slot_free. cbn [active max_per_chain active_total max_total sched pool expire with_history].
  rewrite Hp1, Hp2, !(proj2 (Z.ltb_lt _ _)) by lia. reflexivity.
Qed.

Context {laws : CipherLaws keccak256 aes_ctr} {snappy : SnappyLaws snappy_compress snappy_length snappy_uncompress}.
Abbreviation seal_all := (RlpxFraming.seal_all keccak256 aes_ecb_encrypt_block aes_ctr snappy_compress).

(** The connection to the peer of a watch gives the session [s], on which [status] and [ms] are to come. *)
Record reaches (w : WatchParams) (connected : SessionResult SocketTransport) (draw : nat) (s : RlpxSession)
    (status : Message) (ms : list Message) : Prop := {
  re_session : exists kp i i', Ecdh.generate_ephemeral_keypair fuel draw = (Ok kp, i)
    /\ connect keccak256 aes_ecb_encrypt_block aes_ctr snappy_compress snappy_length snappy_uncompress fuel unset unset_secrets
         (connect_params w kp) connected i = (Ok s, i');
  re_started : RlpxSession.started s;
  re_eth : negotiated_eth_version_ s <> 0;
  re_working : fault (transport_ (stream_ s)) = None;
  re_messages : exists a, synced a (cipher_ (stream_ s))
    /\ incoming (transport_ (stream_ s)) = fst (seal_all (compression_enabled_ (stream_ s)) a (status :: ms));
  re_sendable : Forall (RlpxFraming.sendable snappy_compress (compression_enabled_ (stream_ s))) (status :: ms);
  re_status : 4 <= msg_id status /\ admits w (negotiated_eth_version_ s) status;
  re_eth_messages : Forall (eth_message w) ms
}.

(** C4: from discovery to the log. In any state of the program, when its client reports a new peer with
    a usable key while there is a slot, the program dials it, at the address and with the key that
    were found; when the connection succeeds and the peer sends a Status of the configured chain and
    then messages of eth, it counts as connected, each message is given to the service of its watch,
    in order, and what the subscribers get is logged. The contracts of the configured watches must be
    readable, and the messages such as the framing can carry, with ids of eth. *)
Theorem discovered_peer_watched p d f connected close_failed draw s status ms svc :
  reached p -> Discv4Client.crashed (discovery p) = false -> happens d = true ->
  let w := Discv4Client.step keccak256 (discovery_config keypair) (discovery p) d in
  newly_found (discovery p) w = [f] -> Discv4Client.crashed w = false -> dialable f (dialer p) ->
  let vp := mkValidatedPeer f (node_id f) in
  reaches (dial_params c vp) connected draw s status ms ->
  add_watches keccak256 (if empty (cfg_watch_specs c) then default_specs else cfg_watch_specs c) new_service = Some svc ->
  let k := length (dials (dialer p)) in
  let '(tr, p') := runs ([Discovery d; ConnectEnds k connected close_failed draw]
    ++ map (WatchEvent k) ([Loop ReceiveLoop; MessageArrives false; Resumes false] ++ reads_of ms)) p in
  let '(shown_out, svc') := served keccak256 (dial_params c vp) ms (set_send_callback svc) in
  exists out v r, tr = map (pair k) (out ++ Took (GenericCall on_generic status) :: OnConnected :: shown_out)
    /\ dials (dialer p') !! k = Some (mkDialed vp v (Watching r)) /\ place r = AwaitEnd Waiting /\ is_active (session r) = true
    /\ watch_svc r = svc'.
Proof using laws snappy.
  intros (opens & binds & draw0 & p0 & es & Hl & Ep) Hc Hd w Hnew Hcw Hdl vp [(kp & i & i' & Hkp & Hconn) Hst Hv Hf (a & Hsy & Hin) Hsend [Hid Hadm] Hms] Hsvc k.
  destruct (reached_slots _ _ _ _ es Hl) as [Hs Hu]. rewrite <- Ep in Hs, Hu.
  cbn [app program_runs]. unfold program_step at 1. rewrite Hc, Hd. unfold discover. fold w. rewrite Hnew. cbn [fold_left].
  pose proof (dialable_found f _ Hs Hu Hdl) as Hw1. set (d1 := peer_discovered clock f (dialer p)) in *. fold vp in Hw1.
  unfold program_step at 1. cbn [discovery dialer]. rewrite Hcw.
  assert (dials d1 !! k = Some (mkDialed vp false Connecting)) as Hk by (rewrite Hw1; by apply list_lookup_middle).
  rewrite Hk. unfold run_watch. rewrite Hkp, Hconn.
  pose proof (peer_watched keccak256 aes_ecb_encrypt_block aes_ctr snappy_compress snappy_length snappy_uncompress (dial_params c vp) close_failed a s svc
    status ms Hst Hv Hsvc Hsy Hf Hin Hsend Hid Hadm Hms) as Hpw.
  destruct (begin_watch keccak256 (dial_params c vp) close_failed s) as [out0 r0]. unfold dial_on.
  destruct (advance_lookup clock k (Watching r0) out0 d1 _ Hk) as [v' Hk3]. cbn [dialed] in Hk3.
  assert (fst (advance clock k (Watching r0) out0 d1) = map (pair k) out0) as Hout by done.
  cbn [discovery dialer]. destruct (advance clock k (Watching r0) out0 d1) as [tr1 d2]. cbn [fst snd] in *. subst tr1.
  pose proof (watch_events_run k vp ([Loop ReceiveLoop; MessageArrives false; Resumes false] ++ reads_of ms) (mkProgram w d2) v' r0 Hk3 Hcw) as Hrun.
  destruct (watch_runs _ _ _ _ _ _ (dial_params c vp) _ r0) as [out r]. destruct (runs (map (WatchEvent k) _) _) as [tr p'].
  destruct (served keccak256 (dial_params c vp) ms (set_send_callback svc)) as [shown_out svc']. destruct Hpw as (-> & Hsvc' & Hpl & Hact).
  destruct Hrun as [-> [v Hv']]. exists out0, v, r. split_and!; try done. by rewrite <- map_app.
Qed.
End invariants.

(** ** Instances *)

#[local] Existing Instance ToySecp.toy.
#[local] Existing Instance ToySsl.toy.
#[local] Existing Instance DottedText.text.
#[local] Existing Instance sample_cipher_laws.

(** One bootnode, and a peer that it tells of; the sample chain of [EthWatch.v]. *)
Module MainSample.
Definition peer_key : bytes := key_id SessionSample.node.
Definition config : Config :=
  mkConfig [] 0 [] 0x10 [] 11155111 (repeat 7 32) kSepoliaForkId
    [text "enode://" ++ to_hex peer_key ++ text "@10.0.0.2:30303"] kDiscv4.

Abbreviation launching := (launch ToySsl.digest 1 config true true 0).
Definition launched_program : option (Ecdh.KeyPair * Program) :=
  match launching with Some (Discovering kp p) => Some (kp, p) | _ => None end.
Definition keypair : Ecdh.KeyPair := match launched_program with Some (kp, _) => kp | None => Ecdh.mkKeyPair [] [] end.
Definition start : Program :=
  match launched_program with Some (_, p) => p | None => mkProgram (Discv4Client.start_world Discv4Client.fresh_client) new_dialer end.

(** Every reading of the clock is a second after the one before. *)
Definition clock (n : nat) : Z := 1000 * Z.of_nat n.
Abbreviation runs := (program_runs ToySsl.digest Toy.aes_ecb Toy.aes_ctr Toy.compress Toy.uncompressed_length Toy.uncompress
  1 HandshakeSample.unset HandshakeSample.unset_secrets clock config keypair).

(** The bootnode does not answer the ping, but the request for neighbours; the new peer answers nothing. *)
Definition found : DiscoveredPeer := mkPeer peer_key (dotted [10; 0; 0; 9]) 30303 30303 5 None.
Definition neighbours : bytes :=
  repeat 0 97 ++ 4 :: rlp (Lst [Lst [Lst [Str [10; 0; 0; 9]; uint_item 30303; uint_item 30303; Str peer_key]]; uint_item 2000]).
Definition bootnode : Discv4Client.udp_endpoint := Discv4Client.mkAddr [10; 0; 0; 2] 30303.
Definition searching : list program_event :=
  map Discovery [Discv4Client.Tick 1000 5; Discv4Client.Begin 0; Discv4Client.Begin 0; Discv4Client.Resume 0 (Some []); Discv4Client.Resume 0 None;
    Discv4Client.Receive (Discv4Client.Datagram neighbours bootnode); Discv4Client.Begin 0; Discv4Client.Resume 1 (Some [])].
Definition report : Discv4Client.Event := Discv4Client.Resume 1 (Some []).

(** The connection to it, from draw 10 on, with its answer and its Hello, and then [ms]. *)
Definition vp : ValidatedPeer := mkValidatedPeer found peer_key.
Definition params : SessionConnectParams := connect_params (dial_params config vp) (Ecdh.mkKeyPair peer_key (repeat 11 32)).
Definition secrets : FrameSecrets :=
  match fst (execute ToySsl.digest 1 HandshakeSample.unset HandshakeSample.unset_secrets (handshake_config params)
               (mkHandshake HandshakeSample.transport 11)) with
  | Ok hs => frame_secrets hs
  | _ => Toy.secrets
  end.
Definition remote : FrameCipher :=
  let c := new_cipher secrets in
  snd (SessionSample.sealed_all false (mkCipher (secrets_ c) (dec c) (enc c) (ingress_mac c) (egress_mac c)) [hello_message SessionSample.hello]).
Definition hello_wire : bytes :=
  let c := new_cipher secrets in
  fst (SessionSample.sealed_all false (mkCipher (secrets_ c) (dec c) (enc c) (ingress_mac c) (egress_mac c)) [hello_message SessionSample.hello]).
Definition transport (ms : list Message) : SocketTransport :=
  mkTransport (eip8_prefix 215 ++ HandshakeSample.ack ++ hello_wire ++ fst (SessionSample.sealed_all true remote ms)) [] None true.
Definition connecting (ms : list Message) : list program_event :=
  searching ++ [Discovery report; ConnectEnds 0 (Ok (transport ms)) false 10].
Definition status : Message := WatchSample.status_of WatchSample.watched.
Definition three_events : list run_event := [Loop ReceiveLoop; MessageArrives false; Resumes false].
Definition goodbye : Message := mkMessage kDisconnectMessageId [0xc1; 4].
Definition messages : list Message := [WatchSample.hashes; WatchSample.receipts].
Definition session : RlpxSession :=
  match fst (SessionSample.connecting params (Ok (transport (status :: messages))) 11%nat) with Ok s => s | _ => SessionSample.session end.

(** A session with the peer: its Status, a message, and the end. *)
Definition served_events : list program_event :=
  connecting [status; WatchSample.hashes; goodbye] ++ map (WatchEvent 0) (three_events ++ three_events ++ three_events).

(** A watch whose peer has closed the connection after its Status, ten times. *)
Definition lost_run : WatchRun :=
  snd (WatchSample.runs WatchSample.watched (three_events ++ [Loop ReceiveLoop; MessageArrives false]) (WatchSample.begun [WatchSample.status_of WatchSample.watched])).
Definition before_report : Program := snd (runs searching start).
Definition ten_lost : Program :=
  mkProgram (discovery before_report) (mkDialer (mkLocal (with_active 10 (sched (scheduling new_dialer))) (pool_add 10 watcher_pool) 0)
    (repeat (mkDialed (mkValidatedPeer found (repeat 9 64)) true (Watching lost_run)) 10)).
End MainSample.

Lemma sample_launched : launch ToySsl.digest 1 MainSample.config true true 0 = Some (Discovering MainSample.keypair MainSample.start).
Proof. vm_compute. reflexivity. Defined.

Lemma slots_are_watches_witness :
  let d := dialer (snd (MainSample.runs (MainSample.connecting [MainSample.status]) MainSample.start)) in
  active (sched (scheduling d)) = live d /\ live d = 1.
Proof.
  cbn zeta. split; [| vm_compute; reflexivity].
  exact (proj1 (slots_are_watches ToySsl.digest Toy.aes_ecb Toy.aes_ctr Toy.compress Toy.uncompressed_length Toy.uncompress
    1 HandshakeSample.unset HandshakeSample.unset_secrets MainSample.clock MainSample.config MainSample.keypair true true 0
    MainSample.start (MainSample.connecting [MainSample.status]) sample_launched)).
Defined.

Lemma sample_events_ok es : forallb (fun e => match e with Discovery (Discv4Client.Receive (Discv4Client.Datagram d _)) => bool_decide (bytes_ok d) | _ => true end) es = true ->
  Forall program_event_ok es.
Proof.
  rewrite forallb_forall, list.Forall_forall. intros Hall e He%list_elem_of_In. specialize (Hall e He).
  destruct e as [[| | | | | | |[d a| |]]| |]; try exact I. by apply bool_decide_eq_true in Hall.
Qed.


Lemma lost_peers_stop_dialing_witness :
  map dialed (dials (dialer (snd (MainSample.runs [Discovery MainSample.report; WatchEvent 3 (Loop SendLoop)] MainSample.ten_lost))))
  = map dialed (dials (dialer MainSample.ten_lost))
  /\ length (newly_found (discovery MainSample.before_report)
       (discovery (snd (MainSample.runs [Discovery MainSample.report] MainSample.ten_lost)))) = 1%nat.
Proof.
  split; [| vm_compute; reflexivity].
  refine (proj1 (lost_peers_stop_dialing ToySsl.digest Toy.aes_ecb Toy.aes_ctr Toy.compress Toy.uncompressed_length Toy.uncompress
    1 HandshakeSample.unset HandshakeSample.unset_secrets MainSample.clock MainSample.config MainSample.keypair
    MainSample.ten_lost [Discovery MainSample.report; WatchEvent 3 (Loop SendLoop)] _ _ _)).
  - split; [vm_compute; reflexivity | vm_compute; reflexivity | split; reflexivity | vm_compute; split; discriminate].
  - vm_compute. discriminate.
  - constructor; [intros k E; discriminate E |]. constructor; [intros k E; discriminate E | constructor].
Defined.

Lemma program_refines_scheduler_witness :
  exists des w, run_dials MainSample.clock des (initial 200 10 {[0 := (None, kDefaultDialHistoryExpiry)]}) = Some w
  /\ w_chains w = {[0 := sched (scheduling (dialer (snd (MainSample.runs MainSample.served_events MainSample.start))))]} /\ w_dials w = [].
Proof.
  pose proof (program_refines_scheduler ToySsl.digest Toy.aes_ecb Toy.aes_ctr Toy.compress Toy.uncompressed_length Toy.uncompress
    1 HandshakeSample.unset HandshakeSample.unset_secrets MainSample.clock MainSample.config MainSample.keypair true true 0
    MainSample.start MainSample.served_events sample_launched) as Hr.
  assert (honoured ([], []) (fst (MainSample.runs MainSample.served_events MainSample.start)) = true) as Hh by (vm_compute; reflexivity).
  assert (map view (List.filter in_flight (dials (dialer (snd (MainSample.runs MainSample.served_events MainSample.start))))) = []) as Hv by (vm_compute; reflexivity).
  destruct (MainSample.runs MainSample.served_events MainSample.start) as [tr p]. cbn [fst snd] in *.
  destruct (Hr Hh) as (des & w & H1 & _ & H3 & H4). exists des, w. split; [exact H1 |]. split; [exact H3 |]. rewrite H4. exact Hv.
Defined.

(** A peer that sends its Status twice is counted twice, and one of the two stays when it has left. *)
Example repeated_status_counted_for_ever :
  let p := snd (MainSample.runs (MainSample.connecting [MainSample.status; MainSample.status; MainSample.goodbye]
    ++ map (WatchEvent 0) (MainSample.three_events ++ MainSample.three_events ++ MainSample.three_events)) MainSample.start) in
  active (sched (scheduling (dialer p))) = 0 /\ validated_count (sched (scheduling (dialer p))) = 1.
Proof. vm_compute. split; reflexivity. Qed.

Lemma sample_reaches : reaches ToySsl.digest Toy.aes_ecb Toy.aes_ctr Toy.compress Toy.uncompressed_length Toy.uncompress
  1 HandshakeSample.unset HandshakeSample.unset_secrets (dial_params MainSample.config MainSample.vp)
  (Ok (MainSample.transport (MainSample.status :: MainSample.messages))) 10 MainSample.session MainSample.status MainSample.messages.
Proof.
  split.
  - exists (Ecdh.mkKeyPair MainSample.peer_key (repeat 11 32)), 11%nat. eexists. split; vm_compute; reflexivity.
  - vm_compute. by split_and!.
  - vm_compute. discriminate.
  - vm_compute. reflexivity.
  - exists MainSample.remote. split; vm_compute; [by split_and! | reflexivity].
  - assert (compression_enabled_ (stream_ MainSample.session) = true) as -> by (vm_compute; reflexivity). exact sample_messages_sendable.
  - split; [vm_compute; discriminate |].
    assert (negotiated_eth_version_ MainSample.session = 68) as -> by (vm_compute; reflexivity). exact sample_admitted.
  - apply Forall_cons_iff. split; [| apply Forall_cons_iff; split; [| constructor]];
      (split; [vm_compute; discriminate | split; [vm_compute; discriminate | vm_compute; discriminate]]).
Defined.

Lemma sample_reached : reached ToySsl.digest Toy.aes_ecb Toy.aes_ctr Toy.compress Toy.uncompressed_length Toy.uncompress
  1 HandshakeSample.unset HandshakeSample.unset_secrets MainSample.clock MainSample.config MainSample.keypair MainSample.before_report.
Proof.
  exists true, true, 0%nat, MainSample.start, MainSample.searching. split.
  - exact sample_launched.
  - unfold MainSample.before_report. reflexivity.
Defined.

(** The whole way: the peer is found, dialed and watched, and a transfer in its messages is logged. *)
Lemma discovered_peer_watched_witness :
  let '(tr, p) := MainSample.runs ([Discovery MainSample.report; ConnectEnds 0 (Ok (MainSample.transport (MainSample.status :: MainSample.messages))) false 10]
    ++ map (WatchEvent 0) (MainSample.three_events ++ reads_of MainSample.messages)) MainSample.before_report in
  In (0%nat, OnConnected) tr /\ In (0%nat, Logged WatchSample.lines) tr
  /\ exists v r, dials (dialer p) !! 0%nat = Some (mkDialed MainSample.vp v (Watching r)) /\ place r = AwaitEnd Waiting.
Proof.
  destruct (add_watches ToySsl.digest default_specs new_service) as [svc|] eqn:Esvc; [| exfalso; vm_compute in Esvc; discriminate Esvc].
  pose proof (discovered_peer_watched ToySsl.digest Toy.aes_ecb Toy.aes_ctr Toy.compress Toy.uncompressed_length Toy.uncompress
    1 HandshakeSample.unset HandshakeSample.unset_secrets MainSample.clock MainSample.config MainSample.keypair
    MainSample.before_report MainSample.report MainSample.found (Ok (MainSample.transport (MainSample.status :: MainSample.messages))) false 10
    MainSample.session MainSample.status MainSample.messages svc sample_reached) as Hx. cbn zeta in Hx.
  specialize (Hx ltac:(vm_compute; reflexivity) eq_refl ltac:(vm_compute; reflexivity) ltac:(vm_compute; reflexivity)).
  specialize (Hx ltac:(split; vm_compute; reflexivity) sample_reaches Esvc).
  assert (length (dials (dialer MainSample.before_report)) = 0%nat) as Hn by (vm_compute; reflexivity). rewrite Hn in Hx.
  change [Loop ReceiveLoop; MessageArrives false; Resumes false] with MainSample.three_events in Hx.
  change (mkValidatedPeer MainSample.found (node_id MainSample.found)) with MainSample.vp in Hx.
  destruct (MainSample.runs _ MainSample.before_report) as [tr p].
  assert (served ToySsl.digest (dial_params MainSample.config MainSample.vp) MainSample.messages (set_send_callback svc)
    = (fst (served ToySsl.digest WatchSample.watched MainSample.messages (set_send_callback svc)),
       snd (served ToySsl.digest WatchSample.watched MainSample.messages (set_send_callback svc)))) as Es.
  { vm_compute in Esvc. injection Esvc as <-. vm_compute. reflexivity. }
  rewrite Es in Hx. destruct Hx as (out & v & r & -> & Hw & Hp & _). split_and!.
  - apply in_map, in_or_app. right. right. left. reflexivity.
  - apply in_map, in_or_app. right. right. right. vm_compute in Esvc. injection Esvc as <-. vm_compute. tauto.
  - exists v, r. exact (conj Hw Hp).
Defined.
