(* ===== verification/StatusProbe.v ===== *)
(** * StatusProbe: a dial that only asks for the Status

    [dial_connect_only] of [examples/discovery/test_discovery.cpp] and of
    [examples/discovery/test_discv5_connect.cpp], the dial function of the diagnostic programs: it
    connects, sends a Status of Sepolia, counts what the peer answers and stays for ten seconds. The
    two differ in the name they give themselves, and the second tells the quality filter of a
    connection that fails ([ConnectFails]). A counter is incremented by an output [Counted].

    The coroutine waits three times, for the connection, the Status and the end. In between its handlers run, as for the
    watches of [EthWatch.v], from which the timers and the events of the session's loops are taken. It does not close its session at the end, so the
    handlers run on. [probe_dial] is what [Dialing.v] has to know of it.

    Theorems: the peer counts as connected only after a Status of Sepolia
    ([probe_confirmed_first]), but each further Status
    counts again, also after the end ([status_counts_again]), a peer of another chain is counted
    twice ([other_chain_counted_twice]), and the Status that is sent is refused by a peer that has
    negotiated a version before 69 ([probe_status_needs_69]). *)
From S2P Require Import Dialing.
From S2P Require Export EthWatch.
Open Scope Z_scope.

(** ** Data *)

(** [struct DialStats] of both programs: the fields, and a value for each. *)
Inductive dial_stat :=
| dialed_count | connect_failed | wrong_chain | status_timeout | too_many_peers | too_many_peers_right_chain
| connected_count | connected_seeded | connected_discv5 | filtered_bad_peers.

#[export] Instance dial_stat_eq_dec : EqDecision dial_stat.
Proof. solve_decision. Defined.

Abbreviation DialStats := (dial_stat -> Z).
Definition no_stats : DialStats := fun _ => 0.
Definition bump (k : dial_stat) (s : DialStats) : DialStats := fun k' => if decide (k' = k) then s k' + 1 else s k'.

Inductive probe_output :=
| ProbeTook (call : session_call)
| ProbePosted (message : Message) (result : SessionResult unit)
| Counted (k : dial_stat)
| ConnectFails
| ProbeConnected
| ProbeDone.

(** Where the coroutine is once it has a session. *)
Inductive probe_wait := AwaitingStatus (t : timer_wait) | Lingering (t : timer_wait) | ProbeEnded.

Record ProbeRun := mkProbeRun {
  probe_session : RlpxSession;
  confirmed : bool;
  disconnect_reason : Z;
  probe_at : probe_wait
}.

Definition with_probe_session (x : RlpxSession) (r : ProbeRun) : ProbeRun :=
  mkProbeRun x (confirmed r) (disconnect_reason r) (probe_at r).
Definition with_confirmed (r : ProbeRun) : ProbeRun :=
  mkProbeRun (probe_session r) true (disconnect_reason r) (probe_at r).
Definition with_reason (x : Z) (r : ProbeRun) : ProbeRun :=
  mkProbeRun (probe_session r) (confirmed r) x (probe_at r).
Definition with_probe_at (x : probe_wait) (r : ProbeRun) : ProbeRun :=
  mkProbeRun (probe_session r) (confirmed r) (disconnect_reason r) x.

(** A dial: not begun; waiting for the connection with its key; with a session; over without one. *)
Inductive probe_place := ProbeSpawned | ProbeConnecting (keypair : Ecdh.KeyPair) | Probing (r : ProbeRun) | ProbeOver.

(** ** The constants of the chain *)

Definition kProbeNetworkId : Z := 11155111.
Definition kProbeEthOffset : Z := 0x10.

Definition sepolia_nibble (c : Z) : Z :=
  if (48 <=? c) && (c <=? 57) then u8 (c - 48) else if (97 <=? c) && (c <=? 102) then u8 (10 + c - 97) else 0.
Definition sepolia_genesis : hash256 :=
  let hex := text "25a5cc106eea7138acab33231d7160d69cb777ee0c2c553fcddf5138993e6dd9" in
  map (fun i => u8 (Z.lor (Z.shiftl (sepolia_nibble (byte_at hex (Z.of_nat i * 2))) 4)
                      (sepolia_nibble (byte_at hex (Z.of_nat i * 2 + 1))))) (seq 0 32).

Definition kSepoliaForkHashFallback : bytes := [0x26; 0x89; 0x56; 0xb6].

Definition probe_status (fork : ForkId) : StatusMessage :=
  Status69 {| s69_protocol_version := 69; s69_network_id := kProbeNetworkId; s69_genesis_hash := sepolia_genesis;
              s69_fork_id := fork; s69_earliest_block := 0; s69_latest_block := 0; s69_latest_block_hash := sepolia_genesis |}.

(** ** The coroutine up to its wait for the Status *)

Definition begin_probe (fork : ForkId) (s : RlpxSession) : list probe_output * ProbeRun :=
  let '(out, s) :=
    match encode_status (probe_status fork) with
    | Ok encoded =>
        let m := mkMessage (u8 (kProbeEthOffset + kWatchStatusMessageId)) encoded in
        let '(result, s) := post_message m s in ([ProbePosted m result], s)
    | _ => ([], s)
    end in
  (out, mkProbeRun (with_handlers watch_handlers s) false DisconnectReason.kRequested (AwaitingStatus Waiting)).

(** ** The handlers *)

Definition cancel_probe_timeout (r : ProbeRun) : ProbeRun :=
  match probe_at r with AwaitingStatus Waiting => with_probe_at (AwaitingStatus (Reported true)) r | _ => r end.
Definition cancel_probe_lifetime (r : ProbeRun) : ProbeRun :=
  match probe_at r with Lingering Waiting => with_probe_at (Lingering (Reported true)) r | _ => r end.

Definition probe_disconnected (msg : DisconnectMessage) (r : ProbeRun) : ProbeRun :=
  cancel_probe_timeout (cancel_probe_lifetime (with_reason (reason msg) r)).

Definition probe_pinged (r : ProbeRun) : list probe_output * ProbeRun :=
  match encode_pong mkPong with
  | Ok encoded =>
      let m := mkMessage kPongMessageId encoded in
      let '(result, s) := post_message m (probe_session r) in ([ProbePosted m result], with_probe_session s r)
  | _ => ([], r)
  end.

(** A Status that is refused; [close_failed] as in [disconnect]. *)
Definition refuse_status (close_failed : bool) (r : ProbeRun) : ProbeRun :=
  let r := cancel_probe_timeout r in with_probe_session (disconnect close_failed (probe_session r)) r.

Definition probe_message (close_failed : bool) (msg : Message) (r : ProbeRun) : list probe_output * ProbeRun :=
  if msg_id msg <? kProbeEthOffset then ([], r)
  else
    let eth_id := u8 (msg_id msg - kProbeEthOffset) in
    if negb (eth_id =? kWatchStatusMessageId) then ([], r)
    else match decode_status (msg_payload msg) with
         | Ok status =>
             match validate_status status kProbeNetworkId sepolia_genesis with
             | Ok _ => ([Counted connected_count; ProbeConnected], cancel_probe_timeout (with_confirmed r))
             | _ => ([Counted wrong_chain], refuse_status close_failed r)
             end
         | _ => ([], refuse_status close_failed r)
         end.

Definition probe_call (close_failed : bool) (call : session_call) (r : ProbeRun) : list probe_output * ProbeRun :=
  match call with
  | DisconnectCall _ msg => ([], probe_disconnected msg r)
  | PingCall _ _ => probe_pinged r
  | GenericCall _ msg => probe_message close_failed msg r
  | HelloCall _ _ | PongCall _ _ => ([], r)
  end.

Fixpoint probe_calls (close_failed : bool) (calls : list session_call) (r : ProbeRun) : list probe_output * ProbeRun :=
  match calls with
  | [] => ([], r)
  | call :: calls =>
      let '(out, r) := probe_call close_failed call r in
      let '(out', r) := probe_calls close_failed calls r in (ProbeTook call :: out ++ out', r)
  end.

(** The coroutine goes on after a wait. *)
Definition probe_resumes (close_failed : bool) (r : ProbeRun) : list probe_output * ProbeRun :=
  match probe_at r with
  | AwaitingStatus (Reported aborted) =>
      if confirmed r then ([], with_probe_at (Lingering Waiting) r)
      else
        let counted :=
          if aborted then
            if disconnect_reason r =? DisconnectReason.kTooManyPeers then too_many_peers else connect_failed
          else status_timeout in
        ([Counted counted; ProbeDone],
         with_probe_at ProbeEnded (with_probe_session (disconnect close_failed (probe_session r)) r))
  | Lingering (Reported _) => ([ProbeDone], with_probe_at ProbeEnded r)
  | _ => ([], r)
  end.

(** The timer that the coroutine waits for expires. *)
Definition probe_expires (r : ProbeRun) : ProbeRun :=
  match probe_at r with
  | AwaitingStatus Waiting => with_probe_at (AwaitingStatus (Reported false)) r
  | Lingering Waiting => with_probe_at (Lingering (Reported false)) r
  | _ => r
  end.

Section probe.
Context (keccak256 : bytes -> bytes) (aes_ecb_encrypt_block : bytes -> bytes -> bytes)
  (aes_ctr : bytes -> nat -> bytes -> bytes)
  (snappy_compress : bytes -> bytes) (snappy_length : bytes -> option Z) (snappy_uncompress : bytes -> option bytes).
Abbreviation step_session := (session_step keccak256 aes_ecb_encrypt_block aes_ctr snappy_compress snappy_length snappy_uncompress).

(** ** Runs *)

(** The read of the receive loop ends, and the handlers of the message run to their end. *)
Definition probe_reads (close_failed : bool) (r : ProbeRun) : list probe_output * ProbeRun :=
  let '(out, s) := step_session MessageRead (probe_session r) in
  let '(out, r) := probe_calls close_failed (called out) (with_probe_session s r) in
  (out, with_probe_session (snd (step_session HandlersReturn (probe_session r))) r).

Definition probe_step (e : run_event) (r : ProbeRun) : list probe_output * ProbeRun :=
  match e with
  | Loop e => ([], with_probe_session (snd (step_session (session_event_of e) (probe_session r))) r)
  | MessageArrives close_failed => probe_reads close_failed r
  | TimerExpires => ([], probe_expires r)
  | Resumes close_failed => probe_resumes close_failed r
  end.

Fixpoint probe_runs (events : list run_event) (r : ProbeRun) : list probe_output * ProbeRun :=
  match events with
  | [] => ([], r)
  | e :: events =>
      let '(out, r) := probe_step e r in
      let '(out', r) := probe_runs events r in (out ++ out', r)
  end.

Section start.
Context `{Secp256k1} `{OpenSsl} (fuel : nat) (unset : AuthKeyMaterial) (unset_secrets : bytes * bytes).

Definition probe_connect_params (client : bytes) (vp : ValidatedPeer) (keypair : Ecdh.KeyPair) : SessionConnectParams :=
  mkConnectParams (peer_ip (peer vp)) (tcp_port (peer vp)) (Ecdh.public_key keypair) (Ecdh.private_key keypair)
    (pubkey vp) client 0.

(** [dial_connect_only] up to the connection; [draw] is the first of its random numbers. *)
Definition probe_begins (draw : nat) : list probe_output * probe_place :=
  match Ecdh.generate_ephemeral_keypair fuel draw with
  | (Ok keypair, _) => ([Counted dialed_count], ProbeConnecting keypair)
  | _ => ([Counted dialed_count; Counted connect_failed; ProbeDone], ProbeOver)
  end.

(** The attempt to connect ends. *)
Definition probe_connects (client : bytes) (fork : ForkId) (vp : ValidatedPeer) (keypair : Ecdh.KeyPair)
    (connected : SessionResult SocketTransport) (draw : nat) : list probe_output * probe_place :=
  match fst (connect keccak256 aes_ecb_encrypt_block aes_ctr snappy_compress snappy_length snappy_uncompress fuel unset
               unset_secrets (probe_connect_params client vp keypair) connected draw) with
  | Ok s => let '(out, r) := begin_probe fork s in (out, Probing r)
  | _ => ([ConnectFails; Counted connect_failed; ProbeDone], ProbeOver)
  end.
End start.
End probe.

(** ** For the scheduler *)

Definition probe_over (r : ProbeRun) : bool := match probe_at r with ProbeEnded => true | _ => false end.

#[export, refine] Instance probe_dial : DialFn probe_place probe_output := {|
  at_start := ProbeSpawned;
  flight x := match x with ProbeSpawned | ProbeConnecting _ => 1 | Probing r => if probe_over r then 0 else 1 | ProbeOver => 0 end%nat;
  calls o := match o with ProbeConnected => Some ConnectedCall | ProbeDone => Some DoneCall | _ => None end
|}.
Proof. all: [> reflexivity | intros [| |r|]; cbn; [lia.. | destruct (probe_over r); lia | lia]]. Defined.

(** ** What a step changes *)

(** The outputs that increment a counter. *)
Definition is_counted (k : dial_stat) (o : probe_output) : bool :=
  match o with Counted k' => bool_decide (k' = k) | _ => false end.
Definition tally (k : dial_stat) (out : list probe_output) : Z := count (is_counted k) out.
(** The dials that end without a Status. *)
Definition failures (out : list probe_output) : Z := tally connect_failed out + tally status_timeout out + tally too_many_peers out.

Lemma tally_app k out out' : tally k (out ++ out') = tally k out + tally k out'.
Proof. apply count_app. Qed.

(** The coroutine lingers only at a peer of the chain. *)
Definition lingering (r : ProbeRun) : bool := match probe_at r with Lingering _ => true | _ => false end.
Definition probe_ok (r : ProbeRun) : Prop := lingering r = true -> confirmed r = true.

(** A message may confirm the chain; the coroutine stays where it waits or is told to go on. *)
Record probe_quiet (out : list probe_output) (r r' : ProbeRun) : Prop := {
  pq_confirmed : confirmed r' = confirmed r || existsb (is_call ConnectedCall) out;
  pq_over : probe_over r' = probe_over r;
  pq_ok : probe_ok r -> probe_ok r';
  pq_done : dones out = 0%nat;
  pq_failures : failures out = 0;
  pq_connected : tally connected_count out = count (is_call ConnectedCall) out;
  pq_others : Forall (fun k => tally k out = 0) [dialed_count; connected_seeded; connected_discv5; filtered_bad_peers; too_many_peers_right_chain]
}.

Lemma probe_quiet_trans out1 out2 r1 r2 r3 : probe_quiet out1 r1 r2 -> probe_quiet out2 r2 r3 -> probe_quiet (out1 ++ out2) r1 r3.
Proof.
  intros [C1 O1 K1 D1 F1 N1 X1] [C2 O2 K2 D2 F2 N2 X2]. split.
  - by rewrite existsb_app, C2, C1, orb_assoc.
  - congruence.
  - auto.
  - unfold dones in *. rewrite List.filter_app, length_app. lia.
  - unfold failures in *. rewrite !tally_app. lia.
  - rewrite tally_app, count_app. lia.
  - repeat (apply Forall_cons_iff in X1 as [? X1]; apply Forall_cons_iff in X2 as [? X2]). repeat constructor; rewrite tally_app; lia.
Qed.

Lemma cancel_probe r : let same r' := confirmed r' = confirmed r /\ probe_over r' = probe_over r /\ lingering r' = lingering r in
  same (cancel_probe_timeout r) /\ same (cancel_probe_lifetime r).
Proof. unfold cancel_probe_timeout, cancel_probe_lifetime, probe_over, lingering. destruct (probe_at r) as [[|]|[|]|] eqn:E; cbn; by rewrite ?E. Qed.

(** Outputs without a call, a confirmation or a failure. *)
Definition is_plain (o : probe_output) : bool :=
  match o with ProbeTook _ | ProbePosted _ _ => true | Counted k => bool_decide (k = wrong_chain) | _ => false end.

Lemma probe_quiet_plain out r r' : confirmed r' = confirmed r -> probe_over r' = probe_over r -> (lingering r' = true -> lingering r = true \/ confirmed r = true) ->
  forallb is_plain out = true -> probe_quiet out r r'.
Proof.
  intros Hc Ho Hl Hout. assert (forall P, (forall o, is_plain o = true -> P o = false) -> count P out = 0) as Hn.
  { intros P HP. induction out as [|o out IH]; [done |]. cbn [forallb] in Hout. apply andb_true_iff in Hout as [H1 H2].
    by rewrite count_cons, HP, IH. }
  assert (forall k, k <> wrong_chain -> tally k out = 0) as Ht.
  { intros k Hk. apply Hn. intros [] Hp; try done. cbn in *. apply bool_decide_eq_true in Hp as ->. by apply bool_decide_eq_false. }
  assert (forall b o, is_plain o = true -> is_call b o = false) as Hb by (by intros [] []).
  split; try done.
  - assert (existsb (is_call ConnectedCall) out = false) as ->; [| by rewrite Hc, orb_false_r].
    clear -Hout Hb. induction out as [|o out IH]; [done |]. cbn in *. apply andb_true_iff in Hout as [H1 H2]. by rewrite IH, orb_false_r, Hb.
  - intros Hr Hl'. rewrite Hc. destruct (Hl Hl'); [by apply Hr | done].
  - pose proof (Hn _ (Hb DoneCall)) as Hd. unfold count, len in Hd. unfold dones. lia.
  - unfold failures. by rewrite !Ht.
  - by rewrite Ht, (Hn _ (Hb ConnectedCall)).
  - repeat constructor; by apply Ht.
Qed.

Lemma probe_quiet_same out r r' : confirmed r' = confirmed r -> probe_over r' = probe_over r -> lingering r' = lingering r ->
  forallb is_plain out = true -> probe_quiet out r r'.
Proof. intros Hc Ho Hl. apply probe_quiet_plain; try done. rewrite Hl. by left. Qed.

Lemma probe_quiet_message cf m r : let '(out, r') := probe_message cf m r in probe_quiet out r r'.
Proof.
  destruct (cancel_probe r) as [(H1 & H2 & H3) _]. unfold probe_message.
  destruct (_ <? _); [by apply probe_quiet_same |]. destruct (negb _); [by apply probe_quiet_same |].
  destruct (decode_status _) as [st|e|]; [| by apply probe_quiet_same ..].
  destruct (validate_status _ _ _) as [u|e|]; [| by apply probe_quiet_same ..].
  destruct (cancel_probe (with_confirmed r)) as [(H4 & H5 & H6) _].
  split; try done; [cbn; by rewrite H4, orb_true_r | by intros _ _ | by repeat constructor].
Qed.

Lemma probe_quiet_call cf call r : let '(out, r') := probe_call cf call r in probe_quiet out r r'.
Proof.
  destruct call as [h m|h m|h m|h m|h m]; cbn [probe_call]; try by apply probe_quiet_same.
  - destruct (cancel_probe (with_reason (reason m) r)) as [_ (H1 & H2 & H3)].
    destruct (cancel_probe (cancel_probe_lifetime (with_reason (reason m) r))) as [(H4 & H5 & H6) _].
    apply probe_quiet_same; unfold probe_disconnected; by rewrite ?H4, ?H5, ?H6.
  - unfold probe_pinged. destruct (encode_pong mkPong) as [b|e|]; [| by apply probe_quiet_same ..].
    destruct (post_message _ _) as [res s]. by apply probe_quiet_same.
  - apply probe_quiet_message.
Qed.

Lemma probe_quiet_calls cf calls : forall r, let '(out, r') := probe_calls cf calls r in probe_quiet out r r'.
Proof.
  induction calls as [|call calls IH]; intros r; [by apply probe_quiet_same |]. cbn [probe_calls].
  pose proof (probe_quiet_call cf call r) as Hc. destruct (probe_call cf call r) as [out r1]. specialize (IH r1).
  destruct (probe_calls cf calls r1) as [out' r2]. apply (probe_quiet_trans [ProbeTook call] _ r r); [by apply probe_quiet_same |].
  exact (probe_quiet_trans _ _ _ _ _ Hc IH).
Qed.

(** A step of a probe: a quiet one, or its last, which fails unless the chain was confirmed. *)
Inductive probe_stepped (out : list probe_output) (r r' : ProbeRun) : Prop :=
| stepped_quiet : probe_quiet out r r' -> probe_stepped out r r'
| stepped_last : probe_over r = false -> probe_over r' = true -> confirmed r' = confirmed r -> lingering r' = false ->
    (confirmed r = true /\ out = [ProbeDone]
     \/ exists k, confirmed r = false /\ (k = connect_failed \/ k = status_timeout \/ k = too_many_peers) /\ out = [Counted k; ProbeDone]) ->
    probe_stepped out r r'.

Section steps.
Context (keccak256 : bytes -> bytes) (aes_ecb_encrypt_block : bytes -> bytes -> bytes)
  (aes_ctr : bytes -> nat -> bytes -> bytes)
  (snappy_compress : bytes -> bytes) (snappy_length : bytes -> option Z) (snappy_uncompress : bytes -> option bytes).
Abbreviation step := (probe_step keccak256 aes_ecb_encrypt_block aes_ctr snappy_compress snappy_length snappy_uncompress).
Abbreviation runs := (probe_runs keccak256 aes_ecb_encrypt_block aes_ctr snappy_compress snappy_length snappy_uncompress).
Abbreviation step_session := (session_step keccak256 aes_ecb_encrypt_block aes_ctr snappy_compress snappy_length snappy_uncompress).

Lemma probe_step_cases e r : probe_ok r -> let '(out, r') := step e r in probe_stepped out r r'.
Proof.
  intros Hr. destruct e as [e|cf| |cf]; cbn [probe_step].
  - by apply stepped_quiet, probe_quiet_same.
  - unfold probe_reads. destruct (step_session MessageRead _) as [out s].
    pose proof (probe_quiet_calls cf (called out) (with_probe_session s r)) as Hc. destruct (probe_calls _ _ _) as [out' r'].
    apply stepped_quiet. destruct Hc. by split.
  - apply stepped_quiet, probe_quiet_same; try done; unfold probe_expires, probe_over, lingering; destruct (probe_at r) as [[|]|[|]|] eqn:E; cbn; by rewrite ?E.
  - unfold probe_ok, lingering in Hr. unfold probe_resumes. destruct (probe_at r) as [[|aborted]|[|aborted]|] eqn:E; try by apply stepped_quiet, probe_quiet_same.
    + destruct (confirmed r) eqn:Hc.
      * apply stepped_quiet, probe_quiet_plain; try done; [unfold probe_over; by rewrite E | by right].
      * apply stepped_last; try done; [unfold probe_over; by rewrite E |]. right. rewrite Hc. eexists. split_and!; [done | | done].
        destruct aborted; [destruct (_ =? _) |]; tauto.
    + apply stepped_last; try done; [unfold probe_over; by rewrite E |]. left. by split; [apply Hr |].
Qed.

(** ** What confirms a peer *)

(** A message that is a Status of Sepolia, of any version. *)
Definition right_chain (m : Message) : Prop :=
  kProbeEthOffset <= msg_id m /\ u8 (msg_id m - kProbeEthOffset) = kWatchStatusMessageId
  /\ exists st, decode_status (msg_payload m) = Ok st /\ c_network_id (get_common_fields st) = kProbeNetworkId
     /\ c_genesis_hash (get_common_fields st) = sepolia_genesis /\ ~ inverted_range st.

Lemma probe_message_right cf m r : right_chain m ->
  probe_message cf m r = ([Counted connected_count; ProbeConnected], cancel_probe_timeout (with_confirmed r)).
Proof.
  intros (Ho & Hi & st & Hd & Hv). unfold probe_message. rewrite (proj2 (Z.ltb_ge _ _) Ho), Hi, Hd. cbn [negb Z.eqb kWatchStatusMessageId].
  by rewrite (proj2 (validate_ok _ _ _ tt) Hv).
Qed.

(** Each confirmation has its Status just before it. *)
Definition confirms (out : list probe_output) : Prop := forall pre post, out = pre ++ ProbeConnected :: post ->
  exists pre' h m, pre = pre' ++ [ProbeTook (GenericCall h m); Counted connected_count] /\ right_chain m.

Lemma confirms_app out out' : confirms out -> confirms out' -> confirms (out ++ out').
Proof.
  intros H1 H2 pre post E. apply app_eq_inv in E as [(l & E1 & E2) | (l & -> & E)].
  - destruct l as [|o l]; [| injection E2 as <- E2; by apply (H1 pre l)].
    rewrite app_nil_r in E1. subst pre. destruct (H2 [] post (eq_sym E2)) as (pre' & h & m & E & _).
    by destruct pre'.
  - destruct (H2 l post E) as (pre' & h & m & -> & Hm). exists (out ++ pre'), h, m. by rewrite app_assoc.
Qed.

Lemma confirms_none out : existsb (is_call ConnectedCall) out = false -> confirms out.
Proof. intros Hn pre post ->. rewrite existsb_app, orb_true_r in Hn. done. Qed.

Lemma confirms_call cf call r : confirms (ProbeTook call :: fst (probe_call cf call r)).
Proof.
  destruct call as [h m|h m|h m|h m|h m]; try by apply confirms_none.
  - apply confirms_none. cbn [probe_call]. unfold probe_pinged. destruct (encode_pong mkPong); [| done..]. by destruct (post_message _ _).
  - cbn [probe_call]. unfold probe_message. destruct (Z.ltb_spec (msg_id m) kProbeEthOffset); [by apply confirms_none |].
    destruct (Z.eqb_spec (u8 (msg_id m - kProbeEthOffset)) kWatchStatusMessageId); [| by apply confirms_none]. cbn [negb].
    destruct (decode_status (msg_payload m)) as [st|e'|] eqn:Hd; [| by apply confirms_none ..].
    destruct (validate_status st _ _) as [u|e'|] eqn:Hv; [| by apply confirms_none ..]. apply validate_ok in Hv.
    intros [|o1 [|o2 [|o3 [|o4 pre]]]] post E; try done. injection E as <- <- <-. exists [], h, m. split; [done |].
    split_and!; try done. by exists st.
Qed.

Lemma confirms_calls cf calls : forall r, confirms (fst (probe_calls cf calls r)).
Proof.
  induction calls as [|call calls IH]; intros r; [by apply confirms_none |]. cbn [probe_calls].
  pose proof (confirms_call cf call r) as Hc. destruct (probe_call cf call r) as [out r1]. specialize (IH r1).
  destruct (probe_calls cf calls r1) as [out' r2]. exact (confirms_app (ProbeTook call :: out) out' Hc IH).
Qed.

Lemma confirms_step e r : confirms (fst (step e r)).
Proof.
  destruct e as [e|cf| |cf]; cbn [probe_step fst]; try by apply confirms_none.
  - unfold probe_reads. destruct (step_session MessageRead _) as [out s]. pose proof (confirms_calls cf (called out) (with_probe_session s r)) as Hc.
    by destruct (probe_calls _ _ _).
  - unfold probe_resumes. destruct (probe_at r) as [[|]|[|]|]; try by apply confirms_none. by destruct (confirmed r); apply confirms_none.
Qed.

(** a probe counts a peer as connected only for a Status of Sepolia. In every run each call of
    [on_connected] comes just after a message that is a Status with the network, the genesis block and
    a range in order, which is counted. *)
Theorem probe_confirmed_first r events pre post :
  fst (runs events r) = pre ++ ProbeConnected :: post ->
  exists pre' h m, pre = pre' ++ [ProbeTook (GenericCall h m); Counted connected_count] /\ right_chain m.
Proof.
  intros E. assert (confirms (fst (runs events r))) as Hc; [| by apply (Hc pre post)]. clear E. revert r.
  induction events as [|e events IH]; intros r; [by apply confirms_none |]. cbn [probe_runs].
  pose proof (confirms_step e r) as Hs. destruct (step e r) as [out r1]. specialize (IH r1). destruct (runs events r1) as [out' r2].
  by apply confirms_app.
Qed.

(** ** The messages of a peer *)

Lemma sepolia_genesis_ok : hash_ok sepolia_genesis.
Proof. split; [done |]. apply (bool_decide_unpack _). vm_compute. exact I. Qed.

Context {laws : CipherLaws keccak256 aes_ctr} {snappy : SnappyLaws snappy_compress snappy_length snappy_uncompress}.
Abbreviation seal_all := (RlpxFraming.seal_all keccak256 aes_ecb_encrypt_block aes_ctr snappy_compress).
Abbreviation sendable := (RlpxFraming.sendable snappy_compress).
Abbreviation expecting := (EthWatch.expecting).

Lemma probe_next cf a c m rest r : expecting ReceiveReady a c (fst (seal_all c a [m]) ++ rest) (probe_session r) ->
  sendable c m -> 4 <= msg_id m ->
  exists s1, expecting (Routing m) (snd (seal_all c a [m])) c rest s1
  /\ runs [Loop ReceiveLoop; MessageArrives cf] r
     = let '(out, r1) := probe_message cf m (with_probe_session s1 r) in
       (ProbeTook (GenericCall on_generic m) :: out, with_probe_session (snd (step_session HandlersReturn (probe_session r1))) r1).
Proof using laws snappy.
  intros Hex Hm Hid.
  destruct (next_read keccak256 aes_ecb_encrypt_block aes_ctr snappy_compress snappy_length snappy_uncompress a c m rest (probe_session r) Hex Hm Hid)
    as (s1 & H1 & E). exists s1. split; [exact H1 |].
  cbn [probe_runs probe_step session_event_of fst snd app]. unfold probe_reads. cbn [probe_session with_probe_session]. rewrite E.
  change (called (map RlpxSession.Called [GenericCall on_generic m])) with [GenericCall on_generic m]. cbn [probe_calls probe_call].
  change (with_probe_session s1 (with_probe_session _ r)) with (with_probe_session s1 r).
  destruct (probe_message cf m _) as [out r1]. by rewrite !app_nil_r.
Qed.

Lemma probe_runs_app es es' : forall r, runs (es ++ es') r
  = let '(out, r1) := runs es r in let '(out', r2) := runs es' r1 in (out ++ out', r2).
Proof.
  induction es as [|e es IH]; intros r; cbn [app probe_runs]; [by destruct (runs es' r) |].
  destruct (step e r) as [o r1]. rewrite IH. destruct (runs es r1) as [o1 r2]. destruct (runs es' r2). by rewrite app_assoc.
Qed.

Definition confirmation (m : Message) : list probe_output :=
  [ProbeTook (GenericCall on_generic m); Counted connected_count; ProbeConnected].

(** every Status of Sepolia counts. Wherever the coroutine is, also when it has ended and has given back
    its slot, each such message of the peer is counted as a connection and has [on_connected] called. *)
Theorem status_counts_again c ms : forall a r,
  expecting ReceiveReady a c (fst (seal_all c a ms)) (probe_session r) ->
  Forall (sendable c) ms -> Forall (fun m => 4 <= msg_id m /\ right_chain m) ms ->
  let '(out, r') := runs (reads_of ms) r in
  out = flat_map confirmation ms /\ confirmed r' = confirmed r || negb (empty ms) /\ probe_over r' = probe_over r
  /\ is_active (probe_session r') = true.
Proof using laws snappy.
  induction ms as [|m ms IH]; intros a r Hex Hs Hm; [split_and!; try done; [by rewrite orb_false_r | apply Hex] |].
  apply Forall_cons_iff in Hs as [Hs1 Hs]. apply Forall_cons_iff in Hm as [[Hid Hr] Hm].
  change (m :: ms) with ([m] ++ ms) in Hex. rewrite seal_all_app in Hex. cbn [fst] in Hex.
  destruct (probe_next false a c m _ r Hex Hs1 Hid) as (s1 & H1 & Hrun). rewrite (probe_message_right _ _ _ Hr) in Hrun. cbv zeta beta iota in Hrun.
  change (reads_of (m :: ms)) with ([Loop ReceiveLoop; MessageArrives false] ++ reads_of ms). rewrite probe_runs_app, Hrun.
  destruct (cancel_probe (with_confirmed (with_probe_session s1 r))) as [(E1 & E2 & _) _].
  set (r1 := cancel_probe_timeout (with_confirmed (with_probe_session s1 r))) in *.
  assert (probe_session r1 = s1) as Es by (unfold r1, cancel_probe_timeout; by destruct (probe_at _) as [[|]|[|]|]).
  specialize (IH (snd (seal_all c a [m])) (with_probe_session (snd (step_session HandlersReturn (probe_session r1))) r1)).
  rewrite Es in *. specialize (IH ltac:(destruct H1 as [? ? Hl ? ? ? ?]; cbn [probe_session with_probe_session session_step snd]; rewrite Hl; by split) Hs Hm).
  destruct (runs (reads_of ms) _) as [out r']. destruct IH as (-> & Hc & Ho & Hact). split_and!; try done.
  - rewrite Hc. cbn [confirmed with_probe_session]. rewrite E1. cbn. by rewrite orb_true_r.
  - rewrite Ho. exact E2.
Qed.

(** What a probe begins with on a session that [connect] has made. *)
Lemma begin_probe_expecting fork a wire s : started s -> synced a (cipher_ (stream_ s)) -> fault (transport_ (stream_ s)) = None ->
  incoming (transport_ (stream_ s)) = wire ->
  let r := snd (begin_probe fork s) in
  probe_at r = AwaitingStatus Waiting /\ confirmed r = false /\ disconnect_reason r = DisconnectReason.kRequested
  /\ expecting ReceiveReady a (compression_enabled_ (stream_ s)) wire (probe_session r).
Proof.
  intros (Hact & Hq & _ & _ & Hl) Hs Hf Hi. unfold begin_probe.
  assert (exists out q, match encode_status (probe_status fork) with
    | Ok encoded => let '(result, s) := post_message (mkMessage (u8 (kProbeEthOffset + kWatchStatusMessageId)) encoded) s in
        ([ProbePosted (mkMessage (u8 (kProbeEthOffset + kWatchStatusMessageId)) encoded) result], s)
    | _ => ([], s) end = (out, with_send_channel q s)) as (out & q & E).
  { destruct (encode_status _) as [b|e|]; [| by exists [], (send_channel_ s); destruct s..].
    rewrite post_active by (unfold is_active; by rewrite Hact). by eexists _, _. }
  cbv zeta. rewrite E. cbn [snd]. split_and!; try done. split; try done. unfold is_active. cbn. by rewrite Hact.
Qed.

(** A Status of another chain, or with a range that is not in order. *)
Definition other_chain (m : Message) : Prop :=
  kProbeEthOffset <= msg_id m /\ u8 (msg_id m - kProbeEthOffset) = kWatchStatusMessageId
  /\ (exists st, decode_status (msg_payload m) = Ok st) /\ ~ right_chain m.

Lemma probe_message_other cf m r : other_chain m -> probe_message cf m r = ([Counted wrong_chain], refuse_status cf r).
Proof.
  intros (Ho & Hi & (st & Hd) & Hn). unfold probe_message. rewrite (proj2 (Z.ltb_ge _ _) Ho), Hi, Hd. cbn [negb Z.eqb kWatchStatusMessageId].
  destruct (validate_status st _ _) as [u|e|] eqn:Hv; [| done..]. apply validate_ok in Hv. destruct Hn. split_and!; try done. by exists st.
Qed.

(** a peer of another chain is counted twice. A probe that waits and is sent such a Status counts
    [wrong_chain], and, once it goes on, [connect_failed] too, since the cancelled timer looks like
    that of a peer that has left. *)
Theorem other_chain_counted_twice cf cf' a c m rest r :
  probe_at r = AwaitingStatus Waiting -> confirmed r = false -> disconnect_reason r <> DisconnectReason.kTooManyPeers ->
  expecting ReceiveReady a c (fst (seal_all c a [m]) ++ rest) (probe_session r) -> sendable c m -> 4 <= msg_id m -> other_chain m ->
  let '(out, r') := runs [Loop ReceiveLoop; MessageArrives cf; Resumes cf'] r in
  out = [ProbeTook (GenericCall on_generic m); Counted wrong_chain; Counted connect_failed; ProbeDone]
  /\ probe_over r' = true /\ is_active (probe_session r') = false.
Proof using laws snappy.
  intros Hp Hc Hr Hex Hs Hid Hm. destruct (probe_next cf a c m rest r Hex Hs Hid) as (s1 & H1 & Hrun).
  rewrite (probe_message_other _ _ _ Hm) in Hrun. unfold refuse_status, cancel_probe_timeout in Hrun. cbn [probe_at with_probe_session] in Hrun.
  rewrite Hp in Hrun. change [Loop ReceiveLoop; MessageArrives cf; Resumes cf'] with ([Loop ReceiveLoop; MessageArrives cf] ++ [Resumes cf']).
  rewrite probe_runs_app, Hrun. cbn [probe_runs probe_step]. unfold probe_resumes. cbn [probe_at with_probe_at with_probe_session confirmed disconnect_reason probe_session].
  rewrite Hc, (proj2 (Z.eqb_neq _ _) Hr). split_and!; try done. apply disconnect_closes.
Qed.

(** the Status of a probe is for version 69. Whatever version its session has, a probe posts the same
    message; a watch of Sepolia takes it when its session has version 69, and refuses it with any other. *)
Theorem probe_status_needs_69 fork s w :
  fork_ok fork -> is_active s = true -> network_id w = kProbeNetworkId -> genesis_hash w = sepolia_genesis -> eth_offset w = kProbeEthOffset ->
  exists m, fst (begin_probe fork s) = [ProbePosted m (Ok tt)]
  /\ send_channel_ (probe_session (snd (begin_probe fork s))) = send_channel_ s ++ [m]
  /\ right_chain m /\ forall version, admits w version m <-> version = 69.
Proof.
  intros Hf Hact Hn Hg Ho.
  set (w0 := mkWatchParams [] 0 [] kProbeEthOffset kProbeNetworkId sepolia_genesis fork []).
  assert (probe_status fork = own_status w0 69) as Es by done.
  assert (params_ok w0) as Hw.
  { split; [unfold uint8; cbn; unfold kProbeEthOffset; lia |]. split; [unfold fits; cbn; unfold kProbeNetworkId; lia |]. exact (conj sepolia_genesis_ok Hf). }
  destruct (own_status_ok w0 69 Hw ltac:(lia)) as (Hok & Hver & Hr & Hc & Hl).
  destruct (status_roundtrip _ Hok Hl) as [Hrt _]. specialize (Hrt Hver). unfold send in Hrt.
  unfold begin_probe. rewrite Es. destruct (encode_status (own_status w0 69)) as [b|e|] eqn:He; [| discriminate Hrt..]. cbn [obind] in Hrt.
  injection Hrt as Hd. rewrite post_active by done. eexists. split; [done |]. split; [done |].
  assert (forall version, admits w version (mkMessage (u8 (kProbeEthOffset + kWatchStatusMessageId)) b) <-> version = 69) as Hv.
  { intros version. unfold admits. rewrite Ho, Hn, Hg. cbn [msg_id msg_payload]. split.
    - intros (_ & _ & st & Hst & Hv & _). rewrite Hd in Hst. injection Hst as <-. by rewrite Hc in Hv.
    - intros ->. split; [discriminate |]. split; [reflexivity |]. exists (own_status w0 69). rewrite Hc. exact (conj Hd (conj eq_refl (conj eq_refl (conj eq_refl Hr)))). }
  split; [| exact Hv]. split; [discriminate |]. split; [reflexivity |]. exists (own_status w0 69). rewrite Hc. exact (conj Hd (conj eq_refl (conj eq_refl Hr))).
Qed.
End steps.

(** ** Instances *)

#[local] Existing Instance sample_cipher_laws.

(** A probe of the sample session, with what the peer sends on the way. *)
Module ProbeSample.
Abbreviation runs := (probe_runs ToySsl.digest Toy.aes_ecb Toy.aes_ctr Toy.compress Toy.uncompressed_length Toy.uncompress).
Definition fork : ForkId := mkForkId kSepoliaForkHashFallback 0.
Definition begun (ms : list Message) : ProbeRun := snd (begin_probe fork (WatchSample.session_with ms)).
Definition sepolia : WatchParams := mkWatchParams [] 0 [] kProbeEthOffset kProbeNetworkId sepolia_genesis fork [].
Definition status : Message := WatchSample.status_of sepolia.
Definition other : Message := WatchSample.status_of WatchSample.other_chain.
Definition three : list Message := [status; status; status].
End ProbeSample.

Lemma sample_right : right_chain ProbeSample.status.
Proof.
  split; [vm_compute; congruence |]. split; [reflexivity |]. exists (own_status ProbeSample.sepolia 68).
  split; [vm_compute; reflexivity |]. split; [reflexivity |]. split; [reflexivity |]. exact (fun H => H).
Defined.

Lemma probe_confirmed_first_witness :
  exists pre' h m, [ProbeTook (GenericCall on_generic ProbeSample.status); Counted connected_count]
    = pre' ++ [ProbeTook (GenericCall h m); Counted connected_count] /\ right_chain m.
Proof.
  exact (probe_confirmed_first ToySsl.digest Toy.aes_ecb Toy.aes_ctr Toy.compress Toy.uncompressed_length Toy.uncompress
    (ProbeSample.begun [ProbeSample.status]) [Loop ReceiveLoop; MessageArrives false]
    [ProbeTook (GenericCall on_generic ProbeSample.status); Counted connected_count] [] ltac:(vm_compute; reflexivity)).
Defined.

Lemma sample_probe ms : expecting ReceiveReady WatchSample.peer true (fst (SessionSample.sealed_all true WatchSample.peer ms))
  (probe_session (ProbeSample.begun ms)) /\ probe_at (ProbeSample.begun ms) = AwaitingStatus Waiting /\ confirmed (ProbeSample.begun ms) = false
  /\ disconnect_reason (ProbeSample.begun ms) = DisconnectReason.kRequested.
Proof.
  destruct (sample_session_ok ms) as (H1 & _ & H3 & H4 & H5 & H6).
  destruct (begin_probe_expecting ProbeSample.fork WatchSample.peer _ _ H1 H3 H4 H6) as (E1 & E2 & E3 & E4). rewrite H5 in E4.
  exact (conj E4 (conj E1 (conj E2 E3))).
Defined.

(** One peer that sends its Status three times. *)
Lemma status_counts_again_witness :
  let '(out, r) := ProbeSample.runs (reads_of ProbeSample.three) (ProbeSample.begun ProbeSample.three) in
  count (is_call ConnectedCall) out = 3 /\ confirmed r = true.
Proof.
  destruct (sample_probe ProbeSample.three) as (Hex & _ & Hc & _).
  pose proof (status_counts_again ToySsl.digest Toy.aes_ecb Toy.aes_ctr Toy.compress Toy.uncompressed_length Toy.uncompress
    true ProbeSample.three WatchSample.peer (ProbeSample.begun ProbeSample.three) Hex) as H.
  assert (Forall (sendable Toy.compress true) ProbeSample.three) as Hs
    by (repeat apply Forall_cons; try apply Forall_nil; try apply sendable_check; vm_compute; reflexivity).
  assert (Forall (fun m => 4 <= msg_id m /\ right_chain m) ProbeSample.three) as Hm.
  { assert (4 <= msg_id ProbeSample.status) as Hid by (vm_compute; discriminate).
    exact (Forall_cons _ _ _ (conj Hid sample_right) (Forall_cons _ _ _ (conj Hid sample_right) (Forall_cons _ _ _ (conj Hid sample_right) (Forall_nil _)))). }
  specialize (H Hs Hm). destruct (ProbeSample.runs _ _) as [out r]. destruct H as (-> & Hr & _). split; [reflexivity |].
  rewrite Hr, Hc. reflexivity.
Defined.

Lemma other_chain_counted_twice_witness :
  let '(out, r) := ProbeSample.runs [Loop ReceiveLoop; MessageArrives false; Resumes false] (ProbeSample.begun [ProbeSample.other]) in
  out = [ProbeTook (GenericCall on_generic ProbeSample.other); Counted wrong_chain; Counted connect_failed; ProbeDone].
Proof.
  destruct (sample_probe [ProbeSample.other]) as (Hex & Hp & Hc & Hr). rewrite <- (app_nil_r (fst _)) in Hex.
  pose proof (other_chain_counted_twice ToySsl.digest Toy.aes_ecb Toy.aes_ctr Toy.compress Toy.uncompressed_length Toy.uncompress
    false false WatchSample.peer true ProbeSample.other [] (ProbeSample.begun [ProbeSample.other]) Hp Hc) as H.
  specialize (H ltac:(rewrite Hr; discriminate) Hex).
  specialize (H ltac:(apply sendable_check; vm_compute; reflexivity) ltac:(vm_compute; discriminate)).
  assert (other_chain ProbeSample.other) as Ho.
  { split; [vm_compute; discriminate |]. split; [reflexivity |]. split; [exists (own_status WatchSample.other_chain 68); vm_compute; reflexivity |].
    intros (_ & _ & st & Hd & Hn & _). vm_compute in Hd. injection Hd as <-. vm_compute in Hn. discriminate Hn. }
  specialize (H Ho). destruct (ProbeSample.runs _ _) as [out r]. exact (proj1 H).
Defined.

Lemma probe_status_needs_69_witness :
  exists m, fst (begin_probe ProbeSample.fork (WatchSample.session_with [])) = [ProbePosted m (Ok tt)] /\ ~ admits ProbeSample.sepolia 68 m.
Proof.
  destruct (probe_status_needs_69 ProbeSample.fork (WatchSample.session_with []) ProbeSample.sepolia) as (m & H1 & _ & _ & H4).
  - split; [octets | unfold fits; cbn; lia].
  - vm_compute. reflexivity.
  - reflexivity.
  - reflexivity.
  - reflexivity.
  - exists m. split; [exact H1 |]. intros Hx. apply H4 in Hx. discriminate Hx.
Defined.
