(* ===== verification/QualityFilter.v ===== *)
(** * QualityFilter: which candidates are dialed

    [QualityFilterState] and its functions in [examples/discovery/test_discv5_connect.cpp]: a candidate must
    have an address that is publicly routable, no key, address or port with too many failed connections,
    and a subnet of which not too many were taken. A counter is what [operator[]] gives, 0 for a new
    key. The texts of addresses are read by Boost.Asio ([AddressText]).

    Theorems: an IPv4 address is routable exactly outside of seven blocks ([routable_v4]); after any connections that failed
    a candidate is blocked exactly when two were to its key, three to its address or four to its port
    ([blocked_by_failures]); and the candidates that are taken are the first two of each /24 subnet
    ([two_of_each_subnet]). But nearly all nodes have the same port, so that four failures block them
    all ([default_port_blocked]). *)
From S2P Require Import Addresses EthCli Discv5Crawl.
From S2P Require Export DialScheduler.
Open Scope Z_scope.

(** ** Data *)

Record QualityFilterState := mkQuality {
  fail_counts : gmap (list Z) Z;
  ip_fail_counts : gmap (list Z) Z;
  port_fail_counts : gmap Z Z;
  subnet_enqueue_counts : gmap (list Z) Z;
  blocked_pubkeys : gset (list Z);
  blocked_ips : gset (list Z);
  blocked_ports : gset Z;
  block_threshold : Z;
  ip_block_threshold : Z;
  port_block_threshold : Z;
  subnet_enqueue_limit : Z
}.

Definition new_quality : QualityFilterState := mkQuality ∅ ∅ ∅ ∅ ∅ ∅ ∅ 2 3 4 2.

Definition with_failures (keys ips : gmap (list Z) Z) (ports : gmap Z Z) (bk bi : gset (list Z)) (bp : gset Z)
    (q : QualityFilterState) : QualityFilterState :=
  mkQuality keys ips ports (subnet_enqueue_counts q) bk bi bp (block_threshold q) (ip_block_threshold q)
    (port_block_threshold q) (subnet_enqueue_limit q).
Definition with_subnets (m : gmap (list Z) Z) (q : QualityFilterState) : QualityFilterState :=
  mkQuality (fail_counts q) (ip_fail_counts q) (port_fail_counts q) m (blocked_pubkeys q) (blocked_ips q) (blocked_ports q)
    (block_threshold q) (ip_block_threshold q) (port_block_threshold q) (subnet_enqueue_limit q).

(** [pubkey_to_hex]. *)
Definition pubkey_to_hex (key : bytes) : bytes :=
  let kHex := text "0123456789abcdef" in
  flat_map (fun byte => [byte_at kHex (Z.land (Z.shiftr byte 4) 0x0F); byte_at kHex (Z.land byte 0x0F)]) key.

(** ** Addresses *)

(** [is_loopback], [is_link_local], [is_multicast] and [is_unspecified] of an IPv6 address. *)
Definition v6_loopback (b : bytes) : bool := bool_decide (b = repeat 0 15 ++ [1]).
Definition v6_link_local (b : bytes) : bool := (byte_at b 0 =? 0xFE) && (Z.land (byte_at b 1) 0xC0 =? 0x80).
Definition v6_multicast (b : bytes) : bool := byte_at b 0 =? 0xFF.
Definition v6_unspecified (b : bytes) : bool := bool_decide (b = repeat 0 16).

Definition is_publicly_routable_ip `{AddressText} (ip : bytes) : bool :=
  match make_address ip with
  | None => false
  | Some (V4 b) =>
      let b0 := byte_at b 0 in let b1 := byte_at b 1 in
      if (b0 =? 0) || (b0 =? 10) || (b0 =? 127) then false
      else if (b0 =? 169) && (b1 =? 254) then false
      else if (b0 =? 172) && (16 <=? b1) && (b1 <=? 31) then false
      else if (b0 =? 192) && (b1 =? 168) then false
      else negb (224 <=? b0)
  | Some (V6 b) => negb (v6_loopback b) && negb (v6_link_local b) && negb (v6_multicast b) && negb (v6_unspecified b)
  end.

Definition subnet_key_v4_24 `{AddressText} (ip : bytes) : option bytes :=
  match make_address ip with
  | Some (V4 b) => Some (decimal 3 (byte_at b 0) ++ [46] ++ decimal 3 (byte_at b 1) ++ [46] ++ decimal 3 (byte_at b 2))
  | _ => None
  end.

(** ** The operations *)

Definition is_candidate_blocked (vp : ValidatedPeer) (q : QualityFilterState) : bool :=
  bool_decide (pubkey_to_hex (pubkey vp) ∈ blocked_pubkeys q) || bool_decide (peer_ip (peer vp) ∈ blocked_ips q)
  || bool_decide (tcp_port (peer vp) ∈ blocked_ports q).

(** One more at [k], which is blocked from [threshold] on. *)
Definition count_failure {K} `{Countable K} (threshold : Z) (k : K) (s : gmap K Z * gset K) : gmap K Z * gset K :=
  let fails := default 0 (fst s !! k) + 1 in
  (<[k := fails]> (fst s), if threshold <=? fails then {[k]} ∪ snd s else snd s).

(** The connection to a candidate has failed. *)
Definition record_failure (vp : ValidatedPeer) (q : QualityFilterState) : QualityFilterState :=
  let '(keys, bk) := count_failure (block_threshold q) (pubkey_to_hex (pubkey vp)) (fail_counts q, blocked_pubkeys q) in
  let '(ips, bi) := count_failure (ip_block_threshold q) (peer_ip (peer vp)) (ip_fail_counts q, blocked_ips q) in
  let '(ports, bp) := count_failure (port_block_threshold q) (tcp_port (peer vp)) (port_fail_counts q, blocked_ports q) in
  with_failures keys ips ports bk bi bp q.

(** The last three checks of a candidate: is it taken? *)
Definition screen `{AddressText} (vp : ValidatedPeer) (q : QualityFilterState) : bool * QualityFilterState :=
  if negb (is_publicly_routable_ip (peer_ip (peer vp))) then (false, q)
  else if is_candidate_blocked vp q then (false, q)
  else match subnet_key_v4_24 (peer_ip (peer vp)) with
       | None => (true, q)
       | Some key =>
           let queued := default 0 (subnet_enqueue_counts q !! key) in
           let q := with_subnets (<[key := queued]> (subnet_enqueue_counts q)) q in
           if subnet_enqueue_limit q <=? queued then (false, q)
           else (true, with_subnets (<[key := queued + 1]> (subnet_enqueue_counts q)) q)
       end.

(** What happens to the filter. *)
Inductive quality_event := Screened (vp : ValidatedPeer) | Failed (vp : ValidatedPeer).

(** The candidates that were taken, in order, and the filter. *)
Fixpoint quality_run `{AddressText} (es : list quality_event) (q : QualityFilterState) : list ValidatedPeer * QualityFilterState :=
  match es with
  | [] => ([], q)
  | Screened vp :: es =>
      let '(taken, q) := screen vp q in
      let '(vps, q) := quality_run es q in ((if taken then [vp] else []) ++ vps, q)
  | Failed vp :: es => quality_run es (record_failure vp q)
  end.

(** ** Addresses *)

(** An address as a number, and the block of those that begin like [base]. *)
Definition v4_value (a : bytes) : Z := fold_left (fun n b => n * 256 + b) a 0.
Definition in_block (a : bytes) (block : bytes * Z) : bool :=
  Z.shiftr (v4_value a) (32 - snd block) =? Z.shiftr (v4_value (fst block)) (32 - snd block).

Definition unroutable_blocks : list (bytes * Z) :=
  [([0; 0; 0; 0], 8); ([10; 0; 0; 0], 8); ([127; 0; 0; 0], 8); ([169; 254; 0; 0], 16); ([172; 16; 0; 0], 12);
   ([192; 168; 0; 0], 16); ([224; 0; 0; 0], 3)].

(** the routable IPv4 addresses. They are those in none of the blocks 0/8, 10/8, 127/8, 169.254/16,
    172.16/12, 192.168/16 and 224/3. *)
Theorem routable_v4 `{AddressLaws} a : is_array 4 a ->
  is_publicly_routable_ip (address_v4_to_string a) = negb (existsb (in_block a) unroutable_blocks).
Proof.
  intros Ha. unfold is_publicly_routable_ip. rewrite make_address_v4_to_string by done.
  destruct Ha as [Hl Hok]. destruct a as [|a [|b [|c [|d [|]]]]]; try done.
  repeat (apply bytes_ok_cons in Hok as [? Hok]). unfold uint8 in *.
  assert (forall k q r, 0 <= k -> v4_value [a; b; c; d] = q * 2 ^ k + r -> 0 <= r < 2 ^ k -> Z.shiftr (v4_value [a; b; c; d]) k = q) as Hq.
  { intros k q r Hk -> Hr. rewrite Z.shiftr_div_pow2 by done. rewrite Z.div_add_l, Z.div_small by lia. lia. }
  assert (v4_value [a; b; c; d] = ((a * 256 + b) * 256 + c) * 256 + d) as Hv by done.
  unfold in_block, unroutable_blocks. cbn [existsb fst snd].
  change (32 - 8) with 24. change (32 - 16) with 16. change (32 - 12) with 20. change (32 - 3) with 29.
  rewrite (Hq 24 a (b * 65536 + c * 256 + d)), (Hq 16 (a * 256 + b) (c * 256 + d)), (Hq 20 (a * 16 + b / 16) (b mod 16 * 65536 + c * 256 + d)),
    (Hq 29 (a / 32) (a mod 32 * 16777216 + b * 65536 + c * 256 + d)) by (rewrite ?Hv; try (change (2 ^ 24) with 16777216); try (change (2 ^ 16) with 65536); try (change (2 ^ 20) with 1048576); try (change (2 ^ 29) with 536870912); Z.div_mod_to_equations; lia).
  change (byte_at [a; b; c; d] 0) with a. change (byte_at [a; b; c; d] 1) with b.
  repeat match goal with |- context [Z.shiftr (v4_value ?x) ?k] => let v := eval vm_compute in (Z.shiftr (v4_value x) k) in change (Z.shiftr (v4_value x) k) with v end.
  rewrite orb_false_r. clear Hv Hq. repeat (zcase; cbn [negb orb andb]; try reflexivity; try lia); exfalso; Z.div_mod_to_equations; lia.
Qed.

(** ** Counting failures *)

Lemma count_snoc {A} (P : A -> bool) l x : count P (l ++ [x]) = count P l + Z.b2z (P x).
Proof. rewrite count_app, count_cons. change (count P []) with 0. lia. Qed.

Section count_failure.
Context {K : Type} `{Countable K} (threshold : Z).

Lemma count_failures (ks : list K) : 1 <= threshold ->
  let '(counts, blocked) := fold_left (fun s k => count_failure threshold k s) ks (∅, ∅) in
  forall k, default 0 (counts !! k) = count (fun k' => bool_decide (k' = k)) ks
  /\ bool_decide (k ∈ blocked) = (threshold <=? count (fun k' => bool_decide (k' = k)) ks).
Proof.
  intros Ht. induction ks as [|j ks IH] using rev_ind.
  - intros k. rewrite lookup_empty. split; [done |]. rewrite (proj2 (Z.leb_gt _ _)) by (unfold count, len; cbn; lia). by apply bool_decide_eq_false.
  - rewrite fold_left_app. cbn [fold_left]. destruct (fold_left _ ks _) as [counts blocked]. intros k. unfold count_failure. cbn [fst snd].
    rewrite count_snoc. destruct (IH j) as [IHj IHb]. destruct (IH k) as [IHk IHc]. rewrite IHj.
    destruct (decide (j = k)) as [<-|Hne].
    + rewrite lookup_insert_eq, (bool_decide_true (j = j)) by done. cbn [default Z.b2z]. split; [done |]. case_match eqn:E.
      * apply bool_decide_eq_true, elem_of_union_l, elem_of_singleton_2, eq_refl.
      * rewrite IHb. apply Z.leb_gt. apply Z.leb_gt in E. lia.
    + rewrite lookup_insert_ne, (bool_decide_false (j = k)) by done. cbn [Z.b2z]. rewrite Z.add_0_r. split; [done |].
      rewrite <- IHc. case_match; [| done]. apply bool_decide_ext. rewrite elem_of_union, elem_of_singleton. split; [intros [->|?]; done | by right].
Qed.
End count_failure.

(** The counters of the failed connections, and the blocked. *)
Definition counted (q : QualityFilterState) := ((fail_counts q, blocked_pubkeys q), (ip_fail_counts q, blocked_ips q), (port_fail_counts q, blocked_ports q)).
Definition thresholds (q : QualityFilterState) := (block_threshold q, ip_block_threshold q, port_block_threshold q, subnet_enqueue_limit q).

Lemma quality_run_app `{AddressText} es es' : forall q, quality_run (es ++ es') q
  = let '(vps, q1) := quality_run es q in let '(vps', q2) := quality_run es' q1 in (vps ++ vps', q2).
Proof.
  induction es as [|[vp|vp] es IH]; intros q; cbn [app quality_run]; [by destruct (quality_run es' q) | | apply IH].
  destruct (screen vp q) as [taken q1]. rewrite IH. destruct (quality_run es q1) as [vps q2]. destruct (quality_run es' q2). by rewrite app_assoc.
Qed.

Lemma screen_keeps `{AddressText} vp q : counted (snd (screen vp q)) = counted q /\ thresholds (snd (screen vp q)) = thresholds q.
Proof.
  unfold screen. destruct (negb _); [done |]. destruct (is_candidate_blocked _ _); [done |]. destruct (subnet_key_v4_24 _); [| done].
  by destruct (_ <=? _).
Qed.

Definition failed_of (es : list quality_event) : list ValidatedPeer := omap (fun e => match e with Failed vp => Some vp | _ => None end) es.

Lemma quality_counts `{AddressText} es : forall q, let q' := snd (quality_run es q) in
  thresholds q' = thresholds q
  /\ counted q' =
    (fold_left (fun s k => count_failure (block_threshold q) k s) (map (fun vp => pubkey_to_hex (pubkey vp)) (failed_of es)) (fail_counts q, blocked_pubkeys q),
     fold_left (fun s k => count_failure (ip_block_threshold q) k s) (map (fun vp => peer_ip (peer vp)) (failed_of es)) (ip_fail_counts q, blocked_ips q),
     fold_left (fun s k => count_failure (port_block_threshold q) k s) (map (fun vp => tcp_port (peer vp)) (failed_of es)) (port_fail_counts q, blocked_ports q)).
Proof.
  induction es as [|[vp|vp] es IH]; intros q; cbn [quality_run]; [done | |].
  - destruct (screen_keeps vp q) as [E1 E2]. destruct (screen vp q) as [taken q1]. cbn [snd] in E1, E2. specialize (IH q1).
    destruct (quality_run es q1) as [vps q2]. cbn [snd] in *. destruct IH as [E3 E4]. split; [by rewrite E3 |].
    rewrite E4. injection E1 as -> -> -> -> -> ->. by injection E2 as -> -> -> _.
  - specialize (IH (record_failure vp q)). change (failed_of (Failed vp :: es)) with (vp :: failed_of es). cbn [map fold_left].
    unfold record_failure in *. do 3 (destruct (count_failure _ _ _) as [? ?]). exact IH.
Qed.

Lemma blocked_spec `{AddressText} es vp :
  let fails := failed_of es in
  is_candidate_blocked vp (snd (quality_run es new_quality))
  = (2 <=? count (fun f => bool_decide (pubkey_to_hex (pubkey f) = pubkey_to_hex (pubkey vp))) fails)
    || (3 <=? count (fun f => bool_decide (peer_ip (peer f) = peer_ip (peer vp))) fails)
    || (4 <=? count (fun f => bool_decide (tcp_port (peer f) = tcp_port (peer vp))) fails).
Proof.
  cbn zeta. destruct (quality_counts es new_quality) as [_ Hc]. unfold is_candidate_blocked. destruct (snd (quality_run es new_quality)).
  unfold counted in Hc. cbn [fail_counts blocked_pubkeys ip_fail_counts blocked_ips port_fail_counts blocked_ports block_threshold ip_block_threshold
    port_block_threshold new_quality] in *. injection Hc as E1 E2 E3.
  assert (forall K (HE : EqDecision K) (HC : Countable K) (f : ValidatedPeer -> K) t, 1 <= t -> forall (m : gmap K Z) (b : gset K),
    (m, b) = fold_left (fun s k => count_failure t k s) (map f (failed_of es)) (∅, ∅) ->
    bool_decide (f vp ∈ b) = (t <=? count (fun x => bool_decide (f x = f vp)) (failed_of es))) as Hx.
  { intros K HE HC f t Ht m b E. pose proof (count_failures t (map f (failed_of es)) Ht) as H0. rewrite <- E in H0. destruct (H0 (f vp)) as [_ ->].
    f_equal. clear. induction (failed_of es) as [|x l IH]; [done |]. cbn [map]. by rewrite !count_cons, IH. }
  by rewrite (Hx _ _ _ _ 2 ltac:(lia) _ _ E1), (Hx _ _ _ _ 3 ltac:(lia) _ _ E2), (Hx _ _ _ _ 4 ltac:(lia) _ _ E3).
Qed.

(** C36: who is blocked. After any candidates were screened and any connections have failed, a candidate is
    blocked exactly when two of these had its key, three its address or four its port. *)
Theorem blocked_by_failures `{AddressText} es vp :
  let fails := failed_of es in
  is_candidate_blocked vp (snd (quality_run es new_quality))
  = (2 <=? count (fun f => bool_decide (pubkey_to_hex (pubkey f) = pubkey_to_hex (pubkey vp))) fails)
    || (3 <=? count (fun f => bool_decide (peer_ip (peer f) = peer_ip (peer vp))) fails)
    || (4 <=? count (fun f => bool_decide (tcp_port (peer f) = tcp_port (peer vp))) fails).
Proof. apply blocked_spec. Qed.

(** The text of a key is its own. *)
Lemma pubkey_to_hex_inj key key' : bytes_ok key -> bytes_ok key' -> length key = length key' -> pubkey_to_hex key = pubkey_to_hex key' -> key = key'.
Proof.
  assert (forall key, bytes_ok key -> pubkey_to_hex key = to_hex key) as Hh.
  { intros k Hk. unfold to_hex. induction Hk as [|b k Hb _ IH]; [done |]. unfold pubkey_to_hex in *. cbn [flat_map map concat]. rewrite IH. f_equal.
    assert (forallb (fun b => bool_decide ([byte_at (text "0123456789abcdef") (Z.land (Z.shiftr b 4) 0x0F); byte_at (text "0123456789abcdef") (Z.land b 0x0F)]
      = [digit_char (b / 16); digit_char (b mod 16)])) (map Z.of_nat (seq 0 256)) = true) as Hall by (vm_compute; reflexivity).
    rewrite forallb_forall in Hall. specialize (Hall b). rewrite bool_decide_eq_true in Hall. apply Hall.
    apply in_map_iff. exists (Z.to_nat b). unfold uint8 in Hb. split; [lia |]. apply in_seq. lia. }
  intros H1 H2 Hl E. rewrite !Hh in E by done. pose proof (fork_hash_octets_hex key _ Hl H1) as F1.
  pose proof (fork_hash_octets_hex key' _ eq_refl H2) as F2. rewrite E in F1. congruence.
Qed.

(** ** Subnets *)

Section subnets.
Context `{AddressText}.

Definition in_subnet (k : bytes) (vp : ValidatedPeer) : bool := bool_decide (subnet_key_v4_24 (peer_ip (peer vp)) = Some k).

(** Those that the filter has taken are counted. *)
Definition subnets_counted (vps : list ValidatedPeer) (q : QualityFilterState) : Prop :=
  forall k, default 0 (subnet_enqueue_counts q !! k) = count (in_subnet k) vps /\ count (in_subnet k) vps <= subnet_enqueue_limit q.

Lemma screen_subnets vps vp q : subnets_counted vps q ->
  let '(taken, q') := screen vp q in
  taken = is_publicly_routable_ip (peer_ip (peer vp)) && negb (is_candidate_blocked vp q)
    && match subnet_key_v4_24 (peer_ip (peer vp)) with Some k => count (in_subnet k) vps <? subnet_enqueue_limit q | None => true end
  /\ subnets_counted (vps ++ if taken then [vp] else []) q'.
Proof.
  intros Hq. unfold screen. destruct (is_publicly_routable_ip _); cbn [negb andb]; [| by rewrite app_nil_r].
  assert (forall k, in_subnet k vp = bool_decide (subnet_key_v4_24 (peer_ip (peer vp)) = Some k)) as Hin by done.
  destruct (is_candidate_blocked vp q); cbn [negb andb]; [by rewrite app_nil_r |].
  destruct (subnet_key_v4_24 (peer_ip (peer vp))) as [key|] eqn:Ek.
  - destruct (Hq key) as [Hc Hle]. rewrite Hc. cbn [subnet_enqueue_limit with_subnets].
    destruct (Z.leb_spec (subnet_enqueue_limit q) (count (in_subnet key) vps)).
    + rewrite (proj2 (Z.ltb_ge _ _)) by lia. split; [done |]. rewrite app_nil_r. intros k. cbn [subnet_enqueue_counts subnet_enqueue_limit with_subnets].
      destruct (decide (key = k)) as [<-|Hne]; [by rewrite lookup_insert_eq | rewrite lookup_insert_ne by done; apply Hq].
    + rewrite (proj2 (Z.ltb_lt _ _)) by lia. split; [done |]. intros k. cbn [subnet_enqueue_counts subnet_enqueue_limit with_subnets].
      rewrite count_snoc, Hin. destruct (decide (key = k)) as [<-|Hne].
      * rewrite lookup_insert_eq, bool_decide_true by done. split; [done |]. cbn [Z.b2z]. lia.
      * rewrite !lookup_insert_ne, bool_decide_false by congruence. cbn [Z.b2z]. rewrite Z.add_0_r. apply Hq.
  - split; [done |]. intros k. rewrite count_snoc, Hin, bool_decide_false by done. cbn [Z.b2z]. rewrite Z.add_0_r. apply Hq.
Qed.

Lemma failure_subnets vps vp q : subnets_counted vps q -> subnets_counted vps (record_failure vp q).
Proof. intros Hq. unfold record_failure. by do 3 (destruct (count_failure _ _ _) as [? ?]). Qed.

Lemma run_subnets es : forall vps q, subnets_counted vps q -> subnets_counted (vps ++ fst (quality_run es q)) (snd (quality_run es q)).
Proof.
  induction es as [|[vp|vp] es IH]; intros vps q Hq; cbn [quality_run]; [by rewrite app_nil_r | |].
  - pose proof (screen_subnets vps vp q Hq) as Hs. destruct (screen vp q) as [taken q1]. destruct Hs as [_ Hs]. specialize (IH _ _ Hs).
    destruct (quality_run es q1) as [vps' q2]. cbn [fst snd] in *. by rewrite app_assoc.
  - by apply IH, failure_subnets.
Qed.

(** the candidates that are taken. At any point the filter has taken at most two candidates of a
    subnet, and the next is taken exactly when its address is routable, it is not blocked, and its
    subnet, if it has one, has fewer than two. *)
Theorem two_of_each_subnet es vp :
  let '(vps, q) := quality_run es new_quality in
  (forall k, count (in_subnet k) vps <= 2)
  /\ fst (screen vp q) = is_publicly_routable_ip (peer_ip (peer vp)) && negb (is_candidate_blocked vp q)
       && match subnet_key_v4_24 (peer_ip (peer vp)) with Some k => count (in_subnet k) vps <? 2 | None => true end.
Proof.
  pose proof (run_subnets es [] new_quality) as Hr. destruct (quality_counts es new_quality) as [Ht _].
  destruct (quality_run es new_quality) as [vps q]. cbn [fst snd app] in *. injection Ht as _ _ _ Hl.
  specialize (Hr ltac:(intros k; cbn [new_quality subnet_enqueue_counts subnet_enqueue_limit]; rewrite lookup_empty; by split)). split; [intros k; destruct (Hr k) as [_ Hk]; by rewrite Hl in Hk |].
  pose proof (screen_subnets vps vp q Hr) as Hs. destruct (screen vp q) as [taken q']. rewrite Hl in Hs. exact (proj1 Hs).
Qed.

(** a port is blocked for good. Once four connections to a port have failed, to whatever peers, no
    candidate with this port is taken any more. *)
Theorem default_port_blocked es es' port :
  4 <= count (fun f => bool_decide (tcp_port (peer f) = port)) (failed_of es) ->
  Forall (fun vp => tcp_port (peer vp) <> port) (fst (quality_run es' (snd (quality_run es new_quality)))).
Proof.
  intros Hp. revert es Hp. induction es' as [|[vp|vp] es' IH]; intros es Hp; cbn [quality_run]; [constructor | |].
  - pose proof (blocked_spec es vp) as Hb. cbn zeta in Hb. specialize (IH (es ++ [Screened vp])).
    assert (failed_of (es ++ [Screened vp]) = failed_of es) as Ef by (unfold failed_of; rewrite omap_app; apply app_nil_r).
    rewrite Ef, quality_run_app in IH. specialize (IH Hp).
    destruct (quality_run es new_quality) as [vps q]. cbn [snd] in *. cbn [quality_run] in IH.
    assert (tcp_port (peer vp) = port -> fst (screen vp q) = false) as Hs.
    { intros E. unfold screen. destruct (negb _); [done |]. rewrite Hb, E, (proj2 (Z.leb_le 4 _) Hp), orb_true_r. done. }
    destruct (screen vp q) as [taken q1]. cbn [snd fst] in *. destruct (quality_run es' q1) as [vps' q2]. cbn [fst] in *.
    apply Forall_app. split; [| exact IH]. destruct taken; [| constructor]. constructor; [| constructor]. by intros E%Hs.
  - specialize (IH (es ++ [Failed vp])). rewrite quality_run_app in IH.
    assert (failed_of (es ++ [Failed vp]) = failed_of es ++ [vp]) as Ef by (unfold failed_of; rewrite omap_app; done).
    rewrite Ef, count_snoc in IH. destruct (quality_run es new_quality) as [vps q]. cbn [snd quality_run] in *.
    apply IH. destruct (bool_decide _); cbn; lia.
Qed.
End subnets.

(** ** Instances *)

#[local] Existing Instance DottedText.text.
#[local] Existing Instance DottedText.laws.

Module QualitySample.
Definition candidate (n : Z) (a : bytes) : ValidatedPeer := mkValidatedPeer (mkPeer (repeat n 64) (dotted a) 30303 30303 0 None) (repeat n 64).
(** Connections to four nodes in four places, all of them with the default port. *)
Definition failed_events : list quality_event := map (fun n => Failed (candidate n [n; 1; 1; 1])) [1; 2; 3; 4].
Definition next : ValidatedPeer := candidate 5 [5; 6; 7; 8].
End QualitySample.

Lemma routable_v4_witness : is_publicly_routable_ip (dotted [172; 32; 0; 1]) = true /\ is_publicly_routable_ip (dotted [172; 31; 0; 1]) = false.
Proof.
  split.
  - refine (eq_trans (routable_v4 [172; 32; 0; 1] _) _); [split; [reflexivity | octets] | vm_compute; reflexivity].
  - refine (eq_trans (routable_v4 [172; 31; 0; 1] _) _); [split; [reflexivity | octets] | vm_compute; reflexivity].
Defined.

(** The filter as it is at the start takes the candidate, and refuses it after the four failures. *)
Lemma default_port_blocked_witness :
  fst (screen QualitySample.next new_quality) = true
  /\ ~ In QualitySample.next (fst (quality_run [Screened QualitySample.next] (snd (quality_run QualitySample.failed_events new_quality)))).
Proof.
  split; [vm_compute; reflexivity |].
  pose proof (default_port_blocked QualitySample.failed_events [Screened QualitySample.next] 30303 ltac:(vm_compute; discriminate)) as H.
  rewrite List.Forall_forall in H. intros Hin. exact (H _ Hin eq_refl).
Defined.

(** What the other checks let through: an IPv6 address for use within a site, fd00::1, for one. *)
Example local_v6_routable : is_publicly_routable_ip (0xfd :: repeat 0 14 ++ [1]) = true.
Proof. vm_compute. reflexivity. Qed.
