(* ===== verification/ProbeHarness.v ===== *)
(** * ProbeHarness: the scheduler of the diagnostic programs

    What [main] of [examples/discovery/test_discovery.cpp] and of
    [examples/discovery/test_discv5_connect.cpp] have in common: a pool of 50 slots with twice [max_dials]
    for the chain, a scheduler whose dials are those of [StatusProbe.v], the counters of these, and the end
    of the run: enough connections, the deadline or a signal. [DiscoveryHarness.v] has what each
    does with it. After [io.stop()] nothing happens but the report.

    Lemmas: the counters are accounts of the dials ([accounts]), which every event keeps
    ([accounts_step], [accounts_ends]) and so does an offer ([accounts_offered]). *)
From S2P Require Import Dialing Addresses.
From S2P Require Export StatusProbe.
Open Scope Z_scope.

(** ** Data *)

Record Harness := mkHarness { h_dialer : Dialer probe_place; h_stats : DialStats; h_finished : bool }.

(** [kMaxActiveDials] for all chains. *)
Definition new_harness (filter : option (DiscoveredPeer -> bool)) (max_dials : Z) : Harness :=
  mkHarness (mkDialer (mkLocal (new_scheduler filter kDefaultDialHistoryExpiry) (mkPool 50 (max_dials * 2) 0) 0) [])
    no_stats false.

Definition with_stats (s : DialStats) (h : Harness) : Harness := mkHarness (h_dialer h) s (h_finished h).

(** The coroutine of a dial begins; its attempt to connect ends; an event of its probe. *)
Inductive dial_event :=
| DialBegins (k : nat) (draw : nat)
| DialConnects (k : nat) (connected : SessionResult SocketTransport) (draw : nat)
| DialEvent (k : nat) (e : run_event).

Definition dial_of (e : dial_event) : nat := match e with DialBegins k _ | DialConnects k _ _ | DialEvent k _ => k end.

(** The counters after an output. *)
Definition count_output (s : DialStats) (o : probe_output) : DialStats := match o with Counted k => bump k s | _ => s end.

(** [scheduler->stop()] disconnects the sessions of the dials [ids]. *)
Definition disconnect_dial (close_failed : bool) (a : Dialed probe_place) : Dialed probe_place :=
  match progress a with
  | Probing r => set_progress (Probing (with_probe_session (disconnect close_failed (probe_session r)) r)) a
  | _ => a
  end.
Definition disconnect_dials (close_failed : bool) (ids : list Z) (d : Dialer probe_place) : Dialer probe_place :=
  with_dials (fold_left (fun ds k => alter (disconnect_dial close_failed) (Z.to_nat k) ds) ids (dials d)) d.

(** The handlers of the deadline and of a signal, less [stop] of the client. *)
Definition run_ends (alive : Z -> bool) (close_failed : bool) (h : Harness) : Harness :=
  let ids := fst (stop alive (sched (scheduling (h_dialer h)))) in
  mkHarness (disconnect_dials close_failed ids (halt alive (h_dialer h))) (h_stats h) true.

Section harness.
Context (keccak256 : bytes -> bytes) (aes_ecb_encrypt_block : bytes -> bytes -> bytes)
  (aes_ctr : bytes -> nat -> bytes -> bytes)
  (snappy_compress : bytes -> bytes) (snappy_length : bytes -> option Z) (snappy_uncompress : bytes -> option bytes).
Context `{Secp256k1} `{OpenSsl} (fuel : nat) (unset : AuthKeyMaterial) (unset_secrets : bytes * bytes).
Context (clock : nat -> Z).

Definition candidate_offered (vp : ValidatedPeer) (h : Harness) : Harness :=
  mkHarness (offer clock vp (h_dialer h)) (h_stats h) (h_finished h).

Section options.
Context (client : bytes) (fork : ForkId) (min_connections : Z).

(** The function given to [dial_connect_only] as [on_connected]: the scheduler's, and the end of the run when there
    are enough. Only it changes [total_validated], so that one look at the end of a step is enough. *)
Definition enough (out : list probe_output) (d : Dialer probe_place) : bool :=
  existsb (is_call ConnectedCall) out && (min_connections <=? total_validated (sched (scheduling d))).

(** Dial [k] is now at [x] and has shown [out]. *)
Definition probe_advances (k : nat) (x : probe_place) (out : list probe_output) (h : Harness) : Trace probe_output * Harness :=
  let '(tr, d) := advance clock k x out (h_dialer h) in
  (tr, mkHarness d (fold_left count_output out (h_stats h)) (h_finished h || enough out d)).

(** What an event of a dial does, if it can happen: where the dial is then, and what it shows. *)
Definition dial_outcome (e : dial_event) (a : Dialed probe_place) : option (list probe_output * probe_place) :=
  match e, progress a with
  | DialBegins _ draw, ProbeSpawned => Some (probe_begins fuel draw)
  | DialConnects _ connected draw, ProbeConnecting keypair =>
      Some (probe_connects keccak256 aes_ecb_encrypt_block aes_ctr snappy_compress snappy_length snappy_uncompress fuel unset unset_secrets
              client fork (dialed a) keypair connected draw)
  | DialEvent _ e, Probing r =>
      let '(out, r) := probe_step keccak256 aes_ecb_encrypt_block aes_ctr snappy_compress snappy_length snappy_uncompress e r in
      Some (out, Probing r)
  | _, _ => None
  end.

Definition harness_step (e : dial_event) (h : Harness) : Trace probe_output * Harness :=
  if h_finished h then ([], h) else
  match dials (h_dialer h) !! dial_of e with
  | Some a =>
      match dial_outcome e a with
      | Some (out, x) => probe_advances (dial_of e) x out h
      | None => ([], h)
      end
  | None => ([], h)
  end.
End options.

(** ** The outcome of a step *)

(** The chain of a dial was confirmed; it has begun; it has begun and has not ended. *)
Definition confirmed_at (x : probe_place) : bool := match x with Probing r => confirmed r | _ => false end.
Definition begun_at (x : probe_place) : bool := match x with ProbeSpawned => false | _ => true end.
Definition dialing_at (x : probe_place) : bool := begun_at x && (0 <? flight x)%nat.
Definition place_ok (x : probe_place) : Prop := match x with Probing r => probe_ok r | _ => True end.

(** Either the dial goes on, or it ends, and it has failed unless its chain was confirmed. *)
Inductive probe_outcome (x0 : probe_place) (out : list probe_output) (x : probe_place) : Prop :=
| outcome_quiet : dones out = 0%nat -> flight x = flight x0 -> failures out = 0 ->
    confirmed_at x = confirmed_at x0 || existsb (is_call ConnectedCall) out ->
    tally connected_count out = count (is_call ConnectedCall) out ->
    tally dialed_count out = Z.b2z (begun_at x) - Z.b2z (begun_at x0) -> (begun_at x0 = true -> begun_at x = true) ->
    place_ok x -> probe_outcome x0 out x
| outcome_ends pre : out = pre ++ [ProbeDone] -> dones pre = 0%nat -> count (is_call ConnectedCall) pre = 0 -> flight x0 = 1%nat -> flight x = 0%nat ->
    failures pre = Z.b2z (negb (confirmed_at x0)) -> confirmed_at x = confirmed_at x0 ->
    tally connected_count out = 0 -> tally dialed_count out = Z.b2z (begun_at x) - Z.b2z (begun_at x0) -> begun_at x = true ->
    place_ok x -> probe_outcome x0 out x.

Lemma dial_outcome_cases client fork e a out x : place_ok (progress a) ->
  dial_outcome client fork e a = Some (out, x) -> probe_outcome (progress a) out x.
Proof.
  intros Hok He. unfold dial_outcome in He. destruct e as [k draw|k connected draw|k e], (progress a) as [|kp|r|] eqn:Hp; try done.
  - injection He as He. unfold probe_begins in He. destruct (Ecdh.generate_ephemeral_keypair fuel draw) as [[kp|e|] i]; injection He as <- <-;
      [by apply outcome_quiet | by apply (outcome_ends _ _ _ [Counted dialed_count; Counted connect_failed]) ..].
  - injection He as He. unfold probe_connects in He. destruct (fst (connect _ _ _ _ _ _ _ _ _ _ _ _)) as [s|e|];
      [| injection He as <- <-; by apply (outcome_ends _ _ _ [ConnectFails; Counted connect_failed]) ..].
    unfold begin_probe in He. destruct (encode_status _) as [b|e|]; [destruct (post_message _ _) as [res s']|..]; injection He as <- <-; by apply outcome_quiet.
  - pose proof (probe_step_cases keccak256 aes_ecb_encrypt_block aes_ctr snappy_compress snappy_length snappy_uncompress e r Hok) as Hs.
    destruct (probe_step _ _ _ _ _ _ e r) as [out' r']. injection He as <- <-. destruct Hs as [[C O K D F N X]|O1 O2 C L Hout].
    + apply Forall_cons_iff in X as [X _]. apply outcome_quiet; try done; [| exact (K Hok)]. cbn. by rewrite O.
    + assert (place_ok (Probing r')) as Hok' by (intros Hl; unfold probe_ok in *; congruence).
      destruct Hout as [[Hc ->]|(j & Hc & Hj & ->)].
      * apply (outcome_ends _ _ _ []); try done; cbn; by rewrite ?O1, ?O2, ?Hc.
      * apply (outcome_ends _ _ _ [Counted j]); try done; cbn; rewrite ?O1, ?O2, ?Hc; try done; by destruct Hj as [->|[->| ->]].
Qed.

(** ** Accounts *)

Lemma count_outputs k out : forall s, fold_left count_output out s k = s k + tally k out.
Proof.
  induction out as [|o out IH]; intros s; [by rewrite Z.add_0_r |]. cbn [fold_left]. rewrite IH. unfold tally. rewrite count_cons.
  destruct o; cbn [count_output is_counted Z.b2z]; try lia. unfold bump. destruct (decide (k = k0)) as [<-|Hne];
    [rewrite bool_decide_true by done; cbn; lia | rewrite bool_decide_false by congruence; cbn; lia].
Qed.

Definition in_place (f : probe_place -> bool) (a : Dialed probe_place) : bool := f (progress a).
(** The dials that wait for something. *)
Definition dialing (h : Harness) : Z := count (in_place dialing_at) (dials (h_dialer h)).
Abbreviation total_of h := (total_validated (sched (scheduling (h_dialer h)))).
Abbreviation count_of h := (validated_count (sched (scheduling (h_dialer h)))).

(** The dials that ended without a Status. *)
Definition failed_count (s : DialStats) : Z := s connect_failed + s status_timeout + s too_many_peers.

Record accounts (max_dials : Z) (h : Harness) : Prop := {
  ac_slots : slots 50 (max_dials * 2) 0 (h_dialer h);
  ac_dials k a : dials (h_dialer h) !! k = Some a -> was_validated a = confirmed_at (progress a) /\ place_ok (progress a);
  ac_connected : h_stats h connected_count = total_of h;
  ac_dialed : h_stats h dialed_count = count (in_place begun_at) (dials (h_dialer h));
  ac_balance : h_stats h dialed_count = dialing h + failed_count (h_stats h) + (total_of h - count_of h)
}.

(** The counters that are not accounts may change. *)
Lemma accounts_stats n s h : s dialed_count = h_stats h dialed_count -> s connected_count = h_stats h connected_count ->
  failed_count s = failed_count (h_stats h) -> accounts n h -> accounts n (with_stats s h).
Proof. intros E1 E2 E3 [Hs Hd Hc Hn Hb]. split; try done; cbn [h_stats with_stats]; [by rewrite E2 | by rewrite E1 | by rewrite E1, E3]. Qed.

Lemma accounts_offered n vp h : accounts n h -> accounts n (candidate_offered vp h).
Proof.
  intros [Hs Hd Hc Hn Hb]. destruct (validated_offer clock vp (h_dialer h)) as [Et Ev].
  split; cbn [candidate_offered h_dialer h_stats]; unfold dialing, in_place in *; cbn [candidate_offered h_dialer]; rewrite ?Et, ?Ev, ?count_offer; try done.
  - by apply slots_offer.
  - intros k a Hk. unfold offer in Hk. cbn [dials spawn_dials] in Hk. apply lookup_app_Some in Hk as [Hk|[_ Hk]]; [by apply (Hd k) |].
    by apply list_lookup_fmap_Some in Hk as (v & -> & _).
Qed.

Lemma probe_outcome_proper a out x : probe_outcome (progress a) out x -> proper_step a x out.
Proof.
  unfold proper_step. intros [Hd Hf|pre -> Hd _ Hf0 Hf]; [lia |]. unfold dones in *. rewrite List.filter_app, length_app, Hd, Hf, Hf0. done.
Qed.

(** The validated connections after a step. *)
Lemma outcome_totals k a out x d : dials d !! k = Some a -> was_validated a = confirmed_at (progress a) -> probe_outcome (progress a) out x ->
  let d' := snd (advance clock k x out d) in
  total_validated (sched (scheduling d')) = total_validated (sched (scheduling d)) + tally connected_count out
  /\ total_validated (sched (scheduling d')) - validated_count (sched (scheduling d'))
     = total_validated (sched (scheduling d)) - validated_count (sched (scheduling d))
       + Z.of_nat (flight (progress a)) - Z.of_nat (flight x) - failures out.
Proof.
  intros Hk Hv Ho. cbn zeta. cbn [snd advance]. set (d1 := with_dials (alter (set_progress x) k (dials d)) d).
  assert (dials d1 !! k = Some (set_progress x a)) as Hk1 by (unfold d1; cbn [dials with_dials]; by rewrite list_lookup_alter_eq, Hk).
  change (scheduling d) with (scheduling d1). destruct Ho as [Hd Hfl Hf Hc Hn|pre -> Hd Hcp Hf0 Hf Hfail Hc Hn].
  - destruct (validated_quiet clock k out d1 Hd) as [Et Ev]. rewrite Et, Ev, Hn, Hfl, Hf. lia.
  - destruct (validated_quiet clock k pre d1 Hd) as [Et Ev]. rewrite Hcp, Z.add_0_r in Et, Ev.
    unfold call_backs. rewrite fold_left_app. cbn [fold_left]. fold (call_backs clock k pre d1).
    assert (exists a', dials (call_backs clock k pre d1) !! k = Some a' /\ was_validated a' = was_validated a) as (a' & Hk' & Ha').
    { destruct (call_backs_lookup clock k pre d1 k _ Hk1) as (a' & Ha' & _). exists a'. split; [exact Ha' |].
      destruct (call_backs_flags clock k pre d1 k a' Ha') as [(b & Hb & ->)|(Hle & _)]; [| by apply lookup_lt_Some in Hk1; lia].
      rewrite Hk1 in Hb. injection Hb as <-. cbn. assert (existsb (is_call ConnectedCall) pre = false) as ->; [| by rewrite andb_false_r, orb_false_r].
      apply not_true_is_false. intros (o & Hin & Hx)%existsb_exists. unfold count, len in Hcp.
      assert (In o (List.filter (is_call ConnectedCall) pre)) as Hin' by (by apply filter_In). destruct (List.filter _ pre); [done | cbn in Hcp; lia]. }
    assert (calls ProbeDone = Some DoneCall) as Hcall by done. destruct (validated_done clock k ProbeDone a' _ Hcall Hk') as [Et' Ev']. rewrite Et', Ev', Et, Ev, Ha', Hv, Hn, Hf0, Hf.
    unfold failures in *. rewrite !tally_app, (eq_refl : tally connect_failed [ProbeDone] = 0), (eq_refl : tally status_timeout [ProbeDone] = 0),
      (eq_refl : tally too_many_peers [ProbeDone] = 0). destruct (confirmed_at (progress a)); cbn in *; lia.
Qed.

Lemma accounts_advances n min k a out x h : dials (h_dialer h) !! k = Some a -> probe_outcome (progress a) out x ->
  accounts n h -> accounts n (snd (probe_advances min k x out h)).
Proof.
  intros Hk Ho [Hs Hd Hc Hn Hb]. destruct (Hd k a Hk) as [Hv Hok].
  destruct (outcome_totals k a out x (h_dialer h) Hk Hv Ho) as [Et Ev].
  pose proof (slots_advance clock k a x out (h_dialer h) Hk (probe_outcome_proper a out x Ho) Hs) as Hs'.
  pose proof (count_advance clock begun_at k a x out (h_dialer h) eq_refl Hk) as Hbegun.
  pose proof (count_advance clock dialing_at k a x out (h_dialer h) eq_refl Hk) as Hdialing.
  pose proof (fun j b => advance_flags clock k a x out (h_dialer h) j b Hk) as Hflags.
  assert (tally dialed_count out = Z.b2z (begun_at x) - Z.b2z (begun_at (progress a)) /\ (begun_at (progress a) = true -> begun_at x = true)
    /\ place_ok x /\ confirmed_at x = confirmed_at (progress a) || existsb (is_call ConnectedCall) out
    /\ Z.of_nat (flight (progress a)) - Z.of_nat (flight x) = Z.b2z (dialing_at (progress a)) - Z.b2z (dialing_at x) + Z.b2z (begun_at x) - Z.b2z (begun_at (progress a)))
    as (Hdc & Hbg & Hokx & Hcx & Hfl).
  { assert (forall y, Z.b2z (dialing_at y) = if begun_at y then Z.of_nat (flight y) else 0) as Hdy.
    { intros y. unfold dialing_at. destruct (begun_at y); [| done]. cbn [andb]. pose proof (flight_bound y). destruct (flight y) as [|[|m]]; [done | done | lia]. }
    rewrite !Hdy. assert (forall y, begun_at y = false -> flight y = 1%nat) as Hsp by (by intros []).
    destruct Ho as [Hdn Hfl Hfa Hcx Hcn Hdc Hbg Hokx|pre -> Hdn Hcp Hf0 Hf Hfa Hcx Hcn Hdc Hbg Hokx]; split_and!; try done.
    - rewrite Hfl. destruct (begun_at (progress a)) eqn:Ea; [rewrite (Hbg eq_refl); lia |]. rewrite (Hsp _ Ea). destruct (begun_at x); cbn; lia.
    - rewrite Hcx. rewrite existsb_app. assert (existsb (is_call ConnectedCall) pre = false) as ->; [| by rewrite orb_false_r].
      apply not_true_is_false. intros (o & Hin & Hx)%existsb_exists. unfold count, len in Hcp.
      assert (In o (List.filter (is_call ConnectedCall) pre)) as Hin' by (by apply filter_In). destruct (List.filter _ pre); [done | cbn in Hcp; lia].
    - rewrite Hf0, Hf, Hbg. destruct (begun_at (progress a)); cbn; lia. }
  unfold probe_advances. destruct (advance clock k x out (h_dialer h)) as [tr d] eqn:Ea. cbn [snd] in *.
  split; cbn [h_dialer h_stats]; unfold dialing, in_place, failed_count in *; cbn [h_dialer]; rewrite ?count_outputs.
  - exact Hs'.
  - intros j b Hj. destruct (Hflags j b Hj) as [[-> ->]|[[_ Hj']|(_ & -> & ->)]]; [| by apply (Hd j) | done]. cbn. by rewrite Hv.
  - by rewrite Hc, Et.
  - rewrite Hbegun. lia.
  - rewrite Hdialing. unfold failures in Ev. lia.
Qed.

(** A step is nothing, or what an event does with its dial. *)
Inductive harness_case (client : bytes) (fork : ForkId) (min : Z) (e : dial_event) (h : Harness) : Trace probe_output -> Harness -> Prop :=
| harness_nothing : harness_case client fork min e h [] h
| harness_dials a out x : dials (h_dialer h) !! dial_of e = Some a -> dial_outcome client fork e a = Some (out, x) ->
    harness_case client fork min e h (fst (probe_advances min (dial_of e) x out h)) (snd (probe_advances min (dial_of e) x out h)).

Lemma harness_cases client fork min e h :
  harness_case client fork min e h (fst (harness_step client fork min e h)) (snd (harness_step client fork min e h)).
Proof.
  unfold harness_step. destruct (h_finished h); [apply harness_nothing |]. destruct (dials (h_dialer h) !! dial_of e) as [a|] eqn:Hk; [| apply harness_nothing].
  destruct (dial_outcome client fork e a) as [[out x]|] eqn:Ho; [| apply harness_nothing]. by apply harness_dials with a.
Qed.

Lemma accounts_step n client fork min e h : accounts n h -> accounts n (snd (harness_step client fork min e h)).
Proof.
  intros Ha. destruct (harness_cases client fork min e h) as [|a out x Hk Ho]; [done |]. apply accounts_advances with a; try done.
  eapply dial_outcome_cases; [| exact Ho]. by destruct (ac_dials _ _ Ha _ _ Hk).
Qed.

(** The sessions that are disconnected leave the dials where they are. *)
Definition same_place (x y : probe_place) : Prop :=
  flight x = flight y /\ confirmed_at x = confirmed_at y /\ begun_at x = begun_at y /\ (place_ok y -> place_ok x).
Definition same_but_session (a b : Dialed probe_place) : Prop :=
  dialed a = dialed b /\ was_validated a = was_validated b /\ same_place (progress a) (progress b).

#[export] Instance same_but_session_preorder : PreOrder same_but_session.
Proof.
  split; [by intros a; split_and! |]. intros a b c (E1 & E2 & E3 & E4 & E5 & E6) (F1 & F2 & F3 & F4 & F5 & F6).
  split_and!; try congruence. split_and!; try congruence. auto.
Qed.

Lemma disconnect_dial_same cf a : same_but_session (disconnect_dial cf a) a.
Proof. unfold disconnect_dial. destruct (progress a) as [| |r|] eqn:E; [done.. | | done]. split_and!; try done; rewrite E; by split_and!. Qed.

Lemma disconnect_dials_same cf ids : forall d, Forall2 same_but_session (dials (disconnect_dials cf ids d)) (dials d).
Proof.
  intros d. cbn [disconnect_dials dials with_dials]. generalize (dials d). clear d. induction ids as [|k ids IH]; intros ds; [reflexivity |].
  cbn [fold_left]. etransitivity; [apply IH |]. apply Forall2_alter_l; [reflexivity |]. intros a b _ _ Hab.
  transitivity a; [apply disconnect_dial_same | exact Hab].
Qed.

Lemma same_count (f : probe_place -> bool) ds ds' : (forall x y, same_place x y -> f x = f y) -> Forall2 same_but_session ds ds' ->
  count (in_place f) ds = count (in_place f) ds'.
Proof.
  intros Hf. induction 1 as [|a b ds ds' (_ & _ & Hp) _ IH]; [done |]. rewrite !count_cons, IH. unfold in_place at 1 3. by rewrite (Hf _ _ Hp).
Qed.

Lemma accounts_ends n alive cf h : accounts n h -> accounts n (run_ends alive cf h).
Proof.
  intros [Hs Hd Hc Hn Hb]. unfold run_ends. set (ids := fst (stop _ _)).
  pose proof (disconnect_dials_same cf ids (halt alive (h_dialer h))) as Hsame.
  change (dials (halt alive (h_dialer h))) with (dials (h_dialer h)) in Hsame.
  assert (forall f, (forall x y, same_place x y -> f x = f y) ->
    count (in_place f) (dials (disconnect_dials cf ids (halt alive (h_dialer h)))) = count (in_place f) (dials (h_dialer h))) as Hcount
    by (intros f Hf; by apply same_count).
  assert (forall x y, same_place x y -> dialing_at x = dialing_at y) as Hx by (intros x y (E1 & _ & E3 & _); unfold dialing_at; by rewrite E1, E3).
  assert (forall x y, same_place x y -> begun_at x = begun_at y) as Hy by (by intros x y (_ & _ & E3 & _)).
  split; cbn [h_dialer h_stats]; unfold dialing; cbn [h_dialer]; rewrite ?Hcount by done; try done.
  - assert (live (disconnect_dials cf ids (halt alive (h_dialer h))) = live (h_dialer h)) as Hl.
    { apply (same_count (fun x => (0 <? flight x)%nat)); [| done]. by intros x y (-> & _). }
    destruct Hs as [S1 S2 S3 S4]. split; rewrite ?Hl; done.
  - intros k a Hk. destruct (Forall2_lookup_l _ _ _ _ _ Hsame Hk) as (b & Hb' & (_ & E2 & _ & E4 & _ & E6)).
    destruct (Hd k b Hb') as [Hv Hp]. rewrite E2, E4. split; [done | by apply E6].
Qed.

Lemma same_dialed ds ds' : Forall2 same_but_session ds ds' -> map dialed ds = map dialed ds'.
Proof. induction 1 as [|x y l l' (E & _) _ IH]; [done |]. cbn [map]. by rewrite E, IH. Qed.

Lemma offered_ends alive cf vps h : offered vps (h_dialer h) -> offered vps (h_dialer (run_ends alive cf h)).
Proof.
  intros Ho%(offered_halt alive). unfold run_ends. cbn [h_dialer]. unfold offered in *.
  by rewrite (same_dialed _ _ (disconnect_dials_same cf (fst (stop alive (sched (scheduling (h_dialer h))))) (halt alive (h_dialer h)))).
Qed.

Lemma offered_step client fork min e vps h : offered vps (h_dialer h) -> offered vps (h_dialer (snd (harness_step client fork min e h))).
Proof.
  intros Ho. destruct (harness_cases client fork min e h) as [|a out x Hk Hout]; [done |].
  pose proof (offered_advance clock (dial_of e) x out vps _ Ho) as Ha. unfold probe_advances. by destruct (advance _ _ _ _ _).
Qed.

Lemma accounts_new filter n : 0 <= n -> accounts n (new_harness filter n).
Proof.
  intros Hn. split; try done. split; try done; cbn; lia.
Qed.
End harness.
