(* ===== verification/DiscoveryHarness.v ===== *)
(** * DiscoveryHarness: the diagnostic programs

    The rest of [examples/discovery]: [test_discv5_connect.cpp], which dials the candidates that the discv5
    client reports, after the checks of [QualityFilter.v]; [test_discovery.cpp], which dials what the discv4 client of
    [Discv4Client.v] finds, after the fork filter of the scheduler; and [test_enr_survey.cpp], which only
    counts these. Dials and counters are those of [ProbeHarness.v]. For the first, what the client
    reports is an event ([CandidateFound]), with any peer. The programs read [chains.json] by
    [load_fork_hash] of [Discv5Crawl.v].

    Theorems: the counters that [test_discv5_connect] prints are accounts of its dials, in every state ([connect_accounts]); what
    it dials was reported as a candidate, is dialed at the address, port and key that were reported, and has
    passed every check, and at most two are of a subnet ([connect_dials_screened]), though with
    [--enqueue-bootstrap-candidates] nothing is added ([bootstrap_candidates_unused]); [test_discovery] dials only
    what was found with the expected fork hash ([discovery_dials_filtered]); the survey's counts are
    those of what was found ([survey_counts]). One peer is enough to pass ([one_peer_passes]), and none
    when the argument is no number ([no_number_passes]). Not modelled: what is printed. *)
From S2P Require Discv5Types Discv5Enr Discv4Client Discv4Bonding.
From S2P Require Import Discv5Bootnodes Discv5Crawl EthCli EthWatchMain QualityFilter Dialing Addresses.
From S2P Require Export ProbeHarness.
Open Scope Z_scope.

(** ** Numbers and enode texts *)

(** The number that [strtol] reads: blanks, a sign, digits; no number without a digit. *)
Definition signed_number (s : bytes) : option Z :=
  let s := skip_blanks s in
  let negative := match s with 45 :: _ => true | _ => false end in
  let s := match s with c :: s' => if (c =? 45) || (c =? 43) then s' else s | [] => s end in
  match s with
  | c :: _ => if is_decimal c then Some (if negative then - leading_number 0 s else leading_number 0 s) else None
  | [] => None
  end.
Definition is_int (n : Z) : bool := (- 2 ^ 31 <=? n) && (n <? 2 ^ 31).

(** [std::atoi]; [None] where its behaviour is undefined. [std::stoi]; [None] when it throws. *)
Definition atoi (s : bytes) : option Z :=
  match signed_number s with None => Some 0 | Some n => if is_int n then Some n else None end.
Definition stoi (s : bytes) : option Z :=
  n ← signed_number s; if is_int n then Some n else None.

(** The lambda [parse_enode]; ['@'] and [':'] are 64 and 58. *)
Inductive enode_parsed := NoEnode | StoiThrows | Enode (host : bytes) (port : Z) (pubkey_hex : bytes).
Definition parse_harness_enode (enode : bytes) : enode_parsed :=
  if negb (bool_decide (take 8 enode = kWatchEnodePrefix)) then NoEnode else
  match Discv5Crawler.find 64 (drop 8 enode), rfind 58 enode with
  | Some at_pos, Some colon =>
      let at_ := at_pos + 8 in
      if colon <? at_ then NoEnode
      else match stoi (drop (Z.to_nat (colon + 1)) enode) with
           | None => StoiThrows
           | Some n => Enode (take (Z.to_nat (colon - at_ - 1)) (drop (Z.to_nat (at_ + 1)) enode)) (u16 n)
                         (take (Z.to_nat (at_ - 8)) (drop 8 enode))
           end
  | _, _ => NoEnode
  end.

(** The loop over the digits of a key. *)
Definition harness_key (hex : bytes) : option bytes := fork_hash_octets 64 hex.

(** ** test_discv5_connect: arguments *)

Record ConnectArgs := mkConnectArgs {
  timeout_secs : Z;
  min_connections : Z;
  max_dials : Z;
  enable_seeded : bool;
  require_fork : bool;
  enqueue_bootstrap_candidates : bool
}.
Definition default_connect_args : ConnectArgs := mkConnectArgs 180 3 16 false true false.

(** A value that is refused, and one that [atoi] has no result for. *)
Inductive harness_error := InvalidValue | UndefinedNumber.

Definition number_arg (value : bytes) : outcome harness_error Z :=
  match atoi value with Some n => Ok n | None => Err UndefinedNumber end.
Definition switch_arg (value : bytes) : outcome harness_error bool :=
  if bool_decide (value = text "on") then Ok true
  else if bool_decide (value = text "off") then Ok false else Err InvalidValue.

(** The loop over the arguments after the program's name. *)
Fixpoint connect_args (argv : list bytes) (a : ConnectArgs) : outcome harness_error ConnectArgs :=
  match argv with
  | arg :: (value :: rest) as tail =>
      let named name := bool_decide (arg = text name) in
      if named "--log-level"%string then connect_args rest a
      else if named "--timeout"%string then
        obind (number_arg value) (fun n => connect_args rest
          (mkConnectArgs n (min_connections a) (max_dials a) (enable_seeded a) (require_fork a) (enqueue_bootstrap_candidates a)))
      else if named "--connections"%string then
        obind (number_arg value) (fun n => connect_args rest
          (mkConnectArgs (timeout_secs a) n (max_dials a) (enable_seeded a) (require_fork a) (enqueue_bootstrap_candidates a)))
      else if named "--dials"%string then
        obind (number_arg value) (fun n => connect_args rest
          (mkConnectArgs (timeout_secs a) (min_connections a) n (enable_seeded a) (require_fork a) (enqueue_bootstrap_candidates a)))
      else if named "--seeded"%string then
        obind (switch_arg value) (fun b => connect_args rest
          (mkConnectArgs (timeout_secs a) (min_connections a) (max_dials a) b (require_fork a) (enqueue_bootstrap_candidates a)))
      else if named "--require-fork"%string then
        obind (switch_arg value) (fun b => connect_args rest
          (mkConnectArgs (timeout_secs a) (min_connections a) (max_dials a) (enable_seeded a) b (enqueue_bootstrap_candidates a)))
      else if named "--enqueue-bootstrap-candidates"%string then
        obind (switch_arg value) (fun b => connect_args rest
          (mkConnectArgs (timeout_secs a) (min_connections a) (max_dials a) (enable_seeded a) (require_fork a) b))
      else connect_args tail a
  | _ => Ok a
  end.

(** The fork hash of [chains.json], or the one compiled in. *)
Definition sepolia_hash (candidates : list (option bytes)) : bytes := default kSepoliaForkHashFallback (load_fork_hash candidates).

(** ** test_discv5_connect: the state *)

Record Connect := mkConnect {
  c_harness : Harness;
  c_quality : QualityFilterState;
  seeded_pubkeys : gset (list Z);
  discovered_candidates : Z;
  discovered_peers : Z
}.

Definition with_harness (h : Harness) (s : Connect) : Connect :=
  mkConnect h (c_quality s) (seeded_pubkeys s) (discovered_candidates s) (discovered_peers s).
Definition with_quality (q : QualityFilterState) (s : Connect) : Connect :=
  mkConnect (c_harness s) q (seeded_pubkeys s) (discovered_candidates s) (discovered_peers s).
Definition with_seeded (x : gset (list Z)) (s : Connect) : Connect :=
  mkConnect (c_harness s) (c_quality s) x (discovered_candidates s) (discovered_peers s).
Definition with_counts (candidates peers : Z) (s : Connect) : Connect :=
  mkConnect (c_harness s) (c_quality s) (seeded_pubkeys s) candidates peers.
Definition bump_stat (k : dial_stat) (s : Connect) : Connect :=
  with_harness (with_stats (bump k (h_stats (c_harness s))) (c_harness s)) s.

Inductive connect_event :=
| CandidateFound (p : Discv5Types.ValidatedPeer)
| ConnectDial (e : dial_event)
| ConnectEnds (alive : Z -> bool) (close_failed : bool).

(** The peer as the scheduler has it. *)
Definition dial_candidate (p : Discv5Types.ValidatedPeer) : ValidatedPeer :=
  mkValidatedPeer
    (mkPeer (Discv5Types.peer_node_id p) (Discv5Types.peer_ip p) (Discv5Types.peer_udp_port p) (Discv5Types.peer_tcp_port p)
       (Discv5Types.peer_last_seen p)
       ((fun f => Discv4Types.mkForkId (Discv5Types.hash f) (Discv5Types.next f)) <$> Discv5Types.peer_eth_fork_id p))
    (Discv5Types.peer_node_id p).

(** ** test_discovery and test_enr_survey: arguments and state *)

Record DiscoveryArgs := mkDiscoveryArgs { d_timeout_secs : Z; d_min_connections : Z; d_min_peers : Z; d_max_dials : Z }.
Definition default_discovery_args : DiscoveryArgs := mkDiscoveryArgs 180 3 3 16.

Fixpoint discovery_args (argv : list bytes) (a : DiscoveryArgs) : outcome harness_error DiscoveryArgs :=
  match argv with
  | arg :: (value :: rest) as tail =>
      let named name := bool_decide (arg = text name) in
      if named "--log-level"%string then discovery_args rest a
      else if named "--timeout"%string then
        obind (number_arg value) (fun n => discovery_args rest (mkDiscoveryArgs n (d_min_connections a) (d_min_peers a) (d_max_dials a)))
      else if named "--connections"%string then
        obind (number_arg value) (fun n => discovery_args rest (mkDiscoveryArgs (d_timeout_secs a) n (d_min_peers a) (d_max_dials a)))
      else if named "--peers"%string then
        obind (number_arg value) (fun n => discovery_args rest (mkDiscoveryArgs (d_timeout_secs a) (d_min_connections a) n (d_max_dials a)))
      else if named "--dials"%string then
        obind (number_arg value) (fun n => discovery_args rest (mkDiscoveryArgs (d_timeout_secs a) (d_min_connections a) (d_min_peers a) n))
      else discovery_args tail a
  | _ => Ok a
  end.

(** The arguments of the survey: its time. *)
Fixpoint survey_args (argv : list bytes) (timeout_secs : Z) : outcome harness_error Z :=
  match argv with
  | arg :: (value :: rest) as tail =>
      if bool_decide (arg = text "--log-level") then survey_args rest timeout_secs
      else if bool_decide (arg = text "--timeout") then obind (number_arg value) (fun n => survey_args rest n)
      else survey_args tail timeout_secs
  | _ => Ok timeout_secs
  end.

Record DiscoveryTest := mkDiscoveryTest { t_discovery : Discv4Client.world; t_harness : Harness; peers_count : Z }.
Inductive discovery_event :=
| Searched (e : Discv4Client.Event)
| DiscoveryDial (e : dial_event)
| DiscoveryEnds (alive : Z -> bool) (close_failed : bool).

Record Survey := mkSurvey {
  s_discovery : Discv4Client.world;
  peers_total : Z;
  peers_with_fork_id : Z;
  peers_without_fork_id : Z;
  fork_hash_counts : gmap (list Z) Z;
  s_finished : bool
}.
Definition with_world (w : Discv4Client.world) (s : Survey) : Survey :=
  mkSurvey w (peers_total s) (peers_with_fork_id s) (peers_without_fork_id s) (fork_hash_counts s) (s_finished s).
Inductive survey_event := SurveySearched (e : Discv4Client.Event) | SurveyEnds.

(** The hash as the report shows it, and what the report concludes: that no peer had a fork id, or whether the expected hash was among them. *)
Definition format_hash4 (h : bytes) : bytes :=
  concat (imap (fun i b => (if (i =? 0)%nat then [] else [32]) ++ [digit_char (b / 16); digit_char (b mod 16)]) h).
Inductive survey_verdict := NoForkIds | HashFound | HashNotFound.
Definition conclusion (hash : bytes) (s : Survey) : survey_verdict :=
  if peers_with_fork_id s =? 0 then NoForkIds
  else match fork_hash_counts s !! hash with Some _ => HashFound | None => HashNotFound end.

Section programs.
Context (keccak256 : bytes -> bytes) (aes_ecb_encrypt_block : bytes -> bytes -> bytes)
  (aes_ctr : bytes -> nat -> bytes -> bytes)
  (snappy_compress : bytes -> bytes) (snappy_length : bytes -> option Z) (snappy_uncompress : bytes -> option bytes).
Context `{Secp256k1} `{OpenSsl} `{AddressText} (fuel : nat) (unset : AuthKeyMaterial) (unset_secrets : bytes * bytes).
Context (clock : nat -> Z).

Section connect.
Context (a : ConnectArgs) (hash : bytes).

(** The last checks, and the scheduler; [found] is 1 when the peer is counted as discovered. *)
Definition screened (vp : ValidatedPeer) (found : Z) (s : Connect) : Connect :=
  let '(taken, q) := screen vp (c_quality s) in
  let s := with_quality q s in
  if taken then
    with_harness (candidate_offered clock vp (c_harness s))
      (with_counts (discovered_candidates s) (discovered_peers s + found) s)
  else bump_stat filtered_bad_peers s.

Definition wrong_fork (p : Discv5Types.ValidatedPeer) : bool :=
  match Discv5Types.peer_eth_fork_id p with Some f => negb (bool_decide (Discv5Types.hash f = hash)) | None => true end.

(** The peer callback. *)
Definition candidate_found (p : Discv5Types.ValidatedPeer) (s : Connect) : Connect :=
  let s := with_counts (discovered_candidates s + 1) (discovered_peers s) s in
  if Discv5Types.peer_tcp_port p =? 0 then s
  else if require_fork a && wrong_fork p then s
  else if negb (Ecdh.verify_public_key (pubkey (dial_candidate p))) then s
  else screened (dial_candidate p) 1 s.

(** The loop over the bootstrap records. *)
Definition bootstrap_candidate (now : Z) (uri : bytes) (s : Connect) : Connect :=
  match Discv5Enr.parse keccak256 uri with
  | Ok record =>
      match Discv5Enr.to_validated_peer now record with
      | Ok p =>
          if Discv5Types.peer_tcp_port p =? 0 then s
          else if negb (Ecdh.verify_public_key (pubkey (dial_candidate p))) then s
          else screened (dial_candidate p) 0 s
      | _ => s
      end
  | _ => s
  end.

(** A seed: [None] when [stoi] throws, no peer for an enode that is not used. *)
Definition seed_candidate (now : Z) (enode : bytes) : option (option ValidatedPeer) :=
  match parse_harness_enode enode with
  | StoiThrows => None
  | NoEnode => Some None
  | Enode host port hex =>
      if negb (port =? 30303) || negb (len hex =? 128) then Some None
      else match harness_key hex with
           | None => Some None
           | Some key => if Ecdh.verify_public_key key then Some (Some (mkValidatedPeer (mkPeer key host port port now None) key)) else Some None
           end
  end.
Definition seed_offered (vp : ValidatedPeer) (s : Connect) : Connect :=
  if is_candidate_blocked vp (c_quality s) then bump_stat filtered_bad_peers s
  else with_harness (candidate_offered clock vp (c_harness s)) (with_seeded ({[pubkey_to_hex (pubkey vp)]} ∪ seeded_pubkeys s) s).
Fixpoint seeds_offered (now : Z) (enodes : list bytes) (s : Connect) : option Connect :=
  match enodes with
  | [] => Some s
  | enode :: enodes =>
      r ← seed_candidate now enode;
      seeds_offered now enodes (match r with Some vp => seed_offered vp s | None => s end)
  end.

(** [main] up to the run; [None] ends it with status 1 or by [terminate]. [starts]: the client could start. *)
Definition connect_start (now : Z) (draw : nat) (starts : bool) : option Connect :=
  match fst (Ecdh.generate_ephemeral_keypair fuel draw), for_chain kEthereumSepolia with
  | Ok _, Some source =>
      let bootstrap_enrs := fetch source in
      if empty bootstrap_enrs then None else
      let s := mkConnect (new_harness None (max_dials a)) new_quality ∅ 0 0 in
      s ← (if enable_seeded a then seeds_offered now ETHEREUM_SEPOLIA_BOOTNODES s else Some s);
      let s := if enqueue_bootstrap_candidates a then fold_left (fun s uri => bootstrap_candidate now uri s) bootstrap_enrs s else s in
      if starts then Some s else None
  | _, _ => None
  end.

(** What the dial at [x] shows is for the filter and the counters of the connections as well. *)
Definition connect_output (x : option (Dialed probe_place)) (s : Connect) (o : probe_output) : Connect :=
  match o, x with
  | ConnectFails, Some x => with_quality (record_failure (dialed x) (c_quality s)) s
  | ProbeConnected, Some (mkDialed _ _ (Probing r)) =>
      bump_stat (if bool_decide (pubkey_to_hex (info_public_key (peer_info_ (probe_session r))) ∈ seeded_pubkeys s)
                 then connected_seeded else connected_discv5) s
  | _, _ => s
  end.

Definition connect_step (e : connect_event) (s : Connect) : Trace probe_output * Connect :=
  if h_finished (c_harness s) then ([], s) else
  match e with
  | CandidateFound p => ([], candidate_found p s)
  | ConnectEnds alive close_failed => ([], with_harness (run_ends alive close_failed (c_harness s)) s)
  | ConnectDial e =>
      let '(tr, h) :=
        harness_step keccak256 aes_ecb_encrypt_block aes_ctr snappy_compress snappy_length snappy_uncompress fuel unset unset_secrets
          clock (text "rlp-test-discv5-connect") (mkForkId hash 0) (min_connections a) e (c_harness s) in
      (tr, fold_left (connect_output (dials (h_dialer h) !! dial_of e)) (map snd tr) (with_harness h s))
  end.

Fixpoint connect_runs (es : list connect_event) (s : Connect) : Trace probe_output * Connect :=
  match es with
  | [] => ([], s)
  | e :: es => let '(tr, s) := connect_step e s in let '(tr', s) := connect_runs es s in (tr ++ tr', s)
  end.

(** The exit status is 0. *)
Definition connect_passes (s : Connect) : bool :=
  min_connections a <=? total_validated (sched (scheduling (h_dialer (c_harness s)))).
End connect.

(** ** test_discovery *)

Section discovery.
Context (a : DiscoveryArgs) (hash : bytes) (keypair : Ecdh.KeyPair).

(** The peer callback. *)
Definition tested_peer (found : DiscoveredPeer) (t : DiscoveryTest) : DiscoveryTest :=
  let vp := mkValidatedPeer found (node_id found) in
  if Ecdh.verify_public_key (pubkey vp) then
    mkDiscoveryTest (t_discovery t) (candidate_offered clock vp (t_harness t)) (peers_count t + 1)
  else t.

Definition discovery_step (e : discovery_event) (t : DiscoveryTest) : Trace probe_output * DiscoveryTest :=
  if h_finished (t_harness t) || Discv4Client.crashed (t_discovery t) then ([], t) else
  match e with
  | Searched e =>
      if EthWatchMain.happens e then
        let w := Discv4Client.step keccak256 (discovery_config keypair) (t_discovery t) e in
        ([], fold_left (fun t found => tested_peer found t) (newly_found (t_discovery t) w)
               (mkDiscoveryTest w (t_harness t) (peers_count t)))
      else ([], t)
  | DiscoveryDial e =>
      let '(tr, h) :=
        harness_step keccak256 aes_ecb_encrypt_block aes_ctr snappy_compress snappy_length snappy_uncompress fuel unset unset_secrets
          clock (text "rlp-test-discovery") (mkForkId hash 0) (d_min_connections a) e (t_harness t) in
      (tr, mkDiscoveryTest (t_discovery t) h (peers_count t))
  | DiscoveryEnds alive close_failed =>
      ([], mkDiscoveryTest (Discv4Client.step keccak256 (discovery_config keypair) (t_discovery t) Discv4Client.Stop)
             (run_ends alive close_failed (t_harness t)) (peers_count t))
  end.

Fixpoint discovery_runs (es : list discovery_event) (t : DiscoveryTest) : Trace probe_output * DiscoveryTest :=
  match es with
  | [] => ([], t)
  | e :: es => let '(tr, t) := discovery_step e t in let '(tr', t) := discovery_runs es t in (tr ++ tr', t)
  end.

(** The three checks of the report; the exit status is 0 when none fails. *)
Definition discovery_checks (t : DiscoveryTest) : list bool :=
  [0 <? peers_count t; d_min_peers a <=? peers_count t;
   d_min_connections a <=? total_validated (sched (scheduling (h_dialer (t_harness t))))].
End discovery.

(** The searches that [main] spawns; [None] when [stoi] throws. *)
Fixpoint bootnode_targets (enodes : list bytes) : option (list (bytes * Z * bytes)) :=
  match enodes with
  | [] => Some []
  | enode :: enodes =>
      match parse_harness_enode enode with
      | StoiThrows => None
      | NoEnode => bootnode_targets enodes
      | Enode host port hex =>
          targets ← bootnode_targets enodes;
          Some (if negb (len hex =? 128) then targets
                else match harness_key hex with Some id => (host, port, id) :: targets | None => targets end)
      end
  end.

(** The client of [test_discovery] and of the survey: both start it and then search at each bootnode. *)
Definition search_calls (targets : list (bytes * Z * bytes)) : list Discv4Client.Event :=
  Discv4Client.SetCallbacks true true :: Discv4Client.Start
  :: map (fun '(host, port, id) => Discv4Client.Call (Discv4Client.CallFindNode host port id)) targets.

Definition search_started (opens binds : bool) (draw : nat) : option (Ecdh.KeyPair * Discv4Client.world) :=
  match fst (Ecdh.generate_ephemeral_keypair fuel draw), bootnode_targets ETHEREUM_SEPOLIA_BOOTNODES with
  | Ok keypair, Some targets =>
      let config := discovery_config keypair in
      match Discv4Client.new_client config opens binds with
      | Ok client => Some (keypair, Discv4Client.run_events keccak256 config (Discv4Client.start_world client) (search_calls targets))
      | _ => None
      end
  | _, _ => None
  end.

Definition discovery_start (a : DiscoveryArgs) (hash : bytes) (opens binds : bool) (draw : nat) : option (Ecdh.KeyPair * DiscoveryTest) :=
  '(keypair, w) ← search_started opens binds draw;
  Some (keypair, mkDiscoveryTest w (new_harness (Some (make_fork_id_filter hash)) (d_max_dials a)) 0).

(** ** test_enr_survey *)

Section survey.
Context (keypair : Ecdh.KeyPair).

(** The peer callback. *)
Definition surveyed (found : DiscoveredPeer) (s : Survey) : Survey :=
  match eth_fork_id found with
  | Some f =>
      mkSurvey (s_discovery s) (peers_total s + 1) (peers_with_fork_id s + 1) (peers_without_fork_id s)
        (<[Discv4Types.fork_hash f := default 0 (fork_hash_counts s !! Discv4Types.fork_hash f) + 1]> (fork_hash_counts s)) (s_finished s)
  | None =>
      mkSurvey (s_discovery s) (peers_total s + 1) (peers_with_fork_id s) (peers_without_fork_id s + 1) (fork_hash_counts s) (s_finished s)
  end.

Definition survey_step (e : survey_event) (s : Survey) : Survey :=
  if s_finished s || Discv4Client.crashed (s_discovery s) then s else
  match e with
  | SurveySearched e =>
      if EthWatchMain.happens e then
        let w := Discv4Client.step keccak256 (discovery_config keypair) (s_discovery s) e in
        fold_left (fun s found => surveyed found s) (newly_found (s_discovery s) w) (with_world w s)
      else s
  | SurveyEnds =>
      mkSurvey (Discv4Client.step keccak256 (discovery_config keypair) (s_discovery s) Discv4Client.Stop) (peers_total s)
        (peers_with_fork_id s) (peers_without_fork_id s) (fork_hash_counts s) true
  end.
Definition survey_runs (es : list survey_event) (s : Survey) : Survey := fold_left (fun s e => survey_step e s) es s.
End survey.

Definition survey_start (opens binds : bool) (draw : nat) : option (Ecdh.KeyPair * Survey) :=
  '(keypair, w) ← search_started opens binds draw; Some (keypair, mkSurvey w 0 0 0 ∅ false).
End programs.

(** ** Accounts *)

Section connect_proofs.
Context (keccak256 : bytes -> bytes) (aes_ecb_encrypt_block : bytes -> bytes -> bytes)
  (aes_ctr : bytes -> nat -> bytes -> bytes)
  (snappy_compress : bytes -> bytes) (snappy_length : bytes -> option Z) (snappy_uncompress : bytes -> option bytes).
Context `{Secp256k1} `{OpenSsl} `{AddressText} (fuel : nat) (unset : AuthKeyMaterial) (unset_secrets : bytes * bytes).
Context (clock : nat -> Z) (a : ConnectArgs) (hash : bytes).

Abbreviation step := (connect_step keccak256 aes_ecb_encrypt_block aes_ctr snappy_compress snappy_length snappy_uncompress
  fuel unset unset_secrets clock a hash).
Abbreviation runs := (connect_runs keccak256 aes_ecb_encrypt_block aes_ctr snappy_compress snappy_length snappy_uncompress
  fuel unset unset_secrets clock a hash).
Abbreviation starts := (connect_start keccak256 fuel clock a).

(** The counters that [dial_connect_only] does not have. *)
Definition side_stat (k : dial_stat) : bool :=
  match k with filtered_bad_peers | connected_seeded | connected_discv5 => true | _ => false end.

(** What the parts of a step keep, the steps keep. *)
Record connect_keeps (I : Connect -> Prop) : Prop := {
  keeps_counts m n s : I s -> I (with_counts m n s);
  keeps_bump k s : side_stat k = true -> I s -> I (bump_stat k s);
  keeps_failure vp s : I s -> I (with_quality (record_failure vp (c_quality s)) s);
  keeps_harness client e s : I s ->
    I (with_harness (snd (harness_step keccak256 aes_ecb_encrypt_block aes_ctr snappy_compress snappy_length snappy_uncompress fuel unset unset_secrets
         clock client (mkForkId hash 0) (min_connections a) e (c_harness s))) s);
  keeps_ends alive cf s : I s -> I (with_harness (run_ends alive cf (c_harness s)) s)
}.

Lemma connect_keeps_step I e s : connect_keeps I -> (forall p s, e = CandidateFound p -> I s -> I (candidate_found clock a hash p s)) ->
  I s -> I (snd (step e s)).
Proof.
  intros [Kc Kb Kf Kh Ke] Kp Hs. unfold connect_step. destruct (h_finished (c_harness s)); [done |]. destruct e as [p|e|alive cf].
  - by apply Kp.
  - specialize (Kh (text "rlp-test-discv5-connect") e s Hs). destruct (harness_step _ _ _ _ _ _ _ _ _ _ _ _ _ _ _) as [tr h]. cbn [snd] in *.
    revert Kh. generalize (with_harness h s). generalize (dials (h_dialer h) !! dial_of e). intros x. clear -Kb Kf.
    induction (map snd tr) as [|o out IH]; intros s Hs; [done |]. cbn [fold_left]. apply IH.
    destruct o; try done; cbn [connect_output]; destruct x as [[vp v y]|]; try done; [by apply Kf |]. destruct y as [| |r|]; try done.
    apply Kb; [| done]. by case_bool_decide.
  - by apply Ke.
Qed.

Lemma connect_keeps_runs I : connect_keeps I -> forall es,
  (forall p s, CandidateFound p ∈ es -> I s -> I (candidate_found clock a hash p s)) -> forall s, I s -> I (snd (runs es s)).
Proof.
  intros K es. induction es as [|e es IH]; intros Kp s Hs; [done |]. cbn [connect_runs].
  assert (I (snd (step e s))) as Hstep by (apply connect_keeps_step; [done | | done]; intros p s' ->; apply Kp; by left).
  destruct (step e s) as [tr s1]. assert (I (snd (runs es s1))) as Hruns by (apply IH; [| done]; intros p s' Hp; apply Kp; by right).
  by destruct (runs es s1).
Qed.

Lemma accounts_bump n k s : side_stat k = true -> accounts n (c_harness s) -> accounts n (c_harness (bump_stat k s)).
Proof.
  intros Hk Ha. unfold bump_stat. cbn [c_harness with_harness].
  assert (forall j, side_stat j = false -> bump k (h_stats (c_harness s)) j = h_stats (c_harness s) j) as Hb
    by (intros j Hj; unfold bump; destruct (decide (j = k)) as [->|]; [congruence | done]).
  apply accounts_stats; [by apply Hb | by apply Hb | | done]. unfold failed_count. by rewrite !Hb.
Qed.

Lemma accounts_kept : connect_keeps (fun s => accounts (max_dials a) (c_harness s)).
Proof.
  split; intros; try done; [by apply accounts_bump | by apply accounts_step | by apply accounts_ends].
Qed.

Lemma accounts_screened vp found s : accounts (max_dials a) (c_harness s) -> accounts (max_dials a) (c_harness (screened clock vp found s)).
Proof.
  intros Hs. unfold screened. destruct (screen vp (c_quality s)) as [[] q]; [by apply accounts_offered | by apply accounts_bump].
Qed.

Lemma accounts_found p s : accounts (max_dials a) (c_harness s) -> accounts (max_dials a) (c_harness (candidate_found clock a hash p s)).
Proof.
  intros Hs. unfold candidate_found. destruct (_ =? 0); [done |]. destruct (_ && _); [done |]. destruct (negb _); [done |]. by apply accounts_screened.
Qed.

Lemma accounts_seeds now enodes : forall s s', accounts (max_dials a) (c_harness s) -> seeds_offered clock now enodes s = Some s' ->
  accounts (max_dials a) (c_harness s').
Proof.
  induction enodes as [|enode enodes IH]; intros s s' Hs; cbn [seeds_offered]; [by intros [= <-] |].
  destruct (seed_candidate now enode) as [[vp|]|]; cbn [mbind option_bind]; [apply IH | by apply IH | done].
  unfold seed_offered. destruct (is_candidate_blocked _ _); [by apply accounts_bump | by apply accounts_offered].
Qed.

Lemma accounts_bootstrap now uris : forall s, accounts (max_dials a) (c_harness s) ->
  accounts (max_dials a) (c_harness (fold_left (fun s uri => bootstrap_candidate keccak256 clock now uri s) uris s)).
Proof.
  induction uris as [|uri uris IH]; intros s Hs; [done |]. cbn [fold_left]. apply IH. unfold bootstrap_candidate.
  destruct (Discv5Enr.parse keccak256 uri) as [record|e|]; [| done..]. destruct (Discv5Enr.to_validated_peer now record) as [p|e|]; [| done..].
  destruct (_ =? 0); [done |]. destruct (negb _); [done |]. by apply accounts_screened.
Qed.

(** C24: what [test_discv5_connect] prints adds up. In every state of the program each dial that has begun is one
    that waits, or has failed to connect, timed out, or been refused with too many peers, or has ended
    after a Status, which are those no longer in [validated_count]; the connections counted are those that
    the scheduler has counted; and no more dials wait than the pool has slots. *)
Theorem connect_accounts now draw opens s0 es :
  0 <= max_dials a -> connect_start keccak256 fuel clock a now draw opens = Some s0 ->
  let h := c_harness (snd (runs es s0)) in
  h_stats h dialed_count = dialing h + failed_count (h_stats h)
    + (total_validated (sched (scheduling (h_dialer h))) - validated_count (sched (scheduling (h_dialer h))))
  /\ h_stats h connected_count = total_validated (sched (scheduling (h_dialer h)))
  /\ DialScheduler.active (sched (scheduling (h_dialer h))) = live (h_dialer h) /\ live (h_dialer h) <= 50 /\ live (h_dialer h) <= max_dials a * 2.
Proof.
  intros Hmax Hstart. assert (accounts (max_dials a) (c_harness (snd (runs es s0)))) as [[Sa St _ Sc] _ Hc _ Hb].
  { apply (connect_keeps_runs _ accounts_kept es (fun p s _ => accounts_found p s) s0). unfold connect_start in Hstart.
    destruct (fst (Ecdh.generate_ephemeral_keypair fuel draw)) as [kp|e|]; [| done..]. destruct (for_chain kEthereumSepolia) as [source|]; [| done].
    destruct (empty (fetch source)); [done |]. set (s := mkConnect (new_harness None (max_dials a)) new_quality ∅ 0 0) in *.
    assert (accounts (max_dials a) (c_harness s)) as Hs by (by apply accounts_new).
    destruct (if enable_seeded a then seeds_offered clock now ETHEREUM_SEPOLIA_BOOTNODES s else Some s) as [s1|] eqn:E1; [| done].
    assert (accounts (max_dials a) (c_harness s1)) as Hs1 by (destruct (enable_seeded a); [by apply (accounts_seeds _ _ _ _ Hs E1) | by injection E1 as <-]).
    cbn [mbind option_bind] in Hstart. destruct opens; [| done]. injection Hstart as <-.
    destruct (enqueue_bootstrap_candidates a); [by apply accounts_bootstrap | done]. }
  cbn zeta. split; [exact Hb |]. split; [exact Hc |]. lia.
Qed.

(** ** What is dialed *)

(** A reported candidate that passes the checks. *)
Definition passed (p : Discv5Types.ValidatedPeer) : Prop :=
  Discv5Types.peer_tcp_port p <> 0 /\ Ecdh.verify_public_key (Discv5Types.peer_node_id p) = true
  /\ is_publicly_routable_ip (Discv5Types.peer_ip p) = true
  /\ (require_fork a = true -> exists f, Discv5Types.peer_eth_fork_id p = Some f /\ Discv5Types.hash f = hash).

(** The peer of a dial is the candidate, field by field. *)
Definition dialed_as (p : Discv5Types.ValidatedPeer) (vp : ValidatedPeer) : Prop :=
  pubkey vp = Discv5Types.peer_node_id p
  /\ peer vp = mkPeer (Discv5Types.peer_node_id p) (Discv5Types.peer_ip p) (Discv5Types.peer_udp_port p) (Discv5Types.peer_tcp_port p)
       (Discv5Types.peer_last_seen p)
       (match Discv5Types.peer_eth_fork_id p with
        | Some f => Some (Discv4Types.mkForkId (Discv5Types.hash f) (Discv5Types.next f))
        | None => None
        end).

(** The session of the dial is made with the candidate: with its address, its TCP port and its key. *)
Definition connects_to (p : Discv5Types.ValidatedPeer) (x : Dialed probe_place) : Prop := forall k keypair connected draw s,
  progress x = ProbeConnecting keypair ->
  fst (connect keccak256 aes_ecb_encrypt_block aes_ctr snappy_compress snappy_length snappy_uncompress fuel unset unset_secrets
         {| remote_host := Discv5Types.peer_ip p; params_remote_port := Discv5Types.peer_tcp_port p;
            params_public_key := Ecdh.public_key keypair; params_private_key := Ecdh.private_key keypair;
            params_peer_key := Discv5Types.peer_node_id p;
            params_client_id := text "rlp-test-discv5-connect"; params_listen_port := 0 |} connected draw) = Ok s ->
  dial_outcome keccak256 aes_ecb_encrypt_block aes_ctr snappy_compress snappy_length snappy_uncompress fuel unset unset_secrets
    (text "rlp-test-discv5-connect") (mkForkId hash 0) (DialConnects k connected draw) x
  = Some (fst (begin_probe (mkForkId hash 0) s), Probing (snd (begin_probe (mkForkId hash 0) s))).

Lemma dialed_connects p x : dialed_as p (dialed x) -> connects_to p x.
Proof.
  intros [Hk Hp] k keypair connected draw s Hx Hs. unfold dial_outcome, probe_connects, probe_connect_params. rewrite Hx, Hk, Hp.
  cbn [peer_ip tcp_port]. rewrite Hs. by destruct (begin_probe _ s).
Qed.

(** What was taken from the events [es]. *)
Definition screened_inv (es : list connect_event) (s : Connect) : Prop := exists taken,
  offered taken (h_dialer (c_harness s)) /\ subnets_counted taken (c_quality s) /\ subnet_enqueue_limit (c_quality s) = 2
  /\ Forall (fun vp => exists p, CandidateFound p ∈ es /\ passed p /\ dialed_as p vp) taken.

Lemma screened_kept es : connect_keeps (screened_inv es).
Proof.
  split; [done | done | done | |]; [intros client e s | intros alive cf s]; intros (taken & Ho & Hs & Hl & Hp); exists taken; split_and!; try done;
    cbn [c_harness with_harness]; [by apply offered_step | by apply offered_ends].
Qed.

Lemma screened_taken es vp found s :
  (is_publicly_routable_ip (peer_ip (peer vp)) = true -> exists p, CandidateFound p ∈ es /\ passed p /\ dialed_as p vp) ->
  screened_inv es s -> screened_inv es (screened clock vp found s).
Proof.
  intros Hvp (taken & Ho & Hs & Hl & Hp). unfold screened. pose proof (screen_subnets taken vp (c_quality s) Hs) as Hsc.
  destruct (screen_keeps vp (c_quality s)) as [_ Ht]. destruct (screen vp (c_quality s)) as [t q]. cbn [snd] in Ht. injection Ht as _ _ _ Hl'.
  destruct Hsc as [-> Hs']. destruct (is_publicly_routable_ip (peer_ip (peer vp))) eqn:Hr; cbn [andb] in *.
  2: { exists taken. rewrite app_nil_r in Hs'. split_and!; try done. cbn. congruence. }
  match goal with |- screened_inv _ (if ?b then _ else _) => destruct b end; [| exists taken; rewrite app_nil_r in Hs'; split_and!; try done; cbn; congruence].
  exists (taken ++ [vp]). split_and!; cbn [c_harness c_quality with_harness with_counts with_quality]; [| done | congruence |].
  - cbn [candidate_offered h_dialer]. rewrite <- Permutation_cons_append. by apply offered_offer.
  - apply Forall_app. split; [done |]. constructor; [by apply Hvp | constructor].
Qed.

Lemma screened_found es p s : CandidateFound p ∈ es -> screened_inv es s -> screened_inv es (candidate_found clock a hash p s).
Proof.
  intros Hin Hs. unfold candidate_found. destruct (Z.eqb_spec (Discv5Types.peer_tcp_port p) 0) as [|Hport]; [done |].
  destruct (require_fork a && wrong_fork hash p) eqn:Hf; [done |]. destruct (Ecdh.verify_public_key (pubkey (dial_candidate p))) eqn:Hv; [| done].
  cbn [negb]. apply screened_taken; [| done]. intros Hr. exists p. split; [done |]. split; [| done].
  split_and!; try done. intros Hreq. rewrite Hreq in Hf. cbn [andb] in Hf.
  unfold wrong_fork in Hf. destruct (Discv5Types.peer_eth_fork_id p) as [f|]; [| done].
  apply negb_false_iff, bool_decide_eq_true in Hf. by eexists.
Qed.

Lemma bootstrap_unused now s : fold_left (fun s uri => bootstrap_candidate keccak256 clock now uri s) (fetch make_ethereum_sepolia) s = s.
Proof.
  assert (Forall (fun uri => exists e, Discv5Enr.decode_uri uri = Err e) (fetch make_ethereum_sepolia)) as Hf by (repeat constructor; eexists; reflexivity).
  induction Hf as [|uri uris [e He] _ IH]; [done |]. cbn [fold_left]. unfold bootstrap_candidate at 2. unfold Discv5Enr.parse. rewrite He. exact IH.
Qed.

(** the bootstrap records are not used. The sources of Sepolia are enode texts, none of which the parser of records
    takes, so that with [--enqueue-bootstrap-candidates on] the program starts as without it. *)
Theorem bootstrap_candidates_unused now s :
  fold_left (fun s uri => bootstrap_candidate keccak256 clock now uri s) (fetch make_ethereum_sepolia) s = s.
Proof. apply bootstrap_unused. Qed.

Lemma started_screened now draw opens s0 : enable_seeded a = false -> starts now draw opens = Some s0 -> forall es, screened_inv es s0.
Proof.
  intros Hseed Hstart es. unfold connect_start in Hstart. destruct (fst (Ecdh.generate_ephemeral_keypair fuel draw)) as [kp|e|]; [| done..].
  change (for_chain kEthereumSepolia) with (Some make_ethereum_sepolia) in Hstart. rewrite Hseed in Hstart.
  cbv zeta iota beta in Hstart. change (empty (fetch make_ethereum_sepolia)) with false in Hstart. cbn [mbind option_bind] in Hstart.
  rewrite bootstrap_unused in Hstart. destruct opens; [| done]. injection Hstart as <-.
  assert (screened_inv es (mkConnect (new_harness None (max_dials a)) new_quality ∅ 0 0)) as Hi; [| by destruct (enqueue_bootstrap_candidates a)].
  exists []. split; [apply submseteq_nil_l |]. split; [| by split]. intros k. cbn [c_quality new_quality subnet_enqueue_counts subnet_enqueue_limit].
  rewrite lookup_empty. by split.
Qed.

(** C25: what [test_discv5_connect] dials. Without seeds, in every state of the program each dial is to a
    candidate that was reported in an event before: it has that candidate's id, address, ports and fork id, and the
    session of the dial is made with that address, that TCP port and that key. The candidate has a TCP port, a
    valid key, a routable address and, when that is asked for, the fork hash of the chain; and at most two
    dials are to a subnet. *)
Theorem connect_dials_screened now draw opens s0 es :
  enable_seeded a = false -> starts now draw opens = Some s0 ->
  let ds := dials (h_dialer (c_harness (snd (runs es s0)))) in
  (forall x, x ∈ ds -> exists p, CandidateFound p ∈ es /\ passed p /\ dialed_as p (dialed x) /\ connects_to p x)
  /\ forall k, count (in_subnet k) (map dialed ds) <= 2.
Proof.
  intros Hseed Hstart. pose proof (connect_keeps_runs _ (screened_kept es) es (screened_found es) s0 (started_screened _ _ _ _ Hseed Hstart es))
    as (taken & Ho & Hs & Hl & Hp).
  cbn zeta. assert (map dialed (dials (h_dialer (c_harness (snd (runs es s0))))) ⊆+ taken) as Hsub by (etransitivity; [| exact Ho]; by apply submseteq_inserts_r).
  split.
  - intros x Hx. rewrite list.Forall_forall in Hp. destruct (Hp (dialed x)) as (p & Hin & Hpass & Hd).
    { eapply elem_of_submseteq; [| exact Hsub]. by apply list_elem_of_fmap_2. }
    exists p. split; [done |]. split; [done |]. split; [done | by apply dialed_connects].
  - intros k. etransitivity; [by apply count_submseteq |]. destruct (Hs k) as [_ Hk]. by rewrite Hl in Hk.
Qed.
End connect_proofs.

(** ** What the discv4 client has found *)

Section search_proofs.
Context (keccak256 : bytes -> bytes) (aes_ecb_encrypt_block : bytes -> bytes -> bytes)
  (aes_ctr : bytes -> nat -> bytes -> bytes)
  (snappy_compress : bytes -> bytes) (snappy_length : bytes -> option Z) (snappy_uncompress : bytes -> option bytes).
Context `{Secp256k1} `{OpenSsl} `{AddressText} (fuel : nat) (unset : AuthKeyMaterial) (unset_secrets : bytes * bytes).
Context (clock : nat -> Z) (keypair : Ecdh.KeyPair).

Definition found_in (w : Discv4Client.world) : list DiscoveredPeer := Discv4Bonding.found (Discv4Client.log (Discv4Client.client w)).

(** An event adds what is newly found, and only that. *)
Lemma found_grows w e : Discv4Bonding.world_inv keccak256 (discovery_config keypair) True w -> Discv4Bonding.event_ok e ->
  let w' := Discv4Client.step keccak256 (discovery_config keypair) w e in
  Discv4Bonding.world_inv keccak256 (discovery_config keypair) True w' /\ found_in w' ≡ₚ newly_found w w' ++ found_in w.
Proof.
  intros Hw He w'. split; [by apply Discv4Bonding.any_steps |].
  destruct (Discv4Bonding.any_grows keccak256 (discovery_config keypair) w e Hw He) as [l Hl]. fold w' in Hl.
  unfold found_in. rewrite (newly_found_app _ _ _ Hl), Hl, found_app. by rewrite <- Permutation_rev.
Qed.

(** The setup finds nobody. *)
Lemma search_calls_found config targets :
  found_in (Discv4Client.run_events keccak256 config (Discv4Client.start_world Discv4Client.fresh_client) (search_calls targets)) = [].
Proof.
  assert (forall es w, Forall (fun e => match e with Discv4Client.SetCallbacks _ _ | Discv4Client.Start | Discv4Client.Call _ => True | _ => False end) es ->
    found_in (Discv4Client.run_events keccak256 config w es) = found_in w) as Hq.
  { intros es w Hes. revert w. unfold Discv4Client.run_events. induction Hes as [|e es He _ IH]; intros w; [done |]. cbn [fold_left]. rewrite IH.
    unfold Discv4Client.step. destruct (Discv4Client.crashed w); [done |]. destruct e; try done.
    - unfold found_in. cbn [Discv4Client.on_client Discv4Client.client]. unfold Discv4Client.start. by destruct (Discv4Client.running_ (Discv4Client.client w)).
    - unfold found_in. by destruct (Discv4Client.is_call _). }
  rewrite Hq; [done |]. constructor; [done |]. constructor; [done |]. apply Forall_map, Forall_true. by intros [[? ?] ?].
Qed.

Lemma search_started_inv opens binds draw kp w : search_started keccak256 fuel opens binds draw = Some (kp, w) ->
  Discv4Bonding.world_inv keccak256 (discovery_config kp) True w /\ found_in w = [].
Proof.
  unfold search_started. destruct (fst (Ecdh.generate_ephemeral_keypair fuel draw)) as [kp'|e|]; [| done..].
  destruct (bootnode_targets _) as [targets|]; [| done]. unfold Discv4Client.new_client.
  destruct (make_address _) as [[b|b]|]; try done. destruct opens, binds; try done. intros E. cbv beta iota zeta delta [negb] in E.
  assert (kp' = kp) as -> by congruence.
  assert (w = Discv4Client.run_events keccak256 (discovery_config kp) (Discv4Client.start_world Discv4Client.fresh_client) (search_calls targets)) as -> by congruence.
  split; [| apply search_calls_found]. apply (Discv4Bonding.any_runs keccak256 (discovery_config kp) (search_calls targets)).
  constructor; [done |]. constructor; [done |]. apply Forall_map, Forall_true. by intros [[? ?] ?].
Qed.

(** *** The survey *)

Definition survey_event_ok (e : survey_event) : Prop := match e with SurveySearched d => Discv4Bonding.event_ok d | SurveyEnds => True end.

Definition has_fork (f : DiscoveredPeer) : bool := bool_decide (is_Some (eth_fork_id f)).
Definition has_hash (h : bytes) (f : DiscoveredPeer) : bool := bool_decide (Discv4Types.fork_hash <$> eth_fork_id f = Some h).

(** The counters are those of [fs]. *)
Record surveys (fs : list DiscoveredPeer) (s : Survey) : Prop := {
  su_total : peers_total s = len fs;
  su_with : peers_with_fork_id s = count has_fork fs;
  su_without : peers_without_fork_id s = len fs - count has_fork fs;
  su_hashes h : fork_hash_counts s !! h = if count (has_hash h) fs =? 0 then None else Some (count (has_hash h) fs)
}.

Lemma count_nonneg {A} (P : A -> bool) l : 0 <= count P l.
Proof. apply len_nonneg. Qed.

Lemma surveys_peer fs f s : surveys fs s -> surveys (f :: fs) (surveyed f s).
Proof.
  intros [T W N Hh]. assert (forall h, has_hash h f = match eth_fork_id f with Some x => bool_decide (Discv4Types.fork_hash x = h) | None => false end) as Hf.
  { intros h. unfold has_hash. destruct (eth_fork_id f) as [x|]; cbn; [apply bool_decide_ext; split; congruence | done]. }
  assert (has_fork f = match eth_fork_id f with Some _ => true | None => false end) as Hk by (unfold has_fork; by destruct (eth_fork_id f)).
  unfold surveyed. destruct (eth_fork_id f) as [x|] eqn:Ex; split; cbn [peers_total peers_with_fork_id peers_without_fork_id fork_hash_counts];
    rewrite ?len_cons, ?count_cons, ?Hk; cbn [Z.b2z]; try lia; intros h; rewrite count_cons, Hf.
  - pose proof (count_nonneg (has_hash h) fs). destruct (decide (Discv4Types.fork_hash x = h)) as [<-|Hne].
    + rewrite lookup_insert_eq, bool_decide_true, Hh by done. cbn [Z.b2z]. rewrite (proj2 (Z.eqb_neq (1 + _) 0)) by lia. f_equal.
      case_match eqn:E; cbn; [apply Z.eqb_eq in E |]; lia.
    + by rewrite lookup_insert_ne, bool_decide_false.
  - exact (Hh h).
Qed.

Lemma surveys_peers news : forall fs s, surveys fs s -> surveys (rev news ++ fs) (fold_left (fun s f => surveyed f s) news s).
Proof.
  induction news as [|f news IH]; intros fs s Hs; [done |]. cbn [fold_left rev]. rewrite <- app_assoc. cbn [app]. by apply IH, surveys_peer.
Qed.

#[local] Instance surveys_proper : Proper ((≡ₚ) ==> eq ==> iff) surveys.
Proof.
  assert (forall fs fs' s, fs ≡ₚ fs' -> surveys fs s -> surveys fs' s) as Hp.
  { intros fs fs' s Hp [T W N Hh]. assert (len fs' = len fs) as El by (unfold len; by rewrite Hp).
    split; [by rewrite El | by rewrite <- (count_proper _ _ _ Hp) | by rewrite El, <- (count_proper _ _ _ Hp) | intros h; by rewrite <- (count_proper _ _ _ Hp)]. }
  intros fs fs' Hf s s' <-. split; by apply Hp.
Qed.

Lemma surveyed_world news : forall s, s_discovery (fold_left (fun s f => surveyed f s) news s) = s_discovery s.
Proof. induction news as [|f news IH]; intros s; [done |]. cbn [fold_left]. rewrite IH. unfold surveyed. by destruct (eth_fork_id f). Qed.

Lemma stop_finds w : newly_found w (Discv4Client.step keccak256 (discovery_config keypair) w Discv4Client.Stop) = [].
Proof.
  assert (forall c, Discv4Client.log (Discv4Client.stop c) = Discv4Client.log c) as Hl.
  { intros c. unfold Discv4Client.stop. cbn [Discv4Client.log Discv4Client.set_socket Discv4Client.set_pending].
    apply (map_fold_weak_ind (fun c' _ => Discv4Client.log c' = Discv4Client.log c)); [done |]. intros k entry m c' Hm Hc. unfold Discv4Client.cancel. by destruct (decide _). }
  unfold newly_found, Discv4Client.step. destruct (Discv4Client.crashed w); [by rewrite Nat.sub_diag |].
  cbn [Discv4Client.on_client Discv4Client.client]. by rewrite Hl, Nat.sub_diag.
Qed.

Lemma survey_keeps e s : Discv4Bonding.world_inv keccak256 (discovery_config keypair) True (s_discovery s) -> survey_event_ok e -> surveys (found_in (s_discovery s)) s ->
  let s' := survey_step keccak256 keypair e s in Discv4Bonding.world_inv keccak256 (discovery_config keypair) True (s_discovery s') /\ surveys (found_in (s_discovery s')) s'.
Proof.
  intros Hw He Hs. unfold survey_step. destruct (_ || _); [done |]. destruct e as [e|].
  - destruct (EthWatchMain.happens e); [| done]. destruct (found_grows (s_discovery s) e Hw He) as [Hw' Hp]. cbn zeta in *.
    set (w' := Discv4Client.step keccak256 (discovery_config keypair) (s_discovery s) e) in *. rewrite surveyed_world. cbn [s_discovery with_world]. split; [done |].
    rewrite Hp. assert (surveys (found_in (s_discovery s)) (with_world w' s)) as Hs1 by (by destruct Hs).
    pose proof (surveys_peers (newly_found (s_discovery s) w') _ _ Hs1) as Hx. by rewrite <- Permutation_rev in Hx.
  - destruct (found_grows (s_discovery s) Discv4Client.Stop Hw I) as [Hw' Hp]. cbn [s_discovery]. split; [done |].
    rewrite Hp, stop_finds. by destruct Hs.
Qed.

(** the counts of the survey. Whatever is received, they are those of the peers that the client has reported: all,
    with a fork id, without one, and with each fork hash; and the conclusion is that the expected hash
    was found exactly when a peer had it. *)
Theorem survey_counts opens binds draw s0 es hash :
  survey_start keccak256 fuel opens binds draw = Some (keypair, s0) -> Forall survey_event_ok es ->
  let s := survey_runs keccak256 keypair es s0 in
  let fs := found_in (s_discovery s) in
  surveys fs s /\ (conclusion hash s = HashFound <-> exists f, f ∈ fs /\ has_hash hash f = true).
Proof.
  intros Hstart Hes s fs.
  assert (Discv4Bonding.world_inv keccak256 (discovery_config keypair) True (s_discovery s) /\ surveys fs s) as [_ Hs].
  { subst fs s. unfold survey_start in Hstart. destruct (search_started keccak256 fuel opens binds draw) as [[kp w]|] eqn:Ew; [| done].
    cbn [mbind option_bind] in Hstart. injection Hstart as -> <-. apply search_started_inv in Ew as [Hw Hnone].
    assert (surveys (found_in w) (mkSurvey w 0 0 0 ∅ false)) as Hinit by (rewrite Hnone; by split).
    revert Hw Hinit. change w with (s_discovery (mkSurvey w 0 0 0 ∅ false)) at 1 2. generalize (mkSurvey w 0 0 0 ∅ false). clear Hnone.
    unfold survey_runs. induction Hes as [|e es He _ IH]; intros s Hw Hs; [done |]. cbn [fold_left].
    destruct (survey_keeps e s Hw He Hs) as [Hw' Hs']. by apply IH. }
  split; [exact Hs |]. destruct Hs as [T W N Hh]. unfold conclusion. rewrite W, Hh. pose proof (count_nonneg has_fork fs). pose proof (count_nonneg (has_hash hash) fs).
  assert (count (has_hash hash) fs <> 0 <-> exists f, f ∈ fs /\ has_hash hash f = true) as Hex.
  { setoid_rewrite list_elem_of_In. unfold count, len. split.
    - intros Hne. destruct (List.filter (has_hash hash) fs) as [|f l] eqn:E; [done |]. exists f. apply filter_In. rewrite E. by left.
    - intros (f & Hf1 & Hf2) E. assert (In f (List.filter (has_hash hash) fs)) as Hf by (by apply filter_In). destruct (List.filter _ fs); [done | cbn in E; lia]. }
  assert (count (has_hash hash) fs <= count has_fork fs) as Hle
    by (apply count_mono; intros f Hf; unfold has_hash, has_fork in *; apply bool_decide_eq_true in Hf; apply bool_decide_eq_true; by destruct (eth_fork_id f)).
  rewrite <- Hex. destruct (Z.eqb_spec (count has_fork fs) 0); [split; [done | lia] |]. destruct (Z.eqb_spec (count (has_hash hash) fs) 0); split; done || lia.
Qed.

(** *** The test of discovery *)

Context (a : DiscoveryArgs) (hash : bytes).
Abbreviation step := (discovery_step keccak256 aes_ecb_encrypt_block aes_ctr snappy_compress snappy_length snappy_uncompress
  fuel unset unset_secrets clock a hash keypair).
Abbreviation runs := (discovery_runs keccak256 aes_ecb_encrypt_block aes_ctr snappy_compress snappy_length snappy_uncompress
  fuel unset unset_secrets clock a hash keypair).

Definition discovery_event_ok (e : discovery_event) : Prop := match e with Searched d => Discv4Bonding.event_ok d | _ => True end.

(** The peers that the filter lets through. *)
Definition let_through (fs : list DiscoveredPeer) : list ValidatedPeer :=
  List.filter (fun vp => make_fork_id_filter hash (peer vp)) (offers fs).

Record tests (fs : list DiscoveredPeer) (t : DiscoveryTest) : Prop := {
  te_accounts : accounts (d_max_dials a) (t_harness t);
  te_filter : filter_fn (sched (scheduling (h_dialer (t_harness t)))) = Some (make_fork_id_filter hash);
  te_offered : offered (let_through fs) (h_dialer (t_harness t));
  te_count : peers_count t = len (offers fs)
}.

#[local] Instance tests_proper : Proper ((≡ₚ) ==> eq ==> iff) tests.
Proof.
  assert (forall fs fs' t, fs ≡ₚ fs' -> tests fs t -> tests fs' t) as Hp.
  { intros fs fs' t Hp [A F O C]. pose proof (offers_perm _ _ Hp) as Ho. split; [done | done | | by rewrite C; unfold len; rewrite Ho].
    assert (let_through fs' ≡ₚ let_through fs) as E; [| by rewrite E]. unfold let_through. symmetry. clear -Ho.
    induction Ho; cbn; repeat case_match; eauto using Permutation. }
  intros fs fs' Hf t t' <-. split; by apply Hp.
Qed.

Lemma tests_peer fs f t : tests fs t -> tests (f :: fs) (tested_peer clock f t).
Proof.
  intros [A F O C]. assert (offers (f :: fs) = if Ecdh.verify_public_key (node_id f) then mkValidatedPeer f (node_id f) :: offers fs else offers fs) as Ho
    by (unfold offers; cbn [List.filter]; by destruct (Ecdh.verify_public_key (node_id f))).
  unfold tested_peer. cbn [pubkey]. destruct (Ecdh.verify_public_key (node_id f)); split; try done; cbn [t_harness peers_count candidate_offered h_dialer];
    unfold let_through; rewrite ?Ho; try done.
  - by apply accounts_offered.
  - by rewrite filter_offer.
  - exact (offered_filtered clock _ (mkValidatedPeer f (node_id f)) _ _ F O).
  - rewrite len_cons, C. lia.
Qed.

Lemma tests_peers news : forall fs t, tests fs t -> tests (rev news ++ fs) (fold_left (fun t f => tested_peer clock f t) news t).
Proof.
  induction news as [|f news IH]; intros fs t Ht; [done |]. cbn [fold_left rev]. rewrite <- app_assoc. cbn [app]. by apply IH, tests_peer.
Qed.

Lemma tested_world news : forall t, t_discovery (fold_left (fun t f => tested_peer clock f t) news t) = t_discovery t.
Proof. induction news as [|f news IH]; intros t; [done |]. cbn [fold_left]. rewrite IH. unfold tested_peer. by destruct (Ecdh.verify_public_key _). Qed.

Lemma tests_step e t : Discv4Bonding.world_inv keccak256 (discovery_config keypair) True (t_discovery t) -> discovery_event_ok e -> tests (found_in (t_discovery t)) t ->
  let t' := snd (step e t) in Discv4Bonding.world_inv keccak256 (discovery_config keypair) True (t_discovery t') /\ tests (found_in (t_discovery t')) t'.
Proof.
  intros Hw He Ht. unfold discovery_step. destruct (_ || _); [done |]. destruct e as [e|e|alive cf].
  - destruct (EthWatchMain.happens e); [| done]. destruct (found_grows (t_discovery t) e Hw He) as [Hw' Hp]. cbn zeta in *.
    set (w' := Discv4Client.step keccak256 (discovery_config keypair) (t_discovery t) e) in *. cbn [snd]. rewrite tested_world. cbn [t_discovery]. split; [done |].
    rewrite Hp. assert (tests (found_in (t_discovery t)) (mkDiscoveryTest w' (t_harness t) (peers_count t))) as Ht1 by (by destruct Ht).
    pose proof (tests_peers (newly_found (t_discovery t) w') _ _ Ht1) as Hx. by rewrite <- Permutation_rev in Hx.
  - destruct Ht as [A F O C].
    pose proof (accounts_step keccak256 aes_ecb_encrypt_block aes_ctr snappy_compress snappy_length snappy_uncompress fuel unset unset_secrets clock
      (d_max_dials a) (text "rlp-test-discovery") (mkForkId hash 0) (d_min_connections a) e _ A) as A'.
    pose proof (offered_step keccak256 aes_ecb_encrypt_block aes_ctr snappy_compress snappy_length snappy_uncompress fuel unset unset_secrets clock
      (text "rlp-test-discovery") (mkForkId hash 0) (d_min_connections a) e _ _ O) as O'.
    assert (filter_fn (sched (scheduling (h_dialer (snd (harness_step keccak256 aes_ecb_encrypt_block aes_ctr snappy_compress snappy_length snappy_uncompress fuel
      unset unset_secrets clock (text "rlp-test-discovery") (mkForkId hash 0) (d_min_connections a) e (t_harness t)))))) = Some (make_fork_id_filter hash)) as F'.
    { destruct (harness_cases keccak256 aes_ecb_encrypt_block aes_ctr snappy_compress snappy_length snappy_uncompress fuel unset unset_secrets clock
        (text "rlp-test-discovery") (mkForkId hash 0) (d_min_connections a) e (t_harness t)) as [|x out y Hk Hout]; [done |].
      pose proof (filter_advance clock (dial_of e) y out (h_dialer (t_harness t))) as Hf. unfold probe_advances.
      destruct (advance _ _ _ _ _). cbn [snd h_dialer] in *. by rewrite Hf. }
    destruct (harness_step _ _ _ _ _ _ _ _ _ _ _ _ _ _ _) as [tr h]. cbn [snd] in *. split; [done |]. by split.
  - destruct (found_grows (t_discovery t) Discv4Client.Stop Hw I) as [Hw' Hp]. cbn [snd t_discovery]. split; [done |]. rewrite Hp, stop_finds.
    destruct Ht as [A F O C]. split; [by apply accounts_ends | exact F | by apply offered_ends | done].
Qed.

Lemma tests_runs es : forall t, Forall discovery_event_ok es -> Discv4Bonding.world_inv keccak256 (discovery_config keypair) True (t_discovery t) -> tests (found_in (t_discovery t)) t ->
  tests (found_in (t_discovery (snd (runs es t)))) (snd (runs es t)).
Proof.
  induction es as [|e es IH]; intros t Hes Hw Ht; [done |]. apply Forall_cons_iff in Hes as [He Hes]. cbn [discovery_runs].
  destruct (tests_step e t Hw He Ht) as [Hw1 Ht1]. destruct (step e t) as [tr t1]. specialize (IH t1 Hes Hw1 Ht1). by destruct (runs es t1).
Qed.

(** what [test_discovery] dials and counts. Whatever is received, each dial is to a peer that the client has
    reported, with a valid key and the expected fork hash; the peers counted are those reported with a
    valid key; and the counters of the dials add up, as those of [test_discv5_connect]. *)
Theorem discovery_dials_filtered opens binds draw t0 es :
  0 <= d_max_dials a -> discovery_start keccak256 fuel a hash opens binds draw = Some (keypair, t0) -> Forall discovery_event_ok es ->
  let t := snd (runs es t0) in
  let h := t_harness t in
  peers_count t = len (offers (found_in (t_discovery t)))
  /\ (forall x, x ∈ dials (h_dialer h) -> peer (dialed x) ∈ found_in (t_discovery t) /\ pubkey (dialed x) = node_id (peer (dialed x))
        /\ Ecdh.verify_public_key (pubkey (dialed x)) = true /\ Discv4Types.fork_hash <$> eth_fork_id (peer (dialed x)) = Some hash)
  /\ h_stats h dialed_count = dialing h + failed_count (h_stats h)
       + (total_validated (sched (scheduling (h_dialer h))) - validated_count (sched (scheduling (h_dialer h)))).
Proof.
  intros Hmax Hstart Hes. cbn zeta. assert (tests (found_in (t_discovery (snd (runs es t0)))) (snd (runs es t0))) as [A F O C].
  { unfold discovery_start in Hstart. destruct (search_started keccak256 fuel opens binds draw) as [[kp w]|] eqn:Ew; [| done].
    cbn [mbind option_bind] in Hstart. injection Hstart as -> <-. apply search_started_inv in Ew as [Hw Hnone]. apply tests_runs; [done | done |].
    cbn [t_discovery]. rewrite Hnone. split; [by apply accounts_new | done | apply submseteq_nil_l | done]. }
  split; [exact C |]. split; [| apply A]. intros x Hx.
  assert (dialed x ∈ let_through (found_in (t_discovery (snd (runs es t0))))) as Hin.
  { eapply elem_of_submseteq; [| exact O]. apply elem_of_app. left. by apply list_elem_of_fmap_2. }
  unfold let_through, offers in Hin. rewrite list_elem_of_In, filter_In, in_map_iff in Hin. destruct Hin as [(f & Ef & Hf) Hfork]. apply filter_In in Hf as [Hf Hv].
  rewrite <- Ef in *. cbn [peer pubkey] in *. split_and!; try done; [by apply list_elem_of_In |].
  unfold make_fork_id_filter in Hfork. destruct (eth_fork_id f) as [g|]; [| done]. apply bool_decide_eq_true in Hfork. cbn. by f_equal.
Qed.
End search_proofs.

(** ** Instances *)

#[local] Existing Instance ToySecp.toy.
#[local] Existing Instance ToySsl.toy.
#[local] Existing Instance DottedText.text.
#[local] Existing Instance sample_cipher_laws.

(** One candidate, the peer of [EthWatchMain.v], on Sepolia; and the search at the first bootnode, which tells of it. *)
Module HarnessSample.
Definition options (argv : list string) : ConnectArgs :=
  match connect_args (map text argv) default_connect_args with Ok a => a | _ => default_connect_args end.
Definition hash : bytes := sepolia_hash [].
Definition candidate (port : Z) : Discv5Types.ValidatedPeer :=
  Discv5Types.mkPeer MainSample.peer_key (dotted [93; 184; 216; 34]) 9000 port 5 (Some (Discv5Types.mkForkId hash 0)).

Abbreviation starts a := (connect_start ToySsl.digest 1 MainSample.clock a 0 0 true).
Abbreviation runs a := (connect_runs ToySsl.digest Toy.aes_ecb Toy.aes_ctr Toy.compress Toy.uncompressed_length Toy.uncompress
  1 HandshakeSample.unset HandshakeSample.unset_secrets MainSample.clock a hash).
Definition start : Connect := mkConnect (new_harness None 16) new_quality ∅ 0 0.

(** The candidate is dialed, and sends its Status [n] times. *)
Definition dialed_events (n : nat) : list connect_event :=
  [CandidateFound (candidate 30303); ConnectDial (DialBegins 0 10);
   ConnectDial (DialConnects 0 (Ok (MainSample.transport (repeat ProbeSample.status n))) 11)]
  ++ map (fun e => ConnectDial (DialEvent 0 e)) (reads_of (repeat ProbeSample.status n)).

(** The search of the survey and of the test of discovery. *)
Definition bootnode : Discv4Client.udp_endpoint := Discv4Client.mkAddr [138; 197; 51; 181] 30303.
Definition searching : list Discv4Client.Event :=
  [Discv4Client.Tick 1000 5; Discv4Client.Begin 0; Discv4Client.Begin 0; Discv4Client.Resume 0 (Some []); Discv4Client.Resume 0 None;
   Discv4Client.Receive (Discv4Client.Datagram MainSample.neighbours bootnode); Discv4Client.Begin 4; Discv4Client.Resume 1 (Some []);
   Discv4Client.Resume 1 (Some [])].
Definition survey_started : option (Ecdh.KeyPair * Survey) := survey_start ToySsl.digest 1 true true 0.
End HarnessSample.

Lemma sample_connect_started : HarnessSample.starts default_connect_args = Some HarnessSample.start.
Proof. vm_compute. reflexivity. Defined.

(** Three Statuses of one peer: a single dial is enough for the three connections that the program asks for. *)
Example one_peer_passes :
  let s := snd (HarnessSample.runs default_connect_args (HarnessSample.dialed_events 3) HarnessSample.start) in
  min_connections default_connect_args = 3 /\ length (dials (h_dialer (c_harness s))) = 1%nat
  /\ h_finished (c_harness s) = true /\ connect_passes default_connect_args s = true.
Proof. vm_compute. repeat split. Qed.

(** [--connections all] asks for none, and the program passes without a candidate. *)
Example no_number_passes :
  let a := HarnessSample.options ["--connections"; "all"]%string in
  min_connections a = 0 /\ connect_passes a HarnessSample.start = true.
Proof. vm_compute. split; reflexivity. Qed.

Lemma connect_accounts_witness :
  let h := c_harness (snd (HarnessSample.runs default_connect_args (HarnessSample.dialed_events 1) HarnessSample.start)) in
  h_stats h dialed_count = 1 /\ dialing h + failed_count (h_stats h)
    + (total_validated (sched (scheduling (h_dialer h))) - validated_count (sched (scheduling (h_dialer h)))) = 1.
Proof.
  destruct (connect_accounts ToySsl.digest Toy.aes_ecb Toy.aes_ctr Toy.compress Toy.uncompressed_length Toy.uncompress
    1 HandshakeSample.unset HandshakeSample.unset_secrets MainSample.clock default_connect_args HarnessSample.hash 0 0 true
    HarnessSample.start (HarnessSample.dialed_events 1) ltac:(vm_compute; discriminate) sample_connect_started) as (Hb & _).
  cbn zeta in *. assert (h_stats (c_harness (snd (HarnessSample.runs default_connect_args (HarnessSample.dialed_events 1) HarnessSample.start))) dialed_count = 1) as Hd
    by (vm_compute; reflexivity).
  split; [exact Hd |]. rewrite <- Hb. exact Hd.
Defined.

Lemma connect_dials_screened_witness :
  let ds := dials (h_dialer (c_harness (snd (HarnessSample.runs default_connect_args
    [CandidateFound (HarnessSample.candidate 0); CandidateFound (HarnessSample.candidate 30303)] HarnessSample.start)))) in
  length ds = 1%nat /\ forall x, x ∈ ds -> exists p, tcp_port (peer (dialed x)) = Discv5Types.peer_tcp_port p /\ Discv5Types.peer_tcp_port p <> 0.
Proof.
  cbn zeta. split; [vm_compute; reflexivity |]. intros x Hx.
  destruct (proj1 (connect_dials_screened ToySsl.digest Toy.aes_ecb Toy.aes_ctr Toy.compress Toy.uncompressed_length Toy.uncompress
    1 HandshakeSample.unset HandshakeSample.unset_secrets MainSample.clock default_connect_args HarnessSample.hash 0 0 true
    HarnessSample.start [CandidateFound (HarnessSample.candidate 0); CandidateFound (HarnessSample.candidate 30303)] eq_refl sample_connect_started) x Hx)
    as (p & _ & [Hp _] & [_ Hd] & _).
  exists p. split; [rewrite Hd; reflexivity | exact Hp].
Defined.

Lemma sample_searching_ok : Forall Discv4Bonding.event_ok HarnessSample.searching.
Proof.
  assert (bytes_ok MainSample.neighbours) as Hok by (apply (bool_decide_unpack _); vm_compute; exact I).
  repeat (apply Forall_cons_iff; split; [first [exact I | exact Hok] |]). constructor.
Defined.

(** The survey finds one peer, without a fork id. *)
Lemma survey_counts_witness :
  exists kp s0, HarnessSample.survey_started = Some (kp, s0)
  /\ let s := survey_runs ToySsl.digest kp (map SurveySearched HarnessSample.searching) s0 in
     peers_total s = 1 /\ surveys (found_in (s_discovery s)) s.
Proof.
  destruct HarnessSample.survey_started as [[kp s0]|] eqn:E; [| exfalso; vm_compute in E; discriminate E]. exists kp, s0. split; [reflexivity |].
  assert (Forall survey_event_ok (map SurveySearched HarnessSample.searching)) as Hok by (apply Forall_map; exact sample_searching_ok).
  destruct (survey_counts ToySsl.digest 1 kp true true 0 s0 (map SurveySearched HarnessSample.searching) [] E Hok) as [Hs _].
  split; [| exact Hs]. vm_compute in E. injection E as <- <-. vm_compute. reflexivity.
Defined.

(** The test of discovery counts that peer, but does not dial it. *)
Lemma discovery_dials_filtered_witness :
  exists kp t0, discovery_start ToySsl.digest 1 default_discovery_args HarnessSample.hash true true 0 = Some (kp, t0)
  /\ let t := snd (discovery_runs ToySsl.digest Toy.aes_ecb Toy.aes_ctr Toy.compress Toy.uncompressed_length Toy.uncompress
       1 HandshakeSample.unset HandshakeSample.unset_secrets MainSample.clock default_discovery_args HarnessSample.hash kp
       (map Searched HarnessSample.searching) t0) in
     peers_count t = len (offers (found_in (t_discovery t))) /\ peers_count t = 1 /\ dials (h_dialer (t_harness t)) = [].
Proof.
  destruct (discovery_start ToySsl.digest 1 default_discovery_args HarnessSample.hash true true 0) as [[kp t0]|] eqn:E;
    [| exfalso; vm_compute in E; discriminate E]. exists kp, t0. split; [reflexivity |].
  assert (Forall discovery_event_ok (map Searched HarnessSample.searching)) as Hok by (apply Forall_map; exact sample_searching_ok).
  assert (0 <= d_max_dials default_discovery_args) as Hmax by discriminate.
  destruct (discovery_dials_filtered ToySsl.digest Toy.aes_ecb Toy.aes_ctr Toy.compress Toy.uncompressed_length Toy.uncompress
    1 HandshakeSample.unset HandshakeSample.unset_secrets MainSample.clock kp default_discovery_args HarnessSample.hash true true 0 t0
    (map Searched HarnessSample.searching) Hmax E Hok) as (Hc & _).
  split; [exact Hc |]. vm_compute in E. injection E as <- <-. split; vm_compute; reflexivity.
Defined.
